(* ===== verification/_CoqProject ===== *)
-Q . S2P
Prelude.v
PyStr.v
Regex.v
Time.v
PyNum.v
Json.v
JsonDict.v
Passports.v
Policy.v
Transitions.v
MemoryPlane.v
Session.v
SessionSafety.v
SessionTheorems.v
Failover.v
Kernel.v
Classifier.v
Contracts.v
Admission.v
Providers.v
Recovery.v
Ladder.v
LadderSelect.v
LadderCooldown.v
HealthRecord.v
TokenBucket.v
HealthStore.v
HealthSystem.v
Admit.v
CostLedger.v
BoundedRecovery.v
Concurrency.v
Async.v
Runtime.v
Scheduler.v
RuntimeLogic.v
RuntimeDriver.v
RuntimeSafety.v
RuntimeProgress.v
RuntimeTheorems.v
Redaction.v
ReceiptStore.v
ReceiptChain.v
ReceiptTheorems.v
ClaimsModels.v
ClaimsLedger.v
ClaimsTheorems.v
ClaimsCodec.v
ClaimsExport.v
ClaimsRebuild.v
EventLog.v
GraphJson.v
RunReceipt.v
ReceiptBuild.v
ReceiptVerify.v
