(* ===== verification/Prelude.v ===== *)
(** * The verdict-core verification development

    verdict-core ([src/verdict/], Python) decides which model route may run a piece of
    agent work, and supervises that work. This library models the parts that carry its
    decisions and proves what they promise.

    ** The program and its parts

    - Work is a graph of nodes with owned files ([orchestration/contracts.py]); the graph
      is validated, split into layers, and nodes move through a state machine.
    - Routes (model endpoints behind a gateway) are admitted from live evidence
      ([admission.py]), then climb the eligibility ladder
      ([orchestration/eligibility.py]), which ranks them by capacity class
      ([capacity.py], [orchestration/provider_catalog.py],
      [orchestration/credential_pools.py]) and capability tier ([classifier.py]),
      confirms them with bounded live probes, and remembers failures as cooldowns.
    - The runtime ([orchestration/runtime.py]) runs the graph: a driver per node selects a
      route, dispatches a worker in a git worktree, validates and commits its work, and
      retries on another route after a failure; a scheduling loop starts the drivers,
      follows the operator's controls ([orchestration/controls.py]) and concludes the run
      with an independent review.
    - A failed worker is classified and recovered within a budget
      ([orchestration/recovery.py]).
    - Whether more work may start is decided by a concurrency governor, a ready gate and
      the footprints of stories ([orchestration/concurrency_governor.py],
      [orchestration/ready_gate.py], [orchestration/story_footprint.py]).
    - Spend is reserved and settled in a ledger ([cost_ledger.py]).
    - A task of several steps is a durable session ([execution_session.py]): every change
      is a checkpoint in an append-only store ([memory_plane.py]), from which another
      process resumes it. After a transient provider failure the failover engine
      ([failover_engine.py]) quarantines the model and re-arms the step on an authorized
      replacement; the bounded recovery controller ([bounded_recovery.py]) chooses the
      corrective action for any failure, within attempts, deadline and the ledger's budgets.
    - What a route or a tool can do is stated in passports ([capability_passports.py],
      [runtime_passports.py]); a policy ([policy.py]) decides from them which candidates may
      serve a task, before any ranking; the transition compiler ([transitions.py]) draws
      the retries and fallbacks that the policy leaves to one execution. The decision
      kernel ([decision_kernel.py]) decides from a catalog and live truth through the
      eligibility gate ([eligibility.py]), and gives a decision an id and a receipt that
      others verify.
    - Facts, decisions and events are kept as receipts ([receipt_store.py]): redacted, appended
      to a table, each chained to the one before in its scope by a hash, deleted by markers.
      What is claimed about a project is a ledger of claims ([claims_ledger.py],
      [claims_models.py]) with their status, evidence and freshness, which persists to such a
      store and is rebuilt from it.
    - What happened in a run is a log of events, and a receipt of the run is a projection of
      that log which others recompute ([orchestration/receipt.py]).

    ** Files, in dependency order

    - [Prelude]: the result monad with its notation, tactics, hint databases and the list
      lemmas the components share.
    - [PyStr], [Regex], [Time], [PyNum]: what the sources use of Python: string methods,
      insertion-ordered dictionaries and stable sorting; [re] patterns (compiled from the
      source's pattern text, matched by backtracking in continuation style); [datetime]
      with the proleptic Gregorian calendar, [isoformat] and [fromisoformat]; [Decimal]
      literals. A float that the code only compares, adds or scales is a rational [Q].
    - [Json]: [json.dumps] and [json.loads] on values whose floats are their [repr], with
      their round trip.
    - [JsonDict]: dictionaries read and written field by field: the class [DictExn] of the
      exceptions a reader raises, the checks the readers share, and their inversions.
    - [Passports]: routes, evidence, capability and runtime passports: their readers, writers
      and digests, and [resolve], [resolve_runtime].
    - [Policy]: [PolicyCandidate] and [Policy] with their checks, [policy_from_dict],
      [migrate]; [evaluate] as it fills its [Notes]; [compile]; [compile_policy]. The record
      [admissible] is what a policy promises, [tighter] the order of policies.
    - [Transitions]: [ExecutionContext] and the compiler of graphs ([transitions], [edge_to]);
      [may_move] is what a legal edge promises.
    - [MemoryPlane]: the table of [memory_plane.py]: [put], [supersede], [tombstone], [get],
      [history].
    - [Session]: [ExecutionSession] and its records, their dictionaries, and every method
      as an operation [op] on a [world]: the session object, the plane and the number of
      clock readings. [complete_step] is split where it checkpoints, since a process may
      die there.
    - [SessionSafety]: a transition system of calls, crashes, restarts and other writers of
      the plane ([sys_step], [reach]), its invariant, and the class [Stable] of what no
      operation undoes. [SessionTheorems]: the promises of a session, and a sample.
    - [Failover]: [FailoverEngine.failover] on such a world.
    - [Kernel]: the eligibility gate ([judge]), the escalation scan, [decide_on] with any
      ranker, ids and receipts over [canonical] values, [verify_decision]; [admits] is what
      the gates promise.
    - [BoundedRecovery]: [BoundedRecoveryController.decide], against a [CostLedger].
    - [Classifier]: [classifier.py], the pattern table verbatim.
    - [Contracts]: [contracts.py]: [norm_path], [work_node], [owns], [work_graph]
      (validation included), [layers], [ancestors], [check_ownership],
      [check_transition], [TaskRequirements]. Exceptions are values of [orch_exn].
    - [Admission]: the [AdmittedSet] of [admission.py] and its derivations.
    - [Providers]: provider and pool identity, alias collapsing, capacity classes.
    - [Recovery]: [FailureIntelligence.classify] and [RecoveryBudget].
    - [Ladder]: [EligibilityLadder]: assessment ([assess]), ranking ([rank_key],
      [probe_order]), selection ([select], [select_loop], [confirm_route]), and recording
      ([record_health], [record_failure], [record_success], [dispatch_blocker]). The class
      [LadderEnv] is its interface to the rest of the package: probes and cache writes
      (which may depend on the probes made before), proof staleness, usage history,
      ratings, session evidence. [LadderState] is the persisted state; one [select] call
      works on a [SelectState].
    - [LadderSelect], [LadderCooldown]: the theorems on selection and on cooldowns.
    - [HealthRecord]: the entry of a route and every way to record evidence ([record],
      [record_liveness], [record_passive_traffic], [record_passive_failure],
      [record_agentic_evidence]); [evolves] is what they all keep. [TokenBucket]: the sliding
      window of owned tokens, [consume], [available_at], [merge_from], [release_tokens].
      [HealthStore]: the object and its file: [merge_in_memory_over_disk] ([save]), [reload],
      [merge_and_save] and the locked operations, [commit_dispatch] among them.
      [HealthSystem]: processes that share the file ([system_step]), also when writes raise
      ([faulty_step]); [follows] is what every write of an informed object keeps, [known] what
      an object knows of the file, [file_keeps] what every write keeps.
    - [Admit]: [admit] and [_judge] of [admission.py], the evidence adapters, the
      subscription snapshots of [subscription_headroom.py] and [QuotaEvidence] of
      [availability.py].
    - [CostLedger]: the ledger of [cost_ledger.py] as a state machine over operations.
    - [Concurrency]: governor, ready gate and story footprints.
    - [Async]: coroutines: a [task] returns, raises, or makes an operation and goes on with
      its reply; [try_except], [try_finally].
    - [Runtime]: the coroutines of [DagRuntime] that a driver runs ([drive], [drive_loop],
      [attempt], [dispatch], [settle], [validate], [integrate_node], the git operations), as
      tasks over the operations [op]. A driver owns the [NodeRun] of its node; selector,
      executor, classifier, prompt callback, reviewer, clock, git and the file system are
      queries, answered by an environment that may answer anything or raise.
    - [Scheduler]: [run]: the state [Sys], the control handlers ([poll_controls]), readiness
      and propagation of blocks, [conclude], and [sys_step], one turn of the event loop: a
      driver runs to its next suspension, or the controller runs a round. A run is any list
      of turns ([run_schedule]) in any environment.
    - [RuntimeLogic]: a weakest-precondition calculus for tasks that also says what a
      cancelled task may still do ([unwinds], [aborts]). [RuntimeDriver]: [good], what holds
      of a node and its trace, and that every driver keeps it ([drive_spec]).
      [RuntimeSafety]: the invariant [sys_inv] of all states of all runs.
      [RuntimeProgress]: the order in which locks are taken ([orderly], [lock_inv]), no
      deadlock, termination of drivers. [RuntimeTheorems]: the theorems on runs, and a
      sample run.
    - [Redaction]: [redact_sensitive_dict]. [ReceiptStore]: the table of receipts and every
      operation on it ([put_receipt], [append_event], [tombstone], [apply_retention],
      [verify_integrity], [query_receipts], [export_manifest], [import_manifest]).
      [ReceiptChain]: the operations as steps ([store_step]), the invariant [sound], and what a
      verified chain fixes ([links]). [ReceiptTheorems]: the promises of the store, and a
      sample.
    - [ClaimsModels]: claims, transitions, references and freshness policies with their checks.
      [ClaimsLedger]: the ledger as operations on its collections and its store; the class
      [ReceiptSink] is its interface to a store, [receipt_sink] the receipt store behind it.
      [ClaimsTheorems]: calls as steps ([ledger_step]) and the promises of the ledger.
      [ClaimsCodec], [ClaimsExport]: what is written is read back. [ClaimsRebuild]: the class
      [SinkLaws] of what a store promises to a ledger, [receipt_sink_laws] that the receipt store
      keeps it, and the rebuilt ledger.
    - [EventLog]: events as lines of JSON, the log as the text of its file ([open_log], [emit],
      [read_events]), and the histories of its writers, crashes included ([writes]). [GraphJson]:
      work graphs as JSON. [RunReceipt]: the record of one node ([scan_event], [node_record]).
      [ReceiptBuild]: [build_run_receipt], [completion_verdict] and [verify_run_receipt] on the
      files of a run ([run_files]). [ReceiptVerify]: what a receipt proves ([complete_run]), and
      a sample.

    ** What the theorems show

    - Runs, whatever the workers, git, the router, the operator and the order of events do:
      nothing is sent unchecked ([sends_gated], [no_authority_no_send]); nodes are validated
      on evidence ([validated_on_evidence]) and after their dependencies
      ([dependencies_first]); attempts and parallel workers are bounded, and an attempt sends
      at most once ([attempts_bounded], [parallel_bounded]); COMPLETE is earned
      ([complete_is_earned]) and reviewed by none of the routes that the nodes record
      ([review_independent]); a run that ends by itself is settled
      ([run_settles]), drivers with a worker slot neither deadlock ([drivers_finish]) nor run
      forever ([turns_terminate]), and the exceptions that end one are listed
      ([driver_exceptions]); what was
      cancelled stays closed ([closed_for_good]); blocks spread exactly to dependents
      ([propagate_exact]); prompts fit the window ([context_plan_bounds]). Graphs that the
      constructors accept are all the theorems assume ([constructed_well_formed]).
    - Selection: a selected route passed every gate on the evidence seen, is confirmed and
      launchable, within the probe budget ([select_sound]); no cheaper candidate is skipped
      ([select_cheapest]); on an inventory that names each route once selection returns and
      its launch assertion does not fire ([select_decides]); failures keep routes, pools and providers out until their deadline
      ([record_failure_blocks]), within one call too ([account_failure_stops_probes]);
      successes clear exactly what they should ([record_success_clears]).
    - Admission: negative evidence fails closed ([negative_evidence_blocks]); persisted
      state is no launch authority ([persisted_state_no_authority]); what an admitted route
      has ([admitted_route]); sets are only narrowed ([admission_narrows]); the launch gate
      ([confirmation_gates]).
    - Identity and capacity: alias collapsing, the free-only-if-public rule, not-free
      overrides, the spend guard of the classifier.
    - Contracts: layers exist exactly for acyclic graphs, partition the nodes and respect
      dependencies; concurrent nodes own no common file; the history of a validated node;
      path safety.
    - Recovery: every terminal gets a consistent classification; the budget is bounded.
    - Ledger: the counters refine the sums over reservations; pools are never overcommitted
      by disciplined use; the protected floor.
    - Sessions: [resume] gives back what was checkpointed but for an empty cursor, whatever
      calls, exceptions, crashes and writers of other sessions came before ([resume_exact], from [session_roundtrip] and
      [loads_dumps]); an effect that landed is not repeated ([irreversible_at_most_once],
      [side_effects_complete_once]); an old copy of the session is refused
      ([stale_checkpoint_refused]). The store is append-only ([append_only]).
    - Failover and bounded recovery: replacements are authorized and counted
      ([replacement_is_authorized], [failover_counted]); a decision to continue is within
      every bound ([continue_within_bounds]) and can be reserved in the ledger when its
      estimates are not negative ([continue_is_affordable]), there are at most [max_attempts] of them
      ([recovery_attempts_bounded]), a switch keeps the tier ([switch_is_equivalent]), an
      escalation is the least one ([escalation_is_least]), and the digest identifies the
      evidence ([digest_identifies_evidence]).
    - Passports: what a reader accepts is read back from what it writes ([passport_exact]);
      keys and digests identify ([identity_digests]); support needs a current direct
      observation ([capability_fail_closed]), of a tool a current negotiation
      ([runtime_fail_closed]).
    - Policy: ALLOW means exactly [admissible], and tightening a policy never allows more
      ([allow_iff]); compiling is total and exact, and a ranking only orders
      ([compile_exact]); protected and restricted tasks ([protected_tasks]); policies are
      read back ([policy_exact]).
    - Transitions: the graph covers the candidates ([graph_complete]); its legal edges are
      exactly the permitted moves ([legal_edges_exact]); no change of model after bytes where
      route identities are asked for ([no_switch_after_bytes]).
    - Kernel: rankers decide neither the outcome nor who is admitted ([advisory_cannot_decide]); missing truth admits nothing
      that is protected ([kernel_fail_closed]); verification accepts what was decided and
      binds it to its inputs ([verify_binds], [verified_not_overstated]); the scan finds the
      least tier ([scan_spec]).
    - Health: recordings never forget a failure ([failures_remembered]), count exactly as long
      as they should ([record_window], [backoff_doubles]), traffic proves liveness only
      ([traffic_exact]), a contradicted session proof stays revoked ([revocation_lasts]).
      Buckets: no window exceeds its capacity, when it is shorter than the bucket's by how late
      the clocks of requests come in ([window_budget]), the earliest free time
      ([available_exact]), merging is a semilattice and conservative ([merge_order_free],
      [merge_conservative]), handles are released once ([release_once]). In every history of the
      processes: one permit per attempt ([permit_once]), exactly when authorized
      ([commit_exact]), never from a proof before a revocation ([revocation_is_final]) or, when
      no write of the file raises, before a failure ([failure_is_final]); what saving and rereading keep ([save_route], [save_cooldown],
      [reload_route]).
    - Receipts: a verified chain fixes its past, up to a collision of SHA-256 ([chain_binds]);
      whatever the operations do, the store verifies ([reachable_store_verifies]) and only grows
      ([store_append_only]); keyed writes happen once ([put_receipt_once]), terminal events end
      a lifecycle ([terminal_events_are_final]), deleted receipts stay hidden and kept
      ([deleted_stays_hidden]), exports within the cap are imported back
      ([export_import_round_trip]), retention
      does what it reports ([retention_exact]), protected fields do not survive redaction
      ([protected_fields_redacted]).
    - Claims: a status is explained by the recorded transitions ([history_explains_status]),
      superseded claims are final ([supersession_is_final]), a call that raises changes nothing
      in memory ([failed_call_keeps_ledger]); what is selected ([select_active_exact]) and
      hydrated ([hydrate_sound]); a ledger is rebuilt from its store, after calls that do not
      raise between their writes ([rebuild_exact]), and from
      its export ([export_exact]).
    - Event log and run receipt: the log survives crashes of its writers ([log_survives_crashes]);
      a written receipt verifies ([written_receipt_verifies]), and one that verifies says COMPLETE
      exactly when log, graph and review hold the evidence ([verified_receipt_exact]).
    - Behaviours of the code that differ from its intent are theorems on concrete inputs:
      [partial_twice_overcommits], [nested_ownership_accepted],
      [unknown_headroom_skips_policy], [credit_balance_is_launch_authority],
      [collide_misses_overlap], [retry_leaves_dependents_blocked],
      [crash_after_validation_reports_blocked], [crashed_route_may_review],
      [no_slots_no_turn], [owned_files_unchecked], [aliased_routes_stop_selection],
      [failed_write_forgets_failure], [late_request_overspends],
      [negative_estimate_continues], [completed_with_failed_step],
      [completed_resumes_at_first_step], [skipped_last_step_strands],
      [stale_process_overtakes], [only_tools_required], [overflow_keeps_model],
      [overflow_hides_frontier_call], [escalation_stays_in_tier],
      [rehydrate_relabels_frontier], [future_evidence_counts], [refusal_expires],
      [fresh_flag_ignored], [denied_provider_serves], [bad_name_raises], [name_decides],
      [unknown_routes_are_same], [initial_stays_legal], [safe_flag_ignored],
      [receipt_swapped], [denied_passes_as_degraded], [ranker_forges_provider],
      [set_order_changes_digest], [session_pass_denies], [cleared_cooldown_returns],
      [compound_parts_miss], [low_sequences_are_unchecked], [put_bypasses_terminal_checks],
      [capped_export_is_refused], [truncation_unseen], [refused_claim_is_rebuilt],
      [dispute_does_not_block], [verification_repairs].

    ** Bounds and fuel

    [layers_loop] and [ancestors_loop] take fuel equal to the number of nodes (and of
    edges); [layers_iff_acyclic] and [ancestors_correct] show that this is enough.
    [pool_of] uses the length of the route id, which every wrapper it strips shortens.
    [drive_loop] has [drive_fuel], three rounds more than twice the attempt limit: every
    round uses up an attempt, a revocation or the one wait ([driver_exceptions]: it never
    runs out). [propagate_loop] has one round more than there are nodes ([propagate_exact]).
    [pages] has one page more than there are rows: each page takes at least one
    ([pages_all]). The cap of 100000 records of a query is written out, and the theorems on exports
    and rebuilt ledgers ask for fewer.
    Regular expressions are structural on the pattern with the length of the input for
    repetition. Maps and sets of strings are [gmap] and [gset]. Instants are microseconds; ISO text covers the years 1 to 9999.

    ** Not modelled

    Input and output, which decides nothing by itself: HTTP clients and servers (the serve path and
    the OmniRoute adapters among them), command line and user interfaces, subprocesses and
    the executors that start workers, set-up of other tools, and the file formats of the health
    cache and of the control channel. Of the run receipt: the version and git state of its producer,
    the layout of the written file and the rows for the outcome ledger. Search, retrieval and the assembly of context texts, with the
    context units that a hydrated ledger hands out. Of the runtime: the texts of prompts and the
    payload fields of events that nothing decides on. Of the memory plane: search, the outbox,
    verified writes, and the columns no decision reads. Of the ladder: probes that raise, and writes of
    its state and of admission receipts that fail. Of the receipt store: the set-up, migration,
    backup and health check of its SQLite file, and imports of manifests whose items lack fields.
    Of policies: [metadata], NaN and infinite costs, and the digests of compilations; of the
    kernel: the baseline ranker, for which any ranker stands. SHA-256, the clock, random ids and the
    order of iteration over a set are parameters.
    Strings are byte strings: case mapping and classes are those of ASCII. *)
From stdpp Require Export base tactics list strings gmap fin_maps.
From Stdlib Require Export ZArith QArith Lia.
From Stdlib Require Import Ascii DecimalString.
From Stdlib Require Export Sorting.Permutation Sorting.Sorted.

Declare Scope verdict_scope.
Delimit Scope verdict_scope with verdict.
#[global] Open Scope verdict_scope.
#[global] Open Scope string_scope.
#[global] Open Scope list_scope.
#[global] Open Scope Z_scope.

(** * Automation *)

(** Case analysis on the string comparisons of the goal. *)
Ltac eqb_cases :=
  repeat match goal with |- context [String.eqb ?a ?b] => destruct (String.eqb_spec a b) end.

(** Case analysis on the first scrutinee of the goal (or of a hypothesis),
    keeping the equation. *)
Ltac case_goal :=
  match goal with
  | |- context [match ?x with _ => _ end] =>
      lazymatch x with
      | context [match _ with _ => _ end] => fail
      | _ => destruct x eqn:?
      end
  end.

Ltac case_hyp H :=
  match type of H with
  | context [match ?x with _ => _ end] =>
      lazymatch x with
      | context [match _ with _ => _ end] => fail
      | _ => destruct x eqn:?
      end
  end.

(** Normalises boolean hypotheses to propositions. *)
Ltac bool_hyps :=
  repeat match goal with
  | H : (_ && _)%bool = true |- _ => apply andb_true_iff in H as [? ?]
  | H : (_ || _)%bool = false |- _ => apply orb_false_iff in H as [? ?]
  | H : (_ || _)%bool = true |- _ => apply orb_true_iff in H
  | H : (_ && _)%bool = false |- _ => apply andb_false_iff in H
  | H : negb _ = true |- _ => apply negb_true_iff in H
  | H : negb _ = false |- _ => apply negb_false_iff in H
  | H : String.eqb _ _ = true |- _ => apply String.eqb_eq in H
  | H : String.eqb _ _ = false |- _ => apply String.eqb_neq in H
  | H : bool_decide _ = true |- _ => apply bool_decide_eq_true in H
  | H : bool_decide _ = false |- _ => apply bool_decide_eq_false in H
  end.

Create HintDb verdict.
Create Rewrite HintDb verdict_rw.

(** * Errors as values

    A Python function that may raise returns [result E A]; [E] is the type of
    the exceptions it raises. *)
Inductive result (E A : Type) : Type :=
| Ok (a : A)
| Err (e : E).
Arguments Ok {E A} a.
Arguments Err {E A} e.

Definition result_bind {E A B} (f : A -> result E B) (m : result E A) : result E B :=
  match m with Ok a => f a | Err e => Err e end.

#[export] Instance result_mret E : MRet (result E) := fun A a => Ok a.
#[export] Instance result_mbind E : MBind (result E) := @result_bind E.

Definition is_ok {E A} (m : result E A) : bool :=
  match m with Ok _ => true | Err _ => false end.

(** [guard c e]: the statement [if c: raise e]. *)
Definition raise_if {E} (c : bool) (e : E) : result E unit :=
  if c then Err e else Ok tt.

(** A [for] comprehension whose body may raise: the first exception wins. *)
Fixpoint map_result {E A B} (f : A -> result E B) (l : list A) : result E (list B) :=
  match l with
  | [] => Ok []
  | x :: l => y ← f x; ys ← map_result f l; Ok (y :: ys)
  end.

Section result_lemmas.
Context {E : Type}.

Lemma bind_ok {A B} (m : result E A) (f : A -> result E B) b :
  (x ← m; f x) = Ok b <-> exists a, m = Ok a /\ f a = Ok b.
Proof. destruct m; cbn; naive_solver. Qed.

Lemma raise_if_ok (c : bool) (e : E) u : raise_if c e = Ok u <-> c = false.
Proof. destruct c, u; cbn; naive_solver. Qed.

Lemma map_result_ok {A B} (f : A -> result E B) l ys :
  map_result f l = Ok ys <-> Forall2 (fun x y => f x = Ok y) l ys.
Proof.
  revert ys; induction l as [|x l IH]; intros ys; cbn [map_result].
  - split; [intros [= <-]; constructor | inversion 1; done].
  - rewrite bind_ok; setoid_rewrite bind_ok. split.
    + intros (y & Hy & zs & Hzs & [= <-]). constructor; [done|]. by apply IH.
    + inversion 1; subst. eexists; split; [done|]. eexists; split; [|done].
      by apply IH.
Qed.
End result_lemmas.

(** Destructs every bind and guard of a hypothesis [m = Ok v]. *)
Ltac inv_ok :=
  repeat match goal with
  | H : (_ ≫= _) = Ok _ |- _ => apply bind_ok in H as (? & ? & ?)
  | H : raise_if _ _ = Ok _ |- _ => apply raise_if_ok in H
  | H : Ok _ = Ok _ |- _ => injection H as H
  | H : Err _ = Ok _ |- _ => discriminate H
  end.

(** * Lists *)

Lemma nodup_fst_inj {A B} (l : list (A * B)) i a b :
  base.NoDup (map fst l) -> (i, a) ∈ l -> (i, b) ∈ l -> a = b.
Proof.
  induction l as [|[j c] l IH]; cbn; [intros _ []%not_elem_of_nil|].
  intros [Hj Hnd]%NoDup_cons Ha Hb.
  assert (Hfst : forall x, (j, x) ∈ l -> False).
  { intros x Hx. apply Hj. apply list_elem_of_fmap. by exists (j, x). }
  rewrite !elem_of_cons in *.
  destruct Ha as [Ha|Ha], Hb as [Hb|Hb]; simplify_eq; eauto; exfalso; by eapply Hfst.
Qed.

Lemma elem_of_concat {A} (x : A) ls : x ∈ concat ls <-> exists l, x ∈ l /\ l ∈ ls.
Proof.
  induction ls as [|l ls IH]; cbn.
  - split; [by intros []%not_elem_of_nil|by intros (? & _ & []%not_elem_of_nil)].
  - rewrite elem_of_app, IH. split.
    + intros [?|(l' & ? & ?)]; [exists l|exists l']; split; set_solver.
    + intros (l' & ? & [->|?]%elem_of_cons); [by left|right; eauto].
Qed.

Lemma elem_of_lfilter {A} (f : A -> bool) x l :
  x ∈ List.filter f l <-> x ∈ l /\ f x = true.
Proof. by rewrite !list_elem_of_In, filter_In. Qed.

Lemma forallb_exists_false {A} (f : A -> bool) l :
  forallb f l = false -> exists x, x ∈ l /\ f x = false.
Proof.
  induction l as [|y l IH]; cbn; [done|]. intros [Hy|Hl]%andb_false_iff.
  - exists y. set_solver.
  - destruct (IH Hl) as (x & ? & ?). exists x. set_solver.
Qed.

Lemma lfilter_length_lt {A} (f : A -> bool) x l :
  x ∈ l -> f x = false -> (length (List.filter f l) < length l)%nat.
Proof.
  intros Hx Hf. pose proof (filter_length_le f) as Hle.
  induction l as [|y l IH]; [by apply not_elem_of_nil in Hx|].
  apply elem_of_cons in Hx as [->|Hx]; cbn; specialize (Hle l).
  - rewrite Hf. lia.
  - specialize (IH Hx). destruct (f y); cbn; lia.
Qed.

(** An element of a duplicate-free concatenation lies in one block only. *)
Lemma concat_index_inj {A} (ls : list (list A)) x i j a b :
  base.NoDup (concat ls) -> ls !! i = Some a -> ls !! j = Some b ->
  x ∈ a -> x ∈ b -> i = j.
Proof.
  revert i j; induction ls as [|l ls IH]; intros i j; cbn; [done|].
  intros (Hl & Hdis & Hls)%NoDup_app Hi Hj Ha Hb.
  assert (Hlater : forall k c, ls !! k = Some c -> x ∈ c -> x ∈ concat ls).
  { intros k c Hk Hx. apply elem_of_concat. exists c. split; [done|].
    by eapply list_elem_of_lookup_2. }
  destruct i, j; cbn in *; simplify_eq; eauto; exfalso; eapply Hdis; eauto.
Qed.

(** Interleaving two families of lists only reorders them. *)
Lemma concat_map_app {A B} (f g : A -> list B) l :
  concat (map (fun x => f x ++ g x) l) ≡ₚ concat (map f l) ++ concat (map g l).
Proof.
  induction l as [|x l IH]; cbn; [done|]. rewrite IH, !app_assoc.
  apply Permutation_app; [|done]. rewrite <- !app_assoc. apply Permutation_app; [done|].
  apply Permutation_app_comm.
Qed.

Lemma concat_map_nil {A B} (l : list A) : concat (map (fun _ => @nil B) l) = [].
Proof. by induction l. Qed.

(** Grouping by a key that every element has among [ks]. *)
Lemma group_perm {A K} `{EqDecision K} (key : A -> K) (ok : A -> bool) (ks : list K) l :
  base.NoDup ks -> (forall a, a ∈ l -> key a ∈ ks) ->
  concat (map (fun k => List.filter (fun a => bool_decide (key a = k) && ok a) l) ks)
  ≡ₚ List.filter ok l.
Proof.
  intros Hnd. induction l as [|a l IH]; intros Hk; [cbn; by rewrite concat_map_nil|].
  transitivity (concat (map (fun k => (if bool_decide (key a = k) && ok a then [a] else [])
    ++ List.filter (fun a => bool_decide (key a = k) && ok a) l) ks)).
  { match goal with |- ?x ≡ₚ ?y => enough (x = y) as -> by done end. f_equal. apply map_ext. intros k. cbn. by destruct (_ && _). }
  rewrite concat_map_app, IH by (intros; apply Hk; by right).
  assert (Ha : key a ∈ ks) by (apply Hk; by left). clear IH Hk.
  cbn [List.filter]. destruct (ok a).
  - assert (concat (map (fun k => if bool_decide (key a = k) && true then [a] else []) ks) = [a]) as ->;
      [|done].
    induction Hnd as [|k ks Hnk Hnd IH]; [by apply not_elem_of_nil in Ha|]. cbn.
    destruct (decide (key a = k)) as [<-|Hne].
    + rewrite bool_decide_true by done. cbn. f_equal.
      assert (Hz : forall ks', key a ∉ ks' ->
        concat (map (fun k => if bool_decide (key a = k) && true then [a] else []) ks') = []).
      { induction ks' as [|k' ks' IH']; intros Hn; [done|]. cbn.
        apply not_elem_of_cons in Hn as [Hk' Hn].
        rewrite bool_decide_false by done. cbn. by apply IH'. }
      by apply Hz.
    + rewrite bool_decide_false by done. cbn. apply IH. by apply elem_of_cons in Ha as [?|?].
  - assert (concat (map (fun k => if bool_decide (key a = k) && false then [a] else []) ks) = []) as ->;
      [|done]. clear. induction ks as [|k ks IH]; cbn; [done|]. by rewrite andb_false_r.
Qed.

Lemma nodup_map_inj {A B} (f : A -> B) (l : list A) x y :
  base.NoDup (map f l) -> x ∈ l -> y ∈ l -> f x = f y -> x = y.
Proof.
  induction l as [|z l IH]; cbn; intros Hnd Hx Hy E; [by apply not_elem_of_nil in Hx|].
  apply NoDup_cons in Hnd as [Hz Hnd].
  apply elem_of_cons in Hx as [->|Hx], Hy as [->|Hy]; auto; destruct Hz;
    apply list_elem_of_fmap; eauto.
Qed.

Lemma nodup_map_sub {A B} (f : A -> B) (l k : list A) :
  base.NoDup (map f l) -> base.NoDup k -> k ⊆ l -> base.NoDup (map f k).
Proof.
  intros Hl. induction 1 as [|x k Hx Hk IH]; intros Hs; cbn; [constructor|]. constructor.
  - intros (y & E & Hy)%list_elem_of_fmap. apply Hx. rewrite (nodup_map_inj f l x y); set_solver.
  - apply IH. set_solver.
Qed.

Lemma elem_of_omap {A B} (f : A -> option B) (l : list A) y :
  y ∈ omap f l <-> exists x, x ∈ l /\ f x = Some y.
Proof.
  induction l as [|x l IH]; cbn.
  - split; [by intros []%not_elem_of_nil|by intros (? & []%not_elem_of_nil & _)].
  - destruct (f x) as [z|] eqn:E; rewrite ?elem_of_cons, IH; setoid_rewrite elem_of_cons;
      naive_solver.
Qed.

Lemma elem_of_concat_map {A B} (f : A -> list B) (l : list A) y :
  y ∈ concat (map f l) <-> exists x, x ∈ l /\ y ∈ f x.
Proof.
  induction l as [|x l IH]; cbn.
  - split; [by intros []%not_elem_of_nil|by intros (? & []%not_elem_of_nil & _)].
  - rewrite elem_of_app, IH. setoid_rewrite elem_of_cons. naive_solver.
Qed.

Lemma existsb_false {A} (f : A -> bool) (l : list A) x :
  existsb f l = false -> x ∈ l -> f x = false.
Proof.
  intros H Hx. destruct (f x) eqn:E; [|done]. apply not_true_iff_false in H. destruct H.
  apply existsb_exists. exists x. by rewrite <- list_elem_of_In.
Qed.

Lemma elem_of_rev {A} (l : list A) x : x ∈ rev l <-> x ∈ l.
Proof. by rewrite !list_elem_of_In, <- in_rev. Qed.
