(* ===== verification/PyStr.v ===== *)
(** Python's [str] and list builtins, as far as the modelled sources use them.

    Strings are Rocq [string]s over 7-bit characters: the identifiers, error
    texts and paths the code inspects are ASCII, so [str.lower], [str.strip]
    and case-insensitive matching are their ASCII versions. *)
From Stdlib Require Import Ascii DecimalString.
From S2P Require Import Prelude.

(** * Characters *)

Definition ascii_lower (c : ascii) : ascii :=
  let n := N_of_ascii c in
  if (65 <=? n)%N && (n <=? 90)%N then ascii_of_N (n + 32) else c.

(** Characters [str.strip()] and [\s] treat as white space. *)
Definition is_space (c : ascii) : bool :=
  let n := N_of_ascii c in
  ((9 <=? n)%N && (n <=? 13)%N) || ((28 <=? n)%N && (n <=? 32)%N).

Definition is_digit (c : ascii) : bool :=
  let n := N_of_ascii c in (48 <=? n)%N && (n <=? 57)%N.

(** [\w] *)
Definition is_word (c : ascii) : bool :=
  let n := N_of_ascii c in
  is_digit c || ((65 <=? n)%N && (n <=? 90)%N) || ((97 <=? n)%N && (n <=? 122)%N)
  || (n =? 95)%N.

(** * [str] methods *)

Fixpoint lower (s : string) : string :=
  match s with
  | EmptyString => EmptyString
  | String c s => String (ascii_lower c) (lower s)
  end.

Fixpoint lstrip_by (p : ascii -> bool) (s : string) : string :=
  match s with
  | String c s' => if p c then lstrip_by p s' else s
  | EmptyString => EmptyString
  end.

Fixpoint rstrip_by (p : ascii -> bool) (s : string) : string :=
  match s with
  | EmptyString => EmptyString
  | String c s' =>
      match rstrip_by p s' with
      | EmptyString => if p c then EmptyString else String c EmptyString
      | t => String c t
      end
  end.

(** [s.strip()] *)
Definition strip (s : string) : string := rstrip_by is_space (lstrip_by is_space s).

(** [s.rstrip(c)] for a one-character argument *)
Definition rstrip_char (c : ascii) (s : string) : string := rstrip_by (Ascii.eqb c) s.

(** [s.startswith(p)] *)
Definition startswith (s p : string) : bool := String.prefix p s.

(** [p in s] *)
Fixpoint contains (s p : string) : bool :=
  String.prefix p s
  || match s with EmptyString => false | String _ s' => contains s' p end.

Fixpoint drop_str (n : nat) (s : string) : string :=
  match n, s with
  | O, _ => s
  | S n, String _ s => drop_str n s
  | S _, EmptyString => EmptyString
  end.

Fixpoint take_str (n : nat) (s : string) : string :=
  match n, s with
  | O, _ => EmptyString
  | S n, String c s => String c (take_str n s)
  | S _, EmptyString => EmptyString
  end.

(** [s.endswith(p)] *)
Definition endswith (s p : string) : bool :=
  let n := (String.length s - String.length p)%nat in
  (String.length p <=? String.length s)%nat && String.eqb (drop_str n s) p.

(** [s[:-len(p)]] for a suffix [p] *)
Definition chop_suffix (s p : string) : string :=
  take_str (String.length s - String.length p) s.

(** [s.replace(a, b)] for single characters *)
Fixpoint replace_char (a b : ascii) (s : string) : string :=
  match s with
  | EmptyString => EmptyString
  | String c s => String (if Ascii.eqb c a then b else c) (replace_char a b s)
  end.

(** [s.replace(a, r)] for a one-character [a] *)
Fixpoint replace_with (a : ascii) (r s : string) : string :=
  match s with
  | EmptyString => EmptyString
  | String c s => if Ascii.eqb c a then r +:+ replace_with a r s
                  else String c (replace_with a r s)
  end.

(** [s.split(c)] *)
Fixpoint split (c : ascii) (s : string) : list string :=
  match s with
  | EmptyString => [EmptyString]
  | String d s' =>
      if Ascii.eqb d c then EmptyString :: split c s'
      else match split c s' with
           | w :: ws => String d w :: ws
           | [] => [String d EmptyString]
           end
  end.

(** [s.partition(c)]: the part before the first [c], and the part after it. *)
Fixpoint partition1 (c : ascii) (s : string) : string * option string :=
  match s with
  | EmptyString => (EmptyString, None)
  | String d s' =>
      if Ascii.eqb d c then (EmptyString, Some s')
      else let '(a, b) := partition1 c s' in (String d a, b)
  end.

(** [s.split(c, 1)[0]] *)
Definition split1_head (c : ascii) (s : string) : string := fst (partition1 c s).

(** [s.split(c, 1)[-1]] *)
Definition split1_last (c : ascii) (s : string) : string :=
  match partition1 c s with (_, Some r) => r | (h, None) => h end.

(** [s.split(c)[-1]] *)
Definition split_last (c : ascii) (s : string) : string :=
  List.last (split c s) EmptyString.

(** [sep.join(ws)] *)
Fixpoint join (sep : string) (ws : list string) : string :=
  match ws with
  | [] => EmptyString
  | [w] => w
  | w :: ws => w +:+ sep +:+ join sep ws
  end.

(** [str(n)] for an [int] *)
Definition str_of_Z (z : Z) : string := NilZero.string_of_int (Z.to_int z).

(** [repr(s)] for a string without quotes or escapes *)
Definition repr (s : string) : string := "'" +:+ s +:+ "'".

(** * Containers *)

(** [x in xs] for strings *)
Definition mem (x : string) (xs : list string) : bool := existsb (String.eqb x) xs.

#[global] Arguments mem : simpl never.

(** [dict.fromkeys(xs)]: first occurrences, in order *)
Fixpoint dedupe_from (seen xs : list string) : list string :=
  match xs with
  | [] => []
  | x :: xs => if mem x seen then dedupe_from seen xs
               else x :: dedupe_from (x :: seen) xs
  end.

(** [sorted(xs, key=...)]: stable insertion sort for a total boolean order. *)
Section sort_by.
Context {A : Type} (le : A -> A -> bool).

Fixpoint insert_by (x : A) (l : list A) : list A :=
  match l with
  | [] => [x]
  | y :: l' => if le x y then x :: l else y :: insert_by x l'
  end.

Definition sort_by (l : list A) : list A := foldr insert_by [] l.
End sort_by.

(** [str] comparison [a <= b], code point by code point *)
Fixpoint str_leb (a b : string) : bool :=
  match a, b with
  | EmptyString, _ => true
  | String _ _, EmptyString => false
  | String x a', String y b' =>
      if Ascii.eqb x y then str_leb a' b'
      else (N_of_ascii x <=? N_of_ascii y)%N
  end.

Definition str_ltb (a b : string) : bool := negb (str_leb b a).

Definition sort_str : list string -> list string := sort_by str_leb.

(** Insertion-ordered dictionaries: [d[k] = v] keeps the position of a present
    key and appends a new one. *)
Section dict.
Context {V : Type}.

Fixpoint dict_get (k : string) (d : list (string * V)) : option V :=
  match d with
  | [] => None
  | (k', v) :: d => if String.eqb k k' then Some v else dict_get k d
  end.

Fixpoint dict_set (k : string) (v : V) (d : list (string * V)) : list (string * V) :=
  match d with
  | [] => [(k, v)]
  | (k', v') :: d' =>
      if String.eqb k k' then (k', v) :: d' else (k', v') :: dict_set k v d'
  end.
End dict.

(** * Lemmas *)

Lemma mem_spec x xs : mem x xs = true <-> x ∈ xs.
Proof.
  unfold mem. rewrite existsb_exists. split.
  - intros (y & Hy & ->%String.eqb_eq). by apply list_elem_of_In.
  - intros H. exists x. rewrite String.eqb_refl. by rewrite <- list_elem_of_In.
Qed.

Lemma mem_cons x y xs : mem x (y :: xs) = String.eqb x y || mem x xs.
Proof. reflexivity. Qed.

Lemma mem_false x xs : mem x xs = false <-> x ∉ xs.
Proof. rewrite <- mem_spec. destruct (mem x xs); naive_solver. Qed.

Lemma dedupe_from_elem x seen xs :
  x ∈ dedupe_from seen xs <-> x ∈ xs /\ x ∉ seen.
Proof.
  revert seen; induction xs as [|y xs IH]; intros seen; cbn; [set_solver|].
  destruct (mem y seen) eqn:E.
  - apply mem_spec in E. rewrite IH. set_solver.
  - apply mem_false in E. rewrite elem_of_cons, IH.
    destruct (decide (x = y)); set_solver.
Qed.

Lemma dedupe_from_nodup seen xs : base.NoDup (dedupe_from seen xs).
Proof.
  revert seen; induction xs as [|y xs IH]; intros seen; cbn; [constructor|].
  destruct (mem y seen) eqn:E; [done|]. constructor; [|done].
  rewrite dedupe_from_elem. set_solver.
Qed.

Section sort_lemmas.
Context {A : Type} (le : A -> A -> bool).

Lemma insert_by_perm x l : insert_by le x l ≡ₚ x :: l.
Proof.
  induction l as [|y l IH]; cbn; [done|].
  destruct (le x y); [done|]. rewrite IH. apply Permutation_swap.
Qed.

Lemma sort_by_perm l : sort_by le l ≡ₚ l.
Proof.
  induction l as [|x l IH]; cbn; [done|].
  rewrite insert_by_perm. by rewrite IH.
Qed.

Lemma elem_of_sort_by x l : x ∈ sort_by le l <-> x ∈ l.
Proof. by rewrite sort_by_perm. Qed.

Context (le_total : forall x y, le x y = true \/ le y x = true).
Context (le_trans : forall x y z, le x y = true -> le y z = true -> le x z = true).

Lemma insert_by_sorted x l :
  StronglySorted (fun a b => le a b = true) l ->
  StronglySorted (fun a b => le a b = true) (insert_by le x l).
Proof.
  induction 1 as [|y l Hs IH Hall]; cbn; [repeat constructor|].
  destruct (le x y) eqn:E.
  - constructor; [by constructor|]. constructor; [done|].
    eapply Forall_impl; [exact Hall|]. eauto.
  - constructor; [done|]. rewrite insert_by_perm. constructor; [|done].
    destruct (le_total x y); congruence.
Qed.

Lemma sort_by_sorted l : StronglySorted (fun a b => le a b = true) (sort_by le l).
Proof. induction l; cbn; [constructor|]. by apply insert_by_sorted. Qed.
End sort_lemmas.

Lemma str_leb_refl a : str_leb a a = true.
Proof. induction a as [|c a IH]; cbn; [done|]. by rewrite Ascii.eqb_refl. Qed.

Lemma str_leb_total a b : str_leb a b = true \/ str_leb b a = true.
Proof.
  revert b; induction a as [|x a IH]; intros [|y b]; cbn; auto.
  rewrite (Ascii.eqb_sym y x). destruct (Ascii.eqb x y); [apply IH|].
  rewrite !N.leb_le. lia.
Qed.

Lemma N_of_ascii_inj x y : N_of_ascii x = N_of_ascii y -> x = y.
Proof.
  intros H. rewrite <- (ascii_N_embedding x), <- (ascii_N_embedding y). congruence.
Qed.

Lemma str_leb_trans a b c : str_leb a b = true -> str_leb b c = true -> str_leb a c = true.
Proof.
  revert b c; induction a as [|x a IH]; intros [|y b] [|z c]; cbn; try done.
  destruct (Ascii.eqb_spec x y), (Ascii.eqb_spec y z), (Ascii.eqb_spec x z);
    subst; rewrite ?N.leb_le; try congruence; eauto.
  - intros. exfalso. assert (N_of_ascii z = N_of_ascii y) by lia.
    by apply N_of_ascii_inj in H1.
  - lia.
Qed.

Lemma str_leb_antisym a b : str_leb a b = true -> str_leb b a = true -> a = b.
Proof.
  revert b; induction a as [|x a IH]; intros [|y b]; cbn; try done.
  rewrite (Ascii.eqb_sym y x). destruct (Ascii.eqb_spec x y) as [->|Hne].
  - intros. f_equal. auto.
  - rewrite !N.leb_le. intros. destruct Hne. apply N_of_ascii_inj. lia.
Qed.

Lemma sort_str_perm l : sort_str l ≡ₚ l.
Proof. apply sort_by_perm. Qed.

Lemma elem_of_sort_str x l : x ∈ sort_str l <-> x ∈ l.
Proof. apply elem_of_sort_by. Qed.

Section dict_lemmas.
Context {V : Type}.
Implicit Types d : list (string * V).

Lemma dict_get_elem k v d : dict_get k d = Some v -> (k, v) ∈ d.
Proof.
  induction d as [|[k' v'] d IH]; cbn; [done|].
  destruct (String.eqb_spec k k') as [->|]; [intros [= ->]; by left|]. right. auto.
Qed.

Lemma dict_get_none k d : dict_get k d = None <-> k ∉ map fst d.
Proof.
  induction d as [|[k' v'] d IH]; cbn; [split; [intros _; apply not_elem_of_nil|done]|].
  rewrite not_elem_of_cons, <- IH. destruct (String.eqb_spec k k'); naive_solver.
Qed.

Lemma dict_get_set k v d : dict_get k (dict_set k v d) = Some v.
Proof.
  induction d as [|[k' v'] d IH]; cbn; [by rewrite String.eqb_refl|].
  destruct (String.eqb k k') eqn:E; cbn; by rewrite E.
Qed.

Lemma dict_get_set_ne k k' v d : k <> k' -> dict_get k (dict_set k' v d) = dict_get k d.
Proof.
  intros Hne. induction d as [|[j w] d IH]; cbn.
  - apply String.eqb_neq in Hne. by rewrite Hne.
  - destruct (String.eqb_spec k' j); cbn; [|by rewrite IH].
    subst j. apply String.eqb_neq in Hne. by rewrite Hne.
Qed.

Lemma dict_set_mono k k' v d :
  is_Some (dict_get k d) -> is_Some (dict_get k (dict_set k' v d)).
Proof.
  destruct (decide (k = k')) as [->|Hne]; [rewrite dict_get_set; eauto|].
  by rewrite dict_get_set_ne.
Qed.
End dict_lemmas.

#[export] Hint Rewrite mem_spec mem_false elem_of_sort_str @dict_get_set : verdict_rw.
#[export] Hint Resolve str_leb_refl str_leb_total str_leb_trans str_leb_antisym : verdict.

(** * Splitting and joining *)

(** [c] does not occur in [s]. *)
Fixpoint free_of (c : ascii) (s : string) : bool :=
  match s with
  | EmptyString => true
  | String d s => negb (Ascii.eqb d c) && free_of c s
  end.

Lemma split_cons c s : exists w ws, split c s = w :: ws.
Proof.
  destruct s as [|d s]; cbn; [eauto|]. destruct (Ascii.eqb d c); [eauto|].
  destruct (split c s); eauto.
Qed.

Lemma split_free c s w : w ∈ split c s -> free_of c w = true.
Proof.
  revert w; induction s as [|d s IH]; intros w; cbn.
  - by intros ->%list_elem_of_singleton.
  - destruct (Ascii.eqb d c) eqn:E.
    + intros [->|?]%elem_of_cons; auto.
    + destruct (split_cons c s) as (v & ws & Es). rewrite Es in *.
      intros [->|?]%elem_of_cons; cbn; [rewrite E, IH; set_solver|apply IH; set_solver].
Qed.

Lemma split_id c w : free_of c w = true -> split c w = [w].
Proof.
  induction w as [|d w IH]; cbn; [done|]. intros [H1%negb_true_iff H2]%andb_true_iff.
  by rewrite H1, IH.
Qed.

Lemma split_app c w s : free_of c w = true -> split c (w +:+ String c s) = w :: split c s.
Proof.
  induction w as [|d w IH]; intros Hf.
  - change (split c (String c s) = EmptyString :: split c s). cbn.
    by rewrite Ascii.eqb_refl.
  - cbn in Hf. apply andb_true_iff in Hf as [H1%negb_true_iff H2].
    change (split c (String d (w +:+ String c s)) = String d w :: split c s). cbn [split].
    by rewrite H1, IH.
Qed.

(** [s.split(c)] undoes [c.join(ws)]. *)
Lemma split_join c ws :
  ws <> [] -> (forall w, w ∈ ws -> free_of c w = true) ->
  split c (join (String c EmptyString) ws) = ws.
Proof.
  induction ws as [|w ws IH]; [done|]. intros _ Hf. destruct ws as [|v ws].
  - apply split_id, Hf. set_solver.
  - change (join (String c EmptyString) (w :: v :: ws))
      with (w +:+ String c (join (String c EmptyString) (v :: ws))).
    rewrite split_app by (apply Hf; set_solver). f_equal. apply IH; [done|].
    intros; apply Hf; set_solver.
Qed.

Lemma replace_with_free a r s : free_of a s = true -> replace_with a r s = s.
Proof.
  induction s as [|c s IH]; cbn; [done|].
  intros [H1%negb_true_iff H2]%andb_true_iff. by rewrite H1, IH.
Qed.
