(* ===== verification/Regex.v ===== *)
(** Python's [re], as far as the modelled sources use it: literals, classes,
    groups, [?:] and [?!] groups, greedy [* + ? {m} {m,} {m,n}], alternation, the
    anchors [^ $ \b], the flag [IGNORECASE], and [search], [findall] and
    [sub].

    Patterns are written as in the source and parsed by [compile]; the matcher
    is the backtracking one of the [re] module (leftmost match, greedy
    quantifiers, first alternative first). *)
From Stdlib Require Import Ascii.
From S2P Require Import Prelude PyStr.

(** A character class: the ranges it lists, and whether it is negated. *)
Record cclass := CClass { cc_neg : bool; cc_ranges : list (N * N) }.

Inductive re : Type :=
| REps
| RSet (c : cclass)
| RSeq (r1 r2 : re)
| RAlt (r1 r2 : re)
| RStar (r : re)
| RGroup (i : nat) (r : re)
| RNotAhead (r : re)
| RBegin
| REnd
| RWordB.

(** * Matching *)

Definition in_ranges (rs : list (N * N)) (c : ascii) : bool :=
  let n := N_of_ascii c in existsb (fun '(a, b) => (a <=? n)%N && (n <=? b)%N) rs.

Definition ascii_upper (c : ascii) : ascii :=
  let n := N_of_ascii c in
  if (97 <=? n)%N && (n <=? 122)%N then ascii_of_N (n - 32) else c.

Definition in_class (ci : bool) (k : cclass) (c : ascii) : bool :=
  let hit := in_ranges (cc_ranges k) c
             || (ci && (in_ranges (cc_ranges k) (ascii_lower c)
                        || in_ranges (cc_ranges k) (ascii_upper c))) in
  if cc_neg k then negb hit else hit.

Definition word_at (prev : option ascii) (s : string) : bool :=
  let before := match prev with Some c => is_word c | None => false end in
  let after := match s with String c _ => is_word c | EmptyString => false end in
  xorb before after.

(** [$]: at the end, or before a final newline *)
Definition at_end (s : string) : bool :=
  match s with
  | EmptyString => true
  | String c EmptyString => (N_of_ascii c =? 10)%N
  | _ => false
  end.

Abbreviation captures := (list (nat * string)).

Section matcher.
Context (ci : bool).

(** [rmatch r prev s caps k]: match [r] at the start of [s], whose preceding
    character is [prev], and continue with [k]; the first way of matching
    for which [k] succeeds is taken. An iteration of [*] that consumes
    nothing ends the loop. *)
Fixpoint rmatch {R : Type} (r : re) (prev : option ascii) (s : string) (caps : captures)
    (k : option ascii -> string -> captures -> option R) : option R :=
  match r with
  | REps => k prev s caps
  | RSet cls =>
      match s with
      | String c s' => if in_class ci cls c then k (Some c) s' caps else None
      | EmptyString => None
      end
  | RSeq r1 r2 =>
      rmatch r1 prev s caps (fun prev' s' caps' => rmatch r2 prev' s' caps' k)
  | RAlt r1 r2 =>
      match rmatch r1 prev s caps k with
      | Some x => Some x
      | None => rmatch r2 prev s caps k
      end
  | RStar r1 =>
      (fix loop (n : nat) prev s caps {struct n} :=
         match n with
         | O => k prev s caps
         | S n =>
             match rmatch r1 prev s caps (fun prev' s' caps' =>
                     if (String.length s' <? String.length s)%nat
                     then loop n prev' s' caps' else None) with
             | Some x => Some x
             | None => k prev s caps
             end
         end) (String.length s) prev s caps
  | RGroup i r1 =>
      rmatch r1 prev s caps (fun prev' s' caps' =>
        k prev' s' ((i, take_str (String.length s - String.length s') s) :: caps'))
  | RNotAhead r1 =>
      match rmatch r1 prev s caps (fun _ _ _ => Some tt) with
      | Some _ => None
      | None => k prev s caps
      end
  | RBegin => match prev with Some _ => None | None => k prev s caps end
  | REnd => if at_end s then k prev s caps else None
  | RWordB => if word_at prev s then k prev s caps else None
  end.
End matcher.

(** [p.match(s)] at a position: the text after the match, and the groups. *)
Definition match_at (ci : bool) (r : re) (prev : option ascii) (s : string)
    : option (string * captures) :=
  rmatch ci r prev s [] (fun _ s' caps => Some (s', caps)).

Fixpoint search_from (ci : bool) (r : re) (prev : option ascii) (s : string)
    : option (string * captures) :=
  match match_at ci r prev s with
  | Some m => Some m
  | None =>
      match s with
      | EmptyString => None
      | String c s' => search_from ci r (Some c) s'
      end
  end.

(** [p.search(s)]; the result is the text after the match, and the groups. *)
Definition search (ci : bool) (r : re) (s : string) : option (string * captures) :=
  search_from ci r None s.

Definition matches (ci : bool) (r : re) (s : string) : bool :=
  match search ci r s with Some _ => true | None => false end.

Fixpoint group (i : nat) (caps : captures) : string :=
  match caps with
  | [] => EmptyString
  | (j, t) :: caps => if (i =? j)%nat then t else group i caps
  end.

(** The character before [rest], when the match of [s] ended there. *)
Fixpoint last_char (prev : option ascii) (s : string) : option ascii :=
  match s with EmptyString => prev | String c s' => last_char (Some c) s' end.

Definition prev_of (s rest : string) : option ascii :=
  last_char None (take_str (String.length s - String.length rest) s).

(** [p.findall(s)] and [p.sub(repl, s)] for patterns that never match the
    empty string; [n] bounds the number of scan positions. *)
Fixpoint findall_from (ci : bool) (r : re) (n : nat) (prev : option ascii) (s : string)
    : list captures :=
  match n, s with
  | S n, String c s' =>
      match match_at ci r prev s with
      | Some (rest, caps) => caps :: findall_from ci r n (prev_of s rest) rest
      | None => findall_from ci r n (Some c) s'
      end
  | _, _ => []
  end.

Definition findall (ci : bool) (r : re) (s : string) : list captures :=
  findall_from ci r (String.length s) None s.

Fixpoint sub_from (ci : bool) (r : re) (repl : string) (n : nat)
    (prev : option ascii) (s : string) : string :=
  match n, s with
  | S n, String c s' =>
      match match_at ci r prev s with
      | Some (rest, _) => repl +:+ sub_from ci r repl n (prev_of s rest) rest
      | None => String c (sub_from ci r repl n (Some c) s')
      end
  | _, _ => EmptyString
  end.

Definition sub (ci : bool) (r : re) (repl s : string) : string :=
  sub_from ci r repl (String.length s) None s.

(** * Parsing patterns *)

Definition lit (c : ascii) : re := RSet (CClass false [(N_of_ascii c, N_of_ascii c)]).

Definition digit_ranges : list (N * N) := [(48, 57)]%N.
Definition space_ranges : list (N * N) := [(9, 13); (28, 32)]%N.
Definition word_ranges : list (N * N) := [(48, 57); (65, 90); (95, 95); (97, 122)]%N.

(** The ranges an escape stands for, in and outside a class. *)
Definition escape_ranges (c : ascii) : list (N * N) :=
  if Ascii.eqb c "d" then digit_ranges
  else if Ascii.eqb c "s" then space_ranges
  else if Ascii.eqb c "w" then word_ranges
  else [(N_of_ascii c, N_of_ascii c)].

(** The body of a class, after [[]; a [-] is a range only between two plain
    characters. *)
Fixpoint parse_class (n : nat) (acc : list (N * N)) (s : string)
    : option (list (N * N) * string) :=
  match n, s with
  | S n, String "]" s' => Some (acc, s')
  | S n, String "\" (String c s') => parse_class n (acc ++ escape_ranges c) s'
  | S n, String a (String "-" (String b s')) =>
      if Ascii.eqb b "]" then parse_class n (acc ++ [(N_of_ascii a, N_of_ascii a)])
                                (String "-" (String b s'))
      else parse_class n (acc ++ [(N_of_ascii a, N_of_ascii b)]) s'
  | S n, String a s' => parse_class n (acc ++ [(N_of_ascii a, N_of_ascii a)]) s'
  | _, _ => None
  end.

Fixpoint rrepeat (n : nat) (r : re) : re :=
  match n with O => REps | S n => RSeq r (rrepeat n r) end.

Fixpoint ropt (n : nat) (r : re) : re :=
  match n with O => REps | S n => RAlt (RSeq r (ropt n r)) REps end.

Fixpoint parse_nat (acc : nat) (s : string) : nat * string :=
  match s with
  | String c s' =>
      if is_digit c then parse_nat (10 * acc + N.to_nat (N_of_ascii c - 48))%nat s'
      else (acc, s)
  | EmptyString => (acc, s)
  end.

(** A postfix quantifier, if there is one. *)
Definition parse_quant (r : re) (s : string) : re * string :=
  match s with
  | String "*" s' => (RStar r, s')
  | String "+" s' => (RSeq r (RStar r), s')
  | String "?" s' => (RAlt r REps, s')
  | String "{" s' =>
      let '(m, s1) := parse_nat 0 s' in
      match s1 with
      | String "}" s2 => (rrepeat m r, s2)
      | String "," (String "}" s2) => (RSeq (rrepeat m r) (RStar r), s2)
      | String "," s2 =>
          let '(k, s3) := parse_nat 0 s2 in
          (RSeq (rrepeat m r) (ropt (k - m) r), drop_str 1 s3)
      | _ => (r, s)
      end
  | _ => (r, s)
  end.

(** [parse fuel g s]: an alternation at the start of [s], up to [)] or the end,
    with groups numbered from [g]; the fuel bounds the nesting and the number
    of items, both at most the length of the pattern. *)
Fixpoint parse (fuel : nat) (g : nat) (s : string) {struct fuel}
    : option (re * nat * string) :=
  match fuel with
  | O => None
  | S fuel =>
      let seq := (fix seq (n : nat) (g : nat) (acc : re) (s : string) {struct n}
          : option (re * nat * string) :=
        match n with
        | O => None
        | S n =>
          let item r g s := let '(r, s) := parse_quant r s in seq n g (RSeq acc r) s in
          match s with
          | EmptyString => Some (acc, g, s)
          | String ")" _ => Some (acc, g, s)
          | String "|" s' =>
              match parse fuel g s' with
              | Some (r, g, s) => Some (RAlt acc r, g, s)
              | None => None
              end
          | String "(" (String "?" (String ":" s')) =>
              match parse fuel g s' with
              | Some (r, g, s) => item r g (drop_str 1 s)
              | None => None
              end
          | String "(" (String "?" (String "!" s')) =>
              match parse fuel g s' with
              | Some (r, g, s) => item (RNotAhead r) g (drop_str 1 s)
              | None => None
              end
          | String "(" s' =>
              match parse fuel (S g) s' with
              | Some (r, g', s) => item (RGroup g r) g' (drop_str 1 s)
              | None => None
              end
          | String "[" (String "^" s') =>
              match parse_class (String.length s') [] s' with
              | Some (rs, s) => item (RSet (CClass true rs)) g s
              | None => None
              end
          | String "[" s' =>
              match parse_class (String.length s') [] s' with
              | Some (rs, s) => item (RSet (CClass false rs)) g s
              | None => None
              end
          | String "\" (String "b" s') => item RWordB g s'
          | String "\" (String c s') => item (RSet (CClass false (escape_ranges c))) g s'
          | String "." s' => item (RSet (CClass true [(10, 10)%N])) g s'
          | String "^" s' => item RBegin g s'
          | String "$" s' => item REnd g s'
          | String c s' => item (lit c) g s'
          end
        end) in
      seq (S (String.length s)) g REps s
  end.

(** [re.compile]; a pattern outside the grammar above compiles to [None]. *)
Definition compile (s : string) : option re :=
  match parse (S (String.length s)) 1 s with
  | Some (r, _, EmptyString) => Some r
  | _ => None
  end.

(** Compiled pattern of a string known to be in the grammar. *)
Definition rx (s : string) : re := default (RNotAhead REps) (compile s).
