(* ===== verification/Time.v ===== *)
(** [datetime]: instants at microsecond precision, the proleptic Gregorian
    calendar, and the ISO-8601 text that the package stores ([isoformat],
    [fromisoformat]). *)
From Stdlib Require Import Ascii.
From S2P Require Import Prelude PyStr.

(** A [datetime]: wall-clock microseconds since 0001-01-01T00:00, and the UTC
    offset in microseconds when it is timezone-aware. *)
Record datetime := { dt_wall : Z; dt_off : option Z }.

#[global] Instance datetime_eq_dec : EqDecision datetime.
Proof. solve_decision. Defined.

Definition us_per_second : Z := 1000000.
Definition us_per_day : Z := 86400 * us_per_second.

(** The instant of an aware datetime; a naive one read as UTC. *)
Definition instant (d : datetime) : Z := dt_wall d - default 0 (dt_off d).

Definition utc (t : Z) : datetime := {| dt_wall := t; dt_off := Some 0 |}.

(** [value.astimezone(timezone.utc)] of an aware value *)
Definition astimezone_utc (d : datetime) : datetime := utc (instant d).

(** * The calendar *)

Definition is_leap (y : Z) : bool :=
  (y mod 4 =? 0) && (negb (y mod 100 =? 0) || (y mod 400 =? 0)).

Definition days_before_year (y : Z) : Z :=
  365 * (y - 1) + (y - 1) / 4 - (y - 1) / 100 + (y - 1) / 400.

Definition days_in_month (y m : Z) : Z :=
  if m =? 2 then (if is_leap y then 29 else 28)
  else if (m =? 4) || (m =? 6) || (m =? 9) || (m =? 11) then 30 else 31.

Fixpoint days_before_month_from (y : Z) (m : nat) : Z :=
  match m with
  | O | S O => 0
  | S m => days_before_month_from y m + days_in_month y (Z.of_nat m)
  end.

Definition days_before_month (y m : Z) : Z := days_before_month_from y (Z.to_nat m).

(** Days since 0001-01-01. *)
Definition ymd_days (y m d : Z) : Z := days_before_year y + days_before_month y m + (d - 1).

(** The month and day of the [doy]-th day (from 0) of year [y]; searched from
    month [m] on. *)
Fixpoint month_of (y doy : Z) (m : Z) (fuel : nat) : Z * Z :=
  match fuel with
  | O => (m, doy + 1)
  | S fuel =>
      if doy <? days_in_month y m then (m, doy + 1)
      else month_of y (doy - days_in_month y m) (m + 1) fuel
  end.

Definition days_ymd (n : Z) : Z * Z * Z :=
  let n400 := n / 146097 in let n := n mod 146097 in
  let n100 := Z.min 3 (n / 36524) in let n := n - 36524 * n100 in
  let n4 := n / 1461 in let n := n mod 1461 in
  let n1 := Z.min 3 (n / 365) in let n := n - 365 * n1 in
  let y := 400 * n400 + 100 * n100 + 4 * n4 + n1 + 1 in
  let '(m, d) := month_of y n 1 11 in (y, m, d).

(** * Fixed-width numerals *)

Definition digit (z : Z) : ascii := ascii_of_N (Z.to_N (48 + z)).

Definition digit_value (c : ascii) : option Z :=
  if is_digit c then Some (Z.of_N (N_of_ascii c) - 48) else None.

(** [z] in [n] digits, with leading zeros, before [tail]. *)
Fixpoint pad_onto (n : nat) (z : Z) (tail : string) : string :=
  match n with
  | O => tail
  | S n => pad_onto n (z / 10) (String (digit (z mod 10)) tail)
  end.

(** Exactly [n] digits. *)
Fixpoint read_digits (n : nat) (acc : Z) (s : string) : option (Z * string) :=
  match n, s with
  | O, _ => Some (acc, s)
  | S n, String c s => v ← digit_value c; read_digits n (10 * acc + v) s
  | S _, EmptyString => None
  end.

(** Up to [n] digits, scaled as if there were [n]; further digits are read and dropped. *)
Fixpoint read_fraction (n : nat) (acc : Z) (s : string) : Z * string :=
  match s with
  | String c s' =>
      match digit_value c with
      | Some v => match n with
                  | O => read_fraction O acc s'
                  | S n => read_fraction n (10 * acc + v) s'
                  end
      | None => (acc * 10 ^ Z.of_nat n, s)
      end
  | EmptyString => (acc * 10 ^ Z.of_nat n, s)
  end.

Definition read_char (c : ascii) (s : string) : option string :=
  match s with
  | String d s => if Ascii.eqb c d then Some s else None
  | EmptyString => None
  end.

(** * ISO-8601 *)

(** [HH[:MM[:SS[.f+]]]], in microseconds, and the rest of the text. *)
Definition read_time (s : string) : option (Z * string) :=
  '(h, s) ← read_digits 2 0 s;
  let h := h * 3600 * us_per_second in
  match read_char ":" s with
  | None => Some (h, s)
  | Some s =>
      '(m, s) ← read_digits 2 0 s;
      guard (m < 60);;
      let hm := h + m * 60 * us_per_second in
      match read_char ":" s with
      | None => Some (hm, s)
      | Some s =>
          '(sec, s) ← read_digits 2 0 s;
          guard (sec < 60);;
          let hms := hm + sec * us_per_second in
          match read_char "." s with
          | None => Some (hms, s)
          | Some (String c s') =>
              if is_digit c then
                let '(f, rest) := read_fraction 6 0 (String c s') in Some (hms + f, rest)
              else None
          | Some EmptyString => None
          end
      end
  end.

(** The UTC offset that ends the text, if any. *)
Definition read_offset (s : string) : option (option Z) :=
  match s with
  | EmptyString => Some None
  | String "Z" EmptyString => Some (Some 0)
  | String c s =>
      if Ascii.eqb c "+" || Ascii.eqb c "-" then
        '(off, rest) ← read_time s;
        guard (rest = EmptyString);; guard (off < us_per_day);;
        Some (Some (if Ascii.eqb c "-" then - off else off))
      else None
  end.

(** [datetime.fromisoformat(s)], [None] where it raises [ValueError]: the
    extended format [YYYY-MM-DD[*HH[:MM[:SS[.f+]]][Z|+HH:MM[:SS[.f+]]]]]. *)
Definition fromisoformat (s : string) : option datetime :=
  '(y, s) ← read_digits 4 0 s; s ← read_char "-" s;
  '(m, s) ← read_digits 2 0 s; s ← read_char "-" s;
  '(d, s) ← read_digits 2 0 s;
  guard (1 <= y);; guard (1 <= m <= 12);; guard (1 <= d <= days_in_month y m);;
  let date := ymd_days y m d * us_per_day in
  match s with
  | EmptyString => Some {| dt_wall := date; dt_off := None |}
  | String _ s =>
      '(t, s) ← read_time s;
      guard (t < us_per_day);;
      off ← read_offset s;
      Some {| dt_wall := date + t; dt_off := off |}
  end.

(** [isoformat()] of the wall clock [t], before [tail]. *)
Definition isoformat_onto (t : Z) (tail : string) : string :=
  let '(y, m, d) := days_ymd (t / us_per_day) in
  let us := t mod us_per_day in
  let sec := us / us_per_second in
  let frac := us mod us_per_second in
  pad_onto 4 y (String "-" (pad_onto 2 m (String "-" (pad_onto 2 d (String "T"
    (pad_onto 2 (sec / 3600) (String ":" (pad_onto 2 (sec / 60 mod 60) (String ":"
      (pad_onto 2 (sec mod 60)
         (if frac =? 0 then tail else String "." (pad_onto 6 frac tail)))))))))))).

(** [value.astimezone(timezone.utc).isoformat()]: [_iso] of the eligibility ladder. *)
Definition iso (d : datetime) : string := isoformat_onto (instant d) "+00:00".

(** [_parse_iso] of the eligibility ladder: [None] for text that is no datetime,
    and a naive datetime is taken as UTC. *)
Definition parse_iso (value : string) : option datetime :=
  d ← fromisoformat (replace_with "Z" "+00:00" value);
  Some (match dt_off d with None => utc (dt_wall d) | Some _ => d end).

(** * Lemmas *)

Lemma digit_value_digit v : 0 <= v < 10 -> digit_value (digit v) = Some v.
Proof.
  intros Hv. assert (Hc : v ∈ [0;1;2;3;4;5;6;7;8;9]).
  { rewrite !elem_of_cons. lia. }
  repeat (apply elem_of_cons in Hc as [->|Hc]; [reflexivity|]). by apply not_elem_of_nil in Hc.
Qed.

Lemma read_digits_app n m z acc s :
  0 <= z < 10 ^ Z.of_nat n ->
  read_digits (n + m) acc (pad_onto n z s) = read_digits m (acc * 10 ^ Z.of_nat n + z) s.
Proof.
  revert m z acc s; induction n as [|n IH]; intros m z acc s Hz.
  - cbn. f_equal. cbn in Hz. lia.
  - cbn [pad_onto]. replace (S n + m)%nat with (n + S m)%nat by lia.
    rewrite Nat2Z.inj_succ, Z.pow_succ_r in * by lia.
    rewrite IH by (split; [apply Z.div_pos; lia|apply Z.div_lt_upper_bound; lia]).
    cbn [read_digits]. rewrite digit_value_digit by (apply Z.mod_pos_bound; lia).
    cbn. f_equal. pose proof (Z.div_mod z 10). lia.
Qed.

Lemma read_digits_pad n z s :
  0 <= z < 10 ^ Z.of_nat n -> read_digits n 0 (pad_onto n z s) = Some (z, s).
Proof.
  intros Hz. rewrite <- (Nat.add_0_r n) at 1. rewrite read_digits_app by done.
  destruct s; cbn; f_equal; f_equal; lia.
Qed.

Lemma read_fraction_app n m z acc s :
  0 <= z < 10 ^ Z.of_nat n ->
  read_fraction (n + m) acc (pad_onto n z s) = read_fraction m (acc * 10 ^ Z.of_nat n + z) s.
Proof.
  revert m z acc s; induction n as [|n IH]; intros m z acc s Hz.
  - cbn [pad_onto plus]. f_equal. cbn in Hz. rewrite Z.mul_1_r. lia.
  - cbn [pad_onto]. replace (S n + m)%nat with (n + S m)%nat by lia.
    rewrite Nat2Z.inj_succ, Z.pow_succ_r in * by lia.
    rewrite IH by (split; [apply Z.div_pos; lia|apply Z.div_lt_upper_bound; lia]).
    cbn [read_fraction]. rewrite digit_value_digit by (apply Z.mod_pos_bound; lia).
    f_equal. pose proof (Z.div_mod z 10). lia.
Qed.

Lemma is_leap_spec a b c e :
  0 <= b <= 3 -> 0 <= c <= 24 -> 0 <= e <= 3 ->
  is_leap (400 * a + 100 * b + 4 * c + e + 1) = true <->
  e = 3 /\ (c = 24 -> b = 3).
Proof.
  intros. unfold is_leap. rewrite andb_true_iff, orb_true_iff, negb_true_iff, !Z.eqb_eq, Z.eqb_neq.
  Z.to_euclidean_division_equations; lia.
Qed.

Lemma days_before_month_succ y m :
  1 <= m -> days_before_month y (m + 1) = days_before_month y m + days_in_month y m.
Proof.
  intros Hm. unfold days_before_month. replace (Z.to_nat (m + 1)) with (S (Z.to_nat m)) by lia.
  destruct (Z.to_nat m) as [|k] eqn:E; [lia|]. cbn [days_before_month_from].
  rewrite <- E, Z2Nat.id by lia. reflexivity.
Qed.

Definition year_days (y : Z) : Z := if is_leap y then 366 else 365.

Lemma days_before_month_13 y : days_before_month y 13 = year_days y.
Proof.
  unfold days_before_month, year_days. change (Z.to_nat 13) with 13%nat.
  cbn [days_before_month_from]. unfold days_in_month.
  destruct (is_leap y); reflexivity.
Qed.

Lemma month_of_spec y fuel : forall doy m m' d,
  1 <= m -> m = 12 - Z.of_nat fuel -> 0 <= doy ->
  days_before_month y m + doy < year_days y ->
  month_of y doy m fuel = (m', d) ->
  1 <= m' <= 12 /\ 1 <= d <= days_in_month y m' /\
  days_before_month y m' + (d - 1) = days_before_month y m + doy.
Proof.
  induction fuel as [|fuel IH]; intros doy m m' d Hm Em Hdoy Hlt; cbn [month_of].
  - intros [= <- <-]. rewrite <- days_before_month_13 in Hlt.
    assert (m = 12) as -> by lia.
    pose proof (days_before_month_succ y 12 ltac:(lia)). change (12 + 1) with 13 in *. lia.
  - destruct (Z.ltb_spec doy (days_in_month y m)).
    + intros [= <- <-]. lia.
    + intros Hr. pose proof (days_before_month_succ y m Hm).
      apply IH in Hr; lia.
Qed.

Lemma days_ymd_spec n y m d :
  0 <= n < 3652059 -> days_ymd n = (y, m, d) ->
  1 <= y <= 9999 /\ 1 <= m <= 12 /\ 1 <= d <= days_in_month y m /\ ymd_days y m d = n.
Proof.
  intros Hn. unfold days_ymd.
  set (a := n / 146097). set (r := n mod 146097). set (b := Z.min 3 (r / 36524)).
  set (r1 := r - 36524 * b). set (c := r1 / 1461). set (r2 := r1 mod 1461).
  set (e := Z.min 3 (r2 / 365)). set (doy := r2 - 365 * e).
  set (yy := 400 * a + 100 * b + 4 * c + e + 1).
  destruct (month_of yy doy 1 11) as [m' d'] eqn:E. intros [= <- <- <-].
  assert (Hn' : n = 146097 * a + r /\ 0 <= r < 146097 /\ 0 <= a)
    by (subst a r; Z.to_euclidean_division_equations; lia).
  assert (Hb : 0 <= b <= 3 /\ 0 <= r1 /\ (b < 3 -> r1 < 36524) /\ r1 <= 36524)
    by (subst b r1; Z.to_euclidean_division_equations; lia).
  assert (Hc : r1 = 1461 * c + r2 /\ 0 <= r2 < 1461 /\ 0 <= c <= 24)
    by (subst c r2; Z.to_euclidean_division_equations; lia).
  assert (He : 0 <= e <= 3 /\ 0 <= doy /\ (e < 3 -> doy < 365) /\ doy <= 365)
    by (subst e doy; Z.to_euclidean_division_equations; lia).
  pose proof (is_leap_spec a b c e ltac:(lia) ltac:(lia) ltac:(lia)) as Hl. fold yy in Hl.
  assert (Hdoy : doy < year_days yy).
  { unfold year_days. destruct (is_leap yy); [lia|].
    destruct (Z.eq_dec doy 365); [|lia]. exfalso.
    assert (false = true); [|done]. apply Hl.
    assert (e = 3) by lia. split; [done|]. subst doy. lia. }
  apply month_of_spec in E; [|lia|lia|lia|exact Hdoy].
  destruct E as (Hm & Hd & Hs).
  assert (Hdb : days_before_year yy = 146097 * a + 36524 * b + 1461 * c + 365 * e).
  { unfold days_before_year. subst yy. clear -Hb Hc He. Z.to_euclidean_division_equations; lia. }
  assert (Hd1 : days_before_month yy 1 = 0) by reflexivity.
  split_and!; [subst yy; lia|subst yy; lia|lia|lia|lia|lia|unfold ymd_days].
  rewrite Hdb. subst doy. lia.
Qed.

Lemma digit_free_of_Z v : 0 <= v < 10 -> Ascii.eqb (digit v) "Z" = false.
Proof.
  intros Hv. destruct (Ascii.eqb_spec (digit v) "Z") as [E|]; [|done].
  pose proof (digit_value_digit v Hv) as H. by rewrite E in H.
Qed.

Lemma free_of_pad n z s : free_of "Z" (pad_onto n z s) = free_of "Z" s.
Proof.
  revert z s; induction n as [|n IH]; intros z s; cbn [pad_onto]; [done|].
  rewrite IH. cbn [free_of]. by rewrite digit_free_of_Z by (apply Z.mod_pos_bound; lia).
Qed.

Lemma pad_head n z s : exists c s', pad_onto (S n) z s = String c s' /\ is_digit c = true.
Proof.
  revert z s; induction n as [|n IH]; intros z s; [|apply IH].
  eexists _, _. split; [reflexivity|].
  pose proof (digit_value_digit (z mod 10) ltac:(apply Z.mod_pos_bound; lia)) as H.
  unfold digit_value in H. by destruct (is_digit _).
Qed.

Arguments pad_onto : simpl never.
Arguments read_digits : simpl never.
Arguments read_fraction : simpl never.

(** The time of day [us] as [isoformat] prints it. *)
Definition clock_onto (us : Z) (tail : string) : string :=
  let sec := us / us_per_second in
  let frac := us mod us_per_second in
  pad_onto 2 (sec / 3600) (String ":" (pad_onto 2 (sec / 60 mod 60) (String ":"
    (pad_onto 2 (sec mod 60) (if frac =? 0 then tail else String "." (pad_onto 6 frac tail)))))).

Lemma read_frac_clock frac tail :
  0 <= frac < 1000000 ->
  read_fraction 6 0 (pad_onto 6 frac (String "+" tail)) = (frac, String "+" tail).
Proof.
  intros Hf. change 6%nat with (6 + 0)%nat at 1. rewrite read_fraction_app by done.
  cbn -[Z.pow]. unfold read_fraction. cbn. f_equal. lia.
Qed.

Lemma read_time_clock us tail :
  0 <= us < us_per_day ->
  read_time (clock_onto us (String "+" tail)) = Some (us, String "+" tail).
Proof.
  intros Hus. unfold clock_onto, read_time.
  set (sec := us / us_per_second). set (frac := us mod us_per_second).
  assert (Hs : us = us_per_second * sec + frac /\ 0 <= frac < 1000000 /\ 0 <= sec < 86400).
  { subst sec frac. unfold us_per_day, us_per_second in *.
    Z.to_euclidean_division_equations; lia. }
  assert (Hm : sec = 3600 * (sec / 3600) + 60 * (sec / 60 mod 60) + sec mod 60
    /\ 0 <= sec / 3600 < 24 /\ 0 <= sec / 60 mod 60 < 60 /\ 0 <= sec mod 60 < 60)
    by (clear -Hs; Z.to_euclidean_division_equations; lia).
  rewrite read_digits_pad by (cbn; lia). cbn.
  rewrite read_digits_pad by (cbn; lia). cbn.
  rewrite option_guard_True by lia. cbn.
  rewrite read_digits_pad by (cbn; lia). cbn.
  rewrite option_guard_True by lia. cbn.
  destruct (Z.eqb_spec frac 0); cbn.
  - f_equal. f_equal. unfold us_per_second in *. lia.
  - destruct (pad_head 5 frac (String "+" tail)) as (c & s' & Hp & Hc).
    rewrite Hp, Hc, <- Hp, read_frac_clock by lia.
    f_equal. f_equal. unfold us_per_second in *. lia.
Qed.

Lemma isoformat_clock t tail :
  isoformat_onto t tail =
  let '(y, m, d) := days_ymd (t / us_per_day) in
  pad_onto 4 y (String "-" (pad_onto 2 m (String "-" (pad_onto 2 d (String "T"
    (clock_onto (t mod us_per_day) tail)))))).
Proof. unfold isoformat_onto, clock_onto. by destruct (days_ymd _) as [[??]?]. Qed.

Lemma days_in_month_le y m : days_in_month y m <= 31.
Proof. unfold days_in_month. repeat case_match; lia. Qed.

Lemma fromisoformat_iso t :
  0 <= t < 3652059 * us_per_day -> fromisoformat (isoformat_onto t "+00:00") = Some (utc t).
Proof.
  intros Ht. rewrite isoformat_clock.
  destruct (days_ymd (t / us_per_day)) as [[y m] d] eqn:E.
  assert (Hdays : t = us_per_day * (t / us_per_day) + t mod us_per_day
    /\ 0 <= t mod us_per_day < us_per_day /\ 0 <= t / us_per_day < 3652059).
  { unfold us_per_day, us_per_second in *. Z.to_euclidean_division_equations; lia. }
  apply days_ymd_spec in E as (Hy & Hm & Hd & Hymd); [|lia].
  pose proof (days_in_month_le y m). unfold fromisoformat.
  rewrite read_digits_pad by (cbn; lia). cbn.
  rewrite read_digits_pad by (cbn; lia). cbn.
  rewrite read_digits_pad by (cbn; lia). cbn.
  rewrite !option_guard_True by lia. cbn.
  rewrite read_time_clock by lia. cbn -[read_offset]. rewrite option_guard_True by lia.
  change (read_offset "+00:00") with (Some (Some 0)). cbn.
  unfold utc. rewrite Hymd. f_equal. f_equal. lia.
Qed.

Lemma free_of_iso t tail : free_of "Z" tail = true -> free_of "Z" (isoformat_onto t tail) = true.
Proof.
  intros Ht. rewrite isoformat_clock. destruct (days_ymd _) as [[y m] d]. unfold clock_onto.
  repeat (rewrite free_of_pad; cbn).
  destruct (_ =? 0); cbn; rewrite ?free_of_pad; done.
Qed.

Lemma parse_iso_instant t :
  0 <= t < 3652059 * us_per_day -> instant <$> parse_iso (iso (utc t)) = Some t.
Proof.
  intros Ht. unfold parse_iso, iso.
  replace (instant (utc t)) with t by (unfold instant, utc; cbn; lia).
  rewrite replace_with_free by (by apply free_of_iso). rewrite fromisoformat_iso by done.
  unfold instant, utc. cbn. f_equal. lia.
Qed.

(** * Properties *)

(** The text [_iso] stores for any instant of the years 1 to 9999 is read
    back by [_parse_iso] as the same instant in UTC, to the microsecond. *)
Theorem iso_roundtrip d :
  0 <= instant d < 3652059 * us_per_day ->
  parse_iso (iso d) = Some (utc (instant d)).
Proof.
  intros Hd. unfold parse_iso, iso. rewrite replace_with_free by (by apply free_of_iso).
  by rewrite fromisoformat_iso.
Qed.

Lemma iso_roundtrip_witness :
  parse_iso (iso {| dt_wall := 63870000000123456; dt_off := Some 3600000000 |})
  = Some (utc 63869996400123456).
Proof. apply (iso_roundtrip {| dt_wall := 63870000000123456; dt_off := Some 3600000000 |}).
  unfold instant, us_per_day, us_per_second; cbn; lia. Defined.
