(* ===== verification/PyNum.v ===== *)
(** Decimal numerals ([Decimal(text)], [float(text)] of a decimal literal) as
    exact rationals, and boolean order on rationals. *)
From Stdlib Require Import Ascii Lqa.
From S2P Require Import Prelude PyStr Time.

Fixpoint read_uint (acc : Z) (n : nat) (s : string) : Z * nat * string :=
  match s with
  | String c s' =>
      match digit_value c with
      | Some v => read_uint (10 * acc + v) (S n) s'
      | None => (acc, n, s)
      end
  | EmptyString => (acc, n, s)
  end.

Definition pow10 (e : Z) : Q := if e <? 0 then 1 # Z.to_pos (10 ^ (- e)) else (10 ^ e) # 1.

(** The sign that starts a numeral. *)
Definition read_sign (s : string) : Z * string :=
  match s with
  | String "-" s => (-1, s)
  | String "+" s => (1, s)
  | _ => (1, s)
  end.

(** [Decimal(s)]: [None] where it raises [InvalidOperation], [Some None] for NaN
    and the infinities. *)
Definition parse_decimal (s : string) : option (option Q) :=
  let '(sign, s) := read_sign (lower (replace_with "_" "" (strip s))) in
  if mem s ["inf"; "infinity"; "nan"; "snan"] then Some None
  else
    let '(i, ni, s) := read_uint 0 0 s in
    let '(f, nf, s) := match s with
                       | String "." s => read_uint i 0 s
                       | _ => (i, 0%nat, s)
                       end in
    if (ni + nf =? 0)%nat then None
    else
      let '(e, ok) := match s with
                      | String "e" s =>
                          let '(es, s) := read_sign s in
                          let '(e, ne, s) := read_uint 0 0 s in
                          (es * e, negb (ne =? 0)%nat && String.eqb s "")
                      | EmptyString => (0, true)
                      | _ => (0, false)
                      end in
      if (ok : bool) then Some (Some ((sign * f # 1) * pow10 (e - Z.of_nat nf))%Q) else None.

Definition Qltb (a b : Q) : bool := negb (Qle_bool b a).

Definition Qmax0 (a : Q) : Q := if Qltb a 0 then 0%Q else a.

(** [min(a, b)] and [max(a, b)] *)
Definition Qminb (a b : Q) : Q := if Qltb b a then b else a.
Definition Qmaxb (a b : Q) : Q := if Qltb a b then b else a.

Lemma Qltb_spec a b : Qltb a b = true <-> (a < b)%Q.
Proof.
  unfold Qltb. rewrite negb_true_iff, <- not_true_iff_false, Qle_bool_iff. split; [|lra].
  apply Qnot_le_lt.
Qed.

Lemma Qltb_false a b : Qltb a b = false <-> (b <= a)%Q.
Proof. unfold Qltb. by rewrite negb_false_iff, Qle_bool_iff. Qed.

Lemma Qmax0_nonneg a : (0 <= a)%Q -> (Qmax0 a == a)%Q.
Proof.
  intros H. unfold Qmax0. destruct (Qltb a 0) eqn:E; [|lra]. apply Qltb_spec in E. lra.
Qed.

Lemma Qminb_spec a b : (Qminb a b <= a /\ Qminb a b <= b)%Q /\ (Qminb a b == a \/ Qminb a b == b)%Q.
Proof.
  unfold Qminb. destruct (Qltb b a) eqn:E.
  - apply Qltb_spec in E. split; [split; lra|right; lra].
  - apply Qltb_false in E. split; [split; lra|left; lra].
Qed.

Lemma Qmaxb_spec a b : (a <= Qmaxb a b /\ b <= Qmaxb a b)%Q /\ (Qmaxb a b == a \/ Qmaxb a b == b)%Q.
Proof.
  unfold Qmaxb. destruct (Qltb a b) eqn:E.
  - apply Qltb_spec in E. split; [split; lra|right; lra].
  - apply Qltb_false in E. split; [split; lra|left; lra].
Qed.
