(* ===== verification/Json.v ===== *)
(** Python's [json] module as the sources use it: [json.dumps(value, sort_keys=True,
    separators=(",", ":"))] with either setting of [ensure_ascii], and [json.loads].

    An object is the list of its members in increasing order of their keys: equality
    of dicts and [sort_keys=True] do not see the insertion order. A float is its
    [repr], which [float] reads back to the same number. *)
From Stdlib Require Import Ascii DecimalString DecimalFacts DecimalPos DecimalZ.
From S2P Require Import Prelude PyStr Regex.

#[local] Arguments String.append !_ _ / : simpl nomatch.

Inductive json :=
| JNull
| JBool (b : bool)
| JInt (z : Z)
| JFloat (repr : string)
| JStr (s : string)
| JList (vs : list json)
| JObj (ms : list (string * json)).

Definition quote_char : ascii := "034"%char.
Definition backslash : ascii := "092"%char.

(** * Printing

    Printers put their text in front of [tail]. *)

Definition hex_char (n : N) : ascii := ascii_of_N (if (n <? 10)%N then 48 + n else 87 + n).

(** One character of a string; [ascii_only] is [ensure_ascii]. *)
Definition escape (ascii_only : bool) (c : ascii) (tail : string) : string :=
  let n := N_of_ascii c in
  let short e := String backslash (String e tail) in
  if Ascii.eqb c quote_char then short quote_char
  else if Ascii.eqb c backslash then short backslash
  else if (n =? 10)%N then short "n"%char
  else if (n =? 13)%N then short "r"%char
  else if (n =? 9)%N then short "t"%char
  else if (n =? 12)%N then short "f"%char
  else if (n =? 8)%N then short "b"%char
  else if (n <? 32)%N || (ascii_only && (127 <=? n)%N) then
    String backslash ("u00" +:+ String (hex_char (n / 16)) (String (hex_char (n mod 16)) tail))
  else String c tail.

Fixpoint escapes (ascii_only : bool) (s tail : string) : string :=
  match s with
  | EmptyString => tail
  | String c s => escape ascii_only c (escapes ascii_only s tail)
  end.

Definition print_str (ascii_only : bool) (s tail : string) : string :=
  String quote_char (escapes ascii_only s (String quote_char tail)).

Fixpoint print (ascii_only : bool) (v : json) (tail : string) {struct v} : string :=
  match v with
  | JNull => "null" +:+ tail
  | JBool b => (if b then "true" else "false") +:+ tail
  | JInt z => str_of_Z z +:+ tail
  | JFloat r => r +:+ tail
  | JStr s => print_str ascii_only s tail
  | JList [] => "[]" +:+ tail
  | JList (v :: vs) =>
      String "[" (print ascii_only v
        (foldr (fun v acc => String "," (print ascii_only v acc)) (String "]" tail) vs))
  | JObj [] => "{}" +:+ tail
  | JObj ((k, v) :: ms) =>
      String "{" (print_str ascii_only k (String ":" (print ascii_only v
        (foldr (fun '(k, v) acc =>
           String "," (print_str ascii_only k (String ":" (print ascii_only v acc))))
         (String "}" tail) ms))))
  end.

(** [json.dumps] *)
Definition dumps (ascii_only : bool) (v : json) : string := print ascii_only v "".

(** * Reading *)

Definition is_json_space (c : ascii) : bool :=
  let n := N_of_ascii c in (n =? 32)%N || (n =? 9)%N || (n =? 10)%N || (n =? 13)%N.

Definition skip_ws (s : string) : string := lstrip_by is_json_space s.

Definition hex_value (c : ascii) : option N :=
  let n := N_of_ascii c in
  if (48 <=? n)%N && (n <=? 57)%N then Some (n - 48)%N
  else if (97 <=? n)%N && (n <=? 102)%N then Some (n - 87)%N
  else if (65 <=? n)%N && (n <=? 70)%N then Some (n - 55)%N
  else None.

(** [\uXXXX]; code points of 256 and more are outside the strings of the model. *)
Definition hex4 (a b c d : ascii) : option ascii :=
  a ← hex_value a; b ← hex_value b; c ← hex_value c; d ← hex_value d;
  let n := (((a * 16 + b) * 16 + c) * 16 + d)%N in
  if (n <? 256)%N then Some (ascii_of_N n) else None.

Definition unescape (e : ascii) : option ascii :=
  if Ascii.eqb e quote_char then Some quote_char
  else if Ascii.eqb e backslash then Some backslash
  else if Ascii.eqb e "/" then Some "/"%char
  else if Ascii.eqb e "n" then Some "010"%char
  else if Ascii.eqb e "r" then Some "013"%char
  else if Ascii.eqb e "t" then Some "009"%char
  else if Ascii.eqb e "f" then Some "012"%char
  else if Ascii.eqb e "b" then Some "008"%char
  else None.

Definition cons_fst (c : ascii) (r : option (string * string)) : option (string * string) :=
  '(s, rest) ← r; Some (String c s, rest).

(** A string after its opening quote, and what follows the closing one. *)
Fixpoint scan_str (s : string) : option (string * string) :=
  match s with
  | EmptyString => None
  | String c s1 =>
      if Ascii.eqb c quote_char then Some ("", s1)
      else if Ascii.eqb c backslash then
        match s1 with
        | EmptyString => None
        | String e s2 =>
            if Ascii.eqb e "u" then
              match s2 with
              | String a (String b (String c (String d s3))) =>
                  x ← hex4 a b c d; cons_fst x (scan_str s3)
              | _ => None
              end
            else x ← unescape e; cons_fst x (scan_str s2)
        end
      else if (N_of_ascii c <? 32)%N then None
      else cons_fst c (scan_str s1)
  end.

(** The characters of numerals. A run of them is read as one token: no delimiter is
    among them, so a document where less of the run is a numeral is refused anyway. *)
Definition is_numeral (c : ascii) : bool :=
  is_digit c || existsb (Ascii.eqb c) ["-"; "+"; "."; "e"; "E"]%char.

Fixpoint span (p : ascii -> bool) (s : string) : string * string :=
  match s with
  | String c s' => if p c then let '(a, b) := span p s' in (String c a, b) else ("", s)
  | EmptyString => ("", "")
  end.

Definition NUMBER_RE : re := rx "(-?(?:0|[1-9][0-9]*))(\.[0-9]+)?([eE][-+]?[0-9]+)?".

(** [NUMBER_RE] matches the whole token. *)
Definition number_token (t : string) : bool :=
  match match_at false NUMBER_RE None t with
  | Some ("", _) => negb (String.eqb t "")
  | _ => false
  end.

(** An integer is a numeral without fraction and exponent; it has no leading zero. *)
Definition int_token (t : string) : option Z :=
  if String.eqb t "-0" then Some 0
  else d ← NilZero.int_of_string t;
       let z := Z.of_int d in if String.eqb (str_of_Z z) t then Some z else None.

Definition number_of (t : string) : option json :=
  match int_token t with
  | Some z => Some (JInt z)
  | None => if number_token t then Some (JFloat t) else None
  end.

Definition LITERALS : list (string * json) :=
  [("null", JNull); ("true", JBool true); ("false", JBool false); ("NaN", JFloat "NaN");
   ("Infinity", JFloat "Infinity"); ("-Infinity", JFloat "-Infinity")].

Fixpoint literal (ls : list (string * json)) (s : string) : option (json * string) :=
  match ls with
  | [] => None
  | (l, v) :: ls => if String.prefix l s then Some (v, drop_str (String.length l) s)
                    else literal ls s
  end.

Definition scalar (s : string) : option (json * string) :=
  let '(t, rest) := span is_numeral s in
  match number_of t with
  | Some v => Some (v, rest)
  | None => literal LITERALS s
  end.

(** [d[k] = v] in an object *)
Fixpoint obj_set {V} (k : string) (v : V) (ms : list (string * V)) : list (string * V) :=
  match ms with
  | [] => [(k, v)]
  | (k', v') :: ms' =>
      if String.eqb k k' then (k, v) :: ms'
      else if str_leb k k' then (k, v) :: ms
      else (k', v') :: obj_set k v ms'
  end.

(** The dict of its members: the last value of a key stays. *)
Definition obj_of {V} (ms : list (string * V)) : list (string * V) :=
  foldl (fun acc '(k, v) => obj_set k v acc) [] ms.

Definition obj (ms : list (string * json)) : json := JObj (obj_of ms).

(** What follows the character [c], if the text starts with it. *)
Definition after (c : ascii) (s : string) : option string :=
  match s with String d s' => if Ascii.eqb d c then Some s' else None | EmptyString => None end.

(** A value, the members of an object from their first quote, the elements of an
    array; each with what follows it. *)
Fixpoint value (n : nat) (s : string) {struct n} : option (json * string) :=
  match n with
  | O => None
  | S n =>
      match after quote_char s, after "{" s, after "[" s with
      | Some s1, _, _ => '(t, rest) ← scan_str s1; Some (JStr t, rest)
      | _, Some s1, _ =>
          match after "}" (skip_ws s1) with
          | Some rest => Some (JObj [], rest)
          | None => '(ms, rest) ← members n (skip_ws s1); Some (obj ms, rest)
          end
      | _, _, Some s1 =>
          match after "]" (skip_ws s1) with
          | Some rest => Some (JList [], rest)
          | None => '(vs, rest) ← elems n (skip_ws s1); Some (JList vs, rest)
          end
      | None, None, None => scalar s
      end
  end
with members (n : nat) (s : string) {struct n} : option (list (string * json) * string) :=
  match n with
  | O => None
  | S n =>
      s1 ← after quote_char s;
      '(k, s2) ← scan_str s1;
      s3 ← after ":" (skip_ws s2);
      '(v, s4) ← value n (skip_ws s3);
      match after "}" (skip_ws s4) with
      | Some rest => Some ([(k, v)], rest)
      | None => s5 ← after "," (skip_ws s4);
                '(ms, rest) ← members n (skip_ws s5);
                Some ((k, v) :: ms, rest)
      end
  end
with elems (n : nat) (s : string) {struct n} : option (list json * string) :=
  match n with
  | O => None
  | S n =>
      '(v, s1) ← value n s;
      match after "]" (skip_ws s1) with
      | Some rest => Some ([v], rest)
      | None => s2 ← after "," (skip_ws s1);
                '(vs, rest) ← elems n (skip_ws s2);
                Some (v :: vs, rest)
      end
  end.

(** [json.loads]; [None] is its [ValueError]. The text's length bounds the nesting
    and the number of members, so it is enough fuel. *)
Definition loads (s : string) : option json :=
  '(v, rest) ← value (S (String.length s)) (skip_ws s);
  match skip_ws rest with EmptyString => Some v | _ => None end.

(** * Induction and well-formedness *)

Section json_induction.
Context (P : json -> Prop).
Context (Hnull : P JNull) (Hbool : forall b, P (JBool b)) (Hint : forall z, P (JInt z)).
Context (Hfloat : forall r, P (JFloat r)) (Hstr : forall s, P (JStr s)).
Context (Hlist : forall vs, Forall P vs -> P (JList vs)).
Context (Hobj : forall ms, Forall (fun m => P m.2) ms -> P (JObj ms)).

Fixpoint json_nested_ind (v : json) : P v :=
  match v with
  | JNull => Hnull
  | JBool b => Hbool b
  | JInt z => Hint z
  | JFloat r => Hfloat r
  | JStr s => Hstr s
  | JList vs =>
      Hlist vs ((fix go vs : Forall P vs :=
        match vs with
        | [] => Forall_nil_2 P
        | v :: vs => Forall_cons_2 P v vs (json_nested_ind v) (go vs)
        end) vs)
  | JObj ms =>
      Hobj ms ((fix go ms : Forall (fun m => P m.2) ms :=
        match ms with
        | [] => Forall_nil_2 _
        | m :: ms => Forall_cons_2 _ m ms (json_nested_ind m.2) (go ms)
        end) ms)
  end.
End json_induction.

(** A float's text is one numeral, not an integer, or a constant. *)
Definition float_ok (r : string) : bool :=
  match span is_numeral r with
  | (t, "") => match number_of t with Some (JFloat _) => true | _ => false end
  | _ => false
  end || mem r ["NaN"; "Infinity"; "-Infinity"].

(** Increasing keys. *)
Fixpoint increasing (ks : list string) : bool :=
  match ks with
  | k :: (k' :: _) as ks => str_ltb k k' && increasing ks
  | _ => true
  end.

Fixpoint json_wf (v : json) : bool :=
  match v with
  | JFloat r => float_ok r
  | JList vs => forallb json_wf vs
  | JObj ms => increasing (map fst ms) && forallb (fun m => json_wf m.2) ms
  | _ => true
  end.

(** Fuel that reads a value. *)
Fixpoint json_size (v : json) : nat :=
  match v with
  | JList vs => S (foldr (fun v n => S (json_size v + n)) 0%nat vs)
  | JObj ms => S (foldr (fun m n => S (json_size m.2 + n)) 0%nat ms)
  | _ => 1
  end.

(** * Strings and numerals *)

Lemma scan_escape b c tail : scan_str (escape b c tail) = cons_fst c (scan_str tail).
Proof. destruct c as [[] [] [] [] [] [] [] []], b; reflexivity. Qed.

Lemma scan_print b s tail : scan_str (escapes b s (String quote_char tail)) = Some (s, tail).
Proof. induction s as [|c s IH]; [done|]. cbn [escapes]. by rewrite scan_escape, IH. Qed.

(** The text goes on with something that is not part of a numeral. *)
Definition delimited (s : string) : Prop :=
  match s with String c _ => is_numeral c = false | EmptyString => True end.

Fixpoint all_chars (p : ascii -> bool) (s : string) : bool :=
  match s with EmptyString => true | String c s => p c && all_chars p s end.

Lemma span_app p t rest :
  all_chars p t = true -> match rest with String c _ => p c = false | EmptyString => True end ->
  span p (t +:+ rest) = (t, rest).
Proof.
  intros Ht Hr. induction t as [|c t IH]; cbn in Ht |- *.
  - destruct rest as [|c rest]; [done|]. cbn in Hr. cbn. by rewrite Hr.
  - apply andb_true_iff in Ht as [-> Ht]. by rewrite (IH Ht).
Qed.

Lemma span_all p s t : span p s = (t, "") -> s = t /\ all_chars p t = true.
Proof.
  revert t. induction s as [|c s IH]; intros t; cbn; [by intros [= <-]|].
  destruct (p c) eqn:Hp; [|done]. destruct (span p s) as [a r]. intros [= <- ->].
  destruct (IH a eq_refl) as [-> Ha]. cbn. by rewrite Hp, Ha.
Qed.

Lemma uint_chars d : all_chars is_numeral (NilEmpty.string_of_uint d) = true.
Proof. induction d; cbn; auto. Qed.

Lemma str_of_Z_chars z : all_chars is_numeral (str_of_Z z) = true.
Proof.
  assert (Hu : forall d, all_chars is_numeral (NilZero.string_of_uint d) = true).
  { intros []; first [reflexivity | apply (uint_chars (_ _))]. }
  unfold str_of_Z, NilZero.string_of_int. destruct (Z.to_int z); [apply Hu|].
  cbn. apply Hu.
Qed.

Lemma int_token_print z : int_token (str_of_Z z) = Some z.
Proof.
  assert (Hread : NilZero.int_of_string (str_of_Z z) = Some (Z.to_int z)).
  { unfold str_of_Z. destruct z as [|p|p]; [reflexivity|..]; apply NilZero.isi; cbn;
      intros [= H]; by apply (DecimalPos.Unsigned.to_uint_nonnil p). }
  unfold int_token. destruct (String.eqb_spec (str_of_Z z) "-0") as [H|_].
  - rewrite H in Hread. cbn in Hread. injection Hread as Hz.
    by rewrite <- (DecimalZ.of_to z), <- Hz.
  - rewrite Hread. cbn. by rewrite DecimalZ.of_to, String.eqb_refl.
Qed.

Lemma literal_app l v ls rest :
  literal ((l, v) :: ls) (l +:+ rest) = Some (v, rest).
Proof.
  cbn [literal]. assert (String.prefix l (l +:+ rest) = true /\
    drop_str (String.length l) (l +:+ rest) = rest) as [-> ->]; [|done].
  induction l as [|c l [IH1 IH2]]; cbn; [by destruct rest|].
  rewrite IH1, IH2. by destruct (ascii_dec c c).
Qed.

Lemma scalar_number t v rest :
  all_chars is_numeral t = true -> number_of t = Some v -> delimited rest ->
  scalar (t +:+ rest) = Some (v, rest).
Proof. intros Ht Hv Hr. unfold scalar. by rewrite span_app, Hv. Qed.

Lemma scalar_int z rest : delimited rest -> scalar (str_of_Z z +:+ rest) = Some (JInt z, rest).
Proof.
  apply scalar_number; [apply str_of_Z_chars|]. unfold number_of. by rewrite int_token_print.
Qed.

(** * Reading what was printed *)

(** The first character of a printed value: it opens a string, an object or an array,
    or belongs to a scalar. *)
Definition opening (c : ascii) : bool :=
  is_numeral c || existsb (Ascii.eqb c) [quote_char; "{"; "["; "n"; "t"; "f"; "N"; "I"]%char.

Lemma opening_not_space c : opening c = true -> is_json_space c = false.
Proof. destruct c as [[] [] [] [] [] [] [] []]; vm_compute; done. Qed.

Lemma opening_not_close c : opening c = true -> Ascii.eqb c "]" = false.
Proof. destruct c as [[] [] [] [] [] [] [] []]; vm_compute; done. Qed.

Lemma numeral_opens c : is_numeral c = true ->
  opening c = true /\ Ascii.eqb c quote_char = false /\ Ascii.eqb c "{" = false /\
  Ascii.eqb c "[" = false.
Proof. unfold opening. intros H. rewrite H. destruct c as [[] [] [] [] [] [] [] []]; vm_compute in H |- *; done. Qed.

Lemma number_nonempty t v : number_of t = Some v -> exists c t', t = String c t'.
Proof. destruct t as [|c t]; [done|eauto]. Qed.

Lemma float_ok_cases r :
  float_ok r = true ->
  (all_chars is_numeral r = true /\ number_of r = Some (JFloat r)) \/
  r = "NaN" \/ r = "Infinity" \/ r = "-Infinity".
Proof.
  unfold float_ok. intros [H|H]%orb_true_iff; [|right; apply mem_spec in H; set_solver].
  left. destruct (span is_numeral r) as [t [|]] eqn:Hs; [|done].
  apply span_all in Hs as [-> Ht]. split; [done|].
  unfold number_of in *. destruct (int_token t); [done|]. by destruct (number_token t).
Qed.

Lemma print_opens b v tail :
  json_wf v = true -> exists c s, print b v tail = String c s /\ opening c = true.
Proof.
  destruct v as [| [] |z|r|s|[|v vs]|[|[k v] ms]]; cbn; try by eauto.
  - intros _. destruct (number_nonempty (str_of_Z z) (JInt z)) as (c & t & E).
    { unfold number_of. by rewrite int_token_print. }
    pose proof (str_of_Z_chars z) as Hz. rewrite E in Hz |- *. cbn in Hz.
    apply andb_true_iff in Hz as [Hc _]. eexists _, _. split; [done|]. by apply numeral_opens.
  - intros [[Hc Hn]|[->|[->| ->]]]%float_ok_cases; cbn; try by eauto.
    destruct (number_nonempty _ _ Hn) as (c & t & ->). cbn in *.
    apply andb_true_iff in Hc as [Hc _]. eexists _, _. split; [done|]. by apply numeral_opens.
Qed.

Lemma skip_char c s : is_json_space c = false -> skip_ws (String c s) = String c s.
Proof. intros H. unfold skip_ws. cbn. by rewrite H. Qed.

Lemma skip_print b v tail : json_wf v = true -> skip_ws (print b v tail) = print b v tail.
Proof.
  intros (c & s & -> & Hc)%(print_opens b _ tail). by apply skip_char, opening_not_space.
Qed.

Lemma value_number n t v rest :
  all_chars is_numeral t = true -> number_of t = Some v -> delimited rest ->
  value (S n) (t +:+ rest) = Some (v, rest).
Proof.
  intros Ht Hv Hr. destruct (number_nonempty t v Hv) as (c & t' & ->).
  pose proof (scalar_number _ _ rest Ht Hv Hr) as Hs. cbn in Ht, Hs.
  apply andb_true_iff in Ht as [(_ & H1 & H2 & H3)%numeral_opens _].
  cbn -[scalar]. by rewrite H1, H2, H3.
Qed.

Lemma str_ltb_spec a b : str_ltb a b = true <-> str_leb a b = true /\ a <> b.
Proof.
  unfold str_ltb. rewrite negb_true_iff. split.
  - intros H. destruct (str_leb_total a b) as [?|?]; [|congruence].
    split; [done|]. intros ->. by rewrite str_leb_refl in H.
  - intros [H Hne]. destruct (str_leb b a) eqn:E; [|done]. by destruct Hne; apply str_leb_antisym.
Qed.

#[local] Instance str_ltb_trans : Transitive (fun a b => str_ltb a b = true).
Proof.
  intros a b c [H1 N1]%str_ltb_spec [H2 N2]%str_ltb_spec. apply str_ltb_spec.
  split; [by eapply str_leb_trans|]. intros ->. apply N1. by apply str_leb_antisym.
Qed.

Lemma increasing_spec ks :
  increasing ks = true <-> StronglySorted (fun a b => str_ltb a b = true) ks.
Proof.
  split.
  - intros H. apply Sorted_StronglySorted; [intros a b c; apply str_ltb_trans|].
    induction ks as [|k [|k' ks] IH]; [repeat constructor..|].
    apply andb_true_iff in H as [? H]. constructor; [by apply IH|by constructor].
  - induction 1 as [|k [|k' ks] H IH Hk]; [done..|].
    apply andb_true_iff. split; [by inversion Hk|done].
Qed.

Lemma obj_set_last {V} k (v : V) ms :
  Forall (fun m => str_ltb m.1 k = true) ms -> obj_set k v ms = ms ++ [(k, v)].
Proof.
  induction 1 as [|[k' v'] ms H _ IH]; [done|]. cbn [obj_set app]. rewrite IH.
  apply str_ltb_spec in H as H'. destruct H' as [_ Hne]. cbn in Hne.
  destruct (String.eqb_spec k k') as [->|_]; [done|].
  unfold str_ltb in H. apply negb_true_iff in H. cbn in H. by rewrite H.
Qed.

Lemma obj_of_increasing {V} (ms : list (string * V)) : increasing (map fst ms) = true -> obj_of ms = ms.
Proof.
  intros H%increasing_spec. unfold obj_of. change ms with ([] ++ ms) in H at 1.
  rewrite <- (app_nil_l ms) at 2. revert H. generalize (@nil (string * V)).
  induction ms as [|[k v] ms IH]; intros acc H; cbn; [by rewrite app_nil_r|].
  rewrite obj_set_last; [rewrite IH|]; rewrite <- ?app_assoc; [done..|].
  clear IH. induction acc as [|[k' v'] acc IHa]; [constructor|]. cbn in H.
  apply StronglySorted_inv in H as [H Hk]. constructor; [|by apply IHa].
  rewrite map_app, Forall_app in Hk. destruct Hk as [_ Hk]. by inversion Hk.
Qed.

Section roundtrip.
Context (b : bool).

(** The value is read back in front of any text, with its fuel or more. *)
Definition reads (v : json) : Prop :=
  json_wf v = true -> forall n rest, (json_size v <= n)%nat -> delimited rest ->
  value n (print b v rest) = Some (v, rest).

Definition elems_tail (vs : list json) (tail : string) : string :=
  foldr (fun v acc => String "," (print b v acc)) (String "]" tail) vs.

Definition members_tail (ms : list (string * json)) (tail : string) : string :=
  foldr (fun '(k, v) acc => String "," (print_str b k (String ":" (print b v acc))))
    (String "}" tail) ms.

Lemma elems_print v vs rest n :
  Forall reads (v :: vs) -> forallb json_wf (v :: vs) = true ->
  (foldr (fun v n => S (json_size v + n)) 0 (v :: vs) <= n)%nat ->
  elems n (print b v (elems_tail vs rest)) = Some (v :: vs, rest).
Proof.
  revert v n. induction vs as [|w vs IH]; intros v n Hr Hwf Hn;
    apply Forall_cons in Hr as [Hv Hr]; apply andb_true_iff in Hwf as [Hwv Hwf];
    (destruct n as [|n]; [cbn in Hn; lia|]); cbn [foldr] in Hn; cbn [elems].
  - rewrite Hv; [done|done|lia|done].
  - rewrite Hv; [|done|lia|done]. cbn [mbind option_bind].
    change (elems_tail (w :: vs) rest) with (String "," (print b w (elems_tail vs rest))).
    rewrite !skip_char by done. cbn [after Ascii.eqb Bool.eqb mbind option_bind].
    rewrite skip_print by (by apply andb_true_iff in Hwf as [? _]).
    rewrite IH; [done|done|done|]. cbn [foldr]. lia.
Qed.

Lemma members_print k v ms rest n :
  Forall (fun m => reads m.2) ((k, v) :: ms) ->
  forallb (fun m => json_wf m.2) ((k, v) :: ms) = true ->
  (foldr (fun m n => S (json_size m.2 + n)) 0 ((k, v) :: ms) <= n)%nat ->
  members n (print_str b k (String ":" (print b v (members_tail ms rest))))
  = Some ((k, v) :: ms, rest).
Proof.
  revert k v n. induction ms as [|[k' w] ms IH]; intros k v n Hr Hwf Hn;
    apply Forall_cons in Hr as [Hv Hr]; apply andb_true_iff in Hwf as [Hwv Hwf]; cbn in Hv, Hwv;
    (destruct n as [|n]; [cbn in Hn; lia|]); cbn [foldr snd] in Hn; cbn [members];
    unfold print_str at 1; cbn [after]; rewrite Ascii.eqb_refl; cbn [mbind option_bind];
    rewrite scan_print; cbn [mbind option_bind]; rewrite skip_char by done;
    cbn [after Ascii.eqb Bool.eqb mbind option_bind]; rewrite skip_print by done.
  - rewrite Hv; [done|done|lia|done].
  - rewrite Hv; [|done|lia|done]. cbn [mbind option_bind].
    change (members_tail ((k', w) :: ms) rest)
      with (String "," (print_str b k' (String ":" (print b w (members_tail ms rest))))).
    rewrite !skip_char by done. cbn [after Ascii.eqb Bool.eqb mbind option_bind].
    unfold print_str at 1. rewrite skip_char by done.
    change (String quote_char (escapes b k' (String quote_char ?t))) with (print_str b k' t).
    rewrite IH; [done|done|done|]. cbn [foldr snd]. lia.
Qed.

Lemma scalar_literal s :
  number_of (span is_numeral s).1 = None -> scalar s = literal LITERALS s.
Proof. unfold scalar. destruct (span is_numeral s) as [t r]. cbn. by intros ->. Qed.

(** A text that starts with a literal. *)
Ltac literal_case :=
  cbn -[literal]; rewrite scalar_literal by (vm_compute; reflexivity);
  match goal with r : string |- _ => by destruct r end.

Lemma value_print v : reads v.
Proof.
  induction v as [|[]|z|r|s|vs IH|ms IH] using json_nested_ind; intros Hwf n rest Hn Hd;
    (destruct n as [|n]; [cbn in Hn; lia|]).
  - literal_case.
  - literal_case.
  - literal_case.
  - apply value_number; [apply str_of_Z_chars| |done]. unfold number_of. by rewrite int_token_print.
  - apply float_ok_cases in Hwf as [[Hc Hf]|[->|[->| ->]]]; [by apply value_number|literal_case..].
  - cbn [print value]. unfold print_str. cbn [after]. rewrite Ascii.eqb_refl. by rewrite scan_print.
  - destruct vs as [|v vs]; [reflexivity|]. cbn in Hn.
    change (print b (JList (v :: vs)) rest) with (String "[" (print b v (elems_tail vs rest))).
    cbn [value after Ascii.eqb Bool.eqb quote_char].
    pose proof Hwf as [Hv _]%andb_true_iff.
    rewrite skip_print by done.
    destruct (print_opens b v (elems_tail vs rest) Hv) as (c & s & E & Hc).
    assert (after "]" (print b v (elems_tail vs rest)) = None) as ->.
    { rewrite E. cbn [after]. by rewrite opening_not_close. }
    rewrite elems_print; [done|done|done|]. cbn [foldr]. lia.
  - destruct ms as [|[k v] ms]; [reflexivity|]. cbn in Hn.
    apply andb_true_iff in Hwf as [Hk Hwf].
    change (print b (JObj ((k, v) :: ms)) rest)
      with (String "{" (print_str b k (String ":" (print b v (members_tail ms rest))))).
    cbn [value after Ascii.eqb Bool.eqb quote_char]. unfold print_str at 1 2.
    rewrite skip_char by done. cbn [after Ascii.eqb Bool.eqb quote_char].
    fold (print_str b k (String ":" (print b v (members_tail ms rest)))).
    rewrite members_print; [|done|done|cbn [foldr snd]; lia].
    cbn [mbind option_bind]. unfold obj. by rewrite obj_of_increasing.
Qed.
End roundtrip.

(** * The text is long enough to be its own fuel *)

Lemma str_length_app s t : String.length (s +:+ t) = (String.length s + String.length t)%nat.
Proof. induction s as [|c s IH]; cbn; [done|by rewrite IH]. Qed.

Lemma str_app_nil_r s : s +:+ "" = s.
Proof. induction s as [|c s IH]; cbn; [done|by rewrite IH]. Qed.

Lemma escape_length b c tail : (String.length tail < String.length (escape b c tail))%nat.
Proof. unfold escape. repeat case_goal; cbn; lia. Qed.

Lemma print_str_length b s tail : (2 + String.length tail <= String.length (print_str b s tail))%nat.
Proof.
  unfold print_str. cbn. induction s as [|c s IH]; cbn; [lia|].
  pose proof (escape_length b c (escapes b s (String quote_char tail))). lia.
Qed.

Lemma print_length b v : json_wf v = true ->
  forall tail, (json_size v + String.length tail <= String.length (print b v tail))%nat.
Proof.
  assert (Hscalar : forall v tail, json_wf v = true -> json_size v = 1%nat ->
    (forall tail, print b v tail = print b v "" +:+ tail) ->
    (json_size v + String.length tail <= String.length (print b v tail))%nat).
  { intros w tail Hw -> Ht. destruct (print_opens b w "" Hw) as (c & s & E & _).
    rewrite Ht, E, str_length_app. cbn. lia. }
  induction v as [|[]|z|r|s|vs IH|ms IH] using json_nested_ind; intros Hwf tail;
    try (apply Hscalar; [done|done|]; intros; cbn; by rewrite ?str_app_nil_r).
  - cbn [json_size print]. pose proof (print_str_length b s tail). lia.
  - destruct vs as [|v vs]; [cbn; lia|]. cbn [json_size print].
    apply Forall_cons in IH as [Hv IH]. apply andb_true_iff in Hwf as [Hwv Hwf].
    cbn. etrans; [|apply le_n_S, Hv, Hwv]. fold (elems_tail b vs tail).
    assert (foldr (fun v n => S (json_size v + n)) 0 vs + S (String.length tail)
            <= String.length (elems_tail b vs tail))%nat; [|lia].
    clear Hv. induction IH as [|w vs Hw _ IHv]; [cbn; lia|].
    apply andb_true_iff in Hwf as [Hww Hwf]. specialize (IHv Hwf). specialize (Hw Hww). cbn.
    etrans; [|apply le_n_S, Hw]. unfold elems_tail in IHv. lia.
  - destruct ms as [|[k v] ms]; [cbn; lia|]. apply andb_true_iff in Hwf as [_ Hwf]. cbn [json_size print].
    apply Forall_cons in IH as [Hv IH]. apply andb_true_iff in Hwf as [Hwv Hwf].
    cbn [String.length foldr snd]. etrans; [|apply le_n_S, print_str_length]. cbn [String.length].
    fold (members_tail b ms tail). specialize (Hv Hwv (members_tail b ms tail)). cbn in Hv.
    assert (foldr (fun m n => S (json_size m.2 + n)) 0 ms + S (String.length tail)
            <= String.length (members_tail b ms tail))%nat; [|lia].
    clear Hv. induction IH as [|[k' w] ms Hw _ IHv]; [cbn; lia|].
    apply andb_true_iff in Hwf as [Hww Hwf]. specialize (IHv Hwf).
    specialize (Hw Hww (members_tail b ms tail)). cbn in Hw |- *.
    etrans; [|apply le_n_S, print_str_length]. cbn. unfold members_tail in *. lia.
Qed.

(** Reading back what [json.dumps] wrote gives the value. *)
Theorem loads_dumps b v : json_wf v = true -> loads (dumps b v) = Some v.
Proof.
  intros Hwf. unfold loads, dumps. rewrite skip_print by done.
  pose proof (print_length b v Hwf ""). cbn in H.
  rewrite (value_print b v Hwf); [done|lia|done].
Qed.

Lemma dumps_inj b v w : json_wf v = true -> json_wf w = true -> dumps b v = dumps b w -> v = w.
Proof. intros Hv Hw E. pose proof (loads_dumps b v Hv) as H. rewrite E, loads_dumps in H by done. congruence. Qed.

(** * Objects *)

Section objects.
Context {V : Type}.
Implicit Types (v : V) (ms acc : list (string * V)).

Lemma get_obj_set k k' v ms :
  dict_get k (obj_set k' v ms) = if String.eqb k k' then Some v else dict_get k ms.
Proof.
  induction ms as [|[k0 v0] ms IH]; cbn; [by destruct (String.eqb k k')|].
  destruct (String.eqb_spec k' k0) as [<-|Hne]; cbn; [by destruct (String.eqb k k')|].
  destruct (str_leb k' k0); cbn; [by destruct (String.eqb k k')|]. rewrite IH.
  destruct (String.eqb_spec k k0) as [->|]; [|done].
  by destruct (String.eqb_spec k0 k') as [->|].
Qed.

Lemma obj_set_keys k v ms x : x ∈ map fst (obj_set k v ms) <-> x = k \/ x ∈ map fst ms.
Proof.
  induction ms as [|[k0 v0] ms IH]; cbn; [set_solver|].
  destruct (String.eqb_spec k k0) as [<-|Hne]; cbn; [set_solver|].
  destruct (str_leb k k0); cbn; [set_solver|]. rewrite !elem_of_cons, IH. tauto.
Qed.

Lemma obj_set_increasing k v ms :
  increasing (map fst ms) = true -> increasing (map fst (obj_set k v ms)) = true.
Proof.
  rewrite !increasing_spec. induction ms as [|[k0 v0] ms IH]; cbn; [repeat constructor|].
  intros [H Hk]%StronglySorted_inv. destruct (String.eqb_spec k k0) as [<-|Hne]; [by constructor|].
  destruct (str_leb k k0) eqn:E.
  - assert (Hlt : str_ltb k k0 = true) by by apply str_ltb_spec.
    constructor; [by constructor|]. constructor; [done|].
    eapply Forall_impl; [exact Hk|]. intros x Hx. cbn in *. by apply (str_ltb_trans k k0 x).
  - constructor; [by apply IH|]. apply Forall_forall. intros x [->|Hx]%obj_set_keys.
    + apply str_ltb_spec. destruct (str_leb_total k k0) as [?|?]; [congruence|done].
    + by rewrite Forall_forall in Hk; apply Hk.
Qed.

Lemma obj_of_increasing_keys ms : increasing (map fst (obj_of ms)) = true.
Proof.
  unfold obj_of. assert (increasing (map fst (@nil (string * V))) = true) as H by done.
  revert H. generalize (@nil (string * V)).
  induction ms as [|[k v] ms IH]; intros acc H; [done|]. by apply IH, obj_set_increasing.
Qed.

Lemma Forall_obj_set (P : string * V -> Prop) k v ms :
  P (k, v) -> Forall P ms -> Forall P (obj_set k v ms).
Proof.
  intros Hk. induction 1 as [|[k0 v0] ms H Hms IH]; cbn; [by constructor|].
  destruct (String.eqb k k0); [by constructor|]. by destruct (str_leb k k0); repeat constructor.
Qed.

Lemma Forall_obj_of (P : string * V -> Prop) ms : Forall P ms -> Forall P (obj_of ms).
Proof.
  unfold obj_of. assert (Forall P []) as H by constructor. revert H.
  generalize (@nil (string * V)). intros acc Hacc Hms. revert acc Hacc.
  induction Hms as [|[k v] ms H Hms IH]; intros acc Hacc; [done|]. by apply IH, Forall_obj_set.
Qed.
End objects.

Lemma forallb_wf (ms : list (string * json)) : forallb (fun m => json_wf m.2) ms = true <-> Forall (fun m => json_wf m.2 = true) ms.
Proof. rewrite forallb_forall, List.Forall_forall. done. Qed.

Lemma obj_wf (ms : list (string * json)) : Forall (fun m => json_wf m.2 = true) ms -> json_wf (obj ms) = true.
Proof.
  intros H. cbn. apply andb_true_iff. split; [apply obj_of_increasing_keys|].
  by apply forallb_wf, Forall_obj_of.
Qed.

(** ** What is read is in normal form *)

Lemma span_prefix p s t rest : span p s = (t, rest) -> span p t = (t, "").
Proof.
  revert t rest; induction s as [|c s IH]; intros t rest; cbn [span]; [by intros [= <- _]|].
  destruct (p c) eqn:E; [|by intros [= <- _]].
  destruct (span p s) as [a b]. intros [= <- <-]. cbn [span]. by rewrite E, (IH a b).
Qed.

Lemma number_of_wf s t rest v : span is_numeral s = (t, rest) -> number_of t = Some v -> json_wf v = true.
Proof.
  intros Hs H. unfold number_of in H. destruct (int_token t) eqn:Ei; [by injection H as <-|].
  destruct (number_token t) eqn:En; [|done]. injection H as <-. cbn [json_wf]. unfold float_ok.
  rewrite (span_prefix _ _ _ _ Hs). unfold number_of. by rewrite Ei, En.
Qed.

Lemma literal_wf ls s v rest :
  Forall (fun m => json_wf m.2 = true) ls -> literal ls s = Some (v, rest) -> json_wf v = true.
Proof.
  induction 1 as [|[l w] ls Hw _ IH]; cbn; [done|]. destruct (String.prefix l s); [|done]. by intros [= <- _].
Qed.

Lemma scalar_wf s v rest : scalar s = Some (v, rest) -> json_wf v = true.
Proof.
  unfold scalar. destruct (span is_numeral s) as [t r] eqn:Es. destruct (number_of t) as [w|] eqn:En.
  - intros [= <- _]. by eapply number_of_wf.
  - apply literal_wf. by repeat constructor.
Qed.

Lemma value_wf n :
  (forall s v rest, value n s = Some (v, rest) -> json_wf v = true) /\
  (forall s ms rest, members n s = Some (ms, rest) -> Forall (fun m => json_wf m.2 = true) ms) /\
  (forall s vs rest, elems n s = Some (vs, rest) -> Forall (fun v => json_wf v = true) vs).
Proof.
  induction n as [|n (IHv & IHm & IHe)]; [done|]. repeat split.
  - intros s v rest. cbn [value].
    destruct (after quote_char s) as [s1|]; [|destruct (after "{" s) as [s1|]; [|destruct (after "[" s) as [s1|]]].
    + destruct (scan_str s1) as [[t r]|]; cbn; [|done]. by intros [= <- _].
    + destruct (after "}" (skip_ws s1)); [by intros [= <- _]|].
      destruct (members n (skip_ws s1)) as [[ms r]|] eqn:E; cbn; [|done]. intros [= <- _].
      by eapply obj_wf, IHm.
    + destruct (after "]" (skip_ws s1)); [by intros [= <- _]|].
      destruct (elems n (skip_ws s1)) as [[vs r]|] eqn:E; cbn; [|done]. intros [= <- _].
      apply forallb_forall. intros x Hx. apply IHe in E. eapply Forall_forall in E; [done|].
      by apply list_elem_of_In.
    + apply scalar_wf.
  - intros s ms rest. cbn [members]. destruct (after quote_char s) as [s1|]; cbn; [|done].
    destruct (scan_str s1) as [[k s2]|]; cbn; [|done]. destruct (after ":" (skip_ws s2)) as [s3|]; cbn; [|done].
    destruct (value n (skip_ws s3)) as [[v s4]|] eqn:Ev; cbn; [|done]. apply IHv in Ev.
    destruct (after "}" (skip_ws s4)); [intros [= <- _]; by repeat constructor|].
    destruct (after "," (skip_ws s4)) as [s5|]; cbn; [|done].
    destruct (members n (skip_ws s5)) as [[ms' r]|] eqn:Em; cbn; [|done]. intros [= <- _].
    constructor; [done|]. by eapply IHm.
  - intros s vs rest. cbn [elems]. destruct (value n s) as [[v s1]|] eqn:Ev; cbn; [|done]. apply IHv in Ev.
    destruct (after "]" (skip_ws s1)); [intros [= <- _]; by repeat constructor|].
    destruct (after "," (skip_ws s1)) as [s2|]; cbn; [|done].
    destruct (elems n (skip_ws s2)) as [[vs' r]|] eqn:Em; cbn; [|done]. intros [= <- _].
    constructor; [done|]. by eapply IHe.
Qed.

(** Whatever text [loads] reads, its value is in normal form. *)
Lemma loads_wf s v : loads s = Some v -> json_wf v = true.
Proof.
  unfold loads. destruct (value _ _) as [[w rest]|] eqn:E; cbn; [|done].
  destruct (skip_ws rest); [|done]. intros [= <-]. by eapply value_wf.
Qed.
