(* ===== verification/JsonDict.v ===== *)
(** Records as JSON objects: the checks and readers that the package's [from_dict]
    methods share, and the members that its [to_dict] methods write.

    A reader raises the exception type of its class: [contract] for a message of its
    own, [wrong_type] where Python meets a value of another type than it uses. *)
From Stdlib Require Import Ascii.
From S2P Require Import Prelude PyStr Json.

Class DictExn (E : Type) : Type := { contract : string -> E; wrong_type : E }.
#[export] Hint Mode DictExn ! : typeclass_instances.

(** * Writing *)

Definition jopt {A} (f : A -> json) (o : option A) : json :=
  match o with Some x => f x | None => JNull end.

(** [if value is not None: payload[key] = value] *)
Definition given {A} (key : string) (f : A -> json) (o : option A) : list (string * json) :=
  match o with Some x => [(key, f x)] | None => [] end.

(** [if values: payload[key] = list(values)] *)
Definition given_list (key : string) (l : list string) : list (string * json) :=
  match l with [] => [] | _ => [(key, JList (map JStr l))] end.

Definition field_names (names : list string) : string := join ", " (sort_str names).

(** The characters of a string, as [tuple(text)] gives them. *)
Fixpoint chars (s : string) : list json :=
  match s with
  | EmptyString => []
  | String c s => JStr (String c "") :: chars s
  end.

(** * Reading *)

Section readers.
Context {E : Type} {X : DictExn E}.

(** [_strict_mapping] *)
Definition strict_mapping (v : json) (required optional : list string) (field_name : string)
    : result E (list (string * json)) :=
  match v with
  | JObj ms =>
      let keys := map fst ms in
      let missing := List.filter (fun k => negb (mem k keys)) required in
      let unknown := List.filter (fun k => negb (mem k (required ++ optional))) keys in
      _ ← raise_if (negb (bool_decide (missing = [])))
            (contract (field_name +:+ " missing field(s): " +:+ field_names missing));
      _ ← raise_if (negb (bool_decide (unknown = [])))
            (contract (field_name +:+ " has unknown field(s): " +:+ field_names unknown));
      Ok ms
  | _ => Err (contract (field_name +:+ " must be an object"))
  end.

Definition as_str (v : json) : result E string :=
  match v with JStr s => Ok s | _ => Err wrong_type end.
Definition as_float (v : json) : result E string :=
  match v with JFloat r => Ok r | _ => Err wrong_type end.
Definition as_int (v : json) : result E Z :=
  match v with JInt z => Ok z | _ => Err wrong_type end.
Definition as_bool (v : json) : result E bool :=
  match v with JBool b => Ok b | _ => Err wrong_type end.
Definition as_list (v : json) : result E (list json) :=
  match v with JList vs => Ok vs | _ => Err wrong_type end.
Definition as_obj (v : json) : result E (list (string * json)) :=
  match v with JObj ms => Ok ms | _ => Err wrong_type end.

(** [tuple(value)]: the items of a list, the characters of a string, the keys of a
    dict; anything else is not iterable. *)
Definition as_tuple (v : json) : result E (list json) :=
  match v with
  | JList vs => Ok vs
  | JStr s => Ok (chars s)
  | JObj ms => Ok (map (fun m => JStr m.1) ms)
  | _ => Err wrong_type
  end.

(** [payload[key]] *)
Definition field {A} (f : json -> result E A) (ms : list (string * json)) (key : string)
    : result E A :=
  match dict_get key ms with Some v => f v | None => Err wrong_type end.

(** [payload.get(key, d)] *)
Definition field_or {A} (d : A) (f : json -> result E A) (ms : list (string * json))
    (key : string) : result E A :=
  match dict_get key ms with Some v => f v | None => Ok d end.

(** [payload.get(key)] and [payload[key]] of a value that may be [None] *)
Definition nullable {A} (f : json -> result E A) (v : json) : result E (option A) :=
  match v with JNull => Ok None | _ => x ← f v; Ok (Some x) end.

(** [isinstance(value, str) and value.strip()], else the message is raised. *)
Definition nonblank (msg : string) (v : json) : result E string :=
  match v with
  | JStr s => if String.eqb (strip s) "" then Err (contract msg) else Ok s
  | _ => Err (contract msg)
  end.

(** Every item is such a string, else the message is raised. *)
Definition nonblanks (msg : string) (vs : list json) : result E (list string) :=
  map_result (nonblank msg) vs.

(** * Lemmas *)

Lemma map_roundtrip {A B} (f : A -> B) (g : B -> result E A) l :
  (forall x, g (f x) = Ok x) -> map_result g (map f l) = Ok l.
Proof. intros H. apply map_result_ok. induction l as [|x l IH]; cbn; constructor; auto. Qed.

Lemma nullable_str o : nullable as_str (jopt JStr o) = Ok o.
Proof. by destruct o. Qed.

(** [payload[key]] of a member. *)
Lemma field_get {A} (f : json -> result E A) ms k v :
  dict_get k ms = Some v -> field f ms k = f v.
Proof. unfold field. by intros ->. Qed.

Lemma field_or_get {A} (d : A) (f : json -> result E A) ms k v :
  dict_get k ms = Some v -> field_or d f ms k = f v.
Proof. unfold field_or. by intros ->. Qed.

Lemma nonblank_ok msg s : strip s <> "" -> nonblank msg (JStr s) = Ok s.
Proof. cbn. by intros ->%String.eqb_neq. Qed.

Lemma nonblank_inv msg v s : nonblank msg v = Ok s -> v = JStr s /\ strip s <> "".
Proof.
  destruct v as [| | | |t| |]; try done. cbn. destruct (String.eqb_spec (strip t) ""); [done|].
  by intros [= <-].
Qed.

Lemma nonblanks_ok msg l : Forall (fun s => strip s <> "") l -> nonblanks msg (map JStr l) = Ok l.
Proof.
  intros H. apply map_result_ok. induction H as [|s l Hs _ IH]; cbn [map]; constructor; [|done].
  by apply nonblank_ok.
Qed.

Lemma nonblanks_inv msg vs l : nonblanks msg vs = Ok l -> Forall (fun s => strip s <> "") l.
Proof.
  intros H%map_result_ok. induction H as [|v s vs l Hs _ IH]; constructor; [|done].
  by apply nonblank_inv in Hs as [_ ?].
Qed.
End readers.

Lemma list_wf {A} (f : A -> json) (P : A -> Prop) l :
  (forall x, P x -> json_wf (f x) = true) -> Forall P l -> json_wf (JList (map f l)) = true.
Proof. intros Hf. induction 1 as [|x l Hx _ IH]; [done|]. cbn in *. by rewrite Hf. Qed.

Lemma strings_wf l : json_wf (JList (map JStr l)) = true.
Proof. by apply (list_wf JStr (fun _ => True)); [|apply Forall_true]. Qed.

(** * Members of [obj] *)

Lemma obj_set_perm {V} k (v : V) ms : k ∉ map fst ms -> obj_set k v ms ≡ₚ (k, v) :: ms.
Proof.
  induction ms as [|[k' v'] ms IH]; cbn; [done|]. intros [Hne Hk]%not_elem_of_cons.
  apply String.eqb_neq in Hne. rewrite Hne. destruct (str_leb k k'); [done|].
  rewrite IH by done. apply perm_swap.
Qed.

(** A dict of pairwise different keys has the members it is built from. *)
Lemma obj_of_perm {V} (ms : list (string * V)) : base.NoDup (map fst ms) -> obj_of ms ≡ₚ ms.
Proof.
  intros Hnd. unfold obj_of. assert (forall acc, base.NoDup (map fst (acc ++ ms)) ->
    foldl (fun acc '(k, v) => obj_set k v acc) acc ms ≡ₚ acc ++ ms) as H; [|by apply (H [])].
  clear Hnd. induction ms as [|[k v] ms IH]; intros acc H; cbn; [by rewrite app_nil_r|].
  assert (Hk : k ∉ map fst acc).
  { rewrite map_app in H. apply NoDup_app in H as (_ & H & _). intros Hk. apply (H k Hk). by left. }
  assert (Hp : obj_set k v acc ++ ms ≡ₚ acc ++ (k, v) :: ms).
  { rewrite (obj_set_perm k v acc Hk). cbn. apply Permutation_middle. }
  rewrite IH; [done|]. by rewrite Hp.
Qed.

(** ** The members of a dict that is written as a list of pairs, some only [given] *)

Lemma dict_get_app {V} k (a b : list (string * V)) :
  dict_get k (a ++ b) = match dict_get k a with Some v => Some v | None => dict_get k b end.
Proof. induction a as [|[k' v] a IH]; cbn; [done|]. by destruct (String.eqb k k'). Qed.

Lemma get_obj_of {V} k (ms : list (string * V)) : dict_get k (obj_of ms) = dict_get k (rev ms).
Proof.
  unfold obj_of. assert (forall acc, dict_get k (foldl (fun acc '(k, v) => obj_set k v acc) acc ms) =
    match dict_get k (rev ms) with Some v => Some v | None => dict_get k acc end) as H.
  - induction ms as [|[k' v'] ms IH]; intros acc; cbn; [done|].
    rewrite IH, dict_get_app. destruct (dict_get k (rev ms)); [done|].
    rewrite get_obj_set. cbn. by destruct (String.eqb k k').
  - rewrite H. by destruct (dict_get k (rev ms)).
Qed.

Lemma get_given {A} k k' (f : A -> json) o :
  dict_get k (given k' f o) = if String.eqb k k' then f <$> o else None.
Proof. destruct o; cbn; by destruct (String.eqb k k'). Qed.

(** The value of a [given_list] member. *)
Definition list_value (l : list string) : option json :=
  match l with [] => None | _ => Some (JList (map JStr l)) end.

Lemma get_given_list k k' l :
  dict_get k (given_list k' l) = if String.eqb k k' then list_value l else None.
Proof. destruct l; cbn; by destruct (String.eqb k k'). Qed.

Lemma rev_given {A} k (f : A -> json) o : rev (given k f o) = given k f o.
Proof. by destruct o. Qed.

Lemma rev_given_list k l : rev (given_list k l) = given_list k l.
Proof. by destruct l. Qed.

Lemma given_keys {A} k (f : A -> json) o : Forall (fun m => m.1 = k) (given k f o).
Proof. destruct o; by repeat constructor. Qed.

Lemma given_list_keys k l : Forall (fun m => m.1 = k) (given_list k l).
Proof. destruct l; by repeat constructor. Qed.

Lemma option_eta {A} (o : option A) : match o with Some x => Some x | None => None end = o.
Proof. by destruct o. Qed.

(** [dict_get key (obj_of pairs) = value] for a literal key. *)
Ltac solve_member :=
  try match goal with H : ?m = obj_of _ |- dict_get _ ?m = _ => rewrite H end;
  rewrite get_obj_of, ?rev_app_distr, ?rev_given, ?rev_given_list; cbn [rev app];
  rewrite ?dict_get_app, ?get_given, ?get_given_list; cbn [dict_get String.eqb Ascii.eqb Bool.eqb];
  rewrite ?option_eta; reflexivity.

Section reading.
Context {E : Type} {X : DictExn E}.
Implicit Types (ms : list (string * json)).

Lemma strict_mapping_ok ms required optional name :
  Forall (fun k => is_Some (dict_get k (obj_of ms))) required ->
  Forall (fun m => m.1 ∈ required ++ optional) ms ->
  strict_mapping (E := E) (obj ms) required optional name = Ok (obj_of ms).
Proof.
  intros Hr Ho. unfold strict_mapping, obj.
  assert (List.filter (fun k => negb (mem k (map fst (obj_of ms)))) required = []) as ->.
  { clear Ho. induction Hr as [|k r Hk _ IH]; [done|]. cbn [List.filter].
    assert (mem k (map fst (obj_of ms)) = true) as ->; [|cbn; exact IH].
    apply mem_spec. destruct (decide (k ∈ map fst (obj_of ms))) as [|Hn]; [done|].
    apply dict_get_none in Hn. rewrite Hn in Hk. by destruct Hk. }
  apply (Forall_obj_of (fun m => m.1 ∈ required ++ optional)) in Ho.
  assert (List.filter (fun k => negb (mem k (required ++ optional))) (map fst (obj_of ms)) = []) as ->;
    [|reflexivity].
  clear Hr. induction Ho as [|m l Hm _ IH]; [done|]. cbn [map List.filter].
  apply mem_spec in Hm. rewrite Hm. cbn. exact IH.
Qed.

Lemma field_or_none {A} (d : A) (f : json -> result E A) ms k :
  dict_get k ms = None -> field_or d f ms k = Ok d.
Proof. unfold field_or. by intros ->. Qed.

(** A member that is [given] when the value is not [None]. *)
Lemma field_given {A} (f : json -> result E (option A)) (g : A -> json) ms k o :
  dict_get k ms = g <$> o -> (forall x, o = Some x -> f (g x) = Ok (Some x)) ->
  field_or (E := E) None f ms k = Ok o.
Proof. unfold field_or. intros ->. destruct o; cbn; auto. Qed.

Lemma field_list ms k l : dict_get k ms = list_value l -> field_or (E := E) [] as_tuple ms k = Ok (map JStr l).
Proof. unfold field_or. intros ->. by destruct l. Qed.
End reading.

(** The keys of [to_dict]'s members are among the declared ones. *)
Ltac solve_keys :=
  rewrite ?Forall_app; split_and?;
  repeat match goal with
  | |- Forall _ (given _ _ _) => eapply Forall_impl; [apply given_keys|]; intros ? ->
  | |- Forall _ (given_list _ _) => eapply Forall_impl; [apply given_list_keys|]; intros ? ->
  | |- Forall _ (_ :: _) => constructor
  | |- Forall _ [] => constructor
  end; apply mem_spec; reflexivity.

(** All of [to_dict]'s required members are there. *)
Ltac solve_required := repeat (apply Forall_cons; split; [eexists; solve_member|]); by constructor.

Ltac open_dict := erewrite strict_mapping_ok; [|solve_required|solve_keys]; cbn [mbind result_mbind result_bind].

(** A map written as a dict and read back. *)
Definition map_members {A} (f : A -> json) (m : gmap string A) : list (string * json) :=
  obj_of (map (fun p => (p.1, f p.2)) (map_to_list m)).

Lemma map_members_read {E A} (f : A -> json) (g : string * json -> result E (string * A))
    (m : gmap string A) :
  (forall k x, m !! k = Some x -> g (k, f x) = Ok (k, x)) ->
  exists l, map_result g (map_members f m) = Ok l /\ list_to_map l = m.
Proof.
  intros Hg. unfold map_members.
  assert (Hnd : base.NoDup (map fst (map (fun p => (p.1, f p.2)) (map_to_list m)))).
  { rewrite map_map. apply NoDup_fst_map_to_list. }
  apply obj_of_perm, Permutation_map_inv in Hnd as (l & -> & Hl). exists l. split.
  - apply map_result_ok. assert (Forall (fun p => m !! p.1 = Some p.2) l) as H.
    { apply Forall_forall. intros [k x] Hx. rewrite <- Hl in Hx. by apply elem_of_map_to_list. }
    clear Hl. induction H as [|[k x] l Hx _ IH]; cbn; constructor; [|done]. by apply Hg.
  - rewrite <- (list_to_map_to_list m). symmetry. apply list_to_map_proper; [|done].
    apply NoDup_fst_map_to_list.
Qed.

(** Evaluates the fields of a dict, whose values the list of members gives. *)
Ltac get_field k :=
  first [erewrite (field_get _ _ k) by reflexivity | erewrite (field_or_get _ _ _ k) by reflexivity];
  cbn [as_str as_obj as_float as_list as_tuple mbind result_mbind result_bind snd fst].

(** The same for a dict with [given] members. *)
Ltac next_field := cbn [as_str as_obj as_float as_list as_tuple mbind result_mbind result_bind snd fst].
Ltac get_member ms k :=
  first [ erewrite (field_get _ ms k) by solve_member
        | erewrite (field_or_get _ _ ms k) by solve_member ]; next_field.
