(* ===== verification/Passports.v ===== *)
(** [verdict/capability_passports.py] and [verdict/runtime_passports.py]: what an exact
    route, and a tool or peer at run time, has been observed to be able to do, until
    when, and how a capability is resolved from that.

    Values that come from a payload are [json], and a constructor checks them as its
    [__post_init__] does. Instants of aware datetimes are microseconds; a conversion to
    UTC that leaves the years 1 to 9999 is Python's [OverflowError]. A float is its
    [repr]. The constructor of an evidence lets a status that is no string pass
    unchecked; here that is [PassportTypeError]. *)
From Stdlib Require Import Ascii.
From S2P Require Import Prelude PyStr Time PyNum Json JsonDict.

Inductive passport_exn :=
| CapabilityPassportError (msg : string)
| PassportTypeError
| PassportOverflowError.

#[export] Instance passport_dict_exn : DictExn passport_exn :=
  { contract := CapabilityPassportError; wrong_type := PassportTypeError }.

(** [RuntimePassportError], and what the evidence of a runtime passport raises. *)
Inductive runtime_exn :=
| RuntimePassportError (msg : string)
| RuntimeTypeError
| EvidenceError (e : passport_exn).

#[export] Instance runtime_dict_exn : DictExn runtime_exn :=
  { contract := RuntimePassportError; wrong_type := RuntimeTypeError }.

(** * Names, digests and instants *)

Definition in_range (lo hi : N) (c : ascii) : bool := (lo <=? N_of_ascii c)%N && (N_of_ascii c <=? hi)%N.

(** [_CAPABILITY_NAME.fullmatch] *)
Definition is_capability_name (s : string) : bool :=
  match s with
  | String c s => in_range 97 122 c &&
                  all_chars (fun c => in_range 97 122 c || is_digit c || Ascii.eqb c "_"
                                      || Ascii.eqb c "." || Ascii.eqb c "-") s
  | EmptyString => false
  end.

(** [_SHA256_DIGEST.fullmatch] *)
Definition is_sha256 (s : string) : bool :=
  startswith s "sha256:" && (String.length s =? 71)%nat &&
  all_chars (fun c => is_digit c || in_range 97 102 c) (drop_str 7 s).

(** [_format_datetime] *)
Definition format_datetime (t : Z) : string := isoformat_onto t "Z".

(** The instants that a datetime in UTC can have. *)
Definition in_years (t : Z) : bool := (0 <=? t) && (t <? 3652059 * us_per_day).

Section exceptions.
Context {E : Type} {X : DictExn E} (overflow : E).

(** [_capability_name] *)
Definition capability_name (s : string) : result E string :=
  if is_capability_name s then Ok s
  else Err (contract "capability names must match ^[a-z][a-z0-9_.-]*$").

(** [_parse_datetime] *)
Definition parse_datetime (name : string) (v : json) : result E Z :=
  match v with
  | JStr s =>
      match fromisoformat (replace_with "Z" "+00:00" s) with
      | None => Err (contract (name +:+ " must be an ISO-8601 string"))
      | Some d =>
          match dt_off d with
          | None => Err (contract (name +:+ " must be timezone-aware"))
          | Some _ => if in_years (instant d) then Ok (instant d) else Err overflow
          end
      end
  | _ => Err (contract (name +:+ " must be an ISO-8601 string"))
  end.

(** [_string_tuple] of a tuple *)
Definition string_tuple (name : string) (vs : list json) : result E (list string) :=
  nonblanks (name +:+ " must contain non-empty strings") vs.

(** A string that must not be blank when it is given. *)
Definition given_nonblank (msg : string) (v : json) : result E (option string) :=
  match v with JNull => Ok None | _ => s ← nonblank msg v; Ok (Some s) end.
End exceptions.

(** * Route identities *)

Record RouteIdentity := {
  ri_gateway : string;
  ri_provider : string;
  ri_connection : string;
  ri_endpoint : string;
  ri_protocol : string;
  ri_model_id : string;
  ri_model_revision : option string;
  ri_account_class : option string;
  ri_endpoint_class : option string;
  ri_transformation_chain : list string;
  ri_fallback_chain : list string
}.

#[global] Instance route_identity_eq_dec : EqDecision RouteIdentity.
Proof. solve_decision. Defined.

(** [RouteIdentity.to_dict] *)
Definition route_to_dict (r : RouteIdentity) : json :=
  obj ([("gateway", JStr (ri_gateway r)); ("provider", JStr (ri_provider r));
        ("connection", JStr (ri_connection r)); ("endpoint", JStr (ri_endpoint r));
        ("protocol", JStr (ri_protocol r)); ("model_id", JStr (ri_model_id r))]
       ++ given "model_revision" JStr (ri_model_revision r)
       ++ given "account_class" JStr (ri_account_class r)
       ++ given "endpoint_class" JStr (ri_endpoint_class r)
       ++ given_list "transformation_chain" (ri_transformation_chain r)
       ++ given_list "fallback_chain" (ri_fallback_chain r)).

(** [RouteIdentity.from_dict] with [__post_init__] *)
Definition route_from_dict (v : json) : result passport_exn RouteIdentity :=
  ms ← strict_mapping v ["gateway"; "provider"; "connection"; "endpoint"; "protocol"; "model_id"]
         ["model_revision"; "account_class"; "endpoint_class"; "transformation_chain";
          "fallback_chain"] "route_identity";
  transformations ← field_or [] as_tuple ms "transformation_chain";
  fallbacks ← field_or [] as_tuple ms "fallback_chain";
  let required k := field (nonblank ("route_identity." +:+ k +:+ " must be non-empty")) ms k in
  let optional k :=
    field_or None (given_nonblank ("route_identity." +:+ k +:+ " must be non-empty when supplied"))
      ms k in
  gateway ← required "gateway";
  provider ← required "provider";
  connection ← required "connection";
  endpoint ← required "endpoint";
  protocol ← required "protocol";
  model_id ← required "model_id";
  revision ← optional "model_revision";
  account ← optional "account_class";
  endpoint_class ← optional "endpoint_class";
  transformations ← string_tuple "route_identity.transformation_chain" transformations;
  fallbacks ← string_tuple "route_identity.fallback_chain" fallbacks;
  Ok {| ri_gateway := gateway; ri_provider := provider; ri_connection := connection;
        ri_endpoint := endpoint; ri_protocol := protocol; ri_model_id := model_id;
        ri_model_revision := revision; ri_account_class := account;
        ri_endpoint_class := endpoint_class; ri_transformation_chain := transformations;
        ri_fallback_chain := fallbacks |}.

(** * Evidence *)

Inductive CapabilityStatus := SUPPORTED | UNSUPPORTED | UNKNOWN.
Inductive EvidenceAuthority := CLAIMED | OBSERVED | VERIFIED | INFERRED.

#[global] Instance capability_status_eq_dec : EqDecision CapabilityStatus.
Proof. solve_decision. Defined.
#[global] Instance evidence_authority_eq_dec : EqDecision EvidenceAuthority.
Proof. solve_decision. Defined.

Definition status_value (s : CapabilityStatus) : string :=
  match s with SUPPORTED => "supported" | UNSUPPORTED => "unsupported" | UNKNOWN => "unknown" end.

Definition status_of (s : string) : option CapabilityStatus :=
  List.find (fun x => String.eqb (status_value x) s) [SUPPORTED; UNSUPPORTED; UNKNOWN].

Definition authority_value (a : EvidenceAuthority) : string :=
  match a with
  | CLAIMED => "claimed" | OBSERVED => "observed" | VERIFIED => "verified" | INFERRED => "inferred"
  end.

Definition authority_of (s : string) : option EvidenceAuthority :=
  List.find (fun x => String.eqb (authority_value x) s) [CLAIMED; OBSERVED; VERIFIED; INFERRED].

Record CapabilityEvidence := {
  ce_status : CapabilityStatus;
  ce_source : string;
  ce_observed_at : Z;
  ce_expires_at : Z;
  ce_confidence : string;
  ce_digest : string;
  ce_limitations : list string;
  ce_authority : EvidenceAuthority;
  ce_method : string;
  ce_adapter_version : string;
  ce_scope : string;
  ce_sample_count : option Z
}.

(** [float(confidence)] of a finite number between 0 and 1 *)
Definition confidence_of (v : json) : result passport_exn string :=
  match v with
  | JInt 0 => Ok "0.0"
  | JInt 1 => Ok "1.0"
  | JFloat r =>
      match parse_decimal r with
      | Some (Some q) => if Qle_bool 0 q && Qle_bool q 1 then Ok r
                         else Err (contract "evidence.confidence must be between 0 and 1")
      | _ => Err (contract "evidence.confidence must be between 0 and 1")
      end
  | _ => Err (contract "evidence.confidence must be between 0 and 1")
  end.

Definition sample_count_of (v : json) : result passport_exn (option Z) :=
  match v with
  | JNull => Ok None
  | JInt z => if z <? 1 then Err (contract "evidence.sample_count must be a positive integer")
              else Ok (Some z)
  | _ => Err (contract "evidence.sample_count must be a positive integer")
  end.

(** [CapabilityEvidence.from_dict] with [__post_init__] *)
Definition evidence_from_dict (v : json) : result passport_exn CapabilityEvidence :=
  ms ← strict_mapping v
         ["status"; "source"; "observed_at"; "expires_at"; "confidence"; "evidence_digest"]
         ["limitations"; "authority"; "method"; "adapter_version"; "scope"; "sample_count"]
         "evidence";
  observed_at ← field (parse_datetime PassportOverflowError "evidence.observed_at") ms "observed_at";
  expires_at ← field (parse_datetime PassportOverflowError "evidence.expires_at") ms "expires_at";
  limitations ← field_or [] as_tuple ms "limitations";
  status ← field (fun v => s ← as_str v;
                  match status_of s with
                  | Some x => Ok x
                  | None => Err (contract "evidence.status is invalid")
                  end) ms "status";
  source ← field (nonblank "evidence.source must be non-empty") ms "source";
  authority ← field_or OBSERVED (fun v =>
                match v with
                | JStr s => match authority_of s with
                            | Some x => Ok x
                            | None => Err (contract "evidence.authority is invalid")
                            end
                | _ => Err (contract "evidence.authority is invalid")
                end) ms "authority";
  method ← field_or "unspecified" (nonblank "evidence.method must be non-empty") ms "method";
  adapter ← field_or "unknown" (nonblank "evidence.adapter_version must be non-empty")
              ms "adapter_version";
  scope ← field_or "default" (nonblank "evidence.scope must be non-empty") ms "scope";
  samples ← field_or None sample_count_of ms "sample_count";
  _ ← raise_if (expires_at <=? observed_at)
        (contract "evidence.expires_at must be after observed_at");
  confidence ← field confidence_of ms "confidence";
  digest ← field (fun v =>
    match v with
    | JStr s => if is_sha256 s then Ok s
                else Err (contract "evidence.evidence_digest must be a lowercase sha256 digest")
    | _ => Err (contract "evidence.evidence_digest must be a lowercase sha256 digest")
    end) ms "evidence_digest";
  limitations ← string_tuple "evidence.limitations" limitations;
  Ok {| ce_status := status; ce_source := source; ce_observed_at := observed_at;
        ce_expires_at := expires_at; ce_confidence := confidence; ce_digest := digest;
        ce_limitations := limitations; ce_authority := authority; ce_method := method;
        ce_adapter_version := adapter; ce_scope := scope; ce_sample_count := samples |}.

(** [CapabilityEvidence.to_dict] *)
Definition evidence_to_dict (e : CapabilityEvidence) : json :=
  obj ([("status", JStr (status_value (ce_status e))); ("source", JStr (ce_source e));
        ("observed_at", JStr (format_datetime (ce_observed_at e)));
        ("expires_at", JStr (format_datetime (ce_expires_at e)));
        ("confidence", JFloat (ce_confidence e)); ("evidence_digest", JStr (ce_digest e));
        ("limitations", JList (map JStr (ce_limitations e)));
        ("authority", JStr (authority_value (ce_authority e)));
        ("method", JStr (ce_method e)); ("adapter_version", JStr (ce_adapter_version e));
        ("scope", JStr (ce_scope e))]
       ++ given "sample_count" JInt (ce_sample_count e)).

(** [is_current]: the evidence's expiry only; when it was observed is not looked at. *)
Definition is_current (at_ : Z) (e : CapabilityEvidence) : bool := at_ <? ce_expires_at e.

(** The item if there is one and it is current. *)
Definition fresh_item (at_ : Z) (o : option CapabilityEvidence) : option CapabilityEvidence :=
  e ← o; if is_current at_ e then Some e else None.

(** An authority that a hard requirement accepts. *)
Definition direct (e : CapabilityEvidence) : bool :=
  bool_decide (ce_authority e = OBSERVED \/ ce_authority e = VERIFIED).

Definition parse_evidence_map {E} {X : DictExn E} (lift : passport_exn -> E) (name : string) (v : json)
    : result E (gmap string CapabilityEvidence) :=
  match v with
  | JObj ms =>
      l ← map_result (fun p => k ← capability_name p.1;
                      e ← match evidence_from_dict p.2 with Ok e => Ok e | Err x => Err (lift x) end;
                      Ok (k, e)) ms;
      Ok (list_to_map l)
  | _ => Err (contract (name +:+ " must be an object"))
  end.

(** [{capability: evidence.to_dict() for ... in sorted(items)}] *)
Definition evidence_map_dict (m : gmap string CapabilityEvidence) : json :=
  JObj (map_members evidence_to_dict m).

(** * Capability passports *)

Record CapabilityPassport := {
  cp_route_identity : RouteIdentity;
  cp_qualified_at : Z;
  cp_expires_at : Z;
  cp_claimed : gmap string CapabilityEvidence;
  cp_observed : gmap string CapabilityEvidence;
  cp_limitations : list string
}.

(** The check of [schema_version], which both passports declare ["1"]. *)
Definition schema_is_1 {E} (e : E) (v : json) : result E unit :=
  match v with JStr "1" => Ok tt | _ => Err e end.

(** [CapabilityPassport.from_dict] with [__post_init__] *)
Definition passport_from_dict (v : json) : result passport_exn CapabilityPassport :=
  ms ← strict_mapping v
         ["schema_version"; "route_identity"; "qualified_at"; "expires_at"; "claimed"; "observed";
          "limitations"] [] "capability_passport";
  claimed ← field (parse_evidence_map id "claimed") ms "claimed";
  observed ← field (parse_evidence_map id "observed") ms "observed";
  route ← field route_from_dict ms "route_identity";
  qualified_at ← field (parse_datetime PassportOverflowError "qualified_at") ms "qualified_at";
  expires_at ← field (parse_datetime PassportOverflowError "expires_at") ms "expires_at";
  limitations ← field as_tuple ms "limitations";
  _ ← field (schema_is_1 (contract "schema_version must be '1'")) ms "schema_version";
  _ ← raise_if (expires_at <=? qualified_at) (contract "expires_at must be after qualified_at");
  limitations ← string_tuple "limitations" limitations;
  Ok {| cp_route_identity := route; cp_qualified_at := qualified_at;
        cp_expires_at := expires_at; cp_claimed := claimed; cp_observed := observed;
        cp_limitations := limitations |}.

(** [CapabilityPassport.to_dict] *)
Definition passport_to_dict (p : CapabilityPassport) : json :=
  obj [("schema_version", JStr "1"); ("route_identity", route_to_dict (cp_route_identity p));
       ("qualified_at", JStr (format_datetime (cp_qualified_at p)));
       ("expires_at", JStr (format_datetime (cp_expires_at p)));
       ("claimed", evidence_map_dict (cp_claimed p));
       ("observed", evidence_map_dict (cp_observed p));
       ("limitations", JList (map JStr (cp_limitations p)))].

Record CapabilityDecision := {
  cd_capability : string;
  cd_status : CapabilityStatus;
  cd_reason : string;
  cd_claimed : option CapabilityEvidence;
  cd_observed : option CapabilityEvidence
}.

(** [CapabilityPassport.resolve] at an instant *)
Definition resolve (p : CapabilityPassport) (capability : string) (at_ : Z)
    : result passport_exn CapabilityDecision :=
  name ← capability_name capability;
  let observation := cp_observed p !! name in
  let fresh_observation := fresh_item at_ observation in
  let decide_as status reason observed :=
    {| cd_capability := name; cd_status := status; cd_reason := reason;
       cd_claimed := fresh_item at_ (cp_claimed p !! name); cd_observed := observed |} in
  Ok (if cp_expires_at p <=? at_ then decide_as UNKNOWN "passport expired" fresh_observation
      else match fresh_observation with
           | None => decide_as UNKNOWN (match observation with
                                        | Some _ => "observation expired"
                                        | None => "observation missing"
                                        end) observation
           | Some e =>
               if direct e
               then decide_as (ce_status e)
                      ("fresh observation is " +:+ status_value (ce_status e)) (Some e)
               else decide_as UNKNOWN
                      ("observation authority " +:+ authority_value (ce_authority e)
                       +:+ " is not direct") (Some e)
           end).

(** [all(resolve(capability).admitted for capability in required)], in the order in
    which the set is iterated *)
Fixpoint satisfies_from {E} (admitted : string -> result E bool) (required : list string)
    : result E bool :=
  match required with
  | [] => Ok true
  | c :: required => ok ← admitted c; if (ok : bool) then satisfies_from admitted required else Ok false
  end.

(** [CapabilityPassport.satisfies] *)
Definition satisfies (p : CapabilityPassport) (required : list string) (at_ : Z)
    : result passport_exn bool :=
  satisfies_from (fun c => d ← resolve p c at_; Ok (bool_decide (cd_status d = SUPPORTED))) required.

(** * Runtime passports *)

Inductive RuntimeSubjectKind :=
| TOOL | MCP_SERVER | MCP_RESOURCE | MCP_PROMPT | A2A_PEER | ACP_AGENT | SKILL | TRANSPORT | AUTH.

#[global] Instance subject_kind_eq_dec : EqDecision RuntimeSubjectKind.
Proof. solve_decision. Defined.

Definition kind_value (k : RuntimeSubjectKind) : string :=
  match k with
  | TOOL => "tool" | MCP_SERVER => "mcp_server" | MCP_RESOURCE => "mcp_resource"
  | MCP_PROMPT => "mcp_prompt" | A2A_PEER => "a2a_peer" | ACP_AGENT => "acp_agent"
  | SKILL => "skill" | TRANSPORT => "transport" | AUTH => "auth"
  end.

Definition kind_of (s : string) : option RuntimeSubjectKind :=
  List.find (fun x => String.eqb (kind_value x) s)
    [TOOL; MCP_SERVER; MCP_RESOURCE; MCP_PROMPT; A2A_PEER; ACP_AGENT; SKILL; TRANSPORT; AUTH].

Record RuntimeSubjectIdentity := {
  rs_kind : RuntimeSubjectKind;
  rs_subject_id : string;
  rs_provider : string;
  rs_protocol : string;
  rs_protocol_version : string;
  rs_transport : string;
  rs_auth_mode : string;
  rs_endpoint_digest : string;
  rs_scope : string;
  rs_declared_schema_digest : option string
}.

(** [_validate_digest] *)
Definition validate_digest (name : string) (v : json) : result runtime_exn string :=
  match v with
  | JStr s => if is_sha256 s then Ok s
              else Err (contract (name +:+ " must be a lowercase sha256 digest"))
  | _ => Err (contract (name +:+ " must be a lowercase sha256 digest"))
  end.

(** [RuntimeSubjectIdentity.from_dict] with [__post_init__] *)
Definition subject_from_dict (v : json) : result runtime_exn RuntimeSubjectIdentity :=
  ms ← strict_mapping v
         ["kind"; "subject_id"; "provider"; "protocol"; "protocol_version"; "transport";
          "auth_mode"; "endpoint_digest"] ["scope"; "declared_schema_digest"] "subject";
  kind ← field (fun v =>
           match v with
           | JStr s => match kind_of s with
                       | Some k => Ok k
                       | None => Err (contract "subject.kind is invalid")
                       end
           | _ => Err (contract "subject.kind is invalid")
           end) ms "kind";
  let required k := field (nonblank ("subject." +:+ k +:+ " must be non-empty")) ms k in
  subject_id ← required "subject_id";
  provider ← required "provider";
  protocol ← required "protocol";
  version ← required "protocol_version";
  transport ← required "transport";
  auth_mode ← required "auth_mode";
  scope ← field_or "default" (nonblank "subject.scope must be non-empty") ms "scope";
  endpoint ← field (validate_digest "subject.endpoint_digest") ms "endpoint_digest";
  schema ← field_or None (nullable (validate_digest "subject.declared_schema_digest")) ms
             "declared_schema_digest";
  Ok {| rs_kind := kind; rs_subject_id := subject_id; rs_provider := provider;
        rs_protocol := protocol; rs_protocol_version := version; rs_transport := transport;
        rs_auth_mode := auth_mode; rs_endpoint_digest := endpoint; rs_scope := scope;
        rs_declared_schema_digest := schema |}.

(** [RuntimeSubjectIdentity.to_dict] *)
Definition subject_to_dict (s : RuntimeSubjectIdentity) : json :=
  obj ([("kind", JStr (kind_value (rs_kind s))); ("subject_id", JStr (rs_subject_id s));
        ("provider", JStr (rs_provider s)); ("protocol", JStr (rs_protocol s));
        ("protocol_version", JStr (rs_protocol_version s)); ("transport", JStr (rs_transport s));
        ("auth_mode", JStr (rs_auth_mode s)); ("endpoint_digest", JStr (rs_endpoint_digest s));
        ("scope", JStr (rs_scope s))]
       ++ given "declared_schema_digest" JStr (rs_declared_schema_digest s)).

Record RuntimeCapabilityPassport := {
  rp_subject : RuntimeSubjectIdentity;
  rp_qualified_at : Z;
  rp_expires_at : Z;
  rp_declared : gmap string CapabilityEvidence;
  rp_observed : gmap string CapabilityEvidence;
  rp_negotiated : gmap string CapabilityEvidence;
  rp_limitations : list string
}.

(** [RuntimeCapabilityPassport.from_dict] with [__post_init__] *)
Definition runtime_from_dict (v : json) : result runtime_exn RuntimeCapabilityPassport :=
  ms ← strict_mapping v
         ["schema_version"; "subject"; "qualified_at"; "expires_at"; "declared"; "observed";
          "negotiated"; "limitations"] [] "runtime_passport";
  let overflow := EvidenceError PassportOverflowError in
  subject ← field subject_from_dict ms "subject";
  qualified_at ← field (parse_datetime overflow "qualified_at") ms "qualified_at";
  expires_at ← field (parse_datetime overflow "expires_at") ms "expires_at";
  declared ← field (parse_evidence_map EvidenceError "declared") ms "declared";
  observed ← field (parse_evidence_map EvidenceError "observed") ms "observed";
  negotiated ← field (parse_evidence_map EvidenceError "negotiated") ms "negotiated";
  limitations ← field as_tuple ms "limitations";
  _ ← field (schema_is_1 (contract "schema_version must be '1'")) ms "schema_version";
  _ ← raise_if (expires_at <=? qualified_at) (contract "expires_at must be after qualified_at");
  limitations ← string_tuple "limitations" limitations;
  Ok {| rp_subject := subject; rp_qualified_at := qualified_at; rp_expires_at := expires_at;
        rp_declared := declared; rp_observed := observed; rp_negotiated := negotiated;
        rp_limitations := limitations |}.

(** [RuntimeCapabilityPassport.to_dict] *)
Definition runtime_to_dict (p : RuntimeCapabilityPassport) : json :=
  obj [("schema_version", JStr "1"); ("subject", subject_to_dict (rp_subject p));
       ("qualified_at", JStr (format_datetime (rp_qualified_at p)));
       ("expires_at", JStr (format_datetime (rp_expires_at p)));
       ("declared", evidence_map_dict (rp_declared p));
       ("observed", evidence_map_dict (rp_observed p));
       ("negotiated", evidence_map_dict (rp_negotiated p));
       ("limitations", JList (map JStr (rp_limitations p)))].

Record RuntimeCapabilityDecision := {
  rc_capability : string;
  rc_status : CapabilityStatus;
  rc_reason : string;
  rc_declared : option CapabilityEvidence;
  rc_observed : option CapabilityEvidence;
  rc_negotiated : option CapabilityEvidence
}.

(** [RuntimeCapabilityPassport.resolve] at an instant *)
Definition resolve_runtime (p : RuntimeCapabilityPassport) (capability : string) (at_ : Z)
    : result runtime_exn RuntimeCapabilityDecision :=
  name ← capability_name capability;
  let observed := fresh_item at_ (rp_observed p !! name) in
  let negotiated_item := rp_negotiated p !! name in
  let negotiated := fresh_item at_ negotiated_item in
  let decide_as status reason n :=
    {| rc_capability := name; rc_status := status; rc_reason := reason;
       rc_declared := fresh_item at_ (rp_declared p !! name); rc_observed := observed;
       rc_negotiated := n |} in
  Ok (if rp_expires_at p <=? at_ then decide_as UNKNOWN "passport expired" negotiated
      else if bool_decide (ce_status <$> observed = Some UNSUPPORTED)
      then decide_as UNSUPPORTED "fresh observation is unsupported" negotiated
      else match negotiated with
           | None => decide_as UNKNOWN (match negotiated_item with
                                        | Some _ => "negotiation expired"
                                        | None => "negotiation missing"
                                        end) negotiated_item
           | Some e =>
               if direct e
               then decide_as (ce_status e)
                      ("fresh negotiation is " +:+ status_value (ce_status e)) negotiated
               else decide_as UNKNOWN
                      ("negotiation authority " +:+ authority_value (ce_authority e)
                       +:+ " is not direct") negotiated
           end).

(** [RuntimeCapabilityPassport.satisfies] *)
Definition satisfies_runtime (p : RuntimeCapabilityPassport) (required : list string) (at_ : Z)
    : result runtime_exn bool :=
  satisfies_from (fun c => d ← resolve_runtime p c at_; Ok (bool_decide (rc_status d = SUPPORTED)))
    required.

Section digests.
(** [hashlib.sha256(...).hexdigest()] *)
Context (sha256_hex : string -> string).

(** [_digest] *)
Definition digest_of (v : json) : string := "sha256:" +:+ sha256_hex (dumps false v).

(** [RouteIdentity.key] *)
Definition route_key (r : RouteIdentity) : string := digest_of (route_to_dict r).

(** [CapabilityPassport.digest] *)
Definition passport_digest (p : CapabilityPassport) : string := digest_of (passport_to_dict p).

(** [RuntimeSubjectIdentity.key] *)
Definition subject_key (s : RuntimeSubjectIdentity) : string := digest_of (subject_to_dict s).

(** [RuntimeCapabilityPassport.digest] *)
Definition runtime_digest (p : RuntimeCapabilityPassport) : string := digest_of (runtime_to_dict p).
End digests.

(** * Well-formed identities, evidence and passports *)

Definition filled (s : string) : Prop := strip s <> "".
Definition filled_opt (o : option string) : Prop := match o with Some s => filled s | None => True end.

Record route_wf (r : RouteIdentity) : Prop := {
  rw_names : Forall filled [ri_gateway r; ri_provider r; ri_connection r; ri_endpoint r;
                            ri_protocol r; ri_model_id r];
  rw_options : Forall filled_opt [ri_model_revision r; ri_account_class r; ri_endpoint_class r];
  rw_chains : Forall filled (ri_transformation_chain r ++ ri_fallback_chain r)
}.

Record evidence_wf (e : CapabilityEvidence) : Prop := {
  ew_names : Forall filled [ce_source e; ce_method e; ce_adapter_version e; ce_scope e];
  ew_years : in_years (ce_observed_at e) = true /\ in_years (ce_expires_at e) = true;
  ew_order : ce_observed_at e < ce_expires_at e;
  ew_confidence : exists q, parse_decimal (ce_confidence e) = Some (Some q) /\ (0 <= q <= 1)%Q;
  ew_float : float_ok (ce_confidence e) = true;
  ew_digest : is_sha256 (ce_digest e) = true;
  ew_limitations : Forall filled (ce_limitations e);
  ew_samples : match ce_sample_count e with Some n => 1 <= n | None => True end
}.

Definition evidence_map_wf (m : gmap string CapabilityEvidence) : Prop :=
  map_Forall (fun k e => is_capability_name k = true /\ evidence_wf e) m.

Record passport_wf (p : CapabilityPassport) : Prop := {
  pw_route : route_wf (cp_route_identity p);
  pw_years : in_years (cp_qualified_at p) = true /\ in_years (cp_expires_at p) = true;
  pw_order : cp_qualified_at p < cp_expires_at p;
  pw_claimed : evidence_map_wf (cp_claimed p);
  pw_observed : evidence_map_wf (cp_observed p);
  pw_limitations : Forall filled (cp_limitations p)
}.

Record subject_wf (s : RuntimeSubjectIdentity) : Prop := {
  sw_names : Forall filled [rs_subject_id s; rs_provider s; rs_protocol s; rs_protocol_version s;
                            rs_transport s; rs_auth_mode s; rs_scope s];
  sw_endpoint : is_sha256 (rs_endpoint_digest s) = true;
  sw_schema : match rs_declared_schema_digest s with Some d => is_sha256 d = true | None => True end
}.

Record runtime_wf (p : RuntimeCapabilityPassport) : Prop := {
  rw_subject : subject_wf (rp_subject p);
  rw_years : in_years (rp_qualified_at p) = true /\ in_years (rp_expires_at p) = true;
  rw_order : rp_qualified_at p < rp_expires_at p;
  rw_declared : evidence_map_wf (rp_declared p);
  rw_observed : evidence_map_wf (rp_observed p);
  rw_negotiated : evidence_map_wf (rp_negotiated p);
  rw_limitations : Forall filled (rp_limitations p)
}.

(** * Round trips *)

Lemma replace_pad n z s r :
  replace_with "Z" r (pad_onto n z s) = pad_onto n z (replace_with "Z" r s).
Proof.
  revert z s; induction n as [|n IH]; intros z s; [done|].
  change (pad_onto (S n) z s) with (pad_onto n (z / 10) (String (digit (z mod 10)) s)).
  rewrite IH. cbn [replace_with]. rewrite digit_free_of_Z; [done|].
  apply Z.mod_pos_bound. lia.
Qed.

(** A "Z" that ends the text is what [fromisoformat] reads as UTC. *)
Lemma zulu_iso t : replace_with "Z" "+00:00" (isoformat_onto t "Z") = isoformat_onto t "+00:00".
Proof.
  rewrite !isoformat_clock. destruct (days_ymd _) as [[y m] d]. unfold clock_onto.
  repeat (rewrite replace_pad; cbn [replace_with Ascii.eqb Bool.eqb]).
  destruct (_ =? 0); [done|]. cbn. by rewrite replace_pad.
Qed.

Lemma in_years_spec t : in_years t = true <-> 0 <= t < 3652059 * us_per_day.
Proof. unfold in_years. rewrite andb_true_iff. lia. Qed.

Lemma datetime_roundtrip {E} {X : DictExn E} overflow name t :
  in_years t = true -> parse_datetime (E := E) overflow name (JStr (format_datetime t)) = Ok t.
Proof.
  intros Ht. unfold parse_datetime, format_datetime.
  rewrite zulu_iso, fromisoformat_iso by by apply in_years_spec. cbn [dt_off utc].
  assert (instant (utc t) = t) as -> by (unfold instant, utc; cbn; lia). by rewrite Ht.
Qed.

Lemma given_nonblank_ok {E} {X : DictExn E} msg s :
  filled s -> given_nonblank (E := E) msg (JStr s) = Ok (Some s).
Proof. intros H. unfold given_nonblank. by rewrite nonblank_ok. Qed.

(** A required string that is not blank. *)
Ltac get_nonblank ms k := get_member ms k; rewrite nonblank_ok by done; next_field.

Lemma route_roundtrip r : route_wf r -> route_from_dict (route_to_dict r) = Ok r.
Proof.
  intros [Hn Ho Hc]. repeat (apply Forall_cons in Hn as [? Hn]).
  repeat (apply Forall_cons in Ho as [? Ho]). apply Forall_app in Hc as [Ht Hf].
  unfold route_from_dict, route_to_dict. open_dict.
  remember (obj_of _) as ms eqn:Hms.
  rewrite (field_list ms "transformation_chain" (ri_transformation_chain r)) by solve_member. next_field.
  rewrite (field_list ms "fallback_chain" (ri_fallback_chain r)) by solve_member. next_field.
  get_nonblank ms "gateway". get_nonblank ms "provider". get_nonblank ms "connection". get_nonblank ms "endpoint".
  get_nonblank ms "protocol". get_nonblank ms "model_id".
  assert (Hg : forall msg o s, filled_opt o -> o = Some s ->
    given_nonblank (E := passport_exn) msg (JStr s) = Ok (Some s)).
  { intros msg o s Hfill ->. by apply given_nonblank_ok. }
  rewrite (field_given _ JStr ms "model_revision" (ri_model_revision r)); [next_field|solve_member|eauto].
  rewrite (field_given _ JStr ms "account_class" (ri_account_class r)); [next_field|solve_member|eauto].
  rewrite (field_given _ JStr ms "endpoint_class" (ri_endpoint_class r)); [next_field|solve_member|eauto].
  unfold string_tuple. rewrite !nonblanks_ok by done. next_field. by destruct r.
Qed.

Lemma status_roundtrip s : status_of (status_value s) = Some s.
Proof. by destruct s. Qed.

Lemma authority_roundtrip a : authority_of (authority_value a) = Some a.
Proof. by destruct a. Qed.

Lemma kind_roundtrip k : kind_of (kind_value k) = Some k.
Proof. by destruct k. Qed.

Lemma confidence_roundtrip c :
  (exists q, parse_decimal c = Some (Some q) /\ (0 <= q <= 1)%Q) -> confidence_of (JFloat c) = Ok c.
Proof.
  intros (q & Hq & [H0 H1]). unfold confidence_of. rewrite Hq.
  apply Qle_bool_iff in H0, H1. by rewrite H0, H1.
Qed.

Lemma evidence_roundtrip e : evidence_wf e -> evidence_from_dict (evidence_to_dict e) = Ok e.
Proof.
  intros [Hn [Ho Hx] Hlt Hc _ Hd Hl Hs]. repeat (apply Forall_cons in Hn as [? Hn]).
  unfold evidence_from_dict, evidence_to_dict. open_dict. remember (obj_of _) as ms eqn:Hms.
  get_member ms "observed_at". rewrite datetime_roundtrip by done. next_field.
  get_member ms "expires_at". rewrite datetime_roundtrip by done. next_field.
  get_member ms "limitations". get_member ms "status". rewrite status_roundtrip. next_field.
  get_nonblank ms "source". get_member ms "authority". rewrite authority_roundtrip. next_field.
  get_nonblank ms "method". get_nonblank ms "adapter_version". get_nonblank ms "scope".
  rewrite (field_given _ JInt ms "sample_count" (ce_sample_count e)); [next_field|solve_member|].
  - rewrite (proj2 (raise_if_ok _ _ tt)) by lia. next_field.
    get_member ms "confidence". rewrite confidence_roundtrip by done. next_field.
    get_member ms "evidence_digest". rewrite Hd. next_field.
    unfold string_tuple. rewrite nonblanks_ok by done. next_field. by destruct e.
  - intros n E. rewrite E in Hs. cbn. by rewrite (proj2 (Z.ltb_ge n 1)).
Qed.

Lemma capability_name_ok {E} {X : DictExn E} s :
  is_capability_name s = true -> capability_name (E := E) s = Ok s.
Proof. unfold capability_name. by intros ->. Qed.

Lemma evidence_map_roundtrip {E} {X : DictExn E} lift name m :
  evidence_map_wf m -> parse_evidence_map (E := E) lift name (evidence_map_dict m) = Ok m.
Proof.
  intros Hm. unfold parse_evidence_map, evidence_map_dict.
  edestruct (map_members_read evidence_to_dict (fun p =>
    k ← capability_name p.1;
    e ← match evidence_from_dict p.2 with Ok e => Ok e | Err x => Err (lift x) end;
    Ok (k, e)) m) as (l & -> & Hl); [|cbn; by rewrite Hl].
  intros k e He. destruct (Hm k e He) as [Hk Hw]. cbn [fst snd].
  rewrite capability_name_ok by done. next_field. by rewrite evidence_roundtrip by done.
Qed.

Lemma passport_roundtrip p : passport_wf p -> passport_from_dict (passport_to_dict p) = Ok p.
Proof.
  intros [Hr [Hq Hx] Hlt Hc Ho Hl]. unfold passport_from_dict, passport_to_dict. open_dict.
  remember (obj_of _) as ms eqn:Hms.
  get_member ms "claimed". rewrite evidence_map_roundtrip by done. next_field.
  get_member ms "observed". rewrite evidence_map_roundtrip by done. next_field.
  get_member ms "route_identity". rewrite route_roundtrip by done. next_field.
  get_member ms "qualified_at". rewrite datetime_roundtrip by done. next_field.
  get_member ms "expires_at". rewrite datetime_roundtrip by done. next_field.
  get_member ms "limitations". get_member ms "schema_version". cbn [schema_is_1]. next_field.
  rewrite (proj2 (raise_if_ok _ _ tt)) by lia. next_field.
  unfold string_tuple. rewrite nonblanks_ok by done. next_field. by destruct p.
Qed.

Lemma validate_digest_ok name d : is_sha256 d = true -> validate_digest name (JStr d) = Ok d.
Proof. unfold validate_digest. by intros ->. Qed.

Lemma subject_roundtrip s : subject_wf s -> subject_from_dict (subject_to_dict s) = Ok s.
Proof.
  intros [Hn He Hs]. repeat (apply Forall_cons in Hn as [? Hn]).
  unfold subject_from_dict, subject_to_dict. open_dict. remember (obj_of _) as ms eqn:Hms.
  get_member ms "kind". rewrite kind_roundtrip. next_field.
  get_nonblank ms "subject_id". get_nonblank ms "provider". get_nonblank ms "protocol".
  get_nonblank ms "protocol_version". get_nonblank ms "transport". get_nonblank ms "auth_mode".
  get_nonblank ms "scope".
  get_member ms "endpoint_digest". rewrite validate_digest_ok by done. next_field.
  rewrite (field_given _ JStr ms "declared_schema_digest" (rs_declared_schema_digest s));
    [next_field; by destruct s|solve_member|].
  intros d E. rewrite E in Hs. unfold nullable. by rewrite validate_digest_ok.
Qed.

Lemma runtime_roundtrip p : runtime_wf p -> runtime_from_dict (runtime_to_dict p) = Ok p.
Proof.
  intros [Hs [Hq Hx] Hlt Hd Ho Hn Hl]. unfold runtime_from_dict, runtime_to_dict. open_dict.
  remember (obj_of _) as ms eqn:Hms.
  get_member ms "subject". rewrite subject_roundtrip by done. next_field.
  get_member ms "qualified_at". rewrite datetime_roundtrip by done. next_field.
  get_member ms "expires_at". rewrite datetime_roundtrip by done. next_field.
  get_member ms "declared". rewrite evidence_map_roundtrip by done. next_field.
  get_member ms "observed". rewrite evidence_map_roundtrip by done. next_field.
  get_member ms "negotiated". rewrite evidence_map_roundtrip by done. next_field.
  get_member ms "limitations". get_member ms "schema_version". cbn [schema_is_1]. next_field.
  rewrite (proj2 (raise_if_ok _ _ tt)) by lia. next_field.
  unfold string_tuple. rewrite nonblanks_ok by done. next_field. by destruct p.
Qed.

(** * What the constructors accept is well formed *)

Lemma field_inv {E A} {X : DictExn E} (f : json -> result E A) ms k x :
  field (E := E) f ms k = Ok x -> exists v, dict_get k ms = Some v /\ f v = Ok x.
Proof. unfold field. destruct (dict_get k ms); [eauto|done]. Qed.

Lemma field_or_inv {E A} {X : DictExn E} d (f : json -> result E A) ms k x :
  field_or (E := E) d f ms k = Ok x -> x = d \/ exists v, dict_get k ms = Some v /\ f v = Ok x.
Proof. unfold field_or. destruct (dict_get k ms); [eauto|]. intros [= <-]. auto. Qed.

Lemma required_filled {E} {X : DictExn E} msg ms k s :
  field (E := E) (nonblank msg) ms k = Ok s -> filled s.
Proof. intros (v & _ & H)%field_inv. apply (nonblank_inv msg v s H). Qed.

Lemma defaulted_filled {E} {X : DictExn E} d msg ms k s :
  filled d -> field_or (E := E) d (nonblank msg) ms k = Ok s -> filled s.
Proof. intros Hd [->|(v & _ & H)]%field_or_inv; [done|]. apply (nonblank_inv msg v s H). Qed.

Lemma optional_filled {E} {X : DictExn E} msg ms k o :
  field_or (E := E) None (given_nonblank msg) ms k = Ok o -> filled_opt o.
Proof.
  intros [->|(v & _ & H)]%field_or_inv; [done|]. unfold given_nonblank in H.
  destruct v; try (injection H as <-; done);
    apply bind_ok in H as (t & Ht & [= <-]); apply (nonblank_inv _ _ _ Ht).
Qed.

Lemma parsed_in_years {E} {X : DictExn E} overflow name ms k t :
  field (E := E) (parse_datetime overflow name) ms k = Ok t -> in_years t = true.
Proof.
  intros (v & _ & H)%field_inv. destruct v; try done. cbn in H.
  destruct (fromisoformat _) as [d|]; [|done]. destruct (dt_off d); [|done].
  destruct (in_years (instant d)) eqn:E2; [|done]. by injection H as <-.
Qed.

Create HintDb passports.
#[local] Hint Resolve required_filled optional_filled parsed_in_years nonblanks_inv : passports.

(** Inverts the binds of a constructor. *)
Ltac inv_reader H :=
  repeat match type of H with
  | (_ ≫= _) = Ok _ => let x := fresh "x" in let E := fresh "E" in
                       apply bind_ok in H as (x & E & H)
  end; injection H as <-.

Lemma route_constructed v r : route_from_dict v = Ok r -> route_wf r.
Proof.
  unfold route_from_dict. intros H. inv_reader H. constructor; cbn.
  - repeat constructor; eauto with passports.
  - repeat constructor; eauto with passports.
  - apply Forall_app. eauto with passports.
Qed.

Lemma confidence_constructed v c :
  json_wf v = true -> confidence_of v = Ok c ->
  (exists q, parse_decimal c = Some (Some q) /\ (0 <= q <= 1)%Q) /\ float_ok c = true.
Proof.
  destruct v as [| |z|r| | |]; try done; cbn.
  - intros _. destruct z as [|[]|]; try done; intros [= <-]; split; try reflexivity;
      eexists; (split; [reflexivity|]); split; discriminate.
  - intros Hr. destruct (parse_decimal r) as [[q|]|] eqn:Eq; try done.
    destruct (_ && _) eqn:Hb; [|done]. intros [= <-]. apply andb_true_iff in Hb as [H0 H1].
    apply Qle_bool_iff in H0, H1. eauto.
Qed.

Lemma member_wf ms k v : json_wf (JObj ms) = true -> dict_get k ms = Some v -> json_wf v = true.
Proof.
  intros [_ H]%andb_true_iff Hk%dict_get_elem. apply forallb_wf in H.
  rewrite Forall_forall in H. apply (H _ Hk).
Qed.

Lemma strict_mapping_inv {E} {X : DictExn E} v required optional name ms :
  strict_mapping (E := E) v required optional name = Ok ms -> v = JObj ms.
Proof. destruct v; try done. cbn. intros H. inv_reader H. done. Qed.

Lemma evidence_constructed v e : json_wf v = true -> evidence_from_dict v = Ok e -> evidence_wf e.
Proof.
  intros Hv. unfold evidence_from_dict. intros H. inv_reader H.
  match goal with H : strict_mapping _ _ _ _ = Ok _ |- _ => apply strict_mapping_inv in H as -> end.
  match goal with H : field confidence_of _ _ = Ok _ |- _ =>
    apply field_inv in H as (cv & Hcv & Hc) end.
  apply (confidence_constructed cv) in Hc as [Hq Hf]; [|by eapply member_wf].
  match goal with H : raise_if _ _ = Ok _ |- _ => apply raise_if_ok in H end.
  constructor; cbn; try done; [..|idtac].
  - repeat constructor; eauto with passports; (eapply defaulted_filled; [|eassumption]; done).
  - eauto with passports.
  - lia.
  - match goal with H : field (fun v => match v with JStr _ => _ | _ => _ end) _ "evidence_digest" = _ |- _ =>
      apply field_inv in H as (dv & _ & Hd) end.
    destruct dv as [| | | |s| |]; try done. destruct (is_sha256 s) eqn:Es; [|done]. by injection Hd as <-.
  - eauto with passports.
  - match goal with H : field_or None sample_count_of _ _ = _ |- _ =>
      apply field_or_inv in H as [->|(sv & _ & Hs)] end; [done|].
    destruct sv as [| |z| | | |]; try done; cbn in Hs; [by injection Hs as <-|].
    destruct (Z.ltb_spec z 1); [done|]. injection Hs as <-. lia.
Qed.

Lemma evidence_map_constructed {E} {X : DictExn E} lift name ms k m :
  json_wf (JObj ms) = true -> field (parse_evidence_map (E := E) lift name) ms k = Ok m ->
  evidence_map_wf m.
Proof.
  intros Hw (v & Hk & H)%field_inv. apply (member_wf _ _ _ Hw) in Hk.
  destruct v as [| | | | | |vs]; try done. cbn in H. apply bind_ok in H as (l & Hl & [= <-]).
  apply map_result_ok in Hl. apply andb_true_iff in Hk as [_ Hvs]. apply forallb_wf in Hvs.
  intros c e He%elem_of_list_to_map_2. revert Hvs He.
  induction Hl as [|[c' v] [k' e'] vs l Hx _ IH]; intros Hvs; [by intros []%not_elem_of_nil|].
  apply Forall_cons in Hvs as [Hv Hvs]. intros [Heq|Hin]%elem_of_cons; [|by apply IH].
  injection Heq as -> ->. cbn [fst snd] in Hx. apply bind_ok in Hx as (n & Hn & Hx).
  apply bind_ok in Hx as (e0 & He0 & [= -> ->]). unfold capability_name in Hn.
  destruct (is_capability_name c') eqn:Ec; [|done]. injection Hn as ->. split; [done|].
  destruct (evidence_from_dict v) eqn:Ev; [|done]. injection He0 as ->.
  by eapply evidence_constructed.
Qed.

Lemma passport_constructed v p : json_wf v = true -> passport_from_dict v = Ok p -> passport_wf p.
Proof.
  intros Hv. unfold passport_from_dict. intros H. inv_reader H.
  match goal with H : strict_mapping _ _ _ _ = Ok _ |- _ => apply strict_mapping_inv in H as -> end.
  match goal with H : raise_if _ _ = Ok _ |- _ => apply raise_if_ok in H end.
  constructor; cbn; eauto using evidence_map_constructed with passports; [|lia].
  match goal with H : field route_from_dict _ _ = _ |- _ => apply field_inv in H as (? & _ & H) end.
  by eapply route_constructed.
Qed.

Lemma subject_constructed v s : subject_from_dict v = Ok s -> subject_wf s.
Proof.
  assert (Hd : forall name v d, validate_digest name v = Ok d -> is_sha256 d = true).
  { intros name w d. destruct w as [| | | |t| |]; try done. cbn.
    destruct (is_sha256 t) eqn:Et; [|done]. by intros [= <-]. }
  unfold subject_from_dict. intros H. inv_reader H. constructor; cbn.
  - repeat constructor; eauto with passports. eapply defaulted_filled; [|eassumption]. done.
  - match goal with H : field (validate_digest _) _ _ = _ |- _ => apply field_inv in H as (? & _ & Hw) end.
    eauto.
  - match goal with H : field_or None (nullable _) _ _ = _ |- _ =>
      apply field_or_inv in H as [->|(w & _ & Hw)] end; [done|].
    unfold nullable in Hw. destruct w; try (by injection Hw as <-);
      apply bind_ok in Hw as (d & ? & [= <-]); eauto.
Qed.

Lemma runtime_constructed v p : json_wf v = true -> runtime_from_dict v = Ok p -> runtime_wf p.
Proof.
  intros Hv. unfold runtime_from_dict. intros H. inv_reader H.
  match goal with H : strict_mapping _ _ _ _ = Ok _ |- _ => apply strict_mapping_inv in H as -> end.
  match goal with H : raise_if _ _ = Ok _ |- _ => apply raise_if_ok in H end.
  constructor; cbn; eauto using evidence_map_constructed with passports; [|lia].
  match goal with H : field subject_from_dict _ _ = _ |- _ => apply field_inv in H as (? & _ & H) end.
  by eapply subject_constructed.
Qed.

(** * The JSON text of identities and passports *)

Lemma given_wf {A} k (f : A -> json) o :
  (forall x, o = Some x -> json_wf (f x) = true) ->
  Forall (fun m => json_wf m.2 = true) (given k f o).
Proof. destruct o as [x|]; intros H; repeat constructor. by apply H. Qed.

Lemma given_list_wf k l : Forall (fun m => json_wf m.2 = true) (given_list k l).
Proof. destruct l as [|s l]; repeat constructor. apply strings_wf. Qed.

Lemma route_json r : json_wf (route_to_dict r) = true.
Proof.
  apply obj_wf. rewrite !Forall_app. split_and!; [by repeat constructor|..];
    first [by apply given_wf|apply given_list_wf].
Qed.

Lemma evidence_json e : evidence_wf e -> json_wf (evidence_to_dict e) = true.
Proof.
  intros W. apply obj_wf. rewrite Forall_app. split; [|by apply given_wf].
  repeat (apply Forall_cons; split; [cbn [snd]|]); try done; [apply W|apply strings_wf].
Qed.

Lemma evidence_map_json m : evidence_map_wf m -> json_wf (evidence_map_dict m) = true.
Proof.
  intros Hm. apply obj_wf, Forall_fmap, Forall_forall. intros [k e] He%elem_of_map_to_list. cbn.
  apply evidence_json. by destruct (Hm k e He).
Qed.

Lemma passport_json p : passport_wf p -> json_wf (passport_to_dict p) = true.
Proof.
  intros []. apply obj_wf. repeat (apply Forall_cons; split; [cbn [snd]|]); try done;
    [apply route_json|by apply evidence_map_json..|apply strings_wf].
Qed.

Lemma subject_json s : json_wf (subject_to_dict s) = true.
Proof. apply obj_wf. rewrite Forall_app. split; [by repeat constructor|by apply given_wf]. Qed.

Lemma runtime_json p : runtime_wf p -> json_wf (runtime_to_dict p) = true.
Proof.
  intros []. apply obj_wf. repeat (apply Forall_cons; split; [cbn [snd]|]); try done;
    [apply subject_json|by apply evidence_map_json..|apply strings_wf].
Qed.

(** Values that are read back from their dict have equal digests only when they are
    equal, or two texts share a SHA-256 digest. *)
Lemma digest_identifies {A E} sha256_hex (to : A -> json) (from : json -> result E A) (a b : A) :
  (forall x, x = a \/ x = b -> json_wf (to x) = true /\ from (to x) = Ok x) ->
  digest_of sha256_hex (to a) = digest_of sha256_hex (to b) ->
  a = b \/ exists s t, s <> t /\ sha256_hex s = sha256_hex t.
Proof.
  intros Hx H. unfold digest_of in H. apply (inj (String.append "sha256:")) in H.
  destruct (decide (dumps false (to a) = dumps false (to b))) as [E'|Hne]; [left|by right; eauto].
  destruct (Hx a (or_introl eq_refl)) as [Ha Ra], (Hx b (or_intror eq_refl)) as [Hb Rb].
  apply dumps_inj in E'; [|done..]. rewrite E', Rb in Ra. by injection Ra.
Qed.

(** * Resolution *)

Lemma fresh_item_some at_ o e : fresh_item at_ o = Some e <-> o = Some e /\ at_ < ce_expires_at e.
Proof.
  unfold fresh_item, is_current. destruct o as [x|]; cbn; [|naive_solver].
  destruct (Z.ltb_spec at_ (ce_expires_at x)); naive_solver lia.
Qed.

Lemma fresh_item_none at_ o : fresh_item at_ o = None <-> forall e, o = Some e -> ce_expires_at e <= at_.
Proof.
  unfold fresh_item, is_current. destruct o as [x|]; cbn; [|done].
  destruct (Z.ltb_spec at_ (ce_expires_at x)); split; try done.
  - intros Hall. specialize (Hall x eq_refl). lia.
  - intros _ e [= <-]. lia.
Qed.

(** The evidence that makes an observation or negotiation count. *)
Definition witnesses (at_ : Z) (o : option CapabilityEvidence) : Prop :=
  exists e, o = Some e /\ at_ < ce_expires_at e /\ direct e = true /\ ce_status e = SUPPORTED.

Lemma resolve_supported p c at_ d :
  resolve p c at_ = Ok d ->
  (cd_status d = SUPPORTED <-> at_ < cp_expires_at p /\ witnesses at_ (cp_observed p !! c)).
Proof.
  unfold resolve. intros (n & Hn & H)%bind_ok.
  unfold capability_name in Hn. destruct (is_capability_name c); [|done]. injection Hn as <-.
  cbv zeta in H. injection H as <-. destruct (Z.leb_spec (cp_expires_at p) at_); [cbn; split; [done|intros []; lia]|].
  destruct (fresh_item at_ (cp_observed p !! c)) as [e|] eqn:Ef.
  - apply fresh_item_some in Ef as [Ho Hx]. destruct (direct e) eqn:Ed; cbn.
    + split; [intros Hs; split; [done|by exists e]|intros (_ & e' & ? & _ & _ & ?); congruence].
    + split; [done|intros (_ & e' & ? & _ & ? & _); congruence].
  - pose proof (proj1 (fresh_item_none _ _) Ef) as Hf. cbn. split; [done|].
    intros (_ & e & Ho & Hx & _). apply Hf in Ho. lia.
Qed.

Lemma resolve_total p c at_ : is_capability_name c = true -> exists d, resolve p c at_ = Ok d.
Proof. intros H. unfold resolve. rewrite capability_name_ok by done. cbn. eauto. Qed.

Lemma witnesses_earlier t t' o : t <= t' -> witnesses t' o -> witnesses t o.
Proof. intros Ht (e & ? & ? & ? & ?). exists e. split_and!; auto with lia. Qed.

Lemma runtime_supported p c at_ d :
  resolve_runtime p c at_ = Ok d ->
  (rc_status d = SUPPORTED <->
   at_ < rp_expires_at p /\ witnesses at_ (rp_negotiated p !! c) /\
   forall e, rp_observed p !! c = Some e -> at_ < ce_expires_at e -> ce_status e <> UNSUPPORTED).
Proof.
  unfold resolve_runtime. intros (n & Hn & H)%bind_ok.
  unfold capability_name in Hn. destruct (is_capability_name c); [|done]. injection Hn as <-.
  cbv zeta in H. injection H as <-. destruct (Z.leb_spec (rp_expires_at p) at_); [cbn; split; [done|intros []; lia]|].
  case_bool_decide as Hu.
  { cbn. split; [done|]. intros (_ & _ & Ho). destruct (fresh_item _ _) as [e|] eqn:Ef; [|done].
    apply fresh_item_some in Ef as [He Hx]. cbn in Hu. injection Hu as Hs. by destruct (Ho e He Hx). }
  assert (Ho : forall e, rp_observed p !! c = Some e -> at_ < ce_expires_at e -> ce_status e <> UNSUPPORTED).
  { intros e He Hx Hs. apply Hu.
    rewrite (proj2 (fresh_item_some _ _ _) (conj He Hx)). cbn. by rewrite Hs. }
  destruct (fresh_item at_ (rp_negotiated p !! c)) as [e|] eqn:Ef.
  - apply fresh_item_some in Ef as [Hn Hx]. destruct (direct e) eqn:Ed; cbn.
    + split; [intros Hs; split_and!; [done|by exists e|done]|intros (_ & (e' & ? & _ & _ & ?) & _); congruence].
    + split; [done|intros (_ & (e' & ? & _ & ? & _) & _); congruence].
  - pose proof (proj1 (fresh_item_none _ _) Ef) as Hf. cbn. split; [done|].
    intros (_ & (e & Hn & Hx & _) & _). apply Hf in Hn. lia.
Qed.

(** * Properties *)

(** A passport survives its own text. Whatever payload the constructor accepts, the
    JSON text of the passport it builds is read back as that very passport; and the same
    for runtime passports. *)
Theorem passport_exact v :
  json_wf v = true ->
  (forall p, passport_from_dict v = Ok p -> passport_wf p /\
   exists w, loads (dumps false (passport_to_dict p)) = Some w /\ passport_from_dict w = Ok p) /\
  (forall p, runtime_from_dict v = Ok p -> runtime_wf p /\
   exists w, loads (dumps false (runtime_to_dict p)) = Some w /\ runtime_from_dict w = Ok p).
Proof.
  intros Hv. split; intros p Hp.
  - pose proof (passport_constructed v p Hv Hp) as W. split; [done|].
    exists (passport_to_dict p). split; [by apply loads_dumps, passport_json|by apply passport_roundtrip].
  - pose proof (runtime_constructed v p Hv Hp) as W. split; [done|].
    exists (runtime_to_dict p). split; [by apply loads_dumps, runtime_json|by apply runtime_roundtrip].
Qed.

(** Keys and digests identify. Two routes that a constructor accepted have the same
    key only when they agree in every component, and two passports the same digest only
    when they are equal, unless SHA-256 gives two texts one digest. *)
Theorem identity_digests sha256_hex :
  (forall v w r s, route_from_dict v = Ok r -> route_from_dict w = Ok s ->
   route_key sha256_hex r = route_key sha256_hex s ->
   r = s \/ exists a b, a <> b /\ sha256_hex a = sha256_hex b) /\
  (forall v w p q, json_wf v = true -> json_wf w = true ->
   passport_from_dict v = Ok p -> passport_from_dict w = Ok q ->
   passport_digest sha256_hex p = passport_digest sha256_hex q ->
   p = q \/ exists a b, a <> b /\ sha256_hex a = sha256_hex b).
Proof.
  split.
  - intros v w r s Hr%route_constructed Hs%route_constructed.
    apply (digest_identifies sha256_hex route_to_dict route_from_dict). intros x [-> | ->];
      (split; [apply route_json|by apply route_roundtrip]).
  - intros v w p q Hv Hw Hp Hq. apply (passport_constructed v p Hv) in Hp.
    apply (passport_constructed w q Hw) in Hq.
    apply (digest_identifies sha256_hex passport_to_dict passport_from_dict). intros x [-> | ->];
      (split; [by apply passport_json|by apply passport_roundtrip]).
Qed.

(** A capability is supported only by a current, direct observation of a passport
    that has not expired, and by nothing else: a claim, an inference, an expired or a
    missing observation give no support. Time only takes support away. *)
Theorem capability_fail_closed p c at_ d :
  resolve p c at_ = Ok d ->
  (cd_status d = SUPPORTED <-> at_ < cp_expires_at p /\ witnesses at_ (cp_observed p !! c)) /\
  (cd_status d = SUPPORTED -> forall t, t <= at_ ->
   exists d', resolve p c t = Ok d' /\ cd_status d' = SUPPORTED).
Proof.
  intros H. pose proof (resolve_supported p c at_ d H) as Hs. split; [done|].
  intros [Hx Hw]%Hs t Ht. assert (is_capability_name c = true) as Hc.
  { unfold resolve, capability_name in H. by destruct (is_capability_name c). }
  destruct (resolve_total p c t Hc) as [d' Hd']. exists d'. split; [done|].
  apply (resolve_supported p c t d' Hd'). split; [lia|by eapply witnesses_earlier].
Qed.

(** A tool or peer may use a capability only after a current, direct negotiation of
    a passport that has not expired, and never against a current observation that it is
    unsupported. *)
Theorem runtime_fail_closed p c at_ d :
  resolve_runtime p c at_ = Ok d ->
  (rc_status d = SUPPORTED <->
   at_ < rp_expires_at p /\ witnesses at_ (rp_negotiated p !! c) /\
   forall e, rp_observed p !! c = Some e -> at_ < ce_expires_at e -> ce_status e <> UNSUPPORTED).
Proof. apply runtime_supported. Qed.

(** * Samples *)

Module PassportSample.

Definition zeros : string := "0000000000000000000000000000000000000000000000000000000000000000".

Definition evidence (status authority from until : string) : json :=
  obj [("status", JStr status); ("source", JStr "probe"); ("observed_at", JStr from);
       ("expires_at", JStr until); ("confidence", JFloat "0.5");
       ("evidence_digest", JStr ("sha256:" +:+ zeros)); ("authority", JStr authority)].

Definition route : json :=
  obj [("gateway", JStr "g"); ("provider", JStr "p"); ("connection", JStr "c");
       ("endpoint", JStr "e"); ("protocol", JStr "openai"); ("model_id", JStr "m")].

Definition day : string := "2026-01-01T00:00:00Z".
Definition week : string := "2026-01-08T00:00:00Z".
Definition month : string := "2026-02-01T00:00:00Z".

Definition payload (observed : list (string * json)) : json :=
  obj [("schema_version", JStr "1"); ("route_identity", route); ("qualified_at", JStr day);
       ("expires_at", JStr month); ("claimed", obj []); ("observed", obj observed);
       ("limitations", JList [])].

Definition tools : list (string * json) := [("tools", evidence "supported" "observed" day week)].

Definition passport : result passport_exn CapabilityPassport := passport_from_dict (payload tools).

Definition subject : json :=
  obj [("kind", JStr "tool"); ("subject_id", JStr "t"); ("provider", JStr "p");
       ("protocol", JStr "mcp"); ("protocol_version", JStr "1"); ("transport", JStr "stdio");
       ("auth_mode", JStr "none"); ("endpoint_digest", JStr ("sha256:" +:+ zeros))].

Definition runtime (observed negotiated : list (string * json)) : json :=
  obj [("schema_version", JStr "1"); ("subject", subject); ("qualified_at", JStr day);
       ("expires_at", JStr month); ("declared", obj []); ("observed", obj observed);
       ("negotiated", obj negotiated); ("limitations", JList [])].

(** Microseconds of midnight UTC in 2026. *)
Definition midnight (m d : Z) : Z := ymd_days 2026 m d * us_per_day.

Definition status_at (p : result passport_exn CapabilityPassport) (t : Z) : option CapabilityStatus :=
  match p with
  | Ok p => match resolve p "tools" t with Ok d => Some (cd_status d) | Err _ => None end
  | Err _ => None
  end.

Definition runtime_at (v : json) (t : Z) : option CapabilityStatus :=
  match runtime_from_dict v with
  | Ok p => match resolve_runtime p "tools" t with Ok d => Some (rc_status d) | Err _ => None end
  | Err _ => None
  end.
End PassportSample.

Lemma passport_exact_witness :
  exists p, PassportSample.passport = Ok p /\
  exists w, loads (dumps false (passport_to_dict p)) = Some w /\ passport_from_dict w = Ok p.
Proof.
  destruct (passport_exact (PassportSample.payload PassportSample.tools)) as [H _];
    [vm_compute; reflexivity|].
  destruct PassportSample.passport as [p|] eqn:E; [|vm_compute in E; discriminate].
  exists p. split; [reflexivity|]. exact (proj2 (H p E)).
Defined.

Lemma capability_fail_closed_witness :
  exists p d, PassportSample.passport = Ok p /\
  resolve p "tools" (PassportSample.midnight 1 7) = Ok d /\ cd_status d = SUPPORTED /\
  witnesses (PassportSample.midnight 1 7) (cp_observed p !! "tools").
Proof.
  destruct PassportSample.passport as [p|] eqn:E; [|vm_compute in E; discriminate].
  destruct (resolve p "tools" (PassportSample.midnight 1 7)) as [d|] eqn:Ed;
    [|vm_compute in E; injection E as <-; vm_compute in Ed; discriminate].
  assert (Hs : cd_status d = SUPPORTED)
    by (vm_compute in E; injection E as <-; vm_compute in Ed; injection Ed as <-; reflexivity).
  exists p, d. refine (conj eq_refl (conj Ed (conj Hs _))).
  exact (proj2 (proj1 (proj1 (capability_fail_closed p "tools" _ d Ed)) Hs)).
Defined.

Lemma runtime_fail_closed_witness :
  exists p d, runtime_from_dict (PassportSample.runtime [] PassportSample.tools) = Ok p /\
  resolve_runtime p "tools" (PassportSample.midnight 1 7) = Ok d /\ rc_status d = SUPPORTED /\
  witnesses (PassportSample.midnight 1 7) (rp_negotiated p !! "tools").
Proof.
  destruct (runtime_from_dict _) as [p|] eqn:E; [|vm_compute in E; discriminate].
  destruct (resolve_runtime p "tools" (PassportSample.midnight 1 7)) as [d|] eqn:Ed;
    [|vm_compute in E; injection E as <-; vm_compute in Ed; discriminate].
  assert (Hs : rc_status d = SUPPORTED)
    by (vm_compute in E; injection E as <-; vm_compute in Ed; injection Ed as <-; reflexivity).
  exists p, d. refine (conj eq_refl (conj Ed (conj Hs _))).
  exact (proj1 (proj2 (proj1 (runtime_fail_closed p "tools" _ d Ed) Hs))).
Defined.

(** * What the model shows *)

(** When evidence was observed is not looked at: an observation and a passport of next
    month support a capability today. *)
Theorem future_evidence_counts :
  PassportSample.status_at PassportSample.passport (PassportSample.midnight 1 1 - 1) = Some SUPPORTED.
Proof. vm_compute. reflexivity. Qed.

(** A refusal ends before the negotiation it contradicts: a capability observed as
    unsupported is supported again, without new evidence, when that observation expires. *)
Theorem refusal_expires :
  let v := PassportSample.runtime
    [("tools", PassportSample.evidence "unsupported" "observed" PassportSample.day
                 "2026-01-02T00:00:00Z")] PassportSample.tools in
  PassportSample.runtime_at v (PassportSample.midnight 1 1) = Some UNSUPPORTED /\
  PassportSample.runtime_at v (PassportSample.midnight 1 3) = Some SUPPORTED.
Proof. vm_compute. split; reflexivity. Qed.
