(* ===== verification/Policy.v ===== *)
(** [verdict/policy.py]: hard eligibility of routes, before any ranking.

    A set is a [gset], a finite number the rational it denotes. An aware datetime
    enters as a [datetime] and is compared as its instant. [metadata] is only checked to
    be a mapping and left out, as are the types that the constructors check of values
    that are typed here. *)
From Stdlib Require Import Ascii Lqa.
From stdpp Require Import sorting.
From S2P Require Import Prelude PyStr Time PyNum Json JsonDict Passports.

(** [PolicyValidationError]; what resolving a capability raises. *)
Inductive policy_exn :=
| PolicyValidationError (msg : string)
| PassportFailure (e : passport_exn)
| RuntimeFailure (e : runtime_exn).

Definition lift_err {E F A} (f : E -> F) (m : result E A) : result F A :=
  match m with Ok a => Ok a | Err e => Err (f e) end.

Inductive DecisionState := ALLOW | DENY | UNDECIDED.

#[global] Instance decision_state_eq_dec : EqDecision DecisionState.
Proof. solve_decision. Defined.

(** The values of the enum; [UNDECIDED] is [DecisionState.UNKNOWN]. *)
Definition decision_value (d : DecisionState) : string :=
  match d with ALLOW => "allow" | DENY => "deny" | UNDECIDED => "unknown" end.

(** * Candidates *)

Record PolicyCandidate := {
  pc_candidate_id : string;
  pc_route_identity : option RouteIdentity;
  pc_passport : option CapabilityPassport;
  pc_runtime_passports : list RuntimeCapabilityPassport;
  pc_availability : string;
  pc_evidence_ids : list string;
  pc_cost : option Q;
  pc_quality_score : option Q;
  pc_requested_alias : option string;
  pc_selected_route : option RouteIdentity;
  pc_actual_route : option RouteIdentity
}.

Definition blank (s : string) : bool := String.eqb (strip s) "".

(** [PolicyCandidate.__post_init__] *)
Definition policy_candidate (c : PolicyCandidate) : result policy_exn PolicyCandidate :=
  _ ← raise_if (blank (pc_candidate_id c)) (PolicyValidationError "candidate_id must be non-empty");
  _ ← raise_if (blank (pc_availability c)) (PolicyValidationError "availability must be non-empty");
  _ ← raise_if (existsb blank (pc_evidence_ids c))
        (PolicyValidationError "evidence_ids must contain non-empty strings");
  _ ← raise_if (match pc_requested_alias c with Some s => blank s | None => false end)
        (PolicyValidationError "requested_alias must be non-empty when supplied");
  _ ← raise_if (match pc_selected_route c, pc_route_identity c with
                | Some s, Some r => negb (bool_decide (s = r))
                | _, _ => false
                end)
        (PolicyValidationError
           "selected_route must exactly match route_identity when both are supplied");
  _ ← raise_if (match pc_passport c, pc_route_identity c with
                | Some p, Some r => negb (bool_decide (cp_route_identity p = r))
                | _, _ => false
                end)
        (PolicyValidationError
           "candidate route_identity must exactly match passport route_identity");
  Ok {| pc_candidate_id := pc_candidate_id c; pc_route_identity := pc_route_identity c;
        pc_passport := pc_passport c; pc_runtime_passports := pc_runtime_passports c;
        pc_availability := lower (pc_availability c); pc_evidence_ids := pc_evidence_ids c;
        pc_cost := pc_cost c; pc_quality_score := pc_quality_score c;
        pc_requested_alias := pc_requested_alias c; pc_selected_route := pc_selected_route c;
        pc_actual_route := pc_actual_route c |}.

(** [effective_route]: the served identity when it is known *)
Definition effective_route (c : PolicyCandidate) : option RouteIdentity :=
  match pc_actual_route c with Some r => Some r | None => pc_route_identity c end.

(** * Policies *)

Record Policy := {
  po_policy_id : string;
  po_version : string;
  po_required_capabilities : gset string;
  po_required_runtime : gset string;
  po_allowed_providers : gset string;
  po_denied_providers : gset string;
  po_allowed_protocols : gset string;
  po_protected : bool;
  po_allow_degraded : bool;
  po_allow_stale_evidence : bool;
  po_require_route_identity : bool;
  po_require_actual_identity : bool;
  po_require_fresh_evidence : bool;
  po_allow_fallback : bool;
  po_retry_safe_required : bool;
  po_require_idempotency_key : bool;
  po_max_attempts : Z;
  po_restricted_data_routes : gset string;
  po_restricted_data : bool
}.

Definition POLICY_VERSION : string := "policy-2".

Definition has_blank (s : gset string) : bool := existsb blank (elements s).

(** [Policy.__post_init__] *)
Definition policy (p : Policy) : result policy_exn Policy :=
  _ ← raise_if (blank (po_policy_id p)) (PolicyValidationError "policy_id must be non-empty");
  _ ← raise_if (blank (po_version p)) (PolicyValidationError "version must be non-empty");
  let names s field := raise_if (has_blank s)
        (PolicyValidationError (field +:+ " must contain non-empty strings")) in
  _ ← names (po_required_capabilities p) "required_capabilities";
  _ ← names (po_required_runtime p) "required_runtime_capabilities";
  _ ← names (po_allowed_providers p) "allowed_providers";
  _ ← names (po_denied_providers p) "denied_providers";
  _ ← names (po_allowed_protocols p) "allowed_protocols";
  _ ← names (po_restricted_data_routes p) "restricted_data_routes";
  _ ← raise_if (po_protected p && po_allow_stale_evidence p)
        (PolicyValidationError "protected policy cannot allow stale evidence");
  _ ← raise_if (po_max_attempts p <? 1)
        (PolicyValidationError "max_attempts must be a positive integer");
  Ok p.

(** [Policy.to_dict] *)
Definition set_list (s : gset string) : json := JList (map JStr (sort_str (elements s))).

Definition policy_to_dict (p : Policy) : json :=
  obj [("schema_version", JStr "1"); ("policy_id", JStr (po_policy_id p));
       ("version", JStr (po_version p));
       ("required_capabilities", set_list (po_required_capabilities p));
       ("required_runtime_capabilities", set_list (po_required_runtime p));
       ("allowed_providers", set_list (po_allowed_providers p));
       ("denied_providers", set_list (po_denied_providers p));
       ("allowed_protocols", set_list (po_allowed_protocols p));
       ("protected", JBool (po_protected p)); ("allow_degraded", JBool (po_allow_degraded p));
       ("allow_stale_evidence", JBool (po_allow_stale_evidence p));
       ("require_route_identity", JBool (po_require_route_identity p));
       ("require_actual_identity", JBool (po_require_actual_identity p));
       ("require_fresh_evidence", JBool (po_require_fresh_evidence p));
       ("allow_fallback", JBool (po_allow_fallback p));
       ("retry_safe_required", JBool (po_retry_safe_required p));
       ("require_idempotency_key", JBool (po_require_idempotency_key p));
       ("max_attempts", JInt (po_max_attempts p));
       ("restricted_data_routes", set_list (po_restricted_data_routes p));
       ("restricted_data", JBool (po_restricted_data p))].

(** No reader used here raises [wrong_type]. *)
#[export] Instance policy_dict_exn : DictExn policy_exn :=
  { contract := PolicyValidationError; wrong_type := PolicyValidationError "" }.

(** [_strings] of a payload's value: a dict gives its keys. *)
Definition strings_of (name : string) (v : json) : result policy_exn (gset string) :=
  let items msg vs := l ← nonblanks msg vs; Ok (list_to_set l : gset string) in
  let msg := name +:+ " must contain non-empty strings" in
  let not_array := Err (PolicyValidationError (name +:+ " must be an array of strings")) in
  match v with
  | JList vs =>
      if existsb (fun x => match x with JList _ | JObj _ => true | _ => false end) vs
      then not_array else items msg vs
  | JObj ms => items msg (map (fun m => JStr m.1) ms)
  | _ => not_array
  end.

(** The truth value of a JSON value *)
Definition truthy (v : json) : bool :=
  match v with
  | JNull | JBool false | JInt 0 | JStr "" | JList [] | JObj [] => false
  | JFloat r => match parse_decimal r with Some (Some q) => negb (Qeq_bool q 0) | _ => true end
  | _ => true
  end.

Definition bool_of (name : string) (v : json) : result policy_exn bool :=
  match v with
  | JBool b => Ok b
  | _ => Err (PolicyValidationError (name +:+ " must be boolean"))
  end.

Definition POLICY_FIELDS : list string :=
  ["schema_version"; "policy_id"; "version"; "required_capabilities";
   "required_runtime_capabilities"; "allowed_providers"; "denied_providers"; "allowed_protocols";
   "protected"; "allow_degraded"; "allow_stale_evidence"; "require_route_identity";
   "require_actual_identity"; "require_fresh_evidence"; "allow_fallback"; "retry_safe_required";
   "require_idempotency_key"; "max_attempts"; "restricted_data_routes"; "restricted_data"].

(** [repr] of a sorted list of names *)
Definition names_repr (names : list string) : string :=
  "[" +:+ join ", " (map repr (sort_str names)) +:+ "]".

(** [Policy.from_dict] with the checks of [__post_init__] in their order *)
Definition policy_from_dict (v : json) : result policy_exn Policy :=
  match v with
  | JObj ms =>
      let unknown := List.filter (fun k => negb (mem k POLICY_FIELDS)) (map fst ms) in
      _ ← raise_if (negb (bool_decide (unknown = [])))
            (PolicyValidationError ("policy has unknown field(s): " +:+ names_repr unknown));
      let strings k := field_or ∅ (strings_of k) ms k in
      required ← strings "required_capabilities";
      required_runtime ← strings "required_runtime_capabilities";
      allowed ← strings "allowed_providers";
      denied ← strings "denied_providers";
      protocols ← strings "allowed_protocols";
      restricted_routes ← strings "restricted_data_routes";
      _ ← field_or tt (schema_is_1 (PolicyValidationError "schema_version must be '1'"))
            ms "schema_version";
      policy_id ← field_or "default" (nonblank "policy_id must be non-empty") ms "policy_id";
      version ← field_or POLICY_VERSION (nonblank "version must be non-empty") ms "version";
      let flag k d := field_or d (bool_of k) ms k in
      restricted ← flag "restricted_data" false;
      let true_at k := match dict_get k ms with Some v => truthy v | None => false end in
      _ ← raise_if (true_at "protected" && true_at "allow_stale_evidence")
            (PolicyValidationError "protected policy cannot allow stale evidence");
      attempts ← field_or 3 (fun v =>
        match v with
        | JInt z => if z <? 1
                    then Err (PolicyValidationError "max_attempts must be a positive integer")
                    else Ok z
        | _ => Err (PolicyValidationError "max_attempts must be a positive integer")
        end) ms "max_attempts";
      protected ← flag "protected" false;
      degraded ← flag "allow_degraded" false;
      stale ← flag "allow_stale_evidence" false;
      route ← flag "require_route_identity" true;
      actual ← flag "require_actual_identity" true;
      fresh ← flag "require_fresh_evidence" true;
      fallback ← flag "allow_fallback" true;
      retry_safe ← flag "retry_safe_required" true;
      idempotency ← flag "require_idempotency_key" true;
      Ok {| po_policy_id := policy_id; po_version := version;
            po_required_capabilities := required; po_required_runtime := required_runtime;
            po_allowed_providers := allowed; po_denied_providers := denied;
            po_allowed_protocols := protocols; po_protected := protected;
            po_allow_degraded := degraded; po_allow_stale_evidence := stale;
            po_require_route_identity := route; po_require_actual_identity := actual;
            po_require_fresh_evidence := fresh; po_allow_fallback := fallback;
            po_retry_safe_required := retry_safe; po_require_idempotency_key := idempotency;
            po_max_attempts := attempts; po_restricted_data_routes := restricted_routes;
            po_restricted_data := restricted |}
  | _ => Err (PolicyValidationError "policy must be an object")
  end.

(** [payload.pop(key)] leaves *)
Definition without (key : string) (ms : list (string * json)) : list (string * json) :=
  List.filter (fun m => negb (String.eqb m.1 key)) ms.

(** [d.setdefault(key, value)] *)
Definition set_default (key : string) (v : json) (ms : list (string * json)) : list (string * json) :=
  match dict_get key ms with Some _ => ms | None => obj_set key v ms end.

(** [Policy.migrate] *)
Definition migrate (v : json) : result policy_exn Policy :=
  match v with
  | JObj ms =>
      let ms := set_default "schema_version" (JStr "1") ms in
      let ms := match dict_get "policy_floor" ms, dict_get "protected" ms with
                | Some floor, None =>
                    obj_set "protected"
                      (JBool match floor with
                             | JStr s => mem (lower s) ["protected"; "high"]
                             | _ => false
                             end) (without "policy_floor" ms)
                | _, _ => ms
                end in
      let ms := match dict_get "required" ms, dict_get "required_capabilities" ms with
                | Some r, None => obj_set "required_capabilities" r (without "required" ms)
                | _, _ => ms
                end in
      let ms := set_default "restricted_data_routes" (JList []) ms in
      let ms := set_default "restricted_data" (JBool false) ms in
      policy_from_dict (JObj ms)
  | _ => Err (PolicyValidationError "legacy policy must be an object")
  end.

(** * Evaluation *)

(** The lists and flags that [evaluate] fills on its way. *)
Record Notes := {
  n_reasons : list string;
  n_remediation : list string;
  n_unknown : bool;
  n_stale : bool
}.

Definition no_notes : Notes :=
  {| n_reasons := []; n_remediation := []; n_unknown := false; n_stale := false |}.

(** [reasons.append], [remediation.append]; [unknown = True], [stale = True] *)
Definition note (reason : string) (remedy : option string) (unknown stale : bool) (n : Notes) : Notes :=
  {| n_reasons := n_reasons n ++ [reason];
     n_remediation := n_remediation n ++ option_list remedy;
     n_unknown := n_unknown n || unknown; n_stale := n_stale n || stale |}.

Definition note_if (c : bool) (reason : string) (remedy : option string) (unknown : bool)
    (n : Notes) : Notes :=
  if c then note reason remedy unknown false n else n.

(** The checks of the selected route's identity. *)
Definition identity_notes (p : Policy) (c : PolicyCandidate) : Notes :=
  let n :=
    match pc_route_identity c with
    | None =>
        note_if (po_require_route_identity p) "exact route identity is unknown"
          (Some "resolve gateway, provider, connection, endpoint, and model revision") true no_notes
    | Some r =>
        note_if (negb (bool_decide (po_allowed_protocols p = ∅)) &&
                 negb (bool_decide (ri_protocol r ∈ po_allowed_protocols p)))
          ("protocol " +:+ repr (ri_protocol r) +:+ " is not allowed")
          (Some "qualify the required protocol surface") false
        (note_if (bool_decide (ri_provider r ∈ po_denied_providers p))
          ("provider " +:+ repr (ri_provider r) +:+ " is denied") None false
        (note_if (negb (bool_decide (po_allowed_providers p = ∅)) &&
                  negb (bool_decide (ri_provider r ∈ po_allowed_providers p)))
          ("provider " +:+ repr (ri_provider r) +:+ " is not allowed")
          (Some "add the provider to the policy or select an allowed route") false no_notes))
    end in
  note_if (po_protected p && po_require_actual_identity p &&
           negb (bool_decide (is_Some (pc_actual_route c))))
    "actual served route identity is unknown"
    (Some "observe and attest the served gateway, provider, connection, and model") true n.

Definition refuses (r : string) : bool := contains r "not allowed" || contains r "is denied".

Definition DENIED_STATES : list string :=
  ["denied"; "unavailable"; "unauthorized"; "quota_exhausted"; "rate_limited"; "timeout";
   "malformed"; "policy_denied"; "capability_mismatch"].

Definition UNKNOWN_STATES : list string := ["unknown"; "stale"; "error"; "circuit_open"; "locked_out"].

(** The note of one required capability, from what the passport resolves. *)
Definition capability_note (p : Policy) (name : string) (d : CapabilityDecision) (n : Notes) : Notes :=
  match cd_status d with
  | SUPPORTED => n
  | UNSUPPORTED =>
      note ("capability " +:+ repr name +:+ " is unsupported")
        (Some ("select a route with a fresh " +:+ name +:+ " observation")) false false n
  | UNKNOWN =>
      if po_allow_stale_evidence p && negb (po_protected p) &&
         match cd_observed d with
         | Some e => bool_decide (ce_status e = SUPPORTED) && direct e
         | None => false
         end
      then note ("capability " +:+ repr name +:+ " allowed by explicit stale mode") None false true n
      else note ("capability " +:+ repr name +:+ " is unknown")
             (Some ("refresh direct evidence for " +:+ name)) true false n
  end.

(** [for x in xs: n = f(x, n)], where [f] may raise *)
Fixpoint fold_result {E A B} (f : B -> A -> result E A) (xs : list B) (a : A) : result E A :=
  match xs with
  | [] => Ok a
  | x :: xs => a ← f x a; fold_result f xs a
  end.

(** The names of a set in the order of [sorted]. *)
Definition sorted_set (s : gset string) : list string := sort_str (elements s).

(** The checks of [required_capabilities]. *)
Definition capability_notes (p : Policy) (c : PolicyCandidate) (t : Z) (n : Notes)
    : result policy_exn Notes :=
  if bool_decide (po_required_capabilities p = ∅) then Ok n
  else match pc_passport c with
       | None => Ok (note "capability passport is missing"
                       (Some "qualify the exact route and publish a fresh passport") true false n)
       | Some pass =>
           let n := note_if (match effective_route c with
                             | Some r => negb (bool_decide (cp_route_identity pass = r))
                             | None => false
                             end) "capability passport identity does not match route"
                      (Some "publish a passport for the selected exact route") true n in
           fold_result (fun name n =>
               d ← lift_err PassportFailure (resolve pass name t);
               Ok (capability_note p name d n))
             (sorted_set (po_required_capabilities p)) n
       end.

(** The passports whose scope is the connection of the route. *)
Definition runtime_matches (c : PolicyCandidate) : list RuntimeCapabilityPassport :=
  List.filter (fun rp => match effective_route c with
                         | Some r => String.eqb (rs_scope (rp_subject rp)) (ri_connection r)
                         | None => true
                         end) (pc_runtime_passports c).

(** The note of one required runtime capability, from the decisions of the passports. *)
Definition runtime_note (name : string) (ds : list RuntimeCapabilityDecision) (n : Notes) : Notes :=
  if existsb (fun d => bool_decide (rc_status d = UNSUPPORTED)) ds
  then note ("runtime capability " +:+ repr name +:+ " is unsupported") None false false n
  else note_if (negb (existsb (fun d => bool_decide (rc_status d = SUPPORTED)) ds))
         ("runtime capability " +:+ repr name +:+ " is unknown")
         (Some ("negotiate direct evidence for runtime " +:+ name)) true n.

(** The checks of [required_runtime_capabilities]. *)
Definition runtime_notes (p : Policy) (c : PolicyCandidate) (t : Z) (n : Notes)
    : result policy_exn Notes :=
  if bool_decide (po_required_runtime p = ∅) then Ok n
  else if bool_decide (pc_runtime_passports c = []) then
         Ok (note "runtime capability passport is missing"
               (Some "negotiate the required tool or peer capability") true false n)
  else
    let matches := runtime_matches c in
    let n := note_if (bool_decide (matches = []))
               "runtime capability passport scope does not match route"
               (Some "publish a runtime passport for the selected connection") true n in
    fold_result (fun name n =>
        ds ← map_result (fun rp => lift_err RuntimeFailure (resolve_runtime rp name t)) matches;
        Ok (runtime_note name ds n))
      (sorted_set (po_required_runtime p)) n.

Record PolicyDecision := {
  pd_candidate_id : string;
  pd_decision : DecisionState;
  pd_policy_version : string;
  pd_checked_at : Z;
  pd_reasons : list string;
  pd_remediation : list string;
  pd_evidence_ids : list string;
  pd_route_key : option string;
  pd_stale_evidence : bool
}.

(** [admitted] *)
Definition admitted (d : PolicyDecision) : bool := bool_decide (pd_decision d = ALLOW).

Record EligibilityCompilation := {
  ec_policy_version : string;
  ec_decisions : list PolicyDecision;
  ec_eligible : list PolicyCandidate;
  ec_compiled_at : Z
}.

(** [_utc]: a naive datetime is refused. *)
Definition utc_at (at_ : datetime) : result policy_exn Z :=
  match dt_off at_ with
  | Some _ => Ok (instant at_)
  | None => Err (PolicyValidationError "policy timestamps must be timezone-aware")
  end.

Section evaluate.
(** [hashlib.sha256(...).hexdigest()] *)
Context (sha256_hex : string -> string).

(** [PolicyCandidate.route_key] *)
Definition candidate_key (c : PolicyCandidate) : option string :=
  route_key sha256_hex <$> effective_route c.

(** [_decision] *)
Definition decision_of (p : Policy) (c : PolicyCandidate) (state : DecisionState) (t : Z) (n : Notes)
    : PolicyDecision :=
  {| pd_candidate_id := pc_candidate_id c; pd_decision := state; pd_policy_version := po_version p;
     pd_checked_at := t; pd_reasons := dedupe_from [] (n_reasons n);
     pd_remediation := dedupe_from [] (n_remediation n); pd_evidence_ids := pc_evidence_ids c;
     pd_route_key := candidate_key c; pd_stale_evidence := n_stale n |}.

Definition restricted_ok (p : Policy) (c : PolicyCandidate) : bool :=
  negb (po_restricted_data p) ||
  match candidate_key c with
  | Some k => bool_decide (k ∈ po_restricted_data_routes p)
  | None => false
  end.

(** [evaluate] at an instant *)
Definition evaluate_at (p : Policy) (c : PolicyCandidate) (t : Z) : result policy_exn PolicyDecision :=
  let n := identity_notes p c in
  let deny n := Ok (decision_of p c DENY t n) in
  if existsb refuses (n_reasons n) then deny n
  else if negb (restricted_ok p c) then
    deny (note "route is not qualified for restricted data"
            (Some "add the route key to restricted_data_routes after reviewing its data handling")
            false false n)
  else
    let availability := pc_availability c in
    if mem availability DENIED_STATES then
      deny (note ("availability is " +:+ availability)
              (Some "refresh live availability and resolve the reported failure") false false n)
    else if String.eqb availability "degraded" && negb (po_allow_degraded p && negb (po_protected p))
    then deny (note "degraded availability is not permitted"
                 (Some "refresh the route or use an explicit non-protected degraded policy")
                 false false n)
    else
      let n := note_if (mem availability UNKNOWN_STATES) ("availability is " +:+ availability)
                 (Some "obtain a fresh direct runtime observation") true n in
      n ← capability_notes p c t n;
      n ← runtime_notes p c t n;
      Ok (if existsb (fun r => contains r "unsupported") (n_reasons n)
          then decision_of p c DENY t n
          else if n_unknown n then decision_of p c UNDECIDED t n
          else decision_of p c ALLOW t
                 (if bool_decide (n_reasons n = [])
                  then note "all hard predicates passed" None false false n else n)).

(** [evaluate] *)
Definition evaluate (p : Policy) (c : PolicyCandidate) (at_ : datetime)
    : result policy_exn PolicyDecision :=
  t ← utc_at at_; evaluate_at p c t.

(** The score, highest first; then the cost, unknown last; then the id. *)
Definition score (ranking : list (string * Q)) (c : PolicyCandidate) : Q :=
  match dict_get (pc_candidate_id c) ranking with
  | Some s => s
  | None => default 0%Q (pc_quality_score c)
  end.

Definition cost_leb (a b : option Q) : bool :=
  match a, b with
  | _, None => true
  | None, Some _ => false
  | Some x, Some y => Qle_bool x y
  end.

Definition before (ranking : list (string * Q)) (a b : PolicyCandidate) : bool :=
  let x := score ranking a in let y := score ranking b in
  if Qeq_bool x y then
    if cost_leb (pc_cost a) (pc_cost b) then
      negb (cost_leb (pc_cost b) (pc_cost a)) ||
      str_leb (pc_candidate_id a) (pc_candidate_id b)
    else false
  else Qltb y x.

(** [compile] *)
Definition compile (p : Policy) (cs : list PolicyCandidate) (at_ : datetime)
    (ranking : list (string * Q)) : result policy_exn EligibilityCompilation :=
  t ← utc_at at_;
  _ ← raise_if (negb (bool_decide (base.NoDup (map pc_candidate_id cs))))
        (PolicyValidationError "candidate_id values must be unique");
  ds ← map_result (fun c => evaluate_at p c t) cs;
  let allowed := map fst (List.filter (fun cd => admitted cd.2) (combine cs ds)) in
  Ok {| ec_policy_version := po_version p; ec_decisions := ds;
        ec_eligible := sort_by (before ranking) allowed; ec_compiled_at := t |}.
End evaluate.

(** * Policies of tasks *)

(** What [compile_policy] reads of a [TaskSpec]. *)
Record TaskFacts := {
  tf_production_impact : bool;
  tf_destructive_operation : bool;
  tf_risk : string;
  tf_privacy : string;
  tf_required_capabilities : list string;
  tf_capabilities : list string;
  tf_degraded_mode_policy : string
}.

(** [compile_policy] *)
Definition compile_policy (f : TaskFacts) (policy_id version : string) (routes : gset string)
    : result policy_exn Policy :=
  let restricted := mem (tf_privacy f) ["restricted"; "trusted_upstream"] in
  let protected := tf_production_impact f || tf_destructive_operation f ||
                   mem (tf_risk f) ["high"; "critical"] || restricted in
  policy
    {| po_policy_id := policy_id; po_version := version;
       po_required_capabilities :=
         list_to_set (match tf_required_capabilities f with [] => tf_capabilities f | l => l end);
       po_required_runtime := ∅; po_allowed_providers := ∅; po_denied_providers := ∅;
       po_allowed_protocols := ∅; po_protected := protected;
       po_allow_degraded := String.eqb (tf_degraded_mode_policy f) "allow_with_penalty" &&
                            negb protected;
       po_allow_stale_evidence := false; po_require_route_identity := true;
       po_require_actual_identity := protected; po_require_fresh_evidence := true;
       po_allow_fallback := true; po_retry_safe_required := true;
       po_require_idempotency_key := true; po_max_attempts := 3;
       po_restricted_data_routes := routes; po_restricted_data := restricted |}.


(** * What an allowed candidate satisfies *)

(** A required capability that the passport supports, or that stale mode lets pass: its
    direct observation is positive, and not both it and the passport have expired. The
    note of stale mode must not contain the word that [evaluate] looks for. *)
Definition capability_ok (p : Policy) (pass : CapabilityPassport) (t : Z) (name : string) : Prop :=
  exists e, cp_observed pass !! name = Some e /\ direct e = true /\ ce_status e = SUPPORTED /\
  (t < cp_expires_at pass /\ t < ce_expires_at e \/
   po_allow_stale_evidence p = true /\ po_protected p = false /\
   (t < cp_expires_at pass \/ t < ce_expires_at e) /\
   contains ("capability " +:+ repr name +:+ " allowed by explicit stale mode") "unsupported" = false).

(** A required runtime capability: some passport of the route's connection supports it,
    none says that it is unsupported. *)
Definition runtime_ok (t : Z) (rps : list RuntimeCapabilityPassport) (name : string) : Prop :=
  exists ds, map_result (fun rp => resolve_runtime rp name t) rps = Ok ds /\
  (exists d, d ∈ ds /\ rc_status d = SUPPORTED) /\ forall d, d ∈ ds -> rc_status d <> UNSUPPORTED.

(** What the first checks ask of the identities of a candidate. *)
Record identity_ok (p : Policy) (c : PolicyCandidate) : Prop := {
  ok_identity : po_require_route_identity p = true -> is_Some (pc_route_identity c);
  ok_provider r : pc_route_identity c = Some r -> ri_provider r ∉ po_denied_providers p /\
    (po_allowed_providers p = ∅ \/ ri_provider r ∈ po_allowed_providers p);
  ok_protocol r : pc_route_identity c = Some r ->
    po_allowed_protocols p = ∅ \/ ri_protocol r ∈ po_allowed_protocols p;
  ok_actual : po_protected p = true -> po_require_actual_identity p = true ->
    is_Some (pc_actual_route c)
}.

Record admissible (sha256_hex : string -> string) (p : Policy) (c : PolicyCandidate) (t : Z) : Prop := {
  ad_identity : identity_ok p c;
  ad_restricted : po_restricted_data p = true ->
    exists r, effective_route c = Some r /\ route_key sha256_hex r ∈ po_restricted_data_routes p;
  ad_available : pc_availability c ∉ DENIED_STATES ++ UNKNOWN_STATES /\
    (pc_availability c = "degraded" -> po_allow_degraded p = true /\ po_protected p = false);
  ad_capabilities : po_required_capabilities p <> ∅ -> exists pass, pc_passport c = Some pass /\
    (forall r, effective_route c = Some r -> cp_route_identity pass = r) /\
    forall name, name ∈ po_required_capabilities p -> capability_ok p pass t name;
  ad_runtime : po_required_runtime p <> ∅ -> runtime_matches c <> [] /\
    forall name, name ∈ po_required_runtime p -> runtime_ok t (runtime_matches c) name
}.

(** * Lemmas *)

(** Nothing in the notes stands against [ALLOW]. *)
Definition clear (n : Notes) : Prop :=
  n_unknown n = false /\ existsb (fun r => contains r "unsupported") (n_reasons n) = false.

Lemma clear_note reason remedy u s n :
  clear (note reason remedy u s n) <-> clear n /\ u = false /\ contains reason "unsupported" = false.
Proof.
  unfold clear. cbn. rewrite existsb_app, !orb_false_iff. cbn. rewrite orb_false_r. tauto.
Qed.

Lemma clear_note_if b reason remedy u n :
  contains reason "unsupported" = false \/ u = true ->
  clear (note_if b reason remedy u n) <-> clear n /\ (b = true -> u = false).
Proof.
  intros Hr. destruct b; cbn [note_if]; [|naive_solver]. rewrite clear_note. naive_solver.
Qed.

Lemma fold_clear {B} (f : B -> Notes -> result policy_exn Notes) (P : B -> Prop) xs n n' :
  (forall x n m, f x n = Ok m -> clear m <-> clear n /\ P x) ->
  fold_result f xs n = Ok n' -> clear n' <-> clear n /\ Forall P xs.
Proof.
  intros Hf. revert n. induction xs as [|x xs IH]; intros n; cbn.
  - intros [= <-]. rewrite Forall_nil. tauto.
  - intros (m & Hm & H)%bind_ok. rewrite (IH m H), (Hf x n m Hm), Forall_cons. tauto.
Qed.

Lemma contains_suffix a b p : contains b p = true -> contains (a +:+ b) p = true.
Proof. intros H. induction a as [|c a IH]; [done|]. change (String c a +:+ b) with (String c (a +:+ b)). cbn [contains]. by rewrite IH, orb_true_r. Qed.

Lemma not_in_unless (s : gset string) x :
  negb (bool_decide (s = ∅)) && negb (bool_decide (x ∈ s)) = false <-> s = ∅ \/ x ∈ s.
Proof. rewrite andb_false_iff, !negb_false_iff, !bool_decide_eq_true. done. Qed.

Lemma refuses_suffix a b c : refuses c = true -> refuses (a +:+ b +:+ c) = true.
Proof.
  unfold refuses. rewrite !orb_true_iff. intros [H | H]; [left|right]; by do 2 apply contains_suffix.
Qed.

Lemma note_if_reasons b reason remedy u n :
  n_reasons (note_if b reason remedy u n) = n_reasons n ++ (if b then [reason] else []).
Proof. destruct b; cbn; [done|by rewrite app_nil_r]. Qed.

Lemma note_if_unknown b reason remedy u n :
  n_unknown (note_if b reason remedy u n) = n_unknown n || (b && u).
Proof. destruct b; cbn; [done|by rewrite orb_false_r]. Qed.

Lemma existsb_if {A} (f : A -> bool) (b : bool) x : existsb f (if b then [x] else []) = b && f x.
Proof. destruct b; cbn; [by rewrite orb_false_r|done]. Qed.

Lemma actual_unless p c :
  po_protected p && po_require_actual_identity p && negb (bool_decide (is_Some (pc_actual_route c))) = false <->
  (po_protected p = true -> po_require_actual_identity p = true -> is_Some (pc_actual_route c)).
Proof.
  rewrite !andb_false_iff, negb_false_iff, bool_decide_eq_true.
  destruct (po_protected p), (po_require_actual_identity p); naive_solver.
Qed.

Lemma identity_clear p c :
  existsb refuses (n_reasons (identity_notes p c)) = false /\ clear (identity_notes p c) <->
  identity_ok p c.
Proof.
  trans (match pc_route_identity c with
         | Some r => (po_allowed_providers p = ∅ \/ ri_provider r ∈ po_allowed_providers p) /\
             ri_provider r ∉ po_denied_providers p /\
             (po_allowed_protocols p = ∅ \/ ri_protocol r ∈ po_allowed_protocols p)
         | None => po_require_route_identity p = false
         end /\ (po_protected p = true -> po_require_actual_identity p = true ->
                 is_Some (pc_actual_route c))).
  - rewrite <- (actual_unless p c). unfold identity_notes, clear.
    destruct (pc_route_identity c) as [r|].
    + rewrite !note_if_unknown, !note_if_reasons, !existsb_app, !existsb_if, !refuses_suffix by done.
      rewrite <- !not_in_unless, <- (bool_decide_eq_false (ri_provider r ∈ po_denied_providers p)).
      change (refuses "actual served route identity is unknown") with false.
      change (contains "actual served route identity is unknown" "unsupported") with false.
      cbn [no_notes n_reasons n_unknown existsb orb].
      rewrite !orb_false_iff, ?andb_true_r, ?andb_false_r, !(andb_false_iff _ (contains _ _)). tauto.
    + rewrite !note_if_unknown, !note_if_reasons, !existsb_app, !existsb_if.
      cbn.
      rewrite !orb_false_iff, ?andb_true_r, ?andb_false_r. tauto.
  - split.
    + intros [H Ha]. destruct (pc_route_identity c) as [r|] eqn:Er; (split; rewrite ?Er; [..|done]);
        try (intros; congruence); try (by eexists); intros ? [= <-]; tauto.
    + intros [Hi Hp Hr Ha]. split; [|done]. destruct (pc_route_identity c) as [r|].
      * pose proof (Hp r eq_refl). pose proof (Hr r eq_refl). tauto.
      * destruct (po_require_route_identity p); [by destruct (Hi eq_refl) as [? [=]]|done].
Qed.

Lemma resolve_name p c t d : resolve p c t = Ok d -> is_capability_name c = true.
Proof. unfold resolve, capability_name. by destruct (is_capability_name c). Qed.

(** What stale mode lets pass beyond the support of [resolve]. *)
Lemma resolve_stale p c t d : resolve p c t = Ok d ->
  (cd_status d = SUPPORTED <-> exists e, cp_observed p !! c = Some e /\ direct e = true /\
     ce_status e = SUPPORTED /\ t < cp_expires_at p /\ t < ce_expires_at e) /\
  (cd_status d = UNKNOWN /\ (exists e, cd_observed d = Some e /\ ce_status e = SUPPORTED /\ direct e = true)
   <-> exists e, cp_observed p !! c = Some e /\ direct e = true /\ ce_status e = SUPPORTED /\
       (t < cp_expires_at p /\ ce_expires_at e <= t \/ cp_expires_at p <= t /\ t < ce_expires_at e)).
Proof.
  intros H. pose proof (resolve_name _ _ _ _ H) as Hc.
  unfold resolve, capability_name in H. rewrite Hc in H. cbn in H. injection H as <-.
  unfold fresh_item, is_current.
  destruct (cp_observed p !! c) as [e|]; cbn.
  - destruct (Z.leb_spec (cp_expires_at p) t), (Z.ltb_spec t (ce_expires_at e)); cbn;
      destruct (direct e) eqn:Hd; cbn; destruct (ce_status e) eqn:Hs; cbn; split; split; try done;
      first [ intros (e' & [= <-] & ? & ? & ?); first [congruence|lia]
            | intros [? (e' & [= <-] & ? & ?)]; first [congruence|exists e; repeat split; (done || lia || tauto)]
            | intros [_ (e' & [=] & ?)]
            | intros (e' & [= <-] & ? & ? & ?); first [congruence|lia|split; [done|by exists e]]
            | intros _; exists e; repeat split; (done || lia || tauto)
            | intros [_ (e' & [=] & _)] ].
  - destruct (cp_expires_at p <=? t); cbn; naive_solver.
Qed.

Lemma capability_clear p pass t name d n :
  resolve pass name t = Ok d ->
  clear (capability_note p name d n) <-> clear n /\ capability_ok p pass t name.
Proof.
  intros H. destruct (resolve_stale pass name t d H) as [Hs Hu]. unfold capability_note.
  assert (cd_status d <> SUPPORTED -> capability_ok p pass t name <->
    po_allow_stale_evidence p && negb (po_protected p) = true /\ cd_status d = UNKNOWN /\
    (exists e, cd_observed d = Some e /\ ce_status e = SUPPORTED /\ direct e = true) /\
    contains ("capability " +:+ repr name +:+ " allowed by explicit stale mode") "unsupported" = false) as Hok.
  { intros Hn. rewrite andb_true_iff, negb_true_iff. split.
    - intros (e & He & Hd & Hss & [Ht | (Ha & Hp & Ht & Hc)]).
      + destruct Hn. apply Hs. exists e. tauto.
      + destruct Hu as [_ Hu]. destruct Hu as [? ?]; [|tauto].
        exists e. repeat split; try done.
        destruct (Z.lt_ge_cases t (cp_expires_at pass)), (Z.lt_ge_cases t (ce_expires_at e));
          [|lia..]. destruct Hn. apply Hs. by exists e.
    - intros ([Ha Hp] & Hst & He & Hc). destruct Hu as [Hu _]. destruct Hu as (e & ? & ? & ? & ?); [done|].
      exists e. repeat split; try done. right. repeat split; try done. lia. }
  destruct (cd_status d) eqn:Ed.
  - assert (capability_ok p pass t name); [|tauto].
    destruct (proj1 Hs eq_refl) as (e & ? & ? & ? & ?). exists e. tauto.
  - rewrite clear_note, Hok by done. rewrite !contains_suffix by (by repeat apply contains_suffix). split; [by intros (_ & _ & ?)|by intros (_ & _ & ? & _)].
  - rewrite Hok by done. clear Hs Hu Hok. destruct (cd_observed d) as [e|].
    + destruct (_ && (_ && direct e)) eqn:E; rewrite clear_note.
      * rewrite !(andb_true_iff _ (_ && _)), (andb_true_iff _ (direct e)), bool_decide_eq_true in E.
        split; [|tauto]. intros (Hn & _ & Hc). split; [done|]. split; [tauto|]. split; [done|].
        split; [exists e; tauto|done].
      * split; [by intros (_ & [=] & _)|]. intros (_ & Ha & _ & (e' & [= <-] & Hs & Hd) & _).
        by rewrite Ha, bool_decide_true, Hd in E.
    + rewrite andb_false_r, clear_note. split; [by intros (_ & [=] & _)|].
      by intros (_ & _ & _ & (e & [=] & _) & _).
Qed.

Lemma existsb_decide {A} (P : A -> Prop) `{!forall x, Decision (P x)} xs :
  existsb (fun x => bool_decide (P x)) xs = true <-> exists x, x ∈ xs /\ P x.
Proof.
  rewrite existsb_exists. setoid_rewrite bool_decide_eq_true. by setoid_rewrite list_elem_of_In.
Qed.

Lemma note_clear n reason remedy : ~ clear (note reason remedy true false n).
Proof. rewrite clear_note. by intros (_ & [=] & _). Qed.

Lemma capabilities_clear p c t n n' :
  capability_notes p c t n = Ok n' ->
  clear n' <-> clear n /\ (po_required_capabilities p <> ∅ -> exists pass, pc_passport c = Some pass /\
    (forall r, effective_route c = Some r -> cp_route_identity pass = r) /\
    forall name, name ∈ po_required_capabilities p -> capability_ok p pass t name).
Proof.
  unfold capability_notes. case_bool_decide as He; [intros [= <-]; tauto|].
  destruct (pc_passport c) as [pass|].
  - intros H. apply fold_clear with (P := capability_ok p pass t) in H.
    + rewrite H, clear_note_if, Forall_forall by (by right). unfold sorted_set.
      setoid_rewrite elem_of_sort_str. setoid_rewrite elem_of_elements. split.
      * intros [[Hc Hr] Ha]. split; [done|]. intros _. exists pass. split; [done|]. split; [|done].
        intros r Er. rewrite Er in Hr. case_bool_decide; [done|]. by specialize (Hr eq_refl).
      * intros [Hc Ha]. destruct (Ha He) as (pass' & [= <-] & Hr & Hcap). split; [|done]. split; [done|].
        destruct (effective_route c) as [r|]; [|done]. by rewrite bool_decide_true by (by apply Hr).
    + intros name m m' (d & Hd & [= <-])%bind_ok. unfold lift_err in Hd.
      destruct (resolve pass name t) eqn:Er; [|done]. injection Hd as ->. by apply capability_clear.
  - intros [= <-]. split; [by intros ?%note_clear|]. intros [_ Ha]. by destruct (Ha He) as (? & [=] & _).
Qed.

Lemma runtime_note_clear t rps name ds n :
  map_result (fun rp => resolve_runtime rp name t) rps = Ok ds ->
  clear (runtime_note name ds n) <-> clear n /\ runtime_ok t rps name.
Proof.
  intros Hds. unfold runtime_note, runtime_ok.
  destruct (existsb _ ds) eqn:Eu.
  - rewrite clear_note, contains_suffix by (by repeat apply contains_suffix).
    split; [by intros (_ & _ & ?)|]. intros (_ & ds' & Hds' & _ & Hno). rewrite Hds in Hds'.
    injection Hds' as <-. apply existsb_decide in Eu as (d & Hd & Hs). by destruct (Hno d).
  - rewrite clear_note_if by (by right). apply and_iff_compat_l.
    assert (forall d, d ∈ ds -> rc_status d <> UNSUPPORTED) as Hno.
    { intros d Hd Hs. assert (false = true); [|done]. rewrite <- Eu. apply existsb_decide. by exists d. }
    clear Eu. destruct (existsb _ ds) eqn:Es; cbn.
    + apply existsb_decide in Es. split; [|done]. intros _. by exists ds.
    + split; [by intros H; discriminate (H eq_refl)|]. intros (ds' & Hds' & Hex & _). rewrite Hds in Hds'. injection Hds' as <-.
      apply (existsb_decide (fun d => rc_status d = SUPPORTED)) in Hex. congruence.
Qed.

Lemma map_lift_err {E F A B} (g : E -> F) (f : A -> result E B) l ys :
  map_result (fun x => lift_err g (f x)) l = Ok ys -> map_result f l = Ok ys.
Proof.
  rewrite !map_result_ok. intros H. eapply Forall2_impl; [done|]. cbn. intros x y.
  unfold lift_err. by destruct (f x) as [|]; intros [= ->].
Qed.

Lemma runtimes_clear p c t n n' :
  runtime_notes p c t n = Ok n' ->
  clear n' <-> clear n /\ (po_required_runtime p <> ∅ -> runtime_matches c <> [] /\
    forall name, name ∈ po_required_runtime p -> runtime_ok t (runtime_matches c) name).
Proof.
  unfold runtime_notes. case_bool_decide as He; [intros [= <-]; tauto|].
  case_bool_decide as Hr.
  - intros [= <-]. split; [by intros ?%note_clear|]. intros [_ Ha]. destruct (Ha He) as [Hm _].
    unfold runtime_matches in Hm. by rewrite Hr in Hm.
  - intros H. apply fold_clear with (P := runtime_ok t (runtime_matches c)) in H.
    + rewrite H, clear_note_if, Forall_forall by (by right). unfold sorted_set.
      setoid_rewrite elem_of_sort_str. setoid_rewrite elem_of_elements. case_bool_decide; naive_solver.
    + intros name m m' (ds & Hds & [= <-])%bind_ok. apply map_lift_err in Hds. by apply runtime_note_clear.
Qed.

Lemma restricted_spec sha256_hex p c :
  restricted_ok sha256_hex p c = true <-> (po_restricted_data p = true ->
    exists r, effective_route c = Some r /\ route_key sha256_hex r ∈ po_restricted_data_routes p).
Proof.
  unfold restricted_ok, candidate_key. destruct (po_restricted_data p); cbn; [|done].
  destruct (effective_route c) as [r|]; cbn; rewrite ?bool_decide_eq_true; naive_solver.
Qed.

Lemma note_if_mem (b : bool) reason remedy n :
  clear (note_if b reason remedy true n) <-> clear n /\ b = false.
Proof. rewrite clear_note_if by (by right). destruct b; naive_solver. Qed.

Lemma allow_exact sha256_hex p c t d : evaluate_at sha256_hex p c t = Ok d ->
  admitted d = true <-> admissible sha256_hex p c t.
Proof.
  unfold evaluate_at, admitted. intros H.
  assert (admissible sha256_hex p c t -> existsb refuses (n_reasons (identity_notes p c)) = false /\
    restricted_ok sha256_hex p c = true /\ mem (pc_availability c) DENIED_STATES = false /\
    String.eqb (pc_availability c) "degraded" && negb (po_allow_degraded p && negb (po_protected p)) = false)
    as Hpass.
  { intros [Hi Hr [Ha Hd] _ _]. apply identity_clear in Hi as [Hi _]. apply restricted_spec in Hr.
    apply not_elem_of_app in Ha as [Ha _]. split_and!; [done..|by apply mem_false|].
    destruct (String.eqb_spec (pc_availability c) "degraded") as [E|]; [|done].
    by destruct (Hd E) as [-> ->]. }
  destruct (existsb refuses _) eqn:Ei.
  { injection H as <-. split; [done|]. by intros [? _]%Hpass. }
  destruct (restricted_ok sha256_hex p c) eqn:Er; cbn [negb] in H; cycle 1.
  { injection H as <-. split; [done|]. by intros (_ & ? & _)%Hpass. }
  destruct (mem _ DENIED_STATES) eqn:Ed.
  { injection H as <-. split; [done|]. by intros (_ & _ & ? & _)%Hpass. }
  destruct (_ && negb (_ && _)) eqn:Eg.
  { injection H as <-. split; [done|]. by intros (_ & _ & _ & ?)%Hpass. }
  clear Hpass. apply bind_ok in H as (n1 & H1 & H). apply bind_ok in H as (n2 & H2 & H).
  apply capabilities_clear in H1. apply runtimes_clear in H2. rewrite note_if_mem in H1.
  trans (clear n2).
  - destruct (existsb _ (n_reasons n2)) eqn:E1; [injection H as <-|destruct (n_unknown n2) eqn:E2; injection H as <-];
      unfold clear; rewrite ?E1, ?E2; cbn; rewrite bool_decide_eq_true; naive_solver.
  - rewrite H2, H1. pose proof (identity_clear p c) as Hi. rewrite Ei in Hi. apply mem_false in Ed.
    rewrite mem_false. pose proof (proj1 (restricted_spec _ _ _) Er) as Er'. split.
    + intros [[[Hc Hu] Hcap] Hrun]. constructor; [tauto|done| |done|done]. split.
      * rewrite not_elem_of_app. done.
      * intros E. rewrite E in Eg. cbn in Eg. destruct (po_allow_degraded p), (po_protected p); done.
    + intros [Hid _ [Ha _] Hcap Hrun]. rewrite not_elem_of_app in Ha. tauto.
Qed.

(** The names that a policy asks of a passport are capability names. *)
Definition names_ok (p : Policy) : Prop :=
  forall name, name ∈ po_required_capabilities p ∪ po_required_runtime p -> is_capability_name name = true.

Lemma fold_total {E A B} (f : B -> A -> result E A) xs a :
  (forall x b, x ∈ xs -> exists b', f x b = Ok b') -> exists b, fold_result f xs a = Ok b.
Proof.
  revert a. induction xs as [|x xs IH]; intros a Hf; cbn; [by exists a|].
  destruct (Hf x a) as [b Hb]; [by left|]. rewrite Hb. apply IH. intros y c Hy. apply Hf. by right.
Qed.

Lemma map_total {E A B} (f : A -> result E B) xs :
  (forall x, x ∈ xs -> exists y, f x = Ok y) -> exists ys, map_result f xs = Ok ys.
Proof.
  induction xs as [|x xs IH]; intros Hf; cbn; [by eexists|].
  destruct (Hf x) as [y Hy]; [by left|]. destruct IH as [ys IH]; [intros z Hz; apply Hf; by right|].
  rewrite Hy, IH. by eexists.
Qed.

Lemma evaluate_total sha256_hex p c t : names_ok p -> exists d, evaluate_at sha256_hex p c t = Ok d.
Proof.
  intros Hn. unfold evaluate_at. repeat (case_match; [by eexists|]).
  assert (forall n, exists n', capability_notes p c t n = Ok n') as Hc.
  { intros n. unfold capability_notes. case_bool_decide; [by eexists|]. case_match; [|by eexists].
    apply fold_total. intros name m Hname. unfold sorted_set in Hname.
    rewrite elem_of_sort_str, elem_of_elements in Hname.
    edestruct (resolve_total c0 name t) as [d ->]; [apply Hn; set_solver|]. by eexists. }
  assert (forall n, exists n', runtime_notes p c t n = Ok n') as Hr.
  { intros n. unfold runtime_notes. do 2 (case_bool_decide; [by eexists|]). apply fold_total.
    intros name m Hname. unfold sorted_set in Hname. rewrite elem_of_sort_str, elem_of_elements in Hname.
    destruct (map_total (fun rp => lift_err RuntimeFailure (resolve_runtime rp name t)) (runtime_matches c))
      as [ds ->]; [|by eexists].
    intros rp _. unfold resolve_runtime, capability_name. rewrite Hn by set_solver. by eexists. }
  edestruct Hc as [n1 ->]. cbn. edestruct Hr as [n2 ->]. by eexists.
Qed.

(** * Order of policies *)

(** [tighter p q]: every constraint of [q] is one of [p]. An empty set of allowed
    providers or protocols allows all. *)
Definition narrower (a b : gset string) : Prop := b = ∅ \/ a <> ∅ /\ a ⊆ b.

Record tighter (p q : Policy) : Prop := {
  ti_capabilities : po_required_capabilities q ⊆ po_required_capabilities p;
  ti_runtime : po_required_runtime q ⊆ po_required_runtime p;
  ti_denied : po_denied_providers q ⊆ po_denied_providers p;
  ti_allowed : narrower (po_allowed_providers p) (po_allowed_providers q);
  ti_protocols : narrower (po_allowed_protocols p) (po_allowed_protocols q);
  ti_routes : po_restricted_data_routes p ⊆ po_restricted_data_routes q;
  ti_restricted : po_restricted_data q = true -> po_restricted_data p = true;
  ti_protected : po_protected q = true -> po_protected p = true;
  ti_degraded : po_allow_degraded p = true -> po_allow_degraded q = true;
  ti_stale : po_allow_stale_evidence p = true -> po_allow_stale_evidence q = true;
  ti_identity : po_require_route_identity q = true -> po_require_route_identity p = true;
  ti_actual : po_require_actual_identity q = true -> po_require_actual_identity p = true
}.

#[global] Instance narrower_preorder : PreOrder narrower.
Proof.
  split; unfold narrower.
  - intros s. destruct (decide (s = ∅)); [by left|by right].
  - intros a b c [-> | [Ha Hab]] [-> | [Hb Hbc]]; try (by left). right. split; [done|]. by trans b.
Qed.

#[global] Instance tighter_preorder : PreOrder tighter.
Proof.
  split.
  - intros p. by constructor.
  - intros p q r [] []. constructor; auto; by etrans.
Qed.

Lemma narrower_in a b x : narrower a b -> a = ∅ \/ x ∈ a -> b = ∅ \/ x ∈ b.
Proof. unfold narrower. set_solver. Qed.

Lemma not_true_mono (a b : bool) : (b = true -> a = true) -> a = false -> b = false.
Proof. destruct a, b; intuition congruence. Qed.

Lemma admissible_tighter sha256_hex p q c t :
  tighter p q -> admissible sha256_hex p c t -> admissible sha256_hex q c t.
Proof.
  intros T [[Hi Hp Hr Ha] Hd [Hav Hdeg] Hc Hrun]. constructor.
  - constructor; intros.
    + apply Hi. by apply T.
    + destruct (Hp r) as [Hn Hin]; [done|]. split; [pose proof (ti_denied _ _ T); set_solver|].
      by apply (narrower_in _ _ _ (ti_allowed _ _ T)).
    + by apply (narrower_in _ _ _ (ti_protocols _ _ T)), Hr.
    + by apply Ha; apply T.
  - intros H. destruct Hd as (r & Hr' & Hk); [by apply T|]. exists r. split; [done|].
    by apply (ti_routes _ _ T).
  - split; [done|]. intros E. destruct (Hdeg E). split; [by apply T|].
    by eapply not_true_mono; [apply T|].
  - pose proof (ti_capabilities _ _ T). intros Hne. destruct Hc as (pass & ? & ? & Hcap); [set_solver|].
    exists pass. split; [done|]. split; [done|]. intros name Hname.
    destruct (Hcap name) as (e & ? & ? & ? & Hs); [set_solver|]. exists e. split_and!; [done..|].
    destruct Hs as [| (? & ? & ? & ?)]; [by left|right]. split_and!; [by apply T| |done..].
    by eapply not_true_mono; [apply T|].
  - pose proof (ti_runtime _ _ T). intros Hne. destruct Hrun as [? Hok]; [set_solver|].
    split; [done|]. intros name Hname. apply Hok. set_solver.
Qed.

(** * Order of the eligible *)

Lemma cost_leb_total a b : cost_leb a b = true \/ cost_leb b a = true.
Proof.
  destruct a as [x|], b as [y|]; cbn; [|by left|by right|by left]. rewrite !Qle_bool_iff.
  destruct (Qlt_le_dec x y); [left; by apply Qlt_le_weak|by right].
Qed.

Lemma cost_leb_trans a b c : cost_leb a b = true -> cost_leb b c = true -> cost_leb a c = true.
Proof.
  destruct a as [x|], b as [y|], c as [z|]; cbn; try done. rewrite !Qle_bool_iff. apply Qle_trans.
Qed.

Lemma before_spec ranking a b : before ranking a b = true <->
  (score ranking b < score ranking a)%Q \/
  (score ranking a == score ranking b)%Q /\ cost_leb (pc_cost a) (pc_cost b) = true /\
  (cost_leb (pc_cost b) (pc_cost a) = false \/
   str_leb (pc_candidate_id a) (pc_candidate_id b) = true).
Proof.
  unfold before. destruct (Qeq_bool _ _) eqn:E.
  - apply Qeq_bool_iff in E. rewrite E. pose proof (Qlt_irrefl (score ranking b)).
    pose proof (Qeq_refl (score ranking b)).
    destruct (cost_leb (pc_cost a) (pc_cost b)); [|intuition congruence].
    rewrite orb_true_iff, negb_true_iff. tauto.
  - apply Qeq_bool_neq in E. rewrite Qltb_spec. intuition.
Qed.

Lemma before_total ranking a b : before ranking a b = true \/ before ranking b a = true.
Proof.
  rewrite !before_spec. destruct (Q_dec (score ranking a) (score ranking b)) as [[?|?]|E]; [tauto..|].
  pose proof (cost_leb_total (pc_cost a) (pc_cost b)).
  pose proof (str_leb_total (pc_candidate_id a) (pc_candidate_id b)).
  assert (score ranking b == score ranking a)%Q by (by symmetry).
  destruct (cost_leb (pc_cost a) (pc_cost b)), (cost_leb (pc_cost b) (pc_cost a)); intuition congruence.
Qed.

Lemma before_trans ranking a b c :
  before ranking a b = true -> before ranking b c = true -> before ranking a c = true.
Proof.
  rewrite !before_spec.
  intros [Hab | (Hab & Cab & Iab)] [Hbc | (Hbc & Cbc & Ibc)]; [left; lra..|right].
  split; [lra|]. pose proof (cost_leb_trans _ _ _ Cab Cbc) as Cac. split; [done|].
  destruct (cost_leb (pc_cost c) (pc_cost a)) eqn:Cca; [right|by left].
  pose proof (cost_leb_trans _ _ _ Cca Cab). pose proof (cost_leb_trans _ _ _ Cbc Cca).
  destruct Iab, Ibc; try congruence. by eapply str_leb_trans.
Qed.

Lemma before_antisym ranking a b :
  before ranking a b = true -> before ranking b a = true -> pc_candidate_id a = pc_candidate_id b.
Proof.
  rewrite !before_spec. intros [Hab | (Hab & Cab & Iab)] [Hba | (Hba & Cba & Iba)]; [lra..|].
  destruct Iab, Iba; try congruence. by apply str_leb_antisym.
Qed.

(** The eligible, before their order. *)
Definition allowed (cs : list PolicyCandidate) (ds : list PolicyDecision) : list PolicyCandidate :=
  map fst (List.filter (fun cd => admitted cd.2) (combine cs ds)).

Lemma allowed_filter {E} (f : PolicyCandidate -> result E PolicyDecision) cs ds :
  map_result f cs = Ok ds ->
  allowed cs ds = List.filter (fun c => match f c with Ok d => admitted d | Err _ => false end) cs.
Proof.
  rewrite map_result_ok. unfold allowed. induction 1 as [|c d cs ds Hd _ IH]; cbn; [done|].
  rewrite Hd. destruct (admitted d); cbn; by rewrite IH.
Qed.

Section compile_facts.
Context (sha256_hex : string -> string) (p : Policy).

Lemma compile_ok cs at_ ranking e : compile sha256_hex p cs at_ ranking = Ok e ->
  base.NoDup (map pc_candidate_id cs) /\ dt_off at_ <> None /\
  map_result (fun c => evaluate_at sha256_hex p c (instant at_)) cs = Ok (ec_decisions e) /\
  ec_eligible e = sort_by (before ranking) (allowed cs (ec_decisions e)).
Proof.
  unfold compile, utc_at. destruct (dt_off at_); [|done].
  intros (t & [= <-] & (u & Hu%raise_if_ok & (ds & Hds & [= <-])%bind_ok)%bind_ok)%bind_ok.
  by rewrite negb_false_iff, bool_decide_eq_true in Hu.
Qed.

Lemma compile_eligible cs at_ ranking e c : compile sha256_hex p cs at_ ranking = Ok e ->
  c ∈ ec_eligible e <-> c ∈ cs /\ admissible sha256_hex p c (instant at_).
Proof.
  intros (_ & _ & Hds & ->)%compile_ok. rewrite elem_of_sort_by, (allowed_filter _ _ _ Hds), elem_of_lfilter.
  apply map_result_ok in Hds.
  assert (c ∈ cs -> exists d, evaluate_at sha256_hex p c (instant at_) = Ok d) as Hd.
  { intros [i Hi]%list_elem_of_lookup_1. destruct (Forall2_lookup_l _ _ _ _ _ Hds Hi) as (d & _ & H).
    by exists d. }
  split; intros [Hc Ha]; (split; [done|]); destruct (Hd Hc) as [d E]; rewrite E in *;
    by apply (allow_exact _ _ _ _ _ E).
Qed.

Lemma compile_nodup cs at_ ranking e : compile sha256_hex p cs at_ ranking = Ok e ->
  base.NoDup (map pc_candidate_id (ec_eligible e)).
Proof.
  intros (Hn & _ & Hds & ->)%compile_ok. rewrite sort_by_perm, (allowed_filter _ _ _ Hds).
  eapply nodup_map_sub; [done| |].
  - apply NoDup_ListNoDup, List.NoDup_filter, NoDup_ListNoDup. by eapply NoDup_fmap_1.
  - intros c. by intros [? _]%elem_of_lfilter.
Qed.

Lemma compile_perm cs cs' at_ ranking ranking' e e' : cs' ≡ₚ cs ->
  compile sha256_hex p cs at_ ranking = Ok e -> compile sha256_hex p cs' at_ ranking' = Ok e' ->
  ec_eligible e' ≡ₚ ec_eligible e.
Proof.
  intros Hp H H'. apply list.NoDup_Permutation.
  - eapply NoDup_fmap_1. by eapply compile_nodup.
  - eapply NoDup_fmap_1. by eapply compile_nodup.
  - intros c. rewrite (compile_eligible _ _ _ _ _ H), (compile_eligible _ _ _ _ _ H'). by rewrite Hp.
Qed.

Lemma compile_unique cs cs' at_ ranking e e' : cs' ≡ₚ cs ->
  compile sha256_hex p cs at_ ranking = Ok e -> compile sha256_hex p cs' at_ ranking = Ok e' ->
  ec_eligible e' = ec_eligible e.
Proof.
  intros Hp H H'. pose proof (compile_perm _ _ _ _ _ _ _ Hp H H') as Hperm.
  eapply StronglySorted_unique_strong; [| | |done].
  - intros a b Ha Hb Hab Hba. eapply nodup_map_inj; [by apply (compile_nodup _ _ _ _ H)| |done|].
    + by rewrite <- Hperm.
    + exact (before_antisym ranking a b Hab Hba).
  - destruct (compile_ok _ _ _ _ H') as (_ & _ & _ & ->).
    apply sort_by_sorted; [apply before_total|apply before_trans].
  - destruct (compile_ok _ _ _ _ H) as (_ & _ & _ & ->).
    apply sort_by_sorted; [apply before_total|apply before_trans].
Qed.
End compile_facts.


(** * Policies as payloads *)

Record policy_wf (p : Policy) : Prop := {
  wf_id : strip (po_policy_id p) <> "";
  wf_version : strip (po_version p) <> "";
  wf_names : Forall (fun s => has_blank s = false)
    [po_required_capabilities p; po_required_runtime p; po_allowed_providers p;
     po_denied_providers p; po_allowed_protocols p; po_restricted_data_routes p];
  wf_stale : po_protected p && po_allow_stale_evidence p = false;
  wf_attempts : 1 <= po_max_attempts p
}.

Lemma blank_false s : blank s = false <-> strip s <> "".
Proof. unfold blank. apply String.eqb_neq. Qed.

Lemma policy_spec p q : policy p = Ok q <-> q = p /\ policy_wf p.
Proof.
  unfold policy. split.
  - intros H. inv_ok. split; [done|]. constructor; try (by apply blank_false); [by repeat constructor|done|].
    lia.
  - intros [-> [Hi Hv Hn Hs Ha]]. apply blank_false in Hi, Hv. rewrite Hi, Hv, Hs.
    repeat (apply Forall_cons in Hn as [-> Hn]). by rewrite (proj2 (Z.ltb_ge _ _) Ha).
Qed.

Lemma strings_roundtrip name s : has_blank s = false -> strings_of name (set_list s) = Ok s.
Proof.
  intros Hb. unfold strings_of, set_list.
  assert (forall l, existsb (fun x => match x with JList _ | JObj _ => true | _ => false end) (map JStr l) = false)
    as -> by (induction l; [done|assumption]).
  rewrite nonblanks_ok.
  - cbn. f_equal. apply set_eq. intros x.
    by rewrite elem_of_list_to_set, elem_of_sort_str, elem_of_elements.
  - rewrite sort_str_perm. apply Forall_forall. intros x Hx. apply blank_false.
    by apply (existsb_false _ _ _ Hb).
Qed.

Ltac get_strings k := get_field k; rewrite strings_roundtrip by done; next_field.
Ltac get_flag k := get_field k; cbn [bool_of]; next_field.

Lemma policy_roundtrip p : policy_wf p -> policy_from_dict (policy_to_dict p) = Ok p.
Proof.
  intros [Hi Hv Hn Hs Ha]. repeat (apply Forall_cons in Hn as [? Hn]).
  unfold policy_from_dict, policy_to_dict, obj.
  match goal with |- context [raise_if (negb ?b) ?e] =>
    rewrite (proj2 (raise_if_ok (negb b) e tt)) by reflexivity; next_field end.
  get_strings "required_capabilities". get_strings "required_runtime_capabilities".
  get_strings "allowed_providers". get_strings "denied_providers". get_strings "allowed_protocols".
  get_strings "restricted_data_routes".
  get_field "schema_version". cbn [schema_is_1]. next_field.
  get_field "policy_id". rewrite nonblank_ok by done. next_field.
  get_field "version". rewrite nonblank_ok by done. next_field.
  get_flag "restricted_data".
  match goal with |- context [raise_if (?a && ?b) ?e] =>
    rewrite (proj2 (raise_if_ok (a && b) e tt)); [next_field|] end.
  2: { change (truthy (JBool (po_protected p)) && truthy (JBool (po_allow_stale_evidence p)) = false).
       by destruct (po_protected p), (po_allow_stale_evidence p). }
  get_field "max_attempts". rewrite (proj2 (Z.ltb_ge _ _) Ha). next_field.
  get_flag "protected".
  get_flag "allow_degraded".
  get_flag "allow_stale_evidence".
  get_flag "require_route_identity".
  get_flag "require_actual_identity".
  get_flag "require_fresh_evidence".
  get_flag "allow_fallback".
  get_flag "retry_safe_required".
  get_flag "require_idempotency_key". by destruct p.
Qed.

Lemma strings_constructed ms k s : field_or ∅ (strings_of k) ms k = Ok s -> has_blank s = false.
Proof.
  intros [->|(v & _ & H)]%field_or_inv; [done|]. unfold strings_of in H.
  assert (forall msg vs, (l ← nonblanks (E := policy_exn) msg vs; Ok (list_to_set l : gset string)) = Ok s -> has_blank s = false)
    as Hi.
  { intros msg vs (l & Hl%nonblanks_inv & [= <-])%bind_ok. unfold has_blank.
    apply not_true_is_false. intros (x & Hx & Hb)%existsb_exists.
    apply list_elem_of_In, elem_of_elements, elem_of_list_to_set in Hx.
    rewrite Forall_forall in Hl. by apply Hl, blank_false in Hx; rewrite Hb in Hx. }
  destruct v; try done; [|by eapply Hi]. case_match; [done|]. by eapply Hi.
Qed.

Lemma flag_truthy ms k d b :
  field_or d (bool_of k) ms k = Ok b -> d = false ->
  match dict_get k ms with Some v => truthy v | None => false end = b.
Proof. unfold field_or. destruct (dict_get k ms) as [[]|]; cbn; intros [= <-]; try done. by destruct b0. Qed.

Lemma policy_constructed v p : policy_from_dict v = Ok p -> policy_wf p.
Proof.
  unfold policy_from_dict. destruct v as [| | | | | |ms]; try done. intros H. inv_ok. subst p.
  constructor; cbn.
  - by eapply defaulted_filled; [|done].
  - by eapply defaulted_filled; [|done].
  - repeat constructor; by eapply strings_constructed.
  - by repeat (erewrite flag_truthy in * by done).
  - match goal with H : field_or 3 _ _ _ = Ok _ |- _ => apply field_or_inv in H as [->|(w & _ & Hw)] end; [done|].
    destruct w; try done. destruct (Z.ltb_spec z 1); [done|]. by injection Hw as <-.
Qed.

(** * Tasks *)

Definition protected_task (f : TaskFacts) : bool :=
  tf_production_impact f || tf_destructive_operation f ||
  mem (tf_risk f) ["high"; "critical"] || mem (tf_privacy f) ["restricted"; "trusted_upstream"].

Lemma task_policy f id version routes p : compile_policy f id version routes = Ok p ->
  po_protected p = protected_task f /\ po_require_actual_identity p = protected_task f /\
  po_restricted_data p = mem (tf_privacy f) ["restricted"; "trusted_upstream"] /\
  po_restricted_data_routes p = routes /\ po_allow_stale_evidence p = false /\
  (forall name, name ∈ po_required_capabilities p <->
     name ∈ match tf_required_capabilities f with [] => tf_capabilities f | l => l end).
Proof.
  unfold compile_policy. intros [-> _]%policy_spec. cbn. split_and!; [done..|].
  intros name. apply elem_of_list_to_set.
Qed.

(** * Properties *)

(** C11: a candidate is allowed exactly when every hard predicate of the policy holds of
    it: its identities, its data handling, its availability, and for every capability
    asked of the route or of its tools direct supporting evidence that has not expired;
    in the [allow_stale_evidence] mode of a policy that is not protected, either the
    passport or the evidence of a route's capability may have expired, not both. What a
    policy allows, every policy with fewer constraints allows too. *)
Theorem allow_iff sha256_hex p c at_ d :
  evaluate sha256_hex p c at_ = Ok d ->
  (admitted d = true <-> admissible sha256_hex p c (instant at_)) /\
  forall q d', tighter q p -> evaluate sha256_hex q c at_ = Ok d' -> admitted d' = true -> admitted d = true.
Proof.
  unfold evaluate, utc_at. destruct (dt_off at_); [|done]. cbn [mbind result_mbind result_bind].
  intros H. pose proof (allow_exact _ _ _ _ _ H) as Hd. split; [done|].
  intros q d' Ht H' Hd'. apply Hd. apply (admissible_tighter _ _ _ _ _ Ht).
  by apply (allow_exact _ _ _ _ _ H').
Qed.

(** C12: compiling aware of the time, with distinct candidates and capability names that
    exist, always gives a result; the eligible are exactly the candidates that satisfy
    the policy, best first. A ranking orders them and never adds or removes one, and
    neither the membership nor the order depends on how the candidates came in. *)
Theorem compile_exact sha256_hex p cs at_ ranking :
  dt_off at_ <> None -> base.NoDup (map pc_candidate_id cs) -> names_ok p ->
  exists e, compile sha256_hex p cs at_ ranking = Ok e /\
  (forall c, c ∈ ec_eligible e <-> c ∈ cs /\ admissible sha256_hex p c (instant at_)) /\
  base.NoDup (map pc_candidate_id (ec_eligible e)) /\
  StronglySorted (fun a b => before ranking a b = true) (ec_eligible e) /\
  forall cs' ranking' e', cs' ≡ₚ cs -> compile sha256_hex p cs' at_ ranking' = Ok e' ->
    ec_eligible e' ≡ₚ ec_eligible e /\ (ranking' = ranking -> ec_eligible e' = ec_eligible e).
Proof.
  intros Ho Hn Hnames.
  assert (exists e, compile sha256_hex p cs at_ ranking = Ok e) as [e He].
  { unfold compile, utc_at. destruct (dt_off at_); [|done]. cbn [mbind result_mbind result_bind].
    rewrite bool_decide_true by done. cbn.
    destruct (map_total (fun c => evaluate_at sha256_hex p c (instant at_)) cs) as [ds ->]; [|by eexists].
    intros c _. by apply evaluate_total. }
  exists e. split; [done|]. split; [by intros c; apply (compile_eligible _ _ _ _ _ _ _ He)|].
  split; [by eapply compile_nodup|]. split.
  - destruct (compile_ok _ _ _ _ _ _ He) as (_ & _ & _ & ->).
    apply sort_by_sorted; [apply before_total|apply before_trans].
  - intros cs' ranking' e' Hp H'. split; [by eapply compile_perm|]. intros ->. by eapply compile_unique.
Qed.

(** A route serves a protected task only when the identity that actually serves it is
    known, it is not degraded, and every capability the task asks for is supported by
    direct current evidence about exactly that route; a restricted task's route is also
    one of the reviewed routes. *)
Theorem protected_tasks sha256_hex f id version routes p c at_ d :
  compile_policy f id version routes = Ok p -> protected_task f = true ->
  evaluate sha256_hex p c at_ = Ok d -> admitted d = true ->
  exists r, pc_actual_route c = Some r /\ is_Some (pc_route_identity c) /\
  pc_availability c ∉ ("degraded" :: DENIED_STATES ++ UNKNOWN_STATES) /\
  (forall name, name ∈ match tf_required_capabilities f with [] => tf_capabilities f | l => l end ->
     exists pass, pc_passport c = Some pass /\ cp_route_identity pass = r /\
     instant at_ < cp_expires_at pass /\ witnesses (instant at_) (cp_observed pass !! name)) /\
  (mem (tf_privacy f) ["restricted"; "trusted_upstream"] = true -> route_key sha256_hex r ∈ routes).
Proof.
  intros Hp Ht H Ha. pose proof Hp as Hp'. apply task_policy in Hp as (Hprot & Hact & Hres & Hroutes & Hst & Hcap).
  unfold compile_policy in Hp'. apply policy_spec in Hp' as [Ep _].
  unfold evaluate, utc_at in H. destruct (dt_off at_); [|done]. cbn [mbind result_mbind result_bind] in H.
  apply (allow_exact _ _ _ _ _ H) in Ha as [[Hi _ _ Hactual] Hr [Hav Hdeg] Hc _].
  rewrite Hprot, Hact in Hactual. destruct (Hactual Ht Ht) as [r Er]. exists r. split; [done|].
  unfold effective_route in Hr, Hc. rewrite Er in Hr, Hc. split; [apply Hi; by rewrite Ep|]. split_and!.
  - rewrite not_elem_of_cons. split; [|done]. intros E. destruct (Hdeg E). congruence.
  - intros name Hname. apply Hcap in Hname. destruct Hc as (pass & ? & Hid & Hok); [set_solver|].
    exists pass. split; [done|]. split; [by apply Hid|].
    destruct (Hok name Hname) as (e & He & ? & ? & [[? ?] | [? _]]); [|congruence].
    split; [done|]. unfold witnesses. eauto.
  - rewrite Hres, Hroutes in Hr. intros Hm. by destruct (Hr Hm) as (r' & [= <-] & ?).
Qed.

(** A policy written out and read back is the same policy, by the current reader and by
    the one of legacy payloads; whatever the reader accepts satisfies the constructor's
    checks. *)
Theorem policy_exact :
  (forall p q, policy p = Ok q -> policy_from_dict (policy_to_dict q) = Ok q /\ migrate (policy_to_dict q) = Ok q) /\
  (forall v p, policy_from_dict v = Ok p -> policy p = Ok p).
Proof.
  split.
  - intros p q [-> Hw]%policy_spec. pose proof (policy_roundtrip p Hw) as H. split; [done|].
    trans (policy_from_dict (policy_to_dict p)); [reflexivity|done].
  - intros v p H%policy_constructed. by apply policy_spec.
Qed.

(** * Samples *)

Module PolicySample.

Definition sha (s : string) : string := s.

Definition passport : option CapabilityPassport :=
  match PassportSample.passport with Ok p => Some p | Err _ => None end.

Definition route : option RouteIdentity := cp_route_identity <$> passport.

Definition day (d : Z) : datetime := {| dt_wall := PassportSample.midnight 1 d; dt_off := Some 0 |}.

Definition candidate (id : string) (cost : option Q) : PolicyCandidate :=
  {| pc_candidate_id := id; pc_route_identity := route; pc_passport := passport;
     pc_runtime_passports := []; pc_availability := "healthy"; pc_evidence_ids := [];
     pc_cost := cost; pc_quality_score := None; pc_requested_alias := None;
     pc_selected_route := None; pc_actual_route := route |}.

(** The defaults of [Policy], with capabilities and denied providers. *)
Definition plain (required denied : list string) (stale : bool) : Policy :=
  {| po_policy_id := "default"; po_version := POLICY_VERSION;
     po_required_capabilities := list_to_set required; po_required_runtime := ∅;
     po_allowed_providers := ∅; po_denied_providers := list_to_set denied;
     po_allowed_protocols := ∅; po_protected := false; po_allow_degraded := false;
     po_allow_stale_evidence := stale; po_require_route_identity := true;
     po_require_actual_identity := true; po_require_fresh_evidence := true;
     po_allow_fallback := true; po_retry_safe_required := true;
     po_require_idempotency_key := true; po_max_attempts := 3;
     po_restricted_data_routes := ∅; po_restricted_data := false |}.

Definition task : TaskFacts :=
  {| tf_production_impact := true; tf_destructive_operation := false; tf_risk := "low";
     tf_privacy := "public"; tf_required_capabilities := ["tools"]; tf_capabilities := [];
     tf_degraded_mode_policy := "fail" |}.

Definition state_of (r : result policy_exn PolicyDecision) : option DecisionState :=
  match r with Ok d => Some (pd_decision d) | Err _ => None end.
End PolicySample.

Import PolicySample.

Lemma allow_iff_witness :
  exists d, evaluate sha (plain [] [] true) (candidate "a" None) (day 2) = Ok d /\ admitted d = true /\
  admissible sha (plain [] [] true) (candidate "a" None) (instant (day 2)).
Proof.
  destruct (evaluate sha (plain [] [] true) (candidate "a" None) (day 2)) as [d|] eqn:E;
    [|vm_compute in E; discriminate].
  destruct (evaluate sha (plain ["tools"] ["x"] false) (candidate "a" None) (day 2)) as [d'|] eqn:E';
    [|vm_compute in E'; discriminate].
  destruct (allow_iff sha (plain [] [] true) (candidate "a" None) (day 2) d E) as [Hi Ht].
  assert (admitted d = true) as Ha.
  { apply (Ht (plain ["tools"] ["x"] false) d'); [|exact E'|vm_compute in E'; injection E' as <-; reflexivity].
    constructor; cbn; first [done | apply empty_subseteq | by left]. }
  exists d. exact (conj eq_refl (conj Ha (proj1 Hi Ha))).
Defined.

Lemma compile_exact_witness :
  exists e, compile sha (plain ["tools"] [] false)
    [candidate "a" None; candidate "b" (Some 1)%Q] (day 2) [] = Ok e /\
  map pc_candidate_id (ec_eligible e) = ["b"; "a"] /\
  StronglySorted (fun a b => before [] a b = true) (ec_eligible e).
Proof.
  destruct (compile_exact sha (plain ["tools"] [] false)
    [candidate "a" None; candidate "b" (Some 1)%Q] (day 2) []) as (e & He & _ & _ & Hs & _).
  - discriminate.
  - vm_compute. repeat constructor; set_solver.
  - intros name H. cbn in H. assert (name = "tools") as -> by set_solver. reflexivity.
  - exists e. refine (conj He (conj _ Hs)). vm_compute in He. injection He as <-. reflexivity.
Defined.

Lemma protected_tasks_witness :
  exists p d, compile_policy task "task" POLICY_VERSION ∅ = Ok p /\
  evaluate sha p (candidate "a" None) (day 2) = Ok d /\ admitted d = true /\
  pc_availability (candidate "a" None) ∉ ("degraded" :: DENIED_STATES ++ UNKNOWN_STATES).
Proof.
  destruct (compile_policy task "task" POLICY_VERSION ∅) as [p|] eqn:Ep; [|vm_compute in Ep; discriminate].
  destruct (evaluate sha p (candidate "a" None) (day 2)) as [d|] eqn:E;
    [|vm_compute in Ep; injection Ep as <-; vm_compute in E; discriminate].
  assert (Ha : admitted d = true)
    by (vm_compute in Ep; injection Ep as <-; vm_compute in E; injection E as <-; reflexivity).
  destruct (protected_tasks sha task "task" POLICY_VERSION ∅ p _ _ d Ep eq_refl E Ha) as (r & _ & _ & Hav & _).
  exists p, d. exact (conj eq_refl (conj E (conj Ha Hav))).
Defined.

(** * What the model shows *)

Definition set_fresh (b : bool) (p : Policy) : Policy :=
  {| po_policy_id := po_policy_id p; po_version := po_version p;
     po_required_capabilities := po_required_capabilities p;
     po_required_runtime := po_required_runtime p;
     po_allowed_providers := po_allowed_providers p; po_denied_providers := po_denied_providers p;
     po_allowed_protocols := po_allowed_protocols p; po_protected := po_protected p;
     po_allow_degraded := po_allow_degraded p; po_allow_stale_evidence := po_allow_stale_evidence p;
     po_require_route_identity := po_require_route_identity p;
     po_require_actual_identity := po_require_actual_identity p; po_require_fresh_evidence := b;
     po_allow_fallback := po_allow_fallback p; po_retry_safe_required := po_retry_safe_required p;
     po_require_idempotency_key := po_require_idempotency_key p;
     po_max_attempts := po_max_attempts p; po_restricted_data_routes := po_restricted_data_routes p;
     po_restricted_data := po_restricted_data p |}.

(** [require_fresh_evidence] decides nothing. *)
Theorem fresh_flag_ignored sha256_hex p b c t :
  evaluate_at sha256_hex (set_fresh b p) c t = evaluate_at sha256_hex p c t.
Proof. reflexivity. Qed.

(** The provider that actually serves is not looked at: a candidate is allowed while a
    denied provider serves it. *)
Theorem denied_provider_serves : forall r, route = Some r ->
  let served := {| ri_gateway := ri_gateway r; ri_provider := "bad"; ri_connection := ri_connection r;
    ri_endpoint := ri_endpoint r; ri_protocol := ri_protocol r; ri_model_id := ri_model_id r;
    ri_model_revision := ri_model_revision r; ri_account_class := ri_account_class r;
    ri_endpoint_class := ri_endpoint_class r; ri_transformation_chain := ri_transformation_chain r;
    ri_fallback_chain := ri_fallback_chain r |} in
  state_of (evaluate sha (plain [] ["bad"] false)
    {| pc_candidate_id := "a"; pc_route_identity := Some r; pc_passport := None;
       pc_runtime_passports := []; pc_availability := "healthy"; pc_evidence_ids := [];
       pc_cost := None; pc_quality_score := None; pc_requested_alias := None;
       pc_selected_route := None; pc_actual_route := Some served |} (day 2)) = Some ALLOW.
Proof. intros r E. vm_compute in E. injection E as <-. vm_compute. reflexivity. Qed.

(** A policy accepts a name that is no capability name; evaluating a candidate with a
    passport then raises. *)
Theorem bad_name_raises :
  let p := plain ["Tools"] [] false in
  policy p = Ok p /\ state_of (evaluate sha p (candidate "a" None) (day 2)) = None.
Proof. vm_compute. split; reflexivity. Qed.

(** Missing evidence leaves a candidate undecided, unless the capability's own name
    contains the word that [evaluate] looks for in its reasons. *)
Theorem name_decides :
  state_of (evaluate sha (plain ["calls"] [] false) (candidate "a" None) (day 2)) = Some UNDECIDED /\
  state_of (evaluate sha (plain ["unsupported_calls"] [] false) (candidate "a" None) (day 2)) = Some DENY.
Proof. vm_compute. split; reflexivity. Qed.
