(* ===== verification/Transitions.v ===== *)
(** [verdict/transitions.py]: the graph of retries, fallbacks and resumptions of one
    execution, compiled from a policy. The policy's own compilation is in Policy. *)
From Stdlib Require Import Ascii.
From stdpp Require Import sorting.
From S2P Require Import Prelude PyStr Time PyNum Json JsonDict Passports Policy.

(** [TransitionValidationError], [StopIteration] of a [next] that finds nothing, and what
    compiling the policy raises. *)
Inductive transition_exn :=
| TransitionValidationError (msg : string)
| StopIteration
| PolicyFailed (e : policy_exn).

Inductive ByteState := PRE_BYTES | BYTES_EMITTED.

(** [UNCLEAR] is [RetrySafety.UNKNOWN]. *)
Inductive RetrySafety := SAFE | UNSAFE | UNCLEAR.

Inductive TransitionKind := INITIAL | RETRY | FALLBACK | CHECKPOINT_RESUME | TERMINAL.

#[global] Instance byte_state_eq_dec : EqDecision ByteState.
Proof. solve_decision. Defined.
#[global] Instance retry_safety_eq_dec : EqDecision RetrySafety.
Proof. solve_decision. Defined.
#[global] Instance transition_kind_eq_dec : EqDecision TransitionKind.
Proof. solve_decision. Defined.

Definition byte_state_of (s : string) : option ByteState :=
  dict_get s [("pre_bytes", PRE_BYTES); ("bytes_emitted", BYTES_EMITTED)].

Definition retry_safety_of (s : string) : option RetrySafety :=
  dict_get s [("safe", SAFE); ("unsafe", UNSAFE); ("unknown", UNCLEAR)].

Definition retry_safety_value (s : RetrySafety) : string :=
  match s with SAFE => "safe" | UNSAFE => "unsafe" | UNCLEAR => "unknown" end.

Record ExecutionContext := {
  cx_request_id : string;
  cx_idempotency_key : option string;
  cx_retry_safety : RetrySafety;
  cx_byte_state : ByteState;
  cx_checkpoint_verified : bool;
  cx_terminal : bool;
  cx_attempt : Z;
  cx_protocol : option string
}.

Definition member_of {A} (name : string) (o : option A) : result transition_exn A :=
  match o with Some a => Ok a | None => Err (TransitionValidationError (name +:+ " is invalid")) end.

(** [ExecutionContext(...)] with its [__post_init__]; a member of the two enums is its value. *)
Definition execution_context (request_id : string) (key : option string)
    (retry_safety byte_state : string) (checkpoint terminal : bool) (attempt : Z)
    (protocol : option string) : result transition_exn ExecutionContext :=
  _ ← raise_if (blank request_id) (TransitionValidationError "request_id must be non-empty");
  safety ← member_of "retry_safety" (retry_safety_of (lower retry_safety));
  bytes ← member_of "byte_state" (byte_state_of (lower byte_state));
  _ ← raise_if (match protocol with Some s => blank s | None => false end)
        (TransitionValidationError "protocol must be non-empty when supplied");
  _ ← raise_if (attempt <? 0) (TransitionValidationError "attempt must be a non-negative integer");
  Ok {| cx_request_id := request_id; cx_idempotency_key := key; cx_retry_safety := safety;
        cx_byte_state := bytes; cx_checkpoint_verified := checkpoint; cx_terminal := terminal;
        cx_attempt := attempt; cx_protocol := protocol |}.

Record TransitionEdge := {
  te_source : string;
  te_target : string;
  te_kind : TransitionKind;
  te_legal : bool;
  te_reasons : list string;
  te_route_key : option string;
  te_evidence_ids : list string
}.

Record TransitionGraph := {
  tg_policy_version : string;
  tg_request_id : string;
  tg_byte_state : ByteState;
  tg_nodes : list string;
  tg_edges : list TransitionEdge;
  tg_compilation : EligibilityCompilation;
  tg_compiled_at : Z
}.

(** [legal_edges], [forbidden_edges] *)
Definition legal_edges (g : TransitionGraph) : list TransitionEdge :=
  List.filter te_legal (tg_edges g).
Definition forbidden_edges (g : TransitionGraph) : list TransitionEdge :=
  List.filter (fun e => negb (te_legal e)) (tg_edges g).

(** The strings of a list whose condition holds. *)
Definition listed (cs : list (bool * string)) : list string :=
  map snd (List.filter fst cs).

(** [reasons or [default]] *)
Definition or_reason (d : string) (rs : list string) : list string :=
  match rs with [] => [d] | _ => rs end.

(** The candidates whose id was not seen before. *)
Fixpoint first_seen (seen : list string) (cs : list PolicyCandidate) : list PolicyCandidate :=
  match cs with
  | [] => []
  | c :: cs => if mem (pc_candidate_id c) seen then first_seen seen cs
               else c :: first_seen (pc_candidate_id c :: seen) cs
  end.

(** [next(item for item in decisions if item.candidate_id == id)] *)
Definition decision_for (id : string) (ds : list PolicyDecision) : result transition_exn PolicyDecision :=
  match List.find (fun d => String.eqb (pd_candidate_id d) id) ds with
  | Some d => Ok d
  | None => Err StopIteration
  end.

(** Whether a string that may be missing is true. *)
Definition present (o : option string) : bool :=
  match o with Some s => negb (String.eqb s "") | None => false end.

Section compile.
(** [hashlib.sha256(...).hexdigest()]; [self.policy] *)
Context (sha256_hex : string -> string) (p : Policy).

(** [candidate.route_key == current.route_key] *)
Definition same_route (a b : PolicyCandidate) : bool :=
  bool_decide (candidate_key sha256_hex a = candidate_key sha256_hex b).

(** [_pre_byte_legality] *)
Definition pre_byte_legality (current target : PolicyCandidate) (ctx : ExecutionContext)
    (d : PolicyDecision) : bool * list string :=
  let safe := bool_decide (cx_retry_safety ctx = SAFE) in
  let reasons := listed
    [(negb (admitted d), "target route is " +:+ decision_value (pd_decision d));
     (negb safe, "retry safety is " +:+ retry_safety_value (cx_retry_safety ctx));
     (po_retry_safe_required p && negb safe, "policy requires an explicitly retry-safe request");
     (negb (po_allow_fallback p) && negb (same_route target current), "fallback is disabled by policy");
     (po_require_idempotency_key p && negb (present (cx_idempotency_key ctx)),
      "idempotency key is required");
     (match cx_protocol ctx, pc_route_identity target with
      | Some proto, Some r => negb (String.eqb proto "") && negb (String.eqb (ri_protocol r) proto)
      | _, _ => false
      end, "target protocol does not match the request");
     (po_max_attempts p <=? cx_attempt ctx, "maximum attempt count reached")] in
  (bool_decide (reasons = []), or_reason "pre-byte retry/fallback is legal" reasons).

(** The conditions of an edge after bytes were emitted. *)
Definition post_byte_legality (current target : PolicyCandidate) (ctx : ExecutionContext)
    (d : PolicyDecision) : bool * list string :=
  (cx_checkpoint_verified ctx && same_route target current && admitted d,
   or_reason "verified same-route checkpoint/resume" (listed
     [(negb (cx_checkpoint_verified ctx), "verified checkpoint/resume is required after bytes");
      (negb (same_route target current), "model switching after bytes is forbidden");
      (negb (admitted d), "target route is not policy-eligible")])).

(** [_edge] *)
Definition edge (source : PolicyCandidate) (target : string) (kind : TransitionKind) (legal : bool)
    (reasons : list string) (target_candidate : option PolicyCandidate) : TransitionEdge :=
  let selected := default source target_candidate in
  {| te_source := pc_candidate_id source; te_target := target; te_kind := kind; te_legal := legal;
     te_reasons := dedupe_from [] reasons; te_route_key := candidate_key sha256_hex selected;
     te_evidence_ids := pc_evidence_ids selected |}.

(** The edge to another candidate. *)
Definition edge_to (current : PolicyCandidate) (ctx : ExecutionContext) (ds : list PolicyDecision)
    (c : PolicyCandidate) : result transition_exn TransitionEdge :=
  d ← decision_for (pc_candidate_id c) ds;
  let '(kind, (legal, reasons)) :=
    match cx_byte_state ctx with
    | BYTES_EMITTED => (CHECKPOINT_RESUME, post_byte_legality current c ctx d)
    | PRE_BYTES => (if same_route c current then RETRY else FALLBACK,
                    pre_byte_legality current c ctx d)
    end in
  Ok (edge current (pc_candidate_id c) kind legal reasons (Some c)).

(** The candidates other than the current one. *)
Definition others (current : PolicyCandidate) (all : list PolicyCandidate) : list PolicyCandidate :=
  List.filter (fun c => negb (String.eqb (pc_candidate_id c) (pc_candidate_id current))) all.

Definition by_id (a b : PolicyCandidate) : bool := str_leb (pc_candidate_id a) (pc_candidate_id b).

(** The edges of the graph. *)
Definition edges_of (current : PolicyCandidate) (all : list PolicyCandidate) (ctx : ExecutionContext)
    (ds : list PolicyDecision) (d : PolicyDecision) : result transition_exn (list TransitionEdge) :=
  if cx_terminal ctx then
    Ok [{| te_source := pc_candidate_id current; te_target := "terminal"; te_kind := TERMINAL;
           te_legal := true; te_reasons := ["execution is already terminal"];
           te_route_key := candidate_key sha256_hex current;
           te_evidence_ids := pc_evidence_ids current |}]
  else if negb (admitted d) then
    Ok [edge current "terminal" TERMINAL false
          (("current route is " +:+ decision_value (pd_decision d)) :: pd_reasons d) None]
  else
    es ← map_result (edge_to current ctx ds) (others current (sort_by by_id all));
    Ok (edge current (pc_candidate_id current) INITIAL true ["initial attempt is policy-eligible"] None
        :: es).

(** [TransitionCompiler.compile] *)
Definition transitions (current : PolicyCandidate) (candidates : list PolicyCandidate)
    (ctx : ExecutionContext) (at_ : datetime) : result transition_exn TransitionGraph :=
  t ← match dt_off at_ with
      | Some _ => Ok (instant at_)
      | None => Err (TransitionValidationError "transition timestamps must be timezone-aware")
      end;
  let all := first_seen [] (current :: candidates) in
  compilation ← lift_err PolicyFailed (compile sha256_hex p all (utc t) []);
  d ← decision_for (pc_candidate_id current) (ec_decisions compilation);
  es ← edges_of current all ctx (ec_decisions compilation) d;
  Ok {| tg_policy_version := po_version p; tg_request_id := cx_request_id ctx;
        tg_byte_state := cx_byte_state ctx;
        tg_nodes := pc_candidate_id current ::
          sort_str (map pc_candidate_id (others current all)) ++ ["terminal"];
        tg_edges := es; tg_compilation := compilation; tg_compiled_at := t |}.
End compile.

(** * What an execution may do next *)

(** The moves to another candidate that the graph offers: the policy allows the target,
    and before bytes the request is safe to repeat, has its key and attempts left; after
    bytes only a verified checkpoint continues, on the same route. *)
Record may_move (sha256_hex : string -> string) (p : Policy) (current c : PolicyCandidate)
    (ctx : ExecutionContext) (t : Z) : Prop := {
  mv_running : cx_terminal ctx = false;
  mv_current : admissible sha256_hex p current t;
  mv_target : admissible sha256_hex p c t;
  mv_after : cx_byte_state ctx = BYTES_EMITTED ->
    cx_checkpoint_verified ctx = true /\
    candidate_key sha256_hex c = candidate_key sha256_hex current;
  mv_safe : cx_byte_state ctx = PRE_BYTES -> cx_retry_safety ctx = SAFE;
  mv_key : cx_byte_state ctx = PRE_BYTES -> po_require_idempotency_key p = true ->
    exists k, cx_idempotency_key ctx = Some k /\ k <> "";
  mv_attempts : cx_byte_state ctx = PRE_BYTES -> cx_attempt ctx < po_max_attempts p;
  mv_fallback : cx_byte_state ctx = PRE_BYTES -> po_allow_fallback p = false ->
    candidate_key sha256_hex c = candidate_key sha256_hex current;
  mv_protocol proto r : cx_byte_state ctx = PRE_BYTES -> cx_protocol ctx = Some proto -> proto <> "" ->
    pc_route_identity c = Some r -> ri_protocol r = proto
}.

(** * Lemmas *)

Lemma first_seen_ids seen cs :
  base.NoDup (map pc_candidate_id (first_seen seen cs)) /\
  forall c, c ∈ first_seen seen cs -> c ∈ cs /\ pc_candidate_id c ∉ seen.
Proof.
  revert seen. induction cs as [|c cs IH]; intros seen; cbn [first_seen].
  - split; [constructor|]. by intros c ?%not_elem_of_nil.
  - destruct (mem (pc_candidate_id c) seen) eqn:E.
    + destruct (IH seen) as [Hn Hc]. split; [done|]. intros d Hd. destruct (Hc d Hd). split; [by right|done].
    + apply mem_false in E. destruct (IH (pc_candidate_id c :: seen)) as [Hn Hc]. split.
      * cbn. constructor; [|done]. intros (d & Ed & Hd)%list_elem_of_fmap.
        destruct (Hc d Hd) as [_ Hs]. rewrite Ed in Hs. set_solver.
      * intros d [->|Hd]%elem_of_cons; [by split; [left|]|]. destruct (Hc d Hd). set_solver.
Qed.

Lemma evaluate_id sha256_hex p c t d :
  evaluate_at sha256_hex p c t = Ok d -> pd_candidate_id d = pc_candidate_id c.
Proof.
  unfold evaluate_at. intros H. repeat (case_match; [by injection H as <-|]). inv_ok.
  repeat case_match; by subst d.
Qed.

Lemma decision_for_ok sha256_hex p cs t ds c :
  map_result (fun c => evaluate_at sha256_hex p c t) cs = Ok ds ->
  base.NoDup (map pc_candidate_id cs) -> c ∈ cs ->
  exists d, decision_for (pc_candidate_id c) ds = Ok d /\ evaluate_at sha256_hex p c t = Ok d.
Proof.
  rewrite map_result_ok. unfold decision_for. induction 1 as [|x d cs ds Hd Hds IH]; cbn [map List.find].
  - by intros _ ?%not_elem_of_nil.
  - intros [Hx Hn]%NoDup_cons Hc. rewrite (evaluate_id _ _ _ _ _ Hd).
    apply elem_of_cons in Hc as [<-|Hc]; [rewrite String.eqb_refl; eauto|].
    destruct (String.eqb_spec (pc_candidate_id x) (pc_candidate_id c)) as [E|_]; [|by apply IH].
    destruct Hx. rewrite E. apply list_elem_of_fmap. eauto.
Qed.

Lemma listed_nil cs : listed cs = [] <-> Forall (fun c => c.1 = false) cs.
Proof.
  unfold listed. induction cs as [|[[] r] cs IH]; cbn; [by rewrite Forall_nil|rewrite Forall_cons..].
  - split; [done|by intros [? _]].
  - rewrite IH. naive_solver.
Qed.

Lemma same_route_spec sha256_hex a b :
  same_route sha256_hex a b = true <-> candidate_key sha256_hex a = candidate_key sha256_hex b.
Proof. apply bool_decide_eq_true. Qed.

Lemma present_spec o : present o = true <-> exists k, o = Some k /\ k <> "".
Proof.
  destruct o as [s|]; cbn; [|naive_solver]. rewrite negb_true_iff, String.eqb_neq. naive_solver.
Qed.

Lemma negb_and_false (a b : bool) : a && negb b = false <-> (a = true -> b = true).
Proof. destruct a, b; naive_solver. Qed.

Lemma pre_byte_spec sha256_hex p current c ctx d :
  (pre_byte_legality sha256_hex p current c ctx d).1 = true <->
  admitted d = true /\ cx_retry_safety ctx = SAFE /\
  (po_allow_fallback p = false -> candidate_key sha256_hex c = candidate_key sha256_hex current) /\
  (po_require_idempotency_key p = true -> exists k, cx_idempotency_key ctx = Some k /\ k <> "") /\
  (forall proto r, cx_protocol ctx = Some proto -> proto <> "" ->
     pc_route_identity c = Some r -> ri_protocol r = proto) /\
  cx_attempt ctx < po_max_attempts p.
Proof.
  unfold pre_byte_legality. cbn [fst]. rewrite bool_decide_eq_true, listed_nil, !Forall_cons, Forall_nil.
  cbn [fst]. rewrite !negb_and_false, !negb_false_iff, bool_decide_eq_true, negb_true_iff, same_route_spec,
    present_spec, Z.leb_gt.
  assert (match cx_protocol ctx with
          | Some proto => match pc_route_identity c with
                          | Some r => negb (String.eqb proto "") && negb (String.eqb (ri_protocol r) proto)
                          | None => false end
          | None => false end = false <->
    forall proto r, cx_protocol ctx = Some proto -> proto <> "" ->
     pc_route_identity c = Some r -> ri_protocol r = proto) as ->; [|naive_solver].
  destruct (cx_protocol ctx) as [proto|]; [|by split].
  destruct (pc_route_identity c) as [r|]; [|by split].
  rewrite negb_and_false, negb_true_iff, String.eqb_neq, String.eqb_eq. naive_solver.
Qed.

Lemma post_byte_spec sha256_hex current c ctx d :
  (post_byte_legality sha256_hex current c ctx d).1 = true <->
  admitted d = true /\ cx_checkpoint_verified ctx = true /\
  candidate_key sha256_hex c = candidate_key sha256_hex current.
Proof. cbn. rewrite !andb_true_iff, same_route_spec. tauto. Qed.

(** The kind of the edge to another candidate. *)
Definition move_kind (sha256_hex : string -> string) (current c : PolicyCandidate) (ctx : ExecutionContext)
    : TransitionKind :=
  match cx_byte_state ctx with
  | BYTES_EMITTED => CHECKPOINT_RESUME
  | PRE_BYTES => if same_route sha256_hex c current then RETRY else FALLBACK
  end.

Lemma edge_to_spec sha256_hex p current ctx cs ds t c :
  map_result (fun c => evaluate_at sha256_hex p c t) cs = Ok ds ->
  base.NoDup (map pc_candidate_id cs) -> c ∈ cs ->
  cx_terminal ctx = false -> admissible sha256_hex p current t ->
  exists e, edge_to sha256_hex p current ctx ds c = Ok e /\
  te_source e = pc_candidate_id current /\ te_target e = pc_candidate_id c /\
  te_kind e = move_kind sha256_hex current c ctx /\
  te_route_key e = candidate_key sha256_hex c /\
  (te_legal e = true <-> may_move sha256_hex p current c ctx t).
Proof.
  intros Hds Hn Hc Ht Hcur. destruct (decision_for_ok _ _ _ _ _ _ Hds Hn Hc) as (d & Hd & Hev).
  unfold edge_to, move_kind. rewrite Hd. cbn [mbind result_mbind result_bind].
  pose proof (allow_exact _ _ _ _ _ Hev) as Ha.
  destruct (cx_byte_state ctx) eqn:Eb.
  - pose proof (pre_byte_spec sha256_hex p current c ctx d) as Hp.
    destruct (pre_byte_legality sha256_hex p current c ctx d) as [legal reasons].
    eexists; split; [done|]. cbn in *. split_and!; [done..|]. rewrite Hp, Ha. split.
    + intros (? & ? & ? & ? & ? & ?). constructor; intros; try done; try congruence; eauto.
    + intros []. split_and!; eauto.
  - pose proof (post_byte_spec sha256_hex current c ctx d) as Hp.
    destruct (post_byte_legality sha256_hex current c ctx d) as [legal reasons].
    eexists; split; [done|]. cbn in *. split_and!; [done..|]. rewrite Hp, Ha. split.
    + intros (? & ? & ?). constructor; intros; try done; congruence.
    + intros []. naive_solver.
Qed.

Lemma Forall2_impl_in {A B} (P Q : A -> B -> Prop) l k :
  Forall2 P l k -> (forall x y, x ∈ l -> P x y -> Q x y) -> Forall2 Q l k.
Proof.
  induction 1 as [|x y l k Hxy _ IH]; intros H; constructor.
  - apply H; [by left|done].
  - apply IH. intros a b Ha. apply H. by right.
Qed.

Section graph.
Context (sha256_hex : string -> string) (p : Policy) (current : PolicyCandidate)
  (candidates : list PolicyCandidate) (ctx : ExecutionContext) (at_ : datetime).

Let all := first_seen [] (current :: candidates).

Lemma all_nodup : base.NoDup (map pc_candidate_id all).
Proof. apply first_seen_ids. Qed.

Lemma current_in : current ∈ all.
Proof. unfold all. cbn. by left. Qed.

Lemma all_in c : c ∈ all -> c = current \/ c ∈ candidates.
Proof. intros H%first_seen_ids. destruct H as [H _]. by apply elem_of_cons in H. Qed.

Lemma instant_utc t : instant (utc t) = t.
Proof. unfold instant. cbn. lia. Qed.

Lemma transitions_inv g : transitions sha256_hex p current candidates ctx at_ = Ok g ->
  exists ds d, map_result (fun c => evaluate_at sha256_hex p c (instant at_)) all = Ok ds /\
  evaluate_at sha256_hex p current (instant at_) = Ok d /\
  edges_of sha256_hex p current all ctx ds d = Ok (tg_edges g) /\
  tg_nodes g = pc_candidate_id current :: sort_str (map pc_candidate_id (others current all)) ++ ["terminal"].
Proof.
  unfold transitions. destruct (dt_off at_); [|done]. fold all.
  intros (t & [= <-] & (comp & Hc & (d & Hd & (es & Hes & [= <-])%bind_ok)%bind_ok)%bind_ok)%bind_ok.
  unfold lift_err in Hc. destruct (compile _ _ _ _ _) as [comp'|] eqn:Ec; [|done]. injection Hc as ->.
  apply compile_ok in Ec as (_ & _ & Hds & _). rewrite instant_utc in Hds.
  destruct (decision_for_ok _ _ _ _ _ _ Hds all_nodup current_in) as (d' & Hd' & Hev).
  rewrite Hd in Hd'. injection Hd' as <-. by exists (ec_decisions comp), d.
Qed.

Lemma elem_of_others c l : c ∈ others current l <-> c ∈ l /\ pc_candidate_id c <> pc_candidate_id current.
Proof. unfold others. by rewrite elem_of_lfilter, negb_true_iff, String.eqb_neq. Qed.

(** The edges, when the current candidate may run. *)
Lemma edges_running g :
  transitions sha256_hex p current candidates ctx at_ = Ok g ->
  cx_terminal ctx = false -> admissible sha256_hex p current (instant at_) ->
  exists es, tg_edges g = edge sha256_hex current (pc_candidate_id current) INITIAL true
                            ["initial attempt is policy-eligible"] None :: es /\
  Forall2 (fun c e => te_source e = pc_candidate_id current /\ te_target e = pc_candidate_id c /\
             te_kind e = move_kind sha256_hex current c ctx /\
             te_route_key e = candidate_key sha256_hex c /\
             (te_legal e = true <-> may_move sha256_hex p current c ctx (instant at_)))
    (others current (sort_by by_id all)) es.
Proof.
  intros (ds & d & Hds & Hd & Hes & _)%transitions_inv Ht Hcur. unfold edges_of in Hes.
  rewrite Ht, (proj2 (allow_exact _ _ _ _ _ Hd) Hcur) in Hes. cbn [negb] in Hes.
  apply bind_ok in Hes as (es & He%map_result_ok & [= <-]). exists es. split; [done|].
  eapply Forall2_impl_in; [exact He|]. intros c e Hc Hce.
  apply elem_of_others in Hc as [Hc _]. rewrite elem_of_sort_by in Hc.
  destruct (edge_to_spec _ _ _ ctx _ _ _ c Hds all_nodup Hc Ht Hcur) as (e' & He' & Hspec).
  rewrite Hce in He'. by injection He' as ->.
Qed.

Lemma edges_stopped g :
  transitions sha256_hex p current candidates ctx at_ = Ok g ->
  ~ (cx_terminal ctx = false /\ admissible sha256_hex p current (instant at_)) ->
  exists e, tg_edges g = [e] /\ te_kind e = TERMINAL /\ te_target e = "terminal" /\
  te_source e = pc_candidate_id current /\ te_legal e = cx_terminal ctx.
Proof.
  intros (ds & d & Hds & Hd & Hes & _)%transitions_inv Hn. unfold edges_of in Hes.
  destruct (cx_terminal ctx) eqn:Ht; [injection Hes as <-; by eexists|].
  destruct (admitted d) eqn:Ha; [|injection Hes as <-; by eexists].
  destruct Hn. split; [done|]. by apply (allow_exact _ _ _ _ _ Hd).
Qed.
End graph.

Lemma sorted_filter {A} (R : A -> A -> Prop) f l : StronglySorted R l -> StronglySorted R (List.filter f l).
Proof.
  induction 1 as [|x l _ IH Hx]; cbn; [constructor|]. destruct (f x); [|done]. constructor; [done|].
  rewrite Forall_forall in *. intros y [Hy _]%elem_of_lfilter. auto.
Qed.

Lemma sorted_map {A B} (f : A -> B) (R : B -> B -> Prop) l :
  StronglySorted (fun a b => R (f a) (f b)) l -> StronglySorted R (map f l).
Proof.
  induction 1 as [|x l _ IH Hx]; cbn; constructor; [done|]. by apply Forall_map.
Qed.

Lemma others_perm current l k : l ≡ₚ k -> others current l ≡ₚ others current k.
Proof.
  unfold others. induction 1 as [|x l k _ IH|x y l|l k m _ IH1 _ IH2]; cbn; [done| | |by etrans].
  - by destruct (negb _); rewrite IH.
  - destruct (negb _), (negb _); done || apply Permutation_swap.
Qed.

(** Sorting candidates by their ids sorts the ids. *)
Lemma sorted_ids current l :
  map pc_candidate_id (others current (sort_by by_id l)) = sort_str (map pc_candidate_id (others current l)).
Proof.
  apply (StronglySorted_unique_strong (fun a b => str_leb a b = true)).
  - intros a b _ _. apply str_leb_antisym.
  - apply sorted_map, sorted_filter, (sort_by_sorted by_id).
    + intros a b. apply str_leb_total.
    + intros a b c. apply str_leb_trans.
  - apply sort_by_sorted; [apply str_leb_total|apply str_leb_trans].
  - rewrite sort_str_perm. apply Permutation_map, others_perm, sort_by_perm.
Qed.

Lemma seen_complete seen cs c : c ∈ cs -> pc_candidate_id c ∉ seen ->
  exists d, d ∈ first_seen seen cs /\ pc_candidate_id d = pc_candidate_id c.
Proof.
  revert seen. induction cs as [|x cs IH]; intros seen Hc Hs; cbn; [by apply not_elem_of_nil in Hc|].
  destruct (mem (pc_candidate_id x) seen) eqn:E.
  - apply mem_spec in E. apply elem_of_cons in Hc as [<-|Hc]; [done|]. by apply IH.
  - apply elem_of_cons in Hc as [<-|Hc]; [exists c; split; [by left|done]|].
    destruct (decide (pc_candidate_id c = pc_candidate_id x)) as [Ex|Ex]; [exists x; split; [by left|done]|].
    destruct (IH (pc_candidate_id x :: seen) Hc) as (d & Hd & Ed); [set_solver|].
    exists d. split; [by right|done].
Qed.

Lemma transitions_total sha256_hex p current candidates ctx at_ :
  dt_off at_ <> None -> names_ok p -> exists g, transitions sha256_hex p current candidates ctx at_ = Ok g.
Proof.
  intros Ho Hnames. unfold transitions. destruct (dt_off at_); [|done]. cbn [mbind result_mbind result_bind].
  pose proof (all_nodup current candidates) as Hn. pose proof (current_in current candidates) as Hcur.
  set (all := first_seen [] (current :: candidates)) in *. unfold compile. cbn [utc_at utc dt_off].
  cbn [mbind result_mbind result_bind].
  rewrite bool_decide_true by done. cbn [negb raise_if mbind result_mbind result_bind].
  destruct (map_total (fun c => evaluate_at sha256_hex p c (instant (utc (instant at_)))) all) as [ds Hds].
  { intros c _. by apply evaluate_total. }
  rewrite Hds. cbn [mbind result_mbind result_bind lift_err ec_decisions].
  destruct (decision_for_ok _ _ _ _ _ _ Hds Hn Hcur) as (d & -> & _).
  cbn [mbind result_mbind result_bind]. unfold edges_of.
  destruct (cx_terminal ctx); [by eexists|]. destruct (negb (admitted d)); [by eexists|].
  assert (exists es, map_result (edge_to sha256_hex p current ctx ds) (others current (sort_by by_id all)) = Ok es)
    as [es ->]; [|by eexists].
  apply map_total. intros c [Hc _]%elem_of_others. rewrite elem_of_sort_by in Hc.
  destruct (decision_for_ok _ _ _ _ _ _ Hds Hn Hc) as (dc & Hdc & _). unfold edge_to. rewrite Hdc.
  cbn [mbind result_mbind result_bind]. repeat case_match; by eexists.
Qed.

(** * Properties *)

(** The compiler of transitions always answers, and its graph has a node for every
    candidate, the current one first and the others in the order of their ids, each once,
    and the terminal one; while the current route may run there is exactly one edge to
    each candidate and none elsewhere, otherwise a single edge to the terminal node. *)
Theorem graph_complete sha256_hex p current candidates ctx at_ :
  dt_off at_ <> None -> names_ok p ->
  exists g ids, transitions sha256_hex p current candidates ctx at_ = Ok g /\
  tg_nodes g = ids ++ ["terminal"] /\ base.NoDup ids /\ head ids = Some (pc_candidate_id current) /\
  (forall id, id ∈ ids <-> exists c, c ∈ current :: candidates /\ pc_candidate_id c = id) /\
  (cx_terminal ctx = false -> admissible sha256_hex p current (instant at_) ->
   map te_target (tg_edges g) = ids) /\
  (~ (cx_terminal ctx = false /\ admissible sha256_hex p current (instant at_)) ->
   map te_target (tg_edges g) = ["terminal"]).
Proof.
  intros Ho Hn. destruct (transitions_total sha256_hex p current candidates ctx at_ Ho Hn) as [g Hg].
  pose proof (transitions_inv _ _ _ _ _ _ _ Hg) as (_ & _ & _ & _ & _ & Hnodes).
  pose proof (all_nodup current candidates) as Hnd. pose proof (current_in current candidates) as Hcur.
  eexists g, _. split; [done|]. split; [by rewrite Hnodes, app_comm_cons|]. split_and!.
  - constructor.
    + rewrite elem_of_sort_str. intros (c & E & [_ Hc]%elem_of_others)%list_elem_of_fmap. congruence.
    + rewrite sort_str_perm. apply nodup_map_sub with (first_seen [] (current :: candidates)); [done| |].
      * apply NoDup_ListNoDup, List.NoDup_filter, NoDup_ListNoDup. by eapply NoDup_fmap_1.
      * by intros c [? _]%elem_of_others.
  - done.
  - intros id. rewrite elem_of_cons, elem_of_sort_str, list_elem_of_fmap. split.
    + intros [-> | (c & -> & [Hc _]%elem_of_others)]; [by exists current; split; [left|]|].
      exists c. split; [|done]. by apply first_seen_ids in Hc as [? _].
    + intros (c & Hc & <-). destruct (decide (pc_candidate_id c = pc_candidate_id current)) as [|Hne]; [by left|].
      right. destruct (seen_complete [] _ c Hc) as (d & Hd & Ed); [by apply not_elem_of_nil|].
      exists d. split; [done|]. apply elem_of_others. split; [done|congruence].
  - intros Ht Hadm. destruct (edges_running _ _ _ _ _ _ _ Hg Ht Hadm) as (es & -> & He).
    cbn [map]. f_equal. rewrite <- sorted_ids. clear - He.
    induction He as [|c e cs es (_ & Hc & _) _ IH]; cbn; [done|]. by rewrite Hc, IH.
  - intros Hs. by destruct (edges_stopped _ _ _ _ _ _ _ Hg Hs) as (e & -> & _ & Ht & _); cbn; rewrite Ht.
Qed.

Lemma admissible_dec sha256_hex p current candidates ctx at_ g :
  transitions sha256_hex p current candidates ctx at_ = Ok g ->
  admissible sha256_hex p current (instant at_) \/ ~ admissible sha256_hex p current (instant at_).
Proof.
  intros (_ & d & _ & Hd & _)%transitions_inv. pose proof (allow_exact _ _ _ _ _ Hd) as Ha.
  destruct (admitted d); [left|right]; intuition congruence.
Qed.

Lemma legal_cases sha256_hex p current candidates ctx at_ g e :
  transitions sha256_hex p current candidates ctx at_ = Ok g -> e ∈ tg_edges g -> te_legal e = true ->
  te_source e = pc_candidate_id current /\
  (te_kind e = TERMINAL /\ te_target e = "terminal" /\ cx_terminal ctx = true \/
   te_kind e = INITIAL /\ te_target e = pc_candidate_id current /\ cx_terminal ctx = false /\
     admissible sha256_hex p current (instant at_) \/
   exists c, c ∈ candidates /\ te_target e = pc_candidate_id c /\
     te_kind e = move_kind sha256_hex current c ctx /\
     te_route_key e = candidate_key sha256_hex c /\
     may_move sha256_hex p current c ctx (instant at_)).
Proof.
  intros Hg He Hl. destruct (cx_terminal ctx) eqn:Ht.
  - destruct (edges_stopped _ _ _ _ _ _ _ Hg) as (e' & Hes & ? & ? & ? & _); [by intros [? _]; congruence|].
    rewrite Hes in He. apply list_elem_of_singleton in He as ->. tauto.
  - destruct (admissible_dec sha256_hex p current candidates ctx at_ g Hg) as [Ha | Ha].
    + destruct (edges_running _ _ _ _ _ _ _ Hg Ht Ha) as (es & Hes & Hmoves). rewrite Hes in He.
      apply elem_of_cons in He as [-> | He]; [split; [done|right; left; done]|].
      apply list_elem_of_lookup_1 in He as [i Hi].
      destruct (Forall2_lookup_r _ _ _ _ _ Hmoves Hi) as (c & Hc & Hsrc & Htgt & Hk & Hkey & Hm).
      split; [done|]. right. right. exists c. apply list_elem_of_lookup_2, elem_of_others in Hc as [Hc Hne].
      rewrite elem_of_sort_by in Hc. apply all_in in Hc as [-> | Hc]; [done|]. tauto.
    + destruct (edges_stopped _ _ _ _ _ _ _ Hg) as (e' & Hes & _ & _ & _ & El); [tauto|].
      rewrite Hes in He. apply list_elem_of_singleton in He as ->. congruence.
Qed.

(** A candidate that may run under a policy that asks for route identities has one. *)
Lemma served sha256_hex p c t : po_require_route_identity p = true -> admissible sha256_hex p c t ->
  exists r, effective_route c = Some r.
Proof.
  intros Hr Ha. destruct (ok_identity _ _ (ad_identity _ _ _ _ Ha) Hr) as [r Er].
  unfold effective_route. rewrite Er. destruct (pc_actual_route c); eauto.
Qed.

(** C13: the legal edges of a graph are the initial attempt of a current route that may
    run, the stop of an execution that is over, and exactly the moves to other candidates
    that [may_move] permits: a retry to the same route or a fallback to another before
    bytes, a resumption after them. *)
Theorem legal_edges_exact sha256_hex p current candidates ctx at_ g :
  transitions sha256_hex p current candidates ctx at_ = Ok g ->
  (forall e, e ∈ legal_edges g -> te_source e = pc_candidate_id current /\
     (te_kind e = TERMINAL /\ te_target e = "terminal" /\ cx_terminal ctx = true \/
      te_kind e = INITIAL /\ te_target e = pc_candidate_id current /\ cx_terminal ctx = false /\
        admissible sha256_hex p current (instant at_) \/
      exists c, c ∈ candidates /\ te_target e = pc_candidate_id c /\
        te_kind e = move_kind sha256_hex current c ctx /\
        te_route_key e = candidate_key sha256_hex c /\
        may_move sha256_hex p current c ctx (instant at_))) /\
  (forall c, c ∈ first_seen [] (current :: candidates) -> pc_candidate_id c <> pc_candidate_id current ->
     may_move sha256_hex p current c ctx (instant at_) ->
     exists e, e ∈ legal_edges g /\ te_target e = pc_candidate_id c /\
       te_kind e = move_kind sha256_hex current c ctx).
Proof.
  intros Hg. unfold legal_edges. setoid_rewrite elem_of_lfilter. split.
  - intros e [He Hl]. by eapply legal_cases.
  - intros c Hc Hne Hm. destruct (edges_running _ _ _ _ _ _ _ Hg (mv_running _ _ _ _ _ _ Hm) (mv_current _ _ _ _ _ _ Hm))
      as (es & Hes & Hmoves).
    assert (c ∈ others current (sort_by by_id (first_seen [] (current :: candidates)))) as Hin.
    { apply elem_of_others. by rewrite elem_of_sort_by. }
    apply list_elem_of_lookup_1 in Hin as [i Hi].
    destruct (Forall2_lookup_l _ _ _ _ _ Hmoves Hi) as (e & He & _ & Htgt & Hk & _ & Hl).
    exists e. rewrite Hes. split; [|done]. split; [right; by eapply list_elem_of_lookup_2|]. by apply Hl.
Qed.

(** C14: once bytes were emitted, a policy that asks for route identities lets no execution
    change its model: a legal edge that is neither a stop nor the initial attempt needs a
    verified checkpoint and leads to a candidate that serves on the very route of the
    current one, unless SHA-256 gives two texts one digest. The initial edge stays legal
    ([initial_stays_legal]), and without route identities two routes nobody knows count
    as the same one ([unknown_routes_are_same]). *)
Theorem no_switch_after_bytes sha256_hex p current candidates ctx at_ g e :
  transitions sha256_hex p current candidates ctx at_ = Ok g ->
  cx_byte_state ctx = BYTES_EMITTED -> po_require_route_identity p = true ->
  e ∈ legal_edges g -> te_kind e <> TERMINAL -> te_kind e <> INITIAL ->
  cx_checkpoint_verified ctx = true /\
  exists c r s, c ∈ candidates /\ te_target e = pc_candidate_id c /\
  effective_route c = Some r /\ effective_route current = Some s /\
  (route_wf r -> route_wf s -> r = s \/ exists a b, a <> b /\ sha256_hex a = sha256_hex b).
Proof.
  intros Hg Hb Hreq [He Hl]%elem_of_lfilter Ht Hi.
  destruct (legal_cases _ _ _ _ _ _ _ _ Hg He Hl) as [_ [[? _] | [[? _] | (c & Hc & Htgt & _ & _ & Hm)]]]; [done..|].
  destruct (mv_after _ _ _ _ _ _ Hm Hb) as [Hck Hkey]. split; [done|].
  destruct (served sha256_hex p c (instant at_)) as [r Hr]; [done|apply Hm|].
  destruct (served sha256_hex p current (instant at_)) as [s Hs]; [done|apply Hm|].
  exists c, r, s. split_and!; [done..|]. intros Hwr Hws. unfold candidate_key in Hkey.
  rewrite Hr, Hs in Hkey. apply (inj Some) in Hkey.
  apply (digest_identifies sha256_hex route_to_dict route_from_dict); [|exact Hkey].
  intros x [-> | ->]; (split; [apply route_json|by apply route_roundtrip]).
Qed.

(** * Samples *)

Module TransitionSample.

Import PolicySample.

Definition context (safety : RetrySafety) (bytes : ByteState) (attempt : Z) : ExecutionContext :=
  {| cx_request_id := "r"; cx_idempotency_key := Some "k"; cx_retry_safety := safety;
     cx_byte_state := bytes; cx_checkpoint_verified := true; cx_terminal := false;
     cx_attempt := attempt; cx_protocol := None |}.

Definition rules : Policy := plain ["tools"] [] false.

Definition graph (ctx : ExecutionContext) : result transition_exn TransitionGraph :=
  transitions sha rules (candidate "a" None) [candidate "b" None] ctx (day 2).

(** Source, target, kind and legality of each edge. *)
Definition drawn (r : result transition_exn TransitionGraph) : list (string * TransitionKind * bool) :=
  match r with
  | Ok g => map (fun e => (te_target e, te_kind e, te_legal e)) (tg_edges g)
  | Err _ => []
  end.

(** A candidate without a known route, and a policy that does not ask for one. *)
Definition unknown_route (id : string) : PolicyCandidate :=
  {| pc_candidate_id := id; pc_route_identity := None; pc_passport := None;
     pc_runtime_passports := []; pc_availability := "healthy"; pc_evidence_ids := [];
     pc_cost := None; pc_quality_score := None; pc_requested_alias := None;
     pc_selected_route := None; pc_actual_route := None |}.

Definition lax : Policy :=
  {| po_policy_id := "default"; po_version := POLICY_VERSION;
     po_required_capabilities := ∅; po_required_runtime := ∅;
     po_allowed_providers := ∅; po_denied_providers := ∅;
     po_allowed_protocols := ∅; po_protected := false; po_allow_degraded := false;
     po_allow_stale_evidence := false; po_require_route_identity := false;
     po_require_actual_identity := false; po_require_fresh_evidence := true;
     po_allow_fallback := false; po_retry_safe_required := true;
     po_require_idempotency_key := true; po_max_attempts := 3;
     po_restricted_data_routes := ∅; po_restricted_data := false |}.
End TransitionSample.

Import TransitionSample.

Lemma graph_complete_witness :
  exists g, graph (context SAFE PRE_BYTES 1) = Ok g /\ tg_nodes g = ["a"; "b"; "terminal"] /\
  map te_target (tg_edges g) = ["a"; "b"].
Proof.
  destruct (graph_complete PolicySample.sha rules (PolicySample.candidate "a" None)
    [PolicySample.candidate "b" None] (context SAFE PRE_BYTES 1) (PolicySample.day 2))
    as (g & ids & Hg & Hn & _).
  - discriminate.
  - intros name H. cbn in H. assert (name = "tools") as -> by set_solver. reflexivity.
  - exists g. refine (conj Hg _). vm_compute in Hg. injection Hg as <-. split; reflexivity.
Defined.

Lemma legal_edges_exact_witness :
  exists g e, graph (context SAFE PRE_BYTES 1) = Ok g /\ e ∈ legal_edges g /\ te_kind e = RETRY /\
  te_source e = "a".
Proof.
  destruct (graph (context SAFE PRE_BYTES 1)) as [g|] eqn:Hg; [|vm_compute in Hg; discriminate].
  destruct (legal_edges g) as [|i [|e es]] eqn:El;
    [vm_compute in Hg; injection Hg as <-; vm_compute in El; discriminate..|].
  assert (He : e ∈ legal_edges g) by (rewrite El; right; left).
  assert (Hk : te_kind e = RETRY)
    by (vm_compute in Hg; injection Hg as <-; vm_compute in El; injection El as _ <- _; reflexivity).
  exists g, e. refine (conj eq_refl (conj He (conj Hk _))).
  exact (proj1 (proj1 (legal_edges_exact PolicySample.sha rules (PolicySample.candidate "a" None)
    [PolicySample.candidate "b" None] (context SAFE PRE_BYTES 1) (PolicySample.day 2) g Hg) e He)).
Defined.

Lemma no_switch_after_bytes_witness :
  exists g e, graph (context UNCLEAR BYTES_EMITTED 9) = Ok g /\ e ∈ legal_edges g /\
  te_kind e = CHECKPOINT_RESUME /\
  exists c r s, c ∈ [PolicySample.candidate "b" None] /\ te_target e = pc_candidate_id c /\
  effective_route c = Some r /\ effective_route (PolicySample.candidate "a" None) = Some s.
Proof.
  destruct (graph (context UNCLEAR BYTES_EMITTED 9)) as [g|] eqn:Hg; [|vm_compute in Hg; discriminate].
  destruct (legal_edges g) as [|i [|e es]] eqn:El;
    [vm_compute in Hg; injection Hg as <-; vm_compute in El; discriminate..|].
  assert (He : e ∈ legal_edges g) by (rewrite El; right; left).
  assert (Hk : te_kind e = CHECKPOINT_RESUME)
    by (vm_compute in Hg; injection Hg as <-; vm_compute in El; injection El as _ <- _; reflexivity).
  destruct (no_switch_after_bytes PolicySample.sha rules (PolicySample.candidate "a" None)
    [PolicySample.candidate "b" None] (context UNCLEAR BYTES_EMITTED 9) (PolicySample.day 2)
    g e Hg eq_refl eq_refl He) as (_ & c & r & s & H);
    [rewrite Hk; discriminate..|].
  exists g, e. refine (conj eq_refl (conj He (conj Hk _))). exists c, r, s. tauto.
Defined.

(** * What the model shows *)

(** Two candidates whose routes are unknown count as one route: the move to another
    unknown route is a legal retry where fallback is disabled, and a legal resumption
    after bytes. *)
Theorem unknown_routes_are_same ctx :
  ctx = context SAFE PRE_BYTES 0 \/ ctx = context SAFE BYTES_EMITTED 0 ->
  drawn (transitions PolicySample.sha lax (unknown_route "a") [unknown_route "b"] ctx (PolicySample.day 2)) =
  [("a", INITIAL, true); ("b", match cx_byte_state ctx with PRE_BYTES => RETRY | _ => CHECKPOINT_RESUME end, true)].
Proof. intros [-> | ->]; vm_compute; reflexivity. Qed.

(** The initial attempt stays legal after the last attempt and after bytes were emitted. *)
Theorem initial_stays_legal :
  drawn (graph (context SAFE PRE_BYTES 3)) = [("a", INITIAL, true); ("b", RETRY, false)] /\
  drawn (graph (context UNSAFE BYTES_EMITTED 3)) = [("a", INITIAL, true); ("b", CHECKPOINT_RESUME, true)].
Proof. vm_compute. split; reflexivity. Qed.

(** [retry_safe_required] decides nothing: a request that is not known to be safe is refused
    with or without it. *)
Theorem safe_flag_ignored sha256_hex p current c ctx d :
  cx_retry_safety ctx <> SAFE -> (pre_byte_legality sha256_hex p current c ctx d).1 = false.
Proof.
  intros H. apply not_true_is_false. intros (_ & Hs & _)%pre_byte_spec. done.
Qed.
