(* ===== verification/MemoryPlane.v ===== *)
(** [verdict/memory_plane.py]: the append-only memory store, as far as durable
    sessions use it: [put], [supersede], [tombstone], [get] and [history] over the
    rows of its table.

    An operation runs in one [BEGIN IMMEDIATE ... COMMIT] transaction, and an
    exception rolls it back, so an operation maps the table to a table or raises and
    leaves it. The full-text index, the outbox and the columns a session only fills in
    (trust, metadata, authority, confidence, sensitivity, provenance, the schema
    version) are left out; [_normalize] refuses a confidence outside 0 and 1, which is
    not a case here. A float is its [repr]. *)
From Stdlib Require Import Ascii.
From S2P Require Import Prelude PyStr PyNum.

Inductive RecordStatus := Active | Superseded | Tombstone.

#[global] Instance record_status_eq_dec : EqDecision RecordStatus.
Proof. solve_decision. Defined.

Record MemoryRecord := {
  mr_record_id : string;
  mr_namespace : string;
  mr_key : string;
  mr_content : string;
  mr_source : string;
  mr_scope : string;
  mr_created_at : string;
  mr_updated_at : string;
  mr_expires_at : option string;
  mr_supersedes : option string;
  mr_content_hash : string;
  mr_status : RecordStatus
}.

(** A [ValueError]. *)
Inductive plane_exn := PlaneValueError (msg : string).

Definition float_value (r : string) : Q :=
  match parse_decimal r with Some (Some q) => q | _ => 0%Q end.

(** [x or now] for a float *)
Definition float_or (x now : string) : string :=
  if Qeq_bool (float_value x) 0 then now else x.

(** [replace(row, status=..., updated_at=...)] *)
Definition with_status (s : RecordStatus) (updated : string) (r : MemoryRecord) : MemoryRecord :=
  {| mr_record_id := mr_record_id r; mr_namespace := mr_namespace r; mr_key := mr_key r;
     mr_content := mr_content r; mr_source := mr_source r; mr_scope := mr_scope r;
     mr_created_at := mr_created_at r; mr_updated_at := updated;
     mr_expires_at := mr_expires_at r; mr_supersedes := mr_supersedes r;
     mr_content_hash := mr_content_hash r; mr_status := s |}.

Definition with_supersedes (s : option string) (r : MemoryRecord) : MemoryRecord :=
  {| mr_record_id := mr_record_id r; mr_namespace := mr_namespace r; mr_key := mr_key r;
     mr_content := mr_content r; mr_source := mr_source r; mr_scope := mr_scope r;
     mr_created_at := mr_created_at r; mr_updated_at := mr_updated_at r;
     mr_expires_at := mr_expires_at r; mr_supersedes := s;
     mr_content_hash := mr_content_hash r; mr_status := mr_status r |}.

(** [x or y] for strings that may be missing *)
Definition or_text (x y : option string) : option string :=
  match x with
  | Some s => if String.eqb s "" then y else x
  | None => y
  end.

(** * Queries *)

(** The rows of a key. *)
Definition of_key (namespace scope key : string) (r : MemoryRecord) : bool :=
  String.eqb (mr_namespace r) namespace && String.eqb (mr_scope r) scope &&
  String.eqb (mr_key r) key.

Definition is_active (r : MemoryRecord) : bool := bool_decide (mr_status r = Active).

(** [ORDER BY created_at ASC, record_id ASC] *)
Definition older (a b : MemoryRecord) : bool :=
  Qltb (float_value (mr_created_at a)) (float_value (mr_created_at b)) ||
  Qeq_bool (float_value (mr_created_at a)) (float_value (mr_created_at b)) &&
  str_leb (mr_record_id a) (mr_record_id b).

Definition active_rows (pl : list MemoryRecord) (namespace scope key : string)
    : list MemoryRecord :=
  List.filter (fun r => of_key namespace scope key r && is_active r) pl.

(** [_active_row]: the newest active row *)
Definition active_row (pl : list MemoryRecord) (namespace scope key : string)
    : option MemoryRecord :=
  head (sort_by (fun a b => older b a) (active_rows pl namespace scope key)).

(** [_expired] at the clock [now] *)
Definition expired (now : string) (r : MemoryRecord) : bool :=
  match mr_expires_at r with
  | Some e => Qle_bool (float_value e) (float_value now)
  | None => false
  end.

(** [MemoryPlane.get] *)
Definition get (pl : list MemoryRecord) (now namespace key scope : string) : option MemoryRecord :=
  row ← active_row pl namespace scope key;
  if expired now row then None else Some row.

(** [MemoryPlane.history] *)
Definition history (pl : list MemoryRecord) (namespace key scope : string) : list MemoryRecord :=
  sort_by older (List.filter (of_key namespace scope key) pl).

Section plane.
(** [hashlib.sha256(...).hexdigest()] *)
Context (sha256_hex : string -> string).

(** [_normalize] *)
Definition normalize (now : string) (r : MemoryRecord) : result plane_exn MemoryRecord :=
  _ ← raise_if (existsb (String.eqb "")
          [mr_record_id r; mr_namespace r; mr_key r; mr_source r; mr_content r])
        (PlaneValueError "record_id, namespace, key, source, and content are required");
  let digest := sha256_hex (mr_content r) in
  _ ← raise_if (negb (String.eqb (mr_content_hash r) "") &&
                negb (String.eqb (mr_content_hash r) digest))
        (PlaneValueError "content_hash does not match content");
  Ok {| mr_record_id := mr_record_id r; mr_namespace := mr_namespace r; mr_key := mr_key r;
        mr_content := mr_content r; mr_source := mr_source r; mr_scope := mr_scope r;
        mr_created_at := float_or (mr_created_at r) now;
        mr_updated_at := float_or (mr_updated_at r) now;
        mr_expires_at := mr_expires_at r; mr_supersedes := mr_supersedes r;
        mr_content_hash := digest; mr_status := mr_status r |}.

Definition find_row (rid : string) (pl : list MemoryRecord) : option MemoryRecord :=
  List.find (fun r => String.eqb (mr_record_id r) rid) pl.

(** [_put]: the table and the row stored under the id *)
Definition put (now : string) (r : MemoryRecord) (pl : list MemoryRecord)
    : result plane_exn (list MemoryRecord * MemoryRecord) :=
  n ← normalize now r;
  match find_row (mr_record_id n) pl with
  | Some existing =>
      if String.eqb (mr_content_hash existing) (mr_content_hash n) then Ok (pl, existing)
      else Err (PlaneValueError "record_id already exists with different content")
  | None =>
      let previous := active_row pl (mr_namespace n) (mr_scope n) (mr_key n) in
      let stored := with_supersedes (or_text (mr_supersedes n) (mr_record_id <$> previous)) n in
      Ok (match previous with
          | Some p => map (fun x => if String.eqb (mr_record_id x) (mr_record_id p)
                                    then with_status Superseded (mr_updated_at n) x else x) pl
          | None => pl
          end ++ [stored], stored)
  end.

(** [supersede] *)
Definition supersede (now namespace key scope : string) (replacement : MemoryRecord)
    (pl : list MemoryRecord) : result plane_exn (list MemoryRecord * MemoryRecord) :=
  _ ← raise_if (negb (of_key namespace scope key replacement))
        (PlaneValueError "replacement identity does not match the target");
  put now replacement pl.

(** [tombstone]; [None] when no active record remains *)
Definition tombstone (now namespace key scope : string) (pl : list MemoryRecord)
    : result plane_exn (list MemoryRecord * option MemoryRecord) :=
  match active_row pl namespace scope key with
  | None => Ok (pl, None)
  | Some current =>
      '(pl', stored) ← put now
        {| mr_record_id := "tombstone:" +:+ mr_record_id current; mr_namespace := namespace;
           mr_key := key; mr_content := "[tombstone]"; mr_source := "memory-plane";
           mr_scope := scope; mr_created_at := now; mr_updated_at := now;
           mr_expires_at := None; mr_supersedes := Some (mr_record_id current);
           mr_content_hash := ""; mr_status := Tombstone |} pl;
      Ok (pl', Some stored)
  end.

(** * The table's invariant *)

(** Record ids are the primary key; a key has at most one active row. *)
Record plane_wf (pl : list MemoryRecord) : Prop := {
  pw_ids : base.NoDup (map mr_record_id pl);
  pw_active : forall ns scope key, (length (active_rows pl ns scope key) <= 1)%nat
}.

(** The columns that no operation changes. *)
Definition immutable (r : MemoryRecord) : string * string * string * string * string :=
  (mr_record_id r, mr_namespace r, mr_key r, mr_scope r, mr_content r).

(** The newest of at most one row. *)
Lemma active_row_single pl ns scope key r :
  active_rows pl ns scope key = [r] -> active_row pl ns scope key = Some r.
Proof. unfold active_row. by intros ->. Qed.

Lemma active_row_elem pl ns scope key r :
  active_row pl ns scope key = Some r -> r ∈ active_rows pl ns scope key.
Proof.
  unfold active_row. intros H. apply (elem_of_sort_by (fun a b => older b a)).
  destruct (sort_by _ _) as [|r' rs]; [done|]. injection H as ->. by left.
Qed.

Lemma active_row_none pl ns scope key :
  active_row pl ns scope key = None -> active_rows pl ns scope key = [].
Proof.
  unfold active_row. intros H.
  pose proof (sort_by_perm (fun a b => older b a) (active_rows pl ns scope key)) as Hp.
  destruct (sort_by _ _) as [|r' rs]; [by apply Permutation_nil in Hp|done].
Qed.

(** The rows with the row [rid] superseded. *)
Definition supersede_row (rid updated : string) (pl : list MemoryRecord) : list MemoryRecord :=
  map (fun x => if String.eqb (mr_record_id x) rid then with_status Superseded updated x else x) pl.

Lemma supersede_row_immutable rid u pl :
  map immutable (supersede_row rid u pl) = map immutable pl.
Proof. unfold supersede_row. induction pl as [|x pl IH]; cbn; [done|]. rewrite IH. by case_match. Qed.

Lemma immutable_ids pl pl' :
  map immutable pl = map immutable pl' -> map mr_record_id pl = map mr_record_id pl'.
Proof.
  intros H. assert (forall q, map mr_record_id q = map (fun i => i.1.1.1.1) (map immutable q)) as E.
  { intros q. by rewrite map_map. }
  by rewrite (E pl), (E pl'), H.
Qed.

Lemma active_supersede rid u pl ns scope key :
  active_rows (supersede_row rid u pl) ns scope key =
  List.filter (fun x => negb (String.eqb (mr_record_id x) rid)) (active_rows pl ns scope key).
Proof.
  unfold active_rows, supersede_row. induction pl as [|x pl IH]; cbn; [done|].
  destruct (String.eqb (mr_record_id x) rid) eqn:E; cbn.
  - rewrite IH. unfold of_key, is_active at 1; cbn. rewrite andb_false_r.
    destruct (_ && is_active x); cbn; [by rewrite E|done].
  - rewrite IH. destruct (_ && is_active x); cbn; [by rewrite E|done].
Qed.

Lemma active_rows_snoc pl r ns scope key :
  active_rows (pl ++ [r]) ns scope key =
  active_rows pl ns scope key ++ (if of_key ns scope key r && is_active r then [r] else []).
Proof. unfold active_rows. rewrite List.filter_app. cbn. by destruct (_ && is_active r). Qed.

(** At most one row means the active row and nothing else. *)
Lemma wf_active_rows pl ns scope key :
  plane_wf pl -> active_rows pl ns scope key = option_list (active_row pl ns scope key).
Proof.
  intros [_ H]. specialize (H ns scope key).
  destruct (active_row pl ns scope key) as [r|] eqn:E; [|by apply active_row_none in E].
  apply active_row_elem in E. destruct (active_rows pl ns scope key) as [|x [|y l]];
    [set_solver| |cbn in H; lia]. apply list_elem_of_singleton in E. by subst.
Qed.

Lemma find_row_none rid pl : find_row rid pl = None <-> rid ∉ map mr_record_id pl.
Proof.
  unfold find_row. split.
  - intros H (x & -> & Hx)%list_elem_of_fmap.
    rewrite list_elem_of_In in Hx. pose proof (List.find_none _ _ H x Hx) as Hn. cbn in Hn.
    by rewrite String.eqb_refl in Hn.
  - intros H. destruct (List.find _ _) as [x|] eqn:E; [|done]. apply List.find_some in E as [Hx Hr].
    apply String.eqb_eq in Hr. destruct H. apply list_elem_of_fmap. exists x.
    by rewrite list_elem_of_In.
Qed.

(** What [put] does with a record whose id is new. *)
Lemma put_new now r pl pl' stored :
  put now r pl = Ok (pl', stored) -> mr_record_id r ∉ map mr_record_id pl ->
  exists n previous,
    normalize now r = Ok n /\
    previous = active_row pl (mr_namespace r) (mr_scope r) (mr_key r) /\
    stored = with_supersedes (or_text (mr_supersedes r) (mr_record_id <$> previous)) n /\
    pl' = from_option (fun p => supersede_row (mr_record_id p) (mr_updated_at n) pl) pl previous
          ++ [stored].
Proof.
  unfold put. intros (n & Hn & H)%bind_ok Hid. exists n.
  assert (n = {| mr_record_id := mr_record_id r; mr_namespace := mr_namespace r;
    mr_key := mr_key r; mr_content := mr_content r; mr_source := mr_source r;
    mr_scope := mr_scope r; mr_created_at := float_or (mr_created_at r) now;
    mr_updated_at := float_or (mr_updated_at r) now; mr_expires_at := mr_expires_at r;
    mr_supersedes := mr_supersedes r; mr_content_hash := sha256_hex (mr_content r);
    mr_status := mr_status r |}) as E by (unfold normalize in Hn; inv_ok; congruence).
  rewrite E in H. cbn in H. apply find_row_none in Hid. rewrite Hid in H.
  injection H as <- <-. eexists. split; [done|]. split; [done|]. rewrite E. cbn. split; [done|].
  by destruct (active_row _ _ _ _).
Qed.

Lemma normalize_fields now r n :
  normalize now r = Ok n ->
  immutable n = immutable r /\ mr_status n = mr_status r /\ mr_expires_at n = mr_expires_at r.
Proof. unfold normalize. intros H. inv_ok. by subst. Qed.

Lemma active_rows_put now r pl pl' stored ns scope key :
  plane_wf pl -> put now r pl = Ok (pl', stored) -> mr_record_id r ∉ map mr_record_id pl ->
  active_rows pl' ns scope key =
  if of_key ns scope key r then (if is_active r then [stored] else [])
  else active_rows pl ns scope key.
Proof.
  intros Hwf H Hid. destruct (put_new _ _ _ _ _ H Hid) as (n & prev & Hn & Hp & -> & ->).
  apply normalize_fields in Hn as (Hi & Hs & _).
  assert (Ho : forall s, of_key ns scope key (with_supersedes s n) = of_key ns scope key r).
  { intros s. unfold of_key, immutable in *. by injection Hi as ? ? ? ? ?; cbn; congruence. }
  assert (Ha : forall s, is_active (with_supersedes s n) = is_active r).
  { intros s. unfold is_active. cbn. by rewrite Hs. }
  rewrite active_rows_snoc, Ho, Ha.
  assert (Hbase : active_rows (from_option (fun p => supersede_row (mr_record_id p) (mr_updated_at n) pl) pl prev)
            ns scope key = if of_key ns scope key r then [] else active_rows pl ns scope key).
  { destruct (of_key ns scope key r) eqn:Hk.
    - unfold of_key in Hk. bool_hyps. subst ns scope key.
      pose proof (wf_active_rows pl (mr_namespace r) (mr_scope r) (mr_key r) Hwf) as E.
      rewrite <- Hp in E. destruct prev as [p|]; cbn [from_option option_list] in *; [|done].
      rewrite active_supersede, E. cbn. by rewrite String.eqb_refl.
    - destruct prev as [p|]; [|done]. cbn [from_option]. rewrite active_supersede.
      symmetry in Hp. apply active_row_elem in Hp.
      apply list_elem_of_In, List.filter_In in Hp as [Hin Hp].
      apply List.forallb_filter_id, forallb_forall. intros x Hx. apply negb_true_iff, String.eqb_neq.
      intros Hxp. apply List.filter_In in Hx as [Hx Hk'].
      assert (x = p) as -> by (eapply (nodup_map_inj mr_record_id pl); [apply Hwf|by apply list_elem_of_In..|done]).
      unfold of_key in *. rewrite !andb_false_iff, !String.eqb_neq in Hk. bool_hyps.
      naive_solver congruence. }
  rewrite Hbase. by destruct (of_key ns scope key r), (is_active r); rewrite ?app_nil_r.
Qed.

(** A record id that is taken leaves the table as it is. *)
Lemma put_taken now r pl pl' stored :
  put now r pl = Ok (pl', stored) -> mr_record_id r ∈ map mr_record_id pl -> pl' = pl.
Proof.
  unfold put. intros (n & Hn & H)%bind_ok Hin.
  apply normalize_fields in Hn as (Hi & _). unfold immutable in Hi. injection Hi as Hi _ _ _ _.
  rewrite Hi in H. destruct (find_row _ pl) as [x|] eqn:E; [|by apply find_row_none in E].
  destruct (String.eqb _ _); [by injection H as <- <-|done].
Qed.

Lemma put_immutable now r pl pl' stored :
  put now r pl = Ok (pl', stored) ->
  map immutable pl' = map immutable pl \/
  mr_record_id r ∉ map mr_record_id pl /\ map immutable pl' = map immutable pl ++ [immutable r].
Proof.
  intros H. destruct (decide (mr_record_id r ∈ map mr_record_id pl)) as [Hin|Hid].
  - left. by rewrite (put_taken _ _ _ _ _ H Hin).
  - right. split; [done|]. destruct (put_new _ _ _ _ _ H Hid) as (n & prev & Hn & _ & -> & ->).
    apply normalize_fields in Hn as (Hi & _). rewrite map_app. cbn [map]. f_equal.
    + destruct prev; [apply supersede_row_immutable|done].
    + by rewrite <- Hi.
Qed.

Lemma put_wf now r pl pl' stored :
  plane_wf pl -> put now r pl = Ok (pl', stored) -> plane_wf pl'.
Proof.
  intros Hwf H. destruct (decide (mr_record_id r ∈ map mr_record_id pl)) as [Hin|Hid].
  - by rewrite (put_taken _ _ _ _ _ H Hin).
  - pose proof (fun ns scope key => active_rows_put _ _ _ _ _ ns scope key Hwf H Hid) as Ha.
    constructor.
    + destruct (put_immutable _ _ _ _ _ H) as [E|[_ E]].
      * rewrite (immutable_ids _ _ E). apply Hwf.
      * assert (map mr_record_id pl' = map mr_record_id (pl ++ [r])) as ->.
        { apply immutable_ids. by rewrite E, map_app. }
        rewrite map_app. apply NoDup_app. split_and!; [apply Hwf| |apply NoDup_singleton].
        intros x Hx ->%list_elem_of_singleton. done.
    + intros ns scope key. rewrite Ha. destruct (of_key _ _ _ _); [|apply Hwf].
      destruct (is_active r); cbn; lia.
Qed.

(** What was put under a new id is what [get] returns. *)
Lemma get_put now now' r pl pl' stored :
  plane_wf pl -> put now r pl = Ok (pl', stored) -> mr_record_id r ∉ map mr_record_id pl ->
  mr_status r = Active -> mr_expires_at r = None ->
  get pl' now' (mr_namespace r) (mr_key r) (mr_scope r) = Some stored /\
  immutable stored = immutable r.
Proof.
  intros Hwf H Hid Hs He.
  assert (Ha : active_row pl' (mr_namespace r) (mr_scope r) (mr_key r) = Some stored).
  { apply active_row_single. rewrite (active_rows_put _ _ _ _ _ _ _ _ Hwf H Hid).
    unfold of_key, is_active. by rewrite !String.eqb_refl, bool_decide_true. }
  destruct (put_new _ _ _ _ _ H Hid) as (n & prev & Hn & _ & -> & _).
  apply normalize_fields in Hn as (Hi & _ & Hx). split; [|by rewrite <- Hi].
  unfold get. rewrite Ha. cbn. unfold expired. cbn. by rewrite Hx, He.
Qed.

Lemma get_put_other now now' r pl pl' stored ns key scope :
  plane_wf pl -> put now r pl = Ok (pl', stored) -> of_key ns scope key r = false ->
  get pl' now' ns key scope = get pl now' ns key scope.
Proof.
  intros Hwf H Hk. destruct (decide (mr_record_id r ∈ map mr_record_id pl)) as [Hin|Hid].
  - by rewrite (put_taken _ _ _ _ _ H Hin).
  - unfold get, active_row. by rewrite (active_rows_put _ _ _ _ _ _ _ _ Hwf H Hid), Hk.
Qed.

(** A new id and no empty column: [put] does not raise. *)
Lemma put_succeeds now r pl :
  mr_record_id r ∉ map mr_record_id pl ->
  existsb (String.eqb "")
    [mr_record_id r; mr_namespace r; mr_key r; mr_source r; mr_content r] = false ->
  mr_content_hash r = "" -> exists pl' stored, put now r pl = Ok (pl', stored).
Proof.
  intros Hid%find_row_none He Hh. unfold put, normalize. rewrite He, Hh. cbn.
  rewrite Hid. eauto.
Qed.

(** A record id that is taken is refused, unless the content hashes are equal. *)
Lemma put_conflict now r pl existing :
  find_row (mr_record_id r) pl = Some existing ->
  existsb (String.eqb "")
    [mr_record_id r; mr_namespace r; mr_key r; mr_source r; mr_content r] = false ->
  mr_content_hash r = "" -> mr_content_hash existing <> sha256_hex (mr_content r) ->
  put now r pl = Err (PlaneValueError "record_id already exists with different content").
Proof.
  intros Hf He Hh Hne%String.eqb_neq. unfold put, normalize. rewrite He, Hh. cbn.
  rewrite Hf. by rewrite Hne.
Qed.

(** * Runs *)

Inductive plane_op :=
| PutOp (now : string) (r : MemoryRecord)
| SupersedeOp (now namespace key scope : string) (r : MemoryRecord)
| TombstoneOp (now namespace key scope : string).

Definition plane_exec (op : plane_op) (pl : list MemoryRecord) : result plane_exn (list MemoryRecord) :=
  match op with
  | PutOp now r => '(pl', _) ← put now r pl; Ok pl'
  | SupersedeOp now ns key scope r => '(pl', _) ← supersede now ns key scope r pl; Ok pl'
  | TombstoneOp now ns key scope => '(pl', _) ← tombstone now ns key scope pl; Ok pl'
  end.

(** The table after the operations; one that raises is rolled back. *)
Fixpoint plane_execs (ops : list plane_op) (pl : list MemoryRecord) : list MemoryRecord :=
  match ops with
  | [] => pl
  | op :: ops => plane_execs ops (match plane_exec op pl with Ok pl' => pl' | Err _ => pl end)
  end.

(** Every operation is at most one [put]. *)
Lemma plane_exec_put op pl pl' :
  plane_exec op pl = Ok pl' -> pl' = pl \/ exists now r stored, put now r pl = Ok (pl', stored).
Proof.
  destruct op as [now r|now ns key scope r|now ns key scope]; cbn.
  - intros ([q st] & H & [= <-])%bind_ok. eauto.
  - intros ([q st] & H & [= <-])%bind_ok. unfold supersede in H. inv_ok. eauto.
  - intros ([q st] & H & [= <-])%bind_ok. unfold tombstone in H.
    destruct (active_row pl ns scope key) as [c|]; [|injection H; auto].
    apply bind_ok in H as ([q' st'] & H & [= <- <-]). eauto.
Qed.

(** The store is append-only and a key has one active row at most: no sequence of
    puts, supersedes and tombstones removes a row or rewrites its id, key, scope or
    content, gives two rows one id, or leaves two rows of a key active. *)
Theorem append_only pl ops :
  plane_wf pl ->
  plane_wf (plane_execs ops pl) /\
  map immutable pl `prefix_of` map immutable (plane_execs ops pl).
Proof.
  revert pl. induction ops as [|op ops IH]; intros pl Hwf; cbn; [done|].
  destruct (plane_exec op pl) as [pl'|] eqn:E; [|by apply IH].
  apply plane_exec_put in E as [->|(now & r & st & Hp)]; [by apply IH|].
  destruct (IH pl') as [? Hpre]; [by eapply put_wf|]. split; [done|].
  etrans; [|exact Hpre].
  destruct (put_immutable _ _ _ _ _ Hp) as [->|[_ ->]]; [done|by apply prefix_app_r].
Qed.

(** After a tombstone the key reads as missing. *)
Lemma tombstone_hides now now' ns key scope pl pl' current st :
  plane_wf pl -> active_row pl ns scope key = Some current ->
  "tombstone:" +:+ mr_record_id current ∉ map mr_record_id pl ->
  tombstone now ns key scope pl = Ok (pl', st) ->
  get pl' now' ns key scope = None.
Proof.
  intros Hwf Hc Hid H. unfold tombstone in H. rewrite Hc in H.
  apply bind_ok in H as ([q s] & H & [= <- <-]).
  pose proof (active_rows_put _ _ _ _ _ ns scope key Hwf H Hid) as Ha.
  unfold of_key, is_active in Ha. cbn in Ha. rewrite !String.eqb_refl in Ha.
  unfold get, active_row. rewrite Ha. reflexivity.
Qed.
End plane.
