(* ===== verification/Session.v ===== *)
(** [verdict/execution_session.py]: durable execution sessions. A session is a state
    machine over its steps; every operation ends in a checkpoint, the JSON text of the
    whole session put into the memory plane, and [resume] reads the last one back.

    A method is a function on a world (the session object, the plane, the readings of
    the clock so far) that returns or raises; what it assigned before it raised stays.
    A float is its [repr]; a dict is its members in increasing order of their keys. *)
From Stdlib Require Import Ascii.
From S2P Require Import Prelude PyStr Json JsonDict MemoryPlane.

(** [ExecutionSessionError]; a [ValueError] of the plane; a payload whose values have
    other types than [to_dict] gives them. *)
Inductive session_exn :=
| ExecutionSessionError (msg : string)
| PlaneError (e : plane_exn)
| MalformedPayload.

#[export] Instance session_dict_exn : DictExn session_exn :=
  { contract := ExecutionSessionError; wrong_type := MalformedPayload }.

(** * Data *)

Record StepRecord := {
  st_step_id : string;
  st_name : string;
  st_status : string;
  st_started_at : string;
  st_completed_at : option string;
  st_model_id : option string;
  st_tokens_used : Z;
  st_evidence_receipt : option string;
  st_error : option string;
  st_side_effect_kind : string;
  st_committed : bool
}.

Record CheckpointRecord := {
  ck_seq : Z;
  ck_reason : string;
  ck_created_at : string;
  ck_record_id : string;
  ck_state : string
}.

Record FailureEntry := {
  fe_step_id : string;
  fe_provider : string;
  fe_model_id : string;
  fe_error_class : string;
  fe_message : string;
  fe_created_at : string;
  fe_status_code : option Z;
  fe_quarantine_model : option string;
  fe_replacement_model : option string
}.

Inductive SessionState := Created | Running | Checkpointed | Failed | Completed.

#[global] Instance step_record_eq_dec : EqDecision StepRecord.
Proof. solve_decision. Defined.
#[global] Instance session_state_eq_dec : EqDecision SessionState.
Proof. solve_decision. Defined.

Definition state_value (s : SessionState) : string :=
  match s with
  | Created => "created" | Running => "running" | Checkpointed => "checkpointed"
  | Failed => "failed" | Completed => "completed"
  end.

Definition state_of (s : string) : option SessionState :=
  List.find (fun x => String.eqb (state_value x) s)
    [Created; Running; Checkpointed; Failed; Completed].

Record ExecutionSession := {
  es_session_id : string;
  es_task_spec : list (string * json);
  es_steps : list StepRecord;
  es_current_step : option string;
  es_completed_steps : list string;
  es_checkpoints : list CheckpointRecord;
  es_artifacts : list (string * json);
  es_attempts : list (string * Z);
  es_failure_log : list FailureEntry;
  es_state : SessionState;
  es_model_id : option string;
  es_bound_passport_key : option string;
  es_created_at : string;
  es_updated_at : string;
  es_schema_version : string
}.

Definition EXECUTION_SESSION_SCHEMA_VERSION : string := "1".
Definition SESSION_NAMESPACE : string := "execution_sessions".

(** * Assignments *)

Definition set_steps (x_steps : list StepRecord) (s : ExecutionSession) : ExecutionSession :=
  {| es_session_id := es_session_id s; es_task_spec := es_task_spec s; es_steps :=
     x_steps; es_current_step := es_current_step s; es_completed_steps :=
     es_completed_steps s; es_checkpoints := es_checkpoints s; es_artifacts :=
     es_artifacts s; es_attempts := es_attempts s; es_failure_log := es_failure_log s;
     es_state := es_state s; es_model_id := es_model_id s; es_bound_passport_key :=
     es_bound_passport_key s; es_created_at := es_created_at s; es_updated_at :=
     es_updated_at s; es_schema_version := es_schema_version s |}.

Definition set_current (x_current_step : option string) (s : ExecutionSession) : ExecutionSession :=
  {| es_session_id := es_session_id s; es_task_spec := es_task_spec s; es_steps :=
     es_steps s; es_current_step := x_current_step; es_completed_steps :=
     es_completed_steps s; es_checkpoints := es_checkpoints s; es_artifacts :=
     es_artifacts s; es_attempts := es_attempts s; es_failure_log := es_failure_log s;
     es_state := es_state s; es_model_id := es_model_id s; es_bound_passport_key :=
     es_bound_passport_key s; es_created_at := es_created_at s; es_updated_at :=
     es_updated_at s; es_schema_version := es_schema_version s |}.

Definition set_completed_steps (x_completed_steps : list string) (s : ExecutionSession) : ExecutionSession :=
  {| es_session_id := es_session_id s; es_task_spec := es_task_spec s; es_steps :=
     es_steps s; es_current_step := es_current_step s; es_completed_steps :=
     x_completed_steps; es_checkpoints := es_checkpoints s; es_artifacts := es_artifacts
     s; es_attempts := es_attempts s; es_failure_log := es_failure_log s; es_state :=
     es_state s; es_model_id := es_model_id s; es_bound_passport_key :=
     es_bound_passport_key s; es_created_at := es_created_at s; es_updated_at :=
     es_updated_at s; es_schema_version := es_schema_version s |}.

Definition set_checkpoints (x_checkpoints : list CheckpointRecord) (s : ExecutionSession) : ExecutionSession :=
  {| es_session_id := es_session_id s; es_task_spec := es_task_spec s; es_steps :=
     es_steps s; es_current_step := es_current_step s; es_completed_steps :=
     es_completed_steps s; es_checkpoints := x_checkpoints; es_artifacts := es_artifacts
     s; es_attempts := es_attempts s; es_failure_log := es_failure_log s; es_state :=
     es_state s; es_model_id := es_model_id s; es_bound_passport_key :=
     es_bound_passport_key s; es_created_at := es_created_at s; es_updated_at :=
     es_updated_at s; es_schema_version := es_schema_version s |}.

Definition set_artifacts (x_artifacts : list (string * json)) (s : ExecutionSession) : ExecutionSession :=
  {| es_session_id := es_session_id s; es_task_spec := es_task_spec s; es_steps :=
     es_steps s; es_current_step := es_current_step s; es_completed_steps :=
     es_completed_steps s; es_checkpoints := es_checkpoints s; es_artifacts :=
     x_artifacts; es_attempts := es_attempts s; es_failure_log := es_failure_log s;
     es_state := es_state s; es_model_id := es_model_id s; es_bound_passport_key :=
     es_bound_passport_key s; es_created_at := es_created_at s; es_updated_at :=
     es_updated_at s; es_schema_version := es_schema_version s |}.

Definition set_attempts (x_attempts : list (string * Z)) (s : ExecutionSession) : ExecutionSession :=
  {| es_session_id := es_session_id s; es_task_spec := es_task_spec s; es_steps :=
     es_steps s; es_current_step := es_current_step s; es_completed_steps :=
     es_completed_steps s; es_checkpoints := es_checkpoints s; es_artifacts :=
     es_artifacts s; es_attempts := x_attempts; es_failure_log := es_failure_log s;
     es_state := es_state s; es_model_id := es_model_id s; es_bound_passport_key :=
     es_bound_passport_key s; es_created_at := es_created_at s; es_updated_at :=
     es_updated_at s; es_schema_version := es_schema_version s |}.

Definition set_failure_log (x_failure_log : list FailureEntry) (s : ExecutionSession) : ExecutionSession :=
  {| es_session_id := es_session_id s; es_task_spec := es_task_spec s; es_steps :=
     es_steps s; es_current_step := es_current_step s; es_completed_steps :=
     es_completed_steps s; es_checkpoints := es_checkpoints s; es_artifacts :=
     es_artifacts s; es_attempts := es_attempts s; es_failure_log := x_failure_log;
     es_state := es_state s; es_model_id := es_model_id s; es_bound_passport_key :=
     es_bound_passport_key s; es_created_at := es_created_at s; es_updated_at :=
     es_updated_at s; es_schema_version := es_schema_version s |}.

Definition set_state (x_state : SessionState) (s : ExecutionSession) : ExecutionSession :=
  {| es_session_id := es_session_id s; es_task_spec := es_task_spec s; es_steps :=
     es_steps s; es_current_step := es_current_step s; es_completed_steps :=
     es_completed_steps s; es_checkpoints := es_checkpoints s; es_artifacts :=
     es_artifacts s; es_attempts := es_attempts s; es_failure_log := es_failure_log s;
     es_state := x_state; es_model_id := es_model_id s; es_bound_passport_key :=
     es_bound_passport_key s; es_created_at := es_created_at s; es_updated_at :=
     es_updated_at s; es_schema_version := es_schema_version s |}.

Definition set_model (x_model_id : option string) (s : ExecutionSession) : ExecutionSession :=
  {| es_session_id := es_session_id s; es_task_spec := es_task_spec s; es_steps :=
     es_steps s; es_current_step := es_current_step s; es_completed_steps :=
     es_completed_steps s; es_checkpoints := es_checkpoints s; es_artifacts :=
     es_artifacts s; es_attempts := es_attempts s; es_failure_log := es_failure_log s;
     es_state := es_state s; es_model_id := x_model_id; es_bound_passport_key :=
     es_bound_passport_key s; es_created_at := es_created_at s; es_updated_at :=
     es_updated_at s; es_schema_version := es_schema_version s |}.

Definition set_passport (x_bound_passport_key : option string) (s : ExecutionSession) : ExecutionSession :=
  {| es_session_id := es_session_id s; es_task_spec := es_task_spec s; es_steps :=
     es_steps s; es_current_step := es_current_step s; es_completed_steps :=
     es_completed_steps s; es_checkpoints := es_checkpoints s; es_artifacts :=
     es_artifacts s; es_attempts := es_attempts s; es_failure_log := es_failure_log s;
     es_state := es_state s; es_model_id := es_model_id s; es_bound_passport_key :=
     x_bound_passport_key; es_created_at := es_created_at s; es_updated_at :=
     es_updated_at s; es_schema_version := es_schema_version s |}.

Definition set_updated (x_updated_at : string) (s : ExecutionSession) : ExecutionSession :=
  {| es_session_id := es_session_id s; es_task_spec := es_task_spec s; es_steps :=
     es_steps s; es_current_step := es_current_step s; es_completed_steps :=
     es_completed_steps s; es_checkpoints := es_checkpoints s; es_artifacts :=
     es_artifacts s; es_attempts := es_attempts s; es_failure_log := es_failure_log s;
     es_state := es_state s; es_model_id := es_model_id s; es_bound_passport_key :=
     es_bound_passport_key s; es_created_at := es_created_at s; es_updated_at :=
     x_updated_at; es_schema_version := es_schema_version s |}.

(** [step.status = ...] and the like, on the step object. *)
Definition settle_step (status : string) (error completed_at model : option string)
    (tokens : Z) (receipt : option string) (committed : bool) (x : StepRecord) : StepRecord :=
  {| st_step_id := st_step_id x; st_name := st_name x; st_status := status;
     st_started_at := st_started_at x; st_completed_at := completed_at;
     st_model_id := model; st_tokens_used := tokens; st_evidence_receipt := receipt;
     st_error := error; st_side_effect_kind := st_side_effect_kind x;
     st_committed := committed |}.

(** [step.committed = True] *)
Definition commit_step (x : StepRecord) : StepRecord :=
  settle_step (st_status x) (st_error x) (st_completed_at x) (st_model_id x)
    (st_tokens_used x) (st_evidence_receipt x) true x.

(** * Serialization *)

(** [StepRecord.to_dict] *)
Definition step_to_dict (x : StepRecord) : json :=
  obj ([("step_id", JStr (st_step_id x)); ("name", JStr (st_name x));
        ("status", JStr (st_status x)); ("started_at", JFloat (st_started_at x))]
       ++ given "completed_at" JFloat (st_completed_at x)
       ++ given "model_id" JStr (st_model_id x)
       ++ (if st_tokens_used x =? 0 then [] else [("tokens_used", JInt (st_tokens_used x))])
       ++ given "evidence_receipt" JStr (st_evidence_receipt x)
       ++ given "error" JStr (st_error x)
       ++ (if String.eqb (st_side_effect_kind x) "read-only" then []
           else [("side_effect_kind", JStr (st_side_effect_kind x))])
       ++ (if st_committed x then [("committed", JBool true)] else [])).

(** [CheckpointRecord.to_dict] *)
Definition checkpoint_to_dict (c : CheckpointRecord) : json :=
  obj [("seq", JInt (ck_seq c)); ("reason", JStr (ck_reason c));
       ("created_at", JFloat (ck_created_at c)); ("record_id", JStr (ck_record_id c));
       ("state", JStr (ck_state c))].

(** [FailureEntry.to_dict] *)
Definition failure_to_dict (f : FailureEntry) : json :=
  obj ([("step_id", JStr (fe_step_id f)); ("provider", JStr (fe_provider f));
        ("model_id", JStr (fe_model_id f)); ("error_class", JStr (fe_error_class f));
        ("message", JStr (fe_message f)); ("created_at", JFloat (fe_created_at f))]
       ++ given "status_code" JInt (fe_status_code f)
       ++ given "quarantine_model" JStr (fe_quarantine_model f)
       ++ given "replacement_model" JStr (fe_replacement_model f)).

(** [ExecutionSession.to_dict] *)
Definition to_dict (s : ExecutionSession) : json :=
  obj [("schema_version", JStr (es_schema_version s)); ("session_id", JStr (es_session_id s));
       ("task_spec", JObj (es_task_spec s)); ("steps", JList (map step_to_dict (es_steps s)));
       ("current_step", jopt JStr (es_current_step s));
       ("completed_steps", JList (map JStr (es_completed_steps s)));
       ("checkpoints", JList (map checkpoint_to_dict (es_checkpoints s)));
       ("artifacts", JObj (es_artifacts s));
       ("attempts", JObj (map (fun p => (p.1, JInt p.2)) (es_attempts s)));
       ("failure_log", JList (map failure_to_dict (es_failure_log s)));
       ("state", JStr (state_value (es_state s))); ("model_id", jopt JStr (es_model_id s));
       ("bound_passport_key", jopt JStr (es_bound_passport_key s));
       ("created_at", JFloat (es_created_at s)); ("updated_at", JFloat (es_updated_at s))].

(** [StepRecord.from_dict] *)
Definition step_from_dict (v : json) : result session_exn StepRecord :=
  ms ← strict_mapping v ["step_id"; "name"; "status"; "started_at"]
         ["completed_at"; "model_id"; "tokens_used"; "evidence_receipt"; "error";
          "side_effect_kind"; "committed"] "step_record";
  step_id ← field as_str ms "step_id";
  name ← field as_str ms "name";
  status ← field as_str ms "status";
  started_at ← field as_float ms "started_at";
  completed_at ← field_or None (nullable as_float) ms "completed_at";
  model_id ← field_or None (nullable as_str) ms "model_id";
  tokens_used ← field_or 0 as_int ms "tokens_used";
  evidence_receipt ← field_or None (nullable as_str) ms "evidence_receipt";
  error ← field_or None (nullable as_str) ms "error";
  side_effect_kind ← field_or "read-only" as_str ms "side_effect_kind";
  committed ← field_or false as_bool ms "committed";
  Ok {| st_step_id := step_id; st_name := name; st_status := status;
        st_started_at := started_at; st_completed_at := completed_at; st_model_id := model_id;
        st_tokens_used := tokens_used; st_evidence_receipt := evidence_receipt;
        st_error := error; st_side_effect_kind := side_effect_kind;
        st_committed := committed |}.

(** [CheckpointRecord.from_dict] *)
Definition checkpoint_from_dict (v : json) : result session_exn CheckpointRecord :=
  ms ← strict_mapping v ["seq"; "reason"; "created_at"; "record_id"] ["state"]
         "checkpoint_record";
  seq ← field as_int ms "seq";
  reason ← field as_str ms "reason";
  created_at ← field as_float ms "created_at";
  record_id ← field as_str ms "record_id";
  state ← field_or "checkpointed" as_str ms "state";
  Ok {| ck_seq := seq; ck_reason := reason; ck_created_at := created_at;
        ck_record_id := record_id; ck_state := state |}.

(** [FailureEntry.from_dict] *)
Definition failure_from_dict (v : json) : result session_exn FailureEntry :=
  ms ← strict_mapping v
         ["step_id"; "provider"; "model_id"; "error_class"; "message"; "created_at"]
         ["status_code"; "quarantine_model"; "replacement_model"] "failure_entry";
  step_id ← field as_str ms "step_id";
  provider ← field as_str ms "provider";
  model_id ← field as_str ms "model_id";
  error_class ← field as_str ms "error_class";
  message ← field as_str ms "message";
  created_at ← field as_float ms "created_at";
  status_code ← field_or None (nullable as_int) ms "status_code";
  quarantine_model ← field_or None (nullable as_str) ms "quarantine_model";
  replacement_model ← field_or None (nullable as_str) ms "replacement_model";
  Ok {| fe_step_id := step_id; fe_provider := provider; fe_model_id := model_id;
        fe_error_class := error_class; fe_message := message; fe_created_at := created_at;
        fe_status_code := status_code; fe_quarantine_model := quarantine_model;
        fe_replacement_model := replacement_model |}.

(** The first pending step of a list. *)
Definition next_pending (steps : list StepRecord) : option string :=
  st_step_id <$> List.find (fun x => String.eqb (st_status x) "pending") steps.

(** The checks of [ExecutionSession.__post_init__] *)
Definition checked_state (session_id schema_version state : string) (steps : list StepRecord)
    : result session_exn SessionState :=
  _ ← raise_if (String.eqb (strip session_id) "")
        (ExecutionSessionError "session_id must be a non-empty string");
  _ ← raise_if (negb (String.eqb schema_version EXECUTION_SESSION_SCHEMA_VERSION))
        (ExecutionSessionError "schema_version must be '1'");
  st ← match state_of state with
       | Some st => Ok st
       | None => Err (ExecutionSessionError ("invalid session state: " +:+ repr state))
       end;
  _ ← raise_if (bool_decide (steps = []))
        (ExecutionSessionError "a session requires at least one step");
  Ok st.

(** The cursor that [__post_init__] sets when it is [None]. *)
Definition default_step (steps : list StepRecord) : option string :=
  match next_pending steps with
  | Some id => Some id
  | None => st_step_id <$> head steps
  end.

Definition cursor (current : option string) (steps : list StepRecord) : option string :=
  match current with Some id => Some id | None => default_step steps end.

(** [ExecutionSession.from_dict] *)
Definition from_dict (v : json) : result session_exn ExecutionSession :=
  ms ← strict_mapping v
         ["schema_version"; "session_id"; "task_spec"; "steps"; "current_step";
          "completed_steps"; "checkpoints"; "artifacts"; "attempts"; "failure_log"; "state";
          "created_at"; "updated_at"]
         ["model_id"; "bound_passport_key"] "execution_session";
  schema_version ← field as_str ms "schema_version";
  session_id ← field as_str ms "session_id";
  task_spec ← field as_obj ms "task_spec";
  steps ← field (fun v => vs ← as_list v; map_result step_from_dict vs) ms "steps";
  current_step ← field (nullable as_str) ms "current_step";
  completed_steps ← field (fun v => vs ← as_list v; map_result as_str vs) ms "completed_steps";
  checkpoints ← field (fun v => vs ← as_list v; map_result checkpoint_from_dict vs)
                  ms "checkpoints";
  artifacts ← field as_obj ms "artifacts";
  attempts ← field (fun v => vs ← as_obj v;
                    map_result (fun p => n ← as_int p.2; Ok (p.1, n)) vs) ms "attempts";
  failure_log ← field (fun v => vs ← as_list v; map_result failure_from_dict vs)
                  ms "failure_log";
  state ← field as_str ms "state";
  model_id ← field_or None (nullable as_str) ms "model_id";
  bound_passport_key ← field_or None (nullable as_str) ms "bound_passport_key";
  created_at ← field as_float ms "created_at";
  updated_at ← field as_float ms "updated_at";
  st ← checked_state session_id schema_version state steps;
  Ok {| es_session_id := session_id; es_task_spec := task_spec; es_steps := steps;
        es_current_step := cursor current_step steps; es_completed_steps := completed_steps;
        es_checkpoints := checkpoints; es_artifacts := artifacts;
        es_attempts := attempts; es_failure_log := failure_log; es_state := st;
        es_model_id := model_id; es_bound_passport_key := bound_passport_key;
        es_created_at := created_at; es_updated_at := updated_at;
        es_schema_version := schema_version |}.

(** * The world of a session *)

Record world := { w_session : ExecutionSession; w_plane : list MemoryRecord; w_reads : nat }.

(** A method: the world it leaves and what it returns or raises. *)
Definition op (A : Type) : Type := world -> world * result session_exn A.

#[export] Instance op_ret : MRet op := fun A a w => (w, Ok a).
#[export] Instance op_bind : MBind op := fun A B f m w =>
  match m w with
  | (w', Ok a) => f a w'
  | (w', Err e) => (w', Err e)
  end.

Definition raise {A} (e : session_exn) : op A := fun w => (w, Err e).

(** [if c: raise ExecutionSessionError(msg)] *)
Definition refuse (c : bool) (msg : string) : op unit :=
  if c then raise (ExecutionSessionError msg) else mret tt.

Definition the_session : op ExecutionSession := fun w => (w, Ok (w_session w)).

(** Assigns attributes of [self]. *)
Definition assign (f : ExecutionSession -> ExecutionSession) : op unit := fun w =>
  ({| w_session := f (w_session w); w_plane := w_plane w; w_reads := w_reads w |}, Ok tt).

Definition find_in (step_id : string) (steps : list StepRecord) : option StepRecord :=
  List.find (fun x => String.eqb (st_step_id x) step_id) steps.

(** [_find_step] *)
Definition find_step (step_id : string) : op StepRecord :=
  s ← the_session;
  match find_in step_id (es_steps s) with
  | Some x => mret x
  | None => raise (ExecutionSessionError ("unknown step " +:+ repr step_id))
  end.

(** Assigns attributes of the step object that [_find_step] returns. *)
Fixpoint update_in (step_id : string) (f : StepRecord -> StepRecord) (steps : list StepRecord)
    : list StepRecord :=
  match steps with
  | [] => []
  | x :: steps => if String.eqb (st_step_id x) step_id then f x :: steps
                  else x :: update_in step_id f steps
  end.

Definition assign_step (step_id : string) (f : StepRecord -> StepRecord) : op unit :=
  assign (fun s => set_steps (update_in step_id f (es_steps s)) s).

Definition or_model (model_id : option string) (s : ExecutionSession) : option string :=
  or_text model_id (es_model_id s).

(** [self.completed_steps.append(step_id)] unless it is there *)
Definition add_completed (step_id : string) (s : ExecutionSession) : ExecutionSession :=
  if mem step_id (es_completed_steps s) then s
  else set_completed_steps (es_completed_steps s ++ [step_id]) s.

Section sessions.
Context (sha256_hex : string -> string) (clock : nat -> string).

(** [time.time()] *)
Definition now : op string := fun w =>
  ({| w_session := w_session w; w_plane := w_plane w; w_reads := S (w_reads w) |},
   Ok (clock (w_reads w))).

(** The JSON text of a session. *)
Definition content (s : ExecutionSession) : string := dumps false (to_dict s).

(** The record that [_persist] builds. *)
Definition session_record (record_id : string) (s : ExecutionSession) : MemoryRecord :=
  {| mr_record_id := record_id; mr_namespace := SESSION_NAMESPACE; mr_key := es_session_id s;
     mr_content := content s; mr_source := "execution-session"; mr_scope := "default";
     mr_created_at := es_updated_at s; mr_updated_at := es_updated_at s;
     mr_expires_at := None; mr_supersedes := None; mr_content_hash := "";
     mr_status := Active |}.

(** [plane.put(record)] *)
Definition plane_put (t : string) (r : MemoryRecord) : op unit := fun w =>
  match put sha256_hex t r (w_plane w) with
  | Ok (pl, _) => ({| w_session := w_session w; w_plane := pl; w_reads := w_reads w |}, Ok tt)
  | Err e => (w, Err (PlaneError e))
  end.

(** [_persist]; [time.time()] is read in [MemoryPlane._normalize]. *)
Definition persist (record_id : string) : op unit :=
  s ← the_session;
  t ← now;
  plane_put t (session_record record_id s).

(** [f"{session_id}:ckpt:{seq}"] *)
Definition checkpoint_id (session_id : string) (seq : Z) : string :=
  session_id +:+ ":ckpt:" +:+ str_of_Z seq.

(** [checkpoint] *)
Definition checkpoint (reason : string) : op CheckpointRecord :=
  s ← the_session;
  let seq := Z.of_nat (length (es_checkpoints s)) + 1 in
  let record_id := checkpoint_id (es_session_id s) seq in
  t ← now;
  let record := {| ck_seq := seq; ck_reason := reason; ck_created_at := t;
                   ck_record_id := record_id; ck_state := "checkpointed" |} in
  _ ← assign (fun s => set_checkpoints (es_checkpoints s ++ [record]) s);
  t ← now;
  _ ← assign (set_updated t);
  _ ← persist record_id;
  mret record.

(** [start] *)
Definition start (model_id : option string) : op CheckpointRecord :=
  s ← the_session;
  _ ← refuse (negb (bool_decide (es_state s = Created \/ es_state s = Checkpointed \/
                                 es_state s = Failed)))
        ("cannot start session in state " +:+ repr (state_value (es_state s)));
  _ ← match model_id with Some m => assign (set_model (Some m)) | None => mret tt end;
  _ ← assign (set_state Running);
  _ ← assign (fun s => match es_current_step s with
                       | None => set_current (next_pending (es_steps s)) s
                       | Some _ => s
                       end);
  checkpoint "started".

(** [complete_step] up to the checkpoint that records the landed effect. *)
Definition commit_phase (step_id : string) (model_id : option string) : op StepRecord :=
  step ← find_step step_id;
  _ ← refuse (mem (st_status step) ["completed"; "failed"])
        ("step " +:+ repr step_id +:+ " already " +:+ st_status step);
  _ ← refuse (st_committed step && String.eqb (st_side_effect_kind step) "irreversible")
        ("irreversible step " +:+ repr step_id +:+ " already committed");
  _ ← match model_id with Some m => assign (set_model (Some m)) | None => mret tt end;
  _ ← if negb (st_committed step) && negb (String.eqb (st_side_effect_kind step) "read-only")
      then _ ← assign_step step_id commit_step;
           _ ← checkpoint ("step_committed:" +:+ step_id); mret tt
      else mret tt;
  mret step.

(** The rest of [complete_step]. *)
Definition finish_phase (step_id : string) (model_id : option string) (tokens_used : Z)
    (evidence_receipt : option string) : op CheckpointRecord :=
  t ← now;
  s ← the_session;
  _ ← assign_step step_id (fun x =>
        settle_step "completed" (st_error x) (Some t) (or_model model_id s) tokens_used
          evidence_receipt (st_committed x) x);
  _ ← assign (add_completed step_id);
  _ ← assign (fun s =>
        match next_pending (es_steps s) with
        | None => set_current None (set_state Completed s)
        | Some id => set_current (Some id) (set_state Checkpointed s)
        end);
  checkpoint ("step_completed:" +:+ step_id).

(** [complete_step] *)
Definition complete_step (step_id : string) (model_id : option string) (tokens_used : Z)
    (evidence_receipt : option string) : op CheckpointRecord :=
  _ ← commit_phase step_id model_id;
  finish_phase step_id model_id tokens_used evidence_receipt.

(** [fail_step] *)
Definition fail_step (step_id error : string) (model_id : option string) : op CheckpointRecord :=
  _ ← find_step step_id;
  t ← now;
  s ← the_session;
  _ ← assign_step step_id (fun x =>
        settle_step "failed" (Some error) (Some t) (or_model model_id s) (st_tokens_used x)
          (st_evidence_receipt x) (st_committed x) x);
  _ ← assign (set_state Failed);
  checkpoint ("step_failed:" +:+ step_id).

(** The step after a failover: a committed one is skipped, a failed one re-armed. *)
Definition rearmed (t : string) (x : StepRecord) : StepRecord :=
  if st_committed x then
    settle_step "completed" None (Some t) (st_model_id x) (st_tokens_used x)
      (st_evidence_receipt x) true x
  else if String.eqb (st_status x) "failed" then
    settle_step "pending" None None (st_model_id x) (st_tokens_used x)
      (st_evidence_receipt x) false x
  else x.

(** [self.attempts.get(step_id, 0)] *)
Definition attempts_of (step_id : string) (s : ExecutionSession) : Z :=
  default 0 (dict_get step_id (es_attempts s)).

(** The attributes [resume_from_failure] assigns before it looks at the step. *)
Definition failed_over (failure : FailureEntry) (model passport : option string)
    (s : ExecutionSession) : ExecutionSession :=
  let s1 := set_failure_log (es_failure_log s ++ [failure]) s in
  let s2 := set_attempts (obj_set (fe_step_id failure) (attempts_of (fe_step_id failure) s1 + 1)
                            (es_attempts s1)) s1 in
  match model with Some m => set_passport passport (set_model (Some m) s2) | None => s2 end.

(** [resume_from_failure] *)
Definition resume_from_failure (failure : FailureEntry) (replacement_model : option string)
    (replacement_passport_key : option string) (reason : string) : op CheckpointRecord :=
  let id := fe_step_id failure in
  _ ← assign (failed_over failure replacement_model replacement_passport_key);
  step ← find_step id;
  _ ← refuse (st_committed step && String.eqb (st_side_effect_kind step) "irreversible")
        ("irreversible step " +:+ repr id +:+ " already committed");
  t ← if st_committed step then now else mret "";
  _ ← assign_step id (rearmed t);
  _ ← if st_committed step then assign (add_completed id) else mret tt;
  _ ← assign (set_state Running);
  _ ← assign (fun s => set_current (if st_committed step then next_pending (es_steps s)
                                    else Some id) s);
  checkpoint reason.

(** [record_artifact] *)
Definition record_artifact (name : string) (value : json) : op unit :=
  _ ← assign (fun s => set_artifacts (obj_set name value (es_artifacts s)) s);
  t ← now;
  assign (set_updated t).

(** [ExecutionSession(...)] of [create]: all steps pending, the clock read once. *)
Definition new_session (session_id : string) (task_spec : list (string * json))
    (steps : list (string * string)) (model_id : option string) (created_at : string)
    : result session_exn ExecutionSession :=
  let records := map (fun p =>
    {| st_step_id := p.1; st_name := p.2; st_status := "pending"; st_started_at := created_at;
       st_completed_at := None; st_model_id := None; st_tokens_used := 0;
       st_evidence_receipt := None; st_error := None; st_side_effect_kind := "read-only";
       st_committed := false |}) steps in
  st ← checked_state session_id EXECUTION_SESSION_SCHEMA_VERSION "created" records;
  Ok {| es_session_id := session_id; es_task_spec := task_spec; es_steps := records;
        es_current_step := cursor None records; es_completed_steps := [];
        es_checkpoints := []; es_artifacts := []; es_attempts := []; es_failure_log := [];
        es_state := st; es_model_id := model_id; es_bound_passport_key := None;
        es_created_at := created_at; es_updated_at := created_at;
        es_schema_version := EXECUTION_SESSION_SCHEMA_VERSION |}.

(** [resume] *)
Definition resume (session_id now : string) (pl : list MemoryRecord)
    : result session_exn ExecutionSession :=
  match get pl now SESSION_NAMESPACE session_id "default" with
  | None => Err (ExecutionSessionError ("no checkpoint found for session " +:+ repr session_id))
  | Some r =>
      match loads (mr_content r) with
      | None => Err (ExecutionSessionError "stored session checkpoint is not valid JSON")
      | Some v => from_dict v
      end
  end.
End sessions.

(** * Well-formed sessions: floats are floats, dicts are dicts *)

Definition opt_float_ok (o : option string) : bool :=
  match o with Some r => float_ok r | None => true end.

Definition step_wf (x : StepRecord) : bool :=
  float_ok (st_started_at x) && opt_float_ok (st_completed_at x).

Record session_wf (s : ExecutionSession) : Prop := {
  sw_id : strip (es_session_id s) <> "";
  sw_schema : es_schema_version s = EXECUTION_SESSION_SCHEMA_VERSION;
  sw_nonempty : es_steps s <> [];
  sw_spec : json_wf (JObj (es_task_spec s)) = true;
  sw_steps : Forall (fun x => step_wf x = true) (es_steps s);
  sw_checkpoints : Forall (fun c => float_ok (ck_created_at c) = true) (es_checkpoints s);
  sw_artifacts : json_wf (JObj (es_artifacts s)) = true;
  sw_attempts : increasing (map fst (es_attempts s)) = true;
  sw_failures : Forall (fun f => float_ok (fe_created_at f) = true) (es_failure_log s);
  sw_created : float_ok (es_created_at s) = true;
  sw_updated : float_ok (es_updated_at s) = true
}.

(** A session as [resume] rebuilds it: [__post_init__] fills an empty cursor. *)
Definition reloaded (s : ExecutionSession) : ExecutionSession :=
  set_current (cursor (es_current_step s) (es_steps s)) s.

(** * Round trips *)

Lemma step_dict_roundtrip x : step_from_dict (step_to_dict x) = Ok x.
Proof.
  destruct x as [id name st sa ca mi tk er err k c]. unfold step_to_dict. cbn -[obj].
  destruct (String.eqb_spec k "read-only") as [->|_], c, ca, mi, tk, er, err; reflexivity.
Qed.

Lemma checkpoint_dict_roundtrip c : checkpoint_from_dict (checkpoint_to_dict c) = Ok c.
Proof. by destruct c. Qed.

Lemma failure_dict_roundtrip f : failure_from_dict (failure_to_dict f) = Ok f.
Proof. destruct f as [? ? ? ? ? ? sc qm rm]. unfold failure_to_dict. cbn -[obj]. by destruct sc, qm, rm. Qed.

Lemma state_roundtrip st : state_of (state_value st) = Some st.
Proof. by destruct st. Qed.

(** The members of [to_dict], as a list the proofs need not unfold. *)
Definition members_of (s : ExecutionSession) : list (string * json) :=
  match to_dict s with JObj ms => ms | _ => [] end.

Lemma to_dict_members s : to_dict s = JObj (members_of s).
Proof. reflexivity. Qed.

Lemma checked_ok s :
  session_wf s ->
  checked_state (es_session_id s) (es_schema_version s) (state_value (es_state s)) (es_steps s)
  = Ok (es_state s).
Proof.
  intros W. unfold checked_state. rewrite (sw_schema s W), state_roundtrip.
  destruct (String.eqb_spec (strip (es_session_id s)) "") as [E|_]; [by destruct (sw_id s W)|].
  rewrite bool_decide_false by apply W. reflexivity.
Qed.

Lemma dict_roundtrip s : session_wf s -> from_dict (to_dict s) = Ok (reloaded s).
Proof.
  intros W. unfold from_dict.
  assert (strict_mapping (to_dict s)
         ["schema_version"; "session_id"; "task_spec"; "steps"; "current_step";
          "completed_steps"; "checkpoints"; "artifacts"; "attempts"; "failure_log"; "state";
          "created_at"; "updated_at"]
         ["model_id"; "bound_passport_key"] "execution_session" = Ok (members_of s))
    as -> by reflexivity.
  cbn [mbind result_mbind result_bind].
  get_field "schema_version". get_field "session_id". get_field "task_spec".
  get_field "steps". rewrite (map_roundtrip _ _ _ step_dict_roundtrip).
  cbn [mbind result_mbind result_bind].
  get_field "current_step". rewrite nullable_str. cbn [mbind result_mbind result_bind].
  get_field "completed_steps". rewrite (map_roundtrip JStr as_str) by done.
  cbn [mbind result_mbind result_bind].
  get_field "checkpoints". rewrite (map_roundtrip _ _ _ checkpoint_dict_roundtrip).
  cbn [mbind result_mbind result_bind]. get_field "artifacts".
  get_field "attempts". rewrite (map_roundtrip (fun p : string * Z => (p.1, JInt p.2))) by by intros [].
  cbn [mbind result_mbind result_bind].
  get_field "failure_log". rewrite (map_roundtrip _ _ _ failure_dict_roundtrip).
  cbn [mbind result_mbind result_bind]. get_field "state".
  get_field "model_id". rewrite nullable_str. cbn [mbind result_mbind result_bind].
  get_field "bound_passport_key". rewrite nullable_str. cbn [mbind result_mbind result_bind].
  get_field "created_at". get_field "updated_at". rewrite checked_ok by done. by destruct s.
Qed.

(** Every member of a session's dict is well formed. *)
Lemma step_to_dict_wf x : step_wf x = true -> json_wf (step_to_dict x) = true.
Proof.
  intros [Hs Hc]%andb_true_iff. apply obj_wf. rewrite !Forall_app. split_and!.
  - by repeat constructor.
  - destruct (st_completed_at x); cbn; by repeat constructor.
  - destruct (st_model_id x); cbn; by repeat constructor.
  - destruct (st_tokens_used x =? 0); by repeat constructor.
  - destruct (st_evidence_receipt x); cbn; by repeat constructor.
  - destruct (st_error x); cbn; by repeat constructor.
  - destruct (String.eqb _ _); by repeat constructor.
  - destruct (st_committed x); by repeat constructor.
Qed.

Lemma checkpoint_to_dict_wf c : float_ok (ck_created_at c) = true -> json_wf (checkpoint_to_dict c) = true.
Proof. intros H. apply obj_wf. by repeat constructor. Qed.

Lemma failure_to_dict_wf f : float_ok (fe_created_at f) = true -> json_wf (failure_to_dict f) = true.
Proof.
  intros H. apply obj_wf. rewrite !Forall_app. split_and!; [by repeat constructor|..].
  - destruct (fe_status_code f); by repeat constructor.
  - destruct (fe_quarantine_model f); by repeat constructor.
  - destruct (fe_replacement_model f); by repeat constructor.
Qed.

Lemma to_dict_wf s : session_wf s -> json_wf (to_dict s) = true.
Proof.
  intros []. apply obj_wf. repeat (apply Forall_cons; split; [cbn [snd]|]); [..|constructor];
    try done.
  - by eapply list_wf, sw_steps0; apply step_to_dict_wf.
  - by destruct (es_current_step s).
  - by apply (list_wf JStr (fun _ => True)); [|apply Forall_true].
  - by eapply list_wf, sw_checkpoints0; apply checkpoint_to_dict_wf.
  - cbn [json_wf]. apply andb_true_iff. split.
    + by replace (map fst _) with (map fst (es_attempts s)) by by rewrite map_map.
    + apply forallb_wf, Forall_fmap, Forall_true. done.
  - by eapply list_wf, sw_failures0; apply failure_to_dict_wf.
  - by destruct (es_model_id s).
  - by destruct (es_bound_passport_key s).
Qed.

(** A checkpoint's text is read back as the session it was written from, except that
    an empty cursor comes back filled. *)
Theorem session_roundtrip s :
  session_wf s -> exists v, loads (content s) = Some v /\ from_dict v = Ok (reloaded s).
Proof.
  intros W. exists (to_dict s). split; [by apply loads_dumps, to_dict_wf|by apply dict_roundtrip].
Qed.
