(* ===== verification/SessionSafety.v ===== *)
(** Durable sessions across crashes: every operation keeps a session that can be
    checkpointed and a stored checkpoint that can be resumed, and what is known of a
    step survives crash and restart. *)
From Stdlib Require Import Ascii DecimalString.
From S2P Require Import Prelude PyStr Json JsonDict MemoryPlane Session.

#[local] Opaque to_dict from_dict dumps loads put get.

(** * Steps *)

Lemma update_in_elem id f steps y :
  y ∈ update_in id f steps -> y ∈ steps \/ exists x, find_in id steps = Some x /\ y = f x.
Proof.
  induction steps as [|x steps IH]; cbn; [set_solver|].
  destruct (String.eqb (st_step_id x) id); [set_solver|].
  rewrite !elem_of_cons. intros [->|[?|?]%IH]; eauto.
Qed.

Lemma update_in_nonempty id f steps : steps <> [] -> update_in id f steps <> [].
Proof. destruct steps as [|x steps]; [done|]. cbn. by case_match. Qed.

Lemma find_update id id' f steps :
  (forall x, st_step_id (f x) = st_step_id x) ->
  find_in id (update_in id' f steps) =
  (if String.eqb id id' then f else fun x => x) <$> find_in id steps.
Proof.
  intros Hf. unfold find_in. induction steps as [|x steps IH]; [done|]. cbn [update_in].
  destruct (String.eqb_spec (st_step_id x) id') as [<-|Hne]; cbn [List.find].
  - rewrite Hf, (String.eqb_sym id). destruct (String.eqb (st_step_id x) id); [done|].
    by destruct (List.find _ steps).
  - destruct (String.eqb_spec (st_step_id x) id) as [<-|_]; [|apply IH].
    by rewrite (proj2 (String.eqb_neq _ _) Hne).
Qed.

(** What [Q] says of the step [id]. *)
Definition holds (id : string) (Q : StepRecord -> Prop) (steps : list StepRecord) : Prop :=
  exists x, find_in id steps = Some x /\ Q x.

(** [Q] survives every assignment that the operations make to a step. *)
Class Stable (Q : StepRecord -> Prop) : Prop := {
  stable_commit x : Q x -> Q (commit_step x);
  stable_finish x e c m t r : Q x -> Q (settle_step "completed" e c m t r (st_committed x) x);
  stable_fail x e c m t r : Q x -> Q (settle_step "failed" e c m t r (st_committed x) x);
  stable_rearm x t : Q x -> Q (rearmed t x)
}.

(** The durable effect of the step has been recorded. *)
Definition landed (x : StepRecord) : Prop := st_committed x = true.

(** The step is settled for good: no operation makes it pending again. *)
Definition closed (x : StepRecord) : Prop :=
  st_committed x = true /\ st_status x ∈ ["completed"; "failed"].

Definition of_kind (k : string) (x : StepRecord) : Prop := st_side_effect_kind x = k.

#[export] Instance landed_stable : Stable landed.
Proof.
  constructor; unfold landed; intros; cbn; try done. unfold rearmed. by case_match.
Qed.

#[export] Instance closed_stable : Stable closed.
Proof.
  constructor; unfold closed; intros x.
  - intros [_ H]. by split.
  - intros e c m t r [H _]. split; [done|by left].
  - intros e c m t r [H _]. split; [done|by right; left].
  - intros t [H _]. unfold rearmed. rewrite H. split; [done|by left].
Qed.

#[export] Instance of_kind_stable k : Stable (of_kind k).
Proof.
  constructor; unfold of_kind; intros; cbn; try done. unfold rearmed. by repeat case_match.
Qed.

#[export] Instance and_stable P Q : Stable P -> Stable Q -> Stable (fun x => P x /\ Q x).
Proof.
  intros [] []. constructor; intros; naive_solver.
Qed.

#[export] Instance true_stable : Stable (fun _ => True).
Proof. by constructor. Qed.

(** The first step of a session is one that [_find_step] finds. *)
Lemma first_step s : es_steps s <> [] -> exists id, holds id (fun _ => True) (es_steps s).
Proof.
  destruct (es_steps s) as [|x steps]; [done|]. intros _. exists (st_step_id x), x.
  unfold find_in. cbn [List.find]. by rewrite String.eqb_refl.
Qed.

Lemma holds_update id Q id' f steps :
  (forall x, st_step_id (f x) = st_step_id x) -> (forall x, Q x -> Q (f x)) ->
  holds id Q steps -> holds id Q (update_in id' f steps).
Proof.
  intros Hf HQ (x & Hx & H). unfold holds. rewrite find_update, Hx by done.
  eexists. split; [done|]. case_match; auto.
Qed.

Lemma rearmed_id t x : st_step_id (rearmed t x) = st_step_id x.
Proof. unfold rearmed. by repeat case_match. Qed.

(** * Sessions that can be checkpointed *)

Lemma none_empty l : Forall (fun x => x <> "") l -> existsb (String.eqb "") l = false.
Proof. induction 1 as [|x l H _ IH]; [done|]. cbn [existsb]. rewrite IH. by destruct x. Qed.

Lemma str_of_Z_inj a b : str_of_Z a = str_of_Z b -> a = b.
Proof. intros H. pose proof (int_token_print a) as Ha. rewrite H, int_token_print in Ha. congruence. Qed.

Lemma checkpoint_id_inj sid a b : checkpoint_id sid a = checkpoint_id sid b -> a = b.
Proof.
  unfold checkpoint_id. intros H. apply (inj (String.append sid)) in H.
  apply (inj (String.append ":ckpt:")) in H. by apply str_of_Z_inj.
Qed.

Section safety.
Context (sha256_hex : string -> string) (clock : nat -> string).
Context (clock_ok : forall n, float_ok (clock n) = true).
Context (sid id : string) (Q : StepRecord -> Prop) {HQ : Stable Q}.

(** No stored record has an id that a later checkpoint will use. *)
Definition fresh (s : ExecutionSession) (pl : list MemoryRecord) : Prop :=
  forall n, Z.of_nat (length (es_checkpoints s)) < n ->
  checkpoint_id sid n ∉ map mr_record_id pl.

Record live (s : ExecutionSession) (pl : list MemoryRecord) : Prop := {
  lv_id : es_session_id s = sid;
  lv_wf : session_wf s;
  lv_fresh : fresh s pl;
  lv_holds : holds id Q (es_steps s)
}.

(** [resume] would find the text of [s]. *)
Definition stored (s : ExecutionSession) (pl : list MemoryRecord) : Prop :=
  forall t, exists r, get pl t SESSION_NAMESPACE sid "default" = Some r /\
                      mr_content r = content s.

Record inv (w : world) : Prop := {
  iv_live : live (w_session w) (w_plane w);
  iv_plane : plane_wf (w_plane w);
  iv_saved : exists s, stored s (w_plane w) /\ live s (w_plane w)
}.

Lemma content_nonempty s : session_wf s -> content s <> "".
Proof.
  intros W E. destruct (session_roundtrip s W) as (v & Hl & _). rewrite E in Hl.
  Transparent loads. by vm_compute in Hl. Opaque loads.
Qed.

Lemma sid_nonempty s : session_wf s -> es_session_id s <> "".
Proof. intros W E. apply (sw_id s W). by rewrite E. Qed.

(** The session after a checkpoint at the clock readings [n] and [n + 1]. *)
Definition checkpointed (reason : string) (n : nat) (s : ExecutionSession) : ExecutionSession :=
  let seq := Z.of_nat (length (es_checkpoints s)) + 1 in
  set_updated (clock (S n))
    (set_checkpoints (es_checkpoints s ++
       [{| ck_seq := seq; ck_reason := reason; ck_created_at := clock n;
           ck_record_id := checkpoint_id (es_session_id s) seq; ck_state := "checkpointed" |}]) s).

Lemma checkpointed_wf reason n s : session_wf s -> session_wf (checkpointed reason n s).
Proof.
  intros []. constructor; cbn; try done. apply Forall_app. by repeat constructor; cbn.
Qed.

(** A checkpoint of a live session succeeds, and it is what [resume] finds. *)
Lemma checkpoint_ok reason w :
  live (w_session w) (w_plane w) -> plane_wf (w_plane w) ->
  exists pl rec,
    checkpoint sha256_hex clock reason w =
      ({| w_session := checkpointed reason (w_reads w) (w_session w); w_plane := pl;
          w_reads := 3 + w_reads w |}, Ok rec) /\
    live (checkpointed reason (w_reads w) (w_session w)) pl /\ plane_wf pl /\
    stored (checkpointed reason (w_reads w) (w_session w)) pl.
Proof.
  destruct w as [s pl n]. cbn. intros [Hid W Hf Hh] Hpl.
  set (seq := Z.of_nat (length (es_checkpoints s)) + 1).
  set (s' := checkpointed reason n s).
  assert (W' : session_wf s') by by apply checkpointed_wf.
  set (r := session_record (checkpoint_id (es_session_id s) seq) s').
  assert (Hnew : mr_record_id r ∉ map mr_record_id pl) by (cbn; rewrite Hid; apply Hf; lia).
  destruct (put_succeeds sha256_hex (clock (2 + n)) r pl Hnew) as (pl' & st & Hput).
  { apply none_empty. pose proof (sid_nonempty s W). pose proof (content_nonempty s' W').
    repeat (apply Forall_cons; split; [|]); try done. cbn. unfold checkpoint_id.
    by destruct (es_session_id s). }
  { done. }
  exists pl', {| ck_seq := seq; ck_reason := reason; ck_created_at := clock n;
           ck_record_id := checkpoint_id (es_session_id s) seq; ck_state := "checkpointed" |}.
  split_and!.
  - unfold checkpoint, persist, plane_put, mbind, op_bind, the_session, now, assign; cbn.
    fold seq. change (put _ _ _ _) with (put sha256_hex (clock (2 + n)) r pl). by rewrite Hput.
  - constructor; [done|done| |done]. intros m Hm. cbn in Hm. rewrite length_app in Hm. cbn in Hm.
    destruct (put_immutable _ _ _ _ _ _ Hput) as [E|[_ E]].
    + rewrite (immutable_ids _ _ E). apply Hf. lia.
    + assert (map mr_record_id pl' = map mr_record_id (pl ++ [r])) as ->.
      { apply immutable_ids. by rewrite E, map_app. }
      rewrite map_app, not_elem_of_app. split; [apply Hf; lia|].
      cbn. rewrite list_elem_of_singleton, Hid. intros ?%checkpoint_id_inj. lia.
  - by eapply put_wf.
  - intros t. exists st. pose proof (get_put _ _ t _ _ _ _ Hpl Hput Hnew eq_refl eq_refl) as [Hg Hi].
    cbn in Hg. rewrite Hid in Hg. split; [done|]. by injection Hi.
Qed.

(** The invariant holds after the operation, and when it returned, its last
    checkpoint is of the session it left. *)
Definition settles {A} (out : world * result session_exn A) : Prop :=
  inv out.1 /\ (is_ok out.2 = true -> stored (w_session out.1) (w_plane out.1)).

Lemma checkpoint_settles reason w :
  live (w_session w) (w_plane w) -> plane_wf (w_plane w) ->
  settles (checkpoint sha256_hex clock reason w).
Proof.
  intros L P. destruct (checkpoint_ok reason w L P) as (pl & rec & -> & L' & P' & S).
  split; [|done]. constructor; cbn; [done|done|]. eauto.
Qed.

Lemma raise_settles {A} w e : inv w -> settles (w, Err e : result session_exn A).
Proof. by split. Qed.

Lemma live_change s s' pl :
  live s pl -> es_session_id s' = es_session_id s -> es_checkpoints s' = es_checkpoints s ->
  session_wf s' -> holds id Q (es_steps s') -> live s' pl.
Proof.
  intros [Hid W Hf Hh] Ei Ec W' Hh'. constructor; [by rewrite Ei|done| |done].
  intros n. rewrite Ec. apply Hf.
Qed.

(** An operation that raised has changed the session only. *)
Lemma raised_keeps w s' n : inv w -> live s' (w_plane w) ->
  inv {| w_session := s'; w_plane := w_plane w; w_reads := n |}.
Proof. intros [_ P S] L. by constructor. Qed.

Lemma wf_update s id' f :
  session_wf s ->
  (forall x, find_in id' (es_steps s) = Some x -> step_wf x = true -> step_wf (f x) = true) ->
  session_wf (set_steps (update_in id' f (es_steps s)) s).
Proof.
  intros W Hf. pose proof (sw_steps s W) as Hs. pose proof (sw_nonempty s W) as Hn.
  destruct W. constructor; cbn; try done; [by apply update_in_nonempty|].
  rewrite Forall_forall in Hs. apply Forall_forall.
  intros y [Hy|(x & Hx & ->)]%update_in_elem; [auto|].
  apply Hf; [done|]. apply Hs. unfold find_in in Hx. apply List.find_some in Hx as [Hx _].
  by apply list_elem_of_In.
Qed.

Lemma live_update s pl id' f :
  live s pl -> (forall x, st_step_id (f x) = st_step_id x) -> (forall x, Q x -> Q (f x)) ->
  (forall x, find_in id' (es_steps s) = Some x -> step_wf x = true -> step_wf (f x) = true) ->
  live (set_steps (update_in id' f (es_steps s)) s) pl.
Proof.
  intros L Hid Hq Hw. eapply live_change; [exact L|done|done|by apply wf_update, Hw; apply L|].
  apply holds_update; [done|done|apply L].
Qed.

(** A change of attributes that the invariant does not look at. *)
Lemma live_same s s' pl :
  live s pl ->
  (es_session_id s', es_schema_version s', es_steps s', es_task_spec s', es_checkpoints s',
   es_artifacts s', es_attempts s', es_failure_log s', es_created_at s', es_updated_at s') =
  (es_session_id s, es_schema_version s, es_steps s, es_task_spec s, es_checkpoints s,
   es_artifacts s, es_attempts s, es_failure_log s, es_created_at s, es_updated_at s) ->
  live s' pl.
Proof.
  intros L [= E1 E2 E3 E4 E5 E6 E7 E8 E9 E10].
  eapply live_change; [exact L|done|done| |rewrite E3; apply L].
  destruct (lv_wf _ _ L). constructor; congruence.
Qed.
End safety.

(** Executes an operation up to its checkpoint. *)
Ltac run_op :=
  unfold mbind, op_bind, mret, op_ret, refuse, raise, the_session, assign_step, assign, now;
  cbn -[checkpoint update_in find_in next_pending mem String.eqb rearmed or_model
       failed_over add_completed].

Section operations.
Context (sha256_hex : string -> string) (clock : nat -> string).
Context (clock_ok : forall n, float_ok (clock n) = true).
Context (sid id : string) (Q : StepRecord -> Prop) {HQ : Stable Q}.
#[local] Abbreviation inv := (inv sid id Q).
#[local] Abbreviation live := (live sid id Q).
#[local] Abbreviation settles := (settles sid id Q).

Lemma start_settles m w : inv w -> settles (start sha256_hex clock m w).
Proof using clock_ok HQ.
  intros I. destruct w as [s pl n]. pose proof (iv_live _ _ _ _ I) as L. cbn in L. unfold start. run_op.
  destruct (bool_decide _); [|by apply raise_settles]. run_op.
  destruct m as [m|]; run_op; (apply checkpoint_settles; [done|cbn|apply I]);
    (eapply live_same; [exact L|]); cbn; by destruct (es_current_step s).
Qed.

Lemma fail_settles id' error m w : inv w -> settles (fail_step sha256_hex clock id' error m w).
Proof using clock_ok HQ.
  intros I. destruct w as [s pl n]. pose proof (iv_live _ _ _ _ I) as L. cbn in L.
  unfold fail_step, find_step. run_op. destruct (find_in id' (es_steps s)) as [x|] eqn:Hx; [|by apply raise_settles].
  run_op. apply checkpoint_settles; [done|cbn|apply I].
  eapply live_same; [eapply (live_update _ _ _ s pl id' (fun x =>
    settle_step "failed" (Some error) (Some (clock n)) (or_model m s) (st_tokens_used x)
      (st_evidence_receipt x) (st_committed x) x)); [exact L|done|..]|done].
  - intros y. apply stable_fail.
  - intros y _ [Hs _]%andb_true_iff. unfold step_wf. cbn. by rewrite Hs, clock_ok.
Qed.

Lemma assign_live m s pl : live s pl ->
  live (match m with Some x => set_model (Some x) s | None => s end) pl.
Proof using. intros L. destruct m; [|done]. by eapply live_same. Qed.

Lemma commit_live id' s pl : live s pl ->
  live (set_steps (update_in id' commit_step (es_steps s)) s) pl.
Proof using HQ. intros L. apply live_update; try done. apply stable_commit. Qed.

(** The session that [commit_phase] checkpoints. *)
Lemma commit_phase_cases id' m w :
  inv w ->
  (exists e, commit_phase sha256_hex clock id' m w = (w, Err e)) \/
  exists x s pl n, commit_phase sha256_hex clock id' m w =
      ({| w_session := s; w_plane := pl; w_reads := n |}, Ok x) /\
    inv {| w_session := s; w_plane := pl; w_reads := n |} /\
    find_in id' (es_steps (w_session w)) = Some x /\
    st_status x ∉ ["completed"; "failed"] /\
    (st_side_effect_kind x = "irreversible" -> st_committed x = false) /\
    (if st_committed x || String.eqb (st_side_effect_kind x) "read-only"
     then pl = w_plane w /\ es_steps s = es_steps (w_session w)
     else stored sid s pl /\ es_steps s = update_in id' commit_step (es_steps (w_session w))).
Proof using clock_ok HQ.
  intros I. destruct w as [s pl n]. pose proof (iv_live _ _ _ _ I) as L. cbn in L.
  unfold commit_phase, find_step. run_op.
  destruct (find_in id' (es_steps s)) as [x|] eqn:Hx; run_op; [|eauto].
  destruct (mem (st_status x) _) eqn:Hst; run_op; [eauto|]. apply mem_false in Hst.
  destruct (st_committed x && _) eqn:Hc; run_op; [eauto|]. right. exists x.
  assert (Hirr : st_side_effect_kind x = "irreversible" -> st_committed x = false).
  { intros Hk. rewrite Hk in Hc. by destruct (st_committed x). }
  set (s1 := match m with Some y => set_model (Some y) s | None => s end).
  assert (Es : es_steps s1 = es_steps s) by by destruct m.
  assert (L1 : live s1 pl) by by apply assign_live.
  destruct (st_committed x || String.eqb (st_side_effect_kind x) "read-only") eqn:Hb.
  - assert (negb (st_committed x) && negb (String.eqb (st_side_effect_kind x) "read-only") = false)
      as Hneg by (by rewrite <- negb_orb, Hb).
    exists s1, pl, n. rewrite Hneg. split; [by destruct m|]. split; [|by split_and!].
    constructor; [done|apply I|apply I].
  - assert (negb (st_committed x) && negb (String.eqb (st_side_effect_kind x) "read-only") = true)
      as Hneg by (by rewrite <- negb_orb, Hb).
    rewrite Hneg.
    destruct (checkpoint_ok sha256_hex clock clock_ok sid id Q ("step_committed:" +:+ id')
      {| w_session := set_steps (update_in id' commit_step (es_steps s1)) s1; w_plane := pl;
         w_reads := n |}) as (pl' & rec & E & L' & P' & S'); [by apply commit_live|apply I|].
    cbn [w_session w_plane w_reads] in *.
    exists (checkpointed clock ("step_committed:" +:+ id') n
              (set_steps (update_in id' commit_step (es_steps s1)) s1)), pl', (3 + n)%nat.
    split; [subst s1; destruct m; cbn in E |- *; by rewrite E|].
    split; [constructor; [exact L'|exact P'|]; eexists; split; [exact S'|exact L']|].
    split_and!; [done|done|done|exact S'|]. change (update_in id' commit_step (es_steps s1)
      = update_in id' commit_step (es_steps s)). by rewrite Es.
Qed.

(** [finish_phase] returns, its checkpoint holds the completed step. *)
Lemma finish_result id' m tokens receipt w :
  inv w ->
  settles (finish_phase sha256_hex clock id' m tokens receipt w) /\
  is_ok (finish_phase sha256_hex clock id' m tokens receipt w).2 = true /\
  es_steps (w_session (finish_phase sha256_hex clock id' m tokens receipt w).1) =
  update_in id' (fun x => settle_step "completed" (st_error x) (Some (clock (w_reads w)))
    (or_model m (w_session w)) tokens receipt (st_committed x) x) (es_steps (w_session w)).
Proof using clock_ok HQ.
  intros I. destruct w as [s pl n]. pose proof (iv_live _ _ _ _ I) as L. cbn in L.
  unfold finish_phase. run_op.
  set (f := fun x => settle_step "completed" (st_error x) (Some (clock n)) (or_model m s) tokens
    receipt (st_committed x) x).
  assert (Lf : live (set_steps (update_in id' f (es_steps s)) s) pl).
  { apply live_update; try done.
    - intros y. apply stable_finish.
    - intros y _ [Hs _]%andb_true_iff. unfold step_wf. cbn. by rewrite Hs, clock_ok. }
  match goal with |- context [checkpoint _ _ _ {| w_session := ?u |}] => set (s' := u) end.
  assert (Ls : live s' pl).
  { eapply live_same; [exact Lf|]. unfold s', add_completed. by repeat case_match. }
  assert (Es : es_steps s' = update_in id' f (es_steps s)).
  { unfold s', add_completed. by repeat case_match. }
  destruct (checkpoint_ok sha256_hex clock clock_ok sid id Q ("step_completed:" +:+ id')
    {| w_session := s'; w_plane := pl; w_reads := S n |} Ls (iv_plane _ _ _ _ I))
    as (pl' & rec & E & L' & P' & S'). rewrite E.
  split_and!; [|done|exact Es]. split; [|done]. constructor; [exact L'|exact P'|].
  by eexists.
Qed.

Lemma finish_settles id' m tokens receipt w :
  inv w -> settles (finish_phase sha256_hex clock id' m tokens receipt w).
Proof using clock_ok HQ. intros I. by apply finish_result. Qed.

Lemma complete_settles id' m tokens receipt w :
  inv w -> settles (complete_step sha256_hex clock id' m tokens receipt w).
Proof using clock_ok HQ.
  intros I. unfold complete_step, mbind, op_bind.
  destruct (commit_phase_cases id' m w I) as [[e ->]|(x & s & pl & n & -> & I' & _)].
  - by apply raise_settles.
  - by apply finish_settles.
Qed.

Lemma failed_over_live failure m pk s pl :
  float_ok (fe_created_at failure) = true -> live s pl -> live (failed_over failure m pk s) pl.
Proof using.
  intros Hf L. pose proof (lv_wf _ _ _ _ _ L) as W.
  assert (W' : session_wf (set_attempts (obj_set (fe_step_id failure)
    (attempts_of (fe_step_id failure) s + 1) (es_attempts s))
    (set_failure_log (es_failure_log s ++ [failure]) s))).
  { destruct W. constructor; cbn; try done.
    - by apply obj_set_increasing.
    - apply Forall_app. by repeat constructor. }
  unfold failed_over. destruct m as [m|]; (eapply live_change; [exact L|done|done| |apply L]).
  - destruct W'. by constructor.
  - exact W'.
Qed.

(** The checkpoint after the step is re-armed, with or without its entry in
    [completed_steps]. *)
Lemma rearmed_checkpoint reason t id' (skip : bool) s1 pl cur k :
  plane_wf pl -> live (set_steps (update_in id' (rearmed t) (es_steps s1)) s1) pl ->
  let s' := (if skip then add_completed id' else fun z : ExecutionSession => z)
              (set_steps (update_in id' (rearmed t) (es_steps s1)) s1) in
  let out := checkpoint sha256_hex clock reason
    {| w_session := set_current cur (set_state Running s'); w_plane := pl; w_reads := k |} in
  settles out /\ (is_ok out.2 = true ->
    (es_attempts (w_session out.1), es_model_id (w_session out.1),
     es_bound_passport_key (w_session out.1), es_failure_log (w_session out.1),
     es_state (w_session out.1)) =
    (es_attempts s1, es_model_id s1, es_bound_passport_key s1, es_failure_log s1, Running) /\
    exists t, es_steps (w_session out.1) = update_in id' (rearmed t) (es_steps s1)).
Proof using clock_ok HQ.
  intros P Lt. cbv zeta. match goal with |- context [set_state Running ?u] => set (s' := u) end.
  destruct (checkpoint_ok sha256_hex clock clock_ok sid id Q reason
    {| w_session := set_current cur (set_state Running s'); w_plane := pl; w_reads := k |})
    as (pl' & rec & E & L' & P' & S').
  { cbn. eapply live_same; [exact Lt|]. unfold s', add_completed. by repeat case_match. }
  { exact P. }
  rewrite E. split; [split; [constructor; [exact L'|exact P'|by eexists]|done]|].
  intros _. cbn. unfold s', add_completed. by repeat case_match; split; try exists t.
Qed.

(** [resume_from_failure] settles; when it returns, the failure is counted, the
    replacement bound and the step re-armed in the session it leaves. *)
Lemma resume_failure_result failure m pk reason w :
  float_ok (fe_created_at failure) = true -> inv w ->
  let out := resume_from_failure sha256_hex clock failure m pk reason w in
  let s1 := failed_over failure m pk (w_session w) in
  settles out /\
  (is_ok out.2 = true ->
   let s' := w_session out.1 in
   (es_attempts s', es_model_id s', es_bound_passport_key s', es_failure_log s', es_state s') =
   (es_attempts s1, es_model_id s1, es_bound_passport_key s1, es_failure_log s1, Running) /\
   exists t, es_steps s' = update_in (fe_step_id failure) (rearmed t) (es_steps (w_session w))).
Proof using clock_ok HQ.
  intros Hf I. cbv zeta. destruct w as [s pl n]. pose proof (iv_live _ _ _ _ I) as L. cbn in L.
  apply (failed_over_live failure m pk) in L; [|done].
  cbn [w_session]. set (s1 := failed_over failure m pk s) in *.
  assert (Es1 : es_steps s1 = es_steps s) by (unfold s1, failed_over; by destruct m).
  assert (I1 : inv {| w_session := s1; w_plane := pl; w_reads := n |}).
  { constructor; [exact L|apply I|apply I]. }
  set (id' := fe_step_id failure).
  unfold resume_from_failure, find_step. run_op. fold id'. fold s1.
  destruct (find_in id' (es_steps s1)) as [x|] eqn:Hx; run_op; [|by split; [apply raise_settles|]].
  destruct (st_committed x && _); run_op; [by split; [apply raise_settles|]|].
  assert (Hw : forall t, st_committed x = false \/ float_ok t = true ->
    live (set_steps (update_in id' (rearmed t) (es_steps s1)) s1) pl).
  { intros t Ht. apply live_update; try done.
    - intros y. apply rearmed_id.
    - intros y. apply stable_rearm.
    - intros y Hy [Hs Hc]%andb_true_iff. rewrite Hx in Hy. injection Hy as <-.
      unfold rearmed, step_wf. destruct (st_committed x); cbn.
      + destruct Ht as [?|Ht]; [done|]. by rewrite Hs, Ht.
      + destruct (String.eqb _ _); cbn; by rewrite Hs. }
  destruct (st_committed x) eqn:Hc; run_op.
  - rewrite <- Es1. apply (rearmed_checkpoint reason (clock n) id' true);
      [apply I1|apply Hw; right; apply clock_ok].
  - rewrite <- Es1. apply (rearmed_checkpoint reason "" id' false); [apply I1|by apply Hw; left].
Qed.

Lemma resume_failure_settles failure m pk reason w :
  float_ok (fe_created_at failure) = true -> inv w ->
  settles (resume_from_failure sha256_hex clock failure m pk reason w).
Proof using clock_ok HQ. intros Hf I. by apply resume_failure_result. Qed.

Lemma artifact_keeps name value w :
  json_wf value = true -> inv w -> inv (record_artifact clock name value w).1.
Proof using clock_ok.
  intros Hv I. destruct w as [s pl n]. pose proof (iv_live _ _ _ _ I) as L. cbn in L.
  unfold record_artifact. run_op. apply (raised_keeps _ _ _ _ _ _ I). cbn.
  eapply live_change; [exact L|done|done| |apply L]. pose proof (lv_wf _ _ _ _ _ L) as W.
  pose proof (sw_artifacts s W) as [Hk Hall]%andb_true_iff.
  destruct W. constructor; cbn -[json_wf]; try done.
  cbn. apply andb_true_iff. split; [by apply obj_set_increasing|].
  apply forallb_wf, Forall_obj_set; [done|]. by apply forallb_wf.
Qed.
End operations.

(** * Crashes and restarts *)

(** A call of one of the methods. *)
Inductive call :=
| CallCheckpoint (reason : string)
| CallStart (model : option string)
| CallComplete (step_id : string) (model : option string) (tokens : Z) (receipt : option string)
| CallFail (step_id error : string) (model : option string)
| CallFailover (failure : FailureEntry) (model passport : option string) (reason : string)
| CallArtifact (name : string) (value : json).

(** Its arguments are what their annotations say. *)
Definition call_ok (c : call) : Prop :=
  match c with
  | CallFailover f _ _ _ => float_ok (fe_created_at f) = true
  | CallArtifact _ v => json_wf v = true
  | _ => True
  end.

(** The calls that end in a checkpoint. *)
Definition checkpoints (c : call) : bool :=
  match c with CallArtifact _ _ => false | _ => true end.

(** What of a step's work the outside has seen: [complete_step] returned, or the
    process died in it after the commit checkpoint. *)
Inductive event := Finished (step_id : string) | Interrupted (step_id : string).

#[global] Instance event_eq_dec : EqDecision event.
Proof. solve_decision. Defined.

(** A process that holds the session, or none. *)
Inductive sys := Up (w : world) | Down (pl : list MemoryRecord) (reads : nat).

Section system.
Context (sha256_hex : string -> string) (clock : nat -> string).

Definition run_call (c : call) : op unit :=
  match c with
  | CallCheckpoint reason => _ ← checkpoint sha256_hex clock reason; mret tt
  | CallStart m => _ ← start sha256_hex clock m; mret tt
  | CallComplete id m n r => _ ← complete_step sha256_hex clock id m n r; mret tt
  | CallFail id e m => _ ← fail_step sha256_hex clock id e m; mret tt
  | CallFailover f m pk r => _ ← resume_from_failure sha256_hex clock f m pk r; mret tt
  | CallArtifact k v => record_artifact clock k v
  end.

Definition call_events (c : call) (r : result session_exn unit) : list event :=
  match c, r with CallComplete id _ _ _, Ok _ => [Finished id] | _, _ => [] end.

(** A record of another key, under an id that is none of the session's. *)
Definition foreign (sid : string) (r : MemoryRecord) : Prop :=
  of_key SESSION_NAMESPACE "default" sid r = false /\
  forall n, mr_record_id r <> checkpoint_id sid n.

Definition plane_of (S : sys) : list MemoryRecord :=
  match S with Up w => w_plane w | Down pl _ => pl end.

Definition with_plane (pl : list MemoryRecord) (S : sys) : sys :=
  match S with
  | Up w => Up {| w_session := w_session w; w_plane := pl; w_reads := w_reads w |}
  | Down _ n => Down pl n
  end.

(** One step: a call, which may raise; the process dies, between calls or inside
    [complete_step] after its first checkpoint; a process resumes the session; somebody
    else writes to the plane. *)
Inductive sys_step (sid : string) : sys -> list event -> sys -> Prop :=
| step_call c w w' r :
    call_ok c -> run_call c w = (w', r) -> sys_step sid (Up w) (call_events c r) (Up w')
| step_crash w : sys_step sid (Up w) [] (Down (w_plane w) (w_reads w))
| step_crash_inside id m w w' x :
    commit_phase sha256_hex clock id m w = (w', Ok x) ->
    sys_step sid (Up w) [Interrupted id] (Down (w_plane w') (w_reads w'))
| step_resume pl n s :
    resume sid (clock n) pl = Ok s ->
    sys_step sid (Down pl n) [] (Up {| w_session := s; w_plane := pl; w_reads := n |})
| step_other now r pl stored S :
    foreign sid r -> put sha256_hex now r (plane_of S) = Ok (pl, stored) ->
    sys_step sid S [] (with_plane pl S).

Inductive reach (sid : string) (S0 : sys) : list event -> sys -> Prop :=
| reach_start : reach sid S0 [] S0
| reach_step log S evs S' :
    reach sid S0 log S -> sys_step sid S evs S' -> reach sid S0 (log ++ evs) S'.

(** A new session on a plane that has no checkpoint of it, after its first one. *)
Record opened (sid : string) (s : ExecutionSession) (w : world) : Prop := {
  op_id : es_session_id s = sid;
  op_wf : session_wf s;
  op_first : es_checkpoints s = [];
  op_run : exists reason pl n rec,
    plane_wf pl /\ (forall k, checkpoint_id sid k ∉ map mr_record_id pl) /\
    checkpoint sha256_hex clock reason {| w_session := s; w_plane := pl; w_reads := n |}
    = (w, Ok rec)
}.
End system.

Section system_safety.
Context (sha256_hex : string -> string) (clock : nat -> string).
Context (clock_ok : forall n, float_ok (clock n) = true).
Context (sid id : string).
#[local] Abbreviation step := (sys_step sha256_hex clock sid).

(** The invariant of a system, with what is known of the step [id]. *)
Definition sys_inv (Q : StepRecord -> Prop) (S : sys) : Prop :=
  match S with
  | Up w => inv sid id Q w
  | Down pl n => plane_wf pl /\ exists s, stored sid s pl /\ live sid id Q s pl
  end.

Section one_fact.
Context (Q : StepRecord -> Prop) {HQ : Stable Q}.

Lemma reloaded_live s pl : live sid id Q s pl -> live sid id Q (reloaded s) pl.
Proof using. intros L. by eapply live_same. Qed.

Lemma resume_stored s pl t :
  stored sid s pl -> live sid id Q s pl -> resume sid t pl = Ok (reloaded s).
Proof using.
  intros Hs L. destruct (Hs t) as (r & Hg & Hc). unfold resume. rewrite Hg, Hc.
  destruct (session_roundtrip s (lv_wf _ _ _ _ _ L)) as (v & -> & ->). done.
Qed.

Lemma call_settles c w :
  call_ok c -> inv sid id Q w ->
  inv sid id Q (run_call sha256_hex clock c w).1 /\
  (checkpoints c = true -> is_ok (run_call sha256_hex clock c w).2 = true ->
   stored sid (w_session (run_call sha256_hex clock c w).1) (w_plane (run_call sha256_hex clock c w).1)).
Proof using clock_ok HQ.
  assert (Hbind : forall m : op CheckpointRecord, settles sid id Q (m w) ->
    settles sid id Q ((_ ← m; mret tt : op unit) w)).
  { intros m. unfold mbind, op_bind. by destruct (m w) as [w' []]. }
  intros Hc I. destruct c as [reason|m|i m n r|i e m|f m pk r|k v]; cbn [run_call checkpoints].
  - destruct (Hbind (checkpoint sha256_hex clock reason)); [|by split].
    apply checkpoint_settles; [done|apply I..].
  - destruct (Hbind (start sha256_hex clock m)); [by apply start_settles|by split].
  - destruct (Hbind (complete_step sha256_hex clock i m n r)); [by apply complete_settles|by split].
  - destruct (Hbind (fail_step sha256_hex clock i e m)); [by apply fail_settles|by split].
  - destruct (Hbind (resume_from_failure sha256_hex clock f m pk r));
      [by apply resume_failure_settles|by split].
  - split; [by apply artifact_keeps|done].
Qed.

Lemma foreign_live r now pl pl' st s :
  foreign sid r -> put sha256_hex now r pl = Ok (pl', st) -> live sid id Q s pl ->
  live sid id Q s pl'.
Proof using.
  intros [_ Hid] Hp [? ? Hf ?]. constructor; try done. intros n Hn.
  destruct (put_immutable _ _ _ _ _ _ Hp) as [E|[_ E]].
  - rewrite (immutable_ids _ _ E). by apply Hf.
  - assert (map mr_record_id pl' = map mr_record_id (pl ++ [r])) as ->.
    { apply immutable_ids. by rewrite E, map_app. }
    rewrite map_app, not_elem_of_app. split; [by apply Hf|].
    cbn. rewrite list_elem_of_singleton. intros E'. by apply (Hid n).
Qed.

Lemma foreign_stored r now pl pl' st s :
  plane_wf pl -> foreign sid r -> put sha256_hex now r pl = Ok (pl', st) ->
  stored sid s pl -> stored sid s pl'.
Proof using.
  intros Hw [Hk _] Hp Hs t. destruct (Hs t) as (x & Hg & Hc). exists x.
  by rewrite (get_put_other _ _ t _ _ _ _ _ _ _ Hw Hp Hk).
Qed.

Lemma step_inv S evs S' : sys_inv Q S -> step S evs S' -> sys_inv Q S'.
Proof using clock_ok HQ.
  intros I. inversion 1 as [c w w' r Hc Hr|w|i m w w' x Hr|pl n s Hr|now r pl st S1 Hf Hp]; subst.
  - pose proof (call_settles c w Hc I) as [I' _]. by rewrite Hr in I'.
  - split; apply I.
  - destruct (commit_phase_cases sha256_hex clock clock_ok sid id Q i m w I)
      as [[e He]|(y & s & pl & n & He & I' & _)]; rewrite He in Hr; [done|].
    injection Hr as <- <-. split; apply I'.
  - destruct I as [Hpl (s0 & Hs & L)]. rewrite (resume_stored s0 pl (clock n) Hs L) in Hr.
    injection Hr as <-. constructor; cbn; [by apply reloaded_live|done|eauto].
  - destruct S as [w|pl0 n]; cbn in *.
    + destruct I as [L Hw (s0 & Hs & L0)]. constructor; cbn.
      * by eapply foreign_live.
      * by eapply put_wf.
      * exists s0. split; [by eapply foreign_stored|by eapply foreign_live].
    + destruct I as [Hw (s0 & Hs & L0)]. split; [by eapply put_wf|].
      exists s0. split; [by eapply foreign_stored|by eapply foreign_live].
Qed.

Lemma opened_inv s w :
  opened sha256_hex clock sid s w -> holds id Q (es_steps s) -> inv sid id Q w.
Proof using clock_ok HQ.
  intros [Hid W Hc (reason & pl & n & rec & Hpl & Hf & Hr)] Hq.
  destruct (checkpoint_settles sha256_hex clock clock_ok sid id Q reason
    {| w_session := s; w_plane := pl; w_reads := n |}) as [I _]; [|done|by rewrite Hr in I].
  constructor; try done. intros k _. apply Hf.
Qed.
End one_fact.

Lemma inv_weaken (P R : StepRecord -> Prop) w :
  (forall x, P x -> R x) -> inv sid id P w -> inv sid id R w.
Proof using.
  intros H [L Hw (s & Hs & L0)].
  assert (Hl : forall s pl, live sid id P s pl -> live sid id R s pl).
  { intros s1 pl [? ? ? (x & ? & ?)]. constructor; try done. exists x; auto. }
  constructor; eauto.
Qed.

(** More is known of the step after a checkpoint of the session that says more. *)
Lemma inv_upgrade (P R : StepRecord -> Prop) w :
  inv sid id P w -> stored sid (w_session w) (w_plane w) ->
  holds id R (es_steps (w_session w)) -> inv sid id R w.
Proof using.
  intros [[] Hw _] Hs Hh. assert (live sid id R (w_session w) (w_plane w)) by by constructor.
  constructor; eauto.
Qed.

Lemma holds_find (P : StepRecord -> Prop) steps x : holds id P steps -> find_in id steps = Some x -> P x.
Proof using. intros (y & Hy & H). congruence. Qed.

(** After the first phase of [complete_step] the effect is recorded; a step that may
    run once was not recorded before, and now is durably. *)
Lemma commit_lands k m w w' x :
  k <> "read-only" -> inv sid id (of_kind k) w ->
  commit_phase sha256_hex clock id m w = (w', Ok x) ->
  inv sid id (of_kind k) w' /\
  holds id (fun y => of_kind k y /\ landed y) (es_steps (w_session w')) /\
  find_in id (es_steps (w_session w)) = Some x /\ st_status x ∉ ["completed"; "failed"] /\
  (k = "irreversible" ->
   st_committed x = false /\ inv sid id (fun y => of_kind k y /\ landed y) w').
Proof using clock_ok.
  intros Hk I H.
  destruct (commit_phase_cases sha256_hex clock clock_ok sid id (of_kind k) id m w I)
    as [[e He]|(y & s & pl & n & He & I' & Hf & Hst & Hirr & Hcase)]; rewrite He in H; [done|].
  injection H as <- <-. pose proof (holds_find _ _ _ (lv_holds _ _ _ _ _ (iv_live _ _ _ _ I)) Hf) as Hy.
  unfold of_kind in Hy. rewrite Hy in Hcase, Hirr.
  destruct (String.eqb_spec k "read-only"); [done|]. rewrite orb_false_r in Hcase.
  assert (Hl : holds id (fun z => of_kind k z /\ landed z) (es_steps s)).
  { destruct (st_committed y) eqn:Hc; destruct Hcase as [_ ->].
    - exists y. by split_and!.
    - exists (commit_step y). rewrite find_update by done. by rewrite Hf, String.eqb_refl. }
  split_and!; try done. intros Ek. specialize (Hirr Ek). split; [done|].
  rewrite Hirr in Hcase. apply (inv_upgrade _ _ _ I'); [apply Hcase|done].
Qed.

(** After the second phase the step is settled for good, durably. *)
Lemma finish_closes k m tokens receipt w :
  inv sid id (of_kind k) w -> holds id (fun y => of_kind k y /\ landed y) (es_steps (w_session w)) ->
  inv sid id (fun y => of_kind k y /\ closed y)
    (finish_phase sha256_hex clock id m tokens receipt w).1.
Proof using clock_ok.
  intros I (y & Hy & Hk & Hl).
  destruct (finish_result sha256_hex clock clock_ok sid id (of_kind k) id m tokens receipt w I)
    as ([I' Hs] & Hok & E).
  apply (inv_upgrade _ _ _ I'); [by apply Hs|]. rewrite E. eexists.
  rewrite find_update by done. rewrite Hy, String.eqb_refl. split; [done|].
  split; [done|]. split; [done|by left].
Qed.

(** The events about the step, and its completions. *)
Definition touches (log : list event) : nat :=
  length (List.filter (fun e => bool_decide (e = Finished id \/ e = Interrupted id)) log).

Definition finishes (log : list event) : nat :=
  length (List.filter (fun e => bool_decide (e = Finished id)) log).

Lemma touches_app a b : touches (a ++ b) = (touches a + touches b)%nat.
Proof using. unfold touches. by rewrite List.filter_app, length_app. Qed.

Lemma finishes_app a b : finishes (a ++ b) = (finishes a + finishes b)%nat.
Proof using. unfold finishes. by rewrite List.filter_app, length_app. Qed.

(** A step of the system that says something about the step [id] ran the first phase of
    its [complete_step]. *)
Lemma step_events S evs S' :
  step S evs S' ->
  touches evs = 0%nat /\ finishes evs = 0%nat \/
  exists m w w1 x, S = Up w /\ commit_phase sha256_hex clock id m w = (w1, Ok x) /\
    touches evs = 1%nat /\
    ((finishes evs = 0%nat /\ S' = Down (w_plane w1) (w_reads w1)) \/
     (finishes evs = 1%nat /\
      exists n r, S' = Up (finish_phase sha256_hex clock id m n r w1).1)).
Proof using.
  assert (Hother : forall e, e <> Finished id -> e <> Interrupted id ->
    touches [e] = 0%nat /\ finishes [e] = 0%nat).
  { intros e H1 H2. unfold touches, finishes. cbn. by rewrite !bool_decide_false by naive_solver. }
  assert (Hone : touches [Finished id] = 1%nat /\ touches [Interrupted id] = 1%nat /\
    finishes [Finished id] = 1%nat /\ finishes [Interrupted id] = 0%nat).
  { unfold touches, finishes. cbn. rewrite !bool_decide_true, bool_decide_false by naive_solver. done. }
  destruct Hone as (H1 & H2 & H3 & H4).
  inversion 1 as [c w w' r Hc Hr|w|i m w w' x Hr|pl n s Hr|now r pl st S1 Hf Hp]; subst; auto.
  - destruct c as [reason|m|i m n rc|i e m|f m pk rs|k v]; auto. destruct r as [[]|]; auto.
    cbn [call_events]. destruct (decide (i = id)) as [->|Hne]; [|left; apply Hother; congruence].
    right. cbn [run_call] in Hr. unfold complete_step, mbind, op_bind in Hr.
    destruct (commit_phase sha256_hex clock id m w) as [w1 [x|]] eqn:E; [|done].
    exists m, w, w1, x. split_and!; try done. right. split; [done|]. exists n, rc.
    destruct (finish_phase sha256_hex clock id m n rc w1) as [w2 []]; [|done].
    by injection Hr as <-.
  - destruct (decide (i = id)) as [->|Hne]; [|left; apply Hother; congruence].
    right. exists m, w, w', x. by split_and!; try left.
Qed.

Lemma sys_inv_fst (P R : StepRecord -> Prop) S :
  sys_inv (fun x => P x /\ R x) S -> sys_inv P S.
Proof using sha256_hex clock.
  destruct S as [w|pl n]; cbn; [by apply inv_weaken; tauto|].
  intros [? (s & ? & [? ? ? (x & ? & ? & ?)])]. split; [done|]. exists s. split; [done|].
  constructor; try done. by exists x.
Qed.

Lemma once_irreversible S0 log S :
  sys_inv (of_kind "irreversible") S0 -> reach sha256_hex clock sid S0 log S ->
  touches log = 0%nat /\ sys_inv (of_kind "irreversible") S \/
  touches log = 1%nat /\ sys_inv (fun x => of_kind "irreversible" x /\ landed x) S.
Proof using clock_ok.
  intros I0. induction 1 as [|log S evs S' _ IH Hs]; [by left|]. rewrite touches_app.
  pose proof (step_events _ _ _ Hs) as [[Ht _]|(m & w & w1 & x & -> & Hc & Ht & Hcase)].
  - rewrite Ht, Nat.add_0_r.
    destruct IH as [[? I]|[? I]]; [left|right]; (split; [done|]); exact (step_inv _ _ _ _ I Hs).
  - assert (I : sys_inv (of_kind "irreversible") (Up w)) by
      (destruct IH as [[_ I]|[_ I%sys_inv_fst]]; exact I).
    destruct (commit_lands "irreversible" m w w1 x) as (_ & _ & Hf & _ & Hirr); [done|exact I|done|].
    destruct (Hirr eq_refl) as [Hx I1]. destruct IH as [[Ht0 _]|[_ I']].
    + right. rewrite Ht0, Ht. split; [done|].
      destruct Hcase as [[_ ->]|(_ & n & r & ->)]; [split; apply I1|].
      exact (proj1 (finish_settles _ _ clock_ok _ _ _ _ _ _ _ _ I1)).
    + destruct I' as [L _ _]. pose proof (holds_find _ _ _ (lv_holds _ _ _ _ _ L) Hf) as [_ Hl].
      unfold landed in Hl. congruence.
Qed.

Lemma once_side_effecting k S0 log S :
  k <> "read-only" -> sys_inv (of_kind k) S0 -> reach sha256_hex clock sid S0 log S ->
  finishes log = 0%nat /\ sys_inv (of_kind k) S \/
  finishes log = 1%nat /\ sys_inv (fun x => of_kind k x /\ closed x) S.
Proof using clock_ok.
  intros Hk I0. induction 1 as [|log S evs S' _ IH Hs]; [by left|]. rewrite finishes_app.
  pose proof (step_events _ _ _ Hs) as [[_ Ht]|(m & w & w1 & x & -> & Hc & _ & Hcase)].
  - rewrite Ht, Nat.add_0_r.
    destruct IH as [[? I]|[? I]]; [left|right]; (split; [done|]); exact (step_inv _ _ _ _ I Hs).
  - assert (I : sys_inv (of_kind k) (Up w)) by
      (destruct IH as [[_ I]|[_ I%sys_inv_fst]]; exact I).
    destruct (commit_lands k m w w1 x) as (I1 & Hl & Hf & Hst & _); [done|exact I|done|].
    destruct IH as [[Ht0 _]|[_ I']].
    + rewrite Ht0. destruct Hcase as [[-> ->]|(-> & n & r & ->)]; [left|right]; (split; [done|]).
      * split; apply I1.
      * by apply finish_closes.
    + destruct I' as [L _ _]. pose proof (holds_find _ _ _ (lv_holds _ _ _ _ _ L) Hf) as [_ [_ Hc']].
      done.
Qed.

Lemma reach_inv Q {HQ : Stable Q} S0 log S :
  sys_inv Q S0 -> reach sha256_hex clock sid S0 log S -> sys_inv Q S.
Proof using clock_ok. intros I. induction 1 as [|log S evs S' _ IH Hs]; [done|]. exact (step_inv _ _ _ _ IH Hs). Qed.
End system_safety.
