(* ===== verification/SessionTheorems.v ===== *)
(** What a durable execution session promises across crashes, restarts and other
    writers of the memory plane, with a sample session. *)
From Stdlib Require Import Ascii.
From S2P Require Import Prelude PyStr Json JsonDict MemoryPlane Session SessionSafety.

(** C24: a crash loses nothing that was checkpointed. In every history of a session that
    one process at a time holds, from its first checkpoint on: calls that may raise, crashes between and inside them, restarts and writers of the plane that
    leave the records of this session alone. When a method returns from its checkpoint,
    [resume] gives the session it left, field for field, but for an empty cursor, which
    comes back at the first step ([reloaded], [completed_resumes_at_first_step]); and
    when the process is down, [resume] succeeds. *)
Theorem resume_exact sha256_hex clock sid s w log :
  (forall n, float_ok (clock n) = true) ->
  opened sha256_hex clock sid s w ->
  (forall w1 c w2, reach sha256_hex clock sid (Up w) log (Up w1) ->
   call_ok c -> checkpoints c = true -> run_call sha256_hex clock c w1 = (w2, Ok tt) ->
   forall t, resume sid t (w_plane w2) = Ok (reloaded (w_session w2))) /\
  (forall pl n, reach sha256_hex clock sid (Up w) log (Down pl n) ->
   exists s', forall t, resume sid t pl = Ok s').
Proof.
  intros Hc Ho. destruct (first_step s) as [id Hh]; [apply Ho|].
  pose proof (opened_inv _ _ Hc sid id _ _ _ Ho Hh) as I0. split.
  - intros w1 c w2 Hr Hok Hck Hrun t.
    pose proof (reach_inv _ _ Hc sid id _ (Up w) log (Up w1) I0 Hr) as I.
    destruct (call_settles sha256_hex clock Hc sid id _ c w1 Hok I) as [I2 Hs]. rewrite Hrun in I2, Hs.
    eapply resume_stored; [by apply Hs|apply I2].
  - intros pl n Hr.
    destruct (reach_inv _ _ Hc sid id _ (Up w) log (Down pl n) I0 Hr) as [_ (s' & Hs & L)].
    exists (reloaded s'). intros t. by eapply resume_stored.
Qed.

(** C25: an irreversible step is recorded at most once. Whatever the calls, crashes and
    restarts, either its [complete_step] returned once, or the process died once inside
    it after the commit checkpoint, or neither; never twice, and never both. *)
Theorem irreversible_at_most_once sha256_hex clock sid s w log S id :
  (forall n, float_ok (clock n) = true) ->
  opened sha256_hex clock sid s w ->
  holds id (of_kind "irreversible") (es_steps s) ->
  reach sha256_hex clock sid (Up w) log S -> (touches id log <= 1)%nat.
Proof.
  intros Hc Ho Hh Hr.
  pose proof (opened_inv _ _ Hc sid id _ _ _ Ho Hh) as I0.
  destruct (once_irreversible _ _ Hc sid id (Up w) log S I0 Hr) as [[-> _]|[-> _]]; lia.
Qed.

(** [complete_step] returns at most once for every step with a side effect, across
    crashes, failures and failovers. *)
Theorem side_effects_complete_once sha256_hex clock sid s w log S id k :
  (forall n, float_ok (clock n) = true) ->
  opened sha256_hex clock sid s w ->
  k <> "read-only" -> holds id (of_kind k) (es_steps s) ->
  reach sha256_hex clock sid (Up w) log S -> (finishes id log <= 1)%nat.
Proof.
  intros Hc Ho Hk Hh Hr.
  pose proof (opened_inv _ _ Hc sid id _ _ _ Ho Hh) as I0.
  destruct (once_side_effecting _ _ Hc sid id k (Up w) log S Hk I0 Hr) as [[-> _]|[-> _]]; lia.
Qed.

(** A process with an old copy of the session is fenced off. If the plane already
    holds the record its next checkpoint would write, with another content hash,
    the checkpoint raises the plane's [ValueError] and the plane stays as it is. *)
Theorem stale_checkpoint_refused sha256_hex clock reason w r :
  session_wf (w_session w) ->
  let s' := checkpointed clock reason (w_reads w) (w_session w) in
  find_row (checkpoint_id (es_session_id (w_session w))
             (Z.of_nat (length (es_checkpoints (w_session w))) + 1)) (w_plane w) = Some r ->
  mr_content_hash r <> sha256_hex (content s') ->
  (forall n, float_ok (clock n) = true) ->
  checkpoint sha256_hex clock reason w =
    ({| w_session := s'; w_plane := w_plane w; w_reads := 3 + w_reads w |},
     Err (PlaneError (PlaneValueError "record_id already exists with different content"))).
Proof.
  intros W s' Hr Hne Hc. destruct w as [s pl n]. cbn [w_session w_plane w_reads] in *.
  assert (W' : session_wf s') by by apply checkpointed_wf.
  unfold checkpoint, persist, plane_put, mbind, op_bind, the_session, now, assign; cbn -[put].
  set (rid := checkpoint_id _ _) in *. fold s'.
  change (put _ _ _ _) with (put sha256_hex (clock (2 + n)%nat) (session_record rid s') pl).
  rewrite (put_conflict sha256_hex (clock (2 + n)%nat) (session_record rid s') pl r);
    [done|exact Hr| |done|exact Hne].
  apply none_empty. pose proof (sid_nonempty s W). pose proof (content_nonempty s' W').
  repeat (apply Forall_cons; split; [|]); try done. cbn. unfold rid, checkpoint_id.
  by destruct (es_session_id s).
Qed.

(** * A sample session *)

Module Sample.

(** A clock that stands still, and a digest that is its input. *)
Definition clock (n : nat) : string := "1.5".
Definition digest (s : string) : string := s.

Lemma clock_ok n : float_ok (clock n) = true.
Proof. vm_compute. reflexivity. Qed.

Definition new_step (id kind : string) : StepRecord :=
  {| st_step_id := id; st_name := id; st_status := "pending"; st_started_at := "1.5";
     st_completed_at := None; st_model_id := None; st_tokens_used := 0;
     st_evidence_receipt := None; st_error := None; st_side_effect_kind := kind;
     st_committed := false |}.

Definition session (steps : list StepRecord) : ExecutionSession :=
  {| es_session_id := "s"; es_task_spec := [("task", JStr "pay")]; es_steps := steps;
     es_current_step := cursor None steps; es_completed_steps := []; es_checkpoints := [];
     es_artifacts := []; es_attempts := []; es_failure_log := []; es_state := Created;
     es_model_id := Some "p/a"; es_bound_passport_key := None; es_created_at := "1.5";
     es_updated_at := "1.5"; es_schema_version := "1" |}.

(** After the first checkpoint. *)
Definition first_world (steps : list StepRecord) : world :=
  (checkpoint digest clock "created" {| w_session := session steps; w_plane := []; w_reads := 0 |}).1.

(** The calls in order, and whether each returned. *)
Fixpoint calls (cs : list call) (w : world) : list bool * world :=
  match cs with
  | [] => ([], w)
  | c :: cs => let '(w1, r) := run_call digest clock c w in
               let '(oks, w2) := calls cs w1 in (is_ok r :: oks, w2)
  end.

Definition complete (id : string) : call := CallComplete id None 0 None.

Definition failure (id : string) : FailureEntry :=
  {| fe_step_id := id; fe_provider := "p"; fe_model_id := "a"; fe_error_class := "timeout";
     fe_message := "timed out"; fe_created_at := "1.5"; fe_status_code := None;
     fe_quarantine_model := None; fe_replacement_model := None |}.

Definition failover (id : string) : call := CallFailover (failure id) (Some "q/b") (Some "q/b") "failover".

(** The process that resumes the session. *)
Definition resumed (w : world) : world :=
  match resume "s" "1.5" (w_plane w) with
  | Ok s => {| w_session := s; w_plane := w_plane w; w_reads := w_reads w |}
  | Err _ => w
  end.

Definition pay : list StepRecord := [new_step "charge" "irreversible"; new_step "report" "read-only"].

Lemma pay_opened : opened digest clock "s" (session pay) (first_world pay).
Proof.
  constructor.
  - done.
  - by constructor; repeat constructor.
  - done.
  - exists "created", [], 0%nat. eexists. split_and!.
    + constructor; [constructor|intros; cbn; lia].
    + intros k. apply not_elem_of_nil.
    + vm_compute. reflexivity.
Qed.

(** The history: start, then the process dies inside [complete_step] of the charge,
    and another one resumes. *)
Definition started : world := (run_call digest clock (CallStart None) (first_world pay)).1.

Definition charged : world := (commit_phase digest clock "charge" None started).1.

Lemma charge_reach :
  reach digest clock "s" (Up (first_world pay)) [Interrupted "charge"] (Up (resumed charged)).
Proof.
  apply (reach_step _ _ _ _ [Interrupted "charge"] (Down (w_plane charged) (w_reads charged)) []).
  { apply (reach_step _ _ _ _ [] (Up started) [Interrupted "charge"]).
    { apply (reach_step _ _ _ _ [] (Up (first_world pay)) []); [apply reach_start|].
      by apply (step_call _ _ _ (CallStart None) _ _ (Ok tt)); [|vm_compute]. }
    apply (step_crash_inside _ _ _ "charge" None started charged (new_step "charge" "irreversible")).
    vm_compute. reflexivity. }
  apply step_resume. vm_compute. reflexivity.
Qed.
End Sample.

(** * Witnesses *)

Lemma resume_exact_witness :
  resume "s" "1.5" (w_plane (run_call Sample.digest Sample.clock
    (CallFail "report" "timed out" None) (Sample.resumed Sample.charged)).1) =
  Ok (reloaded (w_session (run_call Sample.digest Sample.clock
    (CallFail "report" "timed out" None) (Sample.resumed Sample.charged)).1)).
Proof.
  apply (proj1 (resume_exact Sample.digest Sample.clock "s" (Sample.session Sample.pay)
    (Sample.first_world Sample.pay) [Interrupted "charge"] Sample.clock_ok Sample.pay_opened)
    (Sample.resumed Sample.charged) (CallFail "report" "timed out" None)).
  - exact Sample.charge_reach.
  - exact I.
  - reflexivity.
  - vm_compute. reflexivity.
Defined.

Lemma irreversible_at_most_once_witness :
  (touches "charge" [Interrupted "charge"] <= 1)%nat.
Proof.
  apply (irreversible_at_most_once Sample.digest Sample.clock "s" (Sample.session Sample.pay)
    (Sample.first_world Sample.pay) [Interrupted "charge"] (Up (Sample.resumed Sample.charged))
    "charge" Sample.clock_ok Sample.pay_opened); [|exact Sample.charge_reach].
  eexists. split; [vm_compute; reflexivity|reflexivity].
Defined.

Lemma side_effects_complete_once_witness :
  (finishes "charge" [Interrupted "charge"] <= 1)%nat.
Proof.
  apply (side_effects_complete_once Sample.digest Sample.clock "s" (Sample.session Sample.pay)
    (Sample.first_world Sample.pay) [Interrupted "charge"] (Up (Sample.resumed Sample.charged))
    "charge" "irreversible" Sample.clock_ok Sample.pay_opened); [done| |exact Sample.charge_reach].
  eexists. split; [vm_compute; reflexivity|reflexivity].
Defined.

(** Two processes hold the session after its first checkpoint; the second one starts
    after the first has started. *)
Definition late : world :=
  {| w_session := set_model (Some "q/b") (set_state Running (w_session (Sample.first_world Sample.pay)));
     w_plane := w_plane Sample.started; w_reads := 9 |}.

Lemma stale_checkpoint_refused_witness :
  (checkpoint Sample.digest Sample.clock "started" late).2 =
  Err (PlaneError (PlaneValueError "record_id already exists with different content")).
Proof.
  pose proof (stale_checkpoint_refused Sample.digest Sample.clock "started" late) as H.
  cbv zeta in H. erewrite H; [reflexivity|..].
  - by constructor; repeat constructor.
  - vm_compute. reflexivity.
  - vm_compute. done.
  - exact Sample.clock_ok.
Defined.

(** * What the model shows *)

(** A session is [completed] while one of its steps is failed: [complete_step] looks for
    pending steps only. *)
Theorem completed_with_failed_step :
  let w := (Sample.calls [CallStart None; CallFail "a" "timed out" None; Sample.complete "b"]
    (Sample.first_world [Sample.new_step "a" "read-only"; Sample.new_step "b" "read-only"])) in
  w.1 = [true; true; true] /\ es_state (w_session w.2) = Completed /\
  st_status <$> es_steps (w_session w.2) = ["failed"; "completed"].
Proof. vm_compute. auto. Qed.

(** The cursor of a completed session does not survive [resume]: it was empty and comes
    back at the first, completed step. *)
Theorem completed_resumes_at_first_step :
  let w := (Sample.calls [CallStart None; Sample.complete "a"; Sample.complete "b"]
    (Sample.first_world [Sample.new_step "a" "read-only"; Sample.new_step "b" "read-only"])).2 in
  es_state (w_session w) = Completed /\ es_current_step (w_session w) = None /\
  exists s, resume "s" "1.5" (w_plane w) = Ok s /\ es_current_step s = Some "a".
Proof. vm_compute. split_and!; [done|done|]. eexists. split; reflexivity. Qed.

(** A process dies inside the [complete_step] of the last step, after its commit
    checkpoint. The failover skips the step as documented, but leaves the session
    running with every step completed, where no call completes or starts it. *)
Theorem skipped_last_step_strands :
  let w0 := Sample.first_world [Sample.new_step "a" "reversible"] in
  let w1 := Sample.resumed (commit_phase Sample.digest Sample.clock "a" None
              (Sample.calls [CallStart None] w0).2).1 in
  let w := (Sample.calls [Sample.failover "a"] w1) in
  w.1 = [true] /\ es_state (w_session w.2) = Running /\
  st_status <$> es_steps (w_session w.2) = ["completed"] /\
  es_completed_steps (w_session w.2) = ["a"] /\
  forall id m t r,
    is_ok (run_call Sample.digest Sample.clock (CallComplete id m t r) w.2).2 = false /\
    is_ok (run_call Sample.digest Sample.clock (CallStart m) w.2).2 = false.
Proof.
  cbv zeta. split_and!; [by vm_compute..|]. intros id m t r. split; [|by vm_compute].
  set (w := (Sample.calls _ _).2). vm_compute in w. subst w.
  cbn [run_call]. unfold complete_step, commit_phase, find_step, mbind, op_bind, the_session.
  cbn -[String.eqb]. unfold find_in. cbn [List.find st_step_id].
  by destruct (String.eqb "a" id).
Qed.

(** The fence holds once. The session object keeps the checkpoint that the plane
    refused, so the next checkpoint of the same stale process gets a new id and is
    accepted: it overtakes the work of the other process, which [resume] no longer sees. *)
Theorem stale_process_overtakes :
  let w0 := Sample.first_world [Sample.new_step "a" "read-only"; Sample.new_step "b" "read-only"] in
  let ahead := (Sample.calls [CallStart None; Sample.complete "a"] w0) in
  let stale := {| w_session := w_session w0; w_plane := w_plane ahead.2; w_reads := 0 |} in
  let w := Sample.calls [CallStart (Some "q/b"); CallFail "a" "x" None; CallCheckpoint "again"] stale in
  ahead.1 = [true; true] /\ w.1 = [false; false; true] /\
  exists s, resume "s" "1.5" (w_plane w.2) = Ok s /\
  es_completed_steps s = [] /\ es_model_id s = Some "q/b".
Proof. vm_compute. split_and!; [done|done|]. eexists. split_and!; reflexivity. Qed.
