(* ===== verification/Failover.v ===== *)
(** [verdict/failover_engine.py]: after a transient provider failure, quarantine the
    failed model, choose a replacement among the authorized passports and re-arm the
    failed step of the session. With [availability.canonical_capability] and the parts
    of [CandidateRequirements] and [ModelPassport] that the engine reads.

    The requirements in a task's specification are lists of strings; another type there
    ends as [BadRequirements], as do the values [CandidateRequirements] refuses.
    Instants are microseconds. *)
From Stdlib Require Import Ascii.
From S2P Require Import Prelude PyStr Json JsonDict PyNum MemoryPlane Session SessionSafety SessionTheorems.

Inductive failover_exn :=
| SessionExn (e : session_exn)
| FailoverEngineError (msg : string)
| ExecutionPathError
| ModelPassportError (msg : string)
| BadRequirements.

(** * Passports and requirements *)

Record ModelPassport := {
  mp_provider : string;
  mp_model_id : string;
  mp_context_window : Z;
  mp_tool_support : bool;
  mp_availability_state : string
}.

(** [f"{provider}/{model_id}"] *)
Definition model_key (provider model_id : string) : string := provider +:+ "/" +:+ model_id.

(** [ModelPassport.key] *)
Definition passport_key (p : ModelPassport) : string := model_key (mp_provider p) (mp_model_id p).

Definition CAPABILITY_ALIASES : list (string * string) :=
  [("function-calling", "tools"); ("function_calling", "tools"); ("tool-calling", "tools");
   ("tool_calling", "tools"); ("json", "structured_output");
   ("structured-output", "structured_output")].

(** [canonical_capability] *)
Definition canonical_capability (value : string) : string :=
  let normalized := lower (strip value) in
  default normalized (dict_get normalized CAPABILITY_ALIASES).

Record CandidateRequirements := {
  cr_required : list string;
  cr_allow_models : list string;
  cr_deny_models : list string;
  cr_allow_providers : list string;
  cr_deny_providers : list string;
  cr_estimated_tokens : option Z
}.

(** [raw.get(key)] as a collection of strings; missing or falsy is empty *)
Definition string_list (ms : list (string * json)) (key : string) : result failover_exn (list string) :=
  match dict_get key ms with
  | None | Some JNull | Some (JBool false) | Some (JInt 0) | Some (JStr "") | Some (JObj []) => Ok []
  | Some (JList vs) =>
      map_result (fun v => match v with JStr s => Ok s | _ => Err BadRequirements end) vs
  | Some _ => Err BadRequirements
  end.

(** [raw.get("required", ())]: a value of another type is not iterable, or not of names. *)
Definition required_list (ms : list (string * json)) : result failover_exn (list string) :=
  match dict_get "required" ms with
  | None | Some (JStr "") => Ok []
  | Some (JList vs) =>
      map_result (fun v => match v with JStr s => Ok (canonical_capability s)
                                      | _ => Err BadRequirements end) vs
  | Some _ => Err BadRequirements
  end.

(** The check of an optional finite non-negative number. *)
Definition number_ok (ms : list (string * json)) (key : string) : bool :=
  match dict_get key ms with
  | None | Some JNull => true
  | Some (JInt z) => 0 <=? z
  | Some (JFloat r) =>
      match parse_decimal r with Some (Some q) => Qle_bool 0 q | _ => false end
  | Some _ => false
  end.

(** [_recalculate_requirements] *)
Definition recalculate_requirements (s : ExecutionSession) : result failover_exn CandidateRequirements :=
  let raw := match dict_get "requirements" (es_task_spec s) with Some (JObj ms) => ms | _ => [] end in
  required ← required_list raw;
  allow_models ← string_list raw "allow_models";
  deny_models ← string_list raw "deny_models";
  allow_providers ← string_list raw "allow_providers";
  deny_providers ← string_list raw "deny_providers";
  _ ← raise_if (negb (number_ok raw "budget_remaining")) BadRequirements;
  _ ← raise_if (match dict_get "max_concurrency" raw with
                | None | Some JNull => false
                | Some (JInt z) => z <? 1
                | Some _ => true
                end) BadRequirements;
  tokens ← match dict_get "estimated_tokens" raw with
           | Some (JInt z) => _ ← raise_if (z <? 0) BadRequirements; Ok (Some z)
           | Some (JBool _) => Err BadRequirements
           | _ => Ok None
           end;
  _ ← raise_if (negb (number_ok raw "estimated_cost")) BadRequirements;
  Ok {| cr_required := required; cr_allow_models := allow_models;
        cr_deny_models := deny_models; cr_allow_providers := allow_providers;
        cr_deny_providers := deny_providers; cr_estimated_tokens := tokens |}.

(** [_passport_satisfies] *)
Definition passport_satisfies (p : ModelPassport) (r : CandidateRequirements) : bool :=
  mem (mp_availability_state p) ["eligible"; "degraded"] &&
  (bool_decide (cr_allow_providers r = []) || mem (mp_provider p) (cr_allow_providers r)) &&
  negb (mem (mp_provider p) (cr_deny_providers r)) &&
  (bool_decide (cr_allow_models r = []) || mem (mp_model_id p) (cr_allow_models r)) &&
  negb (mem (mp_model_id p) (cr_deny_models r)) &&
  (negb (mem "tools" (cr_required r)) || mp_tool_support p) &&
  match cr_estimated_tokens r with
  | None => true
  | Some n => (mp_context_window p <=? 0) || (n <=? mp_context_window p)
  end.

(** * The engine *)

Record FailoverEngine := {
  en_quarantine_seconds : Z;
  en_max_failovers_per_step : Z;
  en_quarantine : gmap string Z
}.

(** [is_quarantined] at the instant [now] *)
Definition is_quarantined (en : FailoverEngine) (key : string) (now : Z) : bool :=
  match en_quarantine en !! key with Some expiry => now <? expiry | None => false end.

Definition TRANSIENT_ERROR_CLASSES : list string :=
  ["rate_limited"; "quota_exhausted"; "timeout"; "upstream_error"; "server_error"].

Definition RETRYABLE_STATUS_CODES : list Z := [408; 409; 425; 429; 500; 502; 503; 504].

(** [is_transient_failure] *)
Definition is_transient_failure (error_class : string) (status_code : option Z) : bool :=
  match status_code with Some c => existsb (Z.eqb c) RETRYABLE_STATUS_CODES | None => false end
  || mem (canonical_capability error_class) (map canonical_capability TRANSIENT_ERROR_CLASSES).

(** [_select_authorized]: [seen key] is the clock's reading when the key is looked up. *)
Definition authorized_ok (en : FailoverEngine) (failed_key : string) (r : CandidateRequirements)
    (seen : string -> Z) (p : ModelPassport) : bool :=
  negb (String.eqb (passport_key p) failed_key) &&
  negb (mem (mp_availability_state p) ["quarantined"; "denied"]) &&
  negb (is_quarantined en (passport_key p) (seen (passport_key p))) &&
  passport_satisfies p r.

Definition select_authorized (en : FailoverEngine) (failed_key : string)
    (r : CandidateRequirements) (seen : string -> Z) (authorized : list ModelPassport)
    : result failover_exn ModelPassport :=
  match List.find (authorized_ok en failed_key r seen) authorized with
  | Some p => Ok p
  | None => Err (FailoverEngineError
      ("no equivalent qualified model for " +:+ repr failed_key +:+ " satisfying capabilities ["
       +:+ join ", " (map repr (sort_str (dedupe_from [] (cr_required r)))) +:+ "]"))
  end.

(** The arguments of [failover]. *)
Record FailoverArgs := {
  fa_provider : string;
  fa_model_id : string;
  fa_error_class : string;
  fa_message : string;
  fa_status_code : option Z;
  fa_candidates : list ModelPassport;
  fa_authorized : option (list ModelPassport);
  fa_defer : bool (* an execution path is bound, or bounded recovery required *)
}.

(** The pool: explicit replacements, else the compatibility feed; never an empty one. *)
Definition pool (a : FailoverArgs) : result failover_exn (list ModelPassport) :=
  let none := Err (FailoverEngineError
    ("BOD-55/BOD-104 authorized_replacements required; " +:+
     "FailoverEngine cannot invent replacements")) in
  match fa_authorized a, fa_candidates a with
  | Some [], _ | None, [] => none
  | Some ps, _ => Ok ps
  | None, ps => Ok ps
  end.

(** [session.current_step or _first_pending(session)] *)
Definition step_to_fail (s : ExecutionSession) : option string :=
  or_text (es_current_step s) (next_pending (es_steps s)).

(** The checks and choices of [failover] before it changes anything: the step, the
    replacement. *)
Definition plan_failover (en : FailoverEngine) (a : FailoverArgs) (seen : string -> Z)
    (s : ExecutionSession) : result failover_exn (string * ModelPassport) :=
  _ ← raise_if (fa_defer a) ExecutionPathError;
  _ ← raise_if (negb (is_transient_failure (fa_error_class a) (fa_status_code a)))
        (FailoverEngineError ("failure " +:+ fa_error_class a +:+ " (status "
           +:+ from_option str_of_Z "None" (fa_status_code a)
           +:+ ") is not transient; no failover attempted"));
  step ← match step_to_fail s with
         | Some id => Ok id
         | None => Err (SessionExn (ExecutionSessionError
                          "session has no pending step to fail over"))
         end;
  _ ← raise_if (en_max_failovers_per_step en <=? attempts_of step s)
        (FailoverEngineError ("step " +:+ repr step +:+ " exceeded " +:+
           str_of_Z (en_max_failovers_per_step en) +:+ " failovers"));
  ps ← pool a;
  r ← recalculate_requirements s;
  p ← select_authorized en (model_key (fa_provider a) (fa_model_id a)) r seen ps;
  Ok (step, p).

(** [plan.evidence_receipt] *)
Definition evidence_receipt (a : FailoverArgs) (p : ModelPassport) : string :=
  "failover:" +:+ model_key (fa_provider a) (fa_model_id a) +:+ ":" +:+ passport_key p.

(** The checks of the quarantined passport, whose provider and model are the failed
    key's halves around its first slash. *)
Definition quarantined_passport_ok (failed_key : string) : result failover_exn unit :=
  let '(provider, model) := partition1 "/" failed_key in
  _ ← raise_if (String.eqb (strip provider) "") (ModelPassportError "provider must be non-empty");
  raise_if (String.eqb (strip (default "" model)) "")
    (ModelPassportError "model_id must be non-empty").

(** [_rebind_context]: the artifact; only a blank task text is refused by the context
    envelope. *)
Definition rebind_artifact (s : ExecutionSession) (p : ModelPassport) : json :=
  match dict_get "task" (es_task_spec s) with
  | Some (JStr (String c t)) =>
      if String.eqb (strip (String c t)) "" then
        obj [("replacement", JStr (passport_key p)); ("rebound", JBool false);
             ("reason", JStr "item.content must be a non-empty string")]
      else obj [("replacement", JStr (passport_key p)); ("provider", JStr (mp_provider p));
                ("rebound", JBool true)]
  | _ => obj [("replacement", JStr (passport_key p)); ("provider", JStr (mp_provider p));
              ("rebound", JBool true)]
  end.

Definition quarantine_key (en : FailoverEngine) (key : string) (now : Z) : FailoverEngine :=
  {| en_quarantine_seconds := en_quarantine_seconds en;
     en_max_failovers_per_step := en_max_failovers_per_step en;
     en_quarantine := <[key := now + en_quarantine_seconds en * 1000000]> (en_quarantine en) |}.

Section failover.
Context (sha256_hex : string -> string) (clock : nat -> string).

(** [_to_failure_entry] *)
Definition failure_entry (a : FailoverArgs) (step t : string) (p : ModelPassport) : FailureEntry :=
  {| fe_step_id := step; fe_provider := fa_provider a; fe_model_id := fa_model_id a;
     fe_error_class := fa_error_class a;
     fe_message := if String.eqb (fa_message a) "" then fa_error_class a else fa_message a;
     fe_created_at := t; fe_status_code := fa_status_code a;
     fe_quarantine_model := Some (model_key (fa_provider a) (fa_model_id a));
     fe_replacement_model := Some (passport_key p) |}.

(** Rebinds the context and re-arms the step. *)
Definition rebind_and_resume (a : FailoverArgs) (step : string) (p : ModelPassport)
    : op CheckpointRecord :=
  s ← the_session;
  _ ← record_artifact clock ("context_rebind:" +:+ evidence_receipt a p) (rebind_artifact s p);
  t ← now clock;
  resume_from_failure sha256_hex clock (failure_entry a step t p) (Some (mp_model_id p))
    (Some (passport_key p)) ("failover:" +:+ evidence_receipt a p).

(** [failover]; [wall] is the wall clock when the quarantine starts *)
Definition failover (en : FailoverEngine) (a : FailoverArgs) (seen : string -> Z) (wall : Z)
    (w : world) : FailoverEngine * world * result failover_exn unit :=
  let failed_key := model_key (fa_provider a) (fa_model_id a) in
  match plan_failover en a seen (w_session w) with
  | Err e => (en, w, Err e)
  | Ok (step, p) =>
      match quarantined_passport_ok failed_key with
      | Err e => (en, w, Err e)
      | Ok _ =>
          let en' := quarantine_key en failed_key wall in
          let '(w', r) := rebind_and_resume a step p w in
          (en', w', match r with Ok _ => Ok tt | Err e => Err (SessionExn e) end)
      end
  end.
End failover.

(** * Properties *)

(** The first element that satisfies [f]. *)
Lemma find_split {A} (f : A -> bool) l x :
  List.find f l = Some x ->
  exists before after, l = before ++ x :: after /\ f x = true /\
    Forall (fun y => f y = false) before.
Proof.
  induction l as [|y l IH]; cbn; [done|]. destruct (f y) eqn:E.
  - intros [= ->]. by exists [], l.
  - intros (before & after & -> & Hx & Hb)%IH. exists (y :: before), after.
    split; [done|]. split; [done|]. by constructor.
Qed.

Lemma plan_failover_ok en a seen s step p :
  plan_failover en a seen s = Ok (step, p) ->
  fa_defer a = false /\ is_transient_failure (fa_error_class a) (fa_status_code a) = true /\
  step_to_fail s = Some step /\ attempts_of step s < en_max_failovers_per_step en /\
  exists ps r, pool a = Ok ps /\ recalculate_requirements s = Ok r /\
    List.find (authorized_ok en (model_key (fa_provider a) (fa_model_id a)) r seen) ps = Some p.
Proof.
  unfold plan_failover. intros ([] & Hd%raise_if_ok & H)%bind_ok.
  apply bind_ok in H as ([] & Ht%raise_if_ok & H). apply negb_false_iff in Ht.
  apply bind_ok in H as (id & Hid & H). apply bind_ok in H as ([] & Ha%raise_if_ok & H).
  apply bind_ok in H as (ps & Hps & H). apply bind_ok in H as (r & Hr & H).
  apply bind_ok in H as (q & Hq & [= <- <-]).
  destruct (step_to_fail s) as [id'|]; [|done]. injection Hid as ->.
  split_and!; try done; [lia|]. exists ps, r. split_and!; try done.
  unfold select_authorized in Hq. destruct (List.find _ ps); [by injection Hq as ->|done].
Qed.

Lemma failover_ok sha256_hex clock en a seen wall w en' w' :
  failover sha256_hex clock en a seen wall w = (en', w', Ok tt) ->
  exists step p,
    plan_failover en a seen (w_session w) = Ok (step, p) /\
    en' = quarantine_key en (model_key (fa_provider a) (fa_model_id a)) wall /\
    exists rec, rebind_and_resume sha256_hex clock a step p w = (w', Ok rec).
Proof.
  unfold failover. destruct (plan_failover _ _ _ _) as [[step p]|]; [|done].
  destruct (quarantined_passport_ok _); [|done].
  destruct (rebind_and_resume _ _ _ _ _ _) as [w1 [rec|]] eqn:E; [|done].
  intros [= <- <-]. exists step, p. eauto.
Qed.

(** Failover never invents a replacement. When it succeeds, the failure was
    transient, no execution path or bounded recovery had to decide instead, and the
    replacement is the first in the caller's order that is not the failed model, not
    quarantined, and satisfies the requirements of the task; the failed model is
    quarantined from then on, for the engine's period. *)
Theorem replacement_is_authorized sha256_hex clock en a seen wall w en' w' :
  failover sha256_hex clock en a seen wall w = (en', w', Ok tt) ->
  let failed_key := model_key (fa_provider a) (fa_model_id a) in
  fa_defer a = false /\ is_transient_failure (fa_error_class a) (fa_status_code a) = true /\
  (exists ps r before p after,
    pool a = Ok ps /\ recalculate_requirements (w_session w) = Ok r /\
    ps = before ++ p :: after /\
    passport_key p <> failed_key /\
    is_quarantined en (passport_key p) (seen (passport_key p)) = false /\
    passport_satisfies p r = true /\
    Forall (fun p' => authorized_ok en failed_key r seen p' = false) before) /\
  forall t, is_quarantined en' failed_key t = (t <? wall + en_quarantine_seconds en * 1000000).
Proof.
  intros (step & p & Hp & -> & _)%failover_ok. cbv zeta.
  apply plan_failover_ok in Hp as (Hd & Ht & _ & _ & ps & r & Hps & Hr & Hf).
  split_and!; [done|done| |].
  - apply find_split in Hf as (before & after & E & Hok & Hb).
    exists ps, r, before, p, after. unfold authorized_ok in Hok. bool_hyps. by split_and!.
  - intros t. unfold is_quarantined, quarantine_key. cbn. by rewrite lookup_insert_eq.
Qed.

Lemma update_in_lookup id f steps i x :
  steps !! i = Some x -> update_in id f steps !! i = Some x \/ update_in id f steps !! i = Some (f x).
Proof.
  revert i. induction steps as [|y steps IH]; intros i; [done|]. cbn [update_in].
  destruct (String.eqb (st_step_id y) id), i as [|i]; cbn; try (intros [= ->]); auto.
Qed.

Lemma rearmed_completed t x : st_status x = "completed" -> st_status (rearmed t x) = "completed".
Proof. intros H. unfold rearmed. rewrite H. by destruct (st_committed x). Qed.

Lemma rebind_artifact_wf s p : json_wf (rebind_artifact s p) = true.
Proof. unfold rebind_artifact. repeat case_match; apply obj_wf; repeat constructor. Qed.

(** [rebind_and_resume] as one call of [resume_from_failure]. *)
Lemma rebind_runs sha256_hex clock a step p w :
  rebind_and_resume sha256_hex clock a step p w =
  let w1 := (record_artifact clock ("context_rebind:" +:+ evidence_receipt a p)
               (rebind_artifact (w_session w) p) w).1 in
  resume_from_failure sha256_hex clock (failure_entry a step (clock (w_reads w1)) p)
    (Some (mp_model_id p)) (Some (passport_key p)) ("failover:" +:+ evidence_receipt a p)
    {| w_session := w_session w1; w_plane := w_plane w1; w_reads := S (w_reads w1) |}.
Proof. reflexivity. Qed.

Lemma record_artifact_result clock name v w w' r :
  record_artifact clock name v w = (w', r) ->
  es_attempts (w_session w') = es_attempts (w_session w) /\
  es_steps (w_session w') = es_steps (w_session w).
Proof. by intros [= <- <-]. Qed.

(** What [rebind_and_resume] leaves of a live session. *)
Lemma rebind_result sha256_hex clock sid id Q {HQ : Stable Q} a step p w w' rec :
  (forall n, float_ok (clock n) = true) -> inv sid id Q w ->
  rebind_and_resume sha256_hex clock a step p w = (w', Ok rec) ->
  inv sid id Q w' /\ stored sid (w_session w') (w_plane w') /\
  es_attempts (w_session w') =
    obj_set step (attempts_of step (w_session w) + 1) (es_attempts (w_session w)) /\
  es_model_id (w_session w') = Some (mp_model_id p) /\
  es_bound_passport_key (w_session w') = Some (passport_key p) /\
  es_state (w_session w') = Running /\
  exists t, es_steps (w_session w') = update_in step (rearmed t) (es_steps (w_session w)).
Proof.
  intros Hc I H. rewrite rebind_runs in H.
  pose proof (artifact_keeps clock Hc sid id Q ("context_rebind:" +:+ evidence_receipt a p)
    (rebind_artifact (w_session w) p) w (rebind_artifact_wf _ p) I) as I1.
  destruct (record_artifact _ _ _ _) as [w1 r1] eqn:E. cbv zeta in H. cbn [fst] in H, I1.
  match type of H with resume_from_failure _ _ ?f ?m ?k ?r ?w2 = _ =>
    destruct (resume_failure_result sha256_hex clock Hc sid id Q f m k r w2) as [[I2 Hs] Hres];
      [apply Hc|destruct I1; by constructor|] end.
  rewrite H in I2, Hs, Hres. specialize (Hs eq_refl). specialize (Hres eq_refl).
  cbv zeta in Hres. cbn [fst snd w_session] in Hres, I2, Hs.
  destruct Hres as [[= Ha Hm Hk _ Hr] Ht]. apply record_artifact_result in E as (Ea & Es).
  unfold attempts_of in Ha. cbn in Ha. rewrite Ea in Ha. rewrite Es in Ht. by split_and!.
Qed.

(** Failovers are counted, and completed work stays. When a failover of a session
    succeeds, its step had been failed over fewer times than the engine allows; its
    count is one more and the others are unchanged, the steps that were completed still
    are, and a process that resumes the session after a crash finds all this. *)
Theorem failover_counted sha256_hex clock sid s w0 log en a seen wall w en' w' :
  (forall n, float_ok (clock n) = true) ->
  opened sha256_hex clock sid s w0 -> reach sha256_hex clock sid (Up w0) log (Up w) ->
  failover sha256_hex clock en a seen wall w = (en', w', Ok tt) ->
  exists step,
    step_to_fail (w_session w) = Some step /\
    attempts_of step (w_session w) < en_max_failovers_per_step en /\
    attempts_of step (w_session w') = attempts_of step (w_session w) + 1 /\
    (forall other, other <> step ->
       attempts_of other (w_session w') = attempts_of other (w_session w)) /\
    (forall i x, es_steps (w_session w) !! i = Some x -> st_status x = "completed" ->
       exists x', es_steps (w_session w') !! i = Some x' /\ st_status x' = "completed") /\
    (forall t, resume sid t (w_plane w') = Ok (reloaded (w_session w'))).
Proof.
  intros Hc Ho Hr (step & p & Hp & _ & rec & Hrun)%failover_ok.
  apply plan_failover_ok in Hp as (_ & _ & Hstep & Hlt & _).
  destruct (first_step s) as [id Hh]; [apply Ho|].
  pose proof (opened_inv _ _ Hc sid id _ _ _ Ho Hh) as I0.
  pose proof (reach_inv _ _ Hc sid id _ (Up w0) log (Up w) I0 Hr) as I.
  destruct (rebind_result _ _ sid id _ a step p w w' rec Hc I Hrun)
    as (I' & Hs & Ha & _ & _ & _ & t0 & Ht).
  exists step. unfold attempts_of in *. rewrite Ha. split_and!; try done.
  - by rewrite get_obj_set, String.eqb_refl.
  - intros other Hne%String.eqb_neq. by rewrite get_obj_set, Hne.
  - intros i x Hi Hx. rewrite Ht.
    destruct (update_in_lookup step (rearmed t0) _ i x Hi) as [->| ->]; eexists; split; try done.
    by apply rearmed_completed.
  - intros t. eapply resume_stored; [exact Hs|apply I'].
Qed.

(** * Samples *)

Module FailoverSample.

Definition passport (provider model : string) (tools : bool) : ModelPassport :=
  {| mp_provider := provider; mp_model_id := model; mp_context_window := 16000;
     mp_tool_support := tools; mp_availability_state := "eligible" |}.

Definition engine : FailoverEngine :=
  {| en_quarantine_seconds := 300; en_max_failovers_per_step := 3; en_quarantine := ∅ |}.

Definition args : FailoverArgs :=
  {| fa_provider := "p"; fa_model_id := "a"; fa_error_class := "Timeout"; fa_message := "";
     fa_status_code := None; fa_candidates := [passport "p" "a" true; passport "q" "b" true];
     fa_authorized := None; fa_defer := false |}.

(** A failover of the step of the started sample session. *)
Definition out : FailoverEngine * world * result failover_exn unit :=
  failover Sample.digest Sample.clock engine args (fun _ => 0) 0 Sample.started.

Lemma out_ok : out = (out.1.1, out.1.2, Ok tt).
Proof. vm_compute. reflexivity. Qed.

Lemma started_reach :
  reach Sample.digest Sample.clock "s" (Up (Sample.first_world Sample.pay)) [] (Up Sample.started).
Proof.
  apply (reach_step _ _ _ _ [] (Up (Sample.first_world Sample.pay)) []); [apply reach_start|].
  by apply (step_call _ _ _ (CallStart None) _ _ (Ok tt)); [|vm_compute].
Qed.
End FailoverSample.

Lemma replacement_is_authorized_witness :
  is_quarantined FailoverSample.out.1.1 "p/a" 1 = true.
Proof.
  destruct (replacement_is_authorized Sample.digest Sample.clock FailoverSample.engine
    FailoverSample.args (fun _ => 0) 0 Sample.started _ _ FailoverSample.out_ok) as (_ & _ & _ & H).
  exact (H 1).
Defined.

Lemma failover_counted_witness :
  exists step, step_to_fail (w_session Sample.started) = Some step /\
  attempts_of step (w_session FailoverSample.out.1.2) =
  attempts_of step (w_session Sample.started) + 1.
Proof.
  destruct (failover_counted Sample.digest Sample.clock "s" (Sample.session Sample.pay)
    (Sample.first_world Sample.pay) [] FailoverSample.engine FailoverSample.args (fun _ => 0) 0
    Sample.started _ _ Sample.clock_ok Sample.pay_opened FailoverSample.started_reach
    FailoverSample.out_ok) as (step & H1 & _ & H2 & _).
  exists step. exact (conj H1 H2).
Defined.

(** Of the required capabilities the engine looks at [tools] only: a passport satisfies
    a requirement of any other one. *)
Theorem only_tools_required p r cap :
  canonical_capability cap <> "tools" ->
  let r' := {| cr_required := [canonical_capability cap]; cr_allow_models := cr_allow_models r;
               cr_deny_models := cr_deny_models r; cr_allow_providers := cr_allow_providers r;
               cr_deny_providers := cr_deny_providers r;
               cr_estimated_tokens := cr_estimated_tokens r |} in
  cr_required r = [] -> passport_satisfies p r' = passport_satisfies p r.
Proof.
  intros Hne. cbv zeta. intros Hr. unfold passport_satisfies. cbn -[mem canonical_capability]. rewrite Hr.
  assert (mem "tools" [canonical_capability cap] = false) as ->; [|done].
  apply mem_false. rewrite list_elem_of_singleton. congruence.
Qed.
