(* ===== verification/Kernel.v ===== *)
(** [verdict/decision_kernel.py] with [verdict/eligibility.py], [verdict/escalation.py]
    and [security.fingerprint_text]: the eligibility gate, the decision over it, its id
    and receipt, and their independent verification.

    A capability set is a [gset]; the order in which Python iterates over one is a
    parameter. A ranker is any function that may raise. [Failover.canonical_capability]
    is [availability.canonical_capability]. *)
From Stdlib Require Import Ascii Qabs Qround.
From S2P Require Import Prelude PyStr Regex PyNum Json JsonDict Failover.

(** What [_canonical] raises: [ValueError]. *)
Inductive kernel_exn := ValueError (msg : string).

(** What the kernel reads of a [ModelInfo]. *)
Record ModelInfo := {
  mi_id : string;
  mi_provider : string;
  mi_model : string;
  mi_capabilities : gset string;
  mi_availability_state : string
}.

(** [ModelInfo.__post_init__]: the model defaults to the id after its first slash. *)
Definition model_info (id provider : string) (model : option string) (capabilities : list string)
    (state : string) : ModelInfo :=
  {| mi_id := id; mi_provider := provider; mi_model := default (split1_last "/"%char id) model;
     mi_capabilities := list_to_set capabilities; mi_availability_state := state |}.

(** * The eligibility gate *)

Inductive EligibilityVerdict :=
| ELIGIBLE | NOT_LIVE_ELIGIBLE | RUNTIME_TRUTH_ABSENT | NOT_REQUESTED_TIER | NOT_FREE_TIER
| INACTIVE_UNCONNECTED | OPAQUE_AUTO | METADATA_GHOST | NO_PASSPORT | PASSPORT_STALE
| CONFIRM_FAILED | CAPABILITY_MISMATCH | REQUIRED_UNKNOWN | WORTHY_EXCLUDES_FREE | UNMAPPED | STALE.

Definition verdict_value (v : EligibilityVerdict) : string :=
  match v with
  | ELIGIBLE => "eligible" | NOT_LIVE_ELIGIBLE => "not_live_eligible"
  | RUNTIME_TRUTH_ABSENT => "runtime_truth_absent" | NOT_REQUESTED_TIER => "not_requested_tier"
  | NOT_FREE_TIER => "not_free_tier" | INACTIVE_UNCONNECTED => "inactive_unconnected"
  | OPAQUE_AUTO => "opaque_auto" | METADATA_GHOST => "metadata_ghost"
  | NO_PASSPORT => "no_passport" | PASSPORT_STALE => "passport_stale"
  | CONFIRM_FAILED => "confirm_failed" | CAPABILITY_MISMATCH => "capability_mismatch"
  | REQUIRED_UNKNOWN => "required_unknown" | WORTHY_EXCLUDES_FREE => "worthy_excludes_free_for_cost"
  | UNMAPPED => "unmapped" | STALE => "stale"
  end.

(** An entry of a report's [eligible]: a string, or an object with its [model.id] and [id]. *)
Inductive EligibleEntry :=
| EligibleName (s : string)
| EligibleItem (model_id item_id : option string).

(** [AvailabilityReport]: of each candidate its model id, the value of its state and its
    source. *)
Record AvailabilityReport := {
  ar_candidates : list (string * string * string);
  ar_eligible : list EligibleEntry;
  ar_source : string;
  ar_errors : list string
}.

Record EligibilityRecord := {
  er_model_id : string;
  er_provider : string;
  er_admitted : bool;
  er_verdict : EligibilityVerdict;
  er_state : string;
  er_source : string;
  er_reason : option string
}.

Record EligibilityResult := {
  el_admitted : list ModelInfo;
  el_records : list EligibilityRecord
}.

(** [EligibilityResult.exclusions] *)
Definition el_exclusions (r : EligibilityResult) : list EligibilityRecord :=
  List.filter (fun r => negb (er_admitted r)) (el_records r).

(** [EligibilityRecord.to_dict], [EligibilityResult.to_dict] *)
Definition record_to_dict (r : EligibilityRecord) : json :=
  obj [("model_id", JStr (er_model_id r)); ("provider", JStr (er_provider r));
       ("admitted", JBool (er_admitted r)); ("verdict", JStr (verdict_value (er_verdict r)));
       ("state", JStr (er_state r)); ("source", JStr (er_source r));
       ("reason", jopt JStr (er_reason r))].

Definition result_to_dict (r : EligibilityResult) : json :=
  obj [("admitted", JList (map (fun m => JStr (mi_id m)) (el_admitted r)));
       ("records", JList (map record_to_dict (el_records r)));
       ("exclusions", JList (map record_to_dict (el_exclusions r)))].

(** A string that is not empty. *)
Definition nonempty (o : option string) : option string :=
  match o with Some s => if String.eqb s "" then None else Some s | None => None end.

(** [_eligible_identity] *)
Definition eligible_identity (e : EligibleEntry) : option string :=
  match e with
  | EligibleName s => nonempty (Some s)
  | EligibleItem m i => match nonempty m with Some s => Some s | None => nonempty i end
  end.

(** [_state_for] *)
Definition state_for (report : option AvailabilityReport) (model_id : string) : string * string :=
  match report with
  | None => ("unknown", "cache")
  | Some r =>
      match List.find (fun c => String.eqb c.1.1 model_id) (ar_candidates r) with
      | Some (_, state, source) => (state, source)
      | None => ("unknown", ar_source r)
      end
  end.

(** [EligibilityGate]'s attributes *)
Record Gate := {
  g_source : option (string -> option AvailabilityReport);
  g_protected_fail_closed : bool;
  g_allow_unverified_in_dev : bool
}.

(** [_ADMITTED_STATES] by value: [READY] is an alias of [ELIGIBLE]. *)
Definition ADMITTED_STATES : list string := ["eligible"].

Definition ABSENT_STATES : list string :=
  ["unknown"; "error"; "unavailable"; "timeout"; "malformed"; "unauthorized"].

(** Whether the adapter listed the model as eligible. *)
Definition adapter_admits (report : option AvailabilityReport) (model_id : string) : bool :=
  match report with
  | Some r => existsb (fun e => bool_decide (eligible_identity e = Some model_id)) (ar_eligible r)
  | None => false
  end.

(** [EligibilityGate._judge] *)
Definition judge (g : Gate) (protected dev_mode : bool) (m : ModelInfo) : EligibilityRecord :=
  let record admitted verdict state source reason :=
    {| er_model_id := mi_id m;
       er_provider := if String.eqb (mi_provider m) "" then "unknown" else mi_provider m;
       er_admitted := admitted; er_verdict := verdict; er_state := state; er_source := source;
       er_reason := reason |} in
  match g_source g with
  | None =>
      if protected && g_protected_fail_closed g
      then record false RUNTIME_TRUTH_ABSENT "unknown" "cache"
             (Some "protected work: availability cache not configured")
      else record true ELIGIBLE (mi_availability_state m) "catalog" None
  | Some availability_source =>
      let report := availability_source (mi_id m) in
      let '(state, source) := state_for report (mi_id m) in
      let detail := match report with
                    | Some r => match ar_errors r with
                                | e :: _ => " (" +:+ e +:+ ")"
                                | [] => ""
                                end
                    | None => ""
                    end in
      if adapter_admits report (mi_id m)
      then record true ELIGIBLE state source (Some "adapter eligibility verdict")
      else if mem state ADMITTED_STATES then record true ELIGIBLE state source None
      else if mem state ABSENT_STATES then
        if protected && g_protected_fail_closed g
        then record false RUNTIME_TRUTH_ABSENT state source
               (Some ("protected work: live availability " +:+ state +:+ detail))
        else if dev_mode && g_allow_unverified_in_dev g && negb protected
        then record true NOT_LIVE_ELIGIBLE state source
               (Some ("dev mode admits unverified candidate (" +:+ state +:+ ")"))
        else record false RUNTIME_TRUTH_ABSENT state source
               (Some ("live availability " +:+ state +:+ detail))
      else record false NOT_LIVE_ELIGIBLE state source (Some ("candidate excluded: " +:+ state))
  end.

(** [EligibilityGate.evaluate] *)
Definition gate_evaluate (g : Gate) (protected dev_mode : bool) (ms : list ModelInfo) : EligibilityResult :=
  {| el_admitted := List.filter (fun m => er_admitted (judge g protected dev_mode m)) ms;
     el_records := map (judge g protected dev_mode) ms |}.

(** * Escalation *)

Record EscalationPattern := { ep_pattern : string; ep_min_tier : Z; ep_label : string }.

Definition DEFAULT_PATTERNS : list EscalationPattern :=
  [{| ep_pattern := "(payment|billing|charge|refund|stripe|invoice|subscription)";
      ep_min_tier := 0; ep_label := "money-path" |};
   {| ep_pattern := "(live.?order|place.?order|execute.?trade|real.?money|production.?deploy)";
      ep_min_tier := 0; ep_label := "live-execution" |};
   {| ep_pattern := "(auth|login|token|session|password|jwt|oauth|credential|secret)";
      ep_min_tier := 1; ep_label := "auth-security" |};
   {| ep_pattern := "(migrat|schema|alter.?table|foreign.?key|index|constraint)";
      ep_min_tier := 1; ep_label := "data-migration" |};
   {| ep_pattern := "(security|vulnerab|injection|xss|csrf|sanitiz|escap)";
      ep_min_tier := 1; ep_label := "security" |};
   {| ep_pattern := "(architect|system.?design|infrastructure|scaling|distributed)";
      ep_min_tier := 1; ep_label := "architecture" |}].

(** The loop of [scan] *)
Definition scan_step (task : string) (best : option (Z * string)) (pat : EscalationPattern)
    : option (Z * string) :=
  if matches true (rx (ep_pattern pat)) task &&
     match best with None => true | Some (tier, _) => ep_min_tier pat <? tier end
  then Some (ep_min_tier pat, ep_label pat) else best.

(** [scan]: [None] is [(None, None)]. *)
Definition scan (task : string) (patterns : list EscalationPattern) : option (Z * string) :=
  fold_left (scan_step task) patterns None.

(** * Canonical values and digests *)

(** [_canonical] of a JSON value *)
Fixpoint canonical (v : json) : result kernel_exn json :=
  match v with
  | JFloat r =>
      match parse_decimal r with
      | Some (Some q) =>
          if Qle_bool (inject_Z (10 ^ 16)) (Qabs q)
          then Err (ValueError "float magnitude exceeds canonical bound")
          else Ok (if Qeq_bool q (inject_Z (Qfloor q)) then JInt (Qfloor q) else v)
      | _ => Err (ValueError "non-finite float in canonical form")
      end
  | JList vs =>
      ws ← (fix go (vs : list json) : result kernel_exn (list json) :=
              match vs with
              | [] => Ok []
              | v :: vs => w ← canonical v; ws ← go vs; Ok (w :: ws)
              end) vs;
      Ok (JList ws)
  | JObj ms =>
      ws ← (fix go (ms : list (string * json)) : result kernel_exn (list (string * json)) :=
              match ms with
              | [] => Ok []
              | (k, v) :: ms => w ← canonical v; ws ← go ms; Ok ((k, w) :: ws)
              end) ms;
      Ok (JObj ws)
  | _ => Ok v
  end.

(** What the kernel reads of a [TaskSpec]. *)
Record KernelTask := {
  kt_objective : string;
  kt_task_type : string;
  kt_required : list string;
  kt_tools : list string;
  kt_privacy : string;
  kt_risk : string;
  kt_approvals : list string
}.

Definition str_list (l : list string) : json := JList (map JStr l).

(** [compute_canonical_task_spec]: the payload and its text *)
Definition task_payload (t : KernelTask) : json :=
  obj [("objective", JStr (kt_objective t)); ("task_type", JStr (kt_task_type t));
       ("required_capabilities", str_list (kt_required t)); ("tools", str_list (kt_tools t));
       ("privacy", JStr (kt_privacy t)); ("risk", JStr (kt_risk t));
       ("approvals", str_list (kt_approvals t))].

Definition compute_canonical_task_spec (t : KernelTask) : result kernel_exn string :=
  v ← canonical (task_payload t); Ok (dumps true v).

(** [_exclusion_projection] *)
Definition exclusion_projection (r : EligibilityRecord) : json :=
  obj [("model_id", JStr (er_model_id r)); ("provider", JStr (er_provider r));
       ("verdict", JStr (verdict_value (er_verdict r))); ("state", JStr (er_state r));
       ("source", JStr (er_source r)); ("reason", jopt JStr (er_reason r))].

Record DecisionReceipt := {
  rc_decision_id : string;
  rc_canonical_task_spec : string;
  rc_policy_version : string;
  rc_candidate_catalog_digest : string;
  rc_admitted_set : list string;
  rc_exclusions : list json;
  rc_outcome : string;
  rc_integrity_digest : string;
  rc_advisory_consulted : option string
}.

(** [_receipt_signature] *)
Definition receipt_signature (r : DecisionReceipt) : json :=
  obj [("decision_id", JStr (rc_decision_id r)); ("canonical_task_spec", JStr (rc_canonical_task_spec r));
       ("policy_version", JStr (rc_policy_version r));
       ("candidate_catalog_digest", JStr (rc_candidate_catalog_digest r));
       ("admitted_set", str_list (rc_admitted_set r)); ("exclusions", JList (rc_exclusions r));
       ("outcome", JStr (rc_outcome r));
       ("advisory_consulted", jopt JStr (rc_advisory_consulted r))].

(** * Outcomes *)

Inductive Outcome := ACCEPTED | DEGRADED | DENIED.

#[global] Instance outcome_eq_dec : EqDecision Outcome.
Proof. solve_decision. Defined.

(** [_compose_outcome] *)
Definition compose_outcome (admitted : list ModelInfo) (records : list EligibilityRecord)
    (preferred_id : option string) : Outcome * string :=
  match admitted with
  | [] =>
      if match records with [] => false | _ => true end && forallb (fun r => negb (er_admitted r)) records
      then (DENIED, "denied:all_candidates_hard_blocked")
      else (DENIED, "denied:no_eligible_candidate")
  | _ =>
      match preferred_id with
      | Some p =>
          if existsb (fun r => String.eqb (er_model_id r) p && negb (er_admitted r)) records &&
             negb (mem p (map mi_id admitted))
          then (DEGRADED, "degraded:preferred_candidate_fail_closed")
          else (ACCEPTED, "accepted:all_gates_green")
      | None => (ACCEPTED, "accepted:all_gates_green")
      end
  end.

(** [_preferred_id] *)
Definition preferred (admitted : list ModelInfo) (records : list EligibilityRecord) : option string :=
  match records with
  | r :: _ => Some (er_model_id r)
  | [] => mi_id <$> head admitted
  end.

(** [_capability_gate] *)
Definition missing_capabilities (required : list string) (m : ModelInfo) : gset string :=
  list_to_set (map canonical_capability required) ∖
  list_to_set (map canonical_capability (elements (mi_capabilities m))).

Definition capable (required : list string) (m : ModelInfo) : bool :=
  bool_decide (missing_capabilities required m = ∅).

Definition capability_record (required : list string) (m : ModelInfo) : EligibilityRecord :=
  {| er_model_id := mi_id m;
     er_provider := if String.eqb (mi_provider m) "" then "unknown" else mi_provider m;
     er_admitted := false; er_verdict := NOT_REQUESTED_TIER; er_state := "missing_capability";
     er_source := "capability_gate";
     er_reason := Some ("missing capability: " +:+
       join ", " (sort_str (elements (missing_capabilities required m)))) |}.

Definition capability_gate (candidates : list ModelInfo) (required : list string)
    : list ModelInfo * list EligibilityRecord :=
  (List.filter (capable required) candidates,
   map (capability_record required) (List.filter (fun m => negb (capable required m)) candidates)).

(** * Decisions *)

Record RankerOutput := {
  ro_ranked : list ModelInfo;
  ro_scores : list (string * Q);
  ro_reasoning : list (string * string);
  ro_shadow : bool
}.

(** [AdvisoryInput] with its ranker, the baseline one where the caller gives none;
    [Err] is an exception of [rank]. *)
Record AdvisoryInput := {
  ad_ranker : EligibilityResult -> KernelTask -> result unit RankerOutput;
  ad_requested_tier : option Z;
  ad_escalation : option (option Z * option string);
  ad_label : option string
}.

(** [advisory_influence] *)
Inductive Influence :=
| Consulted (label : string) (requested_tier : option Z) (escalation : option (option Z * option string))
    (reordering : list string) (scores : list (string * Q)) (reasoning : list (string * string))
    (shadow : bool)
| EscalationScan (tier : Z) (label : string).

(** [RoutingDecisionContract], the fields that the kernel fills; [task_spec.to_dict()] and
    the receipt, both copies of what is given, are left out. *)
Record RouteContract := {
  rt_selected_route : option (string * string);
  rt_admitted_ids : list string;
  rt_exclusions : list json;
  rt_policy_floor : string;
  rt_explanation : string;
  rt_policy_version : string;
  rt_decision_id : string
}.

Record DecisionRecord := {
  dr_decision_id : string;
  dr_task_spec_canonical : string;
  dr_policy_version : string;
  dr_outcome : Outcome;
  dr_admitted : list ModelInfo;
  dr_exclusions : list json;
  dr_receipt : DecisionReceipt;
  dr_route_contract : RouteContract;
  dr_advisory_influence : option Influence;
  dr_protected : bool;
  dr_dev_mode : bool
}.

Inductive VerificationFault := DECISION_ID_DIVERGENT | RECEIPT_TAMPERED | ACCEPTED_ON_INVALID.

(** The order that an advisory gives the admitted: its own candidates whose id is admitted,
    then the admitted it leaves out. *)
Definition reorder (admitted ranked : list ModelInfo) : list ModelInfo :=
  List.filter (fun m => mem (mi_id m) (map mi_id admitted)) ranked ++
  List.filter (fun m => negb (mem (mi_id m) (map mi_id ranked))) admitted.

Definition advise (a : AdvisoryInput) (e : EligibilityResult) (t : KernelTask)
    : list ModelInfo * string * Influence :=
  let consulted := match nonempty (ad_label a) with Some l => l | None => "adaptive-ranker" end in
  let ranked := match ad_ranker a e t with
                | Ok r => r
                | Err _ => {| ro_ranked := el_admitted e; ro_scores := [];
                              ro_reasoning := [("advisory", "failed; baseline admitted set retained")];
                              ro_shadow := true |}
                end in
  (reorder (el_admitted e) (ro_ranked ranked), consulted,
   Consulted consulted (ad_requested_tier a) (ad_escalation a) (map mi_id (ro_ranked ranked))
     (ro_scores ranked) (ro_reasoning ranked) (ro_shadow ranked)).

(** [_is_protected] *)
Definition is_protected (t : KernelTask) : bool :=
  mem (lower (kt_risk t)) ["high"; "critical"; "protected"].

(** [_project_route_contract] *)
Definition project_route_contract (t : KernelTask) (policy_version : string) (admitted : list ModelInfo)
    (exclusions : list json) (explanation decision_id : string) : RouteContract :=
  {| rt_selected_route := (fun m => (mi_id m, mi_provider m)) <$> head admitted;
     rt_admitted_ids := map mi_id admitted; rt_exclusions := exclusions;
     rt_policy_floor := if is_protected t then "high" else "standard";
     rt_explanation := explanation; rt_policy_version := policy_version;
     rt_decision_id := decision_id |}.

Section decide.
(** [hashlib.sha256(...).hexdigest()]; the order of iteration over a frozenset *)
Context (sha256_hex : string -> string) (set_order : gset string -> list string).

(** [fingerprint_text] with its default length *)
Definition fingerprint_text (s : string) : string := "sha256:" +:+ take_str 32 (sha256_hex s).

(** [_model_identity]: a [ModelInfo] has no [tier]. *)
Definition model_identity (m : ModelInfo) : json :=
  obj [("id", JStr (mi_id m)); ("provider", JStr (mi_provider m)); ("model", JStr (mi_model m));
       ("capabilities", str_list (set_order (mi_capabilities m)))].

(** [compute_candidate_catalog_digest] *)
Definition compute_candidate_catalog_digest (candidates : list ModelInfo) : result kernel_exn string :=
  vs ← map_result (fun c => canonical (model_identity c)) candidates;
  Ok (fingerprint_text (dumps true (JList vs))).

(** [compute_receipt_digest] *)
Definition compute_receipt_digest (r : DecisionReceipt) : result kernel_exn string :=
  v ← canonical (receipt_signature r); Ok (fingerprint_text (dumps true v)).

(** [_stamp_receipt_digest] *)
Definition stamp (r : DecisionReceipt) : result kernel_exn DecisionReceipt :=
  digest ← compute_receipt_digest r;
  Ok {| rc_decision_id := rc_decision_id r; rc_canonical_task_spec := rc_canonical_task_spec r;
        rc_policy_version := rc_policy_version r;
        rc_candidate_catalog_digest := rc_candidate_catalog_digest r;
        rc_admitted_set := rc_admitted_set r; rc_exclusions := rc_exclusions r;
        rc_outcome := rc_outcome r; rc_integrity_digest := digest;
        rc_advisory_consulted := rc_advisory_consulted r |}.

(** The payload of [_compute_decision_id] *)
Definition decision_payload (spec policy_version catalog_digest : string) (admitted_ids : list string)
    (exclusions : json) : json :=
  obj [("canonical_task_spec", JStr spec); ("policy_version", JStr policy_version);
       ("candidate_catalog_digest", JStr catalog_digest);
       ("admitted_set", str_list (sort_str (elements (list_to_set admitted_ids : gset string))));
       ("exclusions", exclusions)].

(** [_compute_decision_id] *)
Definition compute_decision_id (spec policy_version catalog_digest : string) (admitted_ids : list string)
    (exclusions : list json) : result kernel_exn string :=
  ex ← canonical (JList exclusions);
  Ok (fingerprint_text (dumps true (decision_payload spec policy_version catalog_digest admitted_ids ex))).

(** The hard part of [decide]: the gates over the candidates. *)
Definition hard_gates (t : KernelTask) (candidates : list ModelInfo)
    (truth : string -> option AvailabilityReport) (protected dev_mode : bool)
    : EligibilityResult * list EligibilityRecord :=
  let '(able, capability_records) := capability_gate candidates (kt_required t) in
  let gate := {| g_source := Some truth; g_protected_fail_closed := protected;
                 g_allow_unverified_in_dev := dev_mode |} in
  let eligibility := gate_evaluate gate protected dev_mode able in
  (eligibility, el_records eligibility ++ capability_records).

(** [decide]; [truth] is [availability_truth.get], with [None] for what is no report. *)
Definition decide_on (t : KernelTask) (policy_version : string) (candidates : list ModelInfo)
    (truth : string -> option AvailabilityReport) (protected : bool) (advisory : option AdvisoryInput)
    (dev_mode : bool) : result kernel_exn DecisionRecord :=
  let '(eligibility, records) := hard_gates t candidates truth protected dev_mode in
  let exclusions := map exclusion_projection (List.filter (fun r => negb (er_admitted r)) records) in
  let '(admitted, consulted, influence) :=
    match advisory with
    | Some a => let '(admitted, consulted, influence) := advise a eligibility t in
                (admitted, Some consulted, Some influence)
    | None => (el_admitted eligibility, None,
               match candidates with
               | [] => None
               | _ => (fun b => EscalationScan b.1 b.2) <$> scan (kt_objective t) DEFAULT_PATTERNS
               end)
    end in
  let '(outcome, reason_code) := compose_outcome admitted records (preferred admitted records) in
  spec ← compute_canonical_task_spec t;
  catalog_digest ← compute_candidate_catalog_digest candidates;
  decision_id ← compute_decision_id spec policy_version catalog_digest (map mi_id admitted) exclusions;
  receipt ← stamp {| rc_decision_id := decision_id; rc_canonical_task_spec := spec;
                     rc_policy_version := policy_version;
                     rc_candidate_catalog_digest := catalog_digest;
                     rc_admitted_set := map mi_id admitted; rc_exclusions := exclusions;
                     rc_outcome := reason_code; rc_integrity_digest := "";
                     rc_advisory_consulted := consulted |};
  Ok {| dr_decision_id := decision_id; dr_task_spec_canonical := spec;
        dr_policy_version := policy_version; dr_outcome := outcome; dr_admitted := admitted;
        dr_exclusions := exclusions; dr_receipt := receipt;
        dr_route_contract := project_route_contract t policy_version admitted exclusions
                               reason_code decision_id;
        dr_advisory_influence := influence; dr_protected := protected; dr_dev_mode := dev_mode |}.

(** [verify_decision] *)
Definition verify_decision (record : DecisionRecord) (t : KernelTask) (policy_version : string)
    (candidates : list ModelInfo) (truth : string -> option AvailabilityReport)
    (protected dev_mode : bool) : result kernel_exn (option VerificationFault) :=
  digest ← compute_receipt_digest (dr_receipt record);
  if negb (String.eqb digest (rc_integrity_digest (dr_receipt record))) then Ok (Some RECEIPT_TAMPERED)
  else
    again ← decide_on t policy_version candidates truth protected None dev_mode;
    Ok (if negb (String.eqb (dr_decision_id again) (dr_decision_id record))
        then Some DECISION_ID_DIVERGENT
        else if bool_decide (dr_outcome record = ACCEPTED) && negb (bool_decide (dr_outcome again = ACCEPTED))
        then Some ACCEPTED_ON_INVALID
        else None).
End decide.

(** * Lemmas: canonical values *)

(** A value that [_canonical] leaves as it is. *)
Definition plain_json (v : json) : Prop := canonical v = Ok v.

Lemma canonical_list vs : Forall plain_json vs -> plain_json (JList vs).
Proof.
  unfold plain_json. intros H. cbn.
  match goal with |- (?go vs ≫= _) = _ => assert (go vs = Ok vs) as -> end; [|done].
  induction H as [|v vs Hv _ IH]; [done|]. by rewrite Hv, IH.
Qed.

Lemma canonical_obj ms : Forall (fun m => plain_json m.2) ms -> plain_json (obj ms).
Proof.
  unfold plain_json, obj. intros H%Forall_obj_of. cbn. set (l := obj_of ms) in *. clearbody l.
  match goal with |- (?go l ≫= _) = _ => assert (go l = Ok l) as -> end; [|done].
  induction H as [|[k v] l Hv _ IH]; [done|]. cbn in Hv. by rewrite Hv, IH.
Qed.

Lemma canonical_strings l : plain_json (str_list l).
Proof. apply canonical_list. by apply Forall_map, Forall_true. Qed.

Lemma canonical_jopt o : plain_json (jopt JStr o).
Proof. by destruct o. Qed.

Create HintDb kernel.
#[local] Hint Resolve canonical_list canonical_strings canonical_jopt : kernel.

(** The members of an object of strings and lists of strings are plain, and well formed. *)
Ltac plain_members :=
  apply canonical_obj; repeat (apply Forall_cons; split; [cbn [snd]; first [reflexivity | auto with kernel]|]);
  apply Forall_nil_2.

Lemma task_plain t : plain_json (task_payload t).
Proof. plain_members. Qed.

Lemma exclusion_plain r : plain_json (exclusion_projection r).
Proof. plain_members. Qed.

Lemma identity_plain set_order m : plain_json (model_identity set_order m).
Proof. plain_members. Qed.

Lemma exclusions_plain rs : Forall plain_json (map exclusion_projection rs).
Proof. apply Forall_map, Forall_true, exclusion_plain. Qed.

Lemma signature_plain r : Forall plain_json (rc_exclusions r) -> plain_json (receipt_signature r).
Proof. intros H. plain_members. Qed.

Lemma task_spec_eq t : compute_canonical_task_spec t = Ok (dumps true (task_payload t)).
Proof. unfold compute_canonical_task_spec. by rewrite task_plain. Qed.

Section digests.
Context (sha256_hex : string -> string) (set_order : gset string -> list string).

Definition catalog_payload (cs : list ModelInfo) : json := JList (map (model_identity set_order) cs).

Lemma catalog_eq cs : compute_candidate_catalog_digest sha256_hex set_order cs =
  Ok (fingerprint_text sha256_hex (dumps true (catalog_payload cs))).
Proof.
  unfold compute_candidate_catalog_digest, catalog_payload.
  assert (map_result (fun c => canonical (model_identity set_order c)) cs = Ok (map (model_identity set_order) cs))
    as ->; [|done].
  apply map_result_ok. induction cs as [|c cs IH]; constructor; [apply identity_plain|done].
Qed.

Lemma decision_id_eq spec pv cat ids ex : Forall plain_json ex ->
  compute_decision_id sha256_hex spec pv cat ids ex =
  Ok (fingerprint_text sha256_hex (dumps true (decision_payload spec pv cat ids (JList ex)))).
Proof. intros H. unfold compute_decision_id. by rewrite canonical_list. Qed.

Lemma receipt_eq r : Forall plain_json (rc_exclusions r) ->
  compute_receipt_digest sha256_hex r = Ok (fingerprint_text sha256_hex (dumps true (receipt_signature r))).
Proof. intros H. unfold compute_receipt_digest. by rewrite signature_plain. Qed.

(** A stamped receipt verifies itself. *)
Lemma stamp_verifies r q : stamp sha256_hex r = Ok q ->
  compute_receipt_digest sha256_hex q = Ok (rc_integrity_digest q).
Proof. unfold stamp. intros (d & Hd & [= <-])%bind_ok. exact Hd. Qed.
End digests.

(** * Lemmas: the decision *)

Lemma reorder_ids admitted ranked id :
  id ∈ map mi_id (reorder admitted ranked) <-> id ∈ map mi_id admitted.
Proof.
  unfold reorder. rewrite map_app, elem_of_app, !list_elem_of_fmap. setoid_rewrite elem_of_lfilter.
  setoid_rewrite negb_true_iff. setoid_rewrite mem_false. setoid_rewrite mem_spec. split.
  - intros [(m & -> & _ & Hm) | (m & -> & Hm & _)]; [by apply list_elem_of_fmap in Hm|eauto].
  - intros (m & -> & Hm). destruct (decide (mi_id m ∈ map mi_id ranked)) as [Hr|Hr]; [left|right; eauto].
    apply list_elem_of_fmap in Hr as (m' & E & Hm'). exists m'. split_and!; [done..|].
    rewrite <- E. apply list_elem_of_fmap. eauto.
Qed.

Lemma ids_nil a b : (forall id, id ∈ map mi_id a <-> id ∈ map mi_id b) -> a = [] -> b = [].
Proof.
  intros H ->. destruct b as [|m b]; [done|]. exfalso. apply (not_elem_of_nil (mi_id m)), H. by left.
Qed.

Lemma compose_outcome_ids a b records p :
  (forall id, id ∈ map mi_id a <-> id ∈ map mi_id b) -> compose_outcome a records p = compose_outcome b records p.
Proof.
  intros H. unfold compose_outcome.
  assert (forall id, mem id (map mi_id a) = mem id (map mi_id b)) as Hm.
  { intros id. apply eq_true_iff_eq. by rewrite !mem_spec. }
  destruct a as [|x a], b as [|y b]; [done| | |].
  - by specialize (ids_nil _ _ H eq_refl).
  - assert (forall id, id ∈ map mi_id [] <-> id ∈ map mi_id (x :: a)) as H' by (intros id; by rewrite H).
    by specialize (ids_nil _ _ H' eq_refl).
  - destruct p; [|done]. by rewrite Hm.
Qed.

(** The admitted of a decision, before its advisory. *)
Definition hard_admitted (t : KernelTask) (cs : list ModelInfo) (truth : string -> option AvailabilityReport)
    (protected dev_mode : bool) : list ModelInfo :=
  el_admitted (hard_gates t cs truth protected dev_mode).1.

Definition hard_exclusions (t : KernelTask) (cs : list ModelInfo) (truth : string -> option AvailabilityReport)
    (protected dev_mode : bool) : list json :=
  map exclusion_projection
    (List.filter (fun r => negb (er_admitted r)) (hard_gates t cs truth protected dev_mode).2).

Lemma records_nil t cs truth protected dev_mode :
  (hard_gates t cs truth protected dev_mode).2 = [] -> hard_admitted t cs truth protected dev_mode = [].
Proof.
  unfold hard_admitted, hard_gates. cbn. destruct (List.filter _ cs); [done|]. by cbn.
Qed.

Section decisions.
Context (sha256_hex : string -> string) (set_order : gset string -> list string).
Context (t : KernelTask) (pv : string) (cs : list ModelInfo)
  (truth : string -> option AvailabilityReport) (protected dev_mode : bool).

Let records := (hard_gates t cs truth protected dev_mode).2.
Let hard := hard_admitted t cs truth protected dev_mode.
Let decide_with a := decide_on sha256_hex set_order t pv cs truth protected a dev_mode.

(** The id of a decision: no advisory enters it. *)
Definition hard_id : string :=
  fingerprint_text sha256_hex (dumps true (decision_payload (dumps true (task_payload t)) pv
    (fingerprint_text sha256_hex (dumps true (catalog_payload set_order cs))) (map mi_id hard)
    (JList (hard_exclusions t cs truth protected dev_mode)))).

Lemma payload_ids spec cat ids ids' ex : (forall id, id ∈ ids <-> id ∈ ids') ->
  decision_payload spec pv cat ids ex = decision_payload spec pv cat ids' ex.
Proof.
  intros H. unfold decision_payload.
  assert ((list_to_set ids : gset string) = list_to_set ids') as ->; [|done].
  apply set_eq. intros id. by rewrite !elem_of_list_to_set.
Qed.

Lemma decide_spec a : exists r, decide_with a = Ok r /\
  dr_decision_id r = hard_id /\ dr_task_spec_canonical r = dumps true (task_payload t) /\
  dr_policy_version r = pv /\
  dr_outcome r = (compose_outcome hard records (preferred hard records)).1 /\
  (forall id, id ∈ map mi_id (dr_admitted r) <-> id ∈ map mi_id hard) /\
  dr_exclusions r = hard_exclusions t cs truth protected dev_mode /\
  compute_receipt_digest sha256_hex (dr_receipt r) = Ok (rc_integrity_digest (dr_receipt r)) /\
  rc_decision_id (dr_receipt r) = hard_id.
Proof.
  unfold decide_with, decide_on, hard_id, hard, records, hard_exclusions, hard_admitted.
  pose proof (records_nil t cs truth protected dev_mode) as Hnil. unfold hard_admitted in Hnil.
  destruct (hard_gates t cs truth protected dev_mode) as [elig recs]. cbn [fst snd] in *.
  set (advised := match a with Some a => _ | None => _ end).
  assert (forall id, id ∈ map mi_id advised.1.1 <-> id ∈ map mi_id (el_admitted elig)) as Hids.
  { intros id. subst advised. destruct a as [a|]; [|done]. cbn. apply reorder_ids. }
  destruct advised as [[admitted consulted] influence]. cbn [fst snd] in Hids.
  rewrite (compose_outcome_ids _ _ _ _ Hids).
  assert (preferred admitted recs = preferred (el_admitted elig) recs) as ->.
  { destruct recs as [|r recs]; [|done]. specialize (Hnil eq_refl). rewrite Hnil in *.
    by rewrite (ids_nil _ _ (fun id => iff_sym (Hids id)) eq_refl). }
  destruct (compose_outcome (el_admitted elig) recs _) as [outcome reason].
  rewrite task_spec_eq, catalog_eq. cbn [mbind result_mbind result_bind].
  rewrite decision_id_eq by apply exclusions_plain. cbn [mbind result_mbind result_bind].
  rewrite (payload_ids _ _ _ _ _ Hids).
  unfold stamp. rewrite receipt_eq by (cbn; apply exclusions_plain).
  cbn [mbind result_mbind result_bind]. eexists. split; [done|].
  split_and!; try done. apply receipt_eq. apply exclusions_plain.
Qed.
End decisions.

(** * What the gates ask *)

(** The candidate has every required capability, under the names of the shared vocabulary,
    and live truth admits it: the adapter lists it as eligible, or its state is eligible,
    or an unprotected development run tolerates a state that is only absent. *)
Record admits (t : KernelTask) (truth : string -> option AvailabilityReport) (protected dev_mode : bool)
    (m : ModelInfo) : Prop := {
  am_capable c : c ∈ kt_required t ->
    exists d, d ∈ mi_capabilities m /\ canonical_capability d = canonical_capability c;
  am_live : adapter_admits (truth (mi_id m)) (mi_id m) = true \/
    (state_for (truth (mi_id m)) (mi_id m)).1 = "eligible" \/
    dev_mode = true /\ protected = false /\ (state_for (truth (mi_id m)) (mi_id m)).1 ∈ ABSENT_STATES
}.

Lemma capable_spec required m : capable required m = true <->
  forall c, c ∈ required -> exists d, d ∈ mi_capabilities m /\ canonical_capability d = canonical_capability c.
Proof.
  unfold capable, missing_capabilities. rewrite bool_decide_eq_true.
  assert (forall x, x ∈ (list_to_set (map canonical_capability (elements (mi_capabilities m))) : gset string) <->
    exists d, d ∈ mi_capabilities m /\ canonical_capability d = x) as Hcaps.
  { intros x. rewrite elem_of_list_to_set, list_elem_of_fmap. setoid_rewrite elem_of_elements. naive_solver. }
  split.
  - intros He c Hc. apply Hcaps. destruct (decide (canonical_capability c ∈
      (list_to_set (map canonical_capability (elements (mi_capabilities m))) : gset string))) as [|Hn]; [done|].
    exfalso. apply (not_elem_of_empty (C := gset string) (canonical_capability c)). rewrite <- He.
    apply elem_of_difference. split; [|done]. apply elem_of_list_to_set, list_elem_of_fmap. eauto.
  - intros H. apply set_eq. intros x. split; [|by intros ?%not_elem_of_empty].
    intros [Hx Hn]%elem_of_difference. apply elem_of_list_to_set, list_elem_of_fmap in Hx as (c & -> & Hc).
    destruct Hn. by apply Hcaps, H.
Qed.

(** The branches of [_judge] that admit, with live truth configured. *)
Lemma judge_live truth fail_closed unverified protected dev_mode m :
  er_admitted (judge {| g_source := Some truth; g_protected_fail_closed := fail_closed;
                        g_allow_unverified_in_dev := unverified |} protected dev_mode m) = true <->
  adapter_admits (truth (mi_id m)) (mi_id m) = true \/
  (state_for (truth (mi_id m)) (mi_id m)).1 = "eligible" \/
  protected = false /\ dev_mode = true /\ unverified = true /\
  (state_for (truth (mi_id m)) (mi_id m)).1 ∈ ABSENT_STATES.
Proof.
  unfold judge. cbn [g_source g_protected_fail_closed g_allow_unverified_in_dev].
  destruct (state_for (truth (mi_id m)) (mi_id m)) as [state source]. cbn [fst].
  destruct (adapter_admits _ _); [cbn; tauto|].
  unfold ADMITTED_STATES. destruct (mem state ["eligible"]) eqn:Ea; [cbn; apply mem_spec in Ea; apply list_elem_of_singleton in Ea; tauto|].
  apply mem_false in Ea. rewrite list_elem_of_singleton in Ea.
  destruct (mem state ABSENT_STATES) eqn:Eb.
  - apply mem_spec in Eb. destruct protected, fail_closed, dev_mode, unverified; cbn; intuition congruence.
  - apply mem_false in Eb. cbn. intuition congruence.
Qed.

Lemma hard_spec t cs truth protected dev_mode m :
  m ∈ hard_admitted t cs truth protected dev_mode <-> m ∈ cs /\ admits t truth protected dev_mode m.
Proof.
  unfold hard_admitted, hard_gates. cbn [capability_gate fst el_admitted gate_evaluate].
  rewrite !elem_of_lfilter, capable_spec, judge_live. split.
  - intros [[Hm Hc] Hj]. split; [done|]. constructor; [done|tauto].
  - intros [Hm [Hc Hl]]. tauto.
Qed.

(** A report that speaks for the model as eligible. *)
Lemma state_eligible report id s : (state_for report id).1 = s -> s <> "unknown" ->
  exists r source, report = Some r /\ (id, s, source) ∈ ar_candidates r.
Proof.
  unfold state_for. destruct report as [r|]; [|by intros <-].
  destruct (List.find _ _) as [[[i st] src]|] eqn:E; [|by intros <-].
  apply find_some in E as [Hin Hid]. cbn in Hid. apply String.eqb_eq in Hid as ->. cbn. intros <- _.
  exists r, src. by rewrite list_elem_of_In.
Qed.

(** * Properties *)

(** C15: the kernel always decides, and neither a ranker nor the lack of one has a say in
    what it decides: for the same task, policy version, catalog and live truth every
    advisory gives the same id, the same outcome, the same exclusions and admitted models
    of the same ids, also one that raises, invents candidates or leaves some out. A ranker
    does set the order of the admitted models, and the other fields of those it returns
    ([ranker_forges_provider]). *)
Theorem advisory_cannot_decide sha256_hex set_order t pv cs truth protected dev_mode a :
  exists r, decide_on sha256_hex set_order t pv cs truth protected a dev_mode = Ok r /\
  forall b s, decide_on sha256_hex set_order t pv cs truth protected b dev_mode = Ok s ->
    dr_decision_id s = dr_decision_id r /\ dr_outcome s = dr_outcome r /\
    dr_exclusions s = dr_exclusions r /\
    forall id, id ∈ map mi_id (dr_admitted s) <-> id ∈ map mi_id (dr_admitted r).
Proof.
  destruct (decide_spec sha256_hex set_order t pv cs truth protected dev_mode a)
    as (r & Hr & Ei & _ & _ & Eo & Em & Ex & _).
  exists r. split; [done|]. intros b s Hs.
  destruct (decide_spec sha256_hex set_order t pv cs truth protected dev_mode b)
    as (s' & Hs' & Ei' & _ & _ & Eo' & Em' & Ex' & _).
  rewrite Hs in Hs'. injection Hs' as <-. split_and!; [congruence..|]. intros id. by rewrite Em, Em'.
Qed.

(** C16: the admitted models of a decision are exactly those of a candidate with every
    required capability that live truth admits; for protected work this takes a report
    that names the model as eligible. Nothing is admitted because truth is missing. *)
Theorem kernel_fail_closed sha256_hex set_order t pv cs truth protected dev_mode a r :
  decide_on sha256_hex set_order t pv cs truth protected a dev_mode = Ok r ->
  (forall id, id ∈ map mi_id (dr_admitted r) <->
     exists m, m ∈ cs /\ mi_id m = id /\ admits t truth protected dev_mode m) /\
  (protected = true \/ dev_mode = false -> forall id, id ∈ map mi_id (dr_admitted r) ->
     exists report, truth id = Some report /\
     (adapter_admits (Some report) id = true \/ exists source, (id, "eligible", source) ∈ ar_candidates report)).
Proof.
  intros H. destruct (decide_spec sha256_hex set_order t pv cs truth protected dev_mode a)
    as (r' & Hr & _ & _ & _ & _ & Em & _). rewrite H in Hr. injection Hr as <-.
  assert (forall id, id ∈ map mi_id (dr_admitted r) <->
    exists m, m ∈ cs /\ mi_id m = id /\ admits t truth protected dev_mode m) as Hadm.
  { intros id. rewrite Em, list_elem_of_fmap. setoid_rewrite hard_spec. naive_solver. }
  split; [done|]. intros Hp id (m & _ & <- & Ha)%Hadm. destruct (am_live _ _ _ _ _ Ha) as [Hl | [Hl | (? & ? & _)]].
  - destruct (truth (mi_id m)) as [report|] eqn:E; [|done]. eauto.
  - apply state_eligible in Hl as (report & source & E & Hin); [|done]. eauto.
  - destruct Hp; congruence.
Qed.

(** * Lemmas: what an id binds *)

Ltac wf_members :=
  apply obj_wf; repeat (apply Forall_cons; split; [cbn [snd]; first [reflexivity | apply strings_wf | assumption]|]);
  apply Forall_nil_2.

Lemma task_wf t : json_wf (task_payload t) = true.
Proof. wf_members. Qed.

Lemma jopt_wf o : json_wf (jopt JStr o) = true.
Proof. by destruct o. Qed.

Lemma exclusion_wf r : json_wf (exclusion_projection r) = true.
Proof. pose proof (jopt_wf (er_reason r)). wf_members. Qed.

Lemma catalog_wf set_order cs : json_wf (catalog_payload set_order cs) = true.
Proof. apply (list_wf (model_identity set_order) (fun _ => True)); [|by apply Forall_true]. intros m _. wf_members. Qed.

Lemma exclusions_wf t cs truth protected dev_mode :
  json_wf (JList (hard_exclusions t cs truth protected dev_mode)) = true.
Proof.
  unfold hard_exclusions. apply (list_wf exclusion_projection (fun _ => True)); [|by apply Forall_true].
  intros r _. apply exclusion_wf.
Qed.

Lemma payload_wf spec pv cat ids ex : json_wf ex = true -> json_wf (decision_payload spec pv cat ids ex) = true.
Proof. intros H. wf_members. Qed.

(** Equal digests come from equal texts, or from two texts with one digest. *)
Lemma fingerprint_inj sha256_hex a b : fingerprint_text sha256_hex a = fingerprint_text sha256_hex b ->
  a = b \/ exists x y, x <> y /\ fingerprint_text sha256_hex x = fingerprint_text sha256_hex y.
Proof. intros H. destruct (decide (a = b)); [by left|right; eauto]. Qed.

#[global] Instance jstr_inj : Inj (=) (=) JStr.
Proof. by intros a b [= ->]. Qed.

#[global] Instance map_jstr_inj : Inj (=) (=) (map JStr).
Proof. apply (list_fmap_eq_inj JStr jstr_inj). Qed.

Lemma task_payload_inj t t' : task_payload t = task_payload t' -> t = t'.
Proof.
  intros [= Ha Ho Hp Hr Hri Ht Hty]. destruct t, t'. cbn in *.
  apply (inj (map JStr)) in Ha, Hr, Hty. by subst.
Qed.

Lemma decision_payload_inj spec pv cat ids ex spec' pv' cat' ids' ex' :
  decision_payload spec pv cat ids ex = decision_payload spec' pv' cat' ids' ex' ->
  spec = spec' /\ pv = pv' /\ cat = cat' /\ (forall id, id ∈ ids <-> id ∈ ids') /\ ex = ex'.
Proof.
  intros [= Hids -> -> -> ->]. split_and!; try done. intros id. apply (inj (map JStr)) in Hids.
  trans (id ∈ sort_str (elements (list_to_set ids : gset string))).
  - by rewrite elem_of_sort_str, elem_of_elements, elem_of_list_to_set.
  - by rewrite Hids, elem_of_sort_str, elem_of_elements, elem_of_list_to_set.
Qed.

Lemma catalog_inj set_order cs cs' : catalog_payload set_order cs = catalog_payload set_order cs' ->
  map (fun m => (mi_id m, mi_provider m, mi_model m, set_order (mi_capabilities m))) cs =
  map (fun m => (mi_id m, mi_provider m, mi_model m, set_order (mi_capabilities m))) cs'.
Proof.
  intros [= H]. revert cs' H. induction cs as [|m cs IH]; intros [|m' cs'] H; try done.
  cbn [map] in *. injection H as Hc Hi Hm Hp Hr. apply (inj (map JStr)) in Hc.
  f_equal; [congruence|by apply IH].
Qed.

(** * Verification *)

(** The decision with another receipt, admitted models, exclusions and route: all that a
    reader acts on, except the id and the outcome. *)
Definition set_body (r : DecisionRecord) (q : DecisionReceipt) (admitted : list ModelInfo)
    (exclusions : list json) (rt : RouteContract) : DecisionRecord :=
  {| dr_decision_id := dr_decision_id r; dr_task_spec_canonical := dr_task_spec_canonical r;
     dr_policy_version := dr_policy_version r; dr_outcome := dr_outcome r; dr_admitted := admitted;
     dr_exclusions := exclusions; dr_receipt := q; dr_route_contract := rt;
     dr_advisory_influence := dr_advisory_influence r; dr_protected := dr_protected r;
     dr_dev_mode := dr_dev_mode r |}.

(** What [verify_decision] accepts, exactly. *)
Lemma verify_spec sha256_hex set_order record t pv cs truth protected dev_mode :
  verify_decision sha256_hex set_order record t pv cs truth protected dev_mode = Ok None <->
  compute_receipt_digest sha256_hex (dr_receipt record) = Ok (rc_integrity_digest (dr_receipt record)) /\
  exists again, decide_on sha256_hex set_order t pv cs truth protected None dev_mode = Ok again /\
  dr_decision_id record = dr_decision_id again /\
  (dr_outcome record = ACCEPTED -> dr_outcome again = ACCEPTED).
Proof.
  destruct (decide_spec sha256_hex set_order t pv cs truth protected dev_mode None) as (again & Hagain & _).
  unfold verify_decision. rewrite Hagain. cbn [mbind result_mbind result_bind]. split.
  - intros (d & Hd & H)%bind_ok. rewrite Hd.
    destruct (String.eqb_spec d (rc_integrity_digest (dr_receipt record))) as [->|]; [|done].
    split; [done|]. exists again. split; [done|]. cbn [negb] in H.
    destruct (String.eqb_spec (dr_decision_id again) (dr_decision_id record)) as [E|]; [|done]. split; [done|].
    intros Ha. rewrite bool_decide_true in H by done. cbn in H. case_bool_decide; done.
  - intros [-> (again' & [= <-] & -> & Ho)]. cbn [mbind result_mbind result_bind].
    rewrite !String.eqb_refl. cbn. destruct (dr_outcome record); cbn; try done.
    by rewrite (bool_decide_true (dr_outcome again = ACCEPTED)) by (by apply Ho).
Qed.

(** Verification is complete and it binds. A decision passes against its own inputs,
    whatever advisory it was made with. A decision that passes against some inputs was
    made from the same task, policy version and catalog, with the same admitted models
    and exclusions, unless two texts share a truncated digest. *)
Theorem verify_binds sha256_hex set_order t pv cs truth protected dev_mode a r :
  decide_on sha256_hex set_order t pv cs truth protected a dev_mode = Ok r ->
  verify_decision sha256_hex set_order r t pv cs truth protected dev_mode = Ok None /\
  forall t' pv' cs' truth' protected' dev_mode',
  verify_decision sha256_hex set_order r t' pv' cs' truth' protected' dev_mode' = Ok None ->
  (t = t' /\ pv = pv' /\
   map (fun m => (mi_id m, mi_provider m, mi_model m, set_order (mi_capabilities m))) cs =
   map (fun m => (mi_id m, mi_provider m, mi_model m, set_order (mi_capabilities m))) cs' /\
   (forall id, id ∈ map mi_id (dr_admitted r) <->
      id ∈ map mi_id (hard_admitted t' cs' truth' protected' dev_mode')) /\
   dr_exclusions r = hard_exclusions t' cs' truth' protected' dev_mode') \/
  exists x y, x <> y /\ fingerprint_text sha256_hex x = fingerprint_text sha256_hex y.
Proof.
  intros H. destruct (decide_spec sha256_hex set_order t pv cs truth protected dev_mode a)
    as (r' & Hr & Ei & _ & _ & Eo & Em & Ex & Hrec & _). rewrite H in Hr. injection Hr as <-. split.
  - apply verify_spec. split; [done|].
    destruct (decide_spec sha256_hex set_order t pv cs truth protected dev_mode None)
      as (again & Hagain & Ei' & _ & _ & Eo' & _). exists again. split_and!; congruence.
  - intros t' pv' cs' truth' protected' dev_mode' (_ & again & Hagain & Eid & _)%verify_spec.
    destruct (decide_spec sha256_hex set_order t' pv' cs' truth' protected' dev_mode' None)
      as (again' & Hagain' & Ei' & _). rewrite Hagain in Hagain'. injection Hagain' as <-.
    rewrite Ei, Ei' in Eid. unfold hard_id in Eid. apply fingerprint_inj in Eid as [Eid|]; [|by right].
    apply dumps_inj in Eid; [|by apply payload_wf, exclusions_wf..].
    apply decision_payload_inj in Eid as (Et & -> & Ecat & Eids & Eex).
    apply dumps_inj, task_payload_inj in Et as <-; [|apply task_wf..].
    apply fingerprint_inj in Ecat as [Ecat|]; [|by right]. left.
    apply dumps_inj, catalog_inj in Ecat; [|apply catalog_wf..]. injection Eex as Eex.
    split_and!; [done..| |by rewrite Ex]. intros id. by rewrite Em, Eids.
Qed.

(** A decision that verification accepts never claims more than the supplied inputs
    give: it has the id that the inputs give, and it says accepted only when deciding
    again from the inputs says accepted. *)
Theorem verified_not_overstated sha256_hex set_order record t pv cs truth protected dev_mode :
  verify_decision sha256_hex set_order record t pv cs truth protected dev_mode = Ok None ->
  exists again, decide_on sha256_hex set_order t pv cs truth protected None dev_mode = Ok again /\
  dr_decision_id record = dr_decision_id again /\
  (dr_outcome record = ACCEPTED -> exists m, m ∈ cs /\ admits t truth protected dev_mode m).
Proof.
  intros (_ & again & Hagain & Eid & Ho)%verify_spec. exists again. split_and!; [done..|]. intros Ha%Ho.
  destruct (decide_spec sha256_hex set_order t pv cs truth protected dev_mode None)
    as (again' & Hagain' & _ & _ & _ & Eo & _). rewrite Hagain in Hagain'. injection Hagain' as <-.
  rewrite Ha in Eo. destruct (hard_admitted t cs truth protected dev_mode) as [|m ms] eqn:Eh.
  - unfold compose_outcome in Eo. by destruct (_ && _).
  - exists m. apply hard_spec. rewrite Eh. by left.
Qed.

(** * Escalation *)

Definition hits (task : string) (pat : EscalationPattern) : Prop :=
  matches true (rx (ep_pattern pat)) task = true.

Lemma scan_app task ps pat : scan task (ps ++ [pat]) = scan_step task (scan task ps) pat.
Proof. unfold scan. by rewrite fold_left_app. Qed.

Lemma scan_spec task ps :
  match scan task ps with
  | None => forall q, q ∈ ps -> ~ hits task q
  | Some (tier, label) => exists pre p post, ps = pre ++ p :: post /\ hits task p /\
      tier = ep_min_tier p /\ label = ep_label p /\
      (forall q, q ∈ pre -> hits task q -> tier < ep_min_tier q) /\
      (forall q, q ∈ post -> hits task q -> tier <= ep_min_tier q)
  end.
Proof.
  induction ps as [|p ps IH] using rev_ind; [by intros q ?%not_elem_of_nil|].
  rewrite scan_app. unfold scan_step. destruct (matches true (rx (ep_pattern p)) task) eqn:Em; cbn [andb].
  - destruct (scan task ps) as [[tier label]|].
    + destruct IH as (pre & b & post & -> & Hb & -> & -> & Hpre & Hpost).
      destruct (Z.ltb_spec (ep_min_tier p) (ep_min_tier b)) as [Hlt|Hge].
      * exists (pre ++ b :: post), p, []. split_and!; try done; [|by intros q ?%not_elem_of_nil].
        intros q [Hq | [-> | Hq]%elem_of_cons]%elem_of_app Hh; [| lia |].
        -- specialize (Hpre q Hq Hh). lia.
        -- specialize (Hpost q Hq Hh). lia.
      * exists pre, b, (post ++ [p]). rewrite <- app_assoc. split_and!; try done.
        intros q [Hq | ->%list_elem_of_singleton]%elem_of_app Hh; [by apply Hpost|done].
    + exists ps, p, []. split_and!; try done; [|by intros q ?%not_elem_of_nil].
      intros q Hq Hh. by destruct (IH q Hq).
  - assert (~ hits task p) as Hn by (unfold hits; congruence).
    destruct (scan task ps) as [[tier label]|].
    + destruct IH as (pre & b & post & -> & Hb & -> & -> & Hpre & Hpost).
      exists pre, b, (post ++ [p]). rewrite <- app_assoc. split_and!; try done.
      intros q [Hq | ->%list_elem_of_singleton]%elem_of_app Hh; [by apply Hpost|done].
    + intros q [Hq | ->%list_elem_of_singleton]%elem_of_app; [by apply IH|done].
Qed.

(** * Samples *)

Module KernelSample.

Definition sha (s : string) : string := s.

Definition order (s : gset string) : list string := elements s.

Definition task : KernelTask :=
  {| kt_objective := "rotate the login token"; kt_task_type := "code"; kt_required := ["tools"];
     kt_tools := []; kt_privacy := "public"; kt_risk := "low"; kt_approvals := [] |}.

Definition able : ModelInfo := model_info "p/a" "p" None ["function_calling"; "vision"] "eligible".
Definition bare : ModelInfo := model_info "p/b" "p" None [] "eligible".

Definition truth (id : string) : option AvailabilityReport :=
  if String.eqb id "p/a"
  then Some {| ar_candidates := [("p/a", "eligible", "live")]; ar_eligible := [];
               ar_source := "live"; ar_errors := [] |}
  else None.

(** A ranker that gives the admitted model another provider. *)
Definition forger (e : EligibilityResult) (t : KernelTask) : result unit RankerOutput :=
  Ok {| ro_ranked := [model_info "p/a" "elsewhere" None [] "eligible"]; ro_scores := [];
        ro_reasoning := []; ro_shadow := false |}.

Definition advice : AdvisoryInput :=
  {| ad_ranker := forger; ad_requested_tier := None; ad_escalation := None; ad_label := None |}.

Definition decided (a : option AdvisoryInput) (truth : string -> option AvailabilityReport)
    : result kernel_exn DecisionRecord :=
  decide_on sha order task "policy-2" [able; bare] truth true a false.

Definition route_of (r : result kernel_exn DecisionRecord) : option (string * string) :=
  match r with Ok r => rt_selected_route (dr_route_contract r) | Err _ => None end.
End KernelSample.

Import KernelSample.

Lemma kernel_fail_closed_witness :
  exists r, decided None truth = Ok r /\ map mi_id (dr_admitted r) = ["p/a"] /\
  exists report, truth "p/a" = Some report.
Proof.
  destruct (decided None truth) as [r|] eqn:E; [|vm_compute in E; discriminate].
  assert (Ha : map mi_id (dr_admitted r) = ["p/a"])
    by (vm_compute in E; injection E as <-; reflexivity).
  destruct (proj2 (kernel_fail_closed sha order task "policy-2" [able; bare] truth true false None r E)
    (or_introl eq_refl) "p/a") as (report & Hr & _); [rewrite Ha; left|].
  exists r. refine (conj eq_refl (conj Ha _)). exists report. exact Hr.
Defined.

Lemma verify_binds_witness :
  exists r, decided (Some advice) truth = Ok r /\
  verify_decision sha order r task "policy-2" [able; bare] truth true false = Ok None.
Proof.
  destruct (decided (Some advice) truth) as [r|] eqn:E; [|vm_compute in E; discriminate].
  exists r. refine (conj eq_refl _).
  exact (proj1 (verify_binds sha order task "policy-2" [able; bare] truth true false (Some advice) r E)).
Defined.

Lemma verified_not_overstated_witness :
  exists r, decided None truth = Ok r /\ dr_outcome r = ACCEPTED /\
  exists m, m ∈ [able; bare] /\ admits task truth true false m.
Proof.
  destruct (decided None truth) as [r|] eqn:E; [|vm_compute in E; discriminate].
  assert (Ho : dr_outcome r = ACCEPTED) by (vm_compute in E; injection E as <-; reflexivity).
  destruct (verified_not_overstated sha order r task "policy-2" [able; bare] truth true false)
    as (again & _ & _ & H); [vm_compute in E; injection E as <-; vm_compute; reflexivity|].
  exists r. exact (conj eq_refl (conj Ho (H Ho))).
Defined.

(** * What the model shows *)

(** The receipt, the admitted models, the exclusions and the route of a verified decision may
    be any others, as long as the receipt carries its own digest: the receipt is bound
    neither to the record nor to the inputs. *)
Theorem receipt_swapped sha256_hex set_order t pv cs truth protected dev_mode a r q q' ms ex rt :
  decide_on sha256_hex set_order t pv cs truth protected a dev_mode = Ok r ->
  stamp sha256_hex q = Ok q' ->
  verify_decision sha256_hex set_order (set_body r q' ms ex rt) t pv cs truth protected dev_mode = Ok None.
Proof.
  intros H Hq. destruct (decide_spec sha256_hex set_order t pv cs truth protected dev_mode a)
    as (r' & Hr & Ei & _ & _ & Eo & _). rewrite H in Hr. injection Hr as <-.
  destruct (decide_spec sha256_hex set_order t pv cs truth protected dev_mode None)
    as (again & Hagain & Ei' & _ & _ & Eo' & _).
  apply verify_spec. split; [by eapply stamp_verifies|]. exists again. cbn [set_body dr_decision_id dr_outcome].
  split_and!; congruence.
Qed.

(** A denied decision that calls itself degraded passes. *)
Theorem denied_passes_as_degraded :
  exists r, decided None (fun _ => None) = Ok r /\ dr_outcome r = DENIED /\
  verify_decision sha order
    {| dr_decision_id := dr_decision_id r; dr_task_spec_canonical := dr_task_spec_canonical r;
       dr_policy_version := dr_policy_version r; dr_outcome := DEGRADED; dr_admitted := dr_admitted r;
       dr_exclusions := dr_exclusions r; dr_receipt := dr_receipt r;
       dr_route_contract := dr_route_contract r; dr_advisory_influence := dr_advisory_influence r;
       dr_protected := dr_protected r; dr_dev_mode := dr_dev_mode r |}
    task "policy-2" [able; bare] (fun _ => None) true false = Ok None.
Proof. eexists. split; [vm_compute; reflexivity|]. split; vm_compute; reflexivity. Qed.

(** A ranker decides the provider of the selected route: its candidates replace the admitted
    ones of the same id. *)
Theorem ranker_forges_provider :
  route_of (decided None truth) = Some ("p/a", "p") /\
  route_of (decided (Some advice) truth) = Some ("p/a", "elsewhere").
Proof. vm_compute. split; reflexivity. Qed.

(** The digest of the catalog takes the capabilities in the order of a set: the same catalog
    has another digest, and the decision another id, in a process that iterates in
    another order, unless two texts share a truncated digest. *)
Theorem set_order_changes_digest sha256_hex :
  compute_candidate_catalog_digest sha256_hex order [able] =
  compute_candidate_catalog_digest sha256_hex (fun s => rev (order s)) [able] ->
  exists x y, x <> y /\ fingerprint_text sha256_hex x = fingerprint_text sha256_hex y.
Proof.
  rewrite !catalog_eq. intros H.
  exists (dumps true (catalog_payload order [able])),
    (dumps true (catalog_payload (fun s => rev (order s)) [able])).
  split; [vm_compute; discriminate|congruence].
Qed.

(** The default patterns are in the grammar of Regex, and the first of the least tier wins. *)
Example scan_sample :
  forallb (fun p => match compile (ep_pattern p) with Some _ => true | None => false end) DEFAULT_PATTERNS = true /\
  scan "Rotate the LOGIN token" DEFAULT_PATTERNS = Some (1, "auth-security") /\
  scan "login, then place-order" DEFAULT_PATTERNS = Some (0, "live-execution") /\
  scan "add a page" DEFAULT_PATTERNS = None.
Proof. vm_compute. repeat split. Qed.
