(* ===== verification/Classifier.v ===== *)
(** [verdict/classifier.py]: the capability tier of a model id, by pattern. The
    patterns are the source's, parsed by [rx]. *)
From Stdlib Require Import Ascii.
From S2P Require Import Prelude PyStr Regex.

(** [CAPABILITY_PATTERNS[0]] *)
Definition TIER0 : list string :=
  ["opus";
   "fable";
   "^gpt-6(?:\.1)?-sol(?:-(?:low|medium|high|xhigh|max|thinking))?$";
   "gpt-6-astra";
   "gpt-5\.6(?!-luna)";
   "gpt-5\.5";
   "grok-4";
   "o3-pro";
   "o3(?!-mini)"].

(** [CAPABILITY_PATTERNS[1]] *)
Definition TIER1 : list string :=
  ["sonnet-5";
   "sonnet-4";
   "gpt-5\.4";
   "gpt-4o(?!-mini)";
   "grok-3";
   "claude-3\.5-sonnet";
   "deepseek-r1(?!.*distill)";
   "qwen.*235b";
   "^gemini-(?:2\.5|3(?:\.1)?)-pro(?:-(?:preview|low|medium|high|xhigh|thinking|latest))*$";
   "glm-(?:4\.[5-9]|5)";
   "kimi-k\d";
   "deepseek-v4";
   "deepseek-reasoner";
   "minimax-m\d";
   "qwen[\d.]*-max";
   "qwen[\d.]*-coder-(?:480b|plus|next)";
   "(?:^|[-/])claude-3[.-]7(?!\d)";
   "(?:^|[-/])claude-4-sonnet";
   "(?:^|[-/])gpt-4\.1(?!\d)";
   "^gpt-5(?:\.3-codex)?(?:-(?:low|medium|high|xhigh))?$";
   "(?:^|[-/])mimo-v2\.5-pro";
   "(?:^|[-/])ling-2\.6-1t";
   "(?:^|[-/])longcat-2(?!\d)";
   "(?:^|[-/])nemotron-3-ultra";
   "(?:^|/)hy3(?![\w.])";
   "(?:^|[-/])kat-coder-pro";
   "(?:^|[-/])laguna-(?:m\.1|s-2\.1)(?!\d)";
   "(?:^|[-/])muse-spark"].

(** [CAPABILITY_PATTERNS[2]] *)
Definition TIER2 : list string :=
  ["sonnet-3";
   "gpt-4o-mini";
   "haiku-3\.5";
   "llama.*70b";
   "qwen.*72b";
   "mistral-large";
   "deepseek-v3";
   "command-r-plus";
   "deepseek-(?:chat|3\.2)";
   "deepseek-r1.*distill";
   "qwen2\.5-coder-32b";
   "qwq";
   "qwen[\d.]*-32b";
   "qwen[\d.]*-122b";
   "qwen[\d.]*-next";
   "qwen[\d.]*-(?:vl-|omni-)?plus";
   "gpt-oss-120b";
   "mistral-medium(?![\w.-]*\d+b)";
   "codestral(?![\w.-]*\d+b)";
   "devstral";
   "gemma.*31b";
   "jamba-large(?![\w.:-]*\d+b)";
   "llama-4-maverick(?![\w.:-]*\d+b)";
   "trinity-large(?![\w.:-]*\d+b)";
   "aion-[23]\.\d(?![\w.:-]*mini)";
   "grok-2(?![\w.:-]*mini)";
   "mimo-v2\.5(?![\w.:-]*(?:pro|flash|mini|lite))";
   "nemotron-3-super(?![\w.:-]*-(?:\d{1,2})b)";
   "command-a(?:-|$)";
   "hermes-[34]-(?:llama-3\.1-)?(?:70|405)b";
   "qwen\d+p\d+-plus";
   "sea-lion-v4-32b";
   "olmo-3-32b"].

(** [CAPABILITY_PATTERNS[3]] *)
Definition TIER3 : list string :=
  ["haiku";
   "flash";
   "(?:^|[-_])mini(?:$|[-_])";
   "8b";
   "7b";
   "nano";
   "lite";
   "instant";
   "smol";
   "tiny";
   "phi-4";
   "gemma.*2b";
   "gpt-oss(?:-safeguard)?-20b";
   "mistral-small";
   "ministral";
   "qwen[\d.]*-turbo";
   "qwen[\d.]*-14b";
   "gemma.*9b";
   "-a[1-4]b";
   "gpt-5\.6-luna";
   "llama-4-scout";
   "llama-3\.2-(?:1|3|11)b";
   "cydonia-24b";
   "skyfall-31b";
   "nous-?coder";
   "command-r(?:-\d{2}-\d{4})?$";
   "laguna-xs";
   "lfm-(?:40b|2\.5-\d)";
   "apertus-70b";
   "reka-edge";
   "baichuan4";
   "ernie-4\.0";
   "doubao-pro-32k";
   "hunyuan-pro";
   "generalv3\.5";
   "step-1v"].

Definition CAPABILITY_PATTERNS (tier : Z) : list string :=
  if tier =? 0 then TIER0 else if tier =? 1 then TIER1 else if tier =? 2 then TIER2 else TIER3.

(** [_matches_any] *)
Definition matches_any (raw : string) (patterns : list string) : bool :=
  existsb (fun p => matches true (rx p) raw) patterns.

(** [_classify_raw] *)
Definition classify_raw (raw : string) : Z :=
  let cheap_variant := matches_any raw TIER3 in
  if negb cheap_variant && matches_any raw TIER0 then 0
  else if negb cheap_variant && matches_any raw TIER1 then 1
  else if matches_any raw TIER2 then 2
  else if cheap_variant then 3
  else 2.

(** [_known_raw] *)
Definition known_raw (raw : string) : bool :=
  matches_any raw TIER0 || matches_any raw TIER1 || matches_any raw TIER2 || matches_any raw TIER3.

(** [classify] *)
Definition classify_model (overrides : list (string * Z)) (model_id : string) : Z :=
  match dict_get model_id overrides with
  | Some tier => tier
  | None => classify_raw (lower (split1_last "/" model_id))
  end.

(** [classify_known] *)
Definition classify_known (overrides : list (string * Z)) (model_id : string) : option Z :=
  match dict_get model_id overrides with
  | Some tier => Some tier
  | None =>
      let raw := lower (split1_last "/" model_id) in
      if known_raw raw then Some (classify_raw raw) else None
  end.

(** * Properties *)

(** The spend guard. An id that carries any cheap-variant marker ([mini],
    [flash], [haiku], small sizes, ...) is never classified into the frontier
    tiers 0 and 1, whatever family name it also matches; without a marker the
    strongest matching tier wins; and an id is of unknown capability exactly when
    no pattern of any tier matches it, in which case [classify] says medium. *)
Theorem classify_known_spec overrides model_id :
  dict_get model_id overrides = None ->
  let raw := lower (split1_last "/" model_id) in
  (classify_known overrides model_id = None <->
     matches_any raw TIER0 = false /\ matches_any raw TIER1 = false /\
     matches_any raw TIER2 = false /\ matches_any raw TIER3 = false) /\
  (forall t, classify_known overrides model_id = Some t ->
     0 <= t <= 3 /\
     (matches_any raw TIER3 = true -> t = 2 \/ t = 3) /\
     (t = 0 <-> matches_any raw TIER3 = false /\ matches_any raw TIER0 = true) /\
     (t = 1 <-> matches_any raw TIER3 = false /\ matches_any raw TIER0 = false /\
                matches_any raw TIER1 = true)) /\
  classify_model overrides model_id = default 2 (classify_known overrides model_id).
Proof.
  intros Hov raw. unfold classify_known, classify_model. rewrite Hov. fold raw.
  unfold known_raw, classify_raw.
  destruct (matches_any raw TIER0), (matches_any raw TIER1), (matches_any raw TIER2),
    (matches_any raw TIER3); cbn; naive_solver lia.
Qed.

Lemma classify_known_spec_witness :
  classify_model [] "x/gpt-5.5-mini" = default 2 (classify_known [] "x/gpt-5.5-mini").
Proof. apply (classify_known_spec [] "x/gpt-5.5-mini"). reflexivity. Defined.
