(* ===== verification/Contracts.v ===== *)
(** [verdict/orchestration/contracts.py]: node lifecycle, work nodes, the
    validated work graph, task requirements, route names and review results. *)
From Stdlib Require Import Ascii.
From S2P Require Import Prelude PyStr.

(** * Enumerations *)

Module NodeKind.
Inductive t := IMPLEMENT | RESEARCH | INTEGRATE | REVIEW.
#[global] Instance eq_dec : EqDecision t.
Proof. solve_decision. Defined.
Definition value (k : t) : string :=
  match k with
  | IMPLEMENT => "implement" | RESEARCH => "research"
  | INTEGRATE => "integrate" | REVIEW => "review"
  end.
Definition all : list t := [IMPLEMENT; RESEARCH; INTEGRATE; REVIEW].
End NodeKind.

Module NodeState.
Inductive t :=
| PLANNED | ADMITTED | DISPATCHED | RUNNING | TERMINAL_SUCCESS
| TERMINAL_FAILURE | VALIDATED | REJECTED | BLOCKED.
#[global] Instance eq_dec : EqDecision t.
Proof. solve_decision. Defined.
Definition value (s : t) : string :=
  match s with
  | PLANNED => "PLANNED" | ADMITTED => "ADMITTED" | DISPATCHED => "DISPATCHED"
  | RUNNING => "RUNNING" | TERMINAL_SUCCESS => "TERMINAL_SUCCESS"
  | TERMINAL_FAILURE => "TERMINAL_FAILURE" | VALIDATED => "VALIDATED"
  | REJECTED => "REJECTED" | BLOCKED => "BLOCKED"
  end.
End NodeState.

Module Topology.
Inductive t := SOLO | WORKER_CRITIC | PARALLEL_WORK_UNITS.
End Topology.

Module RunOutcome.
Inductive t := COMPLETE | BLOCKED | CANCELLED.
#[global] Instance eq_dec : EqDecision t.
Proof. solve_decision. Defined.
End RunOutcome.

(** The ladder stages, in order. *)
Module EligibilityStage.
Inductive t := DISCOVERED | ENTITLED | HEALTHY | AVAILABLE | TASK_ELIGIBLE | SELECTED.
#[global] Instance eq_dec : EqDecision t.
Proof. solve_decision. Defined.
Definition index (s : t) : nat :=
  match s with
  | DISCOVERED => 0 | ENTITLED => 1 | HEALTHY => 2 | AVAILABLE => 3
  | TASK_ELIGIBLE => 4 | SELECTED => 5
  end.
Definition value (s : t) : string :=
  match s with
  | DISCOVERED => "DISCOVERED" | ENTITLED => "ENTITLED" | HEALTHY => "HEALTHY"
  | AVAILABLE => "AVAILABLE" | TASK_ELIGIBLE => "TASK_ELIGIBLE" | SELECTED => "SELECTED"
  end.
End EligibilityStage.

Module CapacityClass.
Inductive t := SUBSCRIPTION | FREE | METERED | UNKNOWN.
#[global] Instance eq_dec : EqDecision t.
Proof. solve_decision. Defined.
Definition value (c : t) : string :=
  match c with
  | SUBSCRIPTION => "subscription" | FREE => "free"
  | METERED => "metered" | UNKNOWN => "unknown"
  end.
End CapacityClass.

(** * Exceptions *)

(** [OrchestrationError] with its message, a [KeyError], a [ValueError] from an
    enum constructor. [FuelError] is not a Python exception: the model's loop
    bound was too small, and [layers_total] and [ancestors_total] show it never
    happens. *)
Inductive orch_exn :=
| OrchestrationError (msg : string)
| KeyError (key : string)
| EnumError (value : string)
| FuelError.

(** [f"{xs}"] for a list of strings *)
Definition repr_list (xs : list string) : string :=
  "[" +:+ join ", " (map repr xs) +:+ "]".

(** * Node lifecycle *)

Definition TRANSITIONS (s : NodeState.t) : list NodeState.t :=
  match s with
  | NodeState.PLANNED => [NodeState.ADMITTED; NodeState.BLOCKED]
  | NodeState.ADMITTED => [NodeState.DISPATCHED; NodeState.TERMINAL_FAILURE]
  | NodeState.DISPATCHED => [NodeState.RUNNING; NodeState.TERMINAL_FAILURE]
  | NodeState.RUNNING => [NodeState.TERMINAL_SUCCESS; NodeState.TERMINAL_FAILURE]
  | NodeState.TERMINAL_SUCCESS => [NodeState.VALIDATED; NodeState.REJECTED]
  | NodeState.TERMINAL_FAILURE => [NodeState.PLANNED; NodeState.BLOCKED]
  | NodeState.REJECTED => [NodeState.PLANNED; NodeState.BLOCKED]
  | NodeState.VALIDATED => []
  | NodeState.BLOCKED => []
  end.

Definition check_transition (current target : NodeState.t) : result orch_exn unit :=
  raise_if (negb (bool_decide (target ∈ TRANSITIONS current)))
    (OrchestrationError ("illegal node transition " +:+ NodeState.value current
                         +:+ " -> " +:+ NodeState.value target)).

(** * Paths *)

(** The parts of [PurePosixPath(text)] for a relative [text]. *)
Definition path_parts (text : string) : list string :=
  List.filter (fun p => negb (String.eqb p "" || String.eqb p ".")) (split "/" text).

(** [str(PurePosixPath(text))] for a relative [text] *)
Definition path_str (parts : list string) : string :=
  match parts with [] => "." | _ => join "/" parts end.

Definition norm_path (value : string) : result orch_exn string :=
  let text := replace_char "\" "/" (strip value) in
  let parts := path_parts text in
  _ ← raise_if (String.eqb text "" || startswith text "/" || mem ".." parts)
        (OrchestrationError ("owned path must be repo-relative without '..': " +:+ repr value));
  Ok (path_str parts).

(** * Work nodes *)

Record WorkNode := {
  node_id : string;
  objective : string;
  kind : NodeKind.t;
  story : string;
  depends_on : list string;
  owned_files : list string;
  required_context : list string;
  acceptance : list string;
  verification_command : list string;
  barrier : string;
  risk : string;
  required_capabilities : list string;
  coding : bool;
  reasoning : bool;
  min_context_tokens : Z
}.

Definition KNOWN_BARRIERS : list string := ["integration"; "ownership"; "no_change"].

Definition RISKS : list string := ["low"; "medium"; "high"].

(** A constructor argument that a planner may give with any type: a [bool], a
    [str], or another object with the [str()] it prints as. *)
Inductive py_arg := ABool (b : bool) | AStr (s : string) | AOther (printed : string).

(** The arguments of [WorkNode(...)]. *)
Record WorkNodeArgs := {
  a_node_id : string;
  a_objective : string;
  a_kind : string;
  a_story : string;
  a_depends_on : list string;
  a_owned_files : list string;
  a_required_context : list string;
  a_acceptance : list string;
  a_verification_command : list string;
  a_barrier : py_arg;
  a_risk : py_arg;
  a_required_capabilities : list string;
  a_coding : bool;
  a_reasoning : bool;
  a_min_context_tokens : Z
}.

Definition norm_barrier (b : py_arg) : string :=
  let name := match b with
              | ABool true => "integration" | ABool false => ""
              | AStr s => s | AOther s => s
              end in
  if negb (String.eqb name "") && negb (mem name KNOWN_BARRIERS) then "" else name.

Definition norm_risk (r : py_arg) : string :=
  match r with
  | AStr s => if mem (lower s) RISKS then lower s else "medium"
  | _ => "medium"
  end.

(** [NodeKind(value)] *)
Definition node_kind (v : string) : result orch_exn NodeKind.t :=
  match List.find (fun k => String.eqb (NodeKind.value k) v) NodeKind.all with
  | Some k => Ok k
  | None => Err (EnumError v)
  end.

(** [WorkNode.__post_init__] *)
Definition work_node (a : WorkNodeArgs) : result orch_exn WorkNode :=
  let id := a_node_id a in
  _ ← raise_if (String.eqb (strip id) "" || String.eqb (strip (a_objective a)) "")
        (OrchestrationError "node_id and objective are required");
  let risk := norm_risk (a_risk a) in
  _ ← raise_if (negb (mem risk RISKS))
        (OrchestrationError (id +:+ ": risk must be low|medium|high"));
  kind ← node_kind (a_kind a);
  owned ← map_result norm_path (a_owned_files a);
  context ← map_result norm_path (a_required_context a);
  _ ← raise_if (bool_decide (kind = NodeKind.IMPLEMENT) && bool_decide (owned = []))
        (OrchestrationError (id +:+ ": implement node needs owned_files"));
  _ ← raise_if (bool_decide (kind = NodeKind.IMPLEMENT)
                && bool_decide (a_verification_command a = []))
        (OrchestrationError (id +:+ ": implement node needs a verification_command"));
  _ ← raise_if (mem id (a_depends_on a))
        (OrchestrationError (id +:+ ": node depends on itself"));
  Ok {| node_id := id; objective := a_objective a; kind := kind; story := a_story a;
        depends_on := a_depends_on a; owned_files := owned; required_context := context;
        acceptance := a_acceptance a; verification_command := a_verification_command a;
        barrier := norm_barrier (a_barrier a); risk := risk;
        required_capabilities := a_required_capabilities a; coding := a_coding a;
        reasoning := a_reasoning a; min_context_tokens := a_min_context_tokens a |}.

(** [WorkNode.owns] *)
Definition owns (n : WorkNode) (path : string) : bool :=
  match norm_path path with
  | Err _ => false
  | Ok candidate =>
      existsb (fun owned => String.eqb candidate owned
                            || startswith candidate (rstrip_char "/" owned +:+ "/"))
        (owned_files n)
  end.

(** * The work graph *)

Record WorkGraph := {
  goal : string;
  nodes : list WorkNode;
  topology : Topology.t;
  rationale : list string;
  max_parallel : Z
}.

(** [WorkGraph.node] *)
Definition graph_node (ns : list WorkNode) (id : string) : result orch_exn WorkNode :=
  match List.find (fun n => String.eqb (node_id n) id) ns with
  | Some n => Ok n
  | None => Err (KeyError id)
  end.

Definition subset (xs ys : list string) : bool := forallb (fun x => mem x ys) xs.

(** The [while remaining] loop of [WorkGraph.layers]. *)
Fixpoint layers_loop (fuel : nat) (remaining : list (string * list string))
    (done : list string) : result orch_exn (list (list string)) :=
  match remaining with
  | [] => Ok []
  | _ =>
    match fuel with
    | O => Err FuelError
    | S fuel =>
      let ready := sort_str (map fst (List.filter (fun p => subset (snd p) done) remaining)) in
      match ready with
      | [] => Err (OrchestrationError ("dependency cycle among "
                                       +:+ repr_list (sort_str (map fst remaining))))
      | _ =>
        rest ← layers_loop fuel
                 (List.filter (fun p => negb (mem (fst p) ready)) remaining)
                 (done ++ ready);
        Ok (ready :: rest)
      end
    end
  end.

(** [WorkGraph.layers]; each turn of the loop removes a node, so as many turns
    as there are nodes are enough. *)
Definition layers (ns : list WorkNode) : result orch_exn (list (list string)) :=
  layers_loop (length ns) (map (fun n => (node_id n, depends_on n)) ns) [].

(** The loop of [WorkGraph.ancestors]. [stack] is the Python list read from its
    end, so [pop] takes the head and [extend] pushes the reversed list. *)
Fixpoint ancestors_loop (fuel : nat) (ns : list WorkNode) (seen stack : list string)
    : result orch_exn (list string) :=
  match stack with
  | [] => Ok seen
  | current :: stack =>
    match fuel with
    | O => Err FuelError
    | S fuel =>
      if mem current seen then ancestors_loop fuel ns seen stack
      else
        n ← graph_node ns current;
        ancestors_loop fuel ns (current :: seen) (rev (depends_on n) ++ stack)
    end
  end.

Definition dep_count (ns : list WorkNode) : nat :=
  sum_list_with (fun n => length (depends_on n)) ns.

(** [WorkGraph.ancestors]; every node is expanded once, so the stack sees at
    most the start node's dependencies and each node's dependencies. *)
Definition ancestors (ns : list WorkNode) (id : string) : result orch_exn (list string) :=
  n ← graph_node ns id;
  ancestors_loop (length (depends_on n) + dep_count ns) ns [] (rev (depends_on n)).

(** One pair of writers in [WorkGraph._check_ownership]. *)
Definition check_pair (ns : list WorkNode) (left right : WorkNode) : result orch_exn unit :=
  up ← ancestors ns (node_id right);
  ordered ← (if mem (node_id left) up then Ok true
             else down ← ancestors ns (node_id left); Ok (mem (node_id right) down));
  if (ordered : bool) then Ok tt
  else
    let overlap := sort_str (dedupe_from []
                     (List.filter (fun f => mem f (owned_files right)) (owned_files left))) in
    raise_if (negb (bool_decide (overlap = [])))
      (OrchestrationError ("concurrent nodes " +:+ node_id left +:+ " and "
                           +:+ node_id right +:+ " both own " +:+ repr_list overlap)).

Fixpoint check_pairs (ns : list WorkNode) (left : WorkNode) (rights : list WorkNode)
    : result orch_exn unit :=
  match rights with
  | [] => Ok tt
  | r :: rights => _ ← check_pair ns left r; check_pairs ns left rights
  end.

Fixpoint check_writers (ns writers : list WorkNode) : result orch_exn unit :=
  match writers with
  | [] => Ok tt
  | w :: ws => _ ← check_pairs ns w ws; check_writers ns ws
  end.

(** [WorkGraph._check_ownership] *)
Definition check_ownership (ns : list WorkNode) : result orch_exn unit :=
  check_writers ns (List.filter (fun n => bool_decide (kind n = NodeKind.IMPLEMENT)) ns).

Definition count_str (x : string) (xs : list string) : nat :=
  length (List.filter (String.eqb x) xs).

(** [WorkGraph.__post_init__] *)
Definition work_graph (goal : string) (ns : list WorkNode) (topology : Topology.t)
    (rationale : list string) (max_parallel : Z) : result orch_exn WorkGraph :=
  let ids := map node_id ns in
  _ ← raise_if (bool_decide (ids = [])) (OrchestrationError "graph has no nodes");
  let dupes := sort_str (dedupe_from []
                 (List.filter (fun i => (1 <? count_str i ids)%nat) ids)) in
  _ ← raise_if (negb (bool_decide (dupes = [])))
        (OrchestrationError ("duplicate node ids: " +:+ repr_list dupes));
  _ ← map_result (fun n =>
        let missing := sort_str (dedupe_from []
                         (List.filter (fun d => negb (mem d ids)) (depends_on n))) in
        raise_if (negb (bool_decide (missing = [])))
          (OrchestrationError (node_id n +:+ ": unknown dependencies " +:+ repr_list missing)))
        ns;
  _ ← layers ns;
  _ ← check_ownership ns;
  _ ← raise_if (max_parallel <? 1) (OrchestrationError "max_parallel must be >= 1");
  Ok {| goal := goal; nodes := ns; topology := topology; rationale := rationale;
        max_parallel := max_parallel |}.

(** * Task requirements, routes and results *)

Record TaskRequirements := {
  tr_required_capabilities : list string;
  tr_min_context_tokens : Z;
  tr_coding : bool;
  tr_reasoning : bool;
  tr_frontier_worthy : bool;
  tr_task_category : string;
  tr_exclude_routes : list string;
  tr_exclude_families : list string;
  tr_exclude_pools : list string;
  tr_max_capability_tier : Z;
  tr_task_family : option string
}.

Definition required_capability_tier (n : WorkNode) : Z :=
  if bool_decide (kind n = NodeKind.REVIEW) || String.eqb (risk n) "high" then 1
  else if String.eqb (risk n) "medium" || reasoning n then 2
  else 3.

(** [TaskRequirements.for_node(node)] without overrides. *)
Definition for_node (n : WorkNode) : TaskRequirements :=
  {| tr_required_capabilities := required_capabilities n;
     tr_min_context_tokens := min_context_tokens n;
     tr_coding := coding n;
     tr_reasoning := reasoning n;
     tr_frontier_worthy := String.eqb (risk n) "high" || bool_decide (kind n = NodeKind.REVIEW);
     tr_task_category := "general";
     tr_exclude_routes := [];
     tr_exclude_families := [];
     tr_exclude_pools := [];
     tr_max_capability_tier := required_capability_tier n;
     tr_task_family := None |}.

Record FailureClassification := {
  fc_category : string;
  fc_action : string;
  fc_cooldown_seconds : Q;
  fc_scope : string;
  fc_evidence : string
}.

Definition route_provider (route_id : string) : string :=
  lower (strip (split1_head "/" route_id)).

Definition FAMILIES : list string :=
  ["claude"; "gpt"; "gemini"; "grok"; "qwen"; "deepseek"; "glm"; "kimi"; "llama";
   "mistral"; "nemotron"; "minimax"].

Definition route_family (route_id : string) : string :=
  let tail := split_last "/" (lower route_id) in
  match List.find (contains tail) FAMILIES with
  | Some family => family
  | None => split1_head "-" tail
  end.

Definition dedupe (items : list string) : list string := dedupe_from [] items.

Record ReviewFinding := {
  rf_severity : string;
  rf_category : string;
  rf_file : string;
  rf_line : option Z;
  rf_message : string
}.

Definition blocking (f : ReviewFinding) : bool := mem (rf_severity f) ["critical"; "high"].

Record ReviewResult := {
  rr_status : string;
  rr_reviewer : string;
  rr_route_id : string;
  rr_findings : list ReviewFinding;
  rr_detail : string
}.

Definition review_passed (r : ReviewResult) : bool :=
  String.eqb (rr_status r) "PASS" && negb (existsb blocking (rr_findings r)).

Definition EVENT_TYPES : list string :=
  ["run_started"; "understand"; "plan_started"; "plan_ready"; "plan_repair_started";
   "plan_repair_terminal"; "hydrate"; "topology"; "eligibility"; "node_state"; "selection";
   "dispatch"; "heartbeat"; "terminal"; "failure"; "cooldown"; "reassign"; "salvage";
   "restore"; "verify"; "repo_gate"; "repo_gates"; "barrier"; "integrate"; "review";
   "remediation"; "controller"; "decision_signals"; "review_attempt"; "repack"; "rehydrate";
   "decision_signals_context_budget"; "control"; "executor_map_unmatched";
   "openspec_admission"; "openspec_conformance"; "run_finished"].

(** * The work graph: lemmas *)

(** [x] depends directly on [y]. *)
Definition dep (ns : list WorkNode) (x y : string) : Prop :=
  exists n, n ∈ ns /\ node_id n = x /\ y ∈ depends_on n.

Lemma subset_spec xs ys : subset xs ys = true <-> xs ⊆ ys.
Proof.
  unfold subset. rewrite forallb_forall. setoid_rewrite <- list_elem_of_In.
  by setoid_rewrite mem_spec.
Qed.

Lemma sort_str_nil l : sort_str l = [] <-> l = [].
Proof.
  split; [|by intros ->]. intros E. pose proof (sort_str_perm l) as P.
  rewrite E in P. by apply Permutation_nil in P.
Qed.

Section layers.
Implicit Types rem : list (string * list string).

Definition ready_of rem (done : list string) : list string :=
  sort_str (map fst (List.filter (fun p => subset (snd p) done) rem)).

Definition rest_of rem (ready : list string) : list (string * list string) :=
  List.filter (fun p => negb (mem (fst p) ready)) rem.

Arguments ready_of : simpl never.
Arguments rest_of : simpl never.

Lemma layers_loop_S fuel rem done :
  layers_loop (S fuel) rem done =
  match rem with
  | [] => Ok []
  | _ =>
    match ready_of rem done with
    | [] => Err (OrchestrationError ("dependency cycle among "
                                     +:+ repr_list (sort_str (map fst rem))))
    | _ => rest ← layers_loop fuel (rest_of rem (ready_of rem done))
                    (done ++ ready_of rem done);
           Ok (ready_of rem done :: rest)
    end
  end.
Proof. destruct rem; reflexivity. Qed.

Lemma elem_ready rem done i :
  i ∈ ready_of rem done <-> exists ds, (i, ds) ∈ rem /\ ds ⊆ done.
Proof.
  unfold ready_of. rewrite elem_of_sort_str, list_elem_of_fmap. split.
  - intros ([j ds] & -> & H). apply elem_of_lfilter in H as [? ?%subset_spec]. eauto.
  - intros (ds & Hin & Hs). exists (i, ds). split; [done|].
    apply elem_of_lfilter. split; [done|]. by apply subset_spec.
Qed.

Lemma elem_rest rem ready i ds :
  (i, ds) ∈ rest_of rem ready <-> (i, ds) ∈ rem /\ i ∉ ready.
Proof.
  unfold rest_of. rewrite elem_of_lfilter; cbn. by rewrite negb_true_iff, mem_false.
Qed.

Lemma rest_keys rem ready : map fst (rest_of rem ready) = List.filter (fun i => negb (mem i ready)) (map fst rem).
Proof.
  unfold rest_of. induction rem as [|[i ds] rem IH]; cbn; [done|].
  destruct (mem i ready); cbn; by rewrite IH.
Qed.

Lemma rest_nodup rem ready : base.NoDup (map fst rem) -> base.NoDup (map fst (rest_of rem ready)).
Proof.
  rewrite rest_keys, !NoDup_ListNoDup. apply List.NoDup_filter.
Qed.

Lemma ready_rest_perm rem done :
  base.NoDup (map fst rem) ->
  ready_of rem done ++ map fst (rest_of rem (ready_of rem done)) ≡ₚ map fst rem.
Proof.
  intros Hnd.
  assert (E : rest_of rem (ready_of rem done)
              = List.filter (fun p => negb (subset (snd p) done)) rem).
  { apply filter_ext_in. intros [i ds] Hin%list_elem_of_In; cbn. f_equal.
    destruct (mem i _) eqn:Em.
    - apply mem_spec, elem_ready in Em as (ds' & Hin' & Hs).
      assert (ds' = ds) as ->; [|symmetry; by apply subset_spec].
      by eapply nodup_fst_inj.
    - apply mem_false in Em. destruct (subset ds done) eqn:Es; [|done].
      exfalso. apply Em, elem_ready. exists ds. split; [done|]. by apply subset_spec. }
  rewrite E. unfold ready_of. rewrite sort_str_perm, <- map_app.
  apply Permutation_map. clear.
  induction rem as [|p rem IH]; cbn; [done|].
  destruct (subset (snd p) done); cbn; [by rewrite IH|].
  rewrite <- Permutation_middle. by rewrite IH.
Qed.

Lemma rest_shorter rem done :
  ready_of rem done <> [] ->
  (length (rest_of rem (ready_of rem done)) < length rem)%nat.
Proof.
  intros Hne. destruct (ready_of rem done) as [|i ready] eqn:E; [done|].
  assert (Hi : i ∈ ready_of rem done) by (rewrite E; set_solver).
  rewrite <- E. pose proof Hi as (ds & Hin & _)%elem_ready.
  eapply lfilter_length_lt; [exact Hin|]. cbn.
  apply negb_false_iff. by apply mem_spec.
Qed.

Lemma layers_loop_no_fuel fuel rem done :
  (length rem <= fuel)%nat -> layers_loop fuel rem done <> Err FuelError.
Proof.
  revert rem done; induction fuel as [|fuel IH]; intros rem done Hlen.
  - destruct rem; cbn in *; [done|lia].
  - rewrite layers_loop_S. destruct rem as [|p rem]; [done|].
    destruct (ready_of (p :: rem) done) as [|i ready] eqn:E; [done|]. rewrite <- E.
    pose proof (rest_shorter (p :: rem) done) as Hlt. rewrite E in Hlt at 1.
    specialize (Hlt ltac:(done)).
    specialize (IH (rest_of (p :: rem) (ready_of (p :: rem) done))
                   (done ++ ready_of (p :: rem) done) ltac:(lia)).
    destruct (layers_loop fuel _ _); cbn; [done|]. congruence.
Qed.

Lemma layers_loop_perm fuel rem done ls :
  base.NoDup (map fst rem) ->
  layers_loop fuel rem done = Ok ls -> concat ls ≡ₚ map fst rem.
Proof.
  revert rem done ls; induction fuel as [|fuel IH]; intros rem done ls Hnd.
  - destruct rem; cbn; [by intros [= <-]|done].
  - rewrite layers_loop_S. destruct rem as [|p rem]; [by intros [= <-]|].
    destruct (ready_of (p :: rem) done) as [|i ready] eqn:E; [done|]. rewrite <- E.
    intros H; inv_ok; subst. cbn [concat].
    rewrite (IH _ _ _ (rest_nodup _ _ Hnd) ltac:(eassumption)).
    by apply ready_rest_perm.
Qed.

Lemma layers_loop_deps fuel rem done ls k l i ds d :
  layers_loop fuel rem done = Ok ls ->
  base.NoDup (map fst rem) ->
  ls !! k = Some l -> i ∈ l -> (i, ds) ∈ rem -> d ∈ ds ->
  d ∈ done \/ exists k' l', (k' < k)%nat /\ ls !! k' = Some l' /\ d ∈ l'.
Proof.
  revert rem done ls k; induction fuel as [|fuel IH]; intros rem done ls k.
  - destruct rem; cbn; [by intros [= <-]|done].
  - rewrite layers_loop_S. destruct rem as [|p rem]; [by intros [= <-]|].
    destruct (ready_of (p :: rem) done) as [|j ready] eqn:E; [done|]. rewrite <- E.
    intros H Hnd Hk Hi Hin Hd; inv_ok; subst. destruct k as [|k]; cbn in Hk.
    + injection Hk as <-. left. apply elem_ready in Hi as (ds' & Hin' & Hs).
      assert (ds' = ds) as -> by (by eapply nodup_fst_inj).
      set_solver.
    + assert (Hrest : (i, ds) ∈ rest_of (p :: rem) (ready_of (p :: rem) done)).
      { apply elem_rest. split; [done|]. intros Hr.
        pose proof (layers_loop_perm _ _ _ _ (rest_nodup _ (ready_of (p :: rem) done) Hnd) H) as P.
        assert (Hc : i ∈ concat x).
        { apply elem_of_concat. exists l. split; [done|]. by eapply list_elem_of_lookup_2. }
        rewrite P, rest_keys in Hc. apply elem_of_lfilter in Hc as [_ Hc].
        apply negb_true_iff, mem_false in Hc. done. }
      destruct (IH _ _ _ _ H (rest_nodup _ _ Hnd) Hk Hi Hrest Hd)
        as [[?|Hr]%elem_of_app|(k' & l' & ? & ? & ?)].
      * by left.
      * right. exists 0%nat, (ready_of (p :: rem) done). split_and!; [lia|done|done].
      * right. exists (S k'), l'. split_and!; [lia|done|done].
Qed.
End layers.

Section graph.
Context (ns : list WorkNode).
Context (ids_nodup : base.NoDup (map node_id ns)).

Let rem0 : list (string * list string) := map (fun n => (node_id n, depends_on n)) ns.

Lemma rem0_keys : map fst rem0 = map node_id ns.
Proof. unfold rem0. rewrite map_map. done. Qed.

Lemma dep_rem0 x y : dep ns x y <-> exists ds, (x, ds) ∈ rem0 /\ y ∈ ds.
Proof.
  unfold rem0. setoid_rewrite list_elem_of_fmap. split.
  - intros (n & Hn & <- & Hy). exists (depends_on n). eauto.
  - intros (ds & (n & [= -> ->] & Hn) & Hy). by exists n.
Qed.

Lemma layers_perm ls : layers ns = Ok ls -> concat ls ≡ₚ map node_id ns.
Proof.
  intros H. rewrite <- rem0_keys. eapply layers_loop_perm; [|exact H].
  fold rem0. by rewrite rem0_keys.
Qed.

Lemma layers_total : layers ns <> Err FuelError.
Proof. apply layers_loop_no_fuel. by rewrite length_map. Qed.

Lemma layer_dep ls k l x y :
  layers ns = Ok ls -> ls !! k = Some l -> x ∈ l -> dep ns x y ->
  exists k' l', (k' < k)%nat /\ ls !! k' = Some l' /\ y ∈ l'.
Proof.
  intros H Hk Hx (ds & Hin & Hy)%dep_rem0.
  destruct (layers_loop_deps _ _ _ _ k l x ds y H) as [[]%not_elem_of_nil|]; try done.
  fold rem0. by rewrite rem0_keys.
Qed.

Lemma layer_ancestor ls k l x y :
  layers ns = Ok ls -> ls !! k = Some l -> x ∈ l -> tc (dep ns) x y ->
  exists k' l', (k' < k)%nat /\ ls !! k' = Some l' /\ y ∈ l'.
Proof.
  intros H Hk Hx Hxy. revert k l Hk Hx.
  induction Hxy as [x y Hd|x z y Hd _ IH]; intros k l Hk Hx.
  - by eapply layer_dep.
  - destruct (layer_dep ls k l x z H Hk Hx Hd) as (k1 & l1 & ? & Hk1 & Hz).
    destruct (IH k1 l1 Hk1 Hz) as (k2 & l2 & ? & ? & ?).
    exists k2, l2. split_and!; [lia|done|done].
Qed.

Lemma layer_of ls x : layers ns = Ok ls -> x ∈ map node_id ns ->
  exists k l, ls !! k = Some l /\ x ∈ l.
Proof.
  intros H Hx. rewrite <- (layers_perm ls H), elem_of_concat in Hx.
  destruct Hx as (l & Hx & (k & Hk)%list_elem_of_lookup). eauto.
Qed.

Lemma dep_known x y : dep ns x y -> x ∈ map node_id ns.
Proof. intros (n & Hn & <- & _). apply list_elem_of_fmap. eauto. Qed.

Lemma layers_ok_acyclic ls : layers ns = Ok ls -> Irreflexive (tc (dep ns)).
Proof.
  intros H x Hx.
  assert (x ∈ map node_id ns) as Hin by (inversion Hx; subst; by eapply dep_known).
  destruct (layer_of ls x H Hin) as (k & l & Hk & Hl).
  destruct (layer_ancestor ls k l x x H Hk Hl Hx) as (k' & l' & ? & Hk' & Hl').
  enough (k = k') by lia. eapply (concat_index_inj ls x); eauto.
  by rewrite layers_perm.
Qed.

Lemma layers_loop_acyclic fuel rem done :
  (length rem <= fuel)%nat ->
  (forall i ds d, (i, ds) ∈ rem -> d ∈ ds -> dep ns i d) ->
  (forall i ds d, (i, ds) ∈ rem -> d ∈ ds -> d ∈ done \/ d ∈ map fst rem) ->
  (forall x, sn (dep ns) x) ->
  exists ls, layers_loop fuel rem done = Ok ls.
Proof.
  intros Hlen Hdep Hknown Hsn. revert rem done Hlen Hdep Hknown.
  induction fuel as [|fuel IH]; intros rem done Hlen Hdep Hknown.
  - destruct rem; cbn in *; [eauto|lia].
  - rewrite layers_loop_S. destruct rem as [|[i0 ds0] rem]; [eauto|].
    set (r := (i0, ds0) :: rem) in *.
    assert (Hready : exists i, i ∈ ready_of r done).
    { assert (Hstart : exists ds, (i0, ds) ∈ r) by (exists ds0; unfold r; set_solver).
      clearbody r. induction (Hsn i0) as [i0 _ IHi]. destruct Hstart as (ds & Hin).
      destruct (subset ds done) eqn:Es.
      - apply subset_spec in Es. exists i0. apply elem_ready. eauto.
      - destruct (forallb_exists_false (fun x => mem x done) ds Es) as (d & Hd & Hnd).
        apply mem_false in Hnd.
        destruct (Hknown _ _ _ Hin Hd) as [|Hk]; [done|].
        apply list_elem_of_fmap in Hk as ([d' ds'] & -> & Hin').
        eapply (IHi d'); [by eapply Hdep|eauto]. }
    destruct Hready as (i & Hi). destruct (ready_of r done) as [|j ready] eqn:E; [set_solver|].
    rewrite <- E.
    destruct (IH (rest_of r (ready_of r done)) (done ++ ready_of r done)) as (ls & ->).
    + pose proof (rest_shorter r done) as Hlt. rewrite E in Hlt at 1.
      specialize (Hlt ltac:(done)). lia.
    + intros k ds d [Hin _]%elem_rest. by eapply Hdep.
    + intros k ds d [Hin _]%elem_rest Hd. rewrite elem_of_app.
      destruct (Hknown _ _ _ Hin Hd) as [|Hk]; [by left; left|].
      destruct (mem d (ready_of r done)) eqn:Em; [apply mem_spec in Em; by left; right|].
      right. rewrite rest_keys. apply elem_of_lfilter. by rewrite Em.
    + by eexists.
Qed.
End graph.

Section ancestors.
Context (ns : list WorkNode).

Lemma graph_node_some id n : graph_node ns id = Ok n -> n ∈ ns /\ node_id n = id.
Proof.
  unfold graph_node. destruct (List.find _ ns) eqn:E; [|done]. intros [= ->].
  apply find_some in E as [? ?%String.eqb_eq]. by rewrite list_elem_of_In.
Qed.

Lemma graph_node_known id : id ∈ map node_id ns -> exists n, graph_node ns id = Ok n.
Proof.
  intros (n & -> & Hn)%list_elem_of_fmap. unfold graph_node.
  destruct (List.find _ ns) eqn:E; [eauto|]. exfalso.
  apply list_elem_of_In in Hn. apply (find_none _ _ E n) in Hn.
  by rewrite String.eqb_refl in Hn.
Qed.

Lemma graph_node_dep id n d :
  base.NoDup (map node_id ns) ->
  graph_node ns id = Ok n -> dep ns id d <-> d ∈ depends_on n.
Proof.
  intros Hnd [Hn Hid]%graph_node_some. split; [|by exists n].
  intros (m & Hm & Hidm & Hd). enough (m = n) as -> by done.
  rewrite <- Hid in Hidm. clear -Hnd Hn Hm Hidm.
  induction ns as [|k l IH]; cbn in *; [by apply not_elem_of_nil in Hm|].
  apply NoDup_cons in Hnd as [Hk Hnd]. rewrite elem_of_cons in Hn, Hm.
  assert (Hc : forall z, z ∈ l -> node_id z <> node_id k).
  { intros z Hz E. apply Hk. rewrite <- E. apply list_elem_of_fmap. eauto. }
  destruct Hn as [->|Hn], Hm as [->|Hm]; try done; [exfalso|exfalso|by apply IH];
    eapply Hc; eauto.
Qed.

(** Dependencies of the nodes not yet expanded. *)
Definition unseen_deps (seen : list string) : nat :=
  sum_list_with (fun n => if mem (node_id n) seen then 0%nat else length (depends_on n)) ns.

Lemma unseen_deps_cons seen n :
  n ∈ ns -> node_id n ∉ seen ->
  (unseen_deps (node_id n :: seen) + length (depends_on n) <= unseen_deps seen)%nat.
Proof.
  intros Hn Hs. unfold unseen_deps. apply mem_false in Hs.
  assert (Hle : forall l, (sum_list_with (fun m => if mem (node_id m) (node_id n :: seen)
            then 0 else length (depends_on m)) l
          <= sum_list_with (fun m => if mem (node_id m) seen then 0
            else length (depends_on m)) l)%nat).
  { induction l as [|m l IH]; cbn; [lia|]. rewrite mem_cons.
    destruct (String.eqb (node_id m) (node_id n)), (mem (node_id m) seen); cbn; lia. }
  induction ns as [|m l IH]; [by apply not_elem_of_nil in Hn|].
  apply elem_of_cons in Hn as [->|Hn]; cbn; specialize (Hle l); cbn in Hle.
  - rewrite mem_cons, String.eqb_refl, Hs; cbn. lia.
  - specialize (IH Hn). rewrite mem_cons.
    destruct (String.eqb (node_id m) (node_id n)), (mem (node_id m) seen); cbn; lia.
Qed.

Context (deps_known : forall n d, n ∈ ns -> d ∈ depends_on n -> d ∈ map node_id ns).

Lemma ancestors_loop_total fuel seen stack :
  (length stack + unseen_deps seen <= fuel)%nat -> stack ⊆ map node_id ns ->
  exists r, ancestors_loop fuel ns seen stack = Ok r.
Proof.
  revert seen stack; induction fuel as [|fuel IH]; intros seen [|c stack] Hf Hk; cbn;
    cbn in Hf; eauto; [lia|].
  destruct (mem c seen) eqn:Ec; [apply IH; [lia|set_solver]|].
  destruct (graph_node_known c) as (n & Hgn); [set_solver|]. rewrite Hgn; cbn.
  apply graph_node_some in Hgn as [Hn <-]. apply mem_false in Ec.
  pose proof (unseen_deps_cons seen n Hn Ec). apply IH.
  - rewrite length_app, length_rev. lia.
  - intros d [Hd|Hd]%elem_of_app; [|set_solver].
    rewrite <- rev_involutive in Hd. apply (deps_known n); [done|].
    rewrite list_elem_of_In. apply in_rev. rewrite <- list_elem_of_In.
    by rewrite rev_involutive in Hd.
Qed.

Lemma ancestors_loop_sound (P : string -> Prop) fuel seen stack r :
  (forall x y, P x -> dep ns x y -> P y) ->
  (forall x, x ∈ seen \/ x ∈ stack -> P x) ->
  ancestors_loop fuel ns seen stack = Ok r -> forall x, x ∈ r -> P x.
Proof using Type.
  clear deps_known.
  intros Hstep. revert seen stack; induction fuel as [|fuel IH]; intros seen [|c stack] HP;
    cbn; try done; try (intros [= ->]; auto).
  destruct (mem c seen); [apply IH; set_solver|].
  intros H; inv_ok. rename x into n. pose proof (graph_node_some c _ H) as [Hn Hid].
  eapply IH; [|exact H0]. intros y Hy.
  assert (Hd : y = c \/ y ∈ seen \/ y ∈ stack \/ y ∈ depends_on n).
  { destruct Hy as [Hy|Hy]; [set_solver|]. apply elem_of_app in Hy as [Hy|Hy]; [|tauto].
    right; right; right. rewrite list_elem_of_In in *. by apply in_rev. }
  destruct Hd as [->|[?|[?|?]]]; [apply HP; set_solver..|].
  eapply (Hstep c); [apply HP; set_solver|by exists n].
Qed.

Lemma ancestors_loop_closed fuel seen stack r :
  base.NoDup (map node_id ns) ->
  (forall x y, x ∈ seen -> dep ns x y -> y ∈ seen \/ y ∈ stack) ->
  ancestors_loop fuel ns seen stack = Ok r ->
  seen ⊆ r /\ stack ⊆ r /\ forall x y, x ∈ r -> dep ns x y -> y ∈ r.
Proof using Type.
  clear deps_known.
  intros Hnd. revert seen stack; induction fuel as [|fuel IH]; intros seen [|c stack] Hc;
    cbn; try done; try (intros [= ->]; split_and!; [done|set_solver|];
      intros x y Hx Hd; destruct (Hc x y Hx Hd); [done|set_solver]).
  destruct (mem c seen) eqn:Ec.
  - apply mem_spec in Ec. intros H. apply IH in H as (? & ? & ?); [split_and!; set_solver|].
    intros x y Hx Hd. destruct (Hc x y Hx Hd); [tauto|set_solver].
  - intros H; inv_ok. rename x into n. apply IH in H0 as (Hs & Hk & ?); [split_and!; [set_solver|set_solver|done]|].
    intros x y [->|Hx]%elem_of_cons Hd.
    + right. apply elem_of_app. left. rewrite list_elem_of_In. apply in_rev.
      rewrite rev_involutive, <- list_elem_of_In. by eapply graph_node_dep.
    + destruct (Hc x y Hx Hd) as [|]; set_solver.
Qed.

Lemma ancestors_spec id r :
  base.NoDup (map node_id ns) ->
  ancestors ns id = Ok r -> forall x, x ∈ r <-> tc (dep ns) id x.
Proof using Type.
  clear deps_known.
  intros Hnd H; unfold ancestors in H; inv_ok. rename x into n.
  assert (Hdeps : forall d, d ∈ rev (depends_on n) <-> dep ns id d).
  { intros d. rewrite (graph_node_dep id n d Hnd H), list_elem_of_In, <- in_rev.
    by rewrite <- list_elem_of_In. }
  intros x; split; intros Hx.
  - eapply (ancestors_loop_sound (tc (dep ns) id)); [| |exact H0|exact Hx].
    + intros. by eapply tc_r.
    + intros y [[]%not_elem_of_nil|Hy]. constructor. by apply Hdeps.
  - apply ancestors_loop_closed in H0 as (_ & Hs & Hcl); [|done|set_solver].
    assert (Hr : rtc (dep ns) id x) by (by apply tc_rtc).
    assert (Hgo : forall y, y ∈ r -> rtc (dep ns) y x -> x ∈ r).
    { intros y Hy Hyx. induction Hyx as [|y z x Hyz _ IH]; [done|]. apply IH; eauto. }
    inversion Hx; subst; [apply Hs; by apply Hdeps|].
    eapply Hgo; [apply Hs; by apply Hdeps|by apply tc_rtc].
Qed.

Lemma ancestors_total id :
  id ∈ map node_id ns -> exists r, ancestors ns id = Ok r.
Proof.
  intros (n & Hgn)%graph_node_known. unfold ancestors. rewrite Hgn; cbn.
  apply graph_node_some in Hgn as [Hn _]. apply ancestors_loop_total.
  - rewrite length_rev. assert (unseen_deps [] = dep_count ns) as -> by done. lia.
  - intros d Hd. apply (deps_known n); [done|].
    rewrite list_elem_of_In in *. by apply in_rev.
Qed.
End ancestors.

(** * Accepted graphs *)

Lemma sort_dedupe_nil l : sort_str (dedupe_from [] l) = [] <-> l = [].
Proof.
  rewrite sort_str_nil. split; [|by intros ->]. intros E.
  destruct l as [|x l]; [done|]. exfalso.
  assert (x ∈ dedupe_from [] (x :: l)) as Hx by (apply dedupe_from_elem; set_solver).
  rewrite E in Hx. by apply not_elem_of_nil in Hx.
Qed.

Lemma lfilter_nil {A} (f : A -> bool) l :
  List.filter f l = [] <-> forall x, x ∈ l -> f x = false.
Proof.
  split.
  - intros E x Hx. destruct (f x) eqn:Ef; [|done].
    assert (x ∈ List.filter f l) as Hin by (by apply elem_of_lfilter).
    rewrite E in Hin. by apply not_elem_of_nil in Hin.
  - intros H. destruct (List.filter f l) as [|x r] eqn:E; [done|].
    assert (x ∈ List.filter f l) as [Hx Hf]%elem_of_lfilter by (rewrite E; set_solver).
    by rewrite H in Hf.
Qed.

Lemma count_str_nodup ids :
  (forall i, i ∈ ids -> (count_str i ids <= 1)%nat) -> base.NoDup ids.
Proof.
  unfold count_str. induction ids as [|i ids IH]; intros H; constructor.
  - intros Hin. specialize (H i ltac:(set_solver)). cbn in H. rewrite String.eqb_refl in H.
    cbn in H. assert (i ∈ List.filter (String.eqb i) ids) as Hf
      by (apply elem_of_lfilter; by rewrite String.eqb_refl).
    destruct (List.filter _ ids); [by apply not_elem_of_nil in Hf|cbn in H; lia].
  - apply IH. intros j Hj. specialize (H j ltac:(set_solver)). cbn in H.
    destruct (String.eqb j i); cbn in H; lia.
Qed.

(** What construction of a [WorkGraph] establishes. *)
Record graph_ok (g : WorkGraph) : Prop := {
  go_nonempty : nodes g <> [];
  go_nodup : base.NoDup (map node_id (nodes g));
  go_known : forall n d, n ∈ nodes g -> d ∈ depends_on n -> d ∈ map node_id (nodes g);
  go_layers : exists ls, layers (nodes g) = Ok ls;
  go_ownership : check_ownership (nodes g) = Ok tt;
  go_parallel : 1 <= max_parallel g
}.

Lemma map_result_elem {E A B} (f : A -> result E B) l ys x :
  map_result f l = Ok ys -> x ∈ l -> exists y, f x = Ok y.
Proof.
  intros H%map_result_ok Hx. induction H as [|a b l ys Hab _ IH].
  - by apply not_elem_of_nil in Hx.
  - apply elem_of_cons in Hx as [->|Hx]; eauto.
Qed.

Lemma sort_dedupe_filter_nil f l x :
  sort_str (dedupe_from [] (List.filter f l)) = [] -> x ∈ l -> f x = false.
Proof. intros H Hx. by apply (proj1 (lfilter_nil f l) (proj1 (sort_dedupe_nil _) H)). Qed.

Lemma work_graph_ok goal ns topo why mp g :
  work_graph goal ns topo why mp = Ok g -> graph_ok g /\ nodes g = ns.
Proof.
  unfold work_graph. intros H.
  apply bind_ok in H as ([] & Hne%raise_if_ok & H).
  apply bind_ok in H as ([] & Hdup%raise_if_ok & H).
  apply bind_ok in H as (us & Hdeps & H).
  apply bind_ok in H as (ls & Hl & H).
  apply bind_ok in H as ([] & Ho & H).
  apply bind_ok in H as ([] & Hp%raise_if_ok & H).
  injection H as <-. bool_hyps. cbn.
  split; [|done]. constructor; cbn; eauto.
  - intros ->. done.
  - apply count_str_nodup. intros i Hi.
    pose proof (sort_dedupe_filter_nil _ _ _ Hdup Hi) as Hc. cbv beta in Hc.
    apply Nat.ltb_ge in Hc. lia.
  - intros n d Hn Hd. destruct (map_result_elem _ _ _ n Hdeps Hn) as (u & Hu).
    apply raise_if_ok in Hu. bool_hyps.
    pose proof (sort_dedupe_filter_nil _ _ _ Hu Hd) as Hm. cbn in Hm. bool_hyps.
    by apply mem_spec.
  - lia.
Qed.

Lemma acyclic_sn ns :
  (forall n d, n ∈ ns -> d ∈ depends_on n -> d ∈ map node_id ns) ->
  Irreflexive (tc (dep ns)) -> forall x, sn (dep ns) x.
Proof.
  intros Hk Hirr x. apply (tc_finite_sn x); [done|].
  exists (map node_id ns). intros y Hxy.
  assert (Hr : exists z, dep ns z y).
  { clear -Hxy. induction Hxy; eauto. }
  destruct Hr as (z & n & Hn & _ & Hd). eauto.
Qed.

Lemma check_pairs_ok ns w rs r :
  check_pairs ns w rs = Ok tt -> r ∈ rs -> check_pair ns w r = Ok tt.
Proof.
  induction rs as [|r' rs IH]; cbn; [by intros _ []%not_elem_of_nil|].
  intros ([] & ? & ?)%bind_ok [->|?]%elem_of_cons; eauto.
Qed.

Lemma check_writers_ok ns ws x y :
  check_writers ns ws = Ok tt -> x ∈ ws -> y ∈ ws -> x <> y ->
  check_pair ns x y = Ok tt \/ check_pair ns y x = Ok tt.
Proof.
  induction ws as [|w ws IH]; cbn; [by intros _ []%not_elem_of_nil|].
  intros ([] & Hp & Hw)%bind_ok [->|Hx]%elem_of_cons [->|Hy]%elem_of_cons Hne;
    [done|left|right|auto]; by eapply check_pairs_ok.
Qed.

Lemma check_pair_ok ns l r :
  base.NoDup (map node_id ns) -> check_pair ns l r = Ok tt ->
  tc (dep ns) (node_id r) (node_id l) \/ tc (dep ns) (node_id l) (node_id r) \/
  (forall f, f ∈ owned_files l -> f ∉ owned_files r).
Proof.
  intros Hnd (up & Hup & H)%bind_ok. apply bind_ok in H as (o & Ho & H).
  destruct (mem (node_id l) up) eqn:Em.
  { left. apply mem_spec in Em. by apply (ancestors_spec _ _ _ Hnd Hup). }
  apply bind_ok in Ho as (down & Hdown & Ho). injection Ho as <-.
  destruct (mem (node_id r) down) eqn:Ed.
  { right; left. apply mem_spec in Ed. by apply (ancestors_spec _ _ _ Hnd Hdown). }
  right; right. apply raise_if_ok in H. bool_hyps. intros f Hl.
  pose proof (sort_dedupe_filter_nil _ _ _ H Hl) as Hm. cbn in Hm. by apply mem_false.
Qed.

Lemma accepted_writers g x y f :
  graph_ok g -> x ∈ nodes g -> y ∈ nodes g -> x <> y ->
  kind x = NodeKind.IMPLEMENT -> kind y = NodeKind.IMPLEMENT ->
  f ∈ owned_files x -> f ∈ owned_files y ->
  tc (dep (nodes g)) (node_id x) (node_id y) \/ tc (dep (nodes g)) (node_id y) (node_id x).
Proof.
  intros G Hx Hy Hne Kx Ky Fx Fy.
  assert (Hw : forall z, z ∈ nodes g -> kind z = NodeKind.IMPLEMENT ->
    z ∈ List.filter (fun n => bool_decide (kind n = NodeKind.IMPLEMENT)) (nodes g)).
  { intros z Hz Kz. apply elem_of_lfilter. split; [done|]. by apply bool_decide_eq_true. }
  destruct (check_writers_ok _ _ x y (go_ownership g G) (Hw x Hx Kx) (Hw y Hy Ky) Hne)
    as [H|H]; apply check_pair_ok in H; try apply (go_nodup g G);
    destruct H as [?|[?|Hd]]; try tauto; exfalso; eapply Hd; eauto.
Qed.

(** * Normalised paths *)

Lemma path_parts_spec text w :
  w ∈ path_parts text -> w <> "" /\ w <> "." /\ free_of "/" w = true.
Proof.
  unfold path_parts. intros [Hin H]%elem_of_lfilter. bool_hyps.
  split_and!; [done|done|by eapply split_free].
Qed.

Lemma path_str_split text :
  path_parts text <> [] -> split "/" (path_str (path_parts text)) = path_parts text.
Proof.
  intros Hne. unfold path_str. destruct (path_parts text) as [|w ws] eqn:E; [done|].
  apply split_join; [done|]. intros v Hv. apply (path_parts_spec text). by rewrite E.
Qed.

Lemma split_not_absolute s : (forall w, w ∈ split "/" s -> w <> "") -> startswith s "/" = false.
Proof.
  intros H. destruct (startswith s "/") eqn:E; [|done]. exfalso.
  destruct s as [|c s]; [done|]. unfold startswith in E. cbn [String.prefix] in E.
  destruct (ascii_dec "/" c) as [<-|]; [|done].
  apply (H ""); [|done]. cbn. set_solver.
Qed.

Lemma norm_path_parts v p :
  norm_path v = Ok p ->
  exists text, text = replace_char "\" "/" (strip v) /\ text <> "" /\
    startswith text "/" = false /\ (".." ∉ path_parts text) /\ p = path_str (path_parts text).
Proof.
  unfold norm_path. intros ([] & H%raise_if_ok & [= <-])%bind_ok. bool_hyps.
  eexists; split_and!; [done|done|done|by apply mem_false|done].
Qed.

(** * Properties *)

(** A path accepted by [_norm_path] stays inside the repository: it is not
    empty and not absolute, and either it is [.] (the root) or its components
    are those of the input without the empty and [.] ones, and none is [..]. *)
Theorem norm_path_safe v p :
  norm_path v = Ok p ->
  p <> "" /\ startswith p "/" = false /\
  (p = "." \/
   split "/" p = path_parts (replace_char "\" "/" (strip v)) /\
   forall w, w ∈ split "/" p -> w <> "" /\ w <> "." /\ w <> "..").
Proof.
  intros (text & -> & _ & _ & Hdd & ->)%norm_path_parts.
  set (text := replace_char _ _ _) in *.
  destruct (path_parts text) as [|w ws] eqn:E; [split_and!; [done|done|by left]|].
  rewrite <- E in *.
  assert (Hs : split "/" (path_str (path_parts text)) = path_parts text)
    by (apply path_str_split; by rewrite E).
  assert (Hw : forall x, x ∈ split "/" (path_str (path_parts text)) ->
    x <> "" /\ x <> "." /\ x <> "..").
  { rewrite Hs. intros x Hx. pose proof (path_parts_spec _ _ Hx) as (? & ? & _).
    split_and!; [done|done|]. by intros ->. }
  split_and!; [|apply split_not_absolute; intros x Hx; by apply Hw|by right].
  intros E0. rewrite E0 in Hw. destruct (Hw ""); [cbn; set_solver|done].
Qed.

(** An accepted work graph always has layers. They partition the nodes, and
    every node is in a strictly later layer than each of its ancestors. *)
Theorem layers_correct goal ns topo why mp g :
  work_graph goal ns topo why mp = Ok g ->
  exists ls, layers (nodes g) = Ok ls /\
    concat ls ≡ₚ map node_id ns /\
    forall k l x y, ls !! k = Some l -> x ∈ l -> tc (dep ns) x y ->
      exists k' l', (k' < k)%nat /\ ls !! k' = Some l' /\ y ∈ l'.
Proof.
  intros [G <-]%work_graph_ok. destruct (go_layers g G) as (ls & Hls).
  exists ls. split_and!; [done|apply layers_perm; [apply G|done]|].
  intros k l x y Hk Hx Ht. eapply layer_ancestor; [apply G|done..].
Qed.

(** For nodes with distinct ids and known dependencies, [layers] returns
    exactly when the dependency relation has no cycle; otherwise it raises the
    cycle error (never anything else). *)
Theorem layers_iff_acyclic ns :
  base.NoDup (map node_id ns) ->
  (forall n d, n ∈ ns -> d ∈ depends_on n -> d ∈ map node_id ns) ->
  ((exists ls, layers ns = Ok ls) <-> Irreflexive (tc (dep ns))) /\
  layers ns <> Err FuelError.
Proof.
  intros Hnd Hk. split; [split|by apply layers_total].
  - intros (ls & H). by eapply layers_ok_acyclic.
  - intros Hirr. unfold layers. apply (layers_loop_acyclic ns).
    + done.
    + rewrite length_map. lia.
    + intros i ds d (n & [= -> ->] & Hn)%list_elem_of_fmap Hd. by exists n.
    + intros i ds d (n & [= -> ->] & Hn)%list_elem_of_fmap Hd. right.
      rewrite map_map. cbn. eauto.
    + by apply acyclic_sn.
Qed.

(** On an accepted graph [ancestors] returns for every node, and returns
    the transitive closure of [depends_on]. *)
Theorem ancestors_correct goal ns topo why mp g id :
  work_graph goal ns topo why mp = Ok g -> id ∈ map node_id ns ->
  exists r, ancestors (nodes g) id = Ok r /\ forall x, x ∈ r <-> tc (dep ns) id x.
Proof.
  intros [G <-]%work_graph_ok Hid.
  destruct (ancestors_total (nodes g) (go_known g G) id Hid) as (r & Hr).
  exists r. split; [done|]. apply ancestors_spec; [apply G|done].
Qed.

(** In an accepted graph two implementing nodes of the same layer, which
    may run at the same time, own no file in common. *)
Theorem same_layer_exclusive goal ns topo why mp g ls k l x y f :
  work_graph goal ns topo why mp = Ok g -> layers (nodes g) = Ok ls ->
  ls !! k = Some l -> node_id x ∈ l -> node_id y ∈ l ->
  x ∈ ns -> y ∈ ns -> x <> y ->
  kind x = NodeKind.IMPLEMENT -> kind y = NodeKind.IMPLEMENT ->
  f ∈ owned_files x -> f ∉ owned_files y.
Proof.
  intros [G <-]%work_graph_ok Hls Hk Hx Hy Nx Ny Hne Kx Ky Fx Fy.
  assert (Hno : forall a b, node_id a ∈ l -> node_id b ∈ l ->
    tc (dep (nodes g)) (node_id a) (node_id b) -> False).
  { intros a b Ha Hb Ht.
    destruct (layer_ancestor _ (go_nodup g G) ls k l _ _ Hls Hk Ha Ht) as (k' & l' & ? & Hk' & Hb').
    enough (k = k') by lia. eapply (concat_index_inj ls); eauto.
    rewrite layers_perm; [|apply G|done]. apply G. }
  destruct (accepted_writers g x y f G Nx Ny Hne Kx Ky Fx Fy); eauto.
Qed.

(** The states a node went through, newest first: it starts [PLANNED] and every
    change passes [check_transition]. *)
Inductive history : list NodeState.t -> Prop :=
| history_start : history [NodeState.PLANNED]
| history_step s s' h :
    history (s :: h) -> check_transition s s' = Ok tt -> history (s' :: s :: h).

Lemma check_transition_ok s s' : check_transition s s' = Ok tt <-> s' ∈ TRANSITIONS s.
Proof.
  unfold check_transition. rewrite raise_if_ok, negb_false_iff. apply bool_decide_eq_true.
Qed.

Lemma history_last s s' h :
  history (s' :: s :: h) -> history (s :: h) /\ s' ∈ TRANSITIONS s.
Proof. inversion 1; subst. split; [done|by apply check_transition_ok]. Qed.

(** A node only reaches [VALIDATED] through a complete attempt: it was
    planned, admitted, dispatched, running and terminally successful, in this
    order and with nothing in between; [VALIDATED] and [BLOCKED] are final. *)
Theorem validated_history s h :
  history (s :: h) ->
  (s = NodeState.VALIDATED -> exists h', h =
     NodeState.TERMINAL_SUCCESS :: NodeState.RUNNING :: NodeState.DISPATCHED
     :: NodeState.ADMITTED :: NodeState.PLANNED :: h') /\
  (s = NodeState.VALIDATED \/ s = NodeState.BLOCKED -> forall s', ~ history (s' :: s :: h)).
Proof.
  intros H. split.
  - intros ->. destruct h as [|s1 h]; [by inversion H|].
    repeat match goal with
    | H : history (?s' :: ?s :: _) |- _ =>
        let Hs := fresh in apply history_last in H as [H Hs];
        destruct s; try (by apply bool_decide_eq_true in Hs || (exfalso; revert Hs; set_solver));
        clear Hs
    | H : history (?s :: ?h) |- _ => destruct h; [by inversion H|]
    end; eauto.
  - intros Hs s' H'. apply history_last in H' as [_ Ht].
    destruct Hs as [->| ->]; by apply not_elem_of_nil in Ht.
Qed.

(** A plan of two implementing nodes and a review that depends on both. *)
Definition sample_args (id kind : string) (deps files : list string) : WorkNodeArgs :=
  {| a_node_id := id; a_objective := "work"; a_kind := kind; a_story := "";
     a_depends_on := deps; a_owned_files := files; a_required_context := [];
     a_acceptance := []; a_verification_command := ["make"]; a_barrier := AStr "";
     a_risk := AStr "low"; a_required_capabilities := ["tools"]; a_coding := true;
     a_reasoning := false; a_min_context_tokens := 32000 |}.

Definition sample_node (id kind : string) (deps files : list string) : WorkNode :=
  match work_node (sample_args id kind deps files) with
  | Ok n => n
  | Err _ => {| node_id := ""; objective := ""; kind := NodeKind.REVIEW; story := "";
                depends_on := []; owned_files := []; required_context := [];
                acceptance := []; verification_command := []; barrier := ""; risk := "";
                required_capabilities := []; coding := false; reasoning := false;
                min_context_tokens := 0 |}
  end.

Definition sample_nodes : list WorkNode :=
  [sample_node "a" "implement" [] ["src/a.py"];
   sample_node "b" "implement" [] ["src/b.py"];
   sample_node "r" "review" ["a"; "b"] []].

Definition sample_graph : WorkGraph :=
  {| goal := "g"; nodes := sample_nodes; topology := Topology.PARALLEL_WORK_UNITS;
     rationale := []; max_parallel := 2 |}.

(** The ownership check compares owned paths only by equality, although an
    owned directory covers everything below it: two writers of one layer, one
    owning [src] and one [src/a.py], are accepted and both own [src/a.py]. *)
Theorem nested_ownership_accepted :
  let x := sample_node "a" "implement" [] ["src"] in
  let y := sample_node "b" "implement" [] ["src/a.py"] in
  (exists g, work_graph "g" [x; y] Topology.PARALLEL_WORK_UNITS [] 2 = Ok g) /\
  layers [x; y] = Ok [["a"; "b"]] /\
  owns x "src/a.py" = true /\ owns y "src/a.py" = true.
Proof. split_and!; try by vm_compute. eexists. vm_compute. reflexivity. Qed.

Lemma norm_path_safe_witness :
  norm_path "./src//a.py" = Ok "src/a.py" /\ "src/a.py" <> "".
Proof.
  assert (H : norm_path "./src//a.py" = Ok "src/a.py") by reflexivity.
  split; [exact H|]. exact (proj1 (norm_path_safe _ _ H)).
Defined.

Lemma sample_graph_ok :
  work_graph "g" sample_nodes Topology.PARALLEL_WORK_UNITS [] 2 = Ok sample_graph.
Proof. vm_compute. reflexivity. Qed.

Lemma layers_correct_witness :
  exists ls, layers sample_nodes = Ok ls /\ concat ls ≡ₚ ["a"; "b"; "r"].
Proof.
  destruct (layers_correct _ _ _ _ _ _ sample_graph_ok) as (ls & H & Hp & _).
  exists ls. split; [exact H|exact Hp].
Defined.

Lemma sample_nodup : base.NoDup (map node_id sample_nodes).
Proof. apply (bool_decide_unpack _). vm_compute. exact I. Qed.

Lemma sample_known n d : n ∈ sample_nodes -> d ∈ depends_on n -> d ∈ map node_id sample_nodes.
Proof.
  assert (Hall : forallb (fun n => subset (depends_on n) (map node_id sample_nodes))
                   sample_nodes = true) by (vm_compute; reflexivity).
  rewrite forallb_forall in Hall. intros Hn Hd. apply list_elem_of_In, Hall in Hn.
  apply subset_spec in Hn. by apply Hn.
Qed.

Lemma layers_iff_acyclic_witness : Irreflexive (tc (dep sample_nodes)).
Proof.
  apply (layers_iff_acyclic sample_nodes sample_nodup sample_known).
  eexists. vm_compute. reflexivity.
Defined.

Lemma ancestors_correct_witness :
  exists r, ancestors sample_nodes "r" = Ok r /\ forall x, x ∈ r <-> tc (dep sample_nodes) "r" x.
Proof.
  apply (ancestors_correct _ _ _ _ _ _ "r" sample_graph_ok).
  apply mem_spec. vm_compute. reflexivity.
Defined.

Lemma same_layer_exclusive_witness :
  "src/a.py" ∉ owned_files (sample_node "b" "implement" [] ["src/b.py"]).
Proof.
  apply (same_layer_exclusive _ _ _ _ _ _ [["a"; "b"]; ["r"]] 0 ["a"; "b"]
           (sample_node "a" "implement" [] ["src/a.py"]) _ _ sample_graph_ok);
    first [reflexivity | apply mem_spec; reflexivity | (unfold sample_nodes; set_solver) | by vm_compute].
Defined.

Lemma validated_history_witness :
  exists h', [NodeState.TERMINAL_SUCCESS; NodeState.RUNNING; NodeState.DISPATCHED;
              NodeState.ADMITTED; NodeState.PLANNED] =
     NodeState.TERMINAL_SUCCESS :: NodeState.RUNNING :: NodeState.DISPATCHED
     :: NodeState.ADMITTED :: NodeState.PLANNED :: h'.
Proof.
  apply (validated_history NodeState.VALIDATED); [|reflexivity].
  repeat constructor.
Defined.
