(* ===== verification/Admission.v ===== *)
(** [verdict/admission.py]: the canonical admitted set of routes. Every
    derivation may only keep or drop routes, and a route launches only when it is
    proven healthy or was confirmed live. *)
From Stdlib Require Import Ascii.
From S2P Require Import Prelude PyStr Contracts.

Module AdmissionStage.
Inductive t :=
| DISCOVERED | ENTITLED | HEALTHY | AVAILABLE | CAPABILITY | POLICY | WORKER_SCOPE
| CONTROLLER_SCOPE | CONTROLLER_EXCLUDED | DOWNSTREAM.
Definition value (s : t) : string :=
  match s with
  | DISCOVERED => "DISCOVERED" | ENTITLED => "ENTITLED" | HEALTHY => "HEALTHY"
  | AVAILABLE => "AVAILABLE" | CAPABILITY => "CAPABILITY" | POLICY => "POLICY"
  | WORKER_SCOPE => "WORKER_SCOPE" | CONTROLLER_SCOPE => "CONTROLLER_SCOPE"
  | CONTROLLER_EXCLUDED => "CONTROLLER_EXCLUDED" | DOWNSTREAM => "DOWNSTREAM"
  end.
End AdmissionStage.

(** [AdmissionBypassError(surface, routes)] *)
Inductive admission_exn := AdmissionBypassError (surface : string) (routes : list string).

Record AdmissionRecord := {
  ar_route_id : string;
  ar_provider : string;
  ar_admitted : bool;
  ar_first_failed_stage : option AdmissionStage.t;
  ar_reason : string;
  ar_source : string;
  ar_observed_at : option string;
  ar_health : string;
  ar_until : option string;
  ar_reset_at : option string;
  ar_confirmation_source : option string;
  ar_confirmed_at : option string
}.

Record AdmittedSet := {
  as_records : list AdmissionRecord;
  as_generated_at : string;
  as_sources : list string;
  as_controller_identity : string;
  as_narrowing : list string;
  as_runtime_consulted : list string
}.

Definition GATEWAY_PREFIX : string := "omniroute/".

(** [canonical_route_id] *)
Definition canonical_route_id (route_id : string) : string :=
  let text := strip route_id in
  if startswith (lower text) GATEWAY_PREFIX then drop_str (String.length GATEWAY_PREFIX) text
  else text.

(** [route_provider_prefix] *)
Definition route_provider_prefix (route_id : string) : string :=
  match partition1 "/" (canonical_route_id route_id) with
  | (prefix, Some _) => lower prefix
  | (_, None) => ""
  end.

(** [AdmittedSet.ids] *)
Definition ids (s : AdmittedSet) : list string :=
  map ar_route_id (List.filter ar_admitted (as_records s)).

(** [route_id in admitted] *)
Definition admits (s : AdmittedSet) (route_id : string) : bool :=
  mem (canonical_route_id route_id) (ids s).

(** [record_for] *)
Definition record_for (s : AdmittedSet) (route_id : string) : option AdmissionRecord :=
  List.find (fun r => String.eqb (ar_route_id r) (canonical_route_id route_id)) (as_records s).

(** [proven_healthy] *)
Definition proven_healthy (s : AdmittedSet) (route_id : string) : bool :=
  match record_for s route_id with
  | Some r => ar_admitted r && String.eqb (ar_health r) "healthy"
  | None => false
  end.

Definition confirmed (r : AdmissionRecord) : bool := bool_decide (is_Some (ar_confirmation_source r)).

(** [launchable] *)
Definition launchable (s : AdmittedSet) (route_id : string) : bool :=
  match record_for s route_id with
  | None => false
  | Some r =>
      if negb (ar_admitted r) then false
      else if String.eqb (ar_reason r) "subscription_unknown" && negb (confirmed r) then false
      else String.eqb (ar_health r) "healthy" || confirmed r
  end.

(** [require_launchable] *)
Definition require_launchable (s : AdmittedSet) (route_id surface : string)
    : result admission_exn unit :=
  raise_if (negb (launchable s route_id))
    (AdmissionBypassError surface [canonical_route_id route_id]).

(** [first_failure] *)
Definition first_failure (s : AdmittedSet) (route_id : string) : AdmissionRecord :=
  match record_for s route_id with
  | Some r => r
  | None => {| ar_route_id := canonical_route_id route_id;
               ar_provider := route_provider_prefix route_id; ar_admitted := false;
               ar_first_failed_stage := Some AdmissionStage.DISCOVERED;
               ar_reason := "absent_from_live_inventory"; ar_source := "admission";
               ar_observed_at := Some (as_generated_at s); ar_health := "unknown";
               ar_until := None; ar_reset_at := None; ar_confirmation_source := None; ar_confirmed_at := None |}
  end.

(** [_derive], with its structural guard *)
Definition derive (s : AdmittedSet) (records : list AdmissionRecord) (step : option string)
    (controller : option string) : result admission_exn AdmittedSet :=
  let after := map ar_route_id (List.filter ar_admitted records) in
  let widened := List.filter (fun r => negb (mem r (ids s))) after in
  _ ← raise_if (negb (bool_decide (widened = [])))
        (AdmissionBypassError "AdmittedSet._derive" (dedupe widened));
  Ok {| as_records := records; as_generated_at := as_generated_at s; as_sources := as_sources s;
        as_controller_identity := default (as_controller_identity s) controller;
        as_narrowing := as_narrowing s ++ match step with Some t => [t] | None => [] end;
        as_runtime_consulted := as_runtime_consulted s |}.

(** [replace(r, admitted=False, first_failed_stage=..., reason=..., source=...)] *)
Definition drop (r : AdmissionRecord) (stage : AdmissionStage.t) (reason source : string)
    : AdmissionRecord :=
  {| ar_route_id := ar_route_id r; ar_provider := ar_provider r; ar_admitted := false;
     ar_first_failed_stage := Some stage; ar_reason := reason;
     ar_source := if String.eqb source "" then ar_source r else source;
     ar_observed_at := ar_observed_at r; ar_health := ar_health r; ar_until := ar_until r; ar_reset_at := ar_reset_at r;
     ar_confirmation_source := ar_confirmation_source r; ar_confirmed_at := ar_confirmed_at r |}.

(** [narrow] *)
Definition narrow (s : AdmittedSet) (stage : AdmissionStage.t) (reason : string)
    (keep : string -> bool) (source : string) : result admission_exn AdmittedSet :=
  derive s (map (fun r => if ar_admitted r && negb (keep (ar_route_id r))
                          then drop r stage reason source else r) (as_records s))
    (Some (AdmissionStage.value stage +:+ ":" +:+ reason)) None.

(** [exclude] *)
Definition exclude (s : AdmittedSet) (routes : list string) (stage : AdmissionStage.t)
    (reason source : string) : result admission_exn AdmittedSet :=
  let dropped := map canonical_route_id (List.filter (fun r => negb (String.eqb r "")) routes) in
  narrow s stage reason (fun rid => negb (mem rid dropped)) source.

(** The prefixes of a scope, each ending at a family boundary unless it names more. *)
Definition scope_prefixes (prefixes : list string) : list string :=
  let cleaned := List.filter (fun p => negb (String.eqb p "")) (map strip prefixes) in
  map (fun c => if contains c "/" then c else c +:+ "/")
    (List.filter (fun c => negb (String.eqb c "")) (map canonical_route_id cleaned)).

(** [restrict_prefixes] and [restrict_controller_scope] *)
Definition restrict_scope (s : AdmittedSet) (prefixes : list string) (stage : AdmissionStage.t)
    (reason source : string) : result admission_exn AdmittedSet :=
  if forallb (fun p => String.eqb (strip p) "") prefixes then Ok s
  else narrow s stage reason
         (fun rid => existsb (startswith rid) (scope_prefixes prefixes)) source.

Definition restrict_prefixes (s : AdmittedSet) (prefixes : list string) :=
  restrict_scope s prefixes AdmissionStage.WORKER_SCOPE "outside_worker_route_prefix" "worker_scope".

Definition restrict_controller_scope (s : AdmittedSet) (prefixes : list string) :=
  restrict_scope s prefixes AdmissionStage.CONTROLLER_SCOPE "outside_controller_route_prefix"
    "controller_scope".

(** [restrict_families] *)
Definition restrict_families (s : AdmittedSet) (families : list string)
    : result admission_exn AdmittedSet :=
  let wanted := List.filter (fun f => negb (String.eqb f "")) (map (fun f => lower (strip f)) families) in
  if bool_decide (wanted = []) then Ok s
  else narrow s AdmissionStage.WORKER_SCOPE "outside_provider_family"
         (fun rid => mem (route_provider_prefix rid) wanted) "worker_scope".

(** [exclude_controller] *)
Definition exclude_controller (s : AdmittedSet) (identity : string)
    : result admission_exn AdmittedSet :=
  if String.eqb (strip identity) ""
  then derive s (as_records s) (Some "CONTROLLER_EXCLUDED:identity_unknown") (Some "unknown")
  else
    let canon := canonical_route_id identity in
    narrowed ← exclude s [canon] AdmissionStage.CONTROLLER_EXCLUDED "active_controller_identity"
                 "controller_identity";
    derive narrowed (as_records narrowed) None
      (if String.eqb canon "" then None else Some canon).

(** [_state_for_category] *)
Definition state_for_category (category : string) : string :=
  let lowered := lower (strip category) in
  if mem lowered ["authentication"; "permission"; "payment_required"; "unauthorized"]
  then "unauthorized"
  else if mem lowered ["quota_exhausted"; "exhausted"; "rate_limited"] then "exhausted"
  else if mem lowered [""; "unknown"; "unprobed"] then "unknown"
  else "unhealthy".

Definition or_else (s d : string) : string := if String.eqb s "" then d else s.

(** The record of the confirmed route after [record_confirmation]. *)
Definition confirm_record (r : AdmissionRecord) (healthy : bool)
    (source observed_at category : string) : AdmissionRecord :=
  if healthy then
    {| ar_route_id := ar_route_id r; ar_provider := ar_provider r; ar_admitted := ar_admitted r;
       ar_first_failed_stage := ar_first_failed_stage r; ar_reason := ar_reason r;
       ar_source := ar_source r; ar_observed_at := ar_observed_at r; ar_health := ar_health r;
       ar_until := ar_until r; ar_reset_at := ar_reset_at r; ar_confirmation_source := Some source;
       ar_confirmed_at := Some observed_at |}
  else
    {| ar_route_id := ar_route_id r; ar_provider := ar_provider r; ar_admitted := false;
       ar_first_failed_stage := Some AdmissionStage.HEALTHY;
       ar_reason := or_else category "confirmation_failed"; ar_source := source;
       ar_observed_at := Some observed_at;
       ar_health := state_for_category (or_else category "unhealthy"); ar_until := ar_until r; ar_reset_at := ar_reset_at r;
       ar_confirmation_source := ar_confirmation_source r; ar_confirmed_at := ar_confirmed_at r |}.

(** [record_confirmation] *)
Definition record_confirmation (s : AdmittedSet) (route_id : string) (healthy : bool)
    (source observed_at category : string) : result admission_exn AdmittedSet :=
  let key := canonical_route_id route_id in
  let outcome := if healthy then "confirmed" else "failed:" +:+ or_else category "unhealthy" in
  derive s (map (fun r => if negb (String.eqb (ar_route_id r) key) || negb (ar_admitted r) then r
                          else confirm_record r healthy source observed_at category) (as_records s))
    (Some ("CONFIRMATION:" +:+ key +:+ ":" +:+ outcome +:+ "@" +:+ source)) None.

(** * Derivations *)

(** The operations that derive an admitted set from another. *)
Inductive admission_op :=
| ANarrow (stage : AdmissionStage.t) (reason : string) (keep : string -> bool) (source : string)
| AExclude (routes : list string) (stage : AdmissionStage.t) (reason source : string)
| APrefixes (prefixes : list string)
| AControllerScope (prefixes : list string)
| AFamilies (families : list string)
| AController (identity : string)
| AConfirm (route_id : string) (healthy : bool) (source observed_at category : string).

Definition admission_exec (s : AdmittedSet) (op : admission_op) : result admission_exn AdmittedSet :=
  match op with
  | ANarrow stage reason keep source => narrow s stage reason keep source
  | AExclude routes stage reason source => exclude s routes stage reason source
  | APrefixes prefixes => restrict_prefixes s prefixes
  | AControllerScope prefixes => restrict_controller_scope s prefixes
  | AFamilies families => restrict_families s families
  | AController identity => exclude_controller s identity
  | AConfirm route_id healthy source at_ category =>
      record_confirmation s route_id healthy source at_ category
  end.

Lemma elem_ids s x : x ∈ ids s <-> exists r, r ∈ as_records s /\ ar_admitted r = true /\ ar_route_id r = x.
Proof.
  unfold ids. rewrite list_elem_of_fmap. setoid_rewrite elem_of_lfilter. naive_solver.
Qed.

(** A change of the records one by one that never admits a route. *)
Definition only_drops (f : AdmissionRecord -> AdmissionRecord) : Prop :=
  forall r, ar_route_id (f r) = ar_route_id r /\ (ar_admitted (f r) = true -> ar_admitted r = true).

Lemma derive_map s f step controller :
  only_drops f -> exists s', derive s (map f (as_records s)) step controller = Ok s' /\
    as_records s' = map f (as_records s) /\ ids s' ⊆ ids s.
Proof.
  intros Hf. unfold derive.
  assert (Hin : forall x, x ∈ map ar_route_id (List.filter ar_admitted (map f (as_records s))) ->
    x ∈ ids s).
  { intros x (r & -> & Hr)%list_elem_of_fmap. apply elem_of_lfilter in Hr as [Hr Ha].
    apply list_elem_of_fmap in Hr as (r0 & -> & Hr0). apply elem_ids. exists r0.
    destruct (Hf r0) as [E1 E2]. split_and!; [done|by apply E2|done]. }
  assert (Hw : List.filter (fun r => negb (mem r (ids s)))
    (map ar_route_id (List.filter ar_admitted (map f (as_records s)))) = []).
  { destruct (List.filter _ (map ar_route_id _)) as [|x l] eqn:E; [done|].
    assert (x ∈ x :: l) as Hx by left. rewrite <- E in Hx.
    apply elem_of_lfilter in Hx as [Hx Hn]. apply Hin, mem_spec in Hx. by rewrite Hx in Hn. }
  rewrite Hw. cbn. eexists. split_and!; [done|done|]. intros x Hx. apply Hin. exact Hx.
Qed.

Lemma only_drops_id : only_drops (fun r => r).
Proof. intros r. tauto. Qed.

Lemma narrow_drops stage reason keep source :
  only_drops (fun r => if ar_admitted r && negb (keep (ar_route_id r))
                       then drop r stage reason source else r).
Proof. intros r. case_match; cbn; naive_solver. Qed.

Lemma confirm_drops key healthy source at_ category :
  only_drops (fun r => if negb (String.eqb (ar_route_id r) key) || negb (ar_admitted r) then r
                       else confirm_record r healthy source at_ category).
Proof. intros r. case_match; [tauto|]. destruct healthy; cbn; naive_solver. Qed.

Lemma narrow_ok s stage reason keep source :
  exists s', narrow s stage reason keep source = Ok s' /\ ids s' ⊆ ids s.
Proof.
  destruct (derive_map s _ (Some (AdmissionStage.value stage +:+ ":" +:+ reason)) None
              (narrow_drops stage reason keep source)) as (s' & H & _ & Hs). eauto.
Qed.

Lemma derive_same s step controller :
  exists s', derive s (as_records s) step controller = Ok s' /\ ids s' ⊆ ids s.
Proof.
  destruct (derive_map s _ step controller only_drops_id) as (s' & H & _ & Hs).
  rewrite map_id in H. eauto.
Qed.

(** * Properties *)

(** The admitted set can only be narrowed. Every derivation, a live
    confirmation included, succeeds, and admits no route that was not admitted. *)
Theorem admission_narrows s op :
  exists s', admission_exec s op = Ok s' /\ ids s' ⊆ ids s.
Proof.
  destruct op; cbn; try apply narrow_ok; unfold restrict_prefixes, restrict_controller_scope,
    restrict_scope, restrict_families, exclude_controller;
    try (case_match; [eauto|apply narrow_ok]).
  - case_match; [apply derive_same|].
    destruct (narrow_ok s AdmissionStage.CONTROLLER_EXCLUDED "active_controller_identity"
      (fun rid => negb (mem rid (map canonical_route_id
         (List.filter (fun r => negb (String.eqb r "")) [canonical_route_id identity]))))
      "controller_identity") as (s1 & H1 & S1).
    unfold exclude. rewrite H1. cbn.
    destruct (derive_same s1 None
      (if String.eqb (canonical_route_id identity) "" then None
       else Some (canonical_route_id identity))) as (s2 & H2 & S2).
    exists s2. split; [exact H2|]. by etransitivity.
  - unfold record_confirmation.
    destruct (derive_map s _ (Some ("CONFIRMATION:" +:+ canonical_route_id route_id +:+ ":"
      +:+ (if healthy then "confirmed" else "failed:" +:+ or_else category "unhealthy")
      +:+ "@" +:+ source)) None
      (confirm_drops (canonical_route_id route_id) healthy source observed_at category))
      as (s' & H & _ & Hs). eauto.
Qed.

Lemma find_map {A} (p : A -> bool) (f : A -> A) l :
  (forall x, p (f x) = p x) -> List.find p (map f l) = f <$> List.find p l.
Proof.
  intros Hp. induction l as [|x l IH]; cbn; [done|]. rewrite Hp. by destruct (p x).
Qed.

Lemma launchable_admits s route_id : launchable s route_id = true -> admits s route_id = true.
Proof.
  unfold launchable, admits. destruct (record_for s route_id) as [r|] eqn:E; [|done].
  unfold record_for in E. apply find_some in E as [Hin Hk%String.eqb_eq].
  destruct (ar_admitted r) eqn:Ha; [|done]. intros _. apply mem_spec, elem_ids.
  exists r. rewrite list_elem_of_In. done.
Qed.

(** A confirmation always succeeds, and maps the record of every route. *)
Lemma confirmation_records s route_id healthy source at_ category :
  exists s', record_confirmation s route_id healthy source at_ category = Ok s' /\
    let f r := if negb (String.eqb (ar_route_id r) (canonical_route_id route_id))
                  || negb (ar_admitted r) then r
               else confirm_record r healthy source at_ category in
    as_records s' = map f (as_records s) /\ forall x, record_for s' x = f <$> record_for s x.
Proof.
  cbv zeta. unfold record_confirmation.
  edestruct derive_map as (s' & H & Hrec & _); [apply confirm_drops|].
  exists s'. split; [exact H|]. split; [exact Hrec|]. intros x.
  unfold record_for. rewrite Hrec. apply find_map. intros r.
  destruct (confirm_drops (canonical_route_id route_id) healthy source at_ category r) as [-> _]. done.
Qed.

(** The record that decides about a route admits it. *)
Definition admitted_record (s : AdmittedSet) (route_id : string) : bool :=
  match record_for s route_id with Some r => ar_admitted r | None => false end.

Lemma admitted_record_iff s route_id :
  base.NoDup (map ar_route_id (as_records s)) ->
  admits s route_id = admitted_record s route_id.
Proof.
  intros Hnd. unfold admits, admitted_record. apply eq_bool_prop_intro.
  rewrite !Is_true_true, mem_spec, elem_ids. unfold record_for. set (key := canonical_route_id route_id).
  clearbody key. induction (as_records s) as [|r l IH]; cbn.
  { split; [by intros (? & []%not_elem_of_nil & _)|done]. }
  apply NoDup_cons in Hnd as [Hr Hnd]. specialize (IH Hnd). setoid_rewrite elem_of_cons.
  destruct (String.eqb_spec (ar_route_id r) key) as [<-|Hne]; [|rewrite <- IH; naive_solver].
  split; [|by eauto]. intros (r' & [->|Hin] & ? & E); [done|]. destruct Hr.
  rewrite <- E. apply list_elem_of_fmap. eauto.
Qed.

Lemma confirmation_launch s route_id healthy source at_ category s' :
  record_confirmation s route_id healthy source at_ category = Ok s' ->
  launchable s' route_id = healthy && admitted_record s route_id.
Proof.
  destruct (confirmation_records s route_id healthy source at_ category) as (s0 & H0 & _ & Hfor).
  rewrite H0. intros [= <-].
  unfold launchable, admitted_record. rewrite Hfor.
  destruct (record_for s route_id) as [r|] eqn:E; cbn; [|by destruct healthy].
  unfold record_for in E. apply find_some in E as [_ Hk]. rewrite Hk.
  destruct (ar_admitted r) eqn:Ha; cbn; rewrite ?Ha; cbn; [|by destruct healthy].
  destruct healthy; cbn; [|done]. unfold confirmed. cbn. rewrite Ha. cbn.
  by rewrite andb_false_r, orb_true_r.
Qed.

Lemma confirmation_other s route_id healthy source at_ category s' other :
  record_confirmation s route_id healthy source at_ category = Ok s' ->
  canonical_route_id other <> canonical_route_id route_id ->
  record_for s' other = record_for s other.
Proof.
  destruct (confirmation_records s route_id healthy source at_ category) as (s0 & H0 & _ & Hfor).
  rewrite H0. intros [= <-] Hne. rewrite Hfor.
  destruct (record_for s other) as [r|] eqn:E; cbn; [|done]. f_equal.
  unfold record_for in E. apply find_some in E as [_ ->%String.eqb_eq].
  apply String.eqb_neq in Hne. by rewrite Hne.
Qed.

(** The launch gate. A launchable route is admitted; a successful live
    confirmation makes the route launchable exactly when it was admitted (unknown
    subscription headroom included); a failed one removes it from the set, and it
    is not launchable. Other routes keep their launchability. *)
Theorem confirmation_gates s route_id healthy source at_ category s' :
  record_confirmation s route_id healthy source at_ category = Ok s' ->
  launchable s' route_id = healthy && admitted_record s route_id /\
  (launchable s' route_id = true -> admits s' route_id = true) /\
  (healthy = false -> admits s' route_id = false) /\
  (forall other, canonical_route_id other <> canonical_route_id route_id ->
     launchable s' other = launchable s other).
Proof.
  intros H. split_and!.
  - by eapply confirmation_launch.
  - apply launchable_admits.
  - intros ->. destruct (confirmation_records s route_id false source at_ category)
      as (s0 & H0 & Hrec & _). rewrite H0 in H. injection H as <-.
    apply mem_false. rewrite elem_ids. intros (r & Hr & Ha & Hk). rewrite Hrec in Hr.
    apply list_elem_of_fmap in Hr as (r0 & -> & _). revert Ha Hk.
    destruct (String.eqb_spec (ar_route_id r0) (canonical_route_id route_id)); cbn; [|done].
    destruct (ar_admitted r0) eqn:E; cbn; congruence.
  - intros other Hne. unfold launchable. by rewrite (confirmation_other _ _ _ _ _ _ _ _ H Hne).
Qed.

Definition sample_set : AdmittedSet :=
  {| as_records := [{| ar_route_id := "cc/x"; ar_provider := "cc"; ar_admitted := true;
       ar_first_failed_stage := None; ar_reason := "subscription_unknown"; ar_source := "inventory";
       ar_observed_at := None; ar_health := "unknown"; ar_until := None; ar_reset_at := None;
       ar_confirmation_source := None; ar_confirmed_at := None |}];
     as_generated_at := ""; as_sources := []; as_controller_identity := "unknown";
     as_narrowing := []; as_runtime_consulted := [] |}.

Lemma confirmation_gates_witness :
  exists s', record_confirmation sample_set "omniroute/cc/x" true "probe" "" "" = Ok s' /\
    launchable sample_set "cc/x" = false /\ launchable s' "omniroute/cc/x" = true.
Proof.
  eexists. split; [vm_compute; reflexivity|]. split; [reflexivity|].
  erewrite (proj1 (confirmation_gates sample_set "omniroute/cc/x" true "probe" "" "" _ _)).
  reflexivity.
  Unshelve. reflexivity.
Defined.
