(* ===== verification/Providers.v ===== *)
(** Provider and credential-pool identity, and the capacity class of a route:
    [verdict/orchestration/provider_catalog.py],
    [verdict/orchestration/credential_pools.py] and [verdict/capacity.py]. *)
From Stdlib Require Import Ascii Lqa.
From S2P Require Import Prelude PyStr Regex Time PyNum Contracts.

(** The part of a route id before the first slash, in lower case. *)
Definition route_prefix (route_id : string) : string := lower (split1_head "/" route_id).

(** * Backend pools *)

Definition OWNED_BY_ALIASES : list (string * string) :=
  [("devin-cli-agentic", "devin-cli"); ("auggie", "auggie"); ("codex-app-server", "codex");
   ("cloudflare-playground", "cloudflare-playground"); ("duckduckgo-web", "duckduckgo-web");
   ("felo-web", "felo-web"); ("uncloseai", "uncloseai"); ("veoaifree-web", "veoaifree-web");
   ("chipotle", "chipotle")].

Definition POOL_BY_PREFIX : list (string * string) :=
  [("agy", "google-antigravity"); ("antigravity", "google-antigravity")].

Definition FREE_SUFFIX_POOL : list (string * string) :=
  [("kc", "openrouter-free"); ("kilocode", "openrouter-free"); ("openrouter", "openrouter-free")].

Definition has_free_suffix (route_id : string) : bool := endswith route_id ":free".

Definition backend_pool (route_id : string) : string :=
  let prefix := route_prefix route_id in
  match (if has_free_suffix route_id then dict_get prefix FREE_SUFFIX_POOL else None) with
  | Some pool => pool
  | None => default prefix (dict_get prefix POOL_BY_PREFIX)
  end.

Definition resolve_provider (owned_by : string) : string :=
  default (lower owned_by) (dict_get (lower owned_by) OWNED_BY_ALIASES).

Definition routes_share_pool (a b : string) : bool :=
  String.eqb (backend_pool a) (backend_pool b).

Definition pool_aware_families (routes : list string) : list string :=
  dedupe (map backend_pool routes).

Definition ALIASED_POOLS : list string :=
  dedupe (map snd POOL_BY_PREFIX ++ map snd FREE_SUFFIX_POOL).

Definition aliased_pools_for (routes : list string) : list string :=
  List.filter (fun p => mem p ALIASED_POOLS) (pool_aware_families routes).

(** * Credential pools *)

Definition ALIAS_FAMILIES : list (string * string) :=
  [("agy", "antigravity"); ("antigravity", "antigravity"); ("af", "api-airforce");
   ("api-airforce", "api-airforce"); ("ollama-cloud", "ollama-cloud");
   ("ollamacloud", "ollama-cloud"); ("bm", "bluesminds"); ("bluesminds", "bluesminds");
   ("kc", "kilocode"); ("kilocode", "kilocode"); ("gh", "github"); ("github", "github");
   ("cc", "claude"); ("claude", "claude"); ("cx", "codex"); ("codex", "codex");
   ("oc", "opencode"); ("opencode", "opencode"); ("zm", "zenmux"); ("zenmux", "zenmux");
   ("cu", "cursor"); ("cursor", "cursor"); ("cua", "cursor-api"); ("cursor-api", "cursor-api");
   ("dva", "devin-cli")].

(** [pool_of], with one step of fuel for each [no-think/] wrapper. *)
Fixpoint pool_of_fuel (fuel : nat) (route_id : string) : string :=
  let prefix := route_prefix route_id in
  match fuel, partition1 "/" route_id with
  | S fuel, (_, Some rest) =>
      if String.eqb prefix "no-think" then pool_of_fuel fuel rest
      else if negb (String.eqb (backend_pool route_id) prefix) then backend_pool route_id
      else default prefix (dict_get prefix ALIAS_FAMILIES)
  | _, _ =>
      if negb (String.eqb (backend_pool route_id) prefix) then backend_pool route_id
      else default prefix (dict_get prefix ALIAS_FAMILIES)
  end.

(** Every wrapper takes at least one character, so the length is enough fuel. *)
Definition pool_of (route_id : string) : string := pool_of_fuel (String.length route_id) route_id.

(** [backend_model] *)
Definition backend_model (route_id : string) : string * string :=
  let inner := if startswith (lower route_id) "no-think/" then split1_last "/" route_id
               else route_id in
  (pool_of inner, lower (split1_last "/" inner)).

(** [canonical_route] *)
Definition canonical_route (route_id : string) : string :=
  let '(prefix, rest) := partition1 "/" route_id in
  let canonical := default (lower prefix) (dict_get (lower prefix) ALIAS_FAMILIES) in
  match rest with
  | None => canonical
  | Some rest => canonical +:+ "/" +:+ rest
  end.

(** [base_route]; the text before a match of [p] at the end of [route_id] *)
Definition strip_match (p : re) (route_id : string) : option string :=
  (fix scan (n : nat) (prev : option ascii) (s : string) : option string :=
     match match_at false p prev s with
     | Some _ => Some (take_str (String.length route_id - String.length s) route_id)
     | None => match n, s with
               | S n, String c s' => scan n (Some c) s'
               | _, _ => None
               end
     end) (String.length route_id) None route_id.

Definition base_route (route_id : string) (known : list string) : string :=
  let try p := match strip_match p route_id with
               | Some c => if mem c known then Some c else None
               | None => None
               end in
  match try (rx "-thinking-(?:low|medium|high|xhigh|max)$") with
  | Some c => c
  | None => default route_id (try (rx "-(?:low|medium|high|xhigh|max)$"))
  end.

Definition POOL_COOLDOWN_CATEGORIES : list string :=
  ["quota_exhausted"; "rate_limited"; "payment_required"; "permission"; "authentication"].

(** * Probing one route per alias group *)

(** [groups.setdefault(canonical_route(r), []).append(r)] *)
Definition members_of (canon : string) (routes : list string) : list string :=
  List.filter (fun r => String.eqb (canonical_route r) canon) routes.

(** The route kept for a group: the canonical one if it is there, else the first. *)
Definition representative (canon : string) (members : list string) : string :=
  match List.find (String.eqb canon) members with
  | Some m => m
  | None => hd "" members
  end.

Fixpoint collapse_loop (all routes decided : list string) (inherited : list (string * string))
    : list string * list (string * string) :=
  match routes with
  | [] => ([], inherited)
  | r :: routes =>
      let canon := canonical_route r in
      if mem canon decided then collapse_loop all routes decided inherited
      else
        let members := members_of canon all in
        let probed := match members with [m] => m | _ => representative canon members end in
        let inherited' := match members with
          | [_] => inherited
          | _ => foldl (fun acc m => if String.eqb m probed then acc else dict_set m probed acc)
                   inherited members
          end in
        let '(kept, inh) := collapse_loop all routes (canon :: decided) inherited' in
        (probed :: kept, inh)
  end.

(** [collapse_alias_duplicates] *)
Definition collapse_alias_duplicates (routes : list string)
    : list string * list (string * string) := collapse_loop routes routes [] [].

(** * Capacity class *)

(** A connection row of the gateway, with the fields the sources read. *)
Record Connection := {
  conn_provider : string;
  conn_active : bool;
  conn_auth_type : string;
  conn_plan_label : string;
  conn_importFreeModelsOnly : bool;
  conn_import_free_only : bool;
  conn_specific : option (bool * string * string);  (* importFreeModelsOnly, tier, plan *)
  conn_quota_models : list (string * Q);
  conn_quota_percent : option Q;
  conn_rate_limited_until : list (string * string);
  conn_quota_reset_at : string
}.

(** An inventory row; [row_pricing] holds the numeric prices of a pricing map,
    [row_caps] the truth value of each capability of a capability map. *)
Record Row := {
  row_owned_by : string;
  row_type : string;
  row_caps : option (list (string * bool));
  row_max_input_tokens : option Z;
  row_context_length : option Z;
  row_capability_tier : option Z;
  row_pricing : option (list (string * Q))
}.

(** [connection_signals_free] *)
Definition connection_signals_free (c : Connection) : option string :=
  if conn_importFreeModelsOnly c then Some "importFreeModelsOnly"
  else if conn_import_free_only c then Some "import_free_only"
  else
    let nested := match conn_specific c with
      | None => None
      | Some (free, tier, plan) =>
          if free then Some "importFreeModelsOnly"
          else if contains (lower tier) "free" then Some "providerSpecificData.tier"
          else if contains (lower plan) "free" then Some "providerSpecificData.plan"
          else None
      end in
    match nested with
    | Some rule => Some rule
    | None => if contains (lower (conn_plan_label c)) "free" then Some "plan_label" else None
    end.

Definition OPAQUE_ROUTE_PREFIXES : list string := ["auto/"; "combo/"; "router/"; "virtual/"].
Definition OPAQUE_ROUTE_IDS : list string := ["auto"; "combo"; "default"; "router"; "virtual"].

(** [availability.is_opaque_route_id] *)
Definition is_opaque_route_id (model_id : string) : bool :=
  let normalized := lower (strip model_id) in
  existsb (startswith normalized) OPAQUE_ROUTE_PREFIXES || mem normalized OPAQUE_ROUTE_IDS
  || let leaf := split1_head ":" (split_last "/" normalized) in
     mem leaf OPAQUE_ROUTE_IDS
     || existsb (fun alias => startswith leaf (alias +:+ "-")) OPAQUE_ROUTE_IDS.

(** [openrouter_free_set._bare_id] *)
Definition bare_id (route : string) : string :=
  let value := strip route in
  match List.find (startswith (lower value)) ["openrouter/"; "kc/"; "kilocode/"] with
  | Some prefix => drop_str (String.length prefix) value
  | None => value
  end.

Definition is_openrouter_catalog_route (route_id : string) : bool :=
  String.eqb (route_prefix route_id) "openrouter".

(** [openrouter_route_is_public_free]; the free set is its [free_ids]. *)
Definition openrouter_route_is_public_free (route_id : string) (free_set : option (list string))
    : bool :=
  match free_set with
  | None => false
  | Some ids =>
      is_openrouter_catalog_route route_id
      && negb (mem (lower (bare_id route_id)) ["free"; "openrouter/free"]
               || is_opaque_route_id route_id)
      && mem (bare_id (bare_id route_id)) ids
  end.

Definition CAPACITY_ORDER (c : CapacityClass.t) : Z :=
  match c with
  | CapacityClass.FREE => 0 | CapacityClass.SUBSCRIPTION => 1
  | CapacityClass.METERED => 2 | CapacityClass.UNKNOWN => 3
  end.

(** [classify_route_capacity]: the class and the evidence that decided it. *)
Definition classify_route_capacity (conn : option Connection) (row : Row) (route_id : string)
    (free_set : option (list string)) : CapacityClass.t * string :=
  match conn with
  | None => (CapacityClass.UNKNOWN, "no_connection")
  | Some c =>
      let openrouter := negb (String.eqb route_id "") && is_openrouter_catalog_route route_id in
      let auth := lower (strip (conn_auth_type c)) in
      let provider := lower (conn_provider c) in
      if openrouter && openrouter_route_is_public_free route_id free_set
      then (CapacityClass.FREE, "openrouter_public_zero")
      else if openrouter || String.eqb provider "openrouter"
      then (CapacityClass.METERED, "openrouter_not_in_public_free_set")
      else if String.eqb provider "anthropic" && String.eqb auth "apikey"
      then (CapacityClass.METERED, "anthropic_apikey")
      else if has_free_suffix route_id then (CapacityClass.FREE, "free_suffix")
      else match connection_signals_free c with
           | Some signal => (CapacityClass.FREE, signal)
           | None =>
               if String.eqb auth "oauth" then (CapacityClass.SUBSCRIPTION, "oauth_subscription")
               else
                 let prices := map snd (default [] (row_pricing row)) in
                 if negb (bool_decide (prices = [])) && forallb (fun p => Qeq_bool p 0) prices
                 then (CapacityClass.FREE, "all_zero_pricing")
                 else if existsb (Qltb 0) prices
                 then (CapacityClass.METERED, "apikey_positive_pricing")
                 else (CapacityClass.FREE, "assumed_free_no_paid_evidence")
           end
  end.

(** * Evidence that a route is gone or not free *)

Definition CATALOG_STALE_COOLDOWN_SECONDS : Q := 21600.

Definition is_catalog_stale_error (msg : string) : bool :=
  existsb (contains (lower msg)) ["not available in the active live catalog"].

Definition is_not_free_signal (category : string) (status_code : option Z) (msg : string) : bool :=
  mem category ["payment_required"; "insufficient_credits"]
  || bool_decide (status_code = Some 402)
  || existsb (contains (lower msg))
       ["insufficient credits"; "payment required"; "deposit required"; "purchase more credits";
        "credits exhausted"].

Record NotFree := { nf_until : string; nf_reason : string; nf_pool : option string }.

(** [record_not_free_override] on the [not_free_overrides] table *)
Definition record_not_free_override (t : gmap string NotFree) (route_id pool until reason : string)
    : gmap string NotFree :=
  let t := <["route:" +:+ route_id := {| nf_until := until; nf_reason := reason;
                                         nf_pool := Some pool |}]> t in
  let key := "pool:" +:+ pool in
  let extend := match t !! key with
                | None => true
                | Some e => str_ltb (nf_until e) until
                end in
  if extend then <[key := {| nf_until := until; nf_reason := reason; nf_pool := None |}]> t else t.

(** [is_not_free_overridden]: the reason, when there is a live override. *)
Definition is_not_free_overridden (t : gmap string NotFree) (route_id pool now : string)
    : option string :=
  let live key := e ← t !! key; if str_ltb now (nf_until e) then Some (nf_reason e) else None in
  match live ("route:" +:+ route_id) with
  | Some reason => Some reason
  | None => live ("pool:" +:+ pool)
  end.

(** [is_non_chat_route] *)
Definition is_non_chat_route (route_id : string) (row : option Row) : bool :=
  let by_id := matches true (rx ("(embed|rerank|bge-|e5-|gte-|tts|whisper|transcri|speech|audio-|moderation|"
     +:+ "dall-e|imagen|image-gen|flux|stable-diffusion|sdxl|midjourney|ocr|clip-)")) route_id in
  match row with
  | None => by_id
  | Some r =>
      let ty := lower (row_type r) in
      let cap k := default false (caps ← row_caps r; dict_get k caps) in
      if String.eqb ty "chat" || cap "chat" || cap "tool_calling" then false
      else if negb (String.eqb ty "") then mem ty ["embedding"; "image"; "audio"; "rerank"; "tts"]
      else match row_caps r with
           | Some (_ :: _) => cap "embedding" || cap "rerank" || cap "tts"
           | _ => by_id
           end
  end.

(** * Lemmas *)

Lemma partition1_rest c s a rest :
  partition1 c s = (a, Some rest) -> (String.length rest < String.length s)%nat.
Proof.
  revert a; induction s as [|d s IH]; intros a; cbn; [done|].
  destruct (Ascii.eqb d c); [intros [= _ ->]; lia|].
  destruct (partition1 c s) as [a' b'] eqn:E. intros [= _ ->]. specialize (IH a' eq_refl). lia.
Qed.

Lemma pool_of_fuel_enough fuel fuel' route_id :
  (String.length route_id <= fuel)%nat -> (String.length route_id <= fuel')%nat ->
  pool_of_fuel fuel route_id = pool_of_fuel fuel' route_id.
Proof.
  revert fuel' route_id; induction fuel as [|fuel IH]; intros [|fuel'] route_id H H'; cbn [pool_of_fuel];
    destruct (partition1 "/" route_id) as [a [rest|]] eqn:E; try done;
    apply partition1_rest in E; try lia.
  destruct (String.eqb _ _); [|done]. apply IH; lia.
Qed.

Lemma elem_members canon routes r :
  r ∈ members_of canon routes <-> r ∈ routes /\ canonical_route r = canon.
Proof. unfold members_of. rewrite elem_of_lfilter. by rewrite String.eqb_eq. Qed.

Lemma representative_elem canon members : members <> [] -> representative canon members ∈ members.
Proof.
  intros Hne. unfold representative. destruct (List.find _ members) as [m|] eqn:E.
  - apply find_some in E as [H _]. by apply list_elem_of_In.
  - destruct members; [done|]. cbn. set_solver.
Qed.

(** The route kept for the group of [canon] among [all]. *)
Definition kept_of (all : list string) (canon : string) : string :=
  match members_of canon all with
  | [m] => m
  | members => representative canon members
  end.

Lemma kept_of_elem all canon r :
  r ∈ all -> canonical_route r = canon ->
  kept_of all canon ∈ all /\ canonical_route (kept_of all canon) = canon.
Proof.
  intros Hr Hc. rewrite <- elem_members. unfold kept_of.
  assert (Hm : r ∈ members_of canon all) by (by apply elem_members).
  destruct (members_of canon all) as [|m [|m' ms]]; [by apply not_elem_of_nil in Hm|set_solver|].
  by apply representative_elem.
Qed.

Lemma dict_fold_inherit (probed : string) members acc k :
  dict_get k (foldl (fun acc m => if String.eqb m probed then acc else dict_set m probed acc)
                acc members) =
  if mem k members && negb (String.eqb k probed) then Some probed else dict_get k acc.
Proof.
  revert acc; induction members as [|m ms IH]; intros acc; cbn; [done|].
  rewrite IH, mem_cons. destruct (mem k ms) eqn:Em; cbn.
  - rewrite orb_true_r. destruct (String.eqb k probed) eqn:Ek; cbn; [|done].
    destruct (String.eqb_spec m probed) as [->|Hne]; [done|].
    apply String.eqb_eq in Ek as ->. apply dict_get_set_ne. congruence.
  - rewrite orb_false_r. destruct (String.eqb_spec k m) as [->|Hkm]; cbn.
    + destruct (String.eqb_spec m probed); cbn; [done|]. apply dict_get_set.
    + destruct (String.eqb m probed); [done|]. by apply dict_get_set_ne.
Qed.

Lemma collapse_loop_cons all r routes decided inherited :
  r ∈ all ->
  collapse_loop all (r :: routes) decided inherited =
  let canon := canonical_route r in
  if mem canon decided then collapse_loop all routes decided inherited
  else
    let probed := kept_of all canon in
    let '(kept, inh) := collapse_loop all routes (canon :: decided)
      (foldl (fun acc m => if String.eqb m probed then acc else dict_set m probed acc)
         inherited (members_of canon all)) in
    (probed :: kept, inh).
Proof.
  intros Hr. cbn [collapse_loop]. cbv zeta. destruct (mem _ decided); [done|].
  unfold kept_of.
  assert (Hm : r ∈ members_of (canonical_route r) all) by (by apply elem_members).
  destruct (members_of (canonical_route r) all) as [|m [|m' ms]]; [by apply not_elem_of_nil in Hm| |done].
  cbn [foldl]. by rewrite String.eqb_refl.
Qed.

Lemma collapse_loop_spec all routes decided inherited kept inh :
  routes ⊆ all -> collapse_loop all routes decided inherited = (kept, inh) ->
  base.NoDup (map canonical_route kept) /\
  (forall c, c ∈ map canonical_route kept <->
     (c ∉ decided) /\ exists r, r ∈ routes /\ canonical_route r = c) /\
  (forall k, k ∈ kept -> k ∈ all /\ k = kept_of all (canonical_route k)) /\
  (forall r, dict_get r inh =
     if mem (canonical_route r) (map canonical_route kept)
        && (mem r all && negb (String.eqb r (kept_of all (canonical_route r))))
     then Some (kept_of all (canonical_route r)) else dict_get r inherited).
Proof.
  revert decided inherited kept inh; induction routes as [|r routes IH];
    intros decided inherited kept inh Hsub.
  - cbn. intros [= <- <-]. split_and!; cbn; [constructor|set_solver|set_solver|done].
  - assert (Hr : r ∈ all) by set_solver. rewrite collapse_loop_cons by done. cbv zeta.
    destruct (mem (canonical_route r) decided) eqn:Ed.
    + apply mem_spec in Ed. intros H. apply IH in H as (H1 & H2 & H3 & H4); [|set_solver].
      split_and!; try done. intros c. rewrite H2. setoid_rewrite elem_of_cons. naive_solver.
    + apply mem_false in Ed. destruct (collapse_loop all routes _ _) as [kept' inh'] eqn:E.
      intros [= <- <-]. apply IH in E as (H1 & H2 & H3 & H4); [|set_solver].
      destruct (kept_of_elem all _ r Hr eq_refl) as [Ha Hc].
      split_and!.
      * cbn. rewrite Hc. constructor; [|done]. rewrite H2. intros [Hnd _]. apply Hnd. left.
      * intros c. cbn. rewrite Hc, elem_of_cons, H2, not_elem_of_cons. setoid_rewrite elem_of_cons.
        destruct (decide (c = canonical_route r)) as [->|]; naive_solver.
      * intros k [->|Hk]%elem_of_cons; [|auto]. by rewrite Hc.
      * intros x. rewrite H4, dict_fold_inherit. cbn [map]. rewrite mem_cons, Hc.
        destruct (String.eqb_spec (canonical_route x) (canonical_route r)) as [Ex|Hx].
        { assert (Hnk : mem (canonical_route x) (map canonical_route kept') = false).
          { apply mem_false. rewrite H2, Ex. intros [Hnd _]. apply Hnd. left. }
          rewrite Hnk, Ex. cbn.
          replace (mem x (members_of (canonical_route r) all)) with (mem x all); [done|].
          apply eq_bool_prop_intro. rewrite !Is_true_true, !mem_spec, elem_members. tauto. }
        assert (Hnm : mem x (members_of (canonical_route r) all) = false).
        { apply mem_false. rewrite elem_members. tauto. }
        by rewrite Hnm.
Qed.

(** * Properties *)

(** Collapsing alias duplicates loses no route and probes each model once.
    The kept routes are given ones with pairwise distinct canonical ids, the
    canonical spelling is kept where it is present, and every other route is
    recorded as inheriting from the kept route of the same canonical id. *)
Theorem collapse_alias_sound routes kept inherited :
  collapse_alias_duplicates routes = (kept, inherited) ->
  kept ⊆ routes /\ base.NoDup (map canonical_route kept) /\
  (forall r, r ∈ routes -> canonical_route r ∈ routes ->
     canonical_route (canonical_route r) = canonical_route r -> canonical_route r ∈ kept) /\
  (forall r, r ∈ routes -> r ∈ kept \/
     exists k, dict_get r inherited = Some k /\ k ∈ kept /\ canonical_route k = canonical_route r) /\
  (forall r k, dict_get r inherited = Some k ->
     r ∈ routes /\ (r ∉ kept) /\ k ∈ kept /\ canonical_route k = canonical_route r).
Proof.
  intros H. apply collapse_loop_spec in H as (H1 & H2 & H3 & H4); [|done].
  assert (Hkept : forall r, r ∈ routes -> kept_of routes (canonical_route r) ∈ kept).
  { intros r Hr. assert (Hc : canonical_route r ∈ map canonical_route kept).
    { apply H2. split; [apply not_elem_of_nil|eauto]. }
    apply list_elem_of_fmap in Hc as (k & Hk & Hin). destruct (H3 k Hin) as [_ Ek].
    rewrite Hk, <- Ek. done. }
  split_and!.
  - intros k Hk. apply H3, Hk.
  - done.
  - intros r Hr Hcr Hidem. specialize (Hkept r Hr). revert Hkept. unfold kept_of.
    assert (Hm : canonical_route r ∈ members_of (canonical_route r) routes) by (by apply elem_members).
    destruct (members_of (canonical_route r) routes) as [|m [|m' ms]];
      [by apply not_elem_of_nil in Hm|apply list_elem_of_singleton in Hm; by subst m|].
    unfold representative. destruct (List.find _ _) as [x|] eqn:Ef.
    + apply find_some in Ef as [_ ->%String.eqb_eq]. done.
    + apply list_elem_of_In in Hm. apply (find_none _ _ Ef) in Hm. by rewrite String.eqb_refl in Hm.
  - intros r Hr. destruct (String.eqb_spec r (kept_of routes (canonical_route r))) as [->|Hne].
    { left. by apply Hkept. }
    right. exists (kept_of routes (canonical_route r)). split_and!.
    + rewrite H4. assert (mem (canonical_route r) (map canonical_route kept) = true) as ->.
      { apply mem_spec, H2. split; [apply not_elem_of_nil|eauto]. }
      assert (mem r routes = true) as -> by (by apply mem_spec).
      apply String.eqb_neq in Hne. by rewrite Hne.
    + by apply Hkept.
    + by eapply kept_of_elem.
  - intros r k Hk. rewrite H4 in Hk.
    destruct (mem (canonical_route r) _) eqn:Ec; cbn in Hk; [|done].
    destruct (mem r routes) eqn:Er; cbn in Hk; [|done].
    destruct (String.eqb_spec r (kept_of routes (canonical_route r))) as [|Hne]; cbn in Hk; [done|].
    injection Hk as <-. apply mem_spec in Er. split_and!; [done| |by apply Hkept|].
    + intros Hin. apply Hne. by destruct (H3 r Hin).
    + by eapply kept_of_elem.
Qed.

(** A route of the OpenRouter catalog counts as free only when the public
    price list says so: no [:free] suffix, connection flag, plan label or zero
    inventory price makes it free, and without a price list it is metered. A
    route without a connection is always of unknown capacity. *)
Theorem openrouter_free_only_public conn row route_id free_set :
  is_openrouter_catalog_route route_id = true ->
  fst (classify_route_capacity conn row route_id free_set) =
  match conn with
  | None => CapacityClass.UNKNOWN
  | Some _ => if openrouter_route_is_public_free route_id free_set
              then CapacityClass.FREE else CapacityClass.METERED
  end.
Proof.
  intros Ho. unfold classify_route_capacity. destruct conn as [c|]; [|done].
  assert (Hne : String.eqb route_id "" = false).
  { destruct (String.eqb_spec route_id "") as [->|]; [by vm_compute in Ho|done]. }
  rewrite Hne, Ho. cbn. by destruct (openrouter_route_is_public_free route_id free_set).
Qed.

Lemma openrouter_free_only_public_witness :
  fst (classify_route_capacity
    (Some {| conn_provider := "openrouter"; conn_active := true; conn_auth_type := "apikey";
             conn_plan_label := "free"; conn_importFreeModelsOnly := true;
             conn_import_free_only := true; conn_specific := None; conn_quota_models := [];
             conn_quota_percent := None; conn_rate_limited_until := [];
             conn_quota_reset_at := "" |})
    {| row_owned_by := "openrouter"; row_type := ""; row_caps := None;
       row_max_input_tokens := None; row_context_length := None; row_capability_tier := None;
       row_pricing := Some [("input", 0%Q)] |}
    "openrouter/acme/paid:free" None) = CapacityClass.METERED.
Proof. rewrite openrouter_free_only_public; reflexivity. Defined.

Lemma str_ltb_irrefl a : str_ltb a a = false.
Proof. unfold str_ltb. by rewrite str_leb_refl. Qed.

Lemma str_leb_ltb_trans a b c : str_ltb a b = true -> str_leb b c = true -> str_ltb a c = true.
Proof.
  unfold str_ltb. rewrite !negb_true_iff. intros H1 H2.
  destruct (str_leb c a) eqn:E; [|done]. by rewrite (str_leb_trans b c a H2 E) in H1.
Qed.

Lemma key_inj p q a b : String.length p = String.length q -> p +:+ a = q +:+ b -> p = q /\ a = b.
Proof.
  revert q; induction p as [|c p IH]; intros [|d q] Hl E; try done.
  change (String c (p +:+ a) = String d (q +:+ b)) in E. injection E as -> E.
  cbn in Hl. injection Hl as Hl. destruct (IH q Hl E) as [-> ->]. done.
Qed.

Lemma route_pool_key a b : "route:" +:+ a <> "pool:" +:+ b.
Proof. intros H. by vm_compute in H. Qed.

(** Recording that a route is not free marks the route and its pool until
    the given time, and never shortens an override another route put on the
    pool; every route of the pool is reported as overridden until then. *)
Theorem not_free_override_lasts t route_id pool until reason other now :
  str_ltb now until = true ->
  let t' := record_not_free_override t route_id pool until reason in
  is_not_free_overridden t' route_id pool now = Some reason /\
  is_Some (is_not_free_overridden t' other pool now) /\
  (forall e, t !! ("pool:" +:+ pool) = Some e ->
     exists e', t' !! ("pool:" +:+ pool) = Some e' /\ str_leb (nf_until e) (nf_until e') = true).
Proof.
  intros Hlt t'. set (key := "pool:" +:+ pool).
  assert (Hk : forall x, "route:" +:+ x <> key) by (intros x; apply route_pool_key).
  assert (Hroute : t' !! ("route:" +:+ route_id) =
    Some {| nf_until := until; nf_reason := reason; nf_pool := Some pool |}).
  { subst t'. unfold record_not_free_override. fold key.
    case_match; [rewrite lookup_insert_ne by (symmetry; apply Hk)|]; apply lookup_insert_eq. }
  assert (Hpool : exists e', t' !! key = Some e' /\ str_leb until (nf_until e') = true /\
    forall e, t !! key = Some e -> str_leb (nf_until e) (nf_until e') = true).
  { subst t'. unfold record_not_free_override. fold key.
    rewrite (lookup_insert_ne t) by apply Hk. destruct (t !! key) as [e|] eqn:E.
    - destruct (str_ltb (nf_until e) until) eqn:El.
      + eexists. rewrite lookup_insert_eq. split_and!; [done|apply str_leb_refl|].
        intros ? [= <-]. cbn. destruct (str_leb_total (nf_until e) until) as [|Hle]; [done|].
        unfold str_ltb in El. by rewrite Hle in El.
      + exists e. rewrite lookup_insert_ne by apply Hk. split_and!; [done| |].
        * unfold str_ltb in El. by apply negb_false_iff in El.
        * intros ? [= <-]. apply str_leb_refl.
    - eexists. rewrite lookup_insert_eq. split_and!; [done|apply str_leb_refl|done]. }
  destruct Hpool as (e' & He' & Hle & Hmono). split_and!.
  - unfold is_not_free_overridden. rewrite Hroute. cbn. by rewrite Hlt.
  - unfold is_not_free_overridden. fold key. case_match; [by eexists|]. rewrite He'. cbn.
    rewrite (str_leb_ltb_trans now until _ Hlt Hle). by eexists.
  - intros e He. exists e'. split; [done|]. by apply Hmono.
Qed.

Lemma not_free_override_lasts_witness :
  is_not_free_overridden
    (record_not_free_override ∅ "kc/a:free" "openrouter-free" "2026-01-02" "payment_required")
    "kc/a:free" "openrouter-free" "2026-01-01" = Some "payment_required".
Proof.
  apply (not_free_override_lasts ∅ "kc/a:free" "openrouter-free" "2026-01-02"
           "payment_required" "kc/b:free" "2026-01-01").
  reflexivity.
Defined.

Lemma collapse_alias_sound_witness :
  ["antigravity/x"; "cc/y"] ⊆ ["agy/x"; "antigravity/x"; "cc/y"].
Proof.
  apply (collapse_alias_sound ["agy/x"; "antigravity/x"; "cc/y"] ["antigravity/x"; "cc/y"]
           [("agy/x", "antigravity/x")]).
  reflexivity.
Defined.
