(* ===== verification/Recovery.v ===== *)
(** [verdict/orchestration/recovery.py]: classification of a worker's terminal
    failure (category, action, cooldown, scope) and the recovery budget that
    turns a failure history into the next action.

    Seconds are exact rationals. Patterns are the source's, parsed by [rx]. *)
From Stdlib Require Import Ascii Lqa.
From S2P Require Import Prelude PyStr Regex Time PyNum Contracts.

(** The fields of a [WorkerTerminal] that classification and the runtime read. *)
Record WorkerTerminal := {
  wt_ok : bool;
  wt_output : string;
  wt_stop_reason : string;
  wt_error : string;
  wt_status_code : option Z;
  wt_retry_after : option Q;
  wt_model : string;
  wt_executor_kind : string
}.

(** * Reset hints *)

Definition MAX_COOLDOWN_SECONDS : Q := 86400.

Definition DURATION_UNITS : list (string * Z) :=
  [("d", 86400); ("day", 86400); ("days", 86400); ("h", 3600); ("hr", 3600); ("hrs", 3600);
   ("hour", 3600); ("hours", 3600); ("m", 60); ("min", 60); ("mins", 60); ("minute", 60);
   ("minutes", 60); ("s", 1); ("sec", 1); ("secs", 1); ("second", 1); ("seconds", 1)].

Definition DURATION_PART : re :=
  rx "(\d+(?:\.\d+)?)\s*(days?|d|hours?|hrs?|h|minutes?|mins?|m|seconds?|secs?|s)\b".

(** [float(text)] of a decimal literal *)
Definition float_of (text : string) : Q :=
  match parse_decimal text with Some (Some q) => q | _ => 0%Q end.

(** [_parse_duration] *)
Definition parse_duration (text : string) : option Q :=
  match findall true DURATION_PART text with
  | [] => None
  | parts => Some (foldl (fun total caps =>
      total + float_of (group 1 caps)
              * inject_Z (default 0%Z (dict_get (lower (group 2 caps)) DURATION_UNITS)))%Q 0%Q parts)
  end.

(** [s.count(c)] *)
Fixpoint count_char (c : ascii) (s : string) : nat :=
  match s with
  | EmptyString => 0
  | String d s => (if Ascii.eqb c d then 1 else 0) + count_char c s
  end.

(** [_parse_iso8601]: a timestamp with an offset stands for one hour. *)
Definition parse_iso8601 (s : string) : option Q :=
  if contains s "T" then
    let ts := replace_with "Z" "+00:00" s in
    if contains ts "+" || (2 <? count_char "-" ts)%nat then Some 3600%Q else None
  else None.

(** [RETRY_AFTER_PATTERNS] *)
Definition RETRY_AFTER_PATTERNS : list (re * (string -> option Q)) :=
  [(rx "retry-after:\s*(\d+)\b(?!\s*[a-z])", fun g => Some (float_of g));
   (rx "retry after (\d+) seconds", fun g => Some (float_of g));
   (rx "resets? at ([\d\-T:.Z+]+)", parse_iso8601);
   (rx ("(?:resets?|try again|retry(?:-after| after)?|available again|reset)\s*(?:in|after)?\s*"
        +:+ "((?:\d+(?:\.\d+)?\s*(?:days?|d|hours?|hrs?|h|minutes?|mins?|m|seconds?|secs?|s)\b"
        +:+ "[\s,and]*)+)"), parse_duration)].

Fixpoint first_hint (ps : list (re * (string -> option Q))) (text : string) : option Q :=
  match ps with
  | [] => None
  | (p, conv) :: ps =>
      match search true p text with
      | None => first_hint ps text
      | Some (_, caps) =>
          match conv (group 1 caps) with
          | Some r => if Qltb 0 r then Some (Qminb r MAX_COOLDOWN_SECONDS) else first_hint ps text
          | None => first_hint ps text
          end
      end
  end.

(** [_parse_reset_hint] *)
Definition parse_reset_hint (text : string) : option Q :=
  if String.eqb text "" then None else first_hint RETRY_AFTER_PATTERNS text.

(** [_sanitize_error] *)
Definition sanitize_error (text : string) : string :=
  let s := sub true (rx "bearer\s+[a-z0-9._-]+") "REDACTED" text in
  let s := sub true (rx "sk-[a-z0-9]+") "REDACTED" s in
  let s := sub true (rx "(api[_-]?key|token|secret)[=:\s]+[a-z0-9._-]+") "REDACTED" s in
  take_str 300 s.

(** * Classification *)

Definition MODEL_SCOPED_403_MARKERS : list string :=
  ["this model"; "for model"; "model not allowed"; "model is not allowed";
   "not allowed to use model"; "does not have access to model"; "no access to model";
   "model access"; "blocked model"; "model is blocked"].

Definition GATEWAY_BUSY_RE : re :=
  rx ("chat_admission_busy|admission capacity is (?:temporarily unavailable|busy)"
      +:+ "|Structurally heavy chat request capacity is busy").

(** [subagent_selection.is_context_length_error] *)
Definition CONTEXT_LENGTH_MARKERS : list string :=
  ["input is too long"; "prompt is too long"; "context length"; "context_length_exceeded";
   "maximum context"; "context window"; "too many tokens"].

Definition any_in (text : string) (markers : list string) : bool :=
  existsb (contains text) markers.

Definition is_context_length_error (text : string) : bool :=
  any_in (lower text) CONTEXT_LENGTH_MARKERS.

(** [cooldown or d] for a number *)
Definition or_default (cooldown d : Q) : Q := if Qeq_bool cooldown 0 then d else cooldown.

Definition failure (category action : string) (cooldown : Q) (scope evidence : string)
    : FailureClassification :=
  {| fc_category := category; fc_action := action; fc_cooldown_seconds := cooldown;
     fc_scope := scope; fc_evidence := evidence |}.

(** The cooldown the terminal reports, else the hint in its error text, else 0. *)
Definition hinted_cooldown (t : WorkerTerminal) : Q :=
  let c := default 0%Q (wt_retry_after t) in
  if Qeq_bool c 0 then default 0%Q (parse_reset_hint (wt_error t)) else c.

(** The 429 branch. *)
Definition classify_429 (low ev : string) (cooldown : Q) : FailureClassification :=
  if any_in low ["quota"; "exceeded your"; "usage limit"; "insufficient_quota"; "weekly limit";
                 "monthly limit"; "daily limit"]
  then failure "quota_exhausted" "REROUTE" (or_default cooldown 3600)
         (if any_in low ["for this model"; "model usage limit"; "per-model"]
          then "route" else "provider") ev
  else failure "rate_limited" "REROUTE" (or_default cooldown 60) "provider" ev.

(** Priority 1: an explicit status code; [None] falls through to the text patterns. *)
Definition classify_status (status : Z) (low ev : string) (cooldown : Q)
    : option FailureClassification :=
  let route category d := Some (failure category "REROUTE" (or_default cooldown d) "route" ev) in
  if status =? 429 then Some (classify_429 low ev cooldown)
  else if status =? 401 then
    Some (failure "authentication" "REROUTE" (or_default cooldown 3600) "provider" ev)
  else if status =? 402 then
    Some (failure "payment_required" "REROUTE" (or_default cooldown 3600) "provider" ev)
  else if status =? 403 then
    Some (failure "permission" "REROUTE" (or_default cooldown 3600)
            (if any_in low MODEL_SCOPED_403_MARKERS then "route" else "provider") ev)
  else if status =? 400 then
    if any_in low ["unsupported"; "not supported"] then route "unsupported" 86400%Q
    else route "bad_request" 120%Q
  else if status =? 404 then route "model_unavailable" 3600%Q
  else if status =? 410 then route "gone" MAX_COOLDOWN_SECONDS
  else if (500 <=? status) && (status <? 600) then route "upstream_temporary" 60%Q
  else None.

(** Priority 2: text patterns. *)
Definition classify_text (t : WorkerTerminal) (low ev : string) (cooldown : Q)
    : FailureClassification :=
  let route category d := failure category "REROUTE" (or_default cooldown d) "route" ev in
  if any_in low ["model not found"; "unknown model"; "does not exist"]
  then route "model_unavailable" 3600%Q
  else if String.eqb (wt_stop_reason t) "timeout" || any_in low ["timeout"; "timed out"]
  then route "timeout" 120%Q
  else if any_in low ["connection refused"; "connection reset"; "transport"]
  then route "transport_temporary" 60%Q
  else if String.eqb (wt_error t) "no_final_answer"
          || negb (mem (wt_stop_reason t) ["stop"; "end_turn"; ""])
  then route "no_final_answer" 300%Q
  else if contains low "malformed" then route "malformed_response" 300%Q
  else if String.eqb (wt_error t) "model_mismatch" then route "model_mismatch" 3600%Q
  else if startswith (wt_error t) "verification_failed"
  then failure "verification_failed" "CORRECT_IMPLEMENTATION" 0 "none" ev
  else if startswith (wt_error t) "ownership_violation"
  then failure "ownership_violation" "REHYDRATE" 0 "none" ev
  else route "unknown" 120%Q.

Definition context_status (s : option Z) : bool :=
  match s with None => true | Some c => (c =? 400) || (c =? 413) end.

(** [FailureIntelligence.classify] *)
Definition classify (t : WorkerTerminal) : FailureClassification :=
  if wt_ok t then
    if String.eqb (strip (wt_output t)) ""
    then failure "empty_output" "REROUTE" 300 "route" (sanitize_error "ok but empty output")
    else failure "success" "BLOCK" 0 "none" ""
  else
    let text := wt_error t in
    let low := lower text in
    let ev := sanitize_error text in
    if startswith text "worker_blocked:"
    then failure "worker_blocked" "CORRECT_IMPLEMENTATION" 0 "none" ev
    else if startswith text "harness_configuration:"
    then failure "harness_configuration" "BLOCK" 0 "none" ev
    else if startswith text "ownership_refused:" || bool_decide (wt_status_code t = Some 125)
    then failure "ownership_refused" "BLOCK" 0 "none" ev
    else if context_status (wt_status_code t) && is_context_length_error text
    then failure "context_length_exceeded" "REROUTE" 0 "none" ev
    else
      let cooldown := hinted_cooldown t in
      if matches true GATEWAY_BUSY_RE text
      then failure "gateway_busy" "RETRY_INFRA" (or_default cooldown 15) "none" ev
      else
        match (s ← wt_status_code t; classify_status s low ev cooldown) with
        | Some f => f
        | None => classify_text t low ev cooldown
        end.

(** * The recovery budget *)

Record RecoveryBudget := {
  max_attempts_per_node : Z;
  max_same_route_retries : Z;
  max_verification_repairs : Z
}.

Definition is_verification_failure (f : FailureClassification) : bool :=
  String.eqb (fc_category f) "verification_failed".

(** [RecoveryBudget.decide]; [history] is oldest first. *)
Definition decide_recovery (b : RecoveryBudget) (history : list FailureClassification)
    (attempts : option Z) : string * string :=
  let used := Z.max (Z.of_nat (length history)) (default 0 attempts) in
  if max_attempts_per_node b <=? used
  then ("FAIL_CLOSED", "exhausted " +:+ str_of_Z (max_attempts_per_node b) +:+ " attempts")
  else
    match last history with
    | None => ("REASSIGN", "first attempt")
    | Some f =>
        if String.eqb (fc_action f) "BLOCK" then ("FAIL_CLOSED", "last action was BLOCK")
        else
          let failures := Z.of_nat (length (List.filter is_verification_failure history)) in
          let repairs := Z.max 0 (failures - 1) in
          if is_verification_failure f then
            if max_verification_repairs b <=? repairs
            then ("FAIL_CLOSED", "exhausted " +:+ str_of_Z (max_verification_repairs b)
                                 +:+ " verification repairs")
            else ("REPAIR", "allow one verification repair")
          else ("REASSIGN", "reassign after " +:+ str_of_Z (Z.of_nat (length history))
                            +:+ " attempts")
    end.

(** * Lemmas *)

Lemma first_hint_bounds ps text q :
  first_hint ps text = Some q -> (0 < q <= MAX_COOLDOWN_SECONDS)%Q.
Proof.
  induction ps as [|[p conv] ps IH]; cbn; [done|].
  destruct (search true p text) as [[rest caps]|]; [|done].
  destruct (conv _) as [r|]; [|done]. destruct (Qltb 0 r) eqn:E; [|done].
  intros [= <-]. apply Qltb_spec in E.
  pose proof (Qminb_spec r MAX_COOLDOWN_SECONDS) as [[? ?] [?|?]];
    unfold MAX_COOLDOWN_SECONDS in *; lra.
Qed.

(** The bounds of the cooldown a failure text may ask for. *)
Lemma parse_reset_hint_bounds text q :
  parse_reset_hint text = Some q -> (0 < q <= 86400)%Q.
Proof. unfold parse_reset_hint. case_match; [done|]. apply first_hint_bounds. Qed.

Lemma hinted_cooldown_bounds t :
  (forall q, wt_retry_after t = Some q -> 0 <= q)%Q ->
  (0 <= hinted_cooldown t)%Q /\
  ((forall q, wt_retry_after t = Some q -> q == 0)%Q -> hinted_cooldown t <= 86400)%Q.
Proof.
  intros H. unfold hinted_cooldown.
  destruct (Qeq_bool (default 0%Q (wt_retry_after t)) 0) eqn:E.
  - destruct (parse_reset_hint _) as [q|] eqn:Eh; cbn; [|lra].
    apply parse_reset_hint_bounds in Eh. lra.
  - apply Qeq_bool_neq in E. destruct (wt_retry_after t) as [q|]; cbn in *; [|lra].
    split; [auto|]. intros Hz. specialize (Hz q eq_refl). lra.
Qed.

Lemma or_default_bounds c d :
  (0 <= c)%Q -> (0 <= d <= 86400)%Q ->
  (0 <= or_default c d)%Q /\ (c <= 86400 -> or_default c d <= 86400)%Q.
Proof. intros. unfold or_default. case_match; lra. Qed.

Lemma take_str_length n s : (String.length (take_str n s) <= n)%nat.
Proof. revert s; induction n; intros [|c s]; cbn; try lia. specialize (IHn s). lia. Qed.

Definition ACTIONS : list string :=
  ["REROUTE"; "RETRY_INFRA"; "CORRECT_IMPLEMENTATION"; "REHYDRATE"; "BLOCK"].

(** Categories that describe the account rather than one route. *)
Definition ACCOUNT_CATEGORIES : list string :=
  ["quota_exhausted"; "rate_limited"; "authentication"; "payment_required"; "permission"].

(** The consistency of a classification whose cooldown is bounded by [limit]. *)
Definition sound_failure (limited : Prop) (f : FailureClassification) : Prop :=
  fc_action f ∈ ACTIONS /\ fc_scope f ∈ ["route"; "provider"; "none"] /\
  (0 <= fc_cooldown_seconds f)%Q /\ (limited -> fc_cooldown_seconds f <= 86400)%Q /\
  (fc_scope f = "provider" -> fc_category f ∈ ACCOUNT_CATEGORIES) /\
  (fc_action f = "BLOCK" <->
   fc_category f ∈ ["success"; "harness_configuration"; "ownership_refused"]) /\
  (fc_scope f = "none" -> fc_category f = "gateway_busy" \/ fc_cooldown_seconds f == 0)%Q /\
  (fc_scope f <> "none" -> fc_action f = "REROUTE") /\
  (String.length (fc_evidence f) <= 300)%nat.

Lemma sanitize_length s : (String.length (sanitize_error s) <= 300)%nat.
Proof. apply take_str_length. Qed.

(** Decides membership of concrete strings, and solves goals on them. *)
Ltac str_mem :=
  match goal with
  | |- _ ∈ _ => apply mem_spec; reflexivity
  | |- _ = _ -> _ => let H := fresh in intros H; first [discriminate H | str_mem]
  | |- _ <> _ -> _ => let H := fresh in intros H; first [by destruct H | reflexivity]
  | |- _ = _ <-> _ ∈ _ =>
      split; [let H := fresh in intros H; first [discriminate H | apply mem_spec; reflexivity]
             |let H := fresh in intros H; apply mem_spec in H; first [discriminate H | reflexivity]]
  end.

Section classification.
Context (limited : Prop) (c : Q) (ev : string).
Context (c_nonneg : (0 <= c)%Q) (c_limit : limited -> (c <= 86400)%Q).
Context (ev_short : (String.length ev <= 300)%nat).

Ltac sound :=
  split_and!; cbn; try done; try (by str_mem);
    try (apply or_default_bounds; [done|lra]);
    try (intros Hl; eapply or_default_bounds; [exact c_nonneg|lra|auto]);
    try lra; try (intros _; right; reflexivity); try (by left).

Lemma status_sound status low f :
  classify_status status low ev c = Some f -> sound_failure limited f.
Proof using c_nonneg c_limit ev_short.
  unfold classify_status, classify_429, MAX_COOLDOWN_SECONDS, failure.
  repeat case_match; intros [= <-]; unfold sound_failure; sound.
Qed.

Lemma text_sound t low : sound_failure limited (classify_text t low ev c).
Proof using c_nonneg c_limit ev_short.
  unfold classify_text, failure. repeat case_match; unfold sound_failure; sound.
Qed.

Lemma gateway_sound : sound_failure limited (failure "gateway_busy" "RETRY_INFRA" (or_default c 15) "none" ev).
Proof using c_nonneg c_limit ev_short. unfold failure, sound_failure; sound. Qed.

Lemma empty_output_sound : sound_failure limited (failure "empty_output" "REROUTE" 300 "route" ev).
Proof using ev_short. unfold failure, sound_failure; sound. Qed.

Lemma fixed_sound p :
  p ∈ [("success", "BLOCK"); ("harness_configuration", "BLOCK"); ("ownership_refused", "BLOCK");
       ("worker_blocked", "CORRECT_IMPLEMENTATION"); ("context_length_exceeded", "REROUTE")] ->
  sound_failure limited (failure p.1 p.2 0 "none" ev).
Proof using ev_short.
  unfold failure, sound_failure.
  intros H. repeat (apply elem_of_cons in H as [->|H]; [sound|]). by apply not_elem_of_nil in H.
Qed.
End classification.

(** Every failing prefix of the history was answered with another attempt. *)
Definition continued (b : RecoveryBudget) (h : list FailureClassification) : Prop :=
  forall k, (k <= length h)%nat -> fst (decide_recovery b (take k h) None) <> "FAIL_CLOSED".

(** * Properties *)

(** Every terminal is classified consistently. The action is one of the five
    recovery actions; only account-level failures have provider scope; an
    unscoped failure has no cooldown (a busy gateway apart) and everything with a
    scope is rerouted; [BLOCK] is kept for success, configuration errors and
    refused ownership; the evidence is at most 300 characters. A reported
    non-negative retry delay gives a non-negative cooldown, and a cooldown taken
    from text or from the defaults is at most a day. *)
Theorem classify_sound t :
  (forall q, wt_retry_after t = Some q -> 0 <= q)%Q ->
  sound_failure (forall q, wt_retry_after t = Some q -> q == 0)%Q (classify t).
Proof.
  intros Hr. destruct (hinted_cooldown_bounds t Hr) as [Hc Hl].
  pose proof (sanitize_length (wt_error t)) as Hev.
  set (lim := forall q, wt_retry_after t = Some q -> (q == 0)%Q) in *.
  pose proof (fixed_sound lim _ Hev) as Hfix. unfold classify.
  destruct (wt_ok t); [case_match|].
  - apply (empty_output_sound lim). apply sanitize_length.
  - apply (fixed_sound lim "" ltac:(cbn; lia) ("success", "BLOCK")). set_solver.
  - case_match; [apply (Hfix ("worker_blocked", "CORRECT_IMPLEMENTATION")); set_solver|].
    case_match; [apply (Hfix ("harness_configuration", "BLOCK")); set_solver|].
    case_match; [apply (Hfix ("ownership_refused", "BLOCK")); set_solver|].
    case_match; [apply (Hfix ("context_length_exceeded", "REROUTE")); set_solver|].
    case_match; [by apply gateway_sound|].
    destruct (wt_status_code t ≫= _) as [f|] eqn:E; [|by apply text_sound].
    destruct (wt_status_code t) as [status|]; [|done]. by eapply status_sound.
Qed.

Definition verification_failures (h : list FailureClassification) : Z :=
  Z.of_nat (length (List.filter is_verification_failure h)).

Lemma verification_failures_app h f :
  verification_failures (h ++ [f]) =
  verification_failures h + (if is_verification_failure f then 1 else 0).
Proof.
  unfold verification_failures. rewrite List.filter_app, length_app. cbn.
  destruct (is_verification_failure f); cbn; lia.
Qed.

Lemma verification_failures_nonneg h : 0 <= verification_failures h.
Proof. unfold verification_failures. lia. Qed.

(** One decision, on a history that ends with [f]. *)
Lemma decide_snoc b h f :
  fst (decide_recovery b (h ++ [f]) None) <> "FAIL_CLOSED" <->
  Z.of_nat (length h) + 1 < max_attempts_per_node b /\ fc_action f <> "BLOCK" /\
  (is_verification_failure f = true -> verification_failures h < max_verification_repairs b).
Proof.
  pose proof (verification_failures_nonneg h).
  unfold decide_recovery. rewrite last_snoc. fold (verification_failures (h ++ [f])).
  rewrite verification_failures_app, length_app. cbn [length default].
  destruct (Z.leb_spec (max_attempts_per_node b) (Z.max (Z.of_nat (length h + 1)) 0));
    cbn [fst]; [split; [done|lia]|].
  destruct (String.eqb_spec (fc_action f) "BLOCK"); cbn [fst]; [naive_solver|].
  destruct (is_verification_failure f); cbn [fst].
  - destruct (Z.leb_spec (max_verification_repairs b) (Z.max 0 (verification_failures h + 1 - 1)));
      cbn [fst].
    + split; [done|]. intros (_ & _ & H'). specialize (H' eq_refl). lia.
    + split; [|done]. intros _. split_and!; [lia|done|lia].
  - split; [|done]. intros _. split_and!; [lia|done|done].
Qed.

Lemma continued_snoc b h f :
  continued b (h ++ [f]) <->
  continued b h /\ fst (decide_recovery b (h ++ [f]) None) <> "FAIL_CLOSED".
Proof.
  unfold continued. rewrite length_app. cbn [length]. split.
  - intros H. split.
    + intros k Hk. specialize (H k ltac:(lia)). by rewrite take_app_le in H by lia.
    + specialize (H (length h + 1)%nat ltac:(lia)).
      by rewrite take_ge in H by (rewrite length_app; cbn; lia).
  - intros [Hh Hf] k Hk. destruct (decide (k <= length h)%nat).
    + rewrite take_app_le by lia. auto.
    + by rewrite take_ge by (rewrite length_app; cbn; lia).
Qed.

Lemma decide_nil b :
  fst (decide_recovery b [] None) <> "FAIL_CLOSED" <-> 0 < max_attempts_per_node b.
Proof.
  unfold decide_recovery. change (Z.max (Z.of_nat (length (A:=FailureClassification) []))
    (default 0 None)) with 0. change (last (A:=FailureClassification) []) with (@None FailureClassification).
  destruct (Z.leb_spec (max_attempts_per_node b) 0); cbn [fst]; split; try done; lia.
Qed.

(** The recovery loop is bounded, exactly. A failure history is answered with
    another attempt at every point if and only if it is shorter than the attempt
    limit, contains no blocking failure, and has no more verification failures
    than repairs are allowed; so no node is attempted or repaired more often. *)
Theorem recovery_bounded b h :
  continued b h <->
  Z.of_nat (length h) < max_attempts_per_node b /\
  Forall (fun f => fc_action f <> "BLOCK") h /\
  verification_failures h <= Z.max 0 (max_verification_repairs b).
Proof.
  induction h as [|f h IH] using rev_ind.
  - transitivity (0 < max_attempts_per_node b).
    + rewrite <- decide_nil. split; [intros H; apply (H 0%nat); done|].
      intros H k Hk. cbn in Hk. by replace k with 0%nat by lia.
    + split; [|intros [? _]; cbn in *; lia].
      intros H. split_and!; [done|apply Forall_nil_2|unfold verification_failures; cbn; lia].
  - rewrite continued_snoc, IH, decide_snoc, length_app, Forall_app, Forall_singleton,
      verification_failures_app. cbn [length].
    pose proof (verification_failures_nonneg h). destruct (is_verification_failure f).
    + split.
      * intros ((? & ? & ?) & ? & ? & Hr). specialize (Hr eq_refl). split_and!; try done; lia.
      * intros (? & [? ?] & ?). split_and!; try done; lia.
    + split.
      * intros ((? & ? & ?) & ? & ? & ?). split_and!; try done; lia.
      * intros (? & [? ?] & ?). split_and!; try done; lia.
Qed.

Lemma classify_sound_witness :
  (fc_cooldown_seconds (classify {| wt_ok := false; wt_output := ""; wt_stop_reason := "";
     wt_error := "quota: resets in 50 days"; wt_status_code := Some 429%Z;
     wt_retry_after := None; wt_model := ""; wt_executor_kind := "" |}) <= 86400)%Q.
Proof.
  apply (classify_sound {| wt_ok := false; wt_output := ""; wt_stop_reason := "";
     wt_error := "quota: resets in 50 days"; wt_status_code := Some 429%Z;
     wt_retry_after := None; wt_model := ""; wt_executor_kind := "" |}); discriminate.
Defined.
