(* ===== verification/Ladder.v ===== *)
(** [verdict/orchestration/eligibility.py]: the eligibility ladder. Routes climb
    DISCOVERED, ENTITLED, HEALTHY, AVAILABLE and TASK_ELIGIBLE by the evidence of
    inventory, connections, admission, health cache and cooldowns; selection ranks
    the survivors and confirms them with a bounded number of live probes; failures
    and successes are folded back into the persisted cooldowns and health.

    Instants are microseconds since 0001-01-01 UTC. The evidence other parts of the
    package provide (probes, the passport store, usage history, ratings, session
    ledger) enters through the parameters of [LadderEnv]. A probe that raises, and a
    write of the ladder state or of an admission receipt that fails, are not modelled:
    here each of them returns. *)
From Stdlib Require Import Ascii Lqa.
From S2P Require Import Prelude PyStr Regex Time PyNum Classifier Contracts Admission Providers.

(** * Evidence *)

(** [health_cache.HealthEntry], the fields read here. *)
Record CacheEntry := {
  hce_healthy : bool;
  hce_category : string;
  hce_checked_at : Z;
  hce_until : Z;
  hce_capacity_evidence : string;
  hce_agentic_ok : bool;
  hce_agentic_at : option Z;
  hce_session_ok : bool;
  hce_session_at : option Z
}.

(** [health_cache.ScopedCooldown] *)
Record ScopedCooldown := { sc_category : string; sc_checked_at : Z; sc_until : Z }.

Record HealthCache := {
  hc_routes : gmap string CacheEntry;
  hc_cooldowns : gmap string ScopedCooldown
}.

(** [subagent_selection.HealthResult] *)
Record HealthResult := {
  hr_healthy : bool;
  hr_category : string;
  hr_status_code : option Z;
  hr_retry_after : option Q;
  hr_error_message : string
}.

Record SessionStats := {
  ses_passes : Z; ses_fails : Z; ses_false_claims : Z; ses_score : Q
}.

(** What the ladder takes from the rest of the package. A probe and the cache
    after it may depend on the probes made before. *)
Class LadderEnv := {
  env_probe : list string -> string -> HealthResult;
  env_observe : list string -> HealthCache -> string -> HealthResult -> Z -> HealthCache;
  env_proof_stale : list string -> string -> Z -> bool;
  env_tokens : string -> option Q;
  env_session : string -> Z -> Z -> option SessionStats;
  env_rating : string -> bool -> option Z -> Z * Q * Z;
  env_refutes : Connection -> string -> Z -> Z -> bool;
  env_fresh_us : Z;
  env_usable_us : Z;
  env_agentic_ttl_us : Z;
  env_session_ttl_us : Z
}.

Inductive CacheState := Fresh | StaleState | Negative | Unprobed.
#[global] Instance cache_state_eq_dec : EqDecision CacheState.
Proof. solve_decision. Defined.

(** [timedelta(seconds=s)] in microseconds, rounded half to even *)
Definition seconds_us (s : Q) : Z :=
  let q := (s * inject_Z 1000000)%Q in
  let n := Qnum q in let d := Z.pos (Qden q) in
  let f := n / d in
  let r := n mod d in
  if 2 * r <? d then f
  else if d <? 2 * r then f + 1
  else if Z.even f then f else f + 1.

(** * Persisted state *)

Record HealthMark := { hm_healthy : bool; hm_category : string; hm_checked_at : string }.
Record Cooldown := { cd_until : string; cd_category : string }.

(** [self._state] *)
Record LadderState := {
  st_health : gmap string HealthMark;
  st_cooldowns : gmap string Cooldown;
  st_not_free : gmap string NotFree
}.

Definition CATEGORY_COOLDOWN_SECONDS : list (string * Q) :=
  [("rate_limited", 60%Q); ("quota_exhausted", 3600%Q); ("authentication", 3600%Q);
   ("payment_required", 3600%Q); ("permission", 3600%Q); ("unsupported", 86400%Q);
   ("unservable", 21600%Q); ("timeout", 60%Q); ("upstream_temporary", 60%Q);
   ("transport_temporary", 60%Q); ("catalog_stale", CATALOG_STALE_COOLDOWN_SECONDS)].

Definition cooldown_seconds_for (category : string) (retry_after : option Q) : Q :=
  match retry_after with
  | Some s => if Qltb 0 s then s else default 60%Q (dict_get category CATEGORY_COOLDOWN_SECONDS)
  | None => default 60%Q (dict_get category CATEGORY_COOLDOWN_SECONDS)
  end.

Definition PROVIDER_SCOPE_CATEGORIES : list string :=
  ["payment_required"; "permission"; "authentication"].

(** [quota_remaining] *)
Definition quota_remaining (c : Connection) (route_id : string) : option Q :=
  let model := split1_last "/" route_id in
  let base := sub false (rx "-(low|medium|high|xhigh|tiered)$") "" model in
  match dict_get model (conn_quota_models c) with
  | Some q => Some q
  | None => match dict_get base (conn_quota_models c) with
            | Some q => Some q
            | None => conn_quota_percent c
            end
  end.

(** [quota_rank]; [int(percent // 20)] floors *)
Definition quota_rank (percent : option Q) : Z :=
  match percent with
  | None => 2
  | Some p => 4 - Z.min 4 (Qnum (p / 20)%Q / Z.pos (Qden (p / 20)%Q))
  end.

(** * The ladder *)

Record Ladder := {
  ld_rows : list (string * Row);
  ld_connections : list Connection;
  ld_ttl_us : Z;
  ld_harness : option ((string -> bool) * bool);  (* visibility, and whether it is available *)
  ld_prefer : list string;
  ld_load : string -> Z;
  ld_max_per_route : Z;
  ld_max_probes : nat;
  ld_min_quota : Q;
  ld_free_set : option (list string);
  ld_rankings : gmap string Z;
  ld_rankings_category : option string
}.

Record Outcome := {
  o_failed : option EligibilityStage.t;
  o_reason : string;
  o_cooldown_until : option string;
  o_cooldown_scope : string;
  o_health : string;
  o_health_category : string
}.

Record Facts := {
  f_tier : option Z;
  f_slack : Z;
  f_price : option Q;
  f_fit : Z;
  f_quota : option Q;
  f_rating : Z * Q * Z;
  f_evidence_level : option string;
  f_context : option Z;
  f_tools : option bool;
  f_structured : option bool
}.

(** [_Assessment]: the identity of the route, where it stands, and its facts. *)
Record Assessment := {
  a_route : string;
  a_provider : string;
  a_capacity : CapacityClass.t;
  a_pool : string;
  a_capacity_evidence : string;
  a_out : Outcome;
  a_facts : Facts
}.

Definition set_out (a : Assessment) (o : Outcome) : Assessment :=
  {| a_route := a_route a; a_provider := a_provider a; a_capacity := a_capacity a;
     a_pool := a_pool a; a_capacity_evidence := a_capacity_evidence a; a_out := o;
     a_facts := a_facts a |}.

Definition set_facts (a : Assessment) (f : Facts) : Assessment :=
  {| a_route := a_route a; a_provider := a_provider a; a_capacity := a_capacity a;
     a_pool := a_pool a; a_capacity_evidence := a_capacity_evidence a; a_out := a_out a;
     a_facts := f |}.

Definition a_failed (a : Assessment) := o_failed (a_out a).
Definition a_health (a : Assessment) := o_health (a_out a).

(** [a.failed_stage, a.reason = ...], with the cooldown it is reported under *)
Definition fail_out (o : Outcome) (stage : EligibilityStage.t) (reason : string)
    (until : option string) (scope : string) : Outcome :=
  {| o_failed := Some stage; o_reason := reason; o_cooldown_until := until;
     o_cooldown_scope := scope; o_health := o_health o;
     o_health_category := o_health_category o |}.

Definition fail_at (a : Assessment) (stage : EligibilityStage.t) (reason : string)
    (until : option string) (scope : string) : Assessment :=
  set_out a (fail_out (a_out a) stage reason until scope).

Definition set_health (a : Assessment) (health category : string) : Assessment :=
  let o := a_out a in
  set_out a {| o_failed := o_failed o; o_reason := o_reason o;
               o_cooldown_until := o_cooldown_until o; o_cooldown_scope := o_cooldown_scope o;
               o_health := health; o_health_category := category |}.

(** [_Assessment.reached] *)
Fixpoint reached_from (failed : option EligibilityStage.t) (health : string)
    (stages : list EligibilityStage.t) (acc : option EligibilityStage.t)
    : option EligibilityStage.t :=
  match stages with
  | [] => acc
  | s :: stages =>
      if bool_decide (failed = Some s) then acc
      else if bool_decide (s = EligibilityStage.HEALTHY) && negb (String.eqb health "healthy")
      then acc
      else reached_from failed health stages (Some s)
  end.

Definition reached (a : Assessment) : option EligibilityStage.t :=
  reached_from (a_failed a) (a_health a)
    [EligibilityStage.DISCOVERED; EligibilityStage.ENTITLED; EligibilityStage.HEALTHY;
     EligibilityStage.AVAILABLE; EligibilityStage.TASK_ELIGIBLE] None.

(** [_Assessment.selectable] *)
Definition selectable (a : Assessment) : bool :=
  bool_decide (a_failed a = None) && negb (String.eqb (a_health a) "unhealthy").

Section ladder.
Context `{env : LadderEnv}.
Context (ld : Ladder).

(** [health_cache.classify_state] *)
Definition cache_state (e : CacheEntry) (now : Z) : CacheState :=
  if hce_healthy e then
    if now <? hce_checked_at e + env_fresh_us then Fresh
    else if now <? hce_checked_at e + env_usable_us then StaleState
    else Unprobed
  else if now <? hce_until e then Negative else Unprobed.

(** [HealthCache.lookup] *)
Definition cache_lookup (c : HealthCache) (route_id : string) (now : Z)
    : CacheState * option CacheEntry :=
  match hc_routes c !! route_id with
  | None => (Unprobed, None)
  | Some e => (cache_state e now, Some e)
  end.

(** [HealthCache.cooldown_for] *)
Definition cooldown_for (c : HealthCache) (key : string) (now : Z) : option ScopedCooldown :=
  s ← hc_cooldowns c !! key; if now <? sc_until s then Some s else None.

(** [health_cache.agentic_capability]: whether the route is qualified, and whether
    the proof is session evidence. *)
Definition agentic_capability (e : option CacheEntry) (now : Z) : bool * bool :=
  match e with
  | None => (false, false)
  | Some e =>
      let session := bool_decide (is_Some (hce_session_at e)) in
      let checked := if session then hce_session_at e else hce_agentic_at e in
      let ttl := if session then env_session_ttl_us else env_agentic_ttl_us in
      let passed := if session then hce_session_ok e else hce_agentic_ok e in
      let qualified := passed && match checked with
        | Some t => (0 <=? now - t) && (now - t <=? ttl)
        | None => false
        end in
      (qualified, session)
  end.

(** [_connection_for]: the first active connection of the provider, else its first. *)
Definition connection_for (provider : string) : option Connection :=
  foldl (fun current c =>
           if String.eqb (lower (conn_provider c)) (lower provider) then
             match current with
             | None => Some c
             | Some k => if negb (conn_active k) && conn_active c then Some c else current
             end
           else current) None (ld_connections ld).

(** [capacity.billing_capacity_override] *)
Definition billing_capacity_override (c : HealthCache) (route_id : string) (now : Z) : bool :=
  match hc_routes c !! route_id with
  | None => false
  | Some e => negb (hce_healthy e) && String.eqb (hce_capacity_evidence e) "billing_402_metered"
              && (now <? hce_until e)
  end.

(** [_capacity_class] *)
Definition capacity_class (cache : option HealthCache) (conn : option Connection) (row : Row)
    (route_id : string) (now : Z) : CapacityClass.t * string :=
  let override := match cache with
                  | Some c => billing_capacity_override c route_id now
                  | None => false
                  end in
  if override then (CapacityClass.METERED, "billing_402_metered")
  else classify_route_capacity conn row route_id (ld_free_set ld).

(** [_health_status] *)
Definition health_status (cache : option HealthCache) (admitted : option AdmittedSet)
    (st : LadderState) (route_id : string) (now : Z) : string * string :=
  let look := match cache with Some c => cache_lookup c route_id now | None => (Unprobed, None) end in
  let negative_entry := match snd look with
                        | Some e => if negb (hce_healthy e) then Some e else None
                        | None => None
                        end in
  let fresh := bool_decide (fst look = Fresh)
               && match snd look with Some e => hce_healthy e | None => false end in
  match negative_entry, bool_decide (fst look = Negative) with
  | Some e, true => ("unhealthy", hce_category e)
  | expired, _ =>
      if fresh then ("healthy", "")
      else if match admitted with Some s => proven_healthy s route_id | None => false end
      then ("healthy", "")
      else
        match st_health st !! route_id with
        | None => ("unprobed", match expired with Some e => hce_category e | None => "" end)
        | Some entry =>
            let checked := instant <$> parse_iso (hm_checked_at entry) in
            let superseded := match expired with
              | None => None
              | Some e =>
                  if negb (hm_healthy entry)
                     || match checked with Some t => t <=? hce_checked_at e | None => true end
                  then Some (hce_category e) else None
              end in
            match superseded with
            | Some category => ("unprobed", category)
            | None =>
                match checked with
                | None => ("stale", hm_category entry)
                | Some t =>
                    if ld_ttl_us ld <? now - t then ("stale", hm_category entry)
                    else if hm_healthy entry then ("healthy", "")
                    else ("unhealthy", hm_category entry)
                end
            end
        end
  end.

Definition RATE_LIMIT_COOLDOWN_CATEGORIES : list string :=
  ["rate_limited"; "rate_limit"; "quota_exhausted"].

(** The scoped cooldown of the cache that still counts under [key]. *)
Definition cached_cooldown (cache : option HealthCache) (key : string) (now : Z)
    (route_id : option string) : option ScopedCooldown :=
  c ← cache; s ← cooldown_for c key now;
  let refuted := match route_id with
    | Some r =>
        startswith key "provider:"
        && mem (sc_category s) RATE_LIMIT_COOLDOWN_CATEGORIES
        && existsb (fun conn => String.eqb (lower (conn_provider conn)) (split1_last ":" key)
                                && conn_active conn && env_refutes conn r (sc_checked_at s) now)
             (ld_connections ld)
    | None => false
    end in
  if refuted then None else Some s.

(** [_active_cooldown] *)
Definition active_cooldown (cache : option HealthCache) (st : LadderState) (key : string)
    (now : Z) (route_id : option string) : option Z :=
  let until := c ← st_cooldowns st !! key; instant <$> parse_iso (cd_until c) in
  let until := match cached_cooldown cache key now route_id, until with
               | Some s, None => Some (sc_until s)
               | Some s, Some u => Some (if u <? sc_until s then sc_until s else u)
               | None, u => u
               end in
  u ← until; if now <? u then Some u else None.

(** [_rate_limited_until] *)
Definition rate_limited_until (conn : Connection) (route_id : string) (now : Z) : option Z :=
  foldl (fun blocked kv =>
           if contains (fst kv) "/" && negb (String.eqb (fst kv) route_id) then blocked
           else match instant <$> parse_iso (snd kv) with
                | Some u =>
                    if (now <? u) && match blocked with Some b => b <? u | None => true end
                    then Some u else blocked
                | None => blocked
                end) None (conn_rate_limited_until conn).

Definition EFFORT_SUFFIXES : list string := ["-low"; "-medium"; "-high"; "-xhigh"; "-max"; "-ultra"].
Definition CODING_MARKERS : list string := ["code"; "codex"; "sonnet"; "fable"; "opus"].

(** [caps.get(key)] as a truth value *)
Definition has_cap (row : Row) (key : string) : bool :=
  default false (caps ← row_caps row; dict_get key caps).

(** [a or b or 0] for optional integers *)
Definition context_tokens (row : Row) : Z :=
  match row_max_input_tokens row with
  | Some n => if n =? 0 then default 0 (row_context_length row) else n
  | None => default 0 (row_context_length row)
  end.

(** The agentic gate of [_task_gate] for free routes. *)
Definition agentic_gate (cache : option HealthCache) (route_id : string) (now : Z) : string :=
  match cache with
  | None => "no_health_cache"
  | Some c =>
      let entry := snd (cache_lookup c route_id now) in
      let '(qualified, session) := agentic_capability entry now in
      if negb qualified then
        match entry with
        | None => "no_agentic_probe"
        | Some e => if negb session && negb (hce_agentic_ok e) then "no_agentic_probe"
                    else if session then "session_capability_expired_or_revoked"
                    else "agentic_probe_stale"
        end
      else
        match env_session route_id now 14 with
        | None => ""
        | Some stats =>
            if ses_passes stats + ses_fails stats =? 0 then ""
            else match env_session route_id now 7 with
                 | None => ""
                 | Some recent =>
                     if negb (ses_false_claims recent =? 0) then "recent_false_claim"
                     else if Qltb (ses_score stats) (1 # 2) then "session_evidence_insufficient"
                     else ""
                 end
        end
  end.

(** [_task_gate]; the empty string means the route passes. *)
Definition task_gate (cache : option HealthCache) (row : Row) (route_id : string)
    (req : TaskRequirements) (capacity : CapacityClass.t) (now : Z) : string :=
  let missing := List.find (fun needed =>
      negb (has_cap row (if String.eqb needed "tools" then "tool_calling" else needed)))
      (sort_str (tr_required_capabilities req)) in
  match missing with
  | Some needed => "missing_capability:" +:+ needed
  | None =>
      if context_tokens row <? tr_min_context_tokens req then "insufficient_context"
      else if mem (pool_of route_id) (tr_exclude_pools req) then "excluded_pool"
      else if mem route_id (tr_exclude_routes req) then "excluded_route"
      else if mem (route_family route_id) (tr_exclude_families req) then "excluded_family"
      else if mem (backend_pool route_id) (tr_exclude_families req) then "excluded_family"
      else if mem (backend_pool route_id) (aliased_pools_for (tr_exclude_routes req))
      then "excluded_family"
      else if existsb (fun suffix => endswith (lower route_id) suffix
                 && bool_decide (is_Some (dict_get (chop_suffix route_id suffix) (ld_rows ld))))
                EFFORT_SUFFIXES
      then "effort_duplicate"
      else if bool_decide (capacity = CapacityClass.FREE) && negb (tr_frontier_worthy req)
      then agentic_gate cache route_id now
      else ""
  end.

(** [_declared_tier] and [_capability_tier] *)
Definition declared_tier (row : Row) : option Z :=
  t ← row_capability_tier row; if (0 <=? t) && (t <=? 3) then Some t else None.

Definition capability_tier (row : Row) (route_id : string) : option Z :=
  match declared_tier row with
  | Some t => Some t
  | None => classify_known [] route_id
  end.

(** [_capability_facts] *)
Definition capability_facts (row : Row) : option Z * option bool * option bool :=
  let ctx := match row_max_input_tokens row with
             | Some n => Some n
             | None => row_context_length row
             end in
  (n ← ctx; (if 0 <? n then Some n else None),
   caps ← row_caps row; dict_get "tool_calling" caps,
   caps ← row_caps row; dict_get "structured_output" caps).

(** [_marginal_price]: [None] when no price is known. *)
Definition marginal_price (row : Row) : option Q :=
  pricing ← row_pricing row;
  let known := List.filter (Qle_bool 0)
    (omap (fun k => dict_get k pricing) ["input"; "output"; "prompt"; "completion"]) in
  match known with
  | [] => None
  | _ => Some (foldr Qplus 0%Q known)
  end.

(** [_fit] *)
Definition fit (row : Row) (route_id : string) (req : TaskRequirements) : Z :=
  (if tr_coding req && existsb (contains (lower route_id)) CODING_MARKERS then 2 else 0)
  + (if tr_reasoning req && has_cap row "reasoning" then 1 else 0).

Definition no_facts : Facts :=
  {| f_tier := None; f_slack := 0; f_price := None; f_fit := 0; f_quota := None;
     f_rating := (3, 0%Q, 0); f_evidence_level := None; f_context := None; f_tools := None;
     f_structured := None |}.

(** [admission stage] to ladder stage *)
Definition admission_to_ladder (s : option AdmissionStage.t) : EligibilityStage.t :=
  match s with
  | Some AdmissionStage.DISCOVERED => EligibilityStage.DISCOVERED
  | Some AdmissionStage.ENTITLED => EligibilityStage.ENTITLED
  | Some AdmissionStage.HEALTHY => EligibilityStage.HEALTHY
  | Some AdmissionStage.AVAILABLE => EligibilityStage.AVAILABLE
  | _ => EligibilityStage.TASK_ELIGIBLE
  end.

(** The provider of a route, and the connection that serves it. *)
Definition provider_and_connection (route_id : string) (row : Row) : string * option Connection :=
  let raw := lower (row_owned_by row) in
  let resolved := if String.eqb raw "" then "" else resolve_provider raw in
  let provider := if String.eqb resolved "" then lower (split1_head "/" route_id) else resolved in
  match connection_for provider with
  | Some c => (provider, Some c)
  | None =>
      if negb (String.eqb raw "") && negb (String.eqb raw provider)
      then match connection_for raw with
           | Some c => (raw, Some c)
           | None => (provider, None)
           end
      else (provider, None)
  end.

(** The active connections of a provider. *)
Definition provider_connections (provider : string) : list Connection :=
  List.filter (fun c => String.eqb (lower (conn_provider c)) provider && conn_active c)
    (ld_connections ld).

Definition cooldown_keys (pool route_id provider : string) : list (string * string) :=
  [("pool:" +:+ pool, "cooldown:pool"); ("route:" +:+ route_id, "cooldown:route");
   ("provider:" +:+ provider, "cooldown:provider")].

(** The first key of [keys] with an active cooldown. *)
Fixpoint first_cooldown (cache : option HealthCache) (st : LadderState) (now : Z)
    (route_id : string) (keys : list (string * string)) : option (string * string * Z) :=
  match keys with
  | [] => None
  | (key, label) :: keys =>
      match active_cooldown cache st key now (Some route_id) with
      | Some u => Some (key, label, u)
      | None => first_cooldown cache st now route_id keys
      end
  end.

Definition iso_us (t : Z) : string := iso (utc t).

(** The stages of [_assess] up to AVAILABLE, on a fresh assessment [a]: the
    assessment, failed or ready for the task gate. *)
Definition assess_available (cache : option HealthCache) (admitted : option AdmittedSet)
    (st : LadderState) (route_id : string) (conn : option Connection) (a : Assessment) (now : Z)
    : Assessment :=
  let rejected := match admitted with
                  | Some s => if admits s route_id then None else Some (first_failure s route_id)
                  | None => None
                  end in
  match rejected, conn with
  | Some r, _ =>
      fail_at a (admission_to_ladder (ar_first_failed_stage r)) ("admission:" +:+ ar_reason r)
        (ar_until r) ""
  | None, None => fail_at a EligibilityStage.ENTITLED "no_active_account" None ""
  | None, Some c =>
      if negb (conn_active c) then fail_at a EligibilityStage.ENTITLED "no_active_account" None ""
      else
        let hidden := match ld_harness ld with
                      | Some (visible, available) =>
                          if visible route_id then None
                          else Some (if (available : bool) then "not_harness_visible"
                                     else "harness_inventory_unavailable")
                      | None => None
                      end in
        match hidden with
        | Some reason => fail_at a EligibilityStage.ENTITLED reason None ""
        | None =>
            let '(health, category) := health_status cache admitted st route_id now in
            let a := set_health a health category in
            if String.eqb health "unhealthy" then
              match active_cooldown cache st ("route:" +:+ route_id) now None with
              | Some u => fail_at a EligibilityStage.HEALTHY category (Some (iso_us u))
                            ("route:" +:+ route_id)
              | None => fail_at a EligibilityStage.HEALTHY category None ""
              end
            else
              match first_cooldown cache st now route_id
                      (cooldown_keys (a_pool a) route_id (a_provider a)) with
              | Some (key, label, u) =>
                  fail_at a EligibilityStage.AVAILABLE label (Some (iso_us u)) key
              | None =>
                  match rate_limited_until c route_id now with
                  | Some u => fail_at a EligibilityStage.AVAILABLE "provider_rate_limited"
                                (Some (iso_us u)) ""
                  | None => a
                  end
              end
        end
  end.

Definition min_list (l : list Z) : option Z :=
  foldr (fun x acc => Some (match acc with Some y => Z.min x y | None => x end)) None l.
Definition minQ_list (l : list Q) : option Q :=
  foldr (fun x acc => Some (match acc with Some y => Qminb x y | None => x end)) None l.
Definition maxQ_list (l : list Q) : option Q :=
  foldr (fun x acc => Some (match acc with Some y => Qmaxb x y | None => x end)) None l.

(** The measured quota of the provider's active connections. *)
Definition measured_quota (provider route_id : string) : list Q :=
  omap (fun c => quota_remaining c route_id) (provider_connections provider).

(** The quota gate of [_assess]. *)
Definition assess_quota (route_id : string) (a : Assessment) (now : Z) : Assessment :=
  match maxQ_list (measured_quota (a_provider a) route_id) with
  | None => a
  | Some best =>
      if Qltb best (ld_min_quota ld) then
        let reset := min_list (omap (fun c => instant <$> parse_iso (conn_quota_reset_at c))
                                 (provider_connections (a_provider a))) in
        fail_at a EligibilityStage.AVAILABLE "quota_low"
          (r ← reset; if now <? r then Some (iso_us r) else None) ""
      else a
  end.

(** The task gate, the sufficiency floor and the ranking facts. *)
Definition assess_task (cache : option HealthCache) (row : Row) (route_id : string)
    (req : TaskRequirements) (a : Assessment) (now : Z) : Assessment :=
  let '(context, tools, structured) := capability_facts row in
  let quota := minQ_list (measured_quota (a_provider a) route_id) in
  let facts tier slack price fit_ rating level :=
    {| f_tier := tier; f_slack := slack; f_price := price; f_fit := fit_; f_quota := quota;
       f_rating := rating; f_evidence_level := level; f_context := context; f_tools := tools;
       f_structured := structured |} in
  let bare := set_facts a (facts None 0 None 0 (3, 0%Q, 0) None) in
  let reason := task_gate cache row route_id req (a_capacity a) now in
  if negb (String.eqb reason "") then fail_at bare EligibilityStage.TASK_ELIGIBLE reason None ""
  else
    let tier := capability_tier row route_id in
    let max_tier := tr_max_capability_tier req in
    let gate := match tier with
      | None => if max_tier <? 3 then Err "unknown_capability" else Ok 4
      | Some t => if max_tier <? t then Err "insufficient_capability" else Ok (max_tier - t)
      end in
    match gate with
    | Err reason =>
        fail_at (set_facts a (facts tier 0 None 0 (3, 0%Q, 0) None))
          EligibilityStage.TASK_ELIGIBLE reason None ""
    | Ok slack =>
        let level := if bool_decide (a_capacity a = CapacityClass.FREE)
                        && negb (tr_frontier_worthy req) && (max_tier =? 3)
                     then Some "probation" else None in
        set_facts a (facts tier slack (marginal_price row) (fit row route_id req)
                       (env_rating route_id (tr_coding req) (declared_tier row)) level)
    end.

(** [_assess] *)
Definition assess (cache : option HealthCache) (admitted : option AdmittedSet) (st : LadderState)
    (route_id : string) (row : Row) (req : TaskRequirements) (now : Z) : Assessment :=
  let '(provider, conn) := provider_and_connection route_id row in
  let '(capacity, evidence) := capacity_class cache conn row route_id now in
  let a := {| a_route := route_id; a_provider := provider; a_capacity := capacity;
              a_pool := pool_of route_id; a_capacity_evidence := evidence;
              a_out := {| o_failed := None; o_reason := ""; o_cooldown_until := None;
                          o_cooldown_scope := ""; o_health := "unprobed";
                          o_health_category := "" |};
              a_facts := no_facts |} in
  let a := assess_available cache admitted st route_id conn a now in
  match a_failed a with
  | Some _ => a
  | None =>
      let a := assess_quota route_id a now in
      match a_failed a with
      | Some _ => a
      | None => assess_task cache row route_id req a now
      end
  end.

(** * Ranking *)

(** [tuple <= tuple] for tuples of numbers of the same length *)
Fixpoint lex_leb (a b : list Q) : bool :=
  match a, b with
  | [], _ => true
  | _ :: _, [] => false
  | x :: a, y :: b => if Qltb x y then true else if Qltb y x then false else lex_leb a b
  end.

Definition index_of (x : string) (l : list string) : Z :=
  (fix go (l : list string) (i : Z) : Z :=
     match l with
     | [] => i
     | y :: l => if String.eqb x y then i else go l (i + 1)
     end) l 0.

Definition maxsize : Z := 9223372036854775807.

(** The first three components of [_rank_key]: capacity tier, then measured token
    usage for subscriptions. *)
Definition route_cost (capacity : CapacityClass.t) (route_id : string) : list Q :=
  let subscription := bool_decide (capacity = CapacityClass.SUBSCRIPTION) in
  let tokens := env_tokens route_id in
  [inject_Z (CAPACITY_ORDER capacity);
   if subscription && bool_decide (tokens = None) then 1%Q else 0%Q;
   if subscription then default 0%Q tokens else 0%Q].

Definition cost_key (a : Assessment) : list Q := route_cost (a_capacity a) (a_route a).

(** [rating_key] as the ranking uses it *)
Definition rating_part (a : Assessment) : list Q :=
  let '(rank, neg_score, declared) := f_rating (a_facts a) in
  [inject_Z rank; (if (rank =? 0) || (rank =? 1) then neg_score else 0%Q);
   (if rank =? 2 then inject_Z declared else 0%Q)].

(** [rating_key(a.rating)] *)
Definition rating_triple (a : Assessment) : list Q :=
  let '(rank, neg_score, declared) := f_rating (a_facts a) in
  [inject_Z rank; neg_score; inject_Z declared].

Definition rankings_apply (req : TaskRequirements) : bool :=
  match ld_rankings_category ld with
  | None => true
  | Some c => String.eqb c (tr_task_category req)
  end.

Definition advisory_rank (req : TaskRequirements) (a : Assessment) : Z :=
  if rankings_apply req then default maxsize (ld_rankings ld !! a_route a) else maxsize.

(** [_rank_key] without its last component, the route id *)
Definition rank_key (req : TaskRequirements) (a : Assessment) : list Q :=
  let subscription := bool_decide (a_capacity a = CapacityClass.SUBSCRIPTION) in
  cost_key a ++ rating_part a ++
  [inject_Z (f_slack (a_facts a)); inject_Z (advisory_rank req a);
   (if subscription then 0%Q else inject_Z (quota_rank (f_quota (a_facts a))));
   inject_Z (index_of (a_provider a) (ld_prefer ld)); inject_Z (ld_load ld (a_route a));
   inject_Z (- f_fit (a_facts a))].

Definition rank_le (req : TaskRequirements) (a b : Assessment) : bool :=
  let ka := rank_key req a in let kb := rank_key req b in
  if lex_leb ka kb then (if lex_leb kb ka then str_leb (a_route a) (a_route b) else true) else false.

Definition OPAQUE_PREFIXES : list string := ["auto/"; "combo/"; "router/"; "virtual/"].

Definition discoverable (route_id : string) (row : Row) : bool :=
  negb (existsb (startswith (lower route_id)) OPAQUE_PREFIXES
        || String.eqb (lower (row_owned_by row)) "combo").

(** The assessments of [_assess_all], in route order, before the load check. *)
Definition assess_rows (cache : option HealthCache) (admitted : option AdmittedSet)
    (st : LadderState) (req : TaskRequirements) (now : Z) : list Assessment :=
  omap (fun route_id =>
          row ← dict_get route_id (ld_rows ld);
          if discoverable route_id row then Some (assess cache admitted st route_id row req now)
          else None)
    (sort_str (map fst (ld_rows ld))).

Definition at_capacity (a : Assessment) : bool := ld_max_per_route ld <=? ld_load ld (a_route a).

(** [_assess_all]: every assessment, and the ranked candidates. *)
Definition assess_all (cache : option HealthCache) (admitted : option AdmittedSet)
    (st : LadderState) (req : TaskRequirements) (now : Z) : list Assessment * list Assessment :=
  let assessments := map (fun a => if selectable a && at_capacity a
                                   then fail_at a EligibilityStage.SELECTED "at_capacity" None ""
                                   else a)
                       (assess_rows cache admitted st req now) in
  (assessments, sort_by (rank_le req) (List.filter selectable assessments)).

(** * The order of probes *)

Definition providers_of (candidates : list Assessment) : list string :=
  dedupe (map a_provider candidates).

(** The [i]-th of each queue, for every [i] below [depth]. *)
Definition round_robin {A} (queues : list (list A)) : list A :=
  concat (map (fun i => omap (fun q => q !! i) queues)
            (seq 0 (foldr Nat.max 0%nat (map length queues)))).

Definition queues (candidates : list Assessment) (fresh : bool) : list (list Assessment) :=
  map (fun p => List.filter (fun a => String.eqb (a_provider a) p
                 && Bool.eqb (String.eqb (a_health a) "healthy") fresh) candidates)
    (providers_of candidates).

(** [_probe_order] *)
Definition probe_order (candidates : list Assessment) : list Assessment :=
  sort_by (fun a b => lex_leb (cost_key a ++ rating_triple a) (cost_key b ++ rating_triple b))
    (round_robin (queues candidates true) ++ round_robin (queues candidates false)).

(** * Recording outcomes *)

Definition set_cooldown (st : LadderState) (key : string) (c : Cooldown) : LadderState :=
  {| st_health := st_health st; st_cooldowns := <[key := c]> (st_cooldowns st);
     st_not_free := st_not_free st |}.

Definition set_mark (st : LadderState) (route_id : string) (m : HealthMark) : LadderState :=
  {| st_health := <[route_id := m]> (st_health st); st_cooldowns := st_cooldowns st;
     st_not_free := st_not_free st |}.

Definition cooldown_entry (now : Z) (seconds : Q) (category : string) : Cooldown :=
  {| cd_until := iso_us (now + seconds_us seconds); cd_category := category |}.

(** The category [_record_health] stores: catalog ghosts are told apart. *)
Definition health_category (r : HealthResult) : string :=
  if negb (hr_healthy r) && mem (hr_category r) ["bad_request"; "unservable"; "unsupported"]
     && is_catalog_stale_error (hr_error_message r)
  then "catalog_stale" else hr_category r.

(** [_record_health] *)
Definition record_health (st : LadderState) (route_id : string) (r : HealthResult) (now : Z)
    (provider : string) : LadderState :=
  let category := health_category r in
  let st := set_mark st route_id {| hm_healthy := hr_healthy r; hm_category := category;
                                    hm_checked_at := iso_us now |} in
  if hr_healthy r then st
  else
    let entry := cooldown_entry now (cooldown_seconds_for category (hr_retry_after r)) category in
    let st := set_cooldown st ("route:" +:+ route_id) entry in
    let st := if negb (String.eqb provider "") && mem category PROVIDER_SCOPE_CATEGORIES
              then set_cooldown (set_cooldown st ("pool:" +:+ pool_of route_id) entry)
                     ("provider:" +:+ provider) entry
              else st in
    if is_not_free_signal category (hr_status_code r) ""
    then {| st_health := st_health st; st_cooldowns := st_cooldowns st;
            st_not_free := record_not_free_override (st_not_free st) route_id
                             (backend_pool route_id) (cd_until entry) category |}
    else st.

(** The provider [record_failure] and [dispatch_blocker] attribute a route to. *)
Definition provider_of (route_id : string) : string :=
  let raw := match dict_get route_id (ld_rows ld) with
             | Some row => lower (row_owned_by row)
             | None => ""
             end in
  let resolved := if String.eqb raw "" then "" else resolve_provider raw in
  if String.eqb resolved "" then lower (split1_head "/" route_id) else resolved.

(** [record_failure] *)
Definition record_failure (st : LadderState) (route_id : string) (f : FailureClassification)
    (now : Z) : LadderState :=
  let retry := if Qltb 0 (fc_cooldown_seconds f) then Some (fc_cooldown_seconds f) else None in
  let entry := cooldown_entry now (cooldown_seconds_for (fc_category f) retry) (fc_category f) in
  let pooled := mem (fc_category f) POOL_COOLDOWN_CATEGORIES in
  let provider := String.eqb (fc_scope f) "provider" in
  let st := if provider && pooled then set_cooldown st ("pool:" +:+ pool_of route_id) entry else st in
  let st := if provider || String.eqb (fc_scope f) "route"
            then set_cooldown st ("route:" +:+ route_id) entry else st in
  if provider && negb pooled then set_cooldown st ("provider:" +:+ provider_of route_id) entry else st.

(** [record_success] *)
Definition record_success (cache : option HealthCache) (st : LadderState) (route_id : string)
    (now : Z) : LadderState :=
  let pool_key := "pool:" +:+ pool_of route_id in
  let held := match st_cooldowns st !! pool_key with
              | Some c => mem (cd_category c) POOL_COOLDOWN_CATEGORIES
                          && bool_decide (is_Some (active_cooldown cache st pool_key now None))
              | None => false
              end in
  let cooldowns := if held then st_cooldowns st else delete pool_key (st_cooldowns st) in
  {| st_health := <[route_id := {| hm_healthy := true; hm_category := "";
                                   hm_checked_at := iso_us now |}]> (st_health st);
     st_cooldowns := delete ("route:" +:+ route_id) cooldowns; st_not_free := st_not_free st |}.

(** The merge of persisted cooldowns in [dispatch_blocker]: the later deadline wins. *)
Definition merge_cooldowns (mine disk : gmap string Cooldown) : gmap string Cooldown :=
  merge (fun m d => match m, d with
                    | Some c, Some e => Some (if str_ltb (cd_until c) (cd_until e) then e else c)
                    | None, d => d
                    | m, None => m
                    end) mine disk.

(** [dispatch_blocker]: the ladder state after the merge, and the blocking key. *)
Definition dispatch_blocker (cache : option HealthCache) (st : LadderState)
    (disk : gmap string Cooldown) (route_id : string) (now : Z) : LadderState * option string :=
  let st := {| st_health := st_health st; st_cooldowns := merge_cooldowns (st_cooldowns st) disk;
               st_not_free := st_not_free st |} in
  let keys := cooldown_keys (pool_of route_id) route_id (provider_of route_id) in
  (st, match first_cooldown cache st now route_id keys with
       | Some (key, _, _) => Some key
       | None =>
           if match cache with
              | Some c => bool_decide (fst (cache_lookup c route_id now) = Negative)
              | None => false
              end
           then Some ("route:" +:+ route_id) else None
       end).

(** * Selection *)

(** The state of one [select] call. [ss_probed] lists the probed routes, newest
    first; [probes_used] is its length. The candidates are the same objects as
    the assessments, so a change to one shows in the other. *)
Record SelectState := {
  ss_as : list Assessment;
  ss_st : LadderState;
  ss_cache : option HealthCache;
  ss_admitted : option AdmittedSet;
  ss_probed : list string;
  ss_blocked : list (string * string)
}.

Definition find_a (route_id : string) (l : list Assessment) : option Assessment :=
  List.find (fun a => String.eqb (a_route a) route_id) l.

Definition update_a (route_id : string) (f : Assessment -> Assessment) (l : list Assessment)
    : list Assessment :=
  map (fun a => if String.eqb (a_route a) route_id then f a else a) l.

Definition ss_update (ss : SelectState) (route_id : string) (f : Assessment -> Assessment)
    : SelectState :=
  {| ss_as := update_a route_id f (ss_as ss); ss_st := ss_st ss; ss_cache := ss_cache ss;
     ss_admitted := ss_admitted ss; ss_probed := ss_probed ss; ss_blocked := ss_blocked ss |}.

Definition ss_block (ss : SelectState) (provider until : string) : SelectState :=
  {| ss_as := ss_as ss; ss_st := ss_st ss; ss_cache := ss_cache ss;
     ss_admitted := ss_admitted ss; ss_probed := ss_probed ss;
     ss_blocked := dict_set provider until (ss_blocked ss) |}.

Definition set_reason (a : Assessment) (reason : string) : Assessment :=
  let o := a_out a in
  set_out a {| o_failed := o_failed o; o_reason := reason;
               o_cooldown_until := o_cooldown_until o; o_cooldown_scope := o_cooldown_scope o;
               o_health := o_health o; o_health_category := o_health_category o |}.

Definition fail_cooled (a : Assessment) (until : option string) : Assessment :=
  fail_at a EligibilityStage.AVAILABLE "cooldown:provider" until (o_cooldown_scope (a_out a)).

(** One live probe: its result is recorded in the ladder state, in the cache, and,
    when it confirms an admitted route, in the admitted set. *)
Definition probe_route (ss : SelectState) (a : Assessment) (confirming : bool) (now : Z)
    : result admission_exn (SelectState * HealthResult) :=
  let r := env_probe (ss_probed ss) (a_route a) in
  let probed := a_route a :: ss_probed ss in
  let cache := (fun c => env_observe probed c (a_route a) r now) <$> ss_cache ss in
  let st := record_health (ss_st ss) (a_route a) r now (a_provider a) in
  admitted ← match ss_admitted ss with
             | Some s =>
                 if confirming
                 then s' ← record_confirmation s (a_route a) (hr_healthy r)
                        "ladder_probe:openai_health_probe" (iso_us now) (hr_category r);
                      Ok (Some s')
                 else Ok (Some s)
             | None => Ok None
             end;
  Ok ({| ss_as := ss_as ss; ss_st := st; ss_cache := cache; ss_admitted := admitted;
         ss_probed := probed; ss_blocked := ss_blocked ss |}, r).

(** A newer negative observation in the cache than this probe. *)
Definition newer_negative (cache : option HealthCache) (route_id : string) (r : HealthResult)
    (now : Z) : bool :=
  match cache with
  | Some c => match hc_routes c !! route_id with
              | Some e => hr_healthy r && negb (hce_healthy e) && (now <=? hce_checked_at e)
              | None => false
              end
  | None => false
  end.

(** The probe of one candidate: the state after it, and whether it is healthy. *)
Definition confirm_route (ss : SelectState) (a : Assessment) (confirming : bool) (now : Z)
    : result admission_exn (SelectState * bool) :=
  let id := a_route a in
  '(ss, r) ← probe_route ss a confirming now;
  if newer_negative (ss_cache ss) id r now
  then Ok (ss_update ss id (fun a => fail_at a EligibilityStage.HEALTHY "newer_negative"
             (o_cooldown_until (a_out a)) (o_cooldown_scope (a_out a))), false)
  else if negb (hr_healthy r) then
    let until := match st_cooldowns (ss_st ss) !! ("route:" +:+ id) with
                 | Some c => Some (cd_until c)
                 | None => o_cooldown_until (a_out a)
                 end in
    let ss := ss_update ss id (fun a =>
      fail_at (set_health a "unhealthy" (o_health_category (a_out a))) EligibilityStage.HEALTHY
        (hr_category r) until (o_cooldown_scope (a_out a))) in
    Ok (if mem (hr_category r) PROVIDER_SCOPE_CATEGORIES
        then ss_block ss (a_provider a)
               (match active_cooldown (ss_cache ss) (ss_st ss) ("provider:" +:+ a_provider a) now None with
                | Some u => iso_us u
                | None => default "None" until
                end)
        else ss, false)
  else Ok (ss_update ss id (fun a => set_reason (set_health a "healthy" (o_health_category (a_out a))) ""),
           true).

(** The loop over the probe order. *)
Fixpoint select_loop (order : list string) (ss : SelectState) (now : Z)
    : result admission_exn (SelectState * option string) :=
  match order with
  | [] => Ok (ss, None)
  | id :: order =>
      match find_a id (ss_as ss) with
      | None => select_loop order ss now
      | Some a =>
          match a_failed a, dict_get (a_provider a) (ss_blocked ss) with
          | Some _, _ => select_loop order ss now
          | None, Some until =>
              select_loop order (ss_update ss id (fun a => fail_cooled a (Some until))) now
          | None, None =>
              let confirming := match ss_admitted ss with
                                | Some s => negb (launchable s id)
                                | None => false
                                end in
              let needs := negb (String.eqb (a_health a) "healthy") || confirming
                           || env_proof_stale (ss_probed ss) id now in
              if needs && (ld_max_probes ld <=? length (ss_probed ss))%nat
              then select_loop order
                     (ss_update ss id (fun a => set_reason a "probe_budget_exhausted")) now
              else
                '(ss, ok) ← (if (needs : bool) then confirm_route ss a confirming now
                             else Ok (ss, true));
                if negb (ok : bool) then select_loop order ss now
                else
                  _ ← match ss_admitted ss with
                      | Some s => require_launchable s id "EligibilityLadder.select"
                      | None => Ok tt
                      end;
                  Ok (ss, Some id)
          end
      end
  end.

(** Candidates not reached before the choice inherit the block of their provider. *)
Definition inherit_blocks (ss : SelectState) (candidates : list string) (chosen : option string)
    : list Assessment :=
  map (fun a =>
         match dict_get (a_provider a) (ss_blocked ss), a_failed a with
         | Some until, None =>
             if mem (a_route a) candidates && negb (bool_decide (chosen = Some (a_route a)))
             then fail_cooled a (Some until) else a
         | _, _ => a
         end) (ss_as ss).

(** The refresh step before probing: the statuses the hook reported, and the cache
    after it. *)
Definition apply_refresh (ss : SelectState) (candidates : list string) (req : TaskRequirements)
    (now : Z) (refresh : option (option (list (string * string)) * option HealthCache))
    : SelectState :=
  match refresh with
  | None => ss
  | Some (statuses, cache) =>
      let reported id := lower (default "" (m ← statuses; dict_get id m)) in
      let step a :=
        if negb (mem (a_route a) candidates) then a
        else
          let a := if mem (reported (a_route a)) ["failed"; "unavailable"]
                   then fail_at a EligibilityStage.HEALTHY (reported (a_route a))
                          (o_cooldown_until (a_out a)) (o_cooldown_scope (a_out a))
                   else a in
          match a_failed a, dict_get (a_route a) (ld_rows ld) with
          | None, Some row =>
              let b := assess cache (ss_admitted ss) (ss_st ss) (a_route a) row req now in
              let a' := set_health a (a_health b) (o_health_category (a_out b)) in
              match a_failed b with
              | Some stage => fail_at a' stage (o_reason (a_out b)) (o_cooldown_until (a_out b))
                                (o_cooldown_scope (a_out b))
              | None => a'
              end
          | _, _ => a
          end in
      {| ss_as := map step (ss_as ss); ss_st := ss_st ss; ss_cache := cache;
         ss_admitted := ss_admitted ss; ss_probed := ss_probed ss; ss_blocked := ss_blocked ss |}
  end.

(** [RouteVerdict] *)
Record RouteVerdict := {
  v_route : string;
  v_provider : string;
  v_reached : option EligibilityStage.t;
  v_failed : option EligibilityStage.t;
  v_reason : string;
  v_capacity : CapacityClass.t;
  v_cooldown_until : option string;
  v_rank : option nat;
  v_tier : option Z;
  v_context : option Z;
  v_tools : option bool;
  v_structured : option bool;
  v_price : option Q;
  v_pool : string;
  v_capacity_evidence : string;
  v_cooldown_scope : string
}.

Fixpoint position (x : string) (l : list string) : option nat :=
  match l with
  | [] => None
  | y :: l => if String.eqb x y then Some 0%nat else S <$> position x l
  end.

(** [_Assessment.verdict] *)
Definition verdict (rank : option nat) (a : Assessment) : RouteVerdict :=
  let o := a_out a in let f := a_facts a in
  {| v_route := a_route a; v_provider := a_provider a; v_reached := reached a;
     v_failed := o_failed o;
     v_reason := if String.eqb (o_reason o) ""
                 then (if String.eqb (o_health o) "healthy" then "ranked" else "unprobed")
                 else o_reason o;
     v_capacity := a_capacity a; v_cooldown_until := o_cooldown_until o; v_rank := rank;
     v_tier := f_tier f; v_context := f_context f; v_tools := f_tools f;
     v_structured := f_structured f; v_price := f_price f; v_pool := a_pool a;
     v_capacity_evidence := a_capacity_evidence a; v_cooldown_scope := o_cooldown_scope o |}.

(** The verdict of the selected route. *)
Definition selected_verdict (rank : option nat) (a : Assessment) : RouteVerdict :=
  let f := a_facts a in
  {| v_route := a_route a; v_provider := a_provider a;
     v_reached := Some EligibilityStage.SELECTED; v_failed := None; v_reason := "selected";
     v_capacity := a_capacity a; v_cooldown_until := None; v_rank := rank;
     v_tier := f_tier f; v_context := f_context f; v_tools := f_tools f;
     v_structured := f_structured f; v_price := f_price f; v_pool := a_pool a;
     v_capacity_evidence := a_capacity_evidence a;
     v_cooldown_scope := o_cooldown_scope (a_out a) |}.

(** [evaluate] *)
Definition evaluate (cache : option HealthCache) (admitted : option AdmittedSet)
    (st : LadderState) (req : TaskRequirements) (now : Z) : list RouteVerdict :=
  let '(assessments, candidates) := assess_all cache admitted st req now in
  map (fun a => verdict (position (a_route a) (map a_route candidates)) a) assessments.

Record Selection := {
  sel_state : LadderState;
  sel_admitted : option AdmittedSet;
  sel_cache : option HealthCache;
  sel_chosen : option RouteVerdict;
  sel_verdicts : list RouteVerdict;
  sel_probed : list string
}.

(** The state in which the probe loop starts, and the order of its candidates. *)
Definition select_start (cache : option HealthCache) (admitted : option AdmittedSet)
    (st : LadderState) (req : TaskRequirements) (now : Z)
    (refresh : option (option (list (string * string)) * option HealthCache))
    : SelectState * list string * list string :=
  let '(assessments, candidates) := assess_all cache admitted st req now in
  let ids := map a_route candidates in
  let ss := {| ss_as := assessments; ss_st := st; ss_cache := cache; ss_admitted := admitted;
               ss_probed := []; ss_blocked := [] |} in
  let ss := apply_refresh ss ids req now (if bool_decide (ids = []) then None else refresh) in
  (ss, ids, map a_route (probe_order (omap (fun id => find_a id (ss_as ss)) ids))).

(** [select]; [refresh] is what the refresh hook reported, if one is attached. *)
Definition select (cache : option HealthCache) (admitted : option AdmittedSet)
    (st : LadderState) (req : TaskRequirements) (now : Z)
    (refresh : option (option (list (string * string)) * option HealthCache))
    : result admission_exn Selection :=
  let '(ss, ids, order) := select_start cache admitted st req now refresh in
  '(ss, chosen) ← select_loop order ss now;
  let final := inherit_blocks ss ids chosen in
  let render a := if bool_decide (chosen = Some (a_route a))
                  then selected_verdict (position (a_route a) ids) a
                  else verdict (position (a_route a) ids) a in
  Ok {| sel_state := ss_st ss; sel_admitted := ss_admitted ss; sel_cache := ss_cache ss;
        sel_chosen := id ← chosen; (fun a => selected_verdict (position id ids) a) <$> find_a id final;
        sel_verdicts := map render final; sel_probed := ss_probed ss |}.

End ladder.

(** * The probe order is a rearrangement of the candidates *)

Lemma concat_omap_app {A B} (f : A -> option B) (g : A -> list B) (l : list A) :
  concat (map (fun x => match f x with Some y => y :: g x | None => g x end) l)
  ≡ₚ omap f l ++ concat (map g l).
Proof.
  induction l as [|x l IH]; cbn; [done|]. destruct (f x) as [y|]; cbn.
  - rewrite IH. apply Permutation_skip. rewrite !app_assoc. apply Permutation_app; [|done].
    apply Permutation_app_comm.
  - rewrite IH, !app_assoc. apply Permutation_app; [|done]. apply Permutation_app_comm.
Qed.

Lemma omap_pointwise {A B} (f g : A -> option B) (l : list A) : (forall x, f x = g x) -> omap f l = omap g l.
Proof. intros H. induction l as [|x l IH]; cbn; [done|]. by rewrite H, IH. Qed.

Lemma omap_lookup_seq {A} (q : list A) : forall k n,
  (length q <= n)%nat -> omap (fun i => q !! (i - k)%nat) (seq k n) = q.
Proof.
  induction q as [|x q IH]; intros k n Hn.
  - clear Hn. generalize k at 2. induction n as [|n IHn]; intros j; cbn; [done|].
    rewrite lookup_nil. apply IHn.
  - destruct n as [|n]; cbn in *; [lia|]. rewrite Nat.sub_diag. cbn. f_equal.
    transitivity (omap (fun i => q !! (i - S k)%nat) (seq (S k) n)); [|apply IH; lia]. clear IH Hn.
    assert (H : forall j m, (S k <= j)%nat ->
      omap (fun i => (x :: q) !! (i - k)%nat) (seq j m) = omap (fun i => q !! (i - S k)%nat) (seq j m)).
    { intros j m; revert j; induction m as [|m IHm]; intros j Hj; cbn; [done|].
      replace (j - k)%nat with (S (j - S k)) by lia. cbn. rewrite IHm by lia. done. }
    apply H. lia.
Qed.

Lemma round_robin_perm {A} (qs : list (list A)) : round_robin qs ≡ₚ concat qs.
Proof.
  unfold round_robin. set (depth := foldr Nat.max 0%nat (map length qs)).
  assert (Hd : forall q, q ∈ qs -> (length q <= depth)%nat).
  { subst depth. induction qs as [|q' qs IH]; intros q Hq; [by apply not_elem_of_nil in Hq|].
    cbn. apply elem_of_cons in Hq as [->|Hq]; [lia|]. specialize (IH q Hq). lia. }
  clearbody depth. induction qs as [|q qs IH].
  - change (concat (map (fun _ : nat => @nil A) (seq 0 depth)) ≡ₚ []). by rewrite concat_map_nil.
  - transitivity (concat (map (fun i => match q !! i with
        | Some y => y :: omap (fun q => q !! i) qs | None => omap (fun q => q !! i) qs end)
        (seq 0 depth))).
    { match goal with |- ?x ≡ₚ ?y => enough (x = y) as -> by done end. done. }
    rewrite (concat_omap_app (fun i => q !! i)), IH by (intros; apply Hd; by right).
    cbn [concat]. apply Permutation_app; [|done].
    match goal with |- ?x ≡ₚ ?y => enough (x = y) as -> by done end.
    rewrite <- (omap_lookup_seq q 0 depth) by (apply Hd; by left).
    apply omap_pointwise. intros i. rewrite Nat.sub_0_r.
    by rewrite (omap_lookup_seq q 0 depth) by (apply Hd; by left).
Qed.

Lemma probe_order_perm `{env : LadderEnv} cs : probe_order cs ≡ₚ cs.
Proof.
  unfold probe_order. rewrite sort_by_perm, !round_robin_perm. unfold queues.
  assert (Hg : forall fresh, concat (map (fun p => List.filter (fun a => String.eqb (a_provider a) p
      && Bool.eqb (String.eqb (a_health a) "healthy") fresh) cs) (providers_of cs))
    ≡ₚ List.filter (fun a => Bool.eqb (String.eqb (a_health a) "healthy") fresh) cs).
  { intros fresh. rewrite <- (group_perm a_provider
      (fun a => Bool.eqb (String.eqb (a_health a) "healthy") fresh) (providers_of cs) cs).
    - match goal with |- ?x ≡ₚ ?y => enough (x = y) as -> by done end.
      f_equal. apply map_ext. intros p. apply filter_ext. intros a. f_equal.
      apply eq_bool_prop_intro. rewrite !Is_true_true, bool_decide_eq_true. apply String.eqb_eq.
    - apply dedupe_from_nodup.
    - intros a Ha. apply dedupe_from_elem. split; [|apply not_elem_of_nil].
      apply list_elem_of_fmap. eauto. }
  rewrite !Hg. clear Hg. induction cs as [|a cs IH]; cbn; [done|].
  destruct (String.eqb (a_health a) "healthy"); cbn; [by rewrite IH|].
  rewrite <- Permutation_middle. by rewrite IH.
Qed.

(** * Invariants of selection *)

(** What the probe loop never changes of an assessment. *)
Definition ident (a : Assessment) : string * string * CapacityClass.t * Facts :=
  (a_route a, a_provider a, a_capacity a, a_facts a).

(** A change of an assessment that keeps its identity. *)
Definition keeps_identity (f : Assessment -> Assessment) : Prop :=
  forall a, ident (f a) = ident a.

Lemma ident_route a b : ident a = ident b -> a_route a = a_route b.
Proof. by intros [=]. Qed.

Lemma update_ident id f l : keeps_identity f -> map ident (update_a id f l) = map ident l.
Proof.
  intros Hf. unfold update_a. rewrite map_map. apply map_ext. intros a.
  by destruct (String.eqb (a_route a) id).
Qed.

Lemma find_a_route id l a : find_a id l = Some a -> a ∈ l /\ a_route a = id.
Proof.
  unfold find_a. intros [H E%String.eqb_eq]%find_some. by rewrite list_elem_of_In.
Qed.

Lemma find_update_same id f l :
  keeps_identity f -> find_a id (update_a id f l) = f <$> find_a id l.
Proof.
  intros Hf. unfold find_a, update_a. induction l as [|a l IH]; cbn; [done|].
  destruct (String.eqb_spec (a_route a) id) as [E|E]; cbn.
  - rewrite (ident_route _ _ (Hf a)). by rewrite E, String.eqb_refl.
  - apply String.eqb_neq in E. by rewrite E.
Qed.

Lemma find_update_other id y f l :
  keeps_identity f -> y <> id -> find_a y (update_a id f l) = find_a y l.
Proof.
  intros Hf Hne. unfold find_a, update_a. induction l as [|a l IH]; cbn; [done|].
  destruct (String.eqb_spec (a_route a) id) as [E|E]; cbn.
  - rewrite (ident_route _ _ (Hf a)). rewrite E.
    destruct (String.eqb_spec id y); [congruence|done].
  - by destruct (String.eqb (a_route a) y).
Qed.

Arguments find_a : simpl never.
Arguments update_a : simpl never.

Lemma keeps_fail stage f_reason f_until f_scope :
  keeps_identity (fun a => fail_at a stage (f_reason a) (f_until a) (f_scope a)).
Proof. by intros a. Qed.

Section selection.
Context `{env : LadderEnv} (ld : Ladder) (now : Z).

(** The admitted set changes by the confirmation of the probed route only. *)
Definition confirms (ss : SelectState) (a : Assessment) (confirming : bool)
    (ss' : SelectState) : Prop :=
  let r := env_probe (ss_probed ss) (a_route a) in
  match ss_admitted ss with
  | None => ss_admitted ss' = None
  | Some s => exists s', ss_admitted ss' = Some s' /\
      if confirming then record_confirmation s (a_route a) (hr_healthy r)
        "ladder_probe:openai_health_probe" (iso_us now) (hr_category r) = Ok s'
      else s' = s
  end.

(** What probing one candidate does. *)
Record confirm_spec (ss : SelectState) (a : Assessment) (confirming : bool)
    (ss' : SelectState) (ok : bool) : Prop := {
  cs_upd : exists g, keeps_identity g /\ ss_as ss' = update_a (a_route a) g (ss_as ss) /\
    (ok = false -> forall b, a_failed (g b) <> None) /\
    (ok = true -> forall b, a_failed (g b) = a_failed b /\ a_health (g b) = "healthy");
  cs_probed : ss_probed ss' = a_route a :: ss_probed ss;
  cs_healthy : ok = true -> hr_healthy (env_probe (ss_probed ss) (a_route a)) = true;
  cs_adm : confirms ss a confirming ss';
  cs_blocked : ss_blocked ss' = ss_blocked ss \/
    exists u, ss_blocked ss' = dict_set (a_provider a) u (ss_blocked ss);
  cs_scope : let r := env_probe (ss_probed ss) (a_route a) in
    hr_healthy r = false -> mem (hr_category r) PROVIDER_SCOPE_CATEGORIES = true ->
    is_Some (dict_get (a_provider a) (ss_blocked ss'))
}.

Lemma probe_route_inv ss a confirming ss' r :
  probe_route ss a confirming now = Ok (ss', r) ->
  ss_as ss' = ss_as ss /\ ss_probed ss' = a_route a :: ss_probed ss /\
  ss_blocked ss' = ss_blocked ss /\ r = env_probe (ss_probed ss) (a_route a) /\
  confirms ss a confirming ss'.
Proof.
  unfold probe_route. intros (adm & Hadm & [= <- <-])%bind_ok. cbn. split_and!; try done.
  unfold confirms. destruct (ss_admitted ss) as [s|]; cbn; [|by injection Hadm as <-].
  destruct confirming.
  - apply bind_ok in Hadm as (s' & Hs & [= <-]). eauto.
  - injection Hadm as <-. eauto.
Qed.

Lemma confirm_route_spec ss a confirming ss' ok :
  confirm_route ld ss a confirming now = Ok (ss', ok) -> confirm_spec ss a confirming ss' ok.
Proof.
  unfold confirm_route. intros ([s1 r] & Hp & H)%bind_ok.
  apply probe_route_inv in Hp as (Has & Hpr & Hbl & -> & Hadm).
  set (r := env_probe (ss_probed ss) (a_route a)) in *.
  destruct (newer_negative (ss_cache s1) (a_route a) r now) eqn:En.
  - injection H as <- <-. constructor; cbn; rewrite ?Has.
    + eexists. split_and!; [apply keeps_fail|done|done|done].
    + done.
    + done.
    + done.
    + by left.
    + intros Hf. exfalso. unfold newer_negative in En. destruct (ss_cache s1); [|done].
      destruct (_ !! _); [|done]. fold r in Hf. by rewrite Hf in En.
  - destruct (hr_healthy r) eqn:Eh; cbn in H.
    + injection H as <- <-. constructor; cbn; rewrite ?Has; try done;
        try (by left); try (fold r; by rewrite Eh).
      eexists. split_and!; [|done|done|done]. by intros b.
    + assert (Hg : forall u, exists g, keeps_identity g /\
        update_a (a_route a) (fun a => fail_at (set_health a "unhealthy" (o_health_category (a_out a)))
          EligibilityStage.HEALTHY (hr_category r) u (o_cooldown_scope (a_out a))) (ss_as ss)
        = update_a (a_route a) g (ss_as ss) /\
        (false = false -> forall b, a_failed (g b) <> None) /\
        (false = true -> forall b, a_failed (g b) = a_failed b /\ a_health (g b) = "healthy")).
      { intros u. eexists. split_and!; [|done|done|done]. by intros b. }
      destruct (mem (hr_category r) PROVIDER_SCOPE_CATEGORIES) eqn:Em; injection H as <- <-;
        constructor; cbn; rewrite ?Has; try apply Hg; try done.
      * right. rewrite Hbl. eauto.
      * intros _ _. rewrite dict_get_set. eauto.
      * by left.
      * intros _. fold r. by rewrite Em.
Qed.

(** A probe failure that speaks for the whole account. *)
Definition account_failure (r : HealthResult) : Prop :=
  hr_healthy r = false /\ mem (hr_category r) PROVIDER_SCOPE_CATEGORIES = true.

(** [ss1] differs from [ss] only at route [x], and by at most one probe of it,
    within the budget. *)
Record touches (x : string) (ss ss1 : SelectState) : Prop := {
  to_same : map ident (ss_as ss1) = map ident (ss_as ss);
  to_other : forall y, y <> x -> find_a y (ss_as ss1) = find_a y (ss_as ss);
  to_probed : ss_probed ss1 = ss_probed ss \/
    ss_probed ss1 = x :: ss_probed ss /\ (length (ss_probed ss) < ld_max_probes ld)%nat;
  to_blocked : forall p, is_Some (dict_get p (ss_blocked ss)) -> is_Some (dict_get p (ss_blocked ss1));
  to_free : ss_probed ss1 <> ss_probed ss ->
    exists a, find_a x (ss_as ss) = Some a /\ dict_get (a_provider a) (ss_blocked ss) = None /\
      (account_failure (env_probe (ss_probed ss) x) -> is_Some (dict_get (a_provider a) (ss_blocked ss1)))
}.

(** Candidate [a] was tried and is out. *)
Definition passed_over (a : Assessment) : Prop :=
  a_failed a <> None \/ o_reason (a_out a) = "probe_budget_exhausted".

(** The evidence with which candidate [x] is chosen. *)
Record chosen_spec (x : string) (ss ss' : SelectState) : Prop := {
  ch_before : exists a, find_a x (ss_as ss) = Some a /\ a_failed a = None /\
    dict_get (a_provider a) (ss_blocked ss) = None /\
    (hr_healthy (env_probe (ss_probed ss) x) = true /\ ss_probed ss' = x :: ss_probed ss
     \/ a_health a = "healthy" /\ env_proof_stale (ss_probed ss) x now = false /\
        ss_probed ss' = ss_probed ss);
  ch_after : exists a', find_a x (ss_as ss') = Some a' /\ a_failed a' = None /\
    a_health a' = "healthy";
  ch_launch : match ss_admitted ss' with Some s => launchable s x = true | None => True end
}.

Lemma select_loop_step x order ss ss' c :
  select_loop ld (x :: order) ss now = Ok (ss', c) ->
  (exists ss1, select_loop ld order ss1 now = Ok (ss', c) /\ touches x ss ss1 /\
     forall a, find_a x (ss_as ss1) = Some a -> passed_over a) \/
  (c = Some x /\ touches x ss ss' /\ chosen_spec x ss ss').
Proof.
  cbn [select_loop]. destruct (find_a x (ss_as ss)) as [a|] eqn:Ef.
  2:{ intros H. left. exists ss. split_and!; [done|by constructor; eauto|]. by rewrite Ef. }
  pose proof (find_a_route _ _ _ Ef) as [_ Hr].
  destruct (a_failed a) as [stage|] eqn:Efail.
  { intros H. left. exists ss. split_and!; [done|by constructor; eauto|].
    rewrite Ef. intros ? [= <-]. left. by rewrite Efail. }
  destruct (dict_get (a_provider a) (ss_blocked ss)) as [until|] eqn:Eblk.
  { intros H. left. eexists. split_and!; [exact H| |]; cbn.
    - constructor; cbn; [by apply update_ident; intros b| |by left|done|done].
      intros y Hy. apply find_update_other; [by intros b|done].
    - rewrite find_update_same by (by intros b). rewrite Ef. cbn. intros ? [= <-]. by left. }
  set (confirming := match ss_admitted ss with Some s => negb (launchable s x) | None => false end).
  destruct (_ || env_proof_stale (ss_probed ss) x now) eqn:Eneeds; cbn [andb].
  - destruct (ld_max_probes ld <=? length (ss_probed ss))%nat eqn:Eb.
    { intros H. left. eexists. split_and!; [exact H| |]; cbn.
      - constructor; cbn; [by apply update_ident; intros b| |by left|done|done].
      intros y Hy. apply find_update_other; [by intros b|done].
      - rewrite find_update_same by (by intros b). rewrite Ef. cbn. intros ? [= <-]. by right. }
    apply Nat.leb_gt in Eb. intros ([s1 ok] & Hc & H)%bind_ok.
    apply confirm_route_spec in Hc as [(g & Hg & Has & Hf & Hok) Hp Hh _ Hbl Hscope].
    rewrite Hr in *.
    assert (Ht : touches x ss s1).
    { constructor; [by rewrite Has; apply update_ident| |by right| |].
      - intros y Hy. rewrite Has. by apply find_update_other.
      - by destruct Hbl as [->|[u ->]]; [|intros p; apply dict_set_mono].
      - intros _. exists a. split_and!; [done|done|]. intros []. by apply Hscope. }
    assert (Hx : find_a x (ss_as s1) = Some (g a)).
    { rewrite Has, find_update_same by done. by rewrite Ef. }
    destruct ok; cbn [negb] in H.
    + apply bind_ok in H as ([] & Hl & [= <- <-]). right. split_and!; [done|done|]. constructor.
      * exists a. split_and!; [done|done|done|]. left. auto.
      * exists (g a). destruct (Hok eq_refl a) as [-> ?]. done.
      * destruct (ss_admitted s1); [|done]. apply raise_if_ok in Hl. by apply negb_false_iff in Hl.
    + left. exists s1. split_and!; [done|done|]. rewrite Hx. intros ? [= <-]. left. by apply Hf.
  - cbn. intros ([] & Hl & [= <- <-])%bind_ok. right.
    apply orb_false_iff in Eneeds as [[Hh%negb_false_iff Hconf]%orb_false_iff Hs].
    apply String.eqb_eq in Hh. split_and!; [done|by constructor; eauto|]. constructor.
    + exists a. split_and!; [done|done|done|]. right. auto.
    + eauto.
    + destruct (ss_admitted ss); [|done]. apply raise_if_ok in Hl. by apply negb_false_iff in Hl.
Qed.

Lemma select_loop_untouched order : forall ss ss' c y,
  select_loop ld order ss now = Ok (ss', c) -> y ∉ order ->
  find_a y (ss_as ss') = find_a y (ss_as ss).
Proof.
  induction order as [|x order IH]; intros ss ss' c y H Hy; [by injection H as <- _|].
  apply not_elem_of_cons in Hy as [Hyx Hy].
  apply select_loop_step in H as [(ss1 & H & [_ Ho _ _ _] & _)|(_ & [_ Ho _ _ _] & _)]; [|by apply Ho].
  rewrite (IH _ _ _ y H Hy). by apply Ho.
Qed.

Lemma select_loop_ident order : forall ss ss' c,
  select_loop ld order ss now = Ok (ss', c) -> map ident (ss_as ss') = map ident (ss_as ss).
Proof.
  induction order as [|x order IH]; intros ss ss' c H; [by injection H as <- _|].
  apply select_loop_step in H as [(ss1 & H & [Hs _ _ _ _] & _)|(_ & [Hs _ _ _ _] & _)]; [|done].
  by rewrite (IH _ _ _ H).
Qed.

Lemma select_loop_budget order : forall ss ss' c,
  select_loop ld order ss now = Ok (ss', c) ->
  (length (ss_probed ss') <= Nat.max (ld_max_probes ld) (length (ss_probed ss)))%nat /\
  exists l, ss_probed ss' = l ++ ss_probed ss /\ l ⊆ order.
Proof.
  induction order as [|x order IH]; intros ss ss' c H.
  { injection H as <- _. split; [lia|]. exists []. split; [done|set_solver]. }
  apply select_loop_step in H as [(ss1 & H & [_ _ Hp _ _] & _)|(_ & [_ _ Hp _ _] & _)].
  - apply IH in H as [Hl (l & El & Hs)]. destruct Hp as [Hp|[Hp Hlt]]; rewrite Hp in *.
    + split; [lia|]. exists l. split; [done|set_solver].
    + split; [cbn in Hl; lia|]. exists (l ++ [x]). split; [by rewrite <- app_assoc|set_solver].
  - destruct Hp as [Hp|[Hp Hlt]]; rewrite Hp.
    + split; [lia|]. exists []. split; [done|set_solver].
    + split; [cbn; lia|]. exists [x]. split; [done|set_solver].
Qed.

Lemma select_loop_chosen order : forall ss ss' id,
  base.NoDup order -> select_loop ld order ss now = Ok (ss', Some id) ->
  exists o1 o2 ssm, order = o1 ++ id :: o2 /\ chosen_spec id ssm ss' /\
    find_a id (ss_as ssm) = find_a id (ss_as ss) /\
    forall x a, x ∈ o1 -> find_a x (ss_as ss') = Some a -> passed_over a.
Proof.
  induction order as [|x order IH]; intros ss ss' id Hnd H; [done|].
  apply NoDup_cons in Hnd as [Hx Hnd].
  apply select_loop_step in H as [(ss1 & H & [_ Ho _ _ _] & Hpass)|([= ->] & _ & Hc)].
  - pose proof (select_loop_untouched _ _ _ _ x H Hx) as Hux.
    destruct (IH _ _ _ Hnd H) as (o1 & o2 & ssm & -> & Hc & Hf & Ho1).
    exists (x :: o1), o2, ssm. split_and!; [done|done| |].
    + rewrite Hf. apply Ho. intros <-. set_solver.
    + intros y a [->|Hy]%elem_of_cons Ha; [|by eapply Ho1]. apply Hpass. by rewrite <- Hux.
  - exists [], order, ss. split_and!; [done|done|done|set_solver].
Qed.

(** * What an assessment without a failed stage says *)

Record gates_passed (cache : option HealthCache) (admitted : option AdmittedSet)
    (st : LadderState) (req : TaskRequirements) (route_id : string) (row : Row)
    (a : Assessment) : Prop := {
  gp_admitted : match admitted with Some s => admits s route_id = true | None => True end;
  gp_account : exists c, snd (provider_and_connection ld route_id row) = Some c /\
    conn_active c = true /\ rate_limited_until c route_id now = None;
  gp_visible : match ld_harness ld with Some (v, _) => v route_id = true | None => True end;
  gp_health : a_health a = fst (health_status ld cache admitted st route_id now) /\
              a_health a <> "unhealthy";
  gp_cooldowns : forall key, key ∈ ["pool:" +:+ pool_of route_id; "route:" +:+ route_id;
                                    "provider:" +:+ a_provider a] ->
    active_cooldown ld cache st key now (Some route_id) = None;
  gp_quota : match maxQ_list (measured_quota ld (a_provider a) route_id) with
             | Some best => (ld_min_quota ld <= best)%Q
             | None => True
             end;
  gp_task : task_gate ld cache row route_id req (a_capacity a) now = "";
  gp_tier : match capability_tier row route_id with
            | Some t => t <= tr_max_capability_tier req
            | None => 3 <= tr_max_capability_tier req
            end;
  gp_failed : a_failed a = None
}.

Lemma first_cooldown_none cache st r keys :
  first_cooldown ld cache st now r keys = None <->
  forall k l, (k, l) ∈ keys -> active_cooldown ld cache st k now (Some r) = None.
Proof.
  induction keys as [|[k l] keys IH]; cbn.
  { split; [by intros _ ? ? []%not_elem_of_nil|done]. }
  destruct (active_cooldown _ _ _ k _ _) eqn:E.
  - split; [done|]. intros H. specialize (H k l ltac:(by left)). congruence.
  - rewrite IH. setoid_rewrite elem_of_cons. naive_solver.
Qed.

(** The stages change neither the route nor its provider, capacity and pool. *)
Definition same_route (a b : Assessment) : Prop :=
  a_route b = a_route a /\ a_provider b = a_provider a /\ a_capacity b = a_capacity a /\
  a_pool b = a_pool a.

Lemma available_same cache admitted st r conn a :
  same_route a (assess_available ld cache admitted st r conn a now).
Proof. unfold assess_available. repeat (case_match; try done). Qed.

Lemma quota_same r a : same_route a (assess_quota ld r a now).
Proof. unfold assess_quota. repeat (case_match; try done). Qed.

Lemma task_same cache row r req a : same_route a (assess_task ld cache row r req a now).
Proof. unfold assess_task. repeat (case_match; try done). Qed.

Lemma available_passed cache admitted st r conn a :
  a_failed (assess_available ld cache admitted st r conn a now) = None ->
  match admitted with Some s => admits s r = true | None => True end /\
  (exists c, conn = Some c /\ conn_active c = true /\ rate_limited_until c r now = None) /\
  match ld_harness ld with Some (v, _) => v r = true | None => True end /\
  a_health (assess_available ld cache admitted st r conn a now)
    = fst (health_status ld cache admitted st r now) /\
  fst (health_status ld cache admitted st r now) <> "unhealthy" /\
  first_cooldown ld cache st now r (cooldown_keys (a_pool a) r (a_provider a)) = None.
Proof.
  unfold assess_available. intros H.
  assert (Ha : match admitted with Some s => if admits s r then None else Some (first_failure s r)
               | None => None end = None).
  { destruct admitted as [s|]; [|done]. by destruct (admits s r). }
  rewrite Ha in *. destruct conn as [c|]; [|done].
  destruct (conn_active c) eqn:Ec; [|done]. cbn [negb] in *.
  assert (Hv : match ld_harness ld with
    | Some (visible, available) => if visible r then None else
        Some (if (available : bool) then "not_harness_visible" else "harness_inventory_unavailable")
    | None => None end = None).
  { destruct (ld_harness ld) as [[v av]|]; [|done]. by destruct (v r). }
  rewrite Hv in *.
  destruct (health_status ld cache admitted st r now) as [h cat] eqn:Eh. cbn [fst].
  destruct (String.eqb_spec h "unhealthy"); [by destruct (active_cooldown _ _ _ _ _ _)|].
  cbn [set_health set_out a_pool a_provider] in *.
  destruct (first_cooldown _ _ _ _ _ _) as [[[k lb] u]|] eqn:Ef; [done|].
  destruct (rate_limited_until c r now) eqn:Er; [done|]. split_and!; try done; eauto.
  - destruct admitted as [s|]; [|done]. by destruct (admits s r).
  - destruct (ld_harness ld) as [[v av]|]; [|done]. by destruct (v r).
Qed.

Lemma quota_passed r a :
  a_failed (assess_quota ld r a now) = None ->
  assess_quota ld r a now = a /\
  match maxQ_list (measured_quota ld (a_provider a) r) with
  | Some best => (ld_min_quota ld <= best)%Q
  | None => True
  end.
Proof.
  unfold assess_quota. destruct (maxQ_list _) as [best|]; [|done].
  destruct (Qltb best (ld_min_quota ld)) eqn:E; [done|]. intros _. split; [done|].
  rewrite Qltb_false in E. exact E.
Qed.

Lemma task_passed cache row r req a :
  a_failed (assess_task ld cache row r req a now) = None ->
  task_gate ld cache row r req (a_capacity a) now = "" /\
  match capability_tier row r with
  | Some t => t <= tr_max_capability_tier req
  | None => 3 <= tr_max_capability_tier req
  end /\ a_out (assess_task ld cache row r req a now) = a_out a.
Proof.
  unfold assess_task. destruct (capability_facts row) as [[? ?] ?].
  destruct (String.eqb_spec (task_gate ld cache row r req (a_capacity a) now) "") as [E|]; [|done].
  rewrite E. cbn [negb]. destruct (capability_tier row r) as [t|].
  - destruct (Z.ltb_spec (tr_max_capability_tier req) t); [done|]. intros _. done.
  - destruct (Z.ltb_spec (tr_max_capability_tier req) 3); [done|]. intros _. done.
Qed.

Lemma assess_passed cache admitted st r row req :
  let a := assess ld cache admitted st r row req now in
  a_route a = r /\ (a_failed a = None -> gates_passed cache admitted st req r row a).
Proof.
  cbv zeta. unfold assess.
  destruct (provider_and_connection ld r row) as [provider conn] eqn:Epc.
  destruct (capacity_class ld cache conn row r now) as [capacity evidence].
  set (a0 := {| a_route := r |}).
  pose proof (available_same cache admitted st r conn a0) as (S1 & S2 & S3 & S4).
  set (a1 := assess_available ld cache admitted st r conn a0 now) in *.
  destruct (a_failed a1) eqn:E1; [split; [done|congruence]|].
  pose proof (quota_same r a1) as (Q1 & _). pose proof (quota_passed r a1) as HQ.
  destruct (a_failed (assess_quota ld r a1 now)) eqn:E2; [split; [by rewrite Q1, S1|congruence]|].
  destruct (HQ eq_refl) as [EQ Hquota]. rewrite EQ. pose proof (task_same cache row r req a1) as (T1 & T2 & T3 & T4).
  split; [by rewrite T1, S1|]. intros Hf. pose proof Hf as Hf'.
  pose proof (available_passed cache admitted st r conn a0 E1) as (P1 & P2 & P3 & P4 & P5 & P6).
  apply task_passed in Hf as (G1 & G2 & G3). constructor; rewrite ?T2, ?T3, ?Epc; try done.
  - unfold a_health in *. rewrite G3. fold a1 in P4. rewrite P4. done.
  - intros key Hk. rewrite first_cooldown_none in P6. rewrite S2 in Hk. cbn in P6, Hk.
    rewrite !elem_of_cons in Hk. unfold cooldown_keys in P6.
    destruct Hk as [->|[->|[->|[]%not_elem_of_nil]]];
      [eapply P6; left|eapply P6; right; left|eapply P6; right; right; left].
Qed.

Lemma assess_provider cache admitted st r row req :
  a_provider (assess ld cache admitted st r row req now) = fst (provider_and_connection ld r row).
Proof.
  unfold assess. destruct (provider_and_connection ld r row) as [provider conn].
  destruct (capacity_class ld cache conn row r now) as [capacity evidence].
  set (a0 := {| a_route := r |}).
  pose proof (available_same cache admitted st r conn a0) as (_ & S2 & _).
  set (a1 := assess_available ld cache admitted st r conn a0 now) in *.
  destruct (a_failed a1); [done|]. pose proof (quota_same r a1) as (_ & Q2 & _).
  destruct (a_failed (assess_quota ld r a1 now)); [by rewrite Q2, S2|].
  pose proof (task_same cache row r req (assess_quota ld r a1 now)) as (_ & T2 & _).
  by rewrite T2, Q2, S2.
Qed.
End selection.
