(* ===== verification/LadderSelect.v ===== *)
(** What [EligibilityLadder.select] guarantees: the route it chooses passed every
    gate of the ladder, is confirmed healthy and launchable, was found within the
    probe budget, and no cheaper candidate was left untried. *)
From Stdlib Require Import Lqa.
From S2P Require Import Prelude PyStr Regex Time PyNum Classifier Contracts Admission Providers Ladder.

Section selection.
Context `{env : LadderEnv} (ld : Ladder) (now : Z).

(** * The start of a selection *)

Context (rows_nodup : base.NoDup (map fst (ld_rows ld))).

Lemma elem_assess_rows cache admitted st req a :
  a ∈ assess_rows ld cache admitted st req now ->
  exists row, dict_get (a_route a) (ld_rows ld) = Some row /\ discoverable (a_route a) row = true /\
    a = assess ld cache admitted st (a_route a) row req now.
Proof using Type.
  unfold assess_rows. intros (r & _ & H)%elem_of_omap.
  destruct (dict_get r (ld_rows ld)) as [row|] eqn:Er; [|done]. cbn in H.
  destruct (discoverable r row) eqn:Ed; [|done]. injection H as <-.
  destruct (assess_passed ld now cache admitted st r row req) as [-> _]. eauto.
Qed.

Lemma assess_rows_nodup cache admitted st req :
  base.NoDup (map a_route (assess_rows ld cache admitted st req now)).
Proof using rows_nodup.
  unfold assess_rows. assert (Hnd : base.NoDup (sort_str (map fst (ld_rows ld))))
    by (by rewrite sort_str_perm).
  induction Hnd as [|r rs Hr Hnd IH]; cbn; [constructor|].
  destruct (dict_get r (ld_rows ld)) as [row|] eqn:Er; cbn; [|done].
  destruct (discoverable r row) eqn:Ed; cbn; [|done]. constructor; [|done].
  destruct (assess_passed ld now cache admitted st r row req) as [-> _].
  intros (a & Ha & (r' & Hr' & H)%elem_of_omap)%list_elem_of_fmap.
  destruct (dict_get r' (ld_rows ld)) as [row'|]; [|done]. cbn in H.
  destruct (discoverable r' row'); [|done]. injection H as <-.
  destruct (assess_passed ld now cache admitted st r' row' req) as [Hr2 _]. congruence.
Qed.

(** * Orders *)

Lemma lex_leb_total a b : lex_leb a b = true \/ lex_leb b a = true.
Proof using Type.
  clear. revert b; induction a as [|x a IH]; intros [|y b]; cbn; auto.
  destruct (Qltb x y) eqn:E1, (Qltb y x) eqn:E2; auto.
Qed.

Lemma lex_leb_trans a b c : lex_leb a b = true -> lex_leb b c = true -> lex_leb a c = true.
Proof using Type.
  clear. revert b c; induction a as [|x a IH]; intros [|y b] [|z c]; cbn; try done.
  destruct (Qltb x y) eqn:E1, (Qltb y x) eqn:E2, (Qltb y z) eqn:E3, (Qltb z y) eqn:E4,
    (Qltb x z) eqn:E5, (Qltb z x) eqn:E6; try done; try (intros; eapply IH; eassumption);
    rewrite ?Qltb_spec, ?Qltb_false in *; intros; exfalso; lra.
Qed.

Lemma lex_leb_prefix a1 a2 b1 b2 :
  length a1 = length b1 -> lex_leb (a1 ++ a2) (b1 ++ b2) = true -> lex_leb a1 b1 = true.
Proof using Type.
  clear. revert b1; induction a1 as [|x a IH]; intros [|y b]; cbn; try done.
  intros [= Hl]. destruct (Qltb x y); [done|]. destruct (Qltb y x); [done|]. by apply IH.
Qed.

(** * The start of the probe loop *)

(** The cache selection reads: the one the refresh hook left behind, if it ran. *)
Definition seen_cache (cache : option HealthCache)
    (refresh : option (option (list (string * string)) * option HealthCache)) : option HealthCache :=
  match refresh with Some (_, c) => c | None => cache end.

(** What a candidate that has not failed shows. *)
Record candidate_ok (cache : option HealthCache) (admitted : option AdmittedSet)
    (st : LadderState) (req : TaskRequirements) (a : Assessment) : Prop := {
  co_row : exists row b, dict_get (a_route a) (ld_rows ld) = Some row /\
    discoverable (a_route a) row = true /\
    b = assess ld cache admitted st (a_route a) row req now /\ a_failed b = None /\
    a_health a = a_health b;
  co_load : ld_load ld (a_route a) < ld_max_per_route ld
}.

Lemma assess_all_inv cache admitted st req assessments candidates :
  assess_all ld cache admitted st req now = (assessments, candidates) ->
  base.NoDup (map a_route assessments) /\
  candidates ≡ₚ List.filter selectable assessments /\
  (forall a, a ∈ assessments -> a_route a ∈ map fst (ld_rows ld)) /\
  (forall a, a ∈ assessments -> selectable a = true -> candidate_ok cache admitted st req a).
Proof using rows_nodup.
  unfold assess_all. intros [= <- <-]. split_and!.
  - rewrite map_map. erewrite map_ext; [apply (assess_rows_nodup cache admitted st req)|].
    intros a. by case_match.
  - apply sort_by_perm.
  - intros a (a0 & -> & Ha)%list_elem_of_fmap.
    apply elem_assess_rows in Ha as (row & Hrow%dict_get_elem & _).
    destruct (selectable a0 && at_capacity ld a0); apply list_elem_of_fmap; by exists (a_route a0, row).
  - intros a (a0 & -> & Ha)%list_elem_of_fmap Hs.
    apply elem_assess_rows in Ha as (row & Hrow & Hd & Heq).
    destruct (selectable a0 && at_capacity ld a0) eqn:E; [done|].
    rewrite Hs in E. cbn in E. apply Z.leb_gt in E. constructor; [|done].
    exists row, a0. split_and!; try done. unfold selectable in Hs. bool_hyps. done.
Qed.

Lemma find_a_nodup l a : base.NoDup (map a_route l) -> a ∈ l -> find_a (a_route a) l = Some a.
Proof using Type.
  clear. unfold find_a. induction l as [|b l IH]; intros Hnd Ha; [by apply not_elem_of_nil in Ha|].
  apply NoDup_cons in Hnd as [Hb Hnd]. cbn.
  apply elem_of_cons in Ha as [->|Ha]; [by rewrite String.eqb_refl|].
  destruct (String.eqb_spec (a_route b) (a_route a)) as [E|_]; [|by apply IH].
  destruct Hb. rewrite E. apply list_elem_of_fmap. eauto.
Qed.

Lemma find_a_some l x : x ∈ map a_route l -> exists a, find_a x l = Some a.
Proof using Type.
  clear. intros (a & -> & Ha)%list_elem_of_fmap. unfold find_a.
  destruct (List.find _ l) eqn:E; [eauto|]. exfalso.
  eapply find_none in E; [|by apply list_elem_of_In]. by rewrite String.eqb_refl in E.
Qed.

Lemma omap_find l ids :
  (forall x, x ∈ ids -> x ∈ map a_route l) -> map a_route (omap (fun x => find_a x l) ids) = ids.
Proof using Type.
  clear. induction ids as [|x ids IH]; intros H; cbn; [done|].
  destruct (find_a_some l x) as [a E]; [apply H; by left|].
  rewrite E. cbn. rewrite IH by (intros; apply H; by right).
  apply find_a_route in E as [_ ->]. done.
Qed.

Definition probe_le (a b : Assessment) : bool :=
  lex_leb (cost_key a ++ rating_triple a) (cost_key b ++ rating_triple b).

Lemma probe_order_sorted cs : StronglySorted (fun a b => probe_le a b = true) (probe_order cs).
Proof using Type.
  apply sort_by_sorted.
  - intros x y. apply lex_leb_total.
  - intros x y z. apply lex_leb_trans.
Qed.

(** The refresh step keeps the routes, and a candidate it leaves standing is
    assessed anew on the cache it left behind. *)
Lemma apply_refresh_ok cache admitted st req refresh ss ids :
  ss_admitted ss = admitted -> ss_st ss = st ->
  (forall a, a ∈ ss_as ss -> a_route a ∈ ids -> candidate_ok cache admitted st req a) ->
  let ss' := apply_refresh ld ss ids req now refresh in
  map a_route (ss_as ss') = map a_route (ss_as ss) /\ ss_probed ss' = ss_probed ss /\
  ss_admitted ss' = ss_admitted ss /\
  forall a, a ∈ ss_as ss' -> a_route a ∈ ids -> a_failed a = None ->
    candidate_ok (seen_cache cache refresh) admitted st req a.
Proof using Type.
  intros <- <- Hok. destruct refresh as [[statuses c]|]; cbn [apply_refresh seen_cache]; cbv zeta.
  2:{ split_and!; eauto. }
  cbn [ss_as ss_probed ss_admitted]. rewrite map_map. split_and!; [|done|done|].
  - apply map_ext. intros a. by repeat case_match.
  - intros a (a0 & -> & Ha)%list_elem_of_fmap.
    destruct (mem (a_route a0) ids) eqn:Em; cbn [negb].
    2:{ apply mem_false in Em. done. }
    intros _. apply mem_spec in Em. destruct (Hok a0 Ha Em) as [(row & b & Hrow & Hd & _) Hl].
    destruct (mem _ ["failed"; "unavailable"]); [done|].
    destruct (a_failed a0) eqn:Ef; [congruence|]. rewrite Hrow.
    destruct (a_failed (assess _ _ _ _ _ _ _ _)) eqn:Eb; [done|]. intros _.
    constructor; [|done]. eauto 10.
Qed.

Record start_spec (cache : option HealthCache) (admitted : option AdmittedSet)
    (st : LadderState) (req : TaskRequirements) (ss : SelectState) (ids order : list string) : Prop := {
  sp_nodup : base.NoDup (map a_route (ss_as ss));
  sp_order : exists cs, order = map a_route cs /\
    StronglySorted (fun a b => probe_le a b = true) cs /\
    forall a, a ∈ cs -> find_a (a_route a) (ss_as ss) = Some a;
  sp_perm : order ≡ₚ ids;
  sp_ids : base.NoDup ids;
  sp_probed : ss_probed ss = [];
  sp_rows : forall x, x ∈ ids -> x ∈ map fst (ld_rows ld);
  sp_admitted : ss_admitted ss = admitted;
  sp_ok : forall a, a ∈ ss_as ss -> a_route a ∈ ids -> a_failed a = None ->
    candidate_ok cache admitted st req a
}.

Lemma select_start_spec cache admitted st req refresh ss ids order :
  select_start ld cache admitted st req now refresh = (ss, ids, order) ->
  start_spec (seen_cache cache refresh) admitted st req ss ids order.
Proof using rows_nodup.
  unfold select_start. destruct (assess_all _ _ _ _ _ _) as [assessments candidates] eqn:Eaa.
  intros [= <- <- <-]. apply assess_all_inv in Eaa as (Hnd & Hperm & Hrows & Hok).
  set (ids := map a_route candidates). set (ss0 := {| ss_as := assessments |}).
  assert (Hids : forall a, a ∈ assessments -> a_route a ∈ ids -> selectable a = true).
  { intros a Ha (b & Hr & Hb)%list_elem_of_fmap. rewrite Hperm in Hb.
    apply list_elem_of_In, filter_In in Hb as [Hb Hsel]. rewrite <- list_elem_of_In in Hb.
    apply (find_a_nodup assessments) in Ha, Hb; [|done|done]. congruence. }
  assert (Hsub : ids ⊆ map a_route assessments).
  { intros x (b & -> & Hb)%list_elem_of_fmap. rewrite Hperm in Hb.
    apply list_elem_of_In, filter_In in Hb as [Hb _]. apply list_elem_of_fmap.
    exists b. by rewrite list_elem_of_In. }
  destruct (apply_refresh_ok cache admitted st req (if bool_decide (ids = []) then None else refresh)
    ss0 ids eq_refl eq_refl) as (Hr & Hp & Hadm & Hok').
  { intros a Ha Hi. apply Hok; [done|]. by apply Hids. }
  set (ss := apply_refresh _ _ _ _ _ _) in *.
  assert (Hnd' : base.NoDup (map a_route (ss_as ss))) by (by rewrite Hr).
  assert (Hmap : map a_route (omap (fun id => find_a id (ss_as ss)) ids) = ids).
  { apply omap_find. intros x Hx. rewrite Hr. by apply Hsub. }
  constructor; [done| | | | | | |].
  - eexists. split_and!; [done|apply probe_order_sorted|]. intros a Ha.
    rewrite probe_order_perm in Ha. apply elem_of_omap in Ha as (x & _ & [? <-]%find_a_route).
    by apply find_a_nodup.
  - rewrite probe_order_perm. by rewrite Hmap.
  - unfold ids. rewrite Hperm. clear -Hnd. induction assessments as [|a l IH]; cbn; [done|].
    apply NoDup_cons in Hnd as [Ha Hnd]. specialize (IH Hnd).
    destruct (selectable a); cbn; [|done]. constructor; [|done].
    intros (b & E & Hb)%list_elem_of_fmap. apply Ha. apply list_elem_of_fmap. exists b.
    split; [done|]. rewrite list_elem_of_In in Hb |- *. by apply filter_In in Hb as [? _].
  - done.
  - intros x Hx%Hsub. apply list_elem_of_fmap in Hx as (b & -> & Hb). by apply Hrows.
  - done.
  - intros a Ha Hi Hf. specialize (Hok' a Ha Hi Hf).
    destruct (bool_decide_reflect (ids = [])) as [E|E]; [|done].
    rewrite E in Hi. by apply not_elem_of_nil in Hi.
Qed.

(** * The end of a selection *)

Lemma inherit_blocks_elem ss ids chosen b :
  b ∈ inherit_blocks ss ids chosen ->
  exists a, a ∈ ss_as ss /\ ident b = ident a /\ (b = a \/ a_failed b <> None) /\
    (chosen = Some (a_route a) -> b = a).
Proof using Type.
  clear. unfold inherit_blocks. intros (a & -> & Ha)%list_elem_of_fmap. exists a.
  destruct (dict_get _ _); [|by eauto]. destruct (a_failed a); [by eauto|].
  destruct (mem _ _); cbn; [|by eauto].
  destruct (bool_decide_reflect (chosen = Some (a_route a))); cbn; [by eauto|].
  split_and!; try done. by right.
Qed.

Lemma inherit_blocks_chosen ss ids id :
  find_a id (inherit_blocks ss ids (Some id)) = find_a id (ss_as ss).
Proof using Type.
  clear. unfold inherit_blocks, find_a. induction (ss_as ss) as [|a l IH]; cbn; [done|].
  set (b := match dict_get _ _ with Some _ => _ | None => _ end).
  assert (Hb : a_route b = a_route a) by (subst b; by repeat case_match).
  rewrite Hb. destruct (String.eqb_spec (a_route a) id) as [E|]; [|done]. f_equal. subst b.
  destruct (dict_get _ _); [|done]. destruct (a_failed a); [done|].
  rewrite E, bool_decide_true by done. by rewrite andb_false_r.
Qed.

(** A chosen route is confirmed: by a healthy probe, the last one of this call, or by a
    healthy status whose permit proof is not stale. *)
Definition confirmed_by (health route_id : string) (probed : list string) : Prop :=
  (exists before, hr_healthy (env_probe before route_id) = true /\ probed = route_id :: before) \/
  health = "healthy" /\ env_proof_stale probed route_id now = false.

(** Everything known when [select] returns a route. *)
Record selected_spec (cache : option HealthCache) (admitted : option AdmittedSet)
    (st : LadderState) (req : TaskRequirements) (ss ss' : SelectState)
    (ids : list string) (id : string) (a a' : Assessment) : Prop := {
  ss_ok : candidate_ok cache admitted st req a;
  ss_route : a_route a = id /\ ident a' = ident a;
  ss_nodup : base.NoDup (map a_route (ss_as ss'));
  ss_found : find_a id (ss_as ss') = Some a' /\ a_failed a' = None;
  ss_proof : confirmed_by (a_health a) id (ss_probed ss');
  ss_launch : match ss_admitted ss' with Some s => launchable s id = true | None => True end;
  ss_budget : (length (ss_probed ss') <= ld_max_probes ld)%nat;
  ss_cheap : forall b, b ∈ ss_as ss' -> a_route b ∈ ids -> passed_over b \/ probe_le a' b = true
}.

Lemma probe_le_ident a a' b b' :
  ident a' = ident a -> ident b' = ident b -> probe_le a b = true -> probe_le a' b' = true.
Proof using Type.
  unfold probe_le, cost_key, rating_triple. intros [= -> _ -> ->] [= -> _ -> ->]. done.
Qed.

Lemma probe_le_refl a : probe_le a a = true.
Proof using Type. destruct (lex_leb_total (cost_key a ++ rating_triple a) (cost_key a ++ rating_triple a)); done. Qed.

Lemma find_a_ident l l' x a' :
  map ident l' = map ident l -> find_a x l' = Some a' ->
  exists a, find_a x l = Some a /\ ident a' = ident a.
Proof using Type.
  clear. unfold find_a. revert l'. induction l as [|a l IH]; intros [|b l'] H; try done.
  injection H as H1 H2. cbn. rewrite H1. destruct (String.eqb (a_route a) x) eqn:E.
  - intros [= <-]. exists a. split; [done|]. unfold ident. congruence.
  - by apply IH.
Qed.

Lemma ident_routes l l' : map ident l' = map ident l -> map a_route l' = map a_route l.
Proof using Type.
  clear. revert l'. induction l as [|a l IH]; intros [|b l'] H; try done.
  injection H as Hr _ _ _ H. cbn. by rewrite Hr, (IH _ H).
Qed.

Lemma sorted_split {A} (R : A -> A -> Prop) (l1 l2 : list A) x y :
  StronglySorted R (l1 ++ x :: l2) -> y ∈ l2 -> R x y.
Proof using Type.
  clear. induction l1 as [|z l1 IH]; cbn; intros H; apply StronglySorted_inv in H as [H Hf].
  - intros Hy. by eapply Forall_forall in Hf.
  - by apply IH.
Qed.

Lemma select_loop_selected cache admitted st req ss ids order ss' id :
  start_spec cache admitted st req ss ids order ->
  select_loop ld order ss now = Ok (ss', Some id) ->
  exists a a', selected_spec cache admitted st req ss ss' ids id a a'.
Proof using Type.
  clear rows_nodup. intros [Hnd (cs & -> & Hsort & Hcs) Hperm Hids Hp0 _ _ Hok] H.
  assert (Hndo : base.NoDup (map a_route cs)) by (by rewrite Hperm).
  pose proof (select_loop_ident _ _ _ _ _ _ H) as Hid.
  pose proof (select_loop_budget _ _ _ _ _ _ H) as [Hb _]. rewrite Hp0 in Hb. cbn in Hb.
  destruct (select_loop_chosen _ _ _ _ _ _ Hndo H) as (o1 & o2 & ssm & Ho & Hc & Hf & Ho1).
  destruct Hc as [(a & Ea & Hfa & _ & Hpr) (a' & Ea' & Hfa' & _) Hl].
  rewrite Hf in Ea. pose proof (find_a_route _ _ _ Ea) as [Hin Hra].
  destruct (find_a_ident _ _ _ _ Hid Ea') as (a2 & Ea2 & Hident). rewrite Ea in Ea2.
  injection Ea2 as <-. exists a, a'. constructor; try done.
  - apply Hok; [done| |done]. rewrite Hra, <- Hperm, Ho. set_solver.
  - by rewrite (ident_routes _ _ Hid).
  - destruct Hpr as [[Hh Hs]|(Hh & Hs & ->)]; [left; eauto|by right].
  - lia.
  - intros b Hbin Hbi.
    assert (Hb' : find_a (a_route b) (ss_as ss') = Some b).
    { apply find_a_nodup; [|done]. by rewrite (ident_routes _ _ Hid). }
    rewrite <- Hperm, Ho in Hbi. apply elem_of_app in Hbi as [Hbi|Hbi]; [left; by eapply Ho1|].
    right. apply elem_of_cons in Hbi as [Hbi|Hbi].
    { rewrite Hbi in Hb'. rewrite Hb' in Ea'. injection Ea' as <-. apply probe_le_refl. }
    apply (fmap_app_inv a_route) in Ho as (l1 & l2 & -> & Hl2 & ->).
    symmetry in Hl2. apply fmap_cons_inv in Hl2 as (c & l3 & Hcid & -> & ->).
    apply list_elem_of_fmap in Hbi as (d & Hd & Hdin).
    destruct (find_a_ident _ _ _ _ Hid Hb') as (b2 & Eb2 & Hib).
    assert (Hc2 : find_a (a_route c) (ss_as ss) = Some c) by (apply Hcs; set_solver).
    assert (Hd2 : find_a (a_route d) (ss_as ss) = Some d) by (apply Hcs; set_solver).
    assert (c = a) as -> by congruence. assert (d = b2) as -> by congruence.
    eapply probe_le_ident; [exact Hident|exact Hib|]. by eapply sorted_split in Hsort.
Qed.

Lemma position_some x l : is_Some (position x l) -> x ∈ l.
Proof using Type.
  clear. intros [n H]. revert n H. induction l as [|y l IH]; intros n; cbn; [done|].
  destruct (String.eqb_spec x y) as [->|]; [left|].
  destruct (position x l) as [m|]; [|done]. right. by eapply IH.
Qed.

(** Unfolding [select] when it returns a route. *)
Lemma select_chosen_inv cache admitted st req refresh sel v :
  select ld cache admitted st req now refresh = Ok sel -> sel_chosen sel = Some v ->
  exists ss ids order ss' id a a',
    start_spec (seen_cache cache refresh) admitted st req ss ids order /\
    selected_spec (seen_cache cache refresh) admitted st req ss ss' ids id a a' /\
    v = selected_verdict (position id ids) a' /\ sel_admitted sel = ss_admitted ss' /\
    sel_probed sel = ss_probed ss' /\
    sel_verdicts sel = map (fun a => if bool_decide (Some id = Some (a_route a))
                                     then selected_verdict (position (a_route a) ids) a
                                     else verdict (position (a_route a) ids) a)
                         (inherit_blocks ss' ids (Some id)).
Proof using rows_nodup.
  unfold select. destruct (select_start _ _ _ _ _ _ _) as [[ss ids] order] eqn:Es.
  apply select_start_spec in Es. intros ([ss' chosen] & Hl & [= <-])%bind_ok. cbn.
  destruct chosen as [id|]; [|done]. cbn. rewrite inherit_blocks_chosen. intros Hv.
  destruct (select_loop_selected _ _ _ _ _ _ _ _ _ Es Hl) as (a & a' & Hsel).
  destruct (ss_found _ _ _ _ _ _ _ _ _ _ Hsel) as [Hf _]. rewrite Hf in Hv. injection Hv as <-.
  exists ss, ids, order, ss', id, a, a'. split_and!; done.
Qed.

(** * Selection always decides *)

(** The admitted set, if there is one, holds the route. *)
Definition ready (admitted : option AdmittedSet) (x : string) : Prop :=
  match admitted with Some s => admitted_record s x = true | None => True end.

Lemma confirm_route_total ss a confirming :
  exists ss' ok, confirm_route ld ss a confirming now = Ok (ss', ok).
Proof using Type.
  clear rows_nodup. unfold confirm_route.
  assert (exists s1 r, probe_route ss a confirming now = Ok (s1, r)) as (s1 & r & ->).
  { unfold probe_route. destruct (ss_admitted ss) as [s|]; cbn; [|by eauto].
    destruct confirming; cbn; [|by eauto].
    edestruct confirmation_records as (s' & -> & _). cbn. eauto. }
  cbn. destruct (newer_negative _ _ _ _); [by eauto|].
  destruct (negb (hr_healthy r)); by eauto.
Qed.

Lemma confirmed_ready ss a confirming ss' ok y :
  confirm_route ld ss a confirming now = Ok (ss', ok) ->
  canonical_route_id y <> canonical_route_id (a_route a) ->
  ready (ss_admitted ss) y -> ready (ss_admitted ss') y.
Proof using Type.
  clear rows_nodup. intros H%confirm_route_spec Hne. pose proof (cs_adm _ _ _ _ _ _ H) as Ha.
  unfold confirms, ready in *. destruct (ss_admitted ss) as [s|]; [|by rewrite Ha].
  destruct Ha as (s' & -> & Ha). destruct confirming; [|by subst s'].
  unfold admitted_record. by rewrite (confirmation_other _ _ _ _ _ _ _ _ Ha Hne).
Qed.

Lemma confirmed_launchable ss a ss' :
  let confirming := match ss_admitted ss with Some s => negb (launchable s (a_route a)) | None => false end in
  confirm_route ld ss a confirming now = Ok (ss', true) -> ready (ss_admitted ss) (a_route a) ->
  match ss_admitted ss' with Some s => launchable s (a_route a) = true | None => True end.
Proof using Type.
  clear rows_nodup. cbv zeta. intros H%confirm_route_spec Hr. pose proof (cs_adm _ _ _ _ _ _ H) as Ha.
  pose proof (cs_healthy _ _ _ _ _ _ H eq_refl) as Hh. unfold confirms, ready in *.
  destruct (ss_admitted ss) as [s|]; [|by rewrite Ha]. destruct Ha as (s' & -> & Ha).
  destruct (launchable s (a_route a)) eqn:E; cbn in Ha; [by subst s'|].
  rewrite (confirmation_launch _ _ _ _ _ _ _ Ha), Hh. done.
Qed.

Lemma select_loop_total order : forall ss,
  base.NoDup (map canonical_route_id order) ->
  (forall x a, x ∈ order -> find_a x (ss_as ss) = Some a -> a_failed a = None ->
     ready (ss_admitted ss) x) ->
  exists ss' c, select_loop ld order ss now = Ok (ss', c).
Proof using Type.
  clear rows_nodup. induction order as [|x order IH]; intros ss Hnd Hready; cbn [select_loop]; [by eauto|].
  apply NoDup_cons in Hnd as [Hx Hnd].
  assert (Hne : forall y, y ∈ order -> canonical_route_id y <> canonical_route_id x).
  { intros y Hy E. apply Hx. rewrite <- E. apply list_elem_of_fmap. eauto. }
  assert (Hupd : forall g ss1, keeps_identity g -> ss_as ss1 = update_a x g (ss_as ss) ->
    (forall y, y ∈ order -> ready (ss_admitted ss) y -> ready (ss_admitted ss1) y) ->
    exists ss' c, select_loop ld order ss1 now = Ok (ss', c)).
  { intros g ss1 Hg Has Hrd. apply IH; [done|]. intros y a Hy. rewrite Has.
    rewrite find_update_other; [|done|intros ->; by apply (Hne x)]. intros Hf Ha.
    apply Hrd; [done|]. apply (Hready y a); [by right|done|done]. }
  destruct (find_a x (ss_as ss)) as [a|] eqn:Ef.
  2:{ apply IH; [done|]. intros y a Hy. apply Hready. by right. }
  destruct (find_a_route _ _ _ Ef) as [_ Hr]. destruct (a_failed a) eqn:Efail.
  { apply IH; [done|]. intros y b Hy. apply Hready. by right. }
  specialize (Hready x a ltac:(by left) Ef Efail).
  destruct (dict_get (a_provider a) (ss_blocked ss)) as [until|].
  { by apply (Hupd (fun a => fail_cooled a (Some until))). }
  set (confirming := match ss_admitted ss with Some s => negb (launchable s x) | None => false end).
  destruct (_ || env_proof_stale (ss_probed ss) x now) eqn:Eneeds; cbn [andb].
  - destruct (ld_max_probes ld <=? length (ss_probed ss))%nat.
    { by apply (Hupd (fun a => set_reason a "probe_budget_exhausted")). }
    destruct (confirm_route_total ss a confirming) as (s1 & ok & Hc). rewrite Hc. cbn.
    pose proof (confirm_route_spec _ _ _ _ _ _ _ Hc) as [(g & Hg & Has & _) _ _ _ _ _].
    rewrite Hr in Has. destruct ok; cbn [negb].
    + subst confirming. rewrite <- Hr in Hc, Hready. apply confirmed_launchable in Hc; [|done].
      rewrite Hr in Hc. destruct (ss_admitted s1); cbn; [|by eauto].
      unfold require_launchable. rewrite Hc. cbn. eauto.
    + apply (Hupd g); [done|done|]. intros y Hy. eapply confirmed_ready; [exact Hc|].
      rewrite Hr. by apply Hne.
  - cbn. apply orb_false_iff in Eneeds as [[_ Hconf]%orb_false_iff _]. subst confirming.
    destruct (ss_admitted ss) as [s|]; cbn; [|by eauto].
    unfold require_launchable. rewrite Hconf. cbn. eauto.
Qed.

Lemma select_loop_none order : forall ss ss',
  base.NoDup order -> select_loop ld order ss now = Ok (ss', None) ->
  forall x a, x ∈ order -> find_a x (ss_as ss') = Some a -> passed_over a.
Proof using Type.
  clear rows_nodup. induction order as [|x order IH]; intros ss ss' Hnd H y a Hy Hf;
    [by apply not_elem_of_nil in Hy|].
  apply NoDup_cons in Hnd as [Hx Hnd].
  apply select_loop_step in H as [(ss1 & H & _ & Hpass)|([=] & _)].
  apply elem_of_cons in Hy as [->|Hy]; [|by eapply IH].
  rewrite (select_loop_untouched _ _ _ _ _ _ _ H Hx) in Hf. by apply Hpass.
Qed.
End selection.

(** C39: A route returned by [select] is a discoverable inventory row for which no stage
    of the ladder failed on the evidence selection saw: it is admitted, its account is
    active and not rate limited, it is visible to the harness, its health is not
    unhealthy, its pool, route and provider are not cooling down, the best measured quota
    of the provider is not below the minimum, and it passes the task gate and the
    capability floor. It has spare capacity, and it is confirmed: either the last probe
    of this call was of this route and healthy, or its recorded health is healthy and
    its permit proof is not stale. The admitted set, when there is one, says it may be
    launched; at most [max_probes] probes were made; and its verdict is reported as
    SELECTED. *)
Theorem select_sound `{env : LadderEnv} (ld : Ladder) now cache admitted st req refresh sel v :
  base.NoDup (map fst (ld_rows ld)) ->
  select ld cache admitted st req now refresh = Ok sel -> sel_chosen sel = Some v ->
  (exists row, dict_get (v_route v) (ld_rows ld) = Some row /\
     discoverable (v_route v) row = true /\
     let a := assess ld (seen_cache cache refresh) admitted st (v_route v) row req now in
     gates_passed ld now (seen_cache cache refresh) admitted st req (v_route v) row a /\
     confirmed_by now (a_health a) (v_route v) (sel_probed sel)) /\
  ld_load ld (v_route v) < ld_max_per_route ld /\
  match sel_admitted sel with Some s => launchable s (v_route v) = true | None => True end /\
  (length (sel_probed sel) <= ld_max_probes ld)%nat /\
  v_reached v = Some EligibilityStage.SELECTED /\ v ∈ sel_verdicts sel.
Proof.
  intros Hnd H Hv.
  destruct (select_chosen_inv ld now Hnd _ _ _ _ _ _ _ H Hv)
    as (ss & ids & order & ss' & id & a & a' & Hst & Hsel & -> & -> & -> & ->).
  destruct Hsel as [[(row & b & Hrow & Hd & -> & Hf & Hh) Hload] [Hr Hi] _ [Hfa Hfa'] Hp Hl Hb _].
  cbn [v_route selected_verdict v_reached]. pose proof (ident_route _ _ Hi) as Hr'.
  rewrite Hr', Hr in *. split_and!; try done.
  - exists row. split; [done|]. split; [done|]. cbv zeta. split.
    + destruct (assess_passed ld now (seen_cache cache refresh) admitted st id row req) as [_ Hg].
      by apply Hg.
    + by rewrite <- Hh.
  - apply list_elem_of_fmap. exists a'. rewrite Hr', bool_decide_true by done. split; [done|].
    rewrite <- (inherit_blocks_chosen ss' ids id) in Hfa. by apply find_a_route in Hfa as [? _].
Qed.

(** Selection never skips a cheaper candidate: every ranked route of the reported
    verdicts that neither failed a stage nor was left unprobed for lack of probe budget
    is at least as expensive as the chosen one, comparing capacity tier (free before
    subscription before metered), then known before unknown token usage, then usage. *)
Theorem select_cheapest `{env : LadderEnv} (ld : Ladder) now cache admitted st req refresh sel v w :
  base.NoDup (map fst (ld_rows ld)) ->
  select ld cache admitted st req now refresh = Ok sel -> sel_chosen sel = Some v ->
  w ∈ sel_verdicts sel -> is_Some (v_rank w) -> v_failed w = None ->
  v_reason w <> "probe_budget_exhausted" ->
  lex_leb (route_cost (v_capacity v) (v_route v)) (route_cost (v_capacity w) (v_route w)) = true.
Proof.
  intros Hnd H Hv Hw Hrank Hfail Hreason.
  destruct (select_chosen_inv ld now Hnd _ _ _ _ _ _ _ H Hv)
    as (ss & ids & order & ss' & id & a & a' & Hst & Hsel & -> & _ & _ & Hvs).
  rewrite Hvs in Hw. apply list_elem_of_fmap in Hw as (b & -> & Hb).
  apply inherit_blocks_elem in Hb as (b0 & Hb0 & Hib & Hcase & _).
  destruct Hsel as [_ [Hr Hi] Hndo [Hfa _] _ _ _ Hcheap].
  assert (Hle : a_route b ∈ ids -> passed_over b0 \/ probe_le a' b = true).
  { intros Hin. rewrite (ident_route _ _ Hib) in Hin.
    destruct (Hcheap b0 Hb0 Hin) as [?|Hle]; [by left|right].
    by apply (probe_le_ident a' a' b0 b). }
  change (route_cost (v_capacity (selected_verdict (position id ids) a'))
            (v_route (selected_verdict (position id ids) a'))) with (cost_key a').
  assert (Hgoal : a_route b ∈ ids -> passed_over b0 \/ lex_leb (cost_key a') (cost_key b) = true).
  { intros Hin. destruct (Hle Hin) as [?|Hle']; [by left|right].
    eapply lex_leb_prefix; [|exact Hle']. done. }
  destruct (bool_decide_reflect (Some id = Some (a_route b))) as [[= E]|Hne].
  - change (lex_leb (cost_key a') (cost_key b) = true). clear Hgoal Hle Hfail Hreason.
    rewrite (ident_route _ _ Hib) in E. apply (find_a_nodup _ _ Hndo) in Hb0.
    rewrite <- E, Hfa in Hb0. injection Hb0 as <-.
    unfold cost_key. injection Hib as -> _ -> _. by destruct (lex_leb_total (cost_key a') (cost_key a')).
  - cbn [verdict v_rank v_failed v_reason] in *.
    change (lex_leb (cost_key a') (cost_key b) = true).
    destruct Hgoal as [[Hp|Hp]|?]; [|destruct Hcase as [<-|?]..|done].
    + by apply position_some.
    + done.
    + done.
    + by rewrite Hp in Hreason.
    + done.
Qed.

(** C40: When the inventory names each route once (up to the broker prefix), the admitted
    set holds one record per route, and neither the probes nor the writes that record
    them raise, [select] decides: the launch assertion does not fire, and when no route
    is returned, every ranked candidate either failed a stage or was left unprobed
    because the probe budget was spent. [aliased_routes_stop_selection] shows what an
    inventory that names a route twice does. *)
Theorem select_decides `{env : LadderEnv} (ld : Ladder) now cache admitted st req refresh :
  base.NoDup (map canonical_route_id (map fst (ld_rows ld))) ->
  match admitted with Some s => base.NoDup (map ar_route_id (as_records s)) | None => True end ->
  exists sel, select ld cache admitted st req now refresh = Ok sel /\
    (sel_chosen sel = None -> forall w, w ∈ sel_verdicts sel -> is_Some (v_rank w) ->
       v_failed w <> None \/ v_reason w = "probe_budget_exhausted").
Proof.
  intros Hcan Hadm. assert (Hnd : base.NoDup (map fst (ld_rows ld))) by (by eapply NoDup_fmap_1).
  unfold select. destruct (select_start _ _ _ _ _ _ _) as [[ss ids] order] eqn:Es.
  apply select_start_spec in Es; [|done].
  destruct Es as [Hnds _ Hperm Hids Hp0 Hrows Hadmitted Hok].
  assert (Hndo : base.NoDup order) by (by rewrite Hperm).
  destruct (select_loop_total ld now order ss) as (ss' & c & Hl).
  { apply (nodup_map_sub _ (map fst (ld_rows ld))); [done|done|]. intros x Hx. apply Hrows.
    by rewrite <- Hperm. }
  { intros x a Hx [Ha <-]%find_a_route Hf. rewrite Hadmitted.
    destruct admitted as [s|]; [|done]. cbn. rewrite <- admitted_record_iff by done.
    destruct (Hok a Ha) as [(row & b & _ & _ & -> & Hb & _) _]; [by rewrite <- Hperm|done|].
    apply assess_passed in Hb. apply (gp_admitted _ _ _ _ _ _ _ _ _ Hb). }
  rewrite Hl. cbn. eexists. split; [done|]. cbn. destruct c as [id|]; cbn.
  { rewrite inherit_blocks_chosen. intros Hn w _ _. exfalso.
    apply select_loop_chosen in Hl as (? & ? & ? & _ & [_ (a' & Ha' & _) _] & _); [|done].
    by rewrite Ha' in Hn. }
  intros _ w (b & -> & Hb)%list_elem_of_fmap.
  rewrite bool_decide_false by done. cbn. intros Hrank%position_some.
  apply inherit_blocks_elem in Hb as (b0 & Hb0 & Hib & [->|?] & _); [|by left].
  destruct (select_loop_none _ _ _ _ _ Hndo Hl (a_route b0) b0) as [Hp|Hp];
    [by rewrite Hperm| |by left|by right; rewrite Hp].
  apply find_a_nodup; [|done].
  by rewrite (ident_routes _ _ (select_loop_ident _ _ _ _ _ _ Hl)).
Qed.
(** * A concrete ladder *)

#[local] Instance sample_env : LadderEnv := {
  env_probe := fun _ r => {| hr_healthy := negb (String.eqb r "cx/gpt-5.4"); hr_category := "timeout";
                             hr_status_code := None; hr_retry_after := None; hr_error_message := "" |};
  env_observe := fun _ c _ _ _ => c;
  env_proof_stale := fun _ _ _ => true;
  env_tokens := fun _ => None;
  env_session := fun _ _ _ => None;
  env_rating := fun _ _ _ => (3, 0%Q, 0);
  env_refutes := fun _ _ _ _ => false;
  env_fresh_us := 900000000; env_usable_us := 3600000000; env_agentic_ttl_us := 86400000000;
  env_session_ttl_us := 86400000000 }.

(** The same evidence, with a broker that times out on the first probe only. *)
#[local] Instance flaky_env : LadderEnv := {
  env_probe := fun before _ => {| hr_healthy := negb (bool_decide (before = [])); hr_category := "timeout";
                                  hr_status_code := None; hr_retry_after := None; hr_error_message := "" |};
  env_observe := env_observe (LadderEnv:=sample_env);
  env_proof_stale := env_proof_stale (LadderEnv:=sample_env);
  env_tokens := env_tokens (LadderEnv:=sample_env);
  env_session := env_session (LadderEnv:=sample_env);
  env_rating := env_rating (LadderEnv:=sample_env);
  env_refutes := env_refutes (LadderEnv:=sample_env);
  env_fresh_us := 900000000; env_usable_us := 3600000000; env_agentic_ttl_us := 86400000000;
  env_session_ttl_us := 86400000000 }.

Definition sample_conn (provider auth : string) : Connection :=
  {| conn_provider := provider; conn_active := true; conn_auth_type := auth;
     conn_plan_label := "max"; conn_importFreeModelsOnly := false; conn_import_free_only := false;
     conn_specific := None; conn_quota_models := []; conn_quota_percent := None;
     conn_rate_limited_until := []; conn_quota_reset_at := "" |}.

Definition sample_row (owned_by : string) : Row :=
  {| row_owned_by := owned_by; row_type := "chat"; row_caps := None;
     row_max_input_tokens := Some 200000; row_context_length := None;
     row_capability_tier := Some 1; row_pricing := None |}.

Definition sample_ladder : Ladder :=
  {| ld_rows := [("cx/gpt-5.4", sample_row "codex"); ("cc/claude-sonnet-5", sample_row "claude");
                 ("anthropic/claude-opus-5", sample_row "anthropic")];
     ld_connections := [sample_conn "claude" "oauth"; sample_conn "codex" "oauth";
                        sample_conn "anthropic" "apikey"]; ld_ttl_us := 900000000;
     ld_harness := None; ld_prefer := ["codex"]; ld_load := fun _ => 0; ld_max_per_route := 1;
     ld_max_probes := 3; ld_min_quota := 5%Q; ld_free_set := None; ld_rankings := ∅;
     ld_rankings_category := None |}.

Definition sample_req : TaskRequirements :=
  {| tr_required_capabilities := []; tr_min_context_tokens := 1000; tr_coding := true;
     tr_reasoning := false; tr_frontier_worthy := false; tr_task_category := "";
     tr_exclude_routes := []; tr_exclude_families := []; tr_exclude_pools := [];
     tr_max_capability_tier := 2; tr_task_family := None |}.

Definition sample_now : Z := 63900000000000000.
Definition sample_st : LadderState := {| st_health := ∅; st_cooldowns := ∅; st_not_free := ∅ |}.


Definition sample_record (route_id : string) : AdmissionRecord :=
  {| ar_route_id := route_id; ar_provider := route_provider_prefix route_id; ar_admitted := true;
     ar_first_failed_stage := None; ar_reason := ""; ar_source := "inventory";
     ar_observed_at := None; ar_health := "unknown"; ar_until := None; ar_reset_at := None;
     ar_confirmation_source := None; ar_confirmed_at := None |}.

Definition sample_admitted : AdmittedSet :=
  {| as_records := map sample_record (map fst (ld_rows sample_ladder)); as_generated_at := "";
     as_sources := []; as_controller_identity := "unknown"; as_narrowing := [];
     as_runtime_consulted := [] |}.

(** An inventory that names one route twice, the second time with the broker prefix. *)
Definition alias_ladder : Ladder :=
  {| ld_rows := [("cc/claude-sonnet-5", sample_row "claude");
                 ("omniroute/cc/claude-sonnet-5", sample_row "claude")];
     ld_connections := [sample_conn "claude" "oauth"]; ld_ttl_us := 900000000;
     ld_harness := None; ld_prefer := []; ld_load := fun _ => 0; ld_max_per_route := 1;
     ld_max_probes := 3; ld_min_quota := 5%Q; ld_free_set := None; ld_rankings := ∅;
     ld_rankings_category := None |}.

Definition alias_admitted : AdmittedSet :=
  {| as_records := [sample_record "cc/claude-sonnet-5"]; as_generated_at := "";
     as_sources := []; as_controller_identity := "unknown"; as_narrowing := [];
     as_runtime_consulted := [] |}.

(** An inventory that names a route twice can stop a selection with the launch assertion:
    the failed probe of one spelling withdraws the admission the other one shares, and
    the healthy probe of the other does not restore it. *)
Theorem aliased_routes_stop_selection :
  select (env:=flaky_env) alias_ladder None (Some alias_admitted) sample_st sample_req sample_now None
  = Err (AdmissionBypassError "EligibilityLadder.select" ["cc/claude-sonnet-5"]).
Proof. vm_compute. reflexivity. Qed.

Definition sample_run : result admission_exn Selection :=
  select (env:=sample_env) sample_ladder None (Some sample_admitted) sample_st sample_req sample_now None.

Definition sample_sel : Selection :=
  match sample_run with
  | Ok s => s
  | Err _ => {| sel_state := sample_st; sel_admitted := None; sel_cache := None;
                sel_chosen := None; sel_verdicts := []; sel_probed := [] |}
  end.

Definition sample_rank : RouteVerdict :=
  verdict None (assess (env:=sample_env) sample_ladder None None sample_st "" (sample_row "") sample_req 0).

Lemma select_sound_witness : exists v, sample_run = Ok sample_sel /\
  sel_chosen sample_sel = Some v /\ v_route v = "cc/claude-sonnet-5" /\
  sel_probed sample_sel = ["cc/claude-sonnet-5"; "cx/gpt-5.4"] /\
  v_reached v = Some EligibilityStage.SELECTED.
Proof.
  eexists. split; [vm_compute; reflexivity|]. split; [vm_compute; reflexivity|].
  split; [reflexivity|]. split; [vm_compute; reflexivity|].
  apply (select_sound sample_ladder sample_now None (Some sample_admitted) sample_st sample_req None
           sample_sel).
  - apply (bool_decide_unpack _). reflexivity.
  - vm_compute. reflexivity.
  - vm_compute. reflexivity.
Defined.

Lemma select_cheapest_witness : exists v w, sel_chosen sample_sel = Some v /\
  w ∈ sel_verdicts sample_sel /\ v_route w = "anthropic/claude-opus-5" /\ v_capacity w = CapacityClass.METERED /\
  lex_leb (route_cost (v_capacity v) (v_route v)) (route_cost (v_capacity w) (v_route w)) = true.
Proof.
  exists (default sample_rank (sel_chosen sample_sel)), (default sample_rank (sel_verdicts sample_sel !! 0%nat)).
  split; [vm_compute; reflexivity|].
  assert (Hin : default sample_rank (sel_verdicts sample_sel !! 0%nat) ∈ sel_verdicts sample_sel).
  { apply (list_elem_of_lookup_2 _ 0). vm_compute. reflexivity. }
  split; [exact Hin|]. split; [vm_compute; reflexivity|]. split; [vm_compute; reflexivity|].
  apply (select_cheapest sample_ladder sample_now None (Some sample_admitted) sample_st sample_req
           None sample_sel).
  - apply (bool_decide_unpack _). reflexivity.
  - vm_compute. reflexivity.
  - vm_compute. reflexivity.
  - exact Hin.
  - vm_compute. eauto.
  - vm_compute. reflexivity.
  - vm_compute. discriminate.
Defined.

Lemma select_decides_witness :
  exists sel, select (env:=sample_env) sample_ladder None (Some sample_admitted) sample_st sample_req
    sample_now None = Ok sel.
Proof.
  destruct (select_decides (env:=sample_env) sample_ladder sample_now None (Some sample_admitted)
    sample_st sample_req None) as (sel & H & _).
  - apply (bool_decide_unpack _). reflexivity.
  - apply (bool_decide_unpack _). reflexivity.
  - exists sel. exact H.
Defined.
