(* ===== verification/LadderCooldown.v ===== *)
(** What the failures and successes recorded by the ladder do to later decisions:
    a recorded failure keeps the route, its credential pool or its provider out of
    dispatch until its deadline; an account-level probe failure stops all further
    probes of the account within the same selection. *)
From S2P Require Import Prelude PyStr Regex Time PyNum Classifier Contracts Admission Providers Ladder LadderSelect.

(** The instants [datetime] can represent. *)
Definition in_range (t : Z) : Prop := 0 <= t < 3652059 * us_per_day.

Section cooldowns.
Context `{env : LadderEnv} (ld : Ladder).

(** The deadline [t] is stored under [key]. *)
Definition cools (st : LadderState) (key : string) (t : Z) : Prop :=
  exists c, st_cooldowns st !! key = Some c /\ cd_until c = iso_us t.

Lemma cools_active st key t cache now r :
  cools st key t -> in_range t -> now < t ->
  exists u, active_cooldown ld cache st key now r = Some u /\ t <= u.
Proof.
  intros (c & Hc & Hu) Ht Hnow. unfold active_cooldown. rewrite Hc. cbn. rewrite Hu.
  unfold iso_us. rewrite parse_iso_instant by done. cbn.
  destruct (cached_cooldown ld cache key now r) as [s|]; cbn.
  - destruct (Z.ltb_spec t (sc_until s)); cbn.
    + rewrite (proj2 (Z.ltb_lt _ _)) by lia. eauto with lia.
    + rewrite (proj2 (Z.ltb_lt _ _)) by lia. eauto with lia.
  - rewrite (proj2 (Z.ltb_lt _ _)) by lia. eauto with lia.
Qed.

Lemma set_cooldown_same st key c : st_cooldowns (set_cooldown st key c) !! key = Some c.
Proof. cbn. by rewrite lookup_insert_eq. Qed.

Lemma set_cooldown_other st key key' c :
  key <> key' -> st_cooldowns (set_cooldown st key' c) !! key = st_cooldowns st !! key.
Proof. intros H. cbn. by rewrite lookup_insert_ne. Qed.

(** The keys a failure is recorded under, for a route whose provider is [provider]. *)
Definition failure_keys (route_id : string) (f : FailureClassification) : list string :=
  let pooled := mem (fc_category f) POOL_COOLDOWN_CATEGORIES in
  if String.eqb (fc_scope f) "provider" then
    ("route:" +:+ route_id) ::
    (if pooled then ["pool:" +:+ pool_of route_id] else ["provider:" +:+ provider_of ld route_id])
  else if String.eqb (fc_scope f) "route" then ["route:" +:+ route_id] else [].

Definition failure_deadline (f : FailureClassification) (now : Z) : Z :=
  now + seconds_us (cooldown_seconds_for (fc_category f)
    (if Qltb 0 (fc_cooldown_seconds f) then Some (fc_cooldown_seconds f) else None)).

Lemma record_failure_lookup st route_id f now key :
  st_cooldowns (record_failure ld st route_id f now) !! key =
    if mem key (failure_keys route_id f)
    then Some {| cd_until := iso_us (failure_deadline f now); cd_category := fc_category f |}
    else st_cooldowns st !! key.
Proof.
  unfold record_failure, failure_keys, cooldown_entry. fold (failure_deadline f now).
  set (e := {| cd_until := _; cd_category := _ |}). clearbody e.
  destruct (String.eqb (fc_scope f) "provider"), (mem (fc_category f) POOL_COOLDOWN_CATEGORIES),
    (String.eqb (fc_scope f) "route"); cbn [orb andb negb set_cooldown st_cooldowns];
    rewrite ?lookup_insert; unfold mem; cbn [existsb]; repeat case_decide;
    eqb_cases; cbn [orb]; congruence.
Qed.

(** A stored deadline on a key the ladder looks at fails the assessment. *)
Lemma cools_fails st cache admitted req r row now key t :
  cools st key t -> in_range t -> now < t ->
  key ∈ ["pool:" +:+ pool_of r; "route:" +:+ r;
         "provider:" +:+ fst (provider_and_connection ld r row)] ->
  a_failed (assess ld cache admitted st r row req now) <> None.
Proof.
  intros Hc Ht Hnow Hk Hf.
  destruct (cools_active st key t cache now (Some r) Hc Ht Hnow) as (u & Hu & _).
  pose proof (assess_provider ld now cache admitted st r row req) as Hp.
  apply assess_passed in Hf. rewrite (gp_cooldowns _ _ _ _ _ _ _ _ _ Hf) in Hu; [done|].
  by rewrite Hp.
Qed.

Lemma record_failure_cools st r f now key :
  key ∈ failure_keys r f -> cools (record_failure ld st r f now) key (failure_deadline f now).
Proof.
  intros Hk. unfold cools. rewrite record_failure_lookup, (proj2 (mem_spec _ _) Hk). eauto.
Qed.

Lemma merge_keeps st disk key t :
  cools st key t -> (disk !! key = None \/ disk !! key = st_cooldowns st !! key) ->
  cools {| st_health := st_health st; st_cooldowns := merge_cooldowns (st_cooldowns st) disk;
           st_not_free := st_not_free st |} key t.
Proof.
  intros (c & Hc & Hu) Hd. exists c. split; [|done]. cbn. unfold merge_cooldowns.
  rewrite lookup_merge, Hc. destruct Hd as [->|Hd]; [done|]. rewrite Hd, Hc. cbn.
  by destruct (str_ltb _ _).
Qed.
End cooldowns.

(** A recorded route or provider failure keeps the route out until its deadline:
    whatever the other evidence, no assessment of it passes and the dispatch check
    names a blocker, also after merging the cooldowns on disk (unless those replaced
    this entry). A provider-scope failure does the same to every route of the credential
    pool when its category is about credentials, else to every route of the provider.
    No other cooldown changes. *)
Theorem record_failure_blocks `{env : LadderEnv} ld st r f now0 now cache :
  fc_scope f ∈ ["route"; "provider"] ->
  in_range (failure_deadline f now0) -> now < failure_deadline f now0 ->
  let st' := record_failure ld st r f now0 in
  (forall admitted req row, a_failed (assess ld cache admitted st' r row req now) <> None) /\
  (forall disk, let key := "route:" +:+ r in
     disk !! key = None \/ disk !! key = st_cooldowns st' !! key ->
     is_Some (snd (dispatch_blocker ld cache st' disk r now))) /\
  (fc_scope f = "provider" -> forall admitted req r' row,
     (if mem (fc_category f) POOL_COOLDOWN_CATEGORIES then pool_of r' = pool_of r
      else fst (provider_and_connection ld r' row) = provider_of ld r) ->
     a_failed (assess ld cache admitted st' r' row req now) <> None) /\
  (forall key, key ∉ failure_keys ld r f -> st_cooldowns st' !! key = st_cooldowns st !! key).
Proof.
  intros Hs Hr Hnow st'.
  assert (Hroute : "route:" +:+ r ∈ failure_keys ld r f).
  { unfold failure_keys. apply elem_of_cons in Hs as [->|[->|[]%not_elem_of_nil]%elem_of_cons]; left. }
  pose proof (record_failure_cools ld st r f now0) as Hcools. fold st' in Hcools. split_and!.
  - intros. eapply cools_fails; [by apply Hcools|done|done|]. right. left.
  - intros disk key Hd. subst key. unfold dispatch_blocker. cbn [snd].
    destruct (first_cooldown _ _ _ _ _ _) as [[[k l] u]|] eqn:E; [eauto|].
    rewrite first_cooldown_none in E. exfalso. specialize (E _ "cooldown:route" ltac:(right; left)).
    destruct (cools_active ld _ _ _ cache now (Some r)
      (merge_keeps _ disk _ _ (Hcools _ Hroute) Hd) Hr Hnow) as (u & Hu & _). congruence.
  - intros Hp admitted req r' row Hm.
    assert (Hk : (if mem (fc_category f) POOL_COOLDOWN_CATEGORIES then "pool:" +:+ pool_of r
                  else "provider:" +:+ provider_of ld r) ∈ failure_keys ld r f).
    { unfold failure_keys. rewrite Hp. cbn [String.eqb]. right. destruct (mem _ _); left. }
    eapply cools_fails; [by apply Hcools|done|done|].
    destruct (mem _ _); rewrite <- Hm; [left|right; right; left].
  - intros key Hk. subst st'. by rewrite record_failure_lookup, (proj2 (mem_false _ _) Hk).
Qed.

(** * Account failures within one selection *)

Section account.
Context `{env : LadderEnv} (ld : Ladder) (now : Z).

(** Every account-level failure among the probes blocks its provider from then on:
    no route of it is probed afterwards. [prov] gives the provider of a route. *)
Definition probes_ok (prov : string -> option string) (ss : SelectState) : Prop :=
  forall later r before p, ss_probed ss = later ++ r :: before ->
    account_failure (env_probe before r) -> prov r = Some p ->
    is_Some (dict_get p (ss_blocked ss)) /\ forall x, x ∈ later -> prov x <> Some p.

Definition provider_in (ss : SelectState) (x : string) : option string :=
  a_provider <$> find_a x (ss_as ss).

Lemma touches_ok prov x ss ss1 :
  touches ld x ss ss1 -> prov x = provider_in ss x -> probes_ok prov ss -> probes_ok prov ss1.
Proof.
  intros [_ _ Hp Hb Hf] Hx Hok later r before p E Hfail Hr.
  destruct Hp as [Hp|[Hp _]]; rewrite Hp in E.
  { destruct (Hok later r before p E Hfail Hr). auto. }
  assert (Hne : ss_probed ss1 <> ss_probed ss).
  { rewrite Hp. intros H%(f_equal length). cbn in H. lia. }
  destruct (Hf Hne) as (a & Ha & Hfree & Hblk).
  unfold provider_in in Hx. rewrite Ha in Hx. cbn in Hx.
  destruct later as [|y later]; cbn in E; injection E as <- E.
  - subst before. rewrite Hx in Hr. injection Hr as <-. split; [by apply Hblk|].
    by intros ? []%not_elem_of_nil.
  - destruct (Hok later r before p E Hfail Hr) as [Hbl Hl]. split; [by apply Hb|].
    intros z [->|Hz]%elem_of_cons; [|by apply Hl]. rewrite Hx. intros [= Ep].
    rewrite Ep in Hfree. rewrite Hfree in Hbl. by destruct Hbl.
Qed.

Lemma touches_provider x ss ss1 y : touches ld x ss ss1 -> provider_in ss1 y = provider_in ss y.
Proof.
  intros [Hs _ _ _ _]. unfold provider_in.
  destruct (find_a y (ss_as ss1)) as [a|] eqn:E1.
  - destruct (find_a_ident _ _ _ _ Hs E1) as (b & -> & [= _ E _ _]). cbn. by rewrite E.
  - destruct (find_a y (ss_as ss)) as [b|] eqn:E2; [|done]. symmetry in Hs.
    destruct (find_a_ident _ _ _ _ Hs E2) as (c & E3 & _). congruence.
Qed.

Lemma select_loop_account order : forall ss ss' c,
  select_loop ld order ss now = Ok (ss', c) -> probes_ok (provider_in ss) ss ->
  probes_ok (provider_in ss) ss' /\
  forall id, c = Some id -> forall p, provider_in ss id = Some p ->
    (forall later r before, ss_probed ss' = later ++ r :: before ->
       account_failure (env_probe before r) -> provider_in ss r <> Some p).
Proof.
  induction order as [|x order IH]; intros ss ss' c H Hok.
  { injection H as <- <-. done. }
  apply select_loop_step in H as [(ss1 & H & Ht & _)|(-> & Ht & Hc)].
  - assert (Hprov : forall y, provider_in ss1 y = provider_in ss y)
      by (intros; by eapply touches_provider).
    assert (Hok1 : probes_ok (provider_in ss1) ss1).
    { intros later r before p E Hf Hr. rewrite Hprov in Hr.
      destruct (touches_ok _ _ _ _ Ht eq_refl Hok later r before p E Hf Hr) as [? Hl].
      split; [done|]. intros y Hy. rewrite Hprov. by apply Hl. }
    destruct (IH _ _ _ H Hok1) as [H1 H2]. split.
    + intros later r before p E Hf Hr. rewrite <- Hprov in Hr.
      destruct (H1 later r before p E Hf Hr) as [? Hl]. split; [done|]. intros y Hy.
      rewrite <- Hprov. by apply Hl.
    + intros id Hid p Hp later r before E Hf. rewrite <- Hprov in Hp |- *. by eapply H2.
  - split; [by eapply touches_ok|]. intros id [= <-] p Hp later r before E Hf Hr.
    destruct Hc as [(a & Ha & _ & Hfree & Hpr) _ _].
    unfold provider_in in Hp. rewrite Ha in Hp. injection Hp as <-.
    assert (exists l, ss_probed ss = l ++ r :: before) as (later' & E').
    { destruct Hpr as [[Hh Hpr]|(_ & _ & Hpr)]; rewrite Hpr in E; [|eauto].
      destruct later as [|y later]; injection E as <- E; [|eauto].
      subst before. by destruct Hf as [Hf _]; rewrite Hh in Hf. }
    destruct (Hok _ _ _ _ E' Hf Hr) as [Hbl _]. rewrite Hfree in Hbl. by destruct Hbl.
Qed.
End account.

(** The provider a verdict reports is the one the route had when probing started. *)
Lemma verdict_provider `{env : LadderEnv} ld order ss ss' c ids now w :
  base.NoDup (map a_route (ss_as ss)) -> select_loop ld order ss now = Ok (ss', c) ->
  w ∈ map (fun a => if bool_decide (c = Some (a_route a))
                    then selected_verdict (position (a_route a) ids) a
                    else verdict (position (a_route a) ids) a) (inherit_blocks ss' ids c) ->
  provider_in ss (v_route w) = Some (v_provider w).
Proof.
  intros Hnd Hl (b & -> & Hb)%list_elem_of_fmap.
  apply inherit_blocks_elem in Hb as (a & Ha & Hi & _).
  pose proof (select_loop_ident _ _ _ _ _ _ Hl) as Hid.
  assert (Hr : v_route (if bool_decide (c = Some (a_route b))
    then selected_verdict (position (a_route b) ids) b else verdict (position (a_route b) ids) b)
    = a_route a) by (rewrite <- (ident_route _ _ Hi); by case_match).
  assert (Hp : v_provider (if bool_decide (c = Some (a_route b))
    then selected_verdict (position (a_route b) ids) b else verdict (position (a_route b) ids) b)
    = a_provider a) by (injection Hi as _ <- _ _; by case_match).
  rewrite Hr, Hp. unfold provider_in.
  assert (Hf : find_a (a_route a) (ss_as ss') = Some a).
  { apply find_a_nodup; [|done]. by rewrite (ident_routes _ _ Hid). }
  destruct (find_a_ident _ _ _ _ Hid Hf) as (a0 & -> & [= _ E _ _]). cbn. by rewrite E.
Qed.

(** Once a probe fails for a reason that speaks for the whole account
    (authentication, permission, payment), no further route of that provider is
    probed in the same selection, and none of its routes is selected. *)
Theorem account_failure_stops_probes `{env : LadderEnv} ld now cache admitted st req refresh sel
    later r before vr :
  base.NoDup (map fst (ld_rows ld)) ->
  select ld cache admitted st req now refresh = Ok sel ->
  sel_probed sel = later ++ r :: before -> account_failure (env_probe before r) ->
  vr ∈ sel_verdicts sel -> v_route vr = r ->
  (forall w, w ∈ sel_verdicts sel -> v_route w ∈ later -> v_provider w <> v_provider vr) /\
  (forall v, sel_chosen sel = Some v -> v_provider v <> v_provider vr).
Proof.
  intros Hnd Hsel Hp Hf Hvr Hr. pose proof Hsel as Hsel'. unfold select in Hsel.
  destruct (select_start _ _ _ _ _ _ _) as [[ss ids] order] eqn:Es.
  apply select_start_spec in Es; [|done].
  destruct Es as [Hnds _ _ _ Hp0 _ _ _].
  apply bind_ok in Hsel as ([ss' c] & Hl & [= <-]). cbn [sel_probed sel_verdicts sel_chosen] in *.
  assert (Hw := fun w => verdict_provider _ _ _ _ _ ids _ w Hnds Hl).
  destruct (select_loop_account _ _ _ _ _ _ Hl) as [Hok Hchosen].
  { intros l x y p E. rewrite Hp0 in E. by destruct l. }
  pose proof (Hw vr Hvr) as Hpr. rewrite Hr in Hpr. split.
  - intros w Hin Hlater E. apply (proj2 (Hok _ _ _ _ Hp Hf Hpr) _ Hlater).
    rewrite (Hw w Hin). by rewrite E.
  - intros v Hv E. destruct c as [id|]; [|done]. cbn in Hv. rewrite inherit_blocks_chosen in Hv.
    destruct (find_a id (ss_as ss')) as [a|] eqn:Ea; [|done]. injection Hv as <-. cbn in E.
    destruct (find_a_ident _ _ _ _ (select_loop_ident _ _ _ _ _ _ Hl) Ea) as (b & Hb & Hi).
    injection Hi as _ Hip _ _. eapply (Hchosen id eq_refl (v_provider vr)); [|exact Hp|exact Hf|done].
    unfold provider_in. rewrite Hb. cbn. congruence.
Qed.

(** A recorded success clears the cooldown of the route, and the one of its
    credential pool unless that is a credential failure whose deadline has not passed;
    no other cooldown changes. The route then counts as healthy until the health
    record expires, when the shared cache and the admitted set have nothing to add. *)
Theorem record_success_clears `{env : LadderEnv} ld cache st r now now' :
  in_range now -> now' - now <= ld_ttl_us ld ->
  let st' := record_success ld cache st r now in
  let pool := "pool:" +:+ pool_of r in
  st_cooldowns st' !! ("route:" +:+ r) = None /\
  (forall c, st_cooldowns st !! pool = Some c ->
     mem (cd_category c) POOL_COOLDOWN_CATEGORIES = true ->
     is_Some (active_cooldown ld cache st pool now None) -> st_cooldowns st' !! pool = Some c) /\
  ((forall c, st_cooldowns st !! pool = Some c ->
      mem (cd_category c) POOL_COOLDOWN_CATEGORIES = false \/
      active_cooldown ld cache st pool now None = None) -> st_cooldowns st' !! pool = None) /\
  (forall key, key <> "route:" +:+ r -> key <> pool ->
     st_cooldowns st' !! key = st_cooldowns st !! key) /\
  health_status ld None None st' r now' = ("healthy", "").
Proof.
  intros Hr Httl st' pool.
  assert (Hne : "route:" +:+ r <> pool) by (subst pool; discriminate).
  subst st'. unfold record_success. cbn [st_cooldowns]. fold pool. split_and!.
  - by rewrite lookup_delete_eq.
  - intros c Hc Hm Ha. rewrite Hc, Hm, bool_decide_true by done. cbn [andb].
    by rewrite lookup_delete_ne.
  - intros H. rewrite lookup_delete_ne by done.
    destruct (st_cooldowns st !! pool) as [c|] eqn:Ec; [|by rewrite lookup_delete_eq].
    destruct (H c eq_refl) as [->| ->]; cbn [andb]; [by rewrite lookup_delete_eq|].
    rewrite bool_decide_false by (by intros [? [=]]). by rewrite andb_false_r, lookup_delete_eq.
  - intros key H1 H2. rewrite lookup_delete_ne by done.
    match goal with |- (if ?b then _ else _) !! _ = _ => destruct b end; [done|].
    by rewrite lookup_delete_ne.
  - unfold health_status. cbn [fst snd st_health hm_checked_at hm_healthy]. cbn -[parse_iso lookup insert].
    rewrite lookup_insert_eq. cbn [hm_checked_at hm_healthy hm_category].
    unfold iso_us. rewrite parse_iso_instant by done.
    rewrite (proj2 (Z.ltb_ge _ _)) by lia. done.
Qed.

(** * Concrete runs *)

Definition broke_env : LadderEnv := {|
  env_probe := fun _ r => {| hr_healthy := startswith r "cc/"; hr_category := "payment_required";
                             hr_status_code := Some 402; hr_retry_after := None;
                             hr_error_message := "" |};
  env_observe := fun _ c _ _ _ => c; env_proof_stale := fun _ _ _ => true;
  env_tokens := fun _ => None; env_session := fun _ _ _ => None;
  env_rating := fun _ _ _ => (3, 0%Q, 0); env_refutes := fun _ _ _ _ => false;
  env_fresh_us := 900000000; env_usable_us := 3600000000; env_agentic_ttl_us := 86400000000;
  env_session_ttl_us := 86400000000 |}.

Definition broke_ladder : Ladder :=
  {| ld_rows := [("cx/gpt-5.5", sample_row "codex"); ("cx/gpt-5.4", sample_row "codex");
                 ("cc/claude-sonnet-5", sample_row "claude")];
     ld_connections := [sample_conn "claude" "oauth"; sample_conn "codex" "oauth"];
     ld_ttl_us := 900000000; ld_harness := None; ld_prefer := ["codex"]; ld_load := fun _ => 0;
     ld_max_per_route := 1; ld_max_probes := 3; ld_min_quota := 5%Q; ld_free_set := None;
     ld_rankings := ∅; ld_rankings_category := None |}.

Definition broke_sel : Selection :=
  match select (env:=broke_env) broke_ladder None None sample_st sample_req sample_now None with
  | Ok s => s
  | Err _ => sample_sel
  end.

Lemma account_failure_stops_probes_witness :
  sel_probed broke_sel = ["cc/claude-sonnet-5"; "cx/gpt-5.4"] /\
  forall v, sel_chosen broke_sel = Some v -> v_provider v <> "codex".
Proof.
  split; [vm_compute; reflexivity|].
  assert (Hp : "codex" = v_provider (default sample_rank (sel_verdicts broke_sel !! 1%nat)))
    by (vm_compute; reflexivity).
  rewrite Hp.
  refine (proj2 (account_failure_stops_probes (env:=broke_env) broke_ladder sample_now None None
    sample_st sample_req None broke_sel ["cc/claude-sonnet-5"] "cx/gpt-5.4" []
    (default sample_rank (sel_verdicts broke_sel !! 1%nat)) _ _ _ _ _ _)).
  - apply (bool_decide_unpack _). reflexivity.
  - vm_compute. reflexivity.
  - vm_compute. reflexivity.
  - split; reflexivity.
  - apply (list_elem_of_lookup_2 _ 1). vm_compute. reflexivity.
  - vm_compute. reflexivity.
Defined.

Definition sample_failure : FailureClassification :=
  {| fc_category := "quota_exhausted"; fc_action := "REROUTE"; fc_cooldown_seconds := 0;
     fc_scope := "provider"; fc_evidence := "" |}.

Lemma record_failure_blocks_witness :
  a_failed (assess (env:=sample_env) sample_ladder None None
    (record_failure sample_ladder sample_st "cc/claude-sonnet-5" sample_failure sample_now)
    "cc/claude-opus-5" (sample_row "claude") sample_req (sample_now + 3599000000)) <> None.
Proof.
  refine (proj1 (proj2 (proj2 (record_failure_blocks (env:=sample_env) sample_ladder sample_st
    "cc/claude-sonnet-5" sample_failure sample_now (sample_now + 3599000000) None _ _ _))) _ _ _ _ _ _).
  - right. left.
  - unfold in_range. vm_compute. split; [discriminate|reflexivity].
  - vm_compute. reflexivity.
  - reflexivity.
  - vm_compute. reflexivity.
Defined.

Lemma record_success_clears_witness :
  health_status (env:=sample_env) sample_ladder None None
    (record_success (env:=sample_env) sample_ladder None sample_st "cc/x" sample_now) "cc/x" (sample_now + 5)
  = ("healthy", "").
Proof.
  refine (proj2 (proj2 (proj2 (proj2 (record_success_clears (env:=sample_env) sample_ladder None
    sample_st "cc/x" sample_now (sample_now + 5) _ _))))).
  - unfold in_range. vm_compute. split; [discriminate|reflexivity].
  - vm_compute. discriminate.
Defined.
