(* ===== verification/HealthRecord.v ===== *)
(** [verdict/orchestration/health_cache.py], the evidence of one route: its entry, how long a
    result counts, and every way in which a probe, traffic or a session is recorded.

    Instants are microseconds since 0001-01-01 UTC; a timestamp argument is a [datetime] and
    must be aware. Seconds are rationals. The freshness of healthy evidence, configured by
    the environment between a minute and two days, is the parameter [fresh_us]. *)
From Stdlib Require Import Ascii Lqa.
From S2P Require Import Prelude PyStr Time PyNum Json JsonDict Passports Providers Ladder LadderCooldown.

(** [HealthCacheError]; [OverflowError] of [float] and of [datetime] arithmetic. *)
Inductive health_exn :=
| HealthCacheError (msg : string)
| OverflowError.

Definition CATEGORY_OK : string := "ok".
Definition CATEGORY_RATE_LIMITED : string := "rate_limited".

(** [_LONG_TTL_STATUSES], [_LONG_TTL_CATEGORIES] *)
Definition LONG_TTL_STATUSES : list Z := [401; 402; 403; 404; 410].
Definition LONG_TTL_CATEGORIES : list string :=
  ["authentication"; "payment_required"; "permission"; "not_found"; "gone"; "catalog_stale"].

(** The failures that say nothing about agentic capability. *)
Definition UNANSWERED : list string :=
  ["timeout"; "upstream"; "rate_limited"; "authentication"; "payment_required"; "permission"].

Definition RATE_LIMIT_SECONDS : Q := 60.
Definition TRANSIENT_BASE_SECONDS : Q := 60.
Definition TRANSIENT_CAP_SECONDS : Q := 900.
Definition LONG_BASE_SECONDS : Q := inject_Z (6 * 3600).
Definition LONG_CAP_SECONDS : Q := inject_Z (24 * 3600).
Definition PASSIVE_CLOCK_SKEW_US : Z := 60 * us_per_second.
Definition USABLE_STALE_GRACE_US : Z := 1200 * us_per_second.

(** [_aware] *)
Definition aware (name : string) (d : datetime) : result health_exn Z :=
  match dt_off d with
  | Some _ => if in_years (instant d) then Ok (instant d) else Err OverflowError
  | None => Err (HealthCacheError (name +:+ " must be a timezone-aware datetime"))
  end.

(** [t + timedelta(microseconds=us)] *)
Definition shift (t us : Z) : result health_exn Z :=
  if in_years (t + us) then Ok (t + us) else Err OverflowError.

(** * How long a result counts *)

(** [is_long_negative] *)
Definition is_long_negative (category : string) (http_status : option Z) : bool :=
  match http_status with Some s => bool_decide (s ∈ LONG_TTL_STATUSES) | None => false end ||
  mem category LONG_TTL_CATEGORIES.

(** [_capped]: [float] of a power of two from [2 ** 1024] on raises. *)
Definition capped (base : Q) (failures : Z) (cap : Q) : result health_exn Q :=
  if 1024 <=? failures - 1 then Err OverflowError
  else let grown := (base * inject_Z (2 ^ (failures - 1)))%Q in
       Ok (if Qltb cap grown then cap else grown).

(** [negative_seconds] *)
Definition negative_seconds (category : string) (http_status : option Z) (retry_after : option Q)
    (consecutive_failures : Z) : result health_exn Q :=
  let failures := Z.max 1 consecutive_failures in
  if String.eqb category CATEGORY_RATE_LIMITED || bool_decide (http_status = Some 429) then
    match retry_after with
    | Some s => Ok (if Qltb 0 s then s else RATE_LIMIT_SECONDS)
    | None => Ok RATE_LIMIT_SECONDS
    end
  else if is_long_negative category http_status then capped LONG_BASE_SECONDS failures LONG_CAP_SECONDS
  else capped TRANSIENT_BASE_SECONDS failures TRANSIENT_CAP_SECONDS.

(** [next_backoff_seconds] *)
Definition next_backoff_seconds (previous : Q) : Q :=
  if Qltb 0 previous
  then let half := (previous / 2)%Q in
       if Qltb TRANSIENT_BASE_SECONDS half then half else TRANSIENT_BASE_SECONDS
  else TRANSIENT_BASE_SECONDS.

(** * Entries and results *)

Record HealthEntry := {
  he_route_id : string;
  he_category : string;
  he_checked_at : Z;
  he_until : Z;
  he_consecutive_failures : Z;
  he_chat_ok : bool;
  he_tool_ok : bool;
  he_latency_ms : option Q;
  he_pool : option string;
  he_capacity_evidence : option string;
  he_http_status : option Z;
  he_healthy : bool;
  he_identity : string;
  he_probe_class : string;
  he_agentic_ok : bool;
  he_agentic_checked_at : option Z;
  he_last_success_at : option Z;
  he_last_failure_at : option Z;
  he_failure_scope : option string;
  he_session_agentic_ok : option bool;
  he_session_agentic_at : option Z;
  he_agentic_source : option string;
  he_agentic_child_id : option string;
  he_write_revision : Z;
  he_feedback_source : option string;
  he_feedback_category : option string;
  he_feedback_turn_count : option Z;
  he_feedback_turns_source : option string;
  he_feedback_provenance : option string;
  he_evidence_source : option string
}.

Record ProbeResult := {
  pr_category : string;
  pr_chat_ok : bool;
  pr_tool_ok : bool;
  pr_latency_ms : option Q;
  pr_http_status : option Z;
  pr_retry_after_seconds : option Q;
  pr_pool : option string;
  pr_capacity_evidence : option string;
  pr_identity : string;
  pr_probe_class : string;
  pr_agentic_ok : bool;
  pr_last_success_at : option Z;
  pr_failure_scope : option string;
  pr_negative_ttl_seconds : option Q;
  pr_feedback_source : option string;
  pr_feedback_category : option string;
  pr_feedback_turn_count : option Z;
  pr_feedback_turns_source : option string;
  pr_feedback_provenance : option string
}.

(** [ProbeResult.healthy] *)
Definition pr_healthy (r : ProbeResult) : bool :=
  pr_chat_ok r && pr_tool_ok r && String.eqb (pr_category r) CATEGORY_OK.

(** What the ladder reads of an entry. *)
Definition cache_entry (e : HealthEntry) : CacheEntry :=
  {| hce_healthy := he_healthy e; hce_category := he_category e; hce_checked_at := he_checked_at e;
     hce_until := he_until e; hce_capacity_evidence := default "" (he_capacity_evidence e);
     hce_agentic_ok := he_agentic_ok e; hce_agentic_at := he_agentic_checked_at e;
     hce_session_ok := default false (he_session_agentic_ok e);
     hce_session_at := he_session_agentic_at e |}.

(** The last failure that an entry tells of: the recorded one, or its own. *)
Definition failure_at (e : HealthEntry) : option Z :=
  match he_last_failure_at e with
  | Some t => Some t
  | None => if he_healthy e then None else Some (he_checked_at e)
  end.

(** [replace(entry, session evidence ...)] *)
Definition with_session (e : HealthEntry) (ok : option bool) (at_ : option Z) (source child : option string)
    : HealthEntry :=
  {| he_route_id := he_route_id e; he_category := he_category e; he_checked_at := he_checked_at e;
     he_until := he_until e; he_consecutive_failures := he_consecutive_failures e;
     he_chat_ok := he_chat_ok e; he_tool_ok := he_tool_ok e; he_latency_ms := he_latency_ms e;
     he_pool := he_pool e; he_capacity_evidence := he_capacity_evidence e;
     he_http_status := he_http_status e; he_healthy := he_healthy e; he_identity := he_identity e;
     he_probe_class := he_probe_class e; he_agentic_ok := he_agentic_ok e;
     he_agentic_checked_at := he_agentic_checked_at e; he_last_success_at := he_last_success_at e;
     he_last_failure_at := he_last_failure_at e; he_failure_scope := he_failure_scope e;
     he_session_agentic_ok := ok; he_session_agentic_at := at_; he_agentic_source := source;
     he_agentic_child_id := child; he_write_revision := he_write_revision e;
     he_feedback_source := he_feedback_source e; he_feedback_category := he_feedback_category e;
     he_feedback_turn_count := he_feedback_turn_count e;
     he_feedback_turns_source := he_feedback_turns_source e;
     he_feedback_provenance := he_feedback_provenance e; he_evidence_source := he_evidence_source e |}.

(** [replace(entry, probe_class=..., agentic_ok=..., agentic_checked_at=...)] *)
Definition with_agentic (e : HealthEntry) (class : string) (ok : bool) (at_ : option Z) : HealthEntry :=
  {| he_route_id := he_route_id e; he_category := he_category e; he_checked_at := he_checked_at e;
     he_until := he_until e; he_consecutive_failures := he_consecutive_failures e;
     he_chat_ok := he_chat_ok e; he_tool_ok := he_tool_ok e; he_latency_ms := he_latency_ms e;
     he_pool := he_pool e; he_capacity_evidence := he_capacity_evidence e;
     he_http_status := he_http_status e; he_healthy := he_healthy e; he_identity := he_identity e;
     he_probe_class := class; he_agentic_ok := ok; he_agentic_checked_at := at_;
     he_last_success_at := he_last_success_at e; he_last_failure_at := he_last_failure_at e;
     he_failure_scope := he_failure_scope e; he_session_agentic_ok := he_session_agentic_ok e;
     he_session_agentic_at := he_session_agentic_at e; he_agentic_source := he_agentic_source e;
     he_agentic_child_id := he_agentic_child_id e; he_write_revision := he_write_revision e;
     he_feedback_source := he_feedback_source e; he_feedback_category := he_feedback_category e;
     he_feedback_turn_count := he_feedback_turn_count e;
     he_feedback_turns_source := he_feedback_turns_source e;
     he_feedback_provenance := he_feedback_provenance e; he_evidence_source := he_evidence_source e |}.

(** [replace(entry, write_revision=..., evidence_source=...)] *)
Definition with_marks (e : HealthEntry) (revision : Z) (source : option string) : HealthEntry :=
  {| he_route_id := he_route_id e; he_category := he_category e; he_checked_at := he_checked_at e;
     he_until := he_until e; he_consecutive_failures := he_consecutive_failures e;
     he_chat_ok := he_chat_ok e; he_tool_ok := he_tool_ok e; he_latency_ms := he_latency_ms e;
     he_pool := he_pool e; he_capacity_evidence := he_capacity_evidence e;
     he_http_status := he_http_status e; he_healthy := he_healthy e; he_identity := he_identity e;
     he_probe_class := he_probe_class e; he_agentic_ok := he_agentic_ok e;
     he_agentic_checked_at := he_agentic_checked_at e; he_last_success_at := he_last_success_at e;
     he_last_failure_at := he_last_failure_at e; he_failure_scope := he_failure_scope e;
     he_session_agentic_ok := he_session_agentic_ok e; he_session_agentic_at := he_session_agentic_at e;
     he_agentic_source := he_agentic_source e; he_agentic_child_id := he_agentic_child_id e;
     he_write_revision := revision; he_feedback_source := he_feedback_source e;
     he_feedback_category := he_feedback_category e; he_feedback_turn_count := he_feedback_turn_count e;
     he_feedback_turns_source := he_feedback_turns_source e;
     he_feedback_provenance := he_feedback_provenance e; he_evidence_source := source |}.

Definition he_revision (e : HealthEntry) (revision : Z) : HealthEntry :=
  with_marks e revision (he_evidence_source e).

(** The routes of a cache: [self._routes]. *)
Abbreviation routes := (gmap string HealthEntry).

(** * Recording *)

(** The agentic evidence of the entry that a probe leaves: class, success and time, and
    whether an older proof is kept although the probe failed. *)
Definition agentic_after (previous : option HealthEntry) (r : ProbeResult) (now : Z)
    : string * bool * option Z * bool :=
  let fresh := (pr_probe_class r, pr_agentic_ok r,
                if String.eqb (pr_probe_class r) "agentic" then Some now else None) in
  match previous with
  | None => (fresh, false)
  | Some p =>
      let kept := (he_probe_class p, he_agentic_ok p, he_agentic_checked_at p) in
      let carried := if he_agentic_ok p && String.eqb (pr_probe_class r) "single_call"
                     then ("agentic", true, he_agentic_checked_at p) else fresh in
      let preserve := he_agentic_ok p &&
        match he_agentic_checked_at p with Some t => t <? now | None => false end &&
        negb (pr_chat_ok r) && negb (pr_tool_ok r) && mem (pr_category r) UNANSWERED in
      (if preserve then kept else carried, preserve)
  end.

Section record.
Context (fresh_us : Z).

Definition usable_us : Z := fresh_us + USABLE_STALE_GRACE_US.

(** [classify_state], [HealthEntry.state_at]: the ends of the windows are instants of the model
    also past the year 9999, where the code raises. *)
Definition state_at (e : HealthEntry) (now : Z) : CacheState :=
  if he_healthy e then
    if now <? he_checked_at e + fresh_us then Fresh
    else if now <? he_checked_at e + usable_us then StaleState
    else Unprobed
  else if now <? he_until e then Negative else Unprobed.

(** How long the failure that a probe found keeps its route out. *)
Definition failure_seconds (r : ProbeResult) (failures : Z) : result health_exn Q :=
  match pr_negative_ttl_seconds r with
  | Some s =>
      if Qltb 0 s then Ok (if Qltb LONG_CAP_SECONDS s then LONG_CAP_SECONDS else s)
      else Err (HealthCacheError "negative_ttl_seconds must be finite and positive")
  | None => negative_seconds (pr_category r) (pr_http_status r) (pr_retry_after_seconds r) failures
  end.

(** The entry of a probe at an instant, before the session evidence is considered *)
Definition probe_entry (route : string) (previous : option HealthEntry) (r : ProbeResult) (now : Z)
    : result health_exn HealthEntry :=
  let '(class, agentic_ok, agentic_at, preserve) := agentic_after previous r now in
  let previous_failure : option Z := p ← previous; failure_at p in
  let from {A} (f : HealthEntry -> option A) : option A := p ← previous; f p in
  let revision := match previous with Some p => he_write_revision p | None => 0 end in
  if pr_healthy r then
    until ← shift now usable_us;
    Ok {| he_route_id := route; he_category := CATEGORY_OK; he_checked_at := now; he_until := until;
          he_consecutive_failures := 0; he_chat_ok := true; he_tool_ok := true;
          he_latency_ms := pr_latency_ms r; he_pool := pr_pool r;
          he_capacity_evidence := pr_capacity_evidence r; he_http_status := pr_http_status r;
          he_healthy := true; he_identity := pr_identity r; he_probe_class := class;
          he_agentic_ok := agentic_ok; he_agentic_checked_at := agentic_at;
          he_last_success_at := Some now; he_last_failure_at := previous_failure;
          he_failure_scope := None; he_session_agentic_ok := from he_session_agentic_ok;
          he_session_agentic_at := from he_session_agentic_at;
          he_agentic_source := from he_agentic_source;
          he_agentic_child_id := from he_agentic_child_id; he_write_revision := revision;
          he_feedback_source := None; he_feedback_category := None; he_feedback_turn_count := None;
          he_feedback_turns_source := None; he_feedback_provenance := None;
          he_evidence_source := None |}
  else
    let failures := match previous with Some p => he_consecutive_failures p | None => 0 end + 1 in
    seconds ← failure_seconds r failures;
    until ← shift now (seconds_us seconds);
    Ok {| he_route_id := route; he_category := pr_category r; he_checked_at := now; he_until := until;
          he_consecutive_failures := failures; he_chat_ok := pr_chat_ok r; he_tool_ok := pr_tool_ok r;
          he_latency_ms := pr_latency_ms r;
          he_pool := match pr_pool r with Some s => Some s | None => from he_pool end;
          he_capacity_evidence := pr_capacity_evidence r; he_http_status := pr_http_status r;
          he_healthy := false; he_identity := pr_identity r; he_probe_class := class;
          he_agentic_ok := if preserve then agentic_ok else false;
          he_agentic_checked_at := match agentic_at with
                                   | Some t => Some t
                                   | None => from he_agentic_checked_at
                                   end;
          he_last_success_at := match pr_last_success_at r with
                                | Some t => Some t
                                | None => from he_last_success_at
                                end;
          he_last_failure_at := Some (match previous_failure with
                                      | Some t => Z.max now t
                                      | None => now
                                      end);
          he_failure_scope := pr_failure_scope r; he_session_agentic_ok := from he_session_agentic_ok;
          he_session_agentic_at := from he_session_agentic_at;
          he_agentic_source := from he_agentic_source;
          he_agentic_child_id := from he_agentic_child_id; he_write_revision := revision;
          he_feedback_source := pr_feedback_source r; he_feedback_category := pr_feedback_category r;
          he_feedback_turn_count := pr_feedback_turn_count r;
          he_feedback_turns_source := pr_feedback_turns_source r;
          he_feedback_provenance := pr_feedback_provenance r; he_evidence_source := None |}.

(** A route that answers and fails a newer agentic probe loses its session proof. *)
Definition revoke_session (e : HealthEntry) (r : ProbeResult) (now : Z) : HealthEntry :=
  if String.eqb (pr_probe_class r) "agentic" && pr_chat_ok r && negb (pr_agentic_ok r) &&
     match he_session_agentic_at e with Some t => t <=? now | None => false end
  then with_session e (Some false) (Some now) (Some "agentic_probe") None
  else e.

(** [HealthCache.record] at an instant *)
Definition record_at (route : string) (r : ProbeResult) (now : Z) (cache : routes)
    : result health_exn (HealthEntry * routes) :=
  _ ← raise_if (String.eqb (strip route) "") (HealthCacheError "route must be non-empty");
  e ← probe_entry route (cache !! route) r now;
  let e := revoke_session e r now in
  Ok (e, <[route := e]> cache).

(** [HealthCache.record] *)
Definition record (route : string) (r : ProbeResult) (now : datetime) (cache : routes)
    : result health_exn (HealthEntry * routes) :=
  _ ← raise_if (String.eqb (strip route) "") (HealthCacheError "route must be non-empty");
  current ← aware "now" now;
  record_at route r current cache.

(** [HealthCache.record_liveness] at an instant *)
Definition liveness_at (route : string) (latency : option Q) (pool capacity_evidence : option string)
    (now : Z) (identity : string) (cache : routes) : result health_exn (HealthEntry * routes) :=
  _ ← raise_if (String.eqb (strip route) "") (HealthCacheError "route must be non-empty");
  until ← shift now usable_us;
  let previous := cache !! route in
  let from {A} (f : HealthEntry -> option A) : option A := p ← previous; f p in
  let e :=
    {| he_route_id := route; he_category := CATEGORY_OK; he_checked_at := now; he_until := until;
       he_consecutive_failures := 0; he_chat_ok := true; he_tool_ok := false; he_latency_ms := latency;
       he_pool := pool; he_capacity_evidence := capacity_evidence; he_http_status := Some 200;
       he_healthy := true; he_identity := identity;
       he_probe_class := match previous with Some p => he_probe_class p | None => "single_call" end;
       he_agentic_ok := match previous with Some p => he_agentic_ok p | None => false end;
       he_agentic_checked_at := from he_agentic_checked_at; he_last_success_at := Some now;
       he_last_failure_at := from failure_at; he_failure_scope := None;
       he_session_agentic_ok := from he_session_agentic_ok;
       he_session_agentic_at := from he_session_agentic_at;
       he_agentic_source := from he_agentic_source; he_agentic_child_id := from he_agentic_child_id;
       he_write_revision := match previous with Some p => he_write_revision p | None => 0 end;
       he_feedback_source := None; he_feedback_category := None; he_feedback_turn_count := None;
       he_feedback_turns_source := None; he_feedback_provenance := None; he_evidence_source := None |} in
  Ok (e, <[route := e]> cache).

(** [HealthCache.record_liveness] *)
Definition record_liveness (route : string) (latency : option Q) (pool capacity_evidence : option string)
    (now : datetime) (identity : string) (cache : routes) : result health_exn (HealthEntry * routes) :=
  _ ← raise_if (String.eqb (strip route) "") (HealthCacheError "route must be non-empty");
  current ← aware "now" now;
  liveness_at route latency pool capacity_evidence current identity cache.

(** The conditions under which observed traffic is not taken, and the reason *)
Definition passive_traffic_verdict (cache : routes) (route : string) (observed now : Z) : option string :=
  if now + PASSIVE_CLOCK_SKEW_US <? observed then Some "skipped_future"
  else if usable_us <=? now - observed then Some "skipped_too_old"
  else match cache !! route with
       | None => None
       | Some p =>
           if observed <=? he_checked_at p then Some "skipped_newer_or_equal"
           else match state_at p now with
                | Negative => Some "skipped_active_negative"
                | Fresh | StaleState =>
                    if he_healthy p && he_tool_ok p then Some "skipped_tool_proof_usable" else None
                | Unprobed => None
                end
       end.

(** [HealthCache.record_passive_traffic] *)
Definition record_passive_traffic (route : string) (observed_at now : datetime) (source : string)
    (latency : option Q) (pool capacity_evidence : option string) (cache : routes)
    : result health_exn (string * routes) :=
  observed ← aware "observed_at" observed_at;
  current ← aware "now" now;
  _ ← shift current PASSIVE_CLOCK_SKEW_US;
  match passive_traffic_verdict cache route observed current with
  | Some skipped => Ok (skipped, cache)
  | None =>
      let pool := match pool with Some s => Some s | None => p ← cache !! route; he_pool p end in
      '(e, cache) ← liveness_at route latency pool capacity_evidence observed "" cache;
      Ok ("recorded", <[route := with_marks e (he_write_revision e) (Some source)]> cache)
  end.

(** [ProbeResult(category, chat_ok=False, tool_ok=False, http_status=..., failure_scope="route")] *)
Definition passive_probe (category : string) (http_status : option Z) : ProbeResult :=
  {| pr_category := category; pr_chat_ok := false; pr_tool_ok := false; pr_latency_ms := None;
     pr_http_status := http_status; pr_retry_after_seconds := None; pr_pool := None;
     pr_capacity_evidence := None; pr_identity := ""; pr_probe_class := "single_call";
     pr_agentic_ok := false; pr_last_success_at := None; pr_failure_scope := Some "route";
     pr_negative_ttl_seconds := None; pr_feedback_source := None; pr_feedback_category := None;
     pr_feedback_turn_count := None; pr_feedback_turns_source := None; pr_feedback_provenance := None |}.

(** [HealthCache.record_passive_failure] *)
Definition record_passive_failure (route : string) (observed_at now : datetime) (http_status : option Z)
    (category source : string) (cache : routes) : result health_exn (string * routes) :=
  observed ← aware "observed_at" observed_at;
  current ← aware "now" now;
  _ ← shift current PASSIVE_CLOCK_SKEW_US;
  if current + PASSIVE_CLOCK_SKEW_US <? observed then Ok ("skipped_future", cache)
  else if match cache !! route with Some p => observed <=? he_checked_at p | None => false end
  then Ok ("skipped_newer_or_equal", cache)
  else
    '(e, recorded) ← record_at route (passive_probe category http_status) observed cache;
    match state_at e current with
    | Negative => Ok ("recorded", <[route := with_marks e (he_write_revision e) (Some source)]> recorded)
    | _ => Ok ("skipped_expired", cache)
    end.
End record.

(** [HealthCache.record_agentic_evidence]: whether it was taken, and the routes. *)
Definition record_agentic_evidence (route : string) (passed : bool) (at_ : datetime) (source : string)
    (child_id : option string) (cache : routes) : result health_exn (bool * routes) :=
  current ← aware "agentic_checked_at" at_;
  let previous := cache !! route in
  let prior_at : option Z := p ← previous; match he_session_agentic_at p with
                                | Some t => Some t
                                | None => he_agentic_checked_at p
                                end in
  let prior_ok := match previous with
                  | Some p => match he_session_agentic_at p with
                              | Some _ => default false (he_session_agentic_ok p)
                              | None => he_agentic_ok p
                              end
                  | None => false
                  end in
  if match prior_at with
     | Some t => (current <? t) || ((current =? t) && (passed || negb prior_ok))
     | None => false
     end
  then Ok (false, cache)
  else
    base ← match previous with
           | Some p => Ok p
           | None =>
               _ ← raise_if (String.eqb (strip route) "") (HealthCacheError "route_id must be non-empty");
               Ok {| he_route_id := route; he_category := "session_evidence"; he_checked_at := current;
                     he_until := current; he_consecutive_failures := 0; he_chat_ok := false;
                     he_tool_ok := false; he_latency_ms := None; he_pool := None;
                     he_capacity_evidence := None; he_http_status := None; he_healthy := false;
                     he_identity := ""; he_probe_class := "single_call"; he_agentic_ok := false;
                     he_agentic_checked_at := None; he_last_success_at := None;
                     he_last_failure_at := None; he_failure_scope := None;
                     he_session_agentic_ok := None; he_session_agentic_at := None;
                     he_agentic_source := None; he_agentic_child_id := None; he_write_revision := 0;
                     he_feedback_source := None; he_feedback_category := None;
                     he_feedback_turn_count := None; he_feedback_turns_source := None;
                     he_feedback_provenance := None; he_evidence_source := None |}
           end;
    let e := with_session (with_agentic base "agentic" passed (Some current))
               (Some passed) (Some current) (Some source) child_id in
    Ok (true, <[route := e]> cache).

(** [HealthCache.record_half_open_success]: the new backoff in seconds *)
Definition record_half_open_success (route : string) (cache : routes) : Q :=
  match cache !! route with
  | Some p => if he_healthy p then 0%Q
              else next_backoff_seconds (inject_Z (he_until p - he_checked_at p) / inject_Z us_per_second)
  | None => 0%Q
  end.

(** * Properties *)

(** An entry of the store is read by the ladder as it is classified here. *)
Lemma state_at_ladder `{env : LadderEnv} fresh_us e now :
  env_fresh_us = fresh_us -> env_usable_us = usable_us fresh_us ->
  cache_state (cache_entry e) now = state_at fresh_us e now.
Proof. intros Hf Hu. unfold cache_state, state_at. cbn. by rewrite Hf, Hu. Qed.

Lemma shift_ok t us v : shift t us = Ok v <-> v = t + us /\ in_years (t + us) = true.
Proof. unfold shift. destruct (in_years (t + us)); split; intros; naive_solver. Qed.

(** ** Backoff *)

Section capped.
Context (base cap : Q) (Hbase : (0 < base)%Q) (Hcap : (base <= cap)%Q).

Lemma pow2_ge_1 n : 0 <= n -> (1 <= inject_Z (2 ^ n))%Q.
Proof. intros H. change 1%Q with (inject_Z 1). rewrite <- Zle_Qle. pose proof (Z.pow_pos_nonneg 2 n). lia. Qed.

Lemma capped_between n q : 1 <= n -> capped base n cap = Ok q -> (base <= q <= cap)%Q.
Proof.
  unfold capped. intros Hn. destruct (1024 <=? n - 1); [done|]. intros [= <-].
  pose proof (pow2_ge_1 (n - 1) ltac:(lia)) as Hp.
  destruct (Qltb _ _) eqn:E; [lra|]. apply Qltb_false in E. split; [|done].
  rewrite <- (Qmult_1_r base) at 1. apply Qmult_le_l; lra.
Qed.

Lemma capped_mono n m q r : 1 <= n <= m -> capped base n cap = Ok q -> capped base m cap = Ok r -> (q <= r)%Q.
Proof.
  unfold capped. intros Hn. destruct (1024 <=? n - 1); [done|]. destruct (1024 <=? m - 1); [done|].
  intros [= <-] [= <-].
  assert (base * inject_Z (2 ^ (n - 1)) <= base * inject_Z (2 ^ (m - 1)))%Q as Hle.
  { apply Qmult_le_l; [done|]. rewrite <- Zle_Qle. apply Z.pow_le_mono_r; lia. }
  destruct (Qltb cap (base * inject_Z (2 ^ (n - 1)))) eqn:E1, (Qltb cap (base * inject_Z (2 ^ (m - 1)))) eqn:E2;
    try apply Qltb_spec in E1; try apply Qltb_spec in E2; try apply Qltb_false in E1; try apply Qltb_false in E2; lra.
Qed.

Lemma capped_raises n : is_ok (capped base n cap) = false <-> 1024 < n.
Proof. unfold capped. destruct (1024 <=? n - 1) eqn:E; split; intros; cbn in *; lia || done. Qed.
End capped.

Lemma capped_doubles base cap n q : (0 < base)%Q -> (base <= cap)%Q -> 1 <= n < 1024 ->
  capped base n cap = Ok q ->
  exists r, capped base (n + 1) cap = Ok r /\ (r == Qminb (2 * q) cap)%Q.
Proof.
  unfold capped. intros Hb Hc Hn. replace (n + 1 - 1) with (Z.succ (n - 1)) by lia.
  destruct (Z.leb_spec 1024 (n - 1)); [lia|]. destruct (Z.leb_spec 1024 (Z.succ (n - 1))); [lia|].
  rewrite Z.pow_succ_r by lia. intros [= <-]. eexists; split; [done|].
  assert (base * inject_Z (2 * 2 ^ (n - 1)) == 2 * (base * inject_Z (2 ^ (n - 1))))%Q as Hd.
  { rewrite inject_Z_mult. change (inject_Z 2) with 2%Q. ring. }
  set (b := (base * inject_Z (2 ^ (n - 1)))%Q) in *. set (d := (base * inject_Z (2 * 2 ^ (n - 1)))%Q) in *.
  assert (0 <= b)%Q as Hz.
  { apply Qmult_le_0_compat; [lra|]. pose proof (pow2_ge_1 (n - 1) ltac:(lia)). lra. }
  clearbody b d. unfold Qminb. destruct (Qltb cap b) eqn:?, (Qltb cap d) eqn:?; case_goal; repeat match goal with
    | H : Qltb _ _ = true |- _ => apply Qltb_spec in H
    | H : Qltb _ _ = false |- _ => apply Qltb_false in H end; lra.
Qed.

Lemma capped_first base cap : (base <= cap)%Q -> exists q, capped base 1 cap = Ok q /\ (q == base)%Q.
Proof.
  intros Hc. unfold capped. change (2 ^ (1 - 1)) with 1. change (1024 <=? 1 - 1) with false.
  assert (base * inject_Z 1 == base)%Q as H1 by (change (inject_Z 1) with 1%Q; ring).
  eexists; split; [done|]. destruct (Qltb cap _) eqn:E; [apply Qltb_spec in E; rewrite H1 in E; lra|done].
Qed.

(** The first backoff of a failure and the longest one. *)
Definition backoff_range (category : string) (http_status : option Z) : Q * Q :=
  if is_long_negative category http_status then (LONG_BASE_SECONDS, LONG_CAP_SECONDS)
  else (TRANSIENT_BASE_SECONDS, TRANSIENT_CAP_SECONDS).

Lemma backoff_range_ok category st :
  (0 < (backoff_range category st).1)%Q /\ ((backoff_range category st).1 <= (backoff_range category st).2)%Q.
Proof. unfold backoff_range. destruct (is_long_negative _ _); by vm_compute. Qed.

Lemma negative_seconds_capped category st retry n :
  category <> CATEGORY_RATE_LIMITED -> st <> Some 429 -> 1 <= n ->
  negative_seconds category st retry n =
  capped (backoff_range category st).1 n (backoff_range category st).2.
Proof.
  intros Hc Hs Hn. unfold negative_seconds, backoff_range.
  apply String.eqb_neq in Hc as ->. rewrite bool_decide_false by done. cbn [orb].
  rewrite Z.max_r by lia. by destruct (is_long_negative _ _).
Qed.

(** A failure that is not a rate limit keeps its route out for a base time, a minute or
    six hours, that doubles with every further consecutive failure up to a cap, a quarter of
    an hour or a day, whatever [Retry-After] says. The 1025th consecutive failure cannot be
    recorded: the power of two is no float any more. *)
Theorem backoff_doubles (category : string) (http_status : option Z) (retry_after : option Q) (n : Z)
    (Hc : category <> CATEGORY_RATE_LIMITED) (Hs : http_status <> Some 429) (Hn : 1 <= n) :
  let '(base, cap) := backoff_range category http_status in
  (n = 1 -> exists q, negative_seconds category http_status retry_after n = Ok q /\ (q == base)%Q) /\
  (forall q, negative_seconds category http_status retry_after n = Ok q -> (base <= q <= cap)%Q) /\
  (forall q, n < 1024 -> negative_seconds category http_status retry_after n = Ok q ->
     exists r, negative_seconds category http_status retry_after (n + 1) = Ok r /\
       (r == Qminb (2 * q) cap)%Q) /\
  (negative_seconds category http_status retry_after n = Err OverflowError <-> 1024 < n).
Proof.
  destruct (backoff_range category http_status) as [base cap] eqn:E.
  pose proof (backoff_range_ok category http_status) as [Hb Hle].
  rewrite !(negative_seconds_capped category http_status) by (done || lia).
  rewrite E in *. cbn [fst snd] in *. split_and!.
  - intros ->. by apply capped_first.
  - intros q. by apply capped_between.
  - intros q ? ?. eapply capped_doubles; [done..|lia|done].
  - unfold capped. destruct (Z.leb_spec 1024 (n - 1)); (split; [try done; lia|intros; try done; lia]).
Qed.

Lemma backoff_doubles_witness :
  (negative_seconds "timeout" None None 1 = Ok 60%Q) /\
  (exists q, negative_seconds "not_found" (Some 404) (Some 5%Q) 1 = Ok q /\
     (q == (backoff_range "not_found" (Some 404%Z)).1)%Q) /\
  negative_seconds "timeout" None None 1025 = Err OverflowError.
Proof.
  split; [by vm_compute|split].
  - apply (backoff_doubles "not_found" (Some 404) (Some 5%Q) 1); [discriminate|discriminate|lia|done].
  - apply (backoff_doubles "timeout" None None 1025); [discriminate|discriminate|lia|lia].
Defined.

(** ** What the recording operations share *)

Section operations.
Context (fresh_us : Z).

(** One evidence operation that returned: the routes before and after. *)
Inductive recording : routes -> routes -> Prop :=
| recorded_probe route r now c e c' :
    record fresh_us route r now c = Ok (e, c') -> recording c c'
| recorded_liveness route latency pool ce now identity c e c' :
    record_liveness fresh_us route latency pool ce now identity c = Ok (e, c') -> recording c c'
| recorded_traffic route observed now source latency pool ce c v c' :
    record_passive_traffic fresh_us route observed now source latency pool ce c = Ok (v, c') ->
    recording c c'
| recorded_failure route observed now st category source c v c' :
    record_passive_failure fresh_us route observed now st category source c = Ok (v, c') ->
    recording c c'
| recorded_session route passed at_ source child c v c' :
    record_agentic_evidence route passed at_ source child c = Ok (v, c') -> recording c c'.

(** At least as late a failure. *)
Definition failure_le (a b : option Z) : Prop :=
  match a with
  | None => True
  | Some x => match b with Some y => x <= y | None => False end
  end.

#[export] Instance failure_le_preorder : PreOrder failure_le.
Proof.
  split.
  - intros [x|]; cbn; [lia|done].
  - intros [x|] [y|] [z|]; cbn; try done; lia.
Qed.

#[local] Hint Extern 0 (failure_le _ _) => reflexivity : core.

(** What recordings make of the entry of a route: never nothing, never an earlier last failure,
    and always the revision that it was read with. *)
Definition evolved (e e' : option HealthEntry) : Prop :=
  match e, e' with
  | Some e, Some e' => he_write_revision e' = he_write_revision e /\ failure_le (failure_at e) (failure_at e')
  | None, Some e' => he_write_revision e' = 0
  | None, None => True
  | Some _, None => False
  end.

Definition evolves (c c' : routes) : Prop := forall route, evolved (c !! route) (c' !! route).

#[export] Instance evolves_preorder : PreOrder evolves.
Proof.
  split.
  - intros c route. destruct (c !! route); cbn; auto.
  - intros c1 c2 c3 H12 H23 route. specialize (H12 route). specialize (H23 route).
    destruct (c1 !! route) as [e1|], (c2 !! route) as [e2|], (c3 !! route) as [e3|]; cbn in *; try done.
    + destruct H12 as [E12 H12]. destruct H23 as [E23 H23]. split; [congruence|]. by transitivity (failure_at e2).
    + destruct H23 as [E23 _]. congruence.
Qed.

Lemma evolves_insert (c : routes) route e' :
  evolved (c !! route) (Some e') -> evolves c (<[route := e']> c).
Proof.
  intros H other. destruct (decide (other = route)) as [->|Hne].
  - by rewrite lookup_insert_eq.
  - rewrite lookup_insert_ne by done. destruct (c !! other); cbn; auto.
Qed.

Lemma probe_entry_evolved route previous r now e :
  probe_entry fresh_us route previous r now = Ok e -> evolved previous (Some e).
Proof.
  unfold probe_entry. destruct (agentic_after previous r now) as [[[class ok] at_] preserve].
  cbv zeta. assert (forall e0 : HealthEntry,
    he_write_revision e0 = match previous with Some p => he_write_revision p | None => 0 end ->
    failure_le (p ← previous; failure_at p) (failure_at e0) -> evolved previous (Some e0)) as Hev.
  { intros e0 Hr Hf. by destruct previous. }
  revert Hev. generalize (p ← previous; failure_at p) as f. intros f Hev.
  destruct (pr_healthy r); intros H; inv_ok; subst e; apply Hev; try reflexivity;
    unfold failure_at; cbn; destruct f; cbn; try done; lia.
Qed.

Lemma evolved_same e e0 e1 : evolved e (Some e0) -> failure_at e1 = failure_at e0 ->
  he_write_revision e1 = he_write_revision e0 -> evolved e (Some e1).
Proof. destruct e; cbn; [intros [-> ?] -> ->; done|congruence]. Qed.

Lemma revoke_session_same e r now :
  failure_at (revoke_session e r now) = failure_at e /\
  he_write_revision (revoke_session e r now) = he_write_revision e.
Proof. unfold revoke_session. by destruct (_ && _). Qed.

Lemma record_at_spec route r now c e c' :
  record_at fresh_us route r now c = Ok (e, c') ->
  c' = <[route := e]> c /\ strip route <> "" /\
  exists e0, probe_entry fresh_us route (c !! route) r now = Ok e0 /\ e = revoke_session e0 r now.
Proof.
  unfold record_at. intros H. inv_ok. bool_hyps. simplify_eq. eauto.
Qed.

Lemma record_at_evolves route r now c e c' :
  record_at fresh_us route r now c = Ok (e, c') -> evolves c c'.
Proof.
  intros (-> & _ & e0 & He0 & ->)%record_at_spec. apply evolves_insert.
  destruct (revoke_session_same e0 r now). eapply evolved_same; [by eapply probe_entry_evolved|done..].
Qed.

Lemma liveness_at_spec route latency pool ce now identity c e c' :
  liveness_at fresh_us route latency pool ce now identity c = Ok (e, c') ->
  c' = <[route := e]> c /\ strip route <> "" /\ evolved (c !! route) (Some e) /\
  he_healthy e = true /\ he_tool_ok e = false /\ he_checked_at e = now /\
  he_session_agentic_ok e = (p ← c !! route; he_session_agentic_ok p) /\
  he_session_agentic_at e = (p ← c !! route; he_session_agentic_at p) /\
  he_agentic_ok e = match c !! route with Some p => he_agentic_ok p | None => false end /\
  he_agentic_checked_at e = (p ← c !! route; he_agentic_checked_at p).
Proof.
  unfold liveness_at. intros H. inv_ok. bool_hyps. simplify_eq. split_and!; try done.
  destruct (c !! route) as [p|]; cbn; [|done]. split; [done|].
  unfold failure_at at 2. cbn. destruct (failure_at p); cbn; [lia|done].
Qed.

Lemma evolves_marks (c : routes) route e source :
  c !! route = Some e -> evolves c (<[route := with_marks e (he_write_revision e) source]> c).
Proof. intros He. apply evolves_insert. rewrite He. by split. Qed.

Lemma recording_evolves c c' : recording c c' -> evolves c c'.
Proof.
  intros [route r now ? e ? H|route latency pool ce now identity ? e ? H
    |route observed now source latency pool ce ? v ? H|route observed now st category source ? v ? H
    |route passed at_ source child ? v ? H].
  - unfold record in H. inv_ok. by eapply record_at_evolves.
  - unfold record_liveness in H. inv_ok.
    select (liveness_at _ _ _ _ _ _ _ _ = _) (fun H => apply liveness_at_spec in H as (-> & _ & Hf & _)).
    by apply evolves_insert.
  - unfold record_passive_traffic in H. inv_ok. case_match; [by simplify_eq|]. inv_ok. case_match. inv_ok.
    select (liveness_at _ _ _ _ _ _ _ _ = _) (fun H => apply liveness_at_spec in H as (-> & _ & Hf & _)).
    simplify_eq. etransitivity; [by apply evolves_insert|]. apply evolves_marks. by rewrite lookup_insert_eq.
  - unfold record_passive_failure in H. inv_ok. case_match; [by simplify_eq|]. case_match; [by simplify_eq|].
    inv_ok. case_match.
    select (record_at _ _ _ _ _ = _) (fun H =>
      destruct (record_at_spec _ _ _ _ _ _ H) as (-> & _); apply record_at_evolves in H as Hk).
    case_match; simplify_eq; [done|done| |done].
    etransitivity; [exact Hk|]. apply evolves_marks. by rewrite lookup_insert_eq.
  - unfold record_agentic_evidence in H. inv_ok. case_match; [by simplify_eq|]. inv_ok.
    subst. apply evolves_insert. destruct (_ !! route); inv_ok; simplify_eq; by cbn.
Qed.

(** No evidence makes a route forget a failure: whatever probes, traffic or sessions are
    recorded, in any order and with any clock readings, every route that had an entry still
    has one, and the last failure it tells of is as late as before or later. *)
Theorem failures_remembered (c c' : routes) (H : rtc recording c c') (route : string) (e : HealthEntry)
    (He : c !! route = Some e) :
  exists e', c' !! route = Some e' /\ failure_le (failure_at e) (failure_at e').
Proof.
  assert (evolves c c') as Hv.
  { clear He. induction H as [|c1 c2 c3 Hs _ IH]; [done|]. transitivity c2; [by apply recording_evolves|done]. }
  specialize (Hv route). rewrite He in Hv. destruct (c' !! route) as [e'|]; [|done].
  exists e'. split; [done|apply Hv].
Qed.

(** ** The session proof *)

(** The session evidence of an entry is from [t] on, and passes only if it is later. *)
Definition revoked_at (t : Z) (e : HealthEntry) : Prop :=
  match he_session_agentic_at e with
  | Some u => t <= u /\ (he_session_agentic_ok e = Some true -> t < u)
  | None => False
  end.

Lemma probe_entry_session route previous r now e :
  probe_entry fresh_us route previous r now = Ok e ->
  he_session_agentic_ok e = (p ← previous; he_session_agentic_ok p) /\
  he_session_agentic_at e = (p ← previous; he_session_agentic_at p).
Proof.
  unfold probe_entry. destruct (agentic_after previous r now) as [[[class ok] at_] preserve].
  cbv zeta. destruct (pr_healthy r); intros H; inv_ok; subst e; cbn; split; reflexivity.
Qed.

Lemma revoke_session_keeps t e r now : revoked_at t e -> revoked_at t (revoke_session e r now).
Proof.
  unfold revoke_session. destruct (_ && _) eqn:Hc; [|done]. unfold revoked_at. cbn. bool_hyps.
  destruct (he_session_agentic_at e); [|done]. intros [? _]. split; [lia|done].
Qed.

Lemma record_session t route r now c e c' p :
  record_at fresh_us route r now c = Ok (e, c') -> c !! route = Some p -> revoked_at t p -> revoked_at t e.
Proof.
  intros (-> & _ & e0 & He0 & ->)%record_at_spec Hp Hr. apply revoke_session_keeps.
  apply probe_entry_session in He0 as [Hok Hat]. rewrite Hp in *. cbn in *.
  unfold revoked_at in *. by rewrite Hat, Hok.
Qed.

Lemma liveness_session t route latency pool ce now identity c e c' p :
  liveness_at fresh_us route latency pool ce now identity c = Ok (e, c') ->
  c !! route = Some p -> revoked_at t p -> revoked_at t e.
Proof.
  intros (-> & _ & _ & _ & _ & _ & Hok & Hat & _)%liveness_at_spec Hp Hr. rewrite Hp in *. cbn in *.
  unfold revoked_at in *. by rewrite Hat, Hok.
Qed.

Lemma revoked_insert t route other (c : routes) e :
  (forall p, c !! other = Some p -> revoked_at t p -> revoked_at t e) ->
  (exists p, c !! route = Some p /\ revoked_at t p) ->
  exists p, <[other := e]> c !! route = Some p /\ revoked_at t p.
Proof.
  intros H (p & Hp & Hr). destruct (decide (other = route)) as [->|Hne].
  - exists e. rewrite lookup_insert_eq. eauto.
  - exists p. by rewrite lookup_insert_ne.
Qed.

Lemma recording_revoked t route (c c' : routes) :
  recording c c' -> (exists p, c !! route = Some p /\ revoked_at t p) ->
  exists p, c' !! route = Some p /\ revoked_at t p.
Proof.
  intros [other r now ? e ? H|other latency pool ce now identity ? e ? H
    |other observed now source latency pool ce ? v ? H|other observed now st category source ? v ? H
    |other passed at_ source child ? v ? H].
  - unfold record in H. inv_ok. destruct (record_at_spec _ _ _ _ _ _ H1) as (-> & _).
    apply revoked_insert. intros p Hp. by eapply record_session.
  - unfold record_liveness in H. inv_ok. destruct (liveness_at_spec _ _ _ _ _ _ _ _ _ H1) as (-> & _).
    apply revoked_insert. intros p Hp. by eapply liveness_session.
  - unfold record_passive_traffic in H. inv_ok. case_match; [by simplify_eq|]. inv_ok. case_match. inv_ok.
    select (liveness_at _ _ _ _ _ _ _ _ = _) (fun H =>
      destruct (liveness_at_spec _ _ _ _ _ _ _ _ _ H) as (-> & _); rename H into Hl).
    simplify_eq. intros Hr. rewrite insert_insert_eq. revert Hr. apply revoked_insert. intros p Hp Hr.
    change (revoked_at t h). by eapply liveness_session.
  - unfold record_passive_failure in H. inv_ok. case_match; [by simplify_eq|]. case_match; [by simplify_eq|].
    inv_ok. case_match.
    select (record_at _ _ _ _ _ = _) (fun H =>
      destruct (record_at_spec _ _ _ _ _ _ H) as (-> & _); rename H into Hl).
    case_match; simplify_eq; [done|done| |done]. intros Hr.
    rewrite insert_insert_eq. revert Hr. apply revoked_insert. intros p Hp Hr.
    change (revoked_at t h). by eapply record_session.
  - unfold record_agentic_evidence in H. inv_ok. case_match; [by simplify_eq|]. inv_ok. simplify_eq.
    apply revoked_insert. intros p Hp Hr. rewrite Hp in *. cbn in *. unfold revoked_at in *. cbn.
    destruct (he_session_agentic_at p) as [u|]; [|done]. bool_hyps.
    destruct passed; cbn in *; (split; [|intros ?; simplify_eq]); lia.
Qed.

Lemma aware_ok name d t : aware name d = Ok t <-> t = instant d /\ is_Some (dt_off d) /\ in_years t = true.
Proof.
  unfold aware. destruct (dt_off d) as [o|]; [|split; [done|intros (_ & [] & _); done]].
  destruct (in_years (instant d)) eqn:E; split.
  - intros [= <-]. eauto.
  - by intros (-> & _ & _).
  - done.
  - intros (-> & _ & ?). congruence.
Qed.

(** A session proof that a newer agentic probe of the answering route contradicts stays
    revoked: after any further probes, traffic and sessions the ladder counts the route as
    capable only by a session that passed strictly later than that probe. *)
Theorem revocation_lasts `{env : LadderEnv} (route : string) (r : ProbeResult) (now : datetime)
    (c c1 c2 : routes) (p e : HealthEntry) (s : Z)
    (Hp : c !! route = Some p) (Hs : he_session_agentic_at p = Some s) (Hle : s <= instant now)
    (Hclass : pr_probe_class r = "agentic") (Hchat : pr_chat_ok r = true) (Hfail : pr_agentic_ok r = false)
    (H : record fresh_us route r now c = Ok (e, c1)) (Hc : rtc recording c1 c2) :
  exists e2, c2 !! route = Some e2 /\
    forall at_, fst (agentic_capability (Some (cache_entry e2)) at_) = true ->
      he_session_agentic_ok e2 = Some true /\
      exists u, he_session_agentic_at e2 = Some u /\ instant now < u.
Proof.
  assert (exists p1, c1 !! route = Some p1 /\ revoked_at (instant now) p1) as Hr.
  { unfold record in H. inv_ok.
    select (record_at _ _ _ _ _ = _) (fun H => apply record_at_spec in H as (-> & _ & e0 & He0 & ->)).
    select (aware _ _ = _) (fun H => apply aware_ok in H as (-> & _)).
    eexists. rewrite lookup_insert_eq. split; [done|].
    apply probe_entry_session in He0 as [_ Hat]. rewrite Hp in Hat. cbn in Hat.
    unfold revoke_session. rewrite Hclass, Hchat, Hfail, Hat, Hs. cbn.
    rewrite (proj2 (Z.leb_le _ _) Hle). unfold revoked_at. cbn. split; [lia|done]. }
  assert (exists e2, c2 !! route = Some e2 /\ revoked_at (instant now) e2) as (e2 & He2 & Hr2).
  { clear H. induction Hc as [|a b d Hs' _ IH]; [done|]. apply IH. by eapply recording_revoked. }
  exists e2. split; [done|]. intros at_. unfold revoked_at in Hr2. unfold agentic_capability. cbn.
  destruct (he_session_agentic_at e2) as [u|]; [|done]. cbn. destruct Hr2 as [_ Hu].
  destruct (he_session_agentic_ok e2) as [[]|]; cbn; [|done..]. intros _. split; [done|].
  exists u. auto.
Qed.

(** ** What a result and observed traffic count *)

(** A recorded probe counts exactly as long as it should: a healthy one is fresh for the
    freshness window, stale for twenty more minutes and then nothing, with its failures
    forgotten from the count; any other keeps the route negative until exactly its backoff
    after the probe, with one more consecutive failure; no other route is touched. *)
Theorem record_window (route : string) (r : ProbeResult) (now : datetime) (c c' : routes) (e : HealthEntry)
    (H : record fresh_us route r now c = Ok (e, c')) :
  c' = <[route := e]> c /\ he_healthy e = pr_healthy r /\ he_checked_at e = instant now /\
  (if pr_healthy r then
     he_consecutive_failures e = 0 /\
     forall t, state_at fresh_us e t =
       if t <? instant now + fresh_us then Fresh
       else if t <? instant now + fresh_us + USABLE_STALE_GRACE_US then StaleState else Unprobed
   else
     let n := match c !! route with Some p => he_consecutive_failures p | None => 0 end + 1 in
     he_consecutive_failures e = n /\
     exists q, failure_seconds r n = Ok q /\
       forall t, state_at fresh_us e t = if t <? instant now + seconds_us q then Negative else Unprobed).
Proof.
  unfold record in H. inv_ok.
  select (record_at _ _ _ _ _ = _) (fun H => apply record_at_spec in H as (-> & _ & e0 & He0 & ->)).
  select (aware _ _ = _) (fun H => apply aware_ok in H as (-> & _)).
  assert (forall P : HealthEntry -> Prop, (forall ok at_ src ch, P e0 -> P (with_session e0 ok at_ src ch)) ->
    P e0 -> P (revoke_session e0 r (instant now))) as Hrev.
  { intros P Hw H0. unfold revoke_session. destruct (_ && _); [by apply Hw|done]. }
  split; [done|]. apply Hrev; [done|]. clear Hrev. revert He0. unfold probe_entry.
  destruct (agentic_after _ r _) as [[[class ok] at_] preserve]. cbv zeta.
  destruct (pr_healthy r); intros H0; inv_ok; subst e0; unfold state_at; cbn; split_and!; try done.
  - intros t. unfold usable_us. by rewrite Z.add_assoc.
  - select (shift _ _ = _) (fun H => apply shift_ok in H as [-> _]). eauto.
Qed.

(** Observed traffic proves liveness only: it is taken exactly when it is neither in the
    future nor past the usable window, newer than the entry, and the entry is neither an active
    failure nor a usable tool proof; then the route is healthy as of the observation, without
    tool proof and with the agentic and session proofs it had. Otherwise nothing changes. *)
Theorem traffic_exact (route : string) (observed now : datetime) (source : string) (latency : option Q)
    (pool ce : option string) (c c' : routes) (v : string)
    (H : record_passive_traffic fresh_us route observed now source latency pool ce c = Ok (v, c')) :
  let t := instant observed in
  let taken := t <= instant now + PASSIVE_CLOCK_SKEW_US /\ instant now < t + usable_us fresh_us /\
    forall p, c !! route = Some p -> he_checked_at p < t /\ state_at fresh_us p (instant now) <> Negative /\
      (he_tool_ok p = true -> he_healthy p = true -> state_at fresh_us p (instant now) = Unprobed) in
  (v = "recorded" <-> taken) /\
  (taken -> exists e, c' = <[route := e]> c /\
     he_healthy e = true /\ he_checked_at e = t /\ he_tool_ok e = false /\ he_evidence_source e = Some source /\
     he_session_agentic_ok e = (p ← c !! route; he_session_agentic_ok p) /\
     he_session_agentic_at e = (p ← c !! route; he_session_agentic_at p) /\
     he_agentic_ok e = match c !! route with Some p => he_agentic_ok p | None => false end /\
     he_agentic_checked_at e = (p ← c !! route; he_agentic_checked_at p)) /\
  (~ taken -> c' = c).
Proof.
  unfold record_passive_traffic in H. inv_ok.
  repeat select (aware _ _ = _) (fun H => apply aware_ok in H as (-> & _)).
  cbv zeta.
  assert (passive_traffic_verdict fresh_us c route (instant observed) (instant now) = None <->
    instant observed <= instant now + PASSIVE_CLOCK_SKEW_US /\
    instant now < instant observed + usable_us fresh_us /\
    forall p, c !! route = Some p ->
      he_checked_at p < instant observed /\ state_at fresh_us p (instant now) <> Negative /\
      (he_tool_ok p = true -> he_healthy p = true -> state_at fresh_us p (instant now) = Unprobed)) as Hv.
  { unfold passive_traffic_verdict.
    destruct (Z.ltb_spec (instant now + PASSIVE_CLOCK_SKEW_US) (instant observed)); [split; [done|lia]|].
    destruct (Z.leb_spec (usable_us fresh_us) (instant now - instant observed)); [split; [done|lia]|].
    destruct (c !! route) as [p|]; [|split; [intros _; split_and!; [lia|lia|done]|done]].
    destruct (Z.leb_spec (instant observed) (he_checked_at p)) as [Hle|Hlt].
    { split; [done|]. intros (_ & _ & Hp). destruct (Hp p eq_refl) as [? _]. lia. }
    transitivity (state_at fresh_us p (instant now) <> Negative /\
      (he_tool_ok p = true -> he_healthy p = true -> state_at fresh_us p (instant now) = Unprobed)).
    { destruct (state_at _ _ _), (he_healthy p), (he_tool_ok p); cbn; intuition congruence. }
    split; [intros []; split_and!; [lia|lia|]; intros ? [= <-]; auto|naive_solver]. }
  rewrite <- Hv. destruct (passive_traffic_verdict _ _ _ _ _) as [s|] eqn:E.
  - simplify_eq. split_and!; [|done..]. split; [|done]. intros ->. exfalso. clear Hv. revert E.
    unfold passive_traffic_verdict. repeat case_match; done.
  - inv_ok. case_match. inv_ok.
    select (liveness_at _ _ _ _ _ _ _ _ = _) (fun H =>
      apply liveness_at_spec in H as (-> & _ & _ & Hh & Ht & Ha & Hok & Hat & Hag & Hagt)).
    simplify_eq. split_and!; [done| |done]. intros _. eexists. rewrite insert_insert_eq. split; [done|]. cbn.
    split_and!; done.
Qed.
End operations.

(** ** Concrete recordings *)

Definition six_hours_us : Z := 6 * 3600 * us_per_second.

Definition probe_result (category : string) (chat tool : bool) (class : string) (agentic : bool) : ProbeResult :=
  {| pr_category := category; pr_chat_ok := chat; pr_tool_ok := tool; pr_latency_ms := None;
     pr_http_status := None; pr_retry_after_seconds := None; pr_pool := None;
     pr_capacity_evidence := None; pr_identity := ""; pr_probe_class := class;
     pr_agentic_ok := agentic; pr_last_success_at := None; pr_failure_scope := None;
     pr_negative_ttl_seconds := None; pr_feedback_source := None; pr_feedback_category := None;
     pr_feedback_turn_count := None; pr_feedback_turns_source := None; pr_feedback_provenance := None |}.

Definition timed_out : ProbeResult := probe_result "timeout" false false "single_call" false.
Definition answered : ProbeResult := probe_result "ok" true true "single_call" false.
Definition agentic_failed : ProbeResult := probe_result "ok" true false "agentic" false.

(** The routes after some recordings from nothing. *)
Definition after_timeout : routes :=
  match record six_hours_us "r" timed_out (utc 5) ∅ with Ok (_, c) => c | Err _ => ∅ end.

Definition after_recovery : routes :=
  match record six_hours_us "r" answered (utc 7) after_timeout with Ok (_, c) => c | Err _ => ∅ end.

Definition after_session : routes :=
  match record_agentic_evidence "r" true (utc 8) "ledger" (Some "child") after_recovery with
  | Ok (_, c) => c | Err _ => ∅ end.

Definition after_revocation : routes :=
  match record six_hours_us "r" agentic_failed (utc 9) after_session with Ok (_, c) => c | Err _ => ∅ end.

Lemma failures_remembered_witness :
  rtc (recording six_hours_us) after_timeout after_recovery /\
  exists e, after_recovery !! "r" = Some e /\ failure_le (Some 5) (failure_at e).
Proof.
  assert (rtc (recording six_hours_us) after_timeout after_recovery) as Hs.
  { apply rtc_once. destruct (record six_hours_us "r" answered (utc 7) after_timeout) as [[e c']|x] eqn:E.
    - replace after_recovery with c' by (unfold after_recovery; by rewrite E).
      by apply (recorded_probe _ "r" answered (utc 7) _ e).
    - exfalso. revert E. vm_compute. discriminate. }
  split; [done|].
  destruct (after_timeout !! "r") as [e|] eqn:E; [|exfalso; revert E; vm_compute; discriminate].
  destruct (failures_remembered six_hours_us _ _ Hs "r" e E) as (e' & He' & Hle).
  exists e'. split; [done|]. revert E Hle. vm_compute. by intros [= <-].
Defined.

Lemma revocation_lasts_witness :
  fst (agentic_capability (env := broke_env) (cache_entry <$> after_session !! "r") 9) = true /\
  fst (agentic_capability (env := broke_env) (cache_entry <$> after_revocation !! "r") 20) = false.
Proof.
  split; [vm_compute; reflexivity|].
  destruct (record six_hours_us "r" agentic_failed (utc 9) after_session) as [[e c1]|x] eqn:E;
    [|exfalso; revert E; vm_compute; discriminate].
  destruct (after_session !! "r") as [p|] eqn:Hp; [|exfalso; revert Hp; vm_compute; discriminate].
  assert (he_session_agentic_at p = Some 8) as Hs by (revert Hp; vm_compute; by intros [= <-]).
  replace after_revocation with c1 by (unfold after_revocation; by rewrite E).
  destruct (revocation_lasts six_hours_us (env := broke_env) "r" agentic_failed (utc 9) after_session c1 c1 p e 8
              Hp Hs) as (e2 & He2 & Hq); [done|done|done|done|done|apply rtc_refl|].
  rewrite He2. destruct (fst _) eqn:Hf; [|done]. destruct (Hq 20 Hf) as [Hok _].
  exfalso. revert E He2 Hok. vm_compute. intros [= <- <-] [= <-]. discriminate.
Defined.

Lemma record_window_witness :
  exists e, after_timeout !! "r" = Some e /\ he_consecutive_failures e = 1 /\
    state_at six_hours_us e (5 + 59 * us_per_second) = Negative /\
    state_at six_hours_us e (5 + 60 * us_per_second) = Unprobed.
Proof.
  destruct (record six_hours_us "r" timed_out (utc 5) ∅) as [[e c']|x] eqn:E;
    [|exfalso; revert E; vm_compute; discriminate].
  destruct (record_window six_hours_us "r" timed_out (utc 5) ∅ c' e E) as (-> & _ & _ & Hn & q & Hq & Hs).
  exists e. unfold after_timeout. rewrite E. split; [by rewrite lookup_insert_eq|].
  split; [by rewrite Hn|]. injection Hq as <-. rewrite !Hs. split; vm_compute; reflexivity.
Defined.

Lemma traffic_exact_witness :
  exists e, record_passive_traffic six_hours_us "r" (utc (70 * us_per_second)) (utc (71 * us_per_second))
    "omniroute_traffic" None None None after_timeout = Ok ("recorded", <["r" := e]> after_timeout) /\
    he_tool_ok e = false /\ he_healthy e = true.
Proof.
  destruct (record_passive_traffic six_hours_us "r" (utc (70 * us_per_second)) (utc (71 * us_per_second))
    "omniroute_traffic" None None None after_timeout) as [[v c']|x] eqn:E;
    [|exfalso; revert E; vm_compute; discriminate].
  assert (v = "recorded") as -> by (revert E; vm_compute; by intros [= <- _]).
  destruct (traffic_exact _ _ _ _ _ _ _ _ _ _ _ E) as (Hv & Ht & _).
  destruct (Ht (proj1 Hv eq_refl)) as (e & -> & ? & ? & ? & _). by exists e.
Defined.

(** A session that passed on a route without an entry is stored as an unhealthy entry, and
    so as a failure at the time of the pass. *)
Theorem session_counts_as_failure (route : string) (at_ : datetime) (source : string)
    (child : option string) (c : routes) (H : strip route <> "") (Hc : c !! route = None)
    (Ha : is_Some (dt_off at_)) (Hy : in_years (instant at_) = true) :
  exists e, record_agentic_evidence route true at_ source child c = Ok (true, <[route := e]> c) /\
    he_agentic_ok e = true /\ failure_at e = Some (instant at_).
Proof.
  unfold record_agentic_evidence. rewrite (proj2 (aware_ok _ _ _) (conj eq_refl (conj Ha Hy))).
  cbn. rewrite Hc. cbn. apply String.eqb_neq in H as ->. cbn. eexists. split; [done|]. done.
Qed.

Lemma session_counts_as_failure_witness :
  exists e, record_agentic_evidence "r" true (utc 8) "ledger" None ∅ = Ok (true, <["r" := e]> ∅) /\
    he_agentic_ok e = true /\ failure_at e = Some 8.
Proof. apply (session_counts_as_failure "r" (utc 8) "ledger" None ∅); [discriminate|done|by exists 0|done]. Defined.
