(* ===== verification/TokenBucket.v ===== *)
(** The request budget of a provider or credential pool: [TokenBucket] of
    [verdict/orchestration/health_cache.py], a sliding window of owned tokens.

    The parallel lists of token ids and timestamps are the dictionary [_tokens()] from id to
    instant; records from before ids existed are not modelled. The window is the [timedelta]
    that every use makes of [window_seconds], in microseconds; [timedelta] arithmetic at the
    ends of the calendar, where the code raises, is not modelled. The ids that [uuid4] draws
    are an argument of the operation that spends them. *)
From stdpp Require Import sorting.
From S2P Require Import Prelude Time HealthRecord.

Record TokenBucket := {
  tb_capacity : Z;
  tb_window_us : Z;
  tb_tokens : gmap string Z;
  tb_zeroed_until : option Z;
  tb_removed : gmap string Z;
  tb_released : gmap string Z;
  tb_ledger_at : option Z
}.

(** [BucketReservation] *)
Record BucketReservation := {
  br_id : string;
  br_bucket_key : string;
  br_token_ids : list string;
  br_reserved_at : Z
}.

(** [TokenBucket.__post_init__] *)
Definition check_bucket (capacity window_us : Z) : result health_exn unit :=
  _ ← raise_if (capacity <? 1) (HealthCacheError "bucket capacity must be >= 1");
  raise_if (window_us <=? 0) (HealthCacheError "bucket window must be positive").

(** [TokenBucket(capacity=..., window_seconds=..., timestamps=[])] *)
Definition empty_bucket (capacity window_us : Z) : TokenBucket :=
  {| tb_capacity := capacity; tb_window_us := window_us; tb_tokens := ∅; tb_zeroed_until := None;
     tb_removed := ∅; tb_released := ∅; tb_ledger_at := None |}.

(** The stamps after an instant. *)
Definition since (cutoff : Z) (tokens : gmap string Z) : gmap string Z :=
  filter (fun kv => cutoff < snd kv) tokens.

(** Whether a 429 still keeps the bucket empty *)
Definition zeroed_at (b : TokenBucket) (now : Z) : bool :=
  match tb_zeroed_until b with Some t => now <? t | None => false end.

(** [TokenBucket.remaining] *)
Definition remaining (b : TokenBucket) (now : Z) : Z :=
  if zeroed_at b now then 0
  else Z.max 0 (tb_capacity b - Z.of_nat (size (since (now - tb_window_us b) (tb_tokens b)))).

(** The tokens that a grant of these ids at [now] adds *)
Definition granted_tokens (ids : list string) (now : Z) : gmap string Z :=
  list_to_map (map (fun i => (i, now)) ids).

(** [TokenBucket.consume]: [ids] are the ids drawn for the [amount] requests. *)
Definition consume (b : TokenBucket) (now : Z) (ids : list string) : result health_exn (bool * TokenBucket) :=
  _ ← raise_if (Z.of_nat (length ids) <? 1) (HealthCacheError "consume amount must be >= 1");
  if remaining b now <? Z.of_nat (length ids) then Ok (false, b)
  else
    let cutoff := now - tb_window_us b in
    Ok (true,
        {| tb_capacity := tb_capacity b; tb_window_us := tb_window_us b;
           tb_tokens := granted_tokens ids now ∪ since cutoff (tb_tokens b);
           tb_zeroed_until := tb_zeroed_until b;
           tb_removed := since cutoff (tb_removed b); tb_released := since cutoff (tb_released b);
           tb_ledger_at := Some (Z.max now (default now (tb_ledger_at b))) |}).

(** [sorted(...)] *)
Definition sorted_stamps (tokens : gmap string Z) : list Z :=
  merge_sort Z.le (map snd (map_to_list tokens)).

(** [TokenBucket.available_at] *)
Definition available_at (b : TokenBucket) (now amount : Z) : option Z :=
  if tb_capacity b <? amount then None
  else
    let start := match tb_zeroed_until b with Some t => Z.max now t | None => now end in
    let live := filter (fun t => start - tb_window_us b < t) (sorted_stamps (tb_tokens b)) in
    let excess := Z.of_nat (length live) - (tb_capacity b - amount) in
    if excess <=? 0 then Some start
    else
      t ← live !! Z.to_nat (excess - 1);
      Some (Z.max start (t + tb_window_us b)).

(** [TokenBucket.zero] *)
Definition zero (b : TokenBucket) (until : Z) : TokenBucket :=
  {| tb_capacity := tb_capacity b; tb_window_us := tb_window_us b; tb_tokens := ∅;
     tb_zeroed_until := Some until; tb_removed := tb_tokens b ∪ tb_removed b;
     tb_released := tb_released b; tb_ledger_at := tb_ledger_at b |}.

(** [max] of a list that may be empty *)
Definition max_stamp (l : list Z) : option Z :=
  foldr (fun t m => Some (match m with Some u => Z.max t u | None => t end)) None l.

Definition stamps (m : gmap string Z) : list Z := map snd (map_to_list m).

(** [stamps] of [merge_from]: the latest of all stamps and ledgers *)
Definition merged_ledger (a b : TokenBucket) (tokens removed released : gmap string Z) : option Z :=
  max_stamp (stamps tokens ++ stamps removed ++ stamps released ++
             option_list (tb_ledger_at a) ++ option_list (tb_ledger_at b)).

(** The later of two instants that may be absent *)
Definition later_of (a b : option Z) : option Z := union_with (fun x y => Some (Z.max x y)) a b.

(** [TokenBucket.merge_from] *)
Definition merge_from (a b : TokenBucket) : TokenBucket :=
  let window := Z.max (tb_window_us a) (tb_window_us b) in
  let tokens := tb_tokens a ∪ tb_tokens b in
  let removed := union_with (fun x y => Some (Z.max x y)) (tb_removed a) (tb_removed b) in
  let released := union_with (fun x y => Some (Z.max x y)) (tb_released a) (tb_released b) in
  let ledger := merged_ledger a b tokens removed released in
  let prune (m : gmap string Z) := match ledger with Some l => since (l - window) m | None => m end in
  {| tb_capacity := Z.min (tb_capacity a) (tb_capacity b); tb_window_us := window;
     tb_tokens := prune (filter (fun kv => removed !! fst kv = None) tokens);
     tb_zeroed_until := later_of (tb_zeroed_until a) (tb_zeroed_until b);
     tb_removed := prune removed; tb_released := prune released; tb_ledger_at := ledger |}.

(** The mutation of [reserve_bucket]: [handle] is the id drawn for the reservation. *)
Definition reserve_tokens (b : TokenBucket) (key : string) (now : Z) (ids : list string) (handle : string)
    : result health_exn (option BucketReservation * TokenBucket) :=
  '(granted, b') ← consume b now ids;
  if granted : bool
  then Ok (Some {| br_id := handle; br_bucket_key := key;
                   br_token_ids := filter (fun i => tb_tokens b !! i = None) ids;
                   br_reserved_at := now |}, b')
  else Ok (None, b').

(** One token of [handle.token_ids[:unused_n]] given back *)
Definition give_back (i : string) (s : gmap string Z * gmap string Z) : gmap string Z * gmap string Z :=
  let '(tokens, removed) := s in
  match tokens !! i with
  | Some stamp => (delete i tokens, <[i := stamp]> removed)
  | None => s
  end.

(** The mutation of [release_bucket] on the handle's bucket *)
Definition release_tokens (b : TokenBucket) (h : BucketReservation) (unused : nat) : TokenBucket :=
  match tb_released b !! br_id h with
  | Some _ => b
  | None =>
      let '(tokens, removed) :=
        foldl (fun s i => give_back i s) (tb_tokens b, tb_removed b) (take unused (br_token_ids h)) in
      {| tb_capacity := tb_capacity b; tb_window_us := tb_window_us b; tb_tokens := tokens;
         tb_zeroed_until := tb_zeroed_until b; tb_removed := removed;
         tb_released := <[br_id h := br_reserved_at h]> (tb_released b); tb_ledger_at := tb_ledger_at b |}
  end.

(** * Properties *)

Implicit Types (b : TokenBucket) (m : gmap string Z).

Lemma lookup_since t m i s : since t m !! i = Some s <-> m !! i = Some s /\ t < s.
Proof. unfold since. by rewrite map_lookup_filter_Some. Qed.

Lemma since_since t u m : since t (since u m) = since (Z.max t u) m.
Proof. apply map_eq. intros i. apply option_eq. intros s. rewrite !lookup_since. naive_solver lia. Qed.

Lemma since_size t u m m' : (forall i s, m !! i = Some s -> t < s -> m' !! i = Some s /\ u < s) ->
  (size (since t m) <= size (since u m'))%nat.
Proof.
  intros H. apply map_subseteq_size, map_subseteq_spec. intros i s. rewrite !lookup_since. naive_solver.
Qed.

(** ** When tokens are available *)

Definition after (t : Z) (l : list Z) : list Z := filter (fun s => t < s) l.

Lemma size_since t m : size (since t m) = length (after t (stamps m)).
Proof.
  unfold since, after, stamps. rewrite map_filter_alt, map_size_list_to_map.
  - generalize (map_to_list m). induction l as [|[i s] l IH]; [done|].
    change (map snd ((i, s) :: l)) with (s :: map snd l). rewrite !filter_cons.
    change (snd (i, s)) with s. case_decide; cbn [length]; congruence.
  - apply (sublist_NoDup _ ((map_to_list m).*1)); [apply NoDup_fst_map_to_list|].
    apply fmap_sublist, sublist_filter.
Qed.

Lemma size_since_sorted t m : size (since t m) = length (after t (sorted_stamps m)).
Proof.
  rewrite size_since. unfold after, sorted_stamps, stamps. apply Permutation_length.
  by rewrite (merge_sort_Permutation Z.le).
Qed.

Lemma sorted_stamps_sorted m : StronglySorted Z.le (sorted_stamps m).
Proof. apply StronglySorted_merge_sort; [apply _|]. intros x y. lia. Qed.

Lemma sorted_after t l : StronglySorted Z.le l -> StronglySorted Z.le (after t l).
Proof.
  unfold after. induction 1 as [|x l Hl IH Hx]; [constructor|]. rewrite filter_cons.
  case_decide; [|done]. constructor; [done|]. rewrite Forall_forall in *.
  intros y [_ ?]%list_elem_of_filter. auto.
Qed.

Lemma after_all t l : Forall (fun s => t < s) l -> after t l = l.
Proof.
  unfold after. induction 1 as [|s l Hs _ IH]; [done|]. rewrite filter_cons, decide_True by done. by f_equal.
Qed.

Lemma after_mono t u l : u <= t -> (length (after t l) <= length (after u l))%nat.
Proof.
  intros H. unfold after. rewrite <- (list_filter_filter_l (fun s => t < s) (fun s => u < s)) by lia.
  apply length_filter.
Qed.

(** A sorted list has at most the places after [k] above its [k]th element, ... *)
Lemma after_upper l k x : StronglySorted Z.le l -> l !! k = Some x ->
  (length (after x l) + S k <= length l)%nat.
Proof.
  unfold after. intros Hl. revert k x. induction Hl as [|y l Hl IH Hy]; intros [|k] x Hk; [done..| |].
  - injection Hk as <-. rewrite filter_cons, decide_False by lia.
    pose proof (length_filter (fun s => y < s) l). cbn [length]. lia.
  - specialize (IH _ _ Hk). rewrite Forall_forall in Hy.
    rewrite filter_cons, decide_False by (specialize (Hy x (list_elem_of_lookup_2 l k x Hk)); lia).
    cbn [length]. lia.
Qed.

(** ... and at least those from [k] on above anything smaller than it. *)
Lemma after_lower l k x t : StronglySorted Z.le l -> l !! k = Some x -> t < x ->
  (length l <= length (after t l) + k)%nat.
Proof.
  unfold after. intros Hl Hk Ht. revert k Hk. induction Hl as [|y l Hl IH Hy]; intros [|k] Hk; [done..| |].
  - injection Hk as ->. rewrite filter_cons, decide_True by done. cbn [length].
    fold (after t l). rewrite after_all; [lia|]. eapply Forall_impl; [exact Hy|]. cbn. lia.
  - specialize (IH _ Hk). rewrite filter_cons. case_decide; cbn [length]; lia.
Qed.

(** The earliest time at which an amount is free is answered exactly: nothing if the
    capacity never allows it; else an instant, now or later, at which that many tokens
    remain and before which, from now on, fewer do. *)
Theorem available_exact b (now amount : Z) (Hw : 0 < tb_window_us b) (Ha : 1 <= amount) :
  (tb_capacity b < amount -> available_at b now amount = None) /\
  (amount <= tb_capacity b -> exists t, available_at b now amount = Some t /\ now <= t /\
     amount <= remaining b t /\ forall u, now <= u < t -> remaining b u < amount).
Proof.
  unfold available_at. split; [intros H; by rewrite (proj2 (Z.ltb_lt _ _) H)|]. intros Hc.
  rewrite (proj2 (Z.ltb_ge _ _)) by lia.
  set (start := match tb_zeroed_until b with Some t => Z.max now t | None => now end).
  fold (after (start - tb_window_us b) (sorted_stamps (tb_tokens b))).
  set (live := after _ _). set (excess := Z.of_nat (length live) - (tb_capacity b - amount)).
  assert (now <= start) as Hs by (unfold start; destruct (tb_zeroed_until b); lia).
  assert (forall u, u < start -> now <= u -> remaining b u < amount) as Hbefore.
  { intros u Hu Hn. unfold remaining, zeroed_at, start in *.
    destruct (tb_zeroed_until b) as [z|]; [|lia]. rewrite (proj2 (Z.ltb_lt _ _)) by lia. lia. }
  assert (forall u, start <= u -> remaining b u =
    Z.max 0 (tb_capacity b - Z.of_nat (length (after (u - tb_window_us b) live)))) as Hafter.
  { intros u Hu. unfold remaining. replace (zeroed_at b u) with false.
    - rewrite size_since_sorted. unfold live, after. rewrite list_filter_filter_l; [done|]. intros s ?. lia.
    - unfold zeroed_at, start in *. destruct (tb_zeroed_until b); [|done]. symmetry. apply Z.ltb_ge. lia. }
  assert (StronglySorted Z.le live) as Hsort by apply sorted_after, sorted_stamps_sorted.
  destruct (Z.leb_spec excess 0) as [He|He].
  { exists start. split_and!; [done|done| |intros u []; by apply Hbefore].
    rewrite Hafter by lia. unfold excess in He.
    pose proof (length_filter (fun s => start - tb_window_us b < s) live). unfold after. lia. }
  destruct (lookup_lt_is_Some_2 live (Z.to_nat (excess - 1))) as [x Hx]; [unfold excess; lia|].
  rewrite Hx. cbn. eexists. split; [done|]. split_and!; [lia| |].
  - rewrite Hafter by lia. pose proof (after_upper _ _ _ Hsort Hx) as Hu.
    pose proof (after_mono (Z.max start (x + tb_window_us b) - tb_window_us b) x live ltac:(lia)). unfold excess in *. lia.
  - intros u [Hu Hlt]. destruct (Z.lt_ge_cases u start); [by apply Hbefore|].
    rewrite Hafter by lia.
    pose proof (after_lower live _ x (u - tb_window_us b) Hsort Hx ltac:(lia)). unfold excess in *. lia.
Qed.

(** A full bucket that a 429 also paused. *)
Definition full_bucket : TokenBucket :=
  {| tb_capacity := 2; tb_window_us := 60; tb_tokens := {["x" := 10; "y" := 20]}; tb_zeroed_until := Some 30;
     tb_removed := ∅; tb_released := ∅; tb_ledger_at := None |}.

Lemma available_exact_witness :
  exists t, available_at full_bucket 25 1 = Some t /\ t = 70 /\ remaining full_bucket 69 < 1 /\
    1 <= remaining full_bucket 70.
Proof.
  destruct (available_exact full_bucket 25 1 ltac:(done) ltac:(done)) as [_ H].
  destruct H as (t & Ht & _ & Hr & Hb); [done|]. exists t. split; [done|].
  assert (t = 70) as -> by (revert Ht; vm_compute; congruence).
  split_and!; [done|by apply Hb|done].
Defined.

(** ** The budget of a window *)

(** The stamps of the window that ends at [t]. *)
Definition in_window (w t : Z) m : gmap string Z := filter (fun kv => t - w < snd kv <= t) m.

Lemma lookup_in_window w t m i s : in_window w t m !! i = Some s <-> m !! i = Some s /\ t - w < s <= t.
Proof. unfold in_window. by rewrite map_lookup_filter_Some. Qed.

(** A bucket, the requests that it granted and that were not given back, and the latest time of
    a request so far: reservations with fresh ids, and releases of any handle. A caller of
    [reserve_bucket] reads its clock before it waits for the lock, so that requests come out of order:
    each is at most [late] behind the latest one ([LOCK_WAIT_SECONDS] for callers that call at once). *)
Inductive spending (cap w late : Z) : TokenBucket -> gmap string Z -> Z -> Prop :=
| spending_start t : spending cap w late (empty_bucket cap w) ∅ t
| spending_consume b g t now ids granted b' :
    spending cap w late b g t -> t - late <= now -> (forall i, i ∈ ids -> g !! i = None) -> base.NoDup ids ->
    consume b now ids = Ok (granted, b') ->
    spending cap w late b' (if granted : bool then granted_tokens ids now ∪ g else g) (Z.max t now)
| spending_release b g t h n :
    spending cap w late b g t ->
    spending cap w late (release_tokens b h n)
      (match tb_released b !! br_id h with Some _ => g | None => foldr delete g (take n (br_token_ids h)) end) t.

Lemma lookup_granted ids now i s : granted_tokens ids now !! i = Some s -> i ∈ ids /\ s = now.
Proof.
  unfold granted_tokens. intros H%elem_of_list_to_map_2. apply list_elem_of_fmap in H as (j & [= -> ->] & Hj). auto.
Qed.

Lemma granted_lookup ids now i : i ∈ ids -> granted_tokens ids now !! i = Some now.
Proof.
  intros Hi. destruct (granted_tokens ids now !! i) as [s|] eqn:E; [by apply lookup_granted in E as [_ ->]|].
  exfalso. apply not_elem_of_list_to_map in E. apply E. rewrite map_map. cbn.
  apply list_elem_of_fmap. by exists i.
Qed.

Lemma size_granted ids now : (size (granted_tokens ids now) <= length ids)%nat.
Proof.
  unfold granted_tokens. induction ids as [|i ids IH]; cbn; [by rewrite map_size_empty|].
  rewrite map_size_insert. case_match; unfold id; cbn in *; lia.
Qed.

Lemma size_union_le m m' : (size (m ∪ m') <= size m + size m')%nat.
Proof.
  rewrite <- !(size_dom (D := gset string)), dom_union_L, size_union_alt.
  enough (size (dom m' ∖ dom m) <= size (dom m'))%nat by lia. apply subseteq_size. set_solver.
Qed.

Lemma lookup_foldr_delete l m i s : foldr delete m l !! i = Some s <-> m !! i = Some s /\ i ∉ l.
Proof.
  induction l as [|j l IH]; cbn; [set_solver|]. rewrite lookup_delete_Some, IH. set_solver.
Qed.

Lemma give_back_lookup l s i :
  i ∉ l -> fst (foldl (fun s i => give_back i s) s l) !! i = fst s !! i.
Proof.
  revert s. induction l as [|j l IH]; intros [tokens removed] Hi; [done|]. cbn [foldl].
  rewrite IH by set_solver. unfold give_back. destruct (tokens !! j); [|done]. cbn.
  rewrite lookup_delete_ne; [done|set_solver].
Qed.

(** What an accepted request does. *)
Lemma consume_ok b now ids b' : consume b now ids = Ok (true, b') ->
  Z.of_nat (size (since (now - tb_window_us b) (tb_tokens b))) + Z.of_nat (length ids) <= tb_capacity b /\
  tb_capacity b' = tb_capacity b /\ tb_window_us b' = tb_window_us b /\
  tb_tokens b' = granted_tokens ids now ∪ since (now - tb_window_us b) (tb_tokens b).
Proof.
  unfold consume. intros H. inv_ok. case_match; simplify_eq.
  select (_ = false) (fun H => apply Z.ltb_ge in H). split_and!; [|done..]. clear -H1 H.
  unfold remaining in *. case_match; lia.
Qed.

Lemma consume_denied b now ids b' : consume b now ids = Ok (false, b') -> b' = b.
Proof. unfold consume. intros H. inv_ok. case_match; by simplify_eq. Qed.

Lemma release_tokens_kept b h n i s :
  tb_tokens b !! i = Some s -> (tb_released b !! br_id h = None -> i ∉ take n (br_token_ids h)) ->
  tb_tokens (release_tokens b h n) !! i = Some s.
Proof.
  intros Hi Hn. unfold release_tokens. destruct (tb_released b !! br_id h); [done|].
  pose proof (give_back_lookup (take n (br_token_ids h)) (tb_tokens b, tb_removed b) i (Hn eq_refl)) as Hg.
  destruct (foldl _ _ _) as [tokens removed]. cbn in *. by rewrite Hg.
Qed.

Lemma release_bounds b h n :
  tb_capacity (release_tokens b h n) = tb_capacity b /\ tb_window_us (release_tokens b h n) = tb_window_us b.
Proof. unfold release_tokens. destruct (tb_released b !! br_id h); [done|]. by destruct (foldl _ _ _). Qed.

Record spending_inv (cap w late : Z) b (g : gmap string Z) (t : Z) : Prop := {
  sp_cap : tb_capacity b = cap;
  sp_window : tb_window_us b = w;
  sp_past : forall i s, g !! i = Some s -> s <= t;
  sp_kept : forall i s, g !! i = Some s -> t - w < s -> tb_tokens b !! i = Some s;
  sp_bound : forall u, Z.of_nat (size (in_window (w - late) u g)) <= cap
}.

Lemma in_window_subset w u m m' : (forall i s, m !! i = Some s -> u - w < s <= u -> m' !! i = Some s) ->
  (size (in_window w u m) <= size (in_window w u m'))%nat.
Proof.
  intros H. apply map_subseteq_size, map_subseteq_spec. intros i s. rewrite !lookup_in_window. naive_solver.
Qed.

Lemma spending_consume_inv cap w late b g t now ids b' : 0 <= late ->
  spending_inv cap w late b g t -> t - late <= now -> (forall i, i ∈ ids -> g !! i = None) ->
  consume b now ids = Ok (true, b') -> spending_inv cap w late b' (granted_tokens ids now ∪ g) (Z.max t now).
Proof.
  intros Hlate [Hcap Hw Hpast Hkept Hbound] Ht Hfresh (Hsize & Hc & Hw' & Htok)%consume_ok.
  rewrite Hw in Hsize, Htok.
  assert (forall i s, (granted_tokens ids now ∪ g) !! i = Some s -> s <= Z.max t now) as Hpast'.
  { intros i s [Hi|[_ Hi]]%lookup_union_Some_raw; [apply lookup_granted in Hi as [_ ->]; lia|].
    specialize (Hpast _ _ Hi). lia. }
  assert (forall i s, (granted_tokens ids now ∪ g) !! i = Some s -> Z.max t now - w < s -> tb_tokens b' !! i = Some s) as Hkept'.
  { intros i s Hi Hs. rewrite Htok. apply lookup_union_Some_raw in Hi as [Hi|[Hn Hi]].
    - by apply lookup_union_Some_l.
    - apply lookup_union_Some_raw. right. split; [done|]. apply lookup_since. split; [|lia].
      apply Hkept; [done|lia]. }
  split; [congruence|congruence|done|done|]. intros u.
  destruct (decide (u - (w - late) < now <= u)) as [Hin|Hout].
  - transitivity (Z.of_nat (size (granted_tokens ids now ∪ since (now - w) (tb_tokens b)))).
    + apply inj_le, map_subseteq_size, map_subseteq_spec. intros i s [Hi Hs]%lookup_in_window.
      apply lookup_union_Some_raw in Hi as [Hi|[Hn Hi]]; [by apply lookup_union_Some_l|].
      apply lookup_union_Some_raw. right. split; [done|]. apply lookup_since. split; [apply Hkept; [done|lia]|lia].
    + pose proof (size_union_le (granted_tokens ids now) (since (now - w) (tb_tokens b))).
      pose proof (size_granted ids now). lia.
  - transitivity (Z.of_nat (size (in_window (w - late) u g))); [|done]. apply inj_le, in_window_subset.
    intros i s [Hi|[_ Hi]]%lookup_union_Some_raw ?; [|done]. apply lookup_granted in Hi as [_ ->]. lia.
Qed.

Lemma spending_release_inv cap w late b g t h n :
  spending_inv cap w late b g t ->
  spending_inv cap w late (release_tokens b h n)
    (match tb_released b !! br_id h with Some _ => g | None => foldr delete g (take n (br_token_ids h)) end) t.
Proof.
  intros [Hcap Hw Hpast Hkept Hbound]. destruct (release_bounds b h n) as [Hc Hw'].
  assert (forall i s, (match tb_released b !! br_id h with Some _ => g | None => foldr delete g (take n (br_token_ids h)) end) !! i = Some s ->
    g !! i = Some s /\ (tb_released b !! br_id h = None -> i ∉ take n (br_token_ids h))) as Hsub.
  { intros i s. destruct (tb_released b !! br_id h); [done|]. rewrite lookup_foldr_delete. naive_solver. }
  split; [congruence|congruence| | |].
  - intros i s [Hi _]%Hsub. eauto.
  - intros i s [Hi Hn]%Hsub Hs. apply release_tokens_kept; auto.
  - intros u. transitivity (Z.of_nat (size (in_window (w - late) u g))); [|done].
    apply inj_le, in_window_subset. by intros i s [Hi _]%Hsub _.
Qed.

(** C21: a bucket that starts empty and that only reservations (with fresh token ids) and releases
    under the lock change keeps its budget: where no
    request's clock is more than [late] behind the latest one, the granted requests not given back
    whose stamps lie in a window shorter than the bucket's by [late] are at most its capacity; with
    requests in the order of their clocks ([late = 0]) this is every window of the bucket. *)
Theorem window_budget (cap w late : Z) (Hcap : 1 <= cap) (Hlate : 0 <= late) b (g : gmap string Z) (t : Z)
    (H : spending cap w late b g t) (u : Z) :
  Z.of_nat (size (in_window (w - late) u g)) <= cap.
Proof.
  revert u. assert (spending_inv cap w late b g t) as Hinv; [|by destruct Hinv].
  induction H as [t|b g t now ids [] b' _ IH Ht Hf _ Hc|b g t h n _ IH].
  - split; try done. intros u. unfold in_window. rewrite map_filter_empty, map_size_empty. lia.
  - by eapply spending_consume_inv.
  - apply consume_denied in Hc as ->. destruct IH as [? ? Hp Hk ?]. split; try done.
    + intros i s Hi. specialize (Hp i s Hi). lia.
    + intros i s Hi ?. apply Hk; [done|lia].
  - by apply spending_release_inv.
Qed.

(** Two requests granted thirty microseconds apart. *)
Definition first_grant : TokenBucket :=
  match consume (empty_bucket 2 60) 10 ["x"] with Ok (_, b) => b | Err _ => empty_bucket 1 1 end.

Definition second_grant : TokenBucket :=
  match consume first_grant 40 ["y"] with Ok (_, b) => b | Err _ => empty_bucket 1 1 end.

Lemma window_budget_witness :
  spending 2 60 2 second_grant (granted_tokens ["y"] 40 ∪ (granted_tokens ["x"] 10 ∪ ∅)) 40 /\
  Z.of_nat (size (in_window 58 45 (granted_tokens ["y"] 40 ∪ (granted_tokens ["x"] 10 ∪ ∅)))) <= 2.
Proof.
  assert (consume (empty_bucket 2 60) 10 ["x"] = Ok (true, first_grant)) as E1 by (vm_compute; reflexivity).
  assert (consume first_grant 40 ["y"] = Ok (true, second_grant)) as E2 by (vm_compute; reflexivity).
  assert (spending 2 60 2 first_grant (granted_tokens ["x"] 10 ∪ ∅) 10) as H1.
  { refine (spending_consume 2 60 2 _ _ _ _ _ true _ (spending_start 2 60 2 10) _ _ _ E1);
      [lia|intros i _; apply lookup_empty|apply NoDup_singleton]. }
  assert (spending 2 60 2 second_grant (granted_tokens ["y"] 40 ∪ (granted_tokens ["x"] 10 ∪ ∅)) 40) as H.
  { refine (spending_consume 2 60 2 _ _ _ _ _ true _ H1 _ _ _ E2);
      [lia|intros i ->%list_elem_of_singleton; reflexivity|apply NoDup_singleton]. }
  split; [done|]. exact (window_budget 2 60 2 ltac:(lia) ltac:(lia) _ _ _ H 45).
Defined.

(** The requests that are granted one after the other *)
Fixpoint grants (b : TokenBucket) (rs : list (string * Z)) : result health_exn (TokenBucket * gmap string Z) :=
  match rs with
  | [] => Ok (b, ∅)
  | (id, now) :: rs =>
      '(granted, b) ← consume b now [id];
      '(b, g) ← grants b rs;
      Ok (b, if granted : bool then <[id := now]> g else g)
  end.

(** Requests whose clocks are out of order overspend a window of the bucket: the one that comes first with
    the later clock forgets the tokens that a window ending at the earlier clock still holds. *)
Theorem late_request_overspends :
  exists b g, grants (empty_bucket 2 600) [("a", 1008); ("b", 1010); ("c", 1610); ("d", 1605)] = Ok (b, g) /\
    size (in_window 600 1605 g) = 3%nat.
Proof. do 2 eexists. split; vm_compute; reflexivity. Qed.

(** ** Merging *)

(** A stamp that a bucket holds somewhere. *)
Definition stamped b (s : Z) : Prop :=
  (exists i, tb_tokens b !! i = Some s) \/ (exists i, tb_removed b !! i = Some s) \/
  (exists i, tb_released b !! i = Some s) \/ tb_ledger_at b = Some s.

Lemma max_stamp_spec l :
  match max_stamp l with Some m => m ∈ l /\ forall x, x ∈ l -> x <= m | None => l = [] end.
Proof.
  induction l as [|t l IH]; [done|]. cbn [max_stamp foldr]. fold (max_stamp l).
  destruct (max_stamp l) as [u|].
  - destruct IH as [Hu Hle]. split.
    + destruct (Z.max_spec t u) as [[_ ->]|[_ ->]]; set_solver.
    + intros x [->|Hx]%elem_of_cons; [lia|]. specialize (Hle x Hx). lia.
  - subst l. split; [set_solver|]. intros x ->%list_elem_of_singleton. lia.
Qed.

Lemma elem_of_stamps m s : s ∈ stamps m <-> exists i, m !! i = Some s.
Proof.
  unfold stamps. rewrite list_elem_of_fmap. split.
  - intros ([i t] & -> & H%elem_of_map_to_list). eauto.
  - intros [i H]. exists (i, s). by rewrite elem_of_map_to_list.
Qed.

Definition max_of (x y : Z) : option Z := Some (Z.max x y).

Lemma lookup_max m m' i s : union_with max_of m m' !! i = Some s <->
  (m !! i = Some s /\ forall t, m' !! i = Some t -> t <= s) \/ (m' !! i = Some s /\ forall t, m !! i = Some t -> t <= s).
Proof.
  rewrite lookup_union_with. destruct (m !! i) as [x|], (m' !! i) as [y|]; cbn.
  - split.
    + intros [= <-]. destruct (Z.max_spec x y) as [[? ->]|[? ->]]; [right|left]; split; [done| |done|]; naive_solver lia.
    + unfold max_of. intros [[[= ->] H]|[[= ->] H]]; specialize (H _ eq_refl); f_equal; lia.
  - naive_solver.
  - naive_solver.
  - naive_solver.
Qed.

(** The fields of a merge through its ledger. *)
Definition unexpired b (s : Z) : Prop :=
  match tb_ledger_at b with Some l => l - tb_window_us b < s | None => True end.

Lemma merge_tokens a b i s :
  tb_tokens (merge_from a b) !! i = Some s <->
  (tb_tokens a !! i = Some s \/ (tb_tokens a !! i = None /\ tb_tokens b !! i = Some s)) /\
  tb_removed a !! i = None /\ tb_removed b !! i = None /\ unexpired (merge_from a b) s.
Proof.
  unfold merge_from, unexpired. cbn. set (l := merged_ledger _ _ _ _ _).
  rewrite <- lookup_union_Some_raw.
  assert (union_with max_of (tb_removed a) (tb_removed b) !! i = None <->
    tb_removed a !! i = None /\ tb_removed b !! i = None) as Hr.
  { rewrite lookup_union_with. destruct (tb_removed a !! i), (tb_removed b !! i); naive_solver. }
  unfold max_of in Hr.
  destruct l as [l|]; [rewrite lookup_since|]; rewrite map_lookup_filter_Some; cbn; rewrite Hr; tauto.
Qed.

Lemma merge_removed a b i s :
  tb_removed (merge_from a b) !! i = Some s <->
  union_with max_of (tb_removed a) (tb_removed b) !! i = Some s /\ unexpired (merge_from a b) s.
Proof.
  unfold merge_from, unexpired. cbn. set (l := merged_ledger _ _ _ _ _).
  destruct l as [l|]; [by rewrite lookup_since|]. tauto.
Qed.

Lemma merge_released a b i s :
  tb_released (merge_from a b) !! i = Some s <->
  union_with max_of (tb_released a) (tb_released b) !! i = Some s /\ unexpired (merge_from a b) s.
Proof.
  unfold merge_from, unexpired. cbn. set (l := merged_ledger _ _ _ _ _).
  destruct l as [l|]; [by rewrite lookup_since|]. tauto.
Qed.

(** Two buckets agree on the stamps of the tokens that both hold. *)
Definition agree a b : Prop :=
  forall i s t, tb_tokens a !! i = Some s -> tb_tokens b !! i = Some t -> s = t.

Lemma max_stamped_l m m' s : (exists i, union_with max_of m m' !! i = Some s) ->
  (exists i, m !! i = Some s) \/ (exists i, m' !! i = Some s).
Proof. intros [i [[H _]|[H _]]%lookup_max]; eauto. Qed.

Lemma max_stamped_r m m' s : (exists i, m !! i = Some s) \/ (exists i, m' !! i = Some s) ->
  exists t, s <= t /\ exists i, union_with max_of m m' !! i = Some t.
Proof.
  intros [[i H]|[i H]].
  - destruct (union_with max_of m m' !! i) as [t|] eqn:E.
    + exists t. split; [|eauto]. apply lookup_max in E as [[E _]|[_ E]]; [simplify_eq; lia|eauto].
    + rewrite lookup_union_with, H in E. by destruct (m' !! i).
  - destruct (union_with max_of m m' !! i) as [t|] eqn:E.
    + exists t. split; [|eauto]. apply lookup_max in E as [[_ E]|[E _]]; [eauto|simplify_eq; lia].
    + rewrite lookup_union_with, H in E. by destruct (m !! i).
Qed.

(** The ledger of a merge is the latest stamp of both. *)
Lemma merge_ledger a b : agree a b ->
  match tb_ledger_at (merge_from a b) with
  | Some l => (stamped a l \/ stamped b l) /\ forall s, stamped a s \/ stamped b s -> s <= l
  | None => forall s, ~ (stamped a s \/ stamped b s)
  end.
Proof.
  intros Hag. cbn. unfold merged_ledger. fold max_of.
  match goal with |- context [max_stamp ?l] => pose proof (max_stamp_spec l) as Hm; set (all := l) in * end.
  assert (forall s, s ∈ all -> stamped a s \/ stamped b s) as Hin.
  { intros s Hs. unfold all in Hs. rewrite !elem_of_app, !elem_of_stamps in Hs. unfold stamped.
    destruct Hs as [[i Hi]|[Hs|[Hs|[Hs|Hs]]]].
    - apply lookup_union_Some_raw in Hi as [Hi|[_ Hi]]; eauto.
    - apply max_stamped_l in Hs. tauto.
    - apply max_stamped_l in Hs. tauto.
    - destruct (tb_ledger_at a); [apply list_elem_of_singleton in Hs as ->; tauto|by apply not_elem_of_nil in Hs].
    - destruct (tb_ledger_at b); [apply list_elem_of_singleton in Hs as ->; tauto|by apply not_elem_of_nil in Hs]. }
  assert (forall s, stamped a s \/ stamped b s -> exists t, s <= t /\ t ∈ all) as Hout.
  { intros s Hs. unfold all. setoid_rewrite elem_of_app. setoid_rewrite elem_of_app. setoid_rewrite elem_of_app.
    setoid_rewrite elem_of_app. setoid_rewrite elem_of_stamps. unfold stamped in Hs.
    destruct Hs as [[[i Hi]|[Hs|[Hs|Hs]]]|[[i Hi]|[Hs|[Hs|Hs]]]].
    - exists s. split; [lia|]. left. exists i. by apply lookup_union_Some_l.
    - destruct (max_stamped_r (tb_removed a) (tb_removed b) s) as (t & ? & ?); [eauto|]. eauto 10.
    - destruct (max_stamped_r (tb_released a) (tb_released b) s) as (t & ? & ?); [eauto|]. eauto 10.
    - exists s. split; [lia|]. rewrite Hs. cbn. set_solver.
    - exists s. split; [lia|]. left. exists i. apply lookup_union_Some_raw.
      destruct (tb_tokens a !! i) as [u|] eqn:E; [left; f_equal; by eapply Hag|auto].
    - destruct (max_stamped_r (tb_removed a) (tb_removed b) s) as (t & ? & ?); [eauto|]. eauto 10.
    - destruct (max_stamped_r (tb_released a) (tb_released b) s) as (t & ? & ?); [eauto|]. eauto 10.
    - exists s. split; [lia|]. rewrite Hs. cbn. set_solver. }
  destruct (max_stamp all) as [l|].
  - destruct Hm as [Hl Hle]. split; [auto|]. intros s Hs. destruct (Hout s Hs) as (t & ? & Ht).
    specialize (Hle t Ht). lia.
  - intros s Hs. destruct (Hout s Hs) as (t & _ & Ht). rewrite Hm in Ht. by apply not_elem_of_nil in Ht.
Qed.

(** The latest instant with a property, if there is one. *)
Definition latest (P : Z -> Prop) (o : option Z) : Prop :=
  match o with Some l => P l /\ forall s, P s -> s <= l | None => forall s, ~ P s end.

Lemma latest_unique P Q o o' : latest P o -> latest Q o' -> (forall s, P s -> exists t, Q t /\ s <= t) ->
  (forall s, Q s -> exists t, P t /\ s <= t) -> o = o'.
Proof.
  destruct o as [l|], o' as [l'|]; cbn; intros H H' HPQ HQP; try done.
  - destruct H as [HP Hl], H' as [HQ Hl']. destruct (HPQ _ HP) as (t & Ht & ?), (HQP _ HQ) as (u & Hu & ?).
    specialize (Hl u Hu). specialize (Hl' t Ht). f_equal. lia.
  - destruct (HPQ l) as (t & Ht & _); [tauto|]. by destruct (H' t).
  - destruct (HQP l') as (t & Ht & _); [tauto|]. by destruct (H t).
Qed.

Lemma agree_sym a b : agree a b -> agree b a.
Proof. intros H i s t Hs Ht. symmetry. by eapply H. Qed.

Lemma stamped_merge a b s : stamped (merge_from a b) s -> agree a b -> stamped a s \/ stamped b s.
Proof.
  intros Hs Hag. unfold stamped at 1 in Hs. destruct Hs as [[i Hs]|[[i Hs]|[[i Hs]|Hs]]].
  - apply merge_tokens in Hs as [[?|[_ ?]] _]; unfold stamped; eauto.
  - apply merge_removed in Hs as [Hs _]. pose proof (max_stamped_l _ _ _ (ex_intro _ i Hs)). unfold stamped. tauto.
  - apply merge_released in Hs as [Hs _]. pose proof (max_stamped_l _ _ _ (ex_intro _ i Hs)). unfold stamped. tauto.
  - pose proof (merge_ledger a b Hag) as Hl. rewrite Hs in Hl. tauto.
Qed.

Lemma merge_stamped a b s : stamped a s \/ stamped b s -> agree a b ->
  exists t, stamped (merge_from a b) t /\ s <= t.
Proof.
  intros Hs Hag. pose proof (merge_ledger a b Hag) as Hl. destruct (tb_ledger_at (merge_from a b)) as [l|] eqn:E.
  - exists l. split; [by right; right; right|]. by apply Hl.
  - by destruct (Hl s).
Qed.

Lemma merge_latest a b : agree a b ->
  latest (fun s => stamped a s \/ stamped b s) (tb_ledger_at (merge_from a b)).
Proof. exact (merge_ledger a b). Qed.

Lemma later_assoc x y z : later_of (later_of x y) z = later_of x (later_of y z).
Proof. destruct x, y, z; cbn; try done. by rewrite Z.max_assoc. Qed.

Lemma later_comm x y : later_of x y = later_of y x.
Proof. destruct x, y; cbn; try done. by rewrite Z.max_comm. Qed.

Lemma bucket_eq a b :
  tb_capacity a = tb_capacity b -> tb_window_us a = tb_window_us b -> tb_zeroed_until a = tb_zeroed_until b ->
  tb_ledger_at a = tb_ledger_at b ->
  (forall i s, tb_tokens a !! i = Some s <-> tb_tokens b !! i = Some s) ->
  (forall i s, tb_removed a !! i = Some s <-> tb_removed b !! i = Some s) ->
  (forall i s, tb_released a !! i = Some s <-> tb_released b !! i = Some s) -> a = b.
Proof.
  destruct a, b; cbn. intros -> -> -> -> Ht Hr Hl.
  f_equal; apply map_eq; intros i; apply option_eq; intros s; auto.
Qed.

Lemma max_comm m m' : union_with max_of m m' = union_with max_of m' m.
Proof. apply map_eq. intros i. apply option_eq. intros s. rewrite !lookup_max. tauto. Qed.

Lemma merge_comm a b (H : agree a b) : merge_from a b = merge_from b a.
Proof.
  assert (tb_ledger_at (merge_from a b) = tb_ledger_at (merge_from b a)) as Hl.
  { apply (latest_unique _ _ _ _ (merge_latest a b H) (merge_latest b a (agree_sym _ _ H))); intros s; cbn; intros ?; exists s; (split; [tauto|lia]). }
  assert (forall s, unexpired (merge_from a b) s <-> unexpired (merge_from b a) s) as Hu.
  { intros s. unfold unexpired. rewrite Hl. cbn [merge_from tb_window_us]. by rewrite Z.max_comm. }
  apply bucket_eq; [apply Z.min_comm|apply Z.max_comm|apply later_comm|done|..]; intros i s.
  - rewrite !merge_tokens, Hu. split; intros ([Hi|[Hn Hi]] & ? & ? & ?); split_and!; auto.
    + destruct (tb_tokens b !! i) as [t|] eqn:E; [left; f_equal; symmetry; by eapply H|auto].
    + destruct (tb_tokens a !! i) as [t|] eqn:E; [left; f_equal; by eapply H|auto].
  - by rewrite !merge_removed, Hu, max_comm.
  - by rewrite !merge_released, Hu, max_comm.
Qed.

(** The tokens of [a] that neither bucket gave back. *)
Definition owned a b : gmap string Z :=
  filter (fun kv => tb_removed a !! fst kv = None /\ tb_removed b !! fst kv = None) (tb_tokens a).

(** Merging is conservative: a token that either side gave back is gone, and at any time
    from the merge's ledger on no more requests are free than either side alone would allow
    given the tokens it owns, its capacity and its pause after a 429. *)
Theorem merge_conservative a b (t : Z) (H : agree a b)
    (Ht : forall l, tb_ledger_at (merge_from a b) = Some l -> l <= t) :
  (forall i, is_Some (tb_removed a !! i) \/ is_Some (tb_removed b !! i) -> tb_tokens (merge_from a b) !! i = None) /\
  let free x y := if zeroed_at x t then 0
    else Z.max 0 (tb_capacity x - Z.of_nat (size (since (t - tb_window_us x) (owned x y)))) in
  remaining (merge_from a b) t <= free a b /\ remaining (merge_from a b) t <= free b a.
Proof.
  assert (forall x y, agree x y -> (forall l, tb_ledger_at (merge_from x y) = Some l -> l <= t) ->
    remaining (merge_from x y) t <= if zeroed_at x t then 0
      else Z.max 0 (tb_capacity x - Z.of_nat (size (since (t - tb_window_us x) (owned x y))))) as Hside.
  { intros x y Hxy Hle. unfold remaining.
    assert (zeroed_at x t = true -> zeroed_at (merge_from x y) t = true) as Hz.
    { unfold zeroed_at. cbn. destruct (tb_zeroed_until x) as [z|], (tb_zeroed_until y) as [z'|]; cbn; lia || done. }
    destruct (zeroed_at x t); [by rewrite Hz|]. destruct (zeroed_at (merge_from x y) t); [lia|].
    enough (size (since (t - tb_window_us x) (owned x y)) <=
            size (since (t - tb_window_us (merge_from x y)) (tb_tokens (merge_from x y))))%nat
      by (cbn [merge_from tb_capacity]; lia).
    apply since_size. unfold owned. intros i s Hi Hs. apply map_lookup_filter_Some in Hi as [Hi [Hr1 Hr2]].
    cbn in Hr1, Hr2. rewrite merge_tokens. cbn [merge_from tb_window_us].
    split; [|lia]. split_and!; auto. unfold unexpired. destruct (tb_ledger_at (merge_from x y)) as [l|]; [|done].
    specialize (Hle l eq_refl). cbn [merge_from tb_window_us]. lia. }
  split; [|cbv zeta; split].
  - intros i Hi. apply eq_None_not_Some. intros [s Hs]. apply merge_tokens in Hs as (_ & Ha & Hb & _).
    destruct Hi as [[? Hi]|[? Hi]]; congruence.
  - by apply Hside.
  - rewrite merge_comm by done. apply Hside; [by apply agree_sym|]. by rewrite <- merge_comm.
Qed.

Lemma merge_conservative_witness :
  let b' := release_tokens second_grant {| br_id := "h"; br_bucket_key := "k"; br_token_ids := ["x"]; br_reserved_at := 10 |} 1 in
  tb_tokens (merge_from second_grant b') !! "x" = None /\ remaining (merge_from second_grant b') 41 <= 1.
Proof.
  intros b'. destruct (merge_conservative second_grant b' 41) as (Hr & _ & Hf).
  - assert (tb_tokens b' = delete "x" (tb_tokens second_grant)) as E by (vm_compute; reflexivity).
    intros i s t Hs. rewrite E, lookup_delete_Some. intros [_ Ht]. congruence.
  - intros l. vm_compute. intros [= <-]. discriminate.
  - split; [apply Hr; right; by exists 10|]. etransitivity; [exact Hf|]. vm_compute. discriminate.
Defined.

(** Every token of the bucket, live or given back, has the stamp it was granted with, and the
    bucket has the window of its pool. *)
Record consistent (stamp_of : string -> Z) (w : Z) b : Prop := {
  cs_window : tb_window_us b = w;
  cs_tokens : forall i s, tb_tokens b !! i = Some s -> s = stamp_of i;
  cs_removed : forall i s, tb_removed b !! i = Some s -> s = stamp_of i
}.

Section order_free.
Context (stamp_of : string -> Z) (w : Z).
#[local] Abbreviation ok := (consistent stamp_of w).

Lemma consistent_agree a b : ok a -> ok b -> agree a b.
Proof. intros [_ Ha _] [_ Hb _] i s t Hs Ht. rewrite (Ha _ _ Hs), (Hb _ _ Ht). done. Qed.

Lemma tokens_ok a b i s : ok a -> ok b ->
  tb_tokens (merge_from a b) !! i = Some s <->
  (tb_tokens a !! i = Some s \/ tb_tokens b !! i = Some s) /\
  tb_removed a !! i = None /\ tb_removed b !! i = None /\ unexpired (merge_from a b) s.
Proof.
  intros Ha Hb. rewrite merge_tokens. split; [tauto|]. intros ([Hi|Hi] & Hr); (split; [|done]); [auto|].
  destruct (tb_tokens a !! i) as [t|] eqn:E; [|auto]. left. f_equal. by eapply (consistent_agree a b).
Qed.

Lemma removed_ok a b i s : ok a -> ok b ->
  tb_removed (merge_from a b) !! i = Some s <->
  (tb_removed a !! i = Some s \/ tb_removed b !! i = Some s) /\ unexpired (merge_from a b) s.
Proof.
  intros Ha Hb. rewrite merge_removed, lookup_max. split; [tauto|]. intros [[Hi|Hi] Hu]; (split; [|done]).
  - left. split; [done|]. intros t Ht. rewrite (cs_removed _ _ _ Ha _ _ Hi), (cs_removed _ _ _ Hb _ _ Ht). lia.
  - right. split; [done|]. intros t Ht. rewrite (cs_removed _ _ _ Hb _ _ Hi), (cs_removed _ _ _ Ha _ _ Ht). lia.
Qed.

Lemma released_ok a b i s :
  tb_released (merge_from a b) !! i = Some s <->
  ((tb_released a !! i = Some s \/ tb_released b !! i = Some s) /\
   (forall t, tb_released a !! i = Some t \/ tb_released b !! i = Some t -> t <= s)) /\ unexpired (merge_from a b) s.
Proof.
  rewrite merge_released, lookup_max. split.
  - intros [[[Hi Hle]|[Hi Hle]] Hu]; (split; [|done]); (split; [auto|]); intros t [Ht|Ht]; auto; simplify_eq; lia.
  - intros [[[Hi|Hi] Hle] Hu]; (split; [|done]); [left|right]; (split; [done|]); auto.
Qed.

Lemma merge_consistent a b : ok a -> ok b -> ok (merge_from a b).
Proof.
  intros Ha Hb. split.
  - cbn. rewrite (cs_window _ _ _ Ha), (cs_window _ _ _ Hb). lia.
  - intros i s [[Hi|Hi] _]%tokens_ok; [by eapply (cs_tokens _ _ a)|by eapply (cs_tokens _ _ b)|done|done].
  - intros i s [[Hi|Hi] _]%removed_ok; [by eapply (cs_removed _ _ a)|by eapply (cs_removed _ _ b)|done|done].
Qed.

Lemma unexpired_window b s : ok b ->
  unexpired b s <-> match tb_ledger_at b with Some l => l - w < s | None => True end.
Proof. intros [Hw _ _]. unfold unexpired. by rewrite Hw. Qed.

(** What a later ledger keeps, an earlier one does. *)
Lemma unexpired_later a b c s : ok a -> ok b -> ok c ->
  unexpired (merge_from (merge_from a b) c) s -> unexpired (merge_from a b) s.
Proof.
  intros Ha Hb Hc. pose proof (merge_consistent a b Ha Hb) as Hab.
  rewrite (unexpired_window (merge_from (merge_from a b) c)), (unexpired_window (merge_from a b))
    by auto using merge_consistent.
  destruct (tb_ledger_at (merge_from a b)) as [l|] eqn:E; [|done].
  assert (stamped (merge_from a b) l) as Hl by (by right; right; right).
  pose proof (merge_latest _ _ (consistent_agree _ _ Hab Hc)) as Hm. unfold latest in Hm.
  destruct (tb_ledger_at (merge_from (merge_from a b) c)) as [l'|].
  - destruct Hm as [_ Hm]. specialize (Hm l (or_introl Hl)). lia.
  - exfalso. apply (Hm l). by left.
Qed.

Lemma unexpired_up b s t : unexpired b s -> s <= t -> unexpired b t.
Proof. unfold unexpired. destruct (tb_ledger_at b); [lia|done]. Qed.

(** The three fields of a merge of three buckets *)
Lemma tokens_three a b c i s : ok a -> ok b -> ok c ->
  tb_tokens (merge_from (merge_from a b) c) !! i = Some s <->
  (tb_tokens a !! i = Some s \/ tb_tokens b !! i = Some s \/ tb_tokens c !! i = Some s) /\
  tb_removed a !! i = None /\ tb_removed b !! i = None /\ tb_removed c !! i = None /\
  unexpired (merge_from (merge_from a b) c) s.
Proof.
  intros Ha Hb Hc. pose proof (merge_consistent a b Ha Hb) as Hab.
  rewrite (tokens_ok _ c), (tokens_ok a b) by done. split.
  - intros (Hi & Hr & Hrc & Hu). pose proof (unexpired_later _ _ _ _ Ha Hb Hc Hu) as Hu'.
    assert (s = stamp_of i) as ->.
    { destruct Hi as [[[Hi|Hi] _]|Hi]; [by eapply (cs_tokens _ _ a)|by eapply (cs_tokens _ _ b)|by eapply (cs_tokens _ _ c)]. }
    assert (forall x, ok x -> tb_removed x !! i <> None -> tb_removed x !! i = Some (stamp_of i)) as Hx.
    { intros x Hx Hn. destruct (tb_removed x !! i) as [t|] eqn:E; [|done]. f_equal. by eapply (cs_removed _ _ x). }
    split_and!; [tauto| | |done|done].
    + destruct (decide (tb_removed a !! i = None)) as [|Hn]; [done|exfalso].
      assert (tb_removed (merge_from a b) !! i = Some (stamp_of i)); [|congruence].
      apply removed_ok; auto.
    + destruct (decide (tb_removed b !! i = None)) as [|Hn]; [done|exfalso].
      assert (tb_removed (merge_from a b) !! i = Some (stamp_of i)); [|congruence].
      apply removed_ok; auto.
  - intros (Hi & Hra & Hrb & Hrc & Hu). pose proof (unexpired_later _ _ _ _ Ha Hb Hc Hu) as Hu'.
    split; [tauto|]. split_and!; [|done|done]. apply eq_None_not_Some. intros [t Ht].
    apply removed_ok in Ht as [[Ht|Ht] _]; congruence.
Qed.

Lemma max_stamped_at m m' i s : m !! i = Some s \/ m' !! i = Some s ->
  exists t, s <= t /\ union_with max_of m m' !! i = Some t.
Proof.
  rewrite lookup_union_with. intros [->| ->].
  - destruct (m' !! i) as [t|]; cbn; eexists; (split; [|done]); lia.
  - destruct (m !! i) as [t|]; cbn; eexists; (split; [|done]); lia.
Qed.

Lemma removed_three a b c i s : ok a -> ok b -> ok c ->
  tb_removed (merge_from (merge_from a b) c) !! i = Some s <->
  (tb_removed a !! i = Some s \/ tb_removed b !! i = Some s \/ tb_removed c !! i = Some s) /\
  unexpired (merge_from (merge_from a b) c) s.
Proof.
  intros Ha Hb Hc. rewrite (removed_ok _ c), (removed_ok a b) by auto using merge_consistent.
  split; [tauto|]. intros [Hi Hu]. pose proof (unexpired_later _ _ _ _ Ha Hb Hc Hu). tauto.
Qed.

Lemma released_three a b c i s : ok a -> ok b -> ok c ->
  tb_released (merge_from (merge_from a b) c) !! i = Some s <->
  ((tb_released a !! i = Some s \/ tb_released b !! i = Some s \/ tb_released c !! i = Some s) /\
   (forall t, tb_released a !! i = Some t \/ tb_released b !! i = Some t \/ tb_released c !! i = Some t -> t <= s)) /\
  unexpired (merge_from (merge_from a b) c) s.
Proof.
  intros Ha Hb Hc. rewrite released_ok. split.
  - intros [[Hi Hle] Hu]. pose proof (unexpired_later _ _ _ _ Ha Hb Hc Hu) as Hu'. split; [|done].
    assert (forall t, tb_released a !! i = Some t \/ tb_released b !! i = Some t -> t <= s) as Hab.
    { intros t Ht. destruct (Z.le_gt_cases t s) as [|Hgt]; [done|exfalso].
      destruct (max_stamped_at (tb_released a) (tb_released b) i t Ht) as (u & Htu & Hu2).
      assert (tb_released (merge_from a b) !! i = Some u) as Hr.
      { rewrite merge_released. split; [done|]. apply (unexpired_up _ s); [done|lia]. }
      specialize (Hle u (or_introl Hr)). lia. }
    split; [|intros t [Ht|[Ht|Ht]]; auto]. destruct Hi as [[[Hi _] _]%released_ok|Hi]; tauto.
  - intros [[Hi Hle] Hu]. pose proof (unexpired_later _ _ _ _ Ha Hb Hc Hu) as Hu'.
    split; [|done]. split.
    + rewrite released_ok. destruct Hi as [Hi|[Hi|Hi]]; [left|left|tauto]; (split; [|done]); (split; [tauto|]); intros t ?; apply Hle; tauto.
    + intros t [[[Ht _] _]%released_ok|Ht]; apply Hle; tauto.
Qed.

Lemma ledger_three a b c : ok a -> ok b -> ok c ->
  latest (fun s => stamped a s \/ stamped b s \/ stamped c s) (tb_ledger_at (merge_from (merge_from a b) c)).
Proof.
  intros Ha Hb Hc. pose proof (consistent_agree a b Ha Hb) as Hag.
  pose proof (merge_latest _ _ (consistent_agree _ _ (merge_consistent a b Ha Hb) Hc)) as Hl.
  unfold latest in *. destruct (tb_ledger_at _) as [l|].
  - destruct Hl as [Hs Hle]. split.
    + destruct Hs as [Hs|Hs]; [|tauto]. apply stamped_merge in Hs; tauto.
    + intros u Hu. assert ((stamped a u \/ stamped b u) \/ stamped c u) as [H|H] by tauto; [|auto].
      destruct (merge_stamped _ _ _ H Hag) as (t & Ht & ?). specialize (Hle t (or_introl Ht)). lia.
  - intros s Hs. assert ((stamped a s \/ stamped b s) \/ stamped c s) as [H|H] by tauto; [|by apply (Hl s); right].
    destruct (merge_stamped _ _ _ H Hag) as (t & Ht & ?). apply (Hl t). by left.
Qed.

Lemma unexpired_eq x y s : ok x -> ok y -> tb_ledger_at x = tb_ledger_at y -> unexpired x s <-> unexpired y s.
Proof. intros Hx Hy E. rewrite !unexpired_window by done. by rewrite E. Qed.

Lemma merge_rotate a b c : ok a -> ok b -> ok c ->
  merge_from (merge_from a b) c = merge_from (merge_from b c) a.
Proof.
  intros Ha Hb Hc.
  assert (tb_ledger_at (merge_from (merge_from a b) c) = tb_ledger_at (merge_from (merge_from b c) a)) as Hl.
  { apply (latest_unique _ _ _ _ (ledger_three a b c Ha Hb Hc) (ledger_three b c a Hb Hc Ha));
      intros s ?; exists s; (split; [cbn in *; tauto|lia]). }
  assert (forall s, unexpired (merge_from (merge_from a b) c) s <-> unexpired (merge_from (merge_from b c) a) s) as Hu.
  { intros s. apply unexpired_eq; auto using merge_consistent. }
  apply bucket_eq; [cbn [merge_from tb_capacity]; lia|cbn [merge_from tb_window_us]; lia| |done|..].
  - cbn [merge_from tb_zeroed_until]. rewrite later_assoc. apply later_comm.
  - intros i s. rewrite !tokens_three, Hu by done. tauto.
  - intros i s. rewrite !removed_three, Hu by done. tauto.
  - intros i s. rewrite !released_three, Hu by done.
    split; intros ([Hi Hle] & ?); (split; [|done]); (split; [tauto|]); intros t ?; apply Hle; tauto.
Qed.

Lemma merge_absorbs a b : ok a -> ok b -> merge_from (merge_from a b) b = merge_from a b.
Proof.
  intros Ha Hb. pose proof (merge_consistent a b Ha Hb) as Hab.
  assert (tb_ledger_at (merge_from (merge_from a b) b) = tb_ledger_at (merge_from a b)) as Hl.
  { apply (latest_unique _ _ _ _ (ledger_three a b b Ha Hb Hb) (merge_latest a b (consistent_agree a b Ha Hb)));
      intros s ?; exists s; (split; [cbn in *; tauto|lia]). }
  assert (forall s, unexpired (merge_from (merge_from a b) b) s <-> unexpired (merge_from a b) s) as Hu.
  { intros s. apply unexpired_eq; auto using merge_consistent. }
  apply bucket_eq; [cbn [merge_from tb_capacity]; lia|cbn [merge_from tb_window_us]; lia| |done|..].
  - cbn. destruct (tb_zeroed_until a), (tb_zeroed_until b); cbn; try done; f_equal; lia.
  - intros i s. rewrite tokens_three, (tokens_ok a b), Hu by done. tauto.
  - intros i s. rewrite removed_three, (removed_ok a b), Hu by done. tauto.
  - intros i s. rewrite released_three, (released_ok a b), Hu by done.
    split; intros ([Hi Hle] & ?); (split; [|done]); (split; [tauto|]); intros t ?; apply Hle; tauto.
Qed.

(** C22: The order in which processes merge their buckets does not matter, and merging again
    changes nothing: for buckets of one window whose tokens keep their stamps, merging is
    commutative and associative, and absorbs a bucket that was merged before. *)
Theorem merge_order_free a b c (Ha : ok a) (Hb : ok b) (Hc : ok c) :
  merge_from a b = merge_from b a /\
  merge_from (merge_from a b) c = merge_from a (merge_from b c) /\
  merge_from (merge_from a b) b = merge_from a b.
Proof.
  split_and!.
  - by apply merge_comm, consistent_agree.
  - rewrite (merge_comm a (merge_from b c)) by auto using consistent_agree, merge_consistent.
    by apply merge_rotate.
  - by apply merge_absorbs.
Qed.
End order_free.

Definition stamp_of (i : string) : Z := if String.eqb i "x" then 10 else 40.

Lemma merge_order_free_witness :
  consistent stamp_of 60 first_grant /\ consistent stamp_of 60 second_grant /\
  merge_from (merge_from first_grant second_grant) second_grant = merge_from second_grant first_grant.
Proof.
  assert (consistent stamp_of 60 first_grant) as H1.
  { split; [done| |].
    - assert (tb_tokens first_grant = {["x" := 10]}) as -> by (vm_compute; reflexivity).
      intros i s [<- <-]%lookup_singleton_Some. done.
    - assert (tb_removed first_grant = ∅) as -> by (vm_compute; reflexivity). intros i s. by rewrite lookup_empty. }
  assert (consistent stamp_of 60 second_grant) as H2.
  { split; [done| |].
    - assert (tb_tokens second_grant = {["x" := 10; "y" := 40]}) as -> by (vm_compute; reflexivity).
      intros i s [[<- <-]|[Hx [<- <-]%lookup_singleton_Some]]%lookup_insert_Some; done.
    - assert (tb_removed second_grant = ∅) as -> by (vm_compute; reflexivity). intros i s. by rewrite lookup_empty. }
  split; [done|]. split; [done|].
  destruct (merge_order_free stamp_of 60 first_grant second_grant second_grant H1 H2 H2) as (Hs & _ & Ha).
  by rewrite Ha, Hs.
Defined.

Lemma give_back_keeps l t i s :
  fst t !! i = None -> snd t !! i = Some s ->
  fst (foldl (fun s i => give_back i s) t l) !! i = None /\ snd (foldl (fun s i => give_back i s) t l) !! i = Some s.
Proof.
  revert t. induction l as [|j l IH]; intros [tokens removed] Ht Hr; [done|]. cbn [foldl]. cbn in Ht, Hr.
  apply IH; unfold give_back; (destruct (tokens !! j) eqn:E; [|done]); cbn.
  - rewrite lookup_delete_None. auto.
  - rewrite lookup_insert_ne by congruence. done.
Qed.

Lemma give_back_taken l t i s : i ∈ l -> fst t !! i = Some s ->
  fst (foldl (fun s i => give_back i s) t l) !! i = None /\ snd (foldl (fun s i => give_back i s) t l) !! i = Some s.
Proof.
  revert t. induction l as [|j l IH]; intros [tokens removed]; [by intros ?%not_elem_of_nil|].
  intros Hi Ht. cbn [foldl]. cbn in Ht. destruct (decide (i = j)) as [<-|Hne].
  - unfold give_back at 2 4. rewrite Ht. apply give_back_keeps; cbn; [apply lookup_delete_eq|apply lookup_insert_eq].
  - apply IH; [set_solver|]. unfold give_back. destruct (tokens !! j); [|done]. cbn. by rewrite lookup_delete_ne.
Qed.

(** A reservation is released once: releasing its handle again, for any number of tokens,
    changes nothing; and a release takes only tokens of its own handle, which it remembers as
    given back. *)
Theorem release_once b (h : BucketReservation) (n m : nat) :
  release_tokens (release_tokens b h n) h m = release_tokens b h n /\
  (forall i, i ∉ br_token_ids h -> tb_tokens (release_tokens b h n) !! i = tb_tokens b !! i) /\
  (tb_released b !! br_id h = None -> forall i s, i ∈ take n (br_token_ids h) -> tb_tokens b !! i = Some s ->
     tb_tokens (release_tokens b h n) !! i = None /\ tb_removed (release_tokens b h n) !! i = Some s).
Proof.
  split_and!.
  - assert (is_Some (tb_released (release_tokens b h n) !! br_id h)) as [r Hr].
    { unfold release_tokens. destruct (tb_released b !! br_id h) as [r|] eqn:E; [by exists r|].
      destruct (foldl _ _ _). cbn. rewrite lookup_insert_eq. eauto. }
    unfold release_tokens at 1. by rewrite Hr.
  - intros i Hi. unfold release_tokens. destruct (tb_released b !! br_id h); [done|].
    assert (i ∉ take n (br_token_ids h)) as Ht by (intros ?%elem_of_take; naive_solver eauto using list_elem_of_lookup_2).
    pose proof (give_back_lookup _ (tb_tokens b, tb_removed b) i Ht). by destruct (foldl _ _ _).
  - intros Hn i s Hi Hs. unfold release_tokens. rewrite Hn. clear Hn.
    pose proof (give_back_taken (take n (br_token_ids h)) (tb_tokens b, tb_removed b) i s Hi Hs) as Hg.
    by destruct (foldl _ _ _).
Qed.
