(* ===== verification/HealthStore.v ===== *)
(** The health cache as a store that several processes share:
    [HealthCache] of [verdict/orchestration/health_cache.py].

    A [Cache] is what the file and every process's object hold: the text of the file is not
    modelled, reading it gives back what was written. Writers hold the file's exclusive lock for
    their whole read-merge-write and replace the file atomically, so that each write is one step of the
    system; a writer that does not get the lock in time, or dies, changes nothing. The definitions give
    the result of a write that succeeds; [HealthSystem.faulty_step] says what a write that raises
    leaves behind. Legacy bucket keys are not modelled. Ids that [uuid4] draws are arguments. *)
From Stdlib Require Import Ascii.
From S2P Require Import Prelude PyStr Time Json JsonDict Passports Ladder HealthRecord TokenBucket.

#[local] Instance q_eq_dec : EqDecision Q.
Proof. solve_decision. Defined.

#[global] Instance health_entry_eq_dec : EqDecision HealthEntry.
Proof. solve_decision. Defined.

#[global] Instance token_bucket_eq_dec : EqDecision TokenBucket.
Proof. solve_decision. Defined.

(** * Data *)

(** [ScopedCooldown], stored under its key *)
Record StoredCooldown := {
  cd_category : string;
  cd_checked_at : Z;
  cd_until : Z;
  cd_canonical_category : option string;
  cd_provider_id : option string;
  cd_pool : option string;
  cd_account_id : option string
}.

#[global] Instance stored_cooldown_eq_dec : EqDecision StoredCooldown.
Proof. solve_decision. Defined.

Record DispatchScope := {
  ds_gateway_origin : string;
  ds_config_generation : string;
  ds_profile_digest : string;
  ds_binding_id : string
}.

#[global] Instance dispatch_scope_eq_dec : EqDecision DispatchScope.
Proof. solve_decision. Defined.

(** [DispatchScope.__post_init__] *)
Definition check_scope (s : DispatchScope) : result health_exn unit :=
  let required name value :=
    raise_if (String.eqb (strip value) "")
      (HealthCacheError ("dispatch scope " +:+ name +:+ " must be a non-empty string")) in
  _ ← required "gateway_origin" (ds_gateway_origin s);
  _ ← required "config_generation" (ds_config_generation s);
  _ ← required "profile_digest" (ds_profile_digest s);
  required "binding_id" (ds_binding_id s).

(** [DispatchScope.to_key] *)
Definition to_key (s : DispatchScope) : string :=
  dumps true (JList [JStr (ds_gateway_origin s); JStr (ds_config_generation s);
                     JStr (ds_profile_digest s); JStr (ds_binding_id s)]).
#[global] Arguments to_key : simpl never.

Record DispatchPermit := {
  dp_permit_id : string;
  dp_attempt_id : string;
  dp_route_id : string;
  dp_scope : DispatchScope;
  dp_epoch : Z;
  dp_not_after : Z
}.

#[global] Instance dispatch_permit_eq_dec : EqDecision DispatchPermit.
Proof. solve_decision. Defined.

(** [_RevocationEvent] *)
Record RevocationEvent := {
  re_route_id : string;
  re_source_revision : option string;
  re_observed_at : Z;
  re_sequence : Z
}.

#[global] Instance revocation_event_eq_dec : EqDecision RevocationEvent.
Proof. solve_decision. Defined.

(** [_DispatchScopeState] *)
Record ScopeState := {
  ss_epoch : Z;
  ss_sequence : Z;
  ss_revocations : gmap string RevocationEvent
}.

#[global] Instance scope_state_eq_dec : EqDecision ScopeState.
Proof. solve_decision. Defined.

(** [_DispatchAttempt]; its state is always [maybe_sent]. *)
Record DispatchAttempt := {
  da_permit : DispatchPermit;
  da_committed_at : Z;
  da_authorization_digest : string
}.

#[global] Instance dispatch_attempt_eq_dec : EqDecision DispatchAttempt.
Proof. solve_decision. Defined.

Definition PERMIT_STATE_MAYBE_SENT : string := "maybe_sent".
Definition PERMIT_PROOF_MAX_VALIDITY_US : Z := 600 * us_per_second.
Definition DEFAULT_BUCKET_CAPACITY : Z := 10.
Definition DEFAULT_BUCKET_WINDOW_US : Z := 60 * us_per_second.

(** The fields of a [HealthCache] that it persists. The values of the cursor are opaque text. *)
Record Cache := {
  c_routes : routes;
  c_rescreen : gmap string Z;
  c_buckets : gmap string TokenBucket;
  c_cursor : gmap string string;
  c_cooldowns : gmap string StoredCooldown;
  c_scopes : gmap string ScopeState;
  c_attempts : gmap string DispatchAttempt
}.

#[global] Instance cache_eq_dec : EqDecision Cache.
Proof. solve_decision. Defined.

Definition empty_cache : Cache :=
  {| c_routes := ∅; c_rescreen := ∅; c_buckets := ∅; c_cursor := ∅; c_cooldowns := ∅; c_scopes := ∅;
     c_attempts := ∅ |}.

Definition with_routes (c : Cache) (rs : routes) : Cache :=
  {| c_routes := rs; c_rescreen := c_rescreen c; c_buckets := c_buckets c; c_cursor := c_cursor c;
     c_cooldowns := c_cooldowns c; c_scopes := c_scopes c; c_attempts := c_attempts c |}.

Definition with_rescreen (c : Cache) (rs : gmap string Z) : Cache :=
  {| c_routes := c_routes c; c_rescreen := rs; c_buckets := c_buckets c; c_cursor := c_cursor c;
     c_cooldowns := c_cooldowns c; c_scopes := c_scopes c; c_attempts := c_attempts c |}.

Definition with_buckets (c : Cache) (bs : gmap string TokenBucket) : Cache :=
  {| c_routes := c_routes c; c_rescreen := c_rescreen c; c_buckets := bs; c_cursor := c_cursor c;
     c_cooldowns := c_cooldowns c; c_scopes := c_scopes c; c_attempts := c_attempts c |}.

Definition with_cursor (c : Cache) (cursor : gmap string string) : Cache :=
  {| c_routes := c_routes c; c_rescreen := c_rescreen c; c_buckets := c_buckets c; c_cursor := cursor;
     c_cooldowns := c_cooldowns c; c_scopes := c_scopes c; c_attempts := c_attempts c |}.

Definition with_cooldowns (c : Cache) (cs : gmap string StoredCooldown) : Cache :=
  {| c_routes := c_routes c; c_rescreen := c_rescreen c; c_buckets := c_buckets c; c_cursor := c_cursor c;
     c_cooldowns := cs; c_scopes := c_scopes c; c_attempts := c_attempts c |}.

Definition with_dispatch (c : Cache) (scopes : gmap string ScopeState) (attempts : gmap string DispatchAttempt)
    : Cache :=
  {| c_routes := c_routes c; c_rescreen := c_rescreen c; c_buckets := c_buckets c; c_cursor := c_cursor c;
     c_cooldowns := c_cooldowns c; c_scopes := scopes; c_attempts := attempts |}.

(** * Folding memory over the file *)

(** [record_cooldown]: [existing] is the stored one, [c] the new one. *)
Definition later_cooldown (existing : option StoredCooldown) (c : StoredCooldown) : StoredCooldown :=
  match existing with
  | Some e => if cd_until c <=? cd_until e then e else c
  | None => c
  end.

(** [HealthCache.record_cooldown] *)
Definition record_cooldown (key : string) (c : StoredCooldown) (cache : Cache) : Cache :=
  with_cooldowns cache (<[key := later_cooldown (c_cooldowns cache !! key) c]> (c_cooldowns cache)).

(** Every cooldown of [mine] recorded over [disk] *)
Definition fold_cooldowns (mine disk : gmap string StoredCooldown) : gmap string StoredCooldown :=
  union_with (fun m d => Some (later_cooldown (Some d) m)) mine disk.

(** The route of [save]: an entry that is not behind the file's and was checked later replaces it. *)
Definition merge_route (mine disk : option HealthEntry) : option HealthEntry :=
  match mine, disk with
  | None, d => d
  | Some e, None => Some (he_revision e 1)
  | Some e, Some d =>
      if (he_write_revision d <=? he_write_revision e) && (he_checked_at d <? he_checked_at e)
      then Some (he_revision e (he_write_revision d + 1)) else Some d
  end.

(** Each bucket of the file with that of memory merged into it *)
Definition merge_buckets (mine disk : gmap string TokenBucket) : gmap string TokenBucket :=
  union_with (fun m d => Some (merge_from d m)) mine disk.

Definition merge_scope (mine disk : ScopeState) : ScopeState :=
  {| ss_epoch := Z.max (ss_epoch disk) (ss_epoch mine);
     ss_sequence := Z.max (ss_sequence disk) (ss_sequence mine);
     ss_revocations := ss_revocations disk ∪ ss_revocations mine |}.

(** [_merge_dispatch_records] *)
Definition merge_dispatch_records (mine_scopes disk_scopes : gmap string ScopeState)
    (mine_attempts disk_attempts : gmap string DispatchAttempt)
    : gmap string ScopeState * gmap string DispatchAttempt :=
  (union_with (fun m d => Some (merge_scope m d)) mine_scopes disk_scopes, disk_attempts ∪ mine_attempts).

(** [_merge_in_memory_over_disk] *)
Definition merge_in_memory_over_disk (mine disk : Cache) : Cache :=
  let '(scopes, attempts) :=
    merge_dispatch_records (c_scopes mine) (c_scopes disk) (c_attempts mine) (c_attempts disk) in
  {| c_routes := merge merge_route (c_routes mine) (c_routes disk);
     c_rescreen := c_rescreen disk;
     c_buckets := merge_buckets (c_buckets mine) (c_buckets disk);
     c_cursor := c_cursor mine;
     c_cooldowns := fold_cooldowns (c_cooldowns mine) (c_cooldowns disk);
     c_scopes := scopes; c_attempts := attempts |}.

(** What differs from the file as it was last read or written *)
Definition changed {A} `{EqDecision A} (mine loaded : gmap string A) : gmap string A :=
  filter (fun kv => loaded !! fst kv <> Some (snd kv)) mine.

(** [HealthCache.reload]: the memory of an object whose memory and last view of the file are given *)
Definition reload (mine loaded disk : Cache) : Cache :=
  if bool_decide (mine = loaded) then disk
  else
    let '(scopes, attempts) :=
      merge_dispatch_records (c_scopes mine) (c_scopes disk) (c_attempts mine) (c_attempts disk) in
    {| c_routes := union_with (fun m d => Some (if he_checked_at d <? he_checked_at m then m else d))
                     (changed (c_routes mine) (c_routes loaded)) (c_routes disk);
       c_rescreen := c_rescreen disk;
       c_buckets := merge_buckets (changed (c_buckets mine) (c_buckets loaded)) (c_buckets disk);
       c_cursor := if bool_decide (c_cursor mine = c_cursor loaded) then c_cursor disk else c_cursor mine;
       c_cooldowns := fold_cooldowns (changed (c_cooldowns mine) (c_cooldowns loaded)) (c_cooldowns disk);
       c_scopes := scopes; c_attempts := attempts |}.

(** An entry that [mutate] changed gets the next revision. *)
Definition next_revision (prior : option HealthEntry) (e : HealthEntry) : HealthEntry :=
  if bool_decide (prior = Some e) then e
  else he_revision e (match prior with Some p => he_write_revision p | None => 0 end + 1).

(** [merge_and_save]: [mutate] on the file as read under the lock; the result is what is written
    and what the object then holds. *)
Definition merge_and_save {A} (mutate : Cache -> result health_exn (A * Cache)) (disk : Cache)
    : result health_exn (A * Cache) :=
  '(a, c) ← mutate disk;
  Ok (a, with_routes c (map_imap (fun route e => Some (next_revision (c_routes disk !! route) e)) (c_routes c))).

(** * Reading *)

Section reading.
Context (fresh_us : Z).

(** [HealthCache.lookup] *)
Definition lookup_route (c : Cache) (route : string) (now : Z) : CacheState * option HealthEntry :=
  match c_routes c !! route with
  | None => (Unprobed, None)
  | Some e => (state_at fresh_us e now, Some e)
  end.

(** [HealthCache.healthy_routes]: the latest check first, equally old ones in any order *)
Definition healthy_routes (c : Cache) (now : Z) (predicate : HealthEntry -> bool) : list HealthEntry :=
  sort_by (fun a b => he_checked_at b <=? he_checked_at a)
    (filter (fun e => (state_at fresh_us e now = Fresh \/ state_at fresh_us e now = StaleState) /\
                      predicate e = true)
       (map snd (map_to_list (c_routes c)))).
End reading.

(** [cooldown_for], [active_cooldowns] *)
Definition active_at (c : StoredCooldown) (now : Z) : bool := now <? cd_until c.

Definition stored_cooldown_for (c : Cache) (key : string) (now : Z) : option StoredCooldown :=
  s ← c_cooldowns c !! key; if active_at s now then Some s else None.

Definition active_cooldowns (c : Cache) (now : Z) : gmap string StoredCooldown :=
  filter (fun kv => active_at (snd kv) now = true) (c_cooldowns c).

(** [revocation_epoch] *)
Definition revocation_epoch (c : Cache) (scope : DispatchScope) : Z :=
  match c_scopes c !! to_key scope with Some s => ss_epoch s | None => 0 end.

(** [latest_revocation_at] *)
Definition latest_revocation_at (c : Cache) (scope : DispatchScope) : option Z :=
  s ← c_scopes c !! to_key scope;
  max_stamp (map (fun kv => re_observed_at (snd kv)) (map_to_list (ss_revocations s))).

(** [permit_for_attempt], [dispatch_attempt_state] *)
Definition permit_for_attempt (c : Cache) (attempt_id : string) : option DispatchPermit :=
  da_permit <$> c_attempts c !! attempt_id.

Definition dispatch_attempt_state (c : Cache) (attempt_id : string) : option string :=
  (fun _ => PERMIT_STATE_MAYBE_SENT) <$> c_attempts c !! attempt_id.

(** * Operations on memory *)

(** The configuration of an object: [bucket_capacity], [bucket_window_seconds], [bucket_overrides]. *)
Record BucketConfig := {
  bc_capacity : Z;
  bc_window_us : Z;
  bc_overrides : gmap string Z
}.

(** [bucket_key] *)
Definition bucket_key (provider : string) (pool : option string) : result health_exn string :=
  _ ← raise_if (String.eqb (strip provider) "") (HealthCacheError "provider must be non-empty");
  Ok (match pool with Some p => if String.eqb p "" then provider else p | None => provider end).

(** [_bucket_capacity_for] *)
Definition bucket_capacity_for (cfg : BucketConfig) (key : string) : Z :=
  match bc_overrides cfg !! key with
  | Some n => n
  | None => default (bc_capacity cfg) (bc_overrides cfg !! split1_head "/"%char key)
  end.

(** [bucket_for] *)
Definition bucket_for (cfg : BucketConfig) (provider : string) (pool : option string) (c : Cache)
    : result health_exn (string * TokenBucket * Cache) :=
  key ← bucket_key provider pool;
  match c_buckets c !! key with
  | Some b => Ok (key, b, c)
  | None =>
      let capacity := bucket_capacity_for cfg key in
      _ ← check_bucket capacity (bc_window_us cfg);
      let b := empty_bucket capacity (bc_window_us cfg) in
      Ok (key, b, with_buckets c (<[key := b]> (c_buckets c)))
  end.

(** [HealthCache.consume] *)
Definition consume_bucket (cfg : BucketConfig) (provider : string) (now : datetime) (pool : option string)
    (ids : list string) (c : Cache) : result health_exn (bool * Cache) :=
  '(key, b, c) ← bucket_for cfg provider pool c;
  _ ← raise_if (Z.of_nat (length ids) <? 1) (HealthCacheError "consume amount must be >= 1");
  current ← aware "now" now;
  '(granted, b) ← consume b current ids;
  Ok (granted, with_buckets c (<[key := b]> (c_buckets c))).

(** [HealthCache.zero_bucket] *)
Definition zero_bucket (cfg : BucketConfig) (provider : string) (until : datetime) (pool : option string)
    (c : Cache) : result health_exn (unit * Cache) :=
  '(key, b, c) ← bucket_for cfg provider pool c;
  u ← aware "until" until;
  Ok (tt, with_buckets c (<[key := zero b u]> (c_buckets c))).

(** [HealthCache.clear_cooldown] *)
Definition clear_cooldown (key : string) (c : Cache) : Cache :=
  with_cooldowns c (delete key (c_cooldowns c)).

(** [HealthCache.set_cursor], [HealthCache.clear_cursor] *)
Definition set_cursor (cursor : gmap string string) (c : Cache) : Cache := with_cursor c cursor.

Definition clear_cursor (c : Cache) : Cache := with_cursor c ∅.

(** * Operations under the lock *)

(** The mutation of [request_rescreen], and [complete_rescreen] *)
Definition request_mutation (rs : list string) (now : Z) (c : Cache) : result health_exn (unit * Cache) :=
  Ok (tt, with_rescreen c (foldl (fun m r => <[r := now]> m) (c_rescreen c) rs)).

Definition complete_mutation (route : string) (c : Cache) : result health_exn (unit * Cache) :=
  Ok (tt, with_rescreen c (delete route (c_rescreen c))).

(** [request_rescreen]: nothing is read or written for no routes. *)
Definition request_rescreen (rs : list string) (now : datetime) (disk : Cache)
    : result health_exn (unit * Cache) :=
  match rs with
  | [] => Ok (tt, disk)
  | _ => current ← aware "timestamp" now; merge_and_save (request_mutation rs current) disk
  end.

Definition complete_rescreen (route : string) (disk : Cache) : result health_exn (unit * Cache) :=
  merge_and_save (complete_mutation route) disk.

(** [reserve_bucket] *)
Definition reserve_mutation (cfg : BucketConfig) (provider : string) (now : datetime) (pool : option string)
    (ids : list string) (handle : string) (c : Cache) : result health_exn (option BucketReservation * Cache) :=
  '(key, b, c) ← bucket_for cfg provider pool c;
  _ ← raise_if (Z.of_nat (length ids) <? 1) (HealthCacheError "consume amount must be >= 1");
  current ← aware "now" now;
  '(reservation, b) ← reserve_tokens b key current ids handle;
  Ok (reservation, with_buckets c (<[key := b]> (c_buckets c))).

Definition reserve_bucket (cfg : BucketConfig) (provider : string) (now : datetime) (pool : option string)
    (ids : list string) (handle : string) (disk : Cache) : result health_exn (option BucketReservation * Cache) :=
  merge_and_save (reserve_mutation cfg provider now pool ids handle) disk.

(** [release_bucket] *)
Definition release_mutation (h : BucketReservation) (unused : Z) (c : Cache) : result health_exn (unit * Cache) :=
  match c_buckets c !! br_bucket_key h with
  | None => Ok (tt, c)
  | Some b => Ok (tt, with_buckets c (<[br_bucket_key h := release_tokens b h (Z.to_nat unused)]> (c_buckets c)))
  end.

Definition release_bucket (h : BucketReservation) (unused : Z) (disk : Cache) : result health_exn (unit * Cache) :=
  _ ← raise_if ((unused <? 0) || (Z.of_nat (length (br_token_ids h)) <? unused))
        (HealthCacheError "unused_n exceeds the owned reservation");
  merge_and_save (release_mutation h unused) disk.

(** [record_revocation] *)
Definition revocation_mutation (scope : DispatchScope) (route_id event_id : string)
    (source_revision : option string) (observed : Z) (c : Cache) : result health_exn (Z * Cache) :=
  let key := to_key scope in
  let s := default {| ss_epoch := 0; ss_sequence := 0; ss_revocations := ∅ |} (c_scopes c !! key) in
  match ss_revocations s !! event_id with
  | Some _ => Ok (ss_epoch s, c)
  | None =>
      let s' :=
        {| ss_epoch := ss_epoch s + 1; ss_sequence := ss_sequence s + 1;
           ss_revocations := <[event_id := {| re_route_id := route_id; re_source_revision := source_revision;
                                              re_observed_at := observed; re_sequence := ss_sequence s + 1 |}]>
                               (ss_revocations s) |} in
      Ok (ss_epoch s', with_dispatch c (<[key := s']> (c_scopes c)) (c_attempts c))
  end.

Definition record_revocation (scope : DispatchScope) (route_id event_id : string)
    (source_revision : option string) (observed_at : datetime) (disk : Cache) : result health_exn (Z * Cache) :=
  _ ← raise_if (String.eqb (strip route_id) "") (HealthCacheError "revocation route_id must be non-empty");
  _ ← raise_if (String.eqb (strip event_id) "") (HealthCacheError "revocation event_id must be non-empty");
  observed ← aware "observed_at" observed_at;
  merge_and_save (revocation_mutation scope route_id event_id source_revision observed) disk.

(** The mutation of [commit_dispatch]: [uid] is the permit id drawn. *)
Definition commit_mutation (scope : DispatchScope) (route_id attempt_id digest : string) (expected_epoch : Z)
    (due qualified current : Z) (uid : string) (c : Cache) : result health_exn (option DispatchPermit * Cache) :=
  if match c_routes c !! route_id with
     | Some e => (negb (he_healthy e) && (current <? he_until e)) ||
                 match failure_at e with Some t => qualified <=? t | None => false end
     | None => false
     end
  then Ok (None, c)
  else if negb (expected_epoch =? revocation_epoch c scope) then Ok (None, c)
  else match c_attempts c !! attempt_id with
       | Some _ => Ok (None, c)
       | None =>
           let minted := {| dp_permit_id := uid; dp_attempt_id := attempt_id; dp_route_id := route_id;
                            dp_scope := scope; dp_epoch := expected_epoch; dp_not_after := due |} in
           Ok (Some minted,
               with_dispatch c (c_scopes c)
                 (<[attempt_id := {| da_permit := minted; da_committed_at := current;
                                     da_authorization_digest := digest |}]> (c_attempts c)))
       end.

(** [commit_dispatch]: the second component is the file and memory after it, or nothing where the
    file was not touched. *)
Definition commit_dispatch (scope : DispatchScope) (route_id attempt_id digest : string) (expected_epoch : Z)
    (proof_deadline qualified_at now : datetime) (uid : string) (disk : Cache)
    : result health_exn (option DispatchPermit * option Cache) :=
  _ ← raise_if (String.eqb (strip route_id) "") (HealthCacheError "dispatch route_id must be non-empty");
  _ ← raise_if (String.eqb (strip attempt_id) "") (HealthCacheError "dispatch attempt_id must be non-empty");
  _ ← raise_if (expected_epoch <? 0) (HealthCacheError "expected_epoch must be a non-negative integer");
  current ← aware "now" now;
  due ← aware "proof_deadline" proof_deadline;
  qualified ← aware "qualified_at" qualified_at;
  if (current <? qualified) || (due <=? qualified) then Ok (None, None)
  else if due <=? current then Ok (None, None)
  else
    limit ← shift current PERMIT_PROOF_MAX_VALIDITY_US;
    if limit <? due then Ok (None, None)
    else
      '(permit, c) ← merge_and_save
        (commit_mutation scope route_id attempt_id digest expected_epoch due qualified current uid) disk;
      Ok (permit, Some c).

(** * Properties *)

(** Different scopes never share revocation epochs or permits: their keys differ. *)
Theorem scopes_apart (s t : DispatchScope) : to_key s = to_key t <-> s = t.
Proof.
  split; [|by intros ->]. unfold to_key. intros H%dumps_inj; [|done..].
  destruct s, t. cbn in *. congruence.
Qed.

Lemma changed_lookup {A} `{EqDecision A} (mine loaded : gmap string A) k v :
  changed mine loaded !! k = Some v <-> mine !! k = Some v /\ loaded !! k <> Some v.
Proof. unfold changed. by rewrite map_lookup_filter_Some. Qed.

(** Saving keeps the newest evidence: a route that only memory has is written, one that only
    the file has is kept, and where both have one the file keeps its own unless memory's was
    checked later and no other process wrote the route since memory read it; every replacement
    gets the file's next revision, and a saved entry is not replaced by saving it again. *)
Theorem save_route (m f : Cache) (route : string) :
  let saved := merge_in_memory_over_disk m f in
  c_routes saved !! route = merge_route (c_routes m !! route) (c_routes f !! route) /\
  (forall e d, c_routes m !! route = Some e -> c_routes f !! route = Some d ->
     (he_write_revision e < he_write_revision d \/ he_checked_at e <= he_checked_at d) ->
     c_routes saved !! route = Some d) /\
  (forall e d, c_routes m !! route = Some e -> c_routes f !! route = Some d ->
     he_write_revision d <= he_write_revision e -> he_checked_at d < he_checked_at e ->
     c_routes saved !! route = Some (he_revision e (he_write_revision d + 1))) /\
  c_routes (merge_in_memory_over_disk saved saved) !! route = c_routes saved !! route.
Proof.
  cbv zeta. cbn [merge_in_memory_over_disk c_routes merge_dispatch_records]. rewrite !lookup_merge.
  destruct (c_routes m !! route) as [e|], (c_routes f !! route) as [d|]; cbn; split_and!; try done.
  - intros ? ? [= <-] [= <-] H. case_match; [|done]. bool_hyps. lia.
  - intros ? ? [= <-] [= <-] ? ?. case_match; [done|]. bool_hyps. lia.
  - case_match; cbn; case_match; try done; bool_hyps; lia.
  - case_match; [bool_hyps; lia|done].
  - case_match; [bool_hyps; lia|done].
Qed.

(** Cooldowns only grow longer by saving: after a save the file blocks a scope until the later
    of its own deadline and memory's. *)
Theorem save_cooldown (m f : Cache) (key : string) :
  (fun c => cd_until c) <$> c_cooldowns (merge_in_memory_over_disk m f) !! key =
  union_with (fun a b => Some (Z.max a b)) ((fun c => cd_until c) <$> c_cooldowns m !! key)
    ((fun c => cd_until c) <$> c_cooldowns f !! key).
Proof.
  cbn. unfold fold_cooldowns. rewrite lookup_union_with.
  destruct (c_cooldowns m !! key) as [a|], (c_cooldowns f !! key) as [b|]; cbn; try done.
  case_match; f_equal; lia.
Qed.

(** Rereading keeps what an object has not saved: an object that changed nothing sees the file
    as it is; otherwise a route it did not change is the file's, and one it changed stays if the
    file has none or an older check. *)
Theorem reload_route (m loaded f : Cache) (route : string) :
  (m = loaded -> reload m loaded f = f) /\
  (c_routes m !! route = c_routes loaded !! route -> c_routes (reload m loaded f) !! route = c_routes f !! route) /\
  (forall e, c_routes m !! route = Some e -> c_routes loaded !! route <> Some e ->
     c_routes (reload m loaded f) !! route =
     match c_routes f !! route with
     | Some d => Some (if he_checked_at d <? he_checked_at e then e else d)
     | None => Some e
     end).
Proof.
  split_and!; unfold reload; [intros ->; by rewrite bool_decide_true by done| |].
  - intros E. case_bool_decide; [done|]. cbn. rewrite lookup_union_with.
    assert (changed (c_routes m) (c_routes loaded) !! route = None) as ->.
    { apply eq_None_not_Some. intros [e [He Hn]%changed_lookup]. congruence. }
    by destruct (c_routes f !! route).
  - intros e He Hn. case_bool_decide; [subst; congruence|]. cbn. rewrite lookup_union_with.
    rewrite (proj2 (changed_lookup _ _ route e)) by done. by destruct (c_routes f !! route).
Qed.
