(* ===== verification/HealthSystem.v ===== *)
(** The processes that share a health cache ([HealthStore]) as a transition system, and what its
    histories keep: failures, permits, revocation epochs. [system_step] has the writes that
    succeed and the deaths of processes; [faulty_step] adds the writes that raise, after which
    the object goes on with what it would have written. Permits and epochs survive those too;
    failures of routes do not ([failed_write_forgets_failure]). *)
From S2P Require Import Prelude PyStr Time Passports Ladder HealthRecord TokenBucket HealthStore.

(** * The system *)

(** A [HealthCache] object: its memory, and the file as it last read or wrote it. *)
Record Process := { p_memory : Cache; p_loaded : Cache }.

Record System := { sys_file : Cache; sys_processes : gmap nat Process }.

(** An object that has just read or written the file *)
Definition in_step (c : Cache) : Process := {| p_memory := c; p_loaded := c |}.

Section system.
Context (fresh_us : Z).

(** What an object's operations do to its memory, without touching the file *)
Inductive local_step : Cache -> Cache -> Prop :=
| local_recording c rs : recording fresh_us (c_routes c) rs -> local_step c (with_routes c rs)
| local_cooldown c key cd : local_step c (record_cooldown key cd c)
| local_clear c key : local_step c (clear_cooldown key c)
| local_cursor c cursor : local_step c (set_cursor cursor c)
| local_clear_cursor c : local_step c (clear_cursor c)
| local_consume c cfg provider now pool ids granted c' :
    consume_bucket cfg provider now pool ids c = Ok (granted, c') -> local_step c c'
| local_zero c cfg provider until pool u c' :
    zero_bucket cfg provider until pool c = Ok (u, c') -> local_step c c'.

(** What is done to the file under its lock: the operations of the class, and whatever recordings
    and cooldowns a caller of [merge_and_save] makes. *)
Inductive locked_step : Cache -> Cache -> Prop :=
| locked_local c c' d : rtc local_step c c' ->
    merge_and_save (fun c => Ok (tt, c')) c = Ok (tt, d) -> locked_step c d
| locked_request c rs now u d : rs <> [] -> request_rescreen rs now c = Ok (u, d) -> locked_step c d
| locked_complete c route u d : complete_rescreen route c = Ok (u, d) -> locked_step c d
| locked_reserve c cfg provider now pool ids handle r d :
    reserve_bucket cfg provider now pool ids handle c = Ok (r, d) -> locked_step c d
| locked_release c h unused u d : release_bucket h unused c = Ok (u, d) -> locked_step c d
| locked_revocation c scope route event revision observed epoch d :
    record_revocation scope route event revision observed c = Ok (epoch, d) -> locked_step c d
| locked_commit c scope route attempt digest epoch deadline qualified now uid permit d :
    commit_dispatch scope route attempt digest epoch deadline qualified now uid c = Ok (permit, Some d) ->
    locked_step c d.

Inductive system_step : System -> System -> Prop :=
| step_open s p : system_step s {| sys_file := sys_file s;
                                   sys_processes := <[p := in_step (sys_file s)]> (sys_processes s) |}
| step_local s p o c :
    sys_processes s !! p = Some o -> local_step (p_memory o) c ->
    system_step s {| sys_file := sys_file s;
                     sys_processes := <[p := {| p_memory := c; p_loaded := p_loaded o |}]> (sys_processes s) |}
| step_reload s p o :
    sys_processes s !! p = Some o ->
    system_step s {| sys_file := sys_file s;
                     sys_processes := <[p := {| p_memory := reload (p_memory o) (p_loaded o) (sys_file s);
                                                p_loaded := sys_file s |}]> (sys_processes s) |}
| step_save s p o :
    sys_processes s !! p = Some o ->
    let c := merge_in_memory_over_disk (p_memory o) (sys_file s) in
    system_step s {| sys_file := c; sys_processes := <[p := in_step c]> (sys_processes s) |}
| step_locked s p o c :
    sys_processes s !! p = Some o -> locked_step (sys_file s) c ->
    system_step s {| sys_file := c; sys_processes := <[p := in_step c]> (sys_processes s) |}
| step_die s p : system_step s {| sys_file := sys_file s; sys_processes := delete p (sys_processes s) |}.

(** With writes that raise, before or after the file was replaced: the object has read the
    file and keeps what it was about to write, as if its last view of the file were older. *)
Definition failed_write (s : System) (p : nat) (c : Cache) (landed : bool) : System :=
  {| sys_file := if landed then c else sys_file s;
     sys_processes := <[p := {| p_memory := c; p_loaded := sys_file s |}]> (sys_processes s) |}.

Inductive faulty_step : System -> System -> Prop :=
| faulty_sound s s' : system_step s s' -> faulty_step s s'
| faulty_save s p o landed :
    sys_processes s !! p = Some o ->
    faulty_step s (failed_write s p (merge_in_memory_over_disk (p_memory o) (sys_file s)) landed)
| faulty_locked s p o c landed :
    sys_processes s !! p = Some o -> locked_step (sys_file s) c ->
    faulty_step s (failed_write s p c landed).

(** A file that nobody has open yet, and everything that can follow *)
Definition opened (c : Cache) : System := {| sys_file := c; sys_processes := ∅ |}.

Definition reachable (c : Cache) (s : System) : Prop := rtc system_step (opened c) s.
End system.

(** * What a write keeps *)

(** A route of the file before and after writes: the same entry, or one of a later revision
    that remembers the last failure. *)
Definition entry_follows (e e' : option HealthEntry) : Prop :=
  match e, e' with
  | Some e, Some e' =>
      e' = e \/ (he_write_revision e < he_write_revision e' /\ failure_le (failure_at e) (failure_at e'))
  | None, Some e' => 0 < he_write_revision e'
  | None, None => True
  | Some _, None => False
  end.

(** A revocation record that another one has caught up with *)
Definition scope_le (s s' : ScopeState) : Prop :=
  ss_epoch s <= ss_epoch s' /\ ss_sequence s <= ss_sequence s' /\
  forall event, is_Some (ss_revocations s !! event) -> is_Some (ss_revocations s' !! event).

Definition scope_follows (s s' : option ScopeState) : Prop :=
  match s, s' with
  | Some s, Some s' => scope_le s s'
  | None, Some s' => 0 <= ss_epoch s'
  | None, None => True
  | Some _, None => False
  end.

Record follows (c d : Cache) : Prop := {
  fo_routes : forall route, entry_follows (c_routes c !! route) (c_routes d !! route);
  fo_attempts : c_attempts c ⊆ c_attempts d;
  fo_scopes : forall key, scope_follows (c_scopes c !! key) (c_scopes d !! key)
}.

#[export] Instance scope_le_preorder : PreOrder scope_le.
Proof.
  split.
  - intros s. unfold scope_le. split_and!; [lia|lia|done].
  - intros s1 s2 s3 (? & ? & H12) (? & ? & H23). unfold scope_le. split_and!; [lia|lia|auto].
Qed.

#[export] Instance follows_preorder : PreOrder follows.
Proof.
  split.
  - intros c. split; [|done|].
    + intros route. destruct (c_routes c !! route); cbn; auto.
    + intros key. destruct (c_scopes c !! key); cbn; [reflexivity|done].
  - intros c1 c2 c3 [R12 A12 S12] [R23 A23 S23]. split.
    + intros route. specialize (R12 route). specialize (R23 route).
      destruct (c_routes c1 !! route) as [e1|], (c_routes c2 !! route) as [e2|], (c_routes c3 !! route) as [e3|];
        cbn in *; try done.
      * destruct R12 as [->|[? H12]]; [done|]. destruct R23 as [->|[? H23]]; [by right|].
        right. split; [lia|]. by etransitivity.
      * destruct R23 as [->|[? _]]; [done|lia].
    + by etransitivity.
    + intros key. specialize (S12 key). specialize (S23 key).
      destruct (c_scopes c1 !! key), (c_scopes c2 !! key), (c_scopes c3 !! key); cbn in *; try done.
      * by etransitivity.
      * destruct S23. lia.
Qed.

(** * What an object knows of the file *)

(** An entry in memory is not ahead of the file, and where it is not behind it knows the file's
    last failure; a route that memory lacks was first written after it was read. *)
Definition known_entry (m f : option HealthEntry) : Prop :=
  match m, f with
  | Some e, Some d =>
      he_write_revision e <= he_write_revision d /\
      (he_write_revision e = he_write_revision d -> failure_le (failure_at d) (failure_at e))
  | Some e, None => he_write_revision e = 0
  | None, Some d => 0 < he_write_revision d
  | None, None => True
  end.

Record known (m f : Cache) : Prop := {
  kn_routes : forall route, known_entry (c_routes m !! route) (c_routes f !! route);
  kn_attempts : c_attempts m ⊆ c_attempts f;
  kn_scopes : forall key s, c_scopes m !! key = Some s -> exists s', c_scopes f !! key = Some s' /\ scope_le s s'
}.

Lemma known_refl c : known c c.
Proof.
  split; [|done|].
  - intros route. destruct (c_routes c !! route); cbn; [|done]. split; [lia|by intros _].
  - intros key s Hs. by exists s.
Qed.

Lemma known_follows m c d : known m c -> follows c d -> known m d.
Proof.
  intros [Rm Am Sm] [Rc Ac Sc]. split.
  - intros route. specialize (Rm route). specialize (Rc route).
    destruct (c_routes m !! route) as [e|], (c_routes c !! route) as [e1|], (c_routes d !! route) as [e2|];
      cbn in *; try done.
    + destruct Rc as [->|[? _]]; [done|]. split; [lia|lia].
    + split; lia.
    + destruct Rc as [->|[? _]]; [done|lia].
  - by etransitivity.
  - intros key s Hs. destruct (Sm key s Hs) as (s1 & Hs1 & Hle). specialize (Sc key). rewrite Hs1 in Sc.
    destruct (c_scopes d !! key) as [s2|]; [|done]. exists s2. split; [done|]. by etransitivity.
Qed.

Lemma known_evolves m m' c : known m c -> evolves (c_routes m) (c_routes m') ->
  c_attempts m' = c_attempts m -> c_scopes m' = c_scopes m -> known m' c.
Proof.
  intros [Rm Am Sm] Hev Ha Hs. split; [|by rewrite Ha|by rewrite Hs].
  intros route. specialize (Rm route). specialize (Hev route).
  destruct (c_routes m !! route) as [e|], (c_routes m' !! route) as [e'|], (c_routes c !! route) as [d|];
    cbn in *; try done.
  - destruct Rm as [? Hf], Hev as [-> Hle]. split; [done|]. intros E. etransitivity; [by apply Hf|done].
  - destruct Hev as [E _]. congruence.
  - split; lia.
Qed.

Section steps.
Context (fresh_us : Z).

(** Operations on memory leave the dispatch records alone. *)
Lemma local_step_keeps c c' : local_step fresh_us c c' ->
  evolves (c_routes c) (c_routes c') /\ c_attempts c' = c_attempts c /\ c_scopes c' = c_scopes c.
Proof.
  assert (forall cfg provider pool c key b c1,
    bucket_for cfg provider pool c = Ok (key, b, c1) ->
    c_routes c1 = c_routes c /\ c_attempts c1 = c_attempts c /\ c_scopes c1 = c_scopes c) as Hb.
  { intros cfg provider pool c0 key b c1 H. unfold bucket_for in H. inv_ok. case_match; [by simplify_eq|].
    inv_ok. by simplify_eq. }
  intros [? rs H|? key cd|? key|? cursor|?|? cfg provider now pool ids granted ? H|? cfg provider until pool u ? H];
    cbn; [split_and!; [by eapply recording_evolves|done|done]|done..| |].
  - unfold consume_bucket in H. inv_ok. destruct x as [[key b] c1].
    inv_ok. case_match. simplify_eq. cbn. select (bucket_for _ _ _ _ = _) (fun H => apply Hb in H as (-> & -> & ->)). done.
  - unfold zero_bucket in H. inv_ok. destruct x as [[key b] c1]. inv_ok. simplify_eq. cbn.
    select (bucket_for _ _ _ _ = _) (fun H => apply Hb in H as (-> & -> & ->)). done.
Qed.

Lemma local_steps_keep c c' : rtc (local_step fresh_us) c c' ->
  evolves (c_routes c) (c_routes c') /\ c_attempts c' = c_attempts c /\ c_scopes c' = c_scopes c.
Proof.
  induction 1 as [c|c1 c2 c3 Hs _ (Hev & -> & ->)]; [done|].
  apply local_step_keeps in Hs as (? & -> & ->). split_and!; [|done|done]. by etransitivity.
Qed.

(** A locked write moves every entry it changes to its next revision. *)
Lemma merge_and_save_ok {A} (f : Cache -> result health_exn (A * Cache)) c a d :
  merge_and_save f c = Ok (a, d) -> exists c1, f c = Ok (a, c1) /\
    c_attempts d = c_attempts c1 /\ c_scopes d = c_scopes c1 /\ c_buckets d = c_buckets c1 /\
    (evolves (c_routes c) (c_routes c1) -> forall route, entry_follows (c_routes c !! route) (c_routes d !! route)).
Proof.
  unfold merge_and_save. intros H. inv_ok. destruct x as [a' c1]. simplify_eq. exists c1. split_and!; try done.
  intros Hev route. cbn. rewrite map_lookup_imap. specialize (Hev route).
  destruct (c_routes c !! route) as [e|], (c_routes c1 !! route) as [e'|]; cbn in *; try done.
  - unfold next_revision. case_bool_decide as Heq; [left; congruence|]. right. cbn.
    destruct Hev as [_ Hf]. split; [lia|done].
Qed.

Lemma follows_dispatch c d : (forall route, entry_follows (c_routes c !! route) (c_routes d !! route)) ->
  c_attempts d = c_attempts c -> c_scopes d = c_scopes c -> follows c d.
Proof.
  intros Hr Ha Hs. split; [done|by rewrite Ha|]. intros key. rewrite Hs.
  destruct (c_scopes c !! key); cbn; [reflexivity|done].
Qed.

Lemma revocation_follows scope route event revision observed c epoch d :
  merge_and_save (revocation_mutation scope route event revision observed) c = Ok (epoch, d) ->
  follows c d.
Proof.
  intros (c1 & H & Ha & Hs & _ & Hr)%merge_and_save_ok. unfold revocation_mutation in H.
  destruct (ss_revocations _ !! event) as [old|] eqn:E; simplify_eq.
  - by apply follows_dispatch; [apply Hr|..].
  - split; [by apply Hr|by rewrite Ha|]. intros key. rewrite Hs. cbn.
    destruct (decide (key = to_key scope)) as [->|Hne].
    + rewrite lookup_insert_eq. destruct (c_scopes c !! to_key scope) as [s|] eqn:Es; cbn; [|lia].
      unfold scope_le. cbn. split_and!; [lia|lia|]. intros ev Hev. rewrite lookup_insert. by case_decide.
    + rewrite lookup_insert_ne by done. destruct (c_scopes c !! key); cbn; [reflexivity|done].
Qed.

Lemma commit_follows scope route attempt digest epoch due qualified current uid c permit d :
  merge_and_save (commit_mutation scope route attempt digest epoch due qualified current uid) c = Ok (permit, d) ->
  follows c d.
Proof.
  intros (c1 & H & Ha & Hs & _ & Hr)%merge_and_save_ok. unfold commit_mutation in H.
  case_match; [simplify_eq; by apply follows_dispatch; [apply Hr|..]|].
  case_match; [simplify_eq; by apply follows_dispatch; [apply Hr|..]|].
  destruct (c_attempts c !! attempt) eqn:E; simplify_eq; [by apply follows_dispatch; [apply Hr|..]|].
  split; [by apply Hr| |].
  - rewrite Ha. cbn. by apply insert_subseteq.
  - intros key. rewrite Hs. cbn. destruct (c_scopes c !! key); cbn; [reflexivity|done].
Qed.

Lemma locked_step_follows c d : locked_step fresh_us c d -> follows c d.
Proof.
  assert (forall A (f : Cache -> result health_exn (A * Cache)) c a d c1, merge_and_save f c = Ok (a, d) ->
    (forall c0, f c = Ok (a, c0) -> c0 = c1) ->
    evolves (c_routes c) (c_routes c1) -> c_attempts c1 = c_attempts c -> c_scopes c1 = c_scopes c -> follows c d) as Hm.
  { intros A f cx a d0 c1 (c2 & Hf & Ha & Hs & _ & Hr)%merge_and_save_ok H1 Hev Ea Es.
    specialize (H1 _ Hf) as ->. apply follows_dispatch; [by apply Hr|congruence|congruence]. }
  assert (forall cfg provider pool c key b c1,
    bucket_for cfg provider pool c = Ok (key, b, c1) ->
    c_routes c1 = c_routes c /\ c_attempts c1 = c_attempts c /\ c_scopes c1 = c_scopes c) as Hb.
  { intros cfg provider pool cx key b c1 H. unfold bucket_for in H. inv_ok. case_match; [by simplify_eq|].
    inv_ok. by simplify_eq. }
  intros [? c' ? Hl H|? rs now u ? Hrs H|? route u ? H|? cfg provider now pool ids handle r ? H|? h unused u ? H
    |? scope route event revision observed epoch ? H|? scope route attempt digest epoch deadline qualified now uid permit ? H].
  - apply local_steps_keep in Hl as (Hev & Ha & Hs). eapply Hm; [exact H|by intros ? [= <-]|done..].
  - unfold request_rescreen in H. destruct rs; [done|]. inv_ok.
    select (merge_and_save _ _ = _) (fun H => eapply Hm; [exact H|by intros ? [= <-]|..]); done.
  - unfold complete_rescreen in H. eapply Hm; [exact H|by intros ? [= <-]|..]; done.
  - unfold reserve_bucket in H. pose proof H as (c1 & Hf & _)%merge_and_save_ok.
    eapply (Hm _ _ _ _ _ c1); [exact H|intros c2 E; congruence|..]; unfold reserve_mutation in Hf; inv_ok;
      destruct x as [[key b] c2]; inv_ok; case_match; simplify_eq; cbn;
      select (bucket_for _ _ _ _ = _) (fun H => apply Hb in H as (E1 & E2 & E3)); rewrite ?E1, ?E2, ?E3; done.
  - unfold release_bucket in H. inv_ok. select (merge_and_save _ _ = _) (fun H => rename H into Hs).
    pose proof Hs as (c1 & Hf & _)%merge_and_save_ok.
    eapply (Hm _ _ _ _ _ c1); [exact Hs|intros c2 E; congruence|..]; unfold release_mutation in Hf;
      case_match; simplify_eq; done.
  - unfold record_revocation in H. inv_ok. by eapply revocation_follows.
  - unfold commit_dispatch in H. inv_ok. case_match; [done|]. case_match; [done|]. inv_ok. case_match; [done|].
    inv_ok. case_match. simplify_eq. by eapply commit_follows.
Qed.

(** Saving what an object knows of the file follows the file. *)
Lemma merge_follows m f : known m f -> follows f (merge_in_memory_over_disk m f).
Proof.
  intros [Rm Am Sm]. unfold merge_in_memory_over_disk. cbn. split; cbn.
  - intros route. rewrite lookup_merge. specialize (Rm route).
    destruct (c_routes m !! route) as [e|], (c_routes f !! route) as [d|]; cbn in *; try done; [|by left].
    destruct (_ && _) eqn:Hc; [|by left]. right. bool_hyps. cbn. split; [lia|]. apply Rm. lia.
  - by apply map_union_subseteq_l.
  - intros key. rewrite lookup_union_with. specialize (Sm key).
    destruct (c_scopes m !! key) as [s|].
    + destruct (Sm s eq_refl) as (s' & -> & ? & ? & Hr). cbn. unfold scope_le. cbn. split_and!; [lia|lia|].
      intros event [r Hev]. exists r. by apply lookup_union_Some_l.
    + destruct (c_scopes f !! key); cbn; [reflexivity|done].
Qed.

(** Rereading the file keeps an object informed. *)
Lemma reload_known m l f : known m f -> known (reload m l f) f.
Proof.
  intros Hk. unfold reload. case_bool_decide; [apply known_refl|]. destruct Hk as [Rm Am Sm]. cbn. split; cbn.
  - intros route. rewrite lookup_union_with. specialize (Rm route).
    destruct (changed (c_routes m) (c_routes l) !! route) as [e|] eqn:E.
    + unfold changed in E. apply map_lookup_filter_Some in E as [E _]. rewrite E in Rm.
      destruct (c_routes f !! route) as [d|]; cbn in *; [|done]. case_match; [done|]. split; [lia|by intros _].
    + destruct (c_routes f !! route) as [d|]; cbn; [|done]. split; [lia|by intros _].
  - apply map_union_least; done.
  - intros key s Hs. rewrite lookup_union_with in Hs. specialize (Sm key).
    destruct (c_scopes m !! key) as [sm|].
    + destruct (Sm sm eq_refl) as (s' & Hs' & He & Hq & Hr). rewrite Hs' in Hs. cbn in Hs. simplify_eq.
      exists s'. split; [done|]. unfold scope_le. cbn. split_and!; [lia|lia|].
      intros event [r Hev]. apply lookup_union_Some_raw in Hev as [Hev|[_ Hev]]; eauto.
    + destruct (c_scopes f !! key) as [s'|]; cbn in Hs; simplify_eq. by exists s.
Qed.

(** * Histories *)

Definition informed (s : System) : Prop :=
  forall p o, sys_processes s !! p = Some o -> known (p_memory o) (sys_file s).

Lemma informed_insert f ps p o : known (p_memory o) f ->
  (forall q o, ps !! q = Some o -> known (p_memory o) f) ->
  informed {| sys_file := f; sys_processes := <[p := o]> ps |}.
Proof. intros Ho Hps q o' Hq. cbn in *. apply lookup_insert_Some in Hq as [[<- <-]|[_ Hq]]; eauto. Qed.

Lemma system_step_follows s s' : informed s -> system_step fresh_us s s' ->
  informed s' /\ follows (sys_file s) (sys_file s').
Proof.
  intros Hi Hs. revert Hi.
  destruct Hs as [s p|s p o c Hp Hl|s p o Hp|s p o Hp c|s p o c Hp Hl|s p]; intros Hi; cbn.
  - split; [|done]. apply informed_insert; [apply known_refl|exact Hi].
  - split; [|done]. apply informed_insert; [|exact Hi]. cbn.
    apply local_step_keeps in Hl as (? & ? & ?). eapply known_evolves; [by eapply Hi|done..].
  - split; [|done]. apply informed_insert; [|exact Hi]. cbn. apply reload_known. by eapply Hi.
  - assert (follows (sys_file s) c) as Hf by (apply merge_follows; by eapply Hi).
    split; [|done]. apply informed_insert; [apply known_refl|]. intros q o' Hq.
    eapply known_follows; [by eapply Hi|done].
  - assert (follows (sys_file s) c) as Hf by by apply locked_step_follows.
    split; [|done]. apply informed_insert; [apply known_refl|]. intros q o' Hq.
    eapply known_follows; [by eapply Hi|done].
  - split; [|done]. intros q o Hq. cbn in *. apply lookup_delete_Some in Hq as [_ Hq]. by eapply Hi.
Qed.

Lemma steps_follow s s' : informed s -> rtc (system_step fresh_us) s s' ->
  informed s' /\ follows (sys_file s) (sys_file s').
Proof.
  intros Hi H. revert Hi. induction H as [s|s1 s2 s3 Hs _ IH]; intros Hi; [done|].
  apply system_step_follows in Hs as [Hi2 Hf]; [|done]. destruct (IH Hi2) as [? Hf2].
  split; [done|]. by etransitivity.
Qed.

(** The permits and revocations of the file survive every write, also one by an object that
    holds what a failed write left in its memory. *)
Definition file_keeps (c d : Cache) : Prop :=
  c_attempts c ⊆ c_attempts d /\
  forall key s, c_scopes c !! key = Some s -> exists s', c_scopes d !! key = Some s' /\ scope_le s s'.

#[export] Instance file_keeps_preorder : PreOrder file_keeps.
Proof.
  split.
  - intros c. split; [done|]. intros key s Hs. by exists s.
  - intros c1 c2 c3 [A12 S12] [A23 S23]. split; [by etransitivity|]. intros key s1 H1.
    destruct (S12 key s1 H1) as (s2 & H2 & L12). destruct (S23 key s2 H2) as (s3 & H3 & L23).
    exists s3. split; [done|]. by etransitivity.
Qed.

Lemma follows_keeps c d : follows c d -> file_keeps c d.
Proof.
  intros [_ Ha Hs]. split; [done|]. intros key s Hk. specialize (Hs key). rewrite Hk in Hs.
  destruct (c_scopes d !! key) as [s'|]; [by exists s'|done].
Qed.

Lemma saving_keeps m f : file_keeps f (merge_in_memory_over_disk m f).
Proof.
  unfold merge_in_memory_over_disk. split; cbn; [by apply map_union_subseteq_l|].
  intros key s Hs. rewrite lookup_union_with, Hs. destruct (c_scopes m !! key) as [sm|]; cbn.
  - eexists. split; [done|]. unfold scope_le. cbn. split_and!; [lia|lia|].
    intros event [r Hev]. exists r. by apply lookup_union_Some_l.
  - by exists s.
Qed.

Lemma faulty_step_keeps s s' : faulty_step fresh_us s s' -> file_keeps (sys_file s) (sys_file s').
Proof.
  intros [? ? []|? ? ? [] ?|? ? ? ? [] ? ?]; cbn; try done; try apply saving_keeps;
    by apply follows_keeps, locked_step_follows.
Qed.

Lemma faulty_steps_keep s s' : rtc (faulty_step fresh_us) s s' -> file_keeps (sys_file s) (sys_file s').
Proof.
  induction 1 as [s|s1 s2 s3 Hs _ IH]; [done|]. apply faulty_step_keeps in Hs. by etransitivity.
Qed.

Lemma reachable_informed c s : reachable fresh_us c s -> informed s.
Proof.
  intros H. apply (steps_follow (opened c)); [|done]. intros p o Hp. cbn in Hp. by rewrite lookup_empty in Hp.
Qed.
End steps.

(** * Dispatch permits *)

(** The conditions under which an attempt is authorized against the file, at an instant *)
Record authorized (c : Cache) (scope : DispatchScope) (route_id attempt_id : string) (epoch due qualified now : Z)
    : Prop := {
  au_proof : qualified <= now < due;
  au_validity : due <= now + PERMIT_PROOF_MAX_VALIDITY_US;
  au_route : forall e, c_routes c !! route_id = Some e ->
    (he_healthy e = true \/ he_until e <= now) /\ forall t, failure_at e = Some t -> t < qualified;
  au_epoch : epoch = revocation_epoch c scope;
  au_attempt : c_attempts c !! attempt_id = None
}.

(** The arguments that [commit_dispatch] accepts *)
Record acceptable (route_id attempt_id : string) (epoch : Z) (deadline qualified now : datetime) : Prop := {
  ac_route : strip route_id <> "";
  ac_attempt : strip attempt_id <> "";
  ac_epoch : 0 <= epoch;
  ac_aware : is_Some (dt_off deadline) /\ is_Some (dt_off qualified) /\ is_Some (dt_off now);
  ac_years : in_years (instant deadline) = true /\ in_years (instant qualified) = true /\
             in_years (instant now) = true /\ in_years (instant now + PERMIT_PROOF_MAX_VALIDITY_US) = true
}.

Definition minted (scope : DispatchScope) (route_id attempt_id : string) (epoch due : Z) (uid : string)
    : DispatchPermit :=
  {| dp_permit_id := uid; dp_attempt_id := attempt_id; dp_route_id := route_id; dp_scope := scope;
     dp_epoch := epoch; dp_not_after := due |}.

Lemma commit_mutation_spec scope route attempt digest epoch due qualified current uid c permit c' :
  commit_mutation scope route attempt digest epoch due qualified current uid c = Ok (permit, c') ->
  qualified <= current < due -> due <= current + PERMIT_PROOF_MAX_VALIDITY_US ->
  (permit = None /\ c' = c /\ ~ authorized c scope route attempt epoch due qualified current) \/
  (permit = Some (minted scope route attempt epoch due uid) /\
   c_attempts c' = <[attempt := {| da_permit := minted scope route attempt epoch due uid;
                                   da_committed_at := current; da_authorization_digest := digest |}]> (c_attempts c) /\
   authorized c scope route attempt epoch due qualified current).
Proof.
  unfold commit_mutation. intros H Hq Hv. case_match eqn:Hr.
  { left. simplify_eq. split_and!; try done. intros [_ _ Ha _ _].
    destruct (c_routes c' !! route) as [e|]; [|done]. destruct (Ha e eq_refl) as [Hh Hf].
    apply orb_true_iff in Hr as [Hr|Hr].
    - bool_hyps. destruct Hh; [congruence|lia].
    - destruct (failure_at e) as [t|]; [|done]. specialize (Hf t eq_refl). lia. }
  case_match eqn:He.
  { left. simplify_eq. split_and!; try done. intros [_ _ _ Ha _]. apply negb_true_iff, Z.eqb_neq in He. done. }
  destruct (c_attempts c !! attempt) as [a|] eqn:Ea; simplify_eq.
  - left. split_and!; try done. intros [_ _ _ _ Ha]. congruence.
  - right. split_and!; try done. apply negb_false_iff, Z.eqb_eq in He. split; try done.
    intros e He'. rewrite He' in Hr. apply orb_false_iff in Hr as [Hh Hf]. split.
    + destruct (he_healthy e); [by left|]. cbn in Hh. right. lia.
    + intros t Ht. rewrite Ht in Hf. lia.
Qed.

Lemma commit_mutation_total scope route attempt digest epoch due qualified current uid c :
  exists r, commit_mutation scope route attempt digest epoch due qualified current uid c = Ok r.
Proof. unfold commit_mutation. repeat case_match; eauto. Qed.

Lemma commit_spec scope route attempt digest epoch deadline qualified now uid c permit d :
  commit_dispatch scope route attempt digest epoch deadline qualified now uid c = Ok (permit, d) ->
  (permit = None /\ ~ authorized c scope route attempt epoch (instant deadline) (instant qualified) (instant now)) \/
  (permit = Some (minted scope route attempt epoch (instant deadline) uid) /\
   authorized c scope route attempt epoch (instant deadline) (instant qualified) (instant now) /\
   exists c', d = Some c' /\ c_attempts c' = <[attempt := {| da_permit := minted scope route attempt epoch (instant deadline) uid;
     da_committed_at := instant now; da_authorization_digest := digest |}]> (c_attempts c)).
Proof.
  unfold commit_dispatch. intros H. inv_ok.
  repeat select (aware _ _ = _) (fun H => apply aware_ok in H as (-> & _)).
  case_match eqn:E1.
  { simplify_eq. left. split; [done|]. intros [? _ _ _ _]. lia. }
  case_match eqn:E2.
  { simplify_eq. left. split; [done|]. intros [? _ _ _ _]. lia. }
  inv_ok. select (shift _ _ = _) (fun H => apply shift_ok in H as [-> _]).
  case_match eqn:E3.
  { simplify_eq. left. split; [done|]. intros [_ ? _ _ _]. lia. }
  inv_ok. case_match. simplify_eq.
  select (merge_and_save _ _ = _) (fun H => apply merge_and_save_ok in H as (c1 & Hm & Ha & _)).
  apply commit_mutation_spec in Hm as [(-> & -> & ?)|(-> & Hatt & ?)]; [left; done|right|lia|lia].
  split_and!; [done..|]. eexists. split; [done|]. by rewrite Ha.
Qed.

(** C20: A permit is minted exactly when the proof is authorized: qualified no later than now, not
    yet past its deadline, which is at most ten minutes away, no active failure of the route and
    none at or after the qualification, the captured epoch still current, and the attempt unused.
    Otherwise there is no permit; the arguments that are accepted never raise. *)
Theorem commit_exact scope route attempt digest epoch (deadline qualified now : datetime) uid (c : Cache)
    (Hac : acceptable route attempt epoch deadline qualified now) :
  exists permit d,
    commit_dispatch scope route attempt digest epoch deadline qualified now uid c = Ok (permit, d) /\
    (permit = Some (minted scope route attempt epoch (instant deadline) uid) <->
     authorized c scope route attempt epoch (instant deadline) (instant qualified) (instant now)) /\
    (permit = None <->
     ~ authorized c scope route attempt epoch (instant deadline) (instant qualified) (instant now)).
Proof.
  destruct (commit_dispatch scope route attempt digest epoch deadline qualified now uid c) as [[permit d]|x] eqn:E.
  - exists permit, d. split; [done|]. apply commit_spec in E as [[-> ?]|(-> & ? & _)]; split; split; first [done|intros; tauto|intros; congruence].
  - exfalso. destruct Hac as [Hr Ha He (Hd & Hq & Hn) (Yd & Yq & Yn & Yl)]. revert E. unfold commit_dispatch.
    apply String.eqb_neq in Hr as ->. apply String.eqb_neq in Ha as ->. rewrite (proj2 (Z.ltb_ge _ _) He). cbn.
    rewrite (proj2 (aware_ok "now" now (instant now))) by done. cbn.
    rewrite (proj2 (aware_ok "proof_deadline" deadline (instant deadline))) by done. cbn.
    rewrite (proj2 (aware_ok "qualified_at" qualified (instant qualified))) by done. cbn.
    case_match; [done|]. case_match; [done|].
    rewrite (proj2 (shift_ok (instant now) _ _) (conj eq_refl Yl)). cbn. case_match; [done|].
    unfold merge_and_save.
    destruct (commit_mutation_total scope route attempt digest epoch (instant deadline) (instant qualified)
                (instant now) uid c) as [[q c'] ->]. by cbn.
Qed.

(** What recording a revocation does to the file. *)
Lemma revocation_spec scope route event revision observed c epoch c' :
  record_revocation scope route event revision observed c = Ok (epoch, c') ->
  exists st', c_scopes c' !! to_key scope = Some st' /\ epoch = ss_epoch st' /\
    is_Some (ss_revocations st' !! event) /\
    (forall st, c_scopes c !! to_key scope = Some st -> is_Some (ss_revocations st !! event) -> epoch = ss_epoch st) /\
    ((forall st, c_scopes c !! to_key scope = Some st -> ss_revocations st !! event = None) ->
       revocation_epoch c scope < epoch).
Proof.
  unfold record_revocation. intros H. inv_ok.
  select (merge_and_save _ _ = _) (fun H => apply merge_and_save_ok in H as (c1 & Hm & _ & Hs & _)).
  rewrite Hs. unfold revocation_mutation, revocation_epoch in *.
  destruct (c_scopes c !! to_key scope) as [st|] eqn:E; cbn in Hm.
  - destruct (ss_revocations st !! event) as [old|] eqn:Ev; simplify_eq; cbn.
    + exists st. split; [done|]. split; [done|]. split; [by rewrite Ev|]. split; [by intros ? [= <-]|].
      intros Hn. specialize (Hn st eq_refl). congruence.
    + rewrite lookup_insert_eq. eexists. split; [done|]. cbn. rewrite lookup_insert_eq.
      split_and!; [done|done| |lia]. intros ? [= <-] [? ?]. congruence.
  - rewrite lookup_empty in Hm. simplify_eq. cbn. rewrite lookup_insert_eq. eexists. split; [done|]. cbn.
    rewrite lookup_insert_eq. split_and!; done || lia.
Qed.

Section permits.
Context (fresh_us : Z).

(** C17: An attempt gets one permit, ever: once a process has committed an attempt, no process gets
    a second permit for it, whatever the processes do in between (save, reload, die, commit
    other attempts, go on after a write that raised), whatever they know, and whatever scope,
    route, proof and time they commit it with; and the file keeps the permit. *)
Theorem permit_once scope route attempt digest epoch deadline qualified now uid (c' : Cache)
    (s s1 s2 : System) (p : nat) (permit : DispatchPermit)
    (Hc : commit_dispatch scope route attempt digest epoch deadline qualified now uid (sys_file s)
          = Ok (Some permit, Some c'))
    (Hs1 : s1 = {| sys_file := c'; sys_processes := <[p := in_step c']> (sys_processes s) |})
    (Hs2 : rtc (faulty_step fresh_us) s1 s2) :
  permit_for_attempt (sys_file s2) attempt = Some permit /\
  forall scope' route' digest' epoch' deadline' qualified' now' uid' q d,
    commit_dispatch scope' route' attempt digest' epoch' deadline' qualified' now' uid' (sys_file s2) = Ok (q, d) ->
    q = None.
Proof.
  apply faulty_steps_keep in Hs2 as [Hf _].
  apply commit_spec in Hc as [[? _]|(Hm & _ & c1 & Hc1 & Ha)]; [done|]. simplify_eq. cbn in Hf.
  assert (c_attempts (sys_file s2) !! attempt = Some {| da_permit := minted scope route attempt epoch (instant deadline) uid;
    da_committed_at := instant now; da_authorization_digest := digest |}) as Hat.
  { eapply lookup_weaken; [|exact Hf]. by rewrite Ha, lookup_insert_eq. }
  split.
  - unfold permit_for_attempt. by rewrite Hat.
  - intros scope' route' digest' epoch' deadline' qualified' now' uid' q d Hq.
    apply commit_spec in Hq as [[-> _]|(_ & [_ _ _ _ Hn] & _)]; [done|congruence].
Qed.

(** C18: Recovery never resurrects a proof, as long as no write of the file raises: once the file
    holds a failure of a route, a proof qualified at or before it gets no permit in any later
    state of the processes, which open, record, reload, save and die as they like; no process
    can make the file forget that failure by saving an older view or by recording a success.
    After a write that raised, a process can ([failed_write_forgets_failure]). *)
Theorem failure_is_final (start : Cache) (s s2 : System) (Hs : reachable fresh_us start s)
    (Hs2 : rtc (system_step fresh_us) s s2) (route : string) (e : HealthEntry) (t : Z)
    (He : c_routes (sys_file s) !! route = Some e) (Ht : failure_at e = Some t)
    scope attempt digest epoch deadline qualified now uid q d (Hq : instant qualified <= t)
    (Hc : commit_dispatch scope route attempt digest epoch deadline qualified now uid (sys_file s2) = Ok (q, d)) :
  q = None.
Proof.
  pose proof (steps_follow fresh_us s s2 (reachable_informed _ _ _ Hs) Hs2) as [_ [Hf _ _]].
  apply commit_spec in Hc as [[-> _]|(_ & [_ _ Hr _ _] & _)]; [done|exfalso].
  specialize (Hf route). rewrite He in Hf. destruct (c_routes (sys_file s2) !! route) as [e2|] eqn:E2; [|done].
  destruct (Hr e2 eq_refl) as [_ Hlt].
  assert (failure_le (Some t) (failure_at e2)) as Hle.
  { rewrite <- Ht. cbn in Hf. by destruct Hf as [->|[_ ?]]. }
  destruct (failure_at e2) as [u|]; [|done]. cbn in Hle. specialize (Hlt u eq_refl). lia.
Qed.

(** C19: A revocation is final: once a new negative of a scope is recorded, the epoch of that scope
    has grown and never falls again, so that a proof captured before it gets no permit in any
    later state of the processes, also after writes that raised; recording the same event again
    changes no epoch. *)
Theorem revocation_is_final (s s1 s2 : System) (p : nat) (c' : Cache)
    scope route event revision observed epoch
    (Hr : record_revocation scope route event revision observed (sys_file s) = Ok (epoch, c'))
    (Hs1 : s1 = {| sys_file := c'; sys_processes := <[p := in_step c']> (sys_processes s) |})
    (Hs2 : rtc (faulty_step fresh_us) s1 s2) :
  revocation_epoch c' scope = epoch /\ epoch <= revocation_epoch (sys_file s2) scope /\
  (forall st, c_scopes (sys_file s) !! to_key scope = Some st -> is_Some (ss_revocations st !! event) ->
     epoch = ss_epoch st) /\
  ((forall st, c_scopes (sys_file s) !! to_key scope = Some st -> ss_revocations st !! event = None) ->
     revocation_epoch (sys_file s) scope < epoch) /\
  (forall route' attempt digest old deadline qualified now uid q d, old < epoch ->
     commit_dispatch scope route' attempt digest old deadline qualified now uid (sys_file s2) = Ok (q, d) ->
     q = None) /\
  (forall route' revision' observed' epoch' c2,
     record_revocation scope route' event revision' observed' (sys_file s2) = Ok (epoch', c2) ->
     epoch' = revocation_epoch (sys_file s2) scope).
Proof.
  apply faulty_steps_keep in Hs2 as [_ Hf]. subst s1. cbn in Hf. specialize (Hf (to_key scope)).
  apply revocation_spec in Hr as (st' & Hst' & Hep & Hev & Hold & Hnew).
  destruct (Hf st' Hst') as (st2 & E2 & Hle & _ & Hrev).
  assert (revocation_epoch (sys_file s2) scope = ss_epoch st2) as He2 by (unfold revocation_epoch; by rewrite E2).
  split_and!; try done.
  - unfold revocation_epoch. by rewrite Hst'.
  - lia.
  - intros route' attempt digest old deadline qualified now uid q d Hlt Hq.
    apply commit_spec in Hq as [[-> _]|(_ & [_ _ _ Hepoch _] & _)]; [done|lia].
  - intros route' revision' observed' epoch' c2 Hr2.
    apply revocation_spec in Hr2 as (_ & _ & _ & _ & Hold2 & _). rewrite He2. by apply Hold2; [|apply Hrev].
Qed.
End permits.

(** * Where the code departs from its comments *)

(** Clearing a scoped cooldown does not survive saving: the file still holds the cooldown, and
    the merge of [save] brings it back into memory and file, however long ago the scope recovered. *)
Theorem cleared_cooldown_returns (m f : Cache) (key : string) (cd : StoredCooldown)
    (H : c_cooldowns f !! key = Some cd) :
  c_cooldowns (clear_cooldown key m) !! key = None /\
  c_cooldowns (merge_in_memory_over_disk (clear_cooldown key m) f) !! key = Some cd.
Proof.
  unfold clear_cooldown, with_cooldowns. cbn. rewrite lookup_delete_eq. split; [done|].
  unfold merge_cooldowns. rewrite lookup_union_with, lookup_delete_eq, H. done.
Qed.

(** A session that only passed denies dispatch: on a route without an entry the recorded pass
    is an unhealthy entry of that time, so that a proof qualified up to then gets no permit. *)
Theorem session_pass_denies (c c1 c2 : Cache) (rs : routes) (route : string) (at_ : datetime) (source : string)
    (child : option string) (Hc : c_routes c !! route = None)
    (Hr : record_agentic_evidence route true at_ source child (c_routes c) = Ok (true, rs))
    (Hs : merge_and_save (fun c => Ok (tt, with_routes c rs)) c = Ok (tt, c1))
    scope attempt digest epoch deadline qualified now uid q (Hq : instant qualified <= instant at_)
    (Hd : commit_dispatch scope route attempt digest epoch deadline qualified now uid c1 = Ok (q, Some c2)) :
  q = None.
Proof.
  apply commit_spec in Hd as [[-> _]|(_ & [_ _ Ha _ _] & _)]; [done|exfalso].
  unfold record_agentic_evidence in Hr. inv_ok. rewrite Hc in *. cbn in *. inv_ok. simplify_eq.
  select (aware _ _ = _) (fun H => apply aware_ok in H as (-> & _)).
  revert Ha. cbn. rewrite map_lookup_imap, lookup_insert_eq. cbn. rewrite Hc. cbn.
  intros Ha. destruct (Ha _ eq_refl) as [_ Hf]. specialize (Hf (instant at_)). cbn in Hf. specialize (Hf eq_refl). lia.
Qed.

(** * Concrete histories *)

Definition sample_scope : DispatchScope :=
  {| ds_gateway_origin := "https://gateway"; ds_config_generation := "1"; ds_profile_digest := "p"; ds_binding_id := "b" |}.

(** A file whose route [r] timed out and then answered. *)
Definition timed_out_file : Cache := with_routes empty_cache after_timeout.

Definition recovered_file : Cache :=
  match merge_and_save (fun c => Ok (tt, with_routes c after_recovery)) timed_out_file with
  | Ok (_, c) => c | Err _ => empty_cache end.

Definition commit_at (attempt : string) (epoch qualified now : Z) (c : Cache)
    : result health_exn (option DispatchPermit * option Cache) :=
  commit_dispatch sample_scope "r" attempt "digest" epoch (utc (now + 60 * us_per_second)) (utc qualified) (utc now)
    "permit" c.

Definition committed_file : Cache :=
  match commit_at "a" 0 6 8 recovered_file with Ok (_, Some c) => c | _ => empty_cache end.

Definition revoked_file : Cache :=
  match record_revocation sample_scope "r" "event" None (utc 9) committed_file with
  | Ok (_, c) => c | Err _ => empty_cache end.

(** One process that has the file open *)
Definition one_process (c : Cache) : System := {| sys_file := c; sys_processes := {[0%nat := in_step c]} |}.

Lemma one_process_reachable fresh_us c : reachable fresh_us c (one_process c).
Proof. apply rtc_once. exact (step_open fresh_us (opened c) 0). Qed.

Lemma one_process_writes fresh_us c d : locked_step fresh_us c d -> rtc (system_step fresh_us) (one_process c) (one_process d).
Proof.
  intros H. apply rtc_once. unfold one_process. rewrite <- (insert_singleton_eq 0%nat (in_step c) (in_step d)).
  by eapply (step_locked fresh_us (one_process c) 0).
Qed.

(** A write that raises makes a failure forgettable: process 0 records that route [r] answered
    and its [save] raises before the file is replaced, which leaves the entry in its memory at
    the revision it would have written; process 1 records that [r] timed out earlier, at the
    same revision; when process 0 saves again, its entry replaces that failure, and a proof as
    old as the failure gets a permit. *)
Definition answered_file : Cache :=
  with_routes empty_cache match record six_hours_us "r" answered (utc 7) ∅ with Ok (_, rs) => rs | Err _ => ∅ end.

Definition failed_file : Cache :=
  match merge_and_save (fun c => Ok (tt, timed_out_file)) empty_cache with Ok (_, c) => c | Err _ => empty_cache end.

Definition retried_file : Cache :=
  merge_in_memory_over_disk (merge_in_memory_over_disk answered_file empty_cache) failed_file.

Theorem failed_write_forgets_failure :
  exists s s2 e permit d,
    rtc (faulty_step six_hours_us) (opened empty_cache) s /\ rtc (faulty_step six_hours_us) s s2 /\
    c_routes (sys_file s) !! "r" = Some e /\ failure_at e = Some 5 /\
    commit_at "a" 0 5 8 (sys_file s2) = Ok (Some permit, d).
Proof.
  assert (recording six_hours_us ∅ (c_routes answered_file)) as Hok.
  { unfold answered_file. destruct (record _ _ _ _ _) as [[e rs]|x] eqn:E; [by eapply recorded_probe|].
    exfalso. revert E. vm_compute. discriminate. }
  assert (recording six_hours_us ∅ (c_routes timed_out_file)) as Hto.
  { unfold timed_out_file, after_timeout. destruct (record _ _ _ _ _) as [[e rs]|x] eqn:E; [by eapply recorded_probe|].
    exfalso. revert E. vm_compute. discriminate. }
  set (m := merge_in_memory_over_disk answered_file empty_cache).
  pose (s := {| sys_file := failed_file;
                sys_processes := <[1%nat := in_step failed_file]> (<[1%nat := in_step empty_cache]>
                  (<[0%nat := {| p_memory := m; p_loaded := empty_cache |}]>
                    (<[0%nat := {| p_memory := answered_file; p_loaded := empty_cache |}]>
                      (<[0%nat := in_step empty_cache]> ∅)))) |}).
  destruct (c_routes failed_file !! "r") as [e|] eqn:He; [|exfalso; revert He; vm_compute; discriminate].
  destruct (commit_at "a" 0 5 8 retried_file) as [[[permit|] d]|x] eqn:Ed; [|exfalso; revert Ed; vm_compute; discriminate..].
  exists s, {| sys_file := retried_file; sys_processes := <[0%nat := in_step retried_file]> (sys_processes s) |}, e, permit, d.
  split; [|split; [|split; [done|split; [|done]]]].
  - eapply rtc_l; [apply faulty_sound, (step_open _ _ 0)|].
    eapply rtc_l; [apply faulty_sound, (step_local _ _ 0 (in_step empty_cache) answered_file);
      [apply lookup_insert_eq|by apply (local_recording _ empty_cache)]|].
    eapply rtc_l; [apply (faulty_save _ _ 0 {| p_memory := answered_file; p_loaded := empty_cache |} false);
      apply lookup_insert_eq|].
    eapply rtc_l; [apply faulty_sound, (step_open _ _ 1)|]. apply rtc_once, faulty_sound.
    assert (locked_step six_hours_us empty_cache failed_file) as Hl.
    { eapply (locked_local _ empty_cache timed_out_file); [|reflexivity].
      by apply rtc_once, (local_recording _ empty_cache). }
    lazymatch goal with |- system_step _ ?x _ =>
      exact (step_locked six_hours_us x 1 (in_step empty_cache) failed_file (lookup_insert_eq _ _ _) Hl) end.
  - apply rtc_once, faulty_sound.
    apply (step_save _ s 0 {| p_memory := m; p_loaded := empty_cache |}). reflexivity.
  - revert He. vm_compute. by intros [= <-].
Qed.

Lemma commit_exact_witness :
  (exists d, commit_at "a" 0 6 8 recovered_file =
     Ok (Some (minted sample_scope "r" "a" 0 (8 + 60 * us_per_second) "permit"), d)) /\
  (exists d, commit_at "a" 0 5 8 recovered_file = Ok (None, d)).
Proof.
  assert (forall q, 0 <= q <= 8 -> acceptable "r" "a" 0 (utc (8 + 60 * us_per_second)) (utc q) (utc 8)) as Hac.
  { intros q Hq. split; [discriminate|discriminate|done|split_and!; by eexists|].
    split_and!; [by vm_compute|apply in_years_spec; replace (instant (utc q)) with q by (unfold instant; cbn; lia); change (3652059 * us_per_day) with 315537897600000000; lia|by vm_compute..]. }
  split.
  - destruct (commit_exact sample_scope "r" "a" "digest" 0 _ _ _ "permit" recovered_file (Hac 6 ltac:(lia)))
      as (q & d & Hd & [_ Hs] & _).
    exists d. unfold commit_at. rewrite Hd. do 2 f_equal. rewrite Hs; [done|]. split.
    + vm_compute. split; [discriminate|reflexivity].
    + vm_compute. discriminate.
    + intros e He. assert (he_healthy e = true /\ failure_at e = Some 5) as [Hh Hf].
      { revert He. vm_compute. intros [= <-]. done. }
      split; [by left|]. rewrite Hf. intros t [= <-]. vm_compute. reflexivity.
    + vm_compute. reflexivity.
    + vm_compute. reflexivity.
  - destruct (commit_exact sample_scope "r" "a" "digest" 0 _ _ _ "permit" recovered_file (Hac 5 ltac:(lia)))
      as (q & d & Hd & _ & [_ Hn]).
    exists d. unfold commit_at. rewrite Hd. do 2 f_equal. apply Hn. intros [_ _ Hr _ _].
    destruct (c_routes recovered_file !! "r") as [e|] eqn:He; [|revert He; vm_compute; discriminate].
    destruct (Hr e eq_refl) as [_ Hf]. specialize (Hf 5).
    assert (failure_at e = Some 5) as Hf5 by (revert He; vm_compute; by intros [= <-]).
    specialize (Hf Hf5). revert Hf. vm_compute. discriminate.
Defined.

Lemma permit_once_witness :
  exists permit, commit_at "a" 0 6 8 recovered_file = Ok (Some permit, Some committed_file) /\
    forall q d, commit_at "a" 1 10 11 revoked_file = Ok (q, d) -> q = None.
Proof.
  destruct (commit_at "a" 0 6 8 recovered_file) as [[[permit|] [c'|]]|x] eqn:E;
    [|exfalso; revert E; vm_compute; discriminate..].
  assert (c' = committed_file) as -> by (unfold committed_file; by rewrite E).
  exists permit. split; [done|].
  destruct (record_revocation sample_scope "r" "event" None (utc 9) committed_file) as [[n c2]|x] eqn:E2;
    [|exfalso; revert E2; vm_compute; discriminate].
  assert (c2 = revoked_file) as -> by (unfold revoked_file; by rewrite E2).
  destruct (permit_once six_hours_us _ _ _ _ _ _ _ _ _ committed_file
    (one_process recovered_file) (one_process committed_file) (one_process revoked_file) 0 permit E) as [_ H].
  - unfold one_process. cbn. by rewrite insert_singleton_eq.
  - eapply rtc_subrel; [|apply one_process_writes; by eapply locked_revocation]. apply faulty_sound.
  - intros q d. apply H.
Defined.

Lemma failure_is_final_witness :
  (exists e, c_routes recovered_file !! "r" = Some e /\ he_healthy e = true) /\
  forall q d, commit_at "a" 0 5 8 recovered_file = Ok (q, d) -> q = None.
Proof.
  split.
  { destruct (c_routes recovered_file !! "r") as [e|] eqn:He; [|exfalso; revert He; vm_compute; discriminate].
    exists e. split; [done|]. revert He. vm_compute. by intros [= <-]. }
  destruct (c_routes timed_out_file !! "r") as [e|] eqn:He; [|exfalso; revert He; vm_compute; discriminate].
  assert (failure_at e = Some 5) as Hf by (revert He; vm_compute; by intros [= <-]).
  assert (rtc (system_step six_hours_us) (one_process timed_out_file) (one_process recovered_file)) as Hs.
  { apply one_process_writes.
    assert (exists e, record six_hours_us "r" answered (utc 7) after_timeout = Ok (e, after_recovery)) as [e' Hr].
    { unfold after_recovery. destruct (record six_hours_us "r" answered (utc 7) after_timeout) as [[e' c']|x] eqn:E;
        [by eexists|exfalso; revert E; vm_compute; discriminate]. }
    apply (locked_local _ timed_out_file (with_routes timed_out_file after_recovery)).
    - apply rtc_once, local_recording. by eapply recorded_probe.
    - vm_compute. reflexivity. }
  intros q d H.
  refine (failure_is_final six_hours_us timed_out_file (one_process timed_out_file) (one_process recovered_file)
    (one_process_reachable _ _) Hs "r" e 5 He Hf _ _ _ _ _ _ _ _ _ _ _ H).
  vm_compute. discriminate.
Defined.

Lemma revocation_is_final_witness :
  revocation_epoch revoked_file sample_scope = 1 /\
  forall q d, commit_at "b" 0 10 11 revoked_file = Ok (q, d) -> q = None.
Proof.
  destruct (record_revocation sample_scope "r" "event" None (utc 9) committed_file) as [[n c2]|x] eqn:E2;
    [|exfalso; revert E2; vm_compute; discriminate].
  assert (c2 = revoked_file) as -> by (unfold revoked_file; by rewrite E2).
  assert (n = 1) as -> by (revert E2; vm_compute; congruence).
  destruct (revocation_is_final six_hours_us (one_process committed_file) (one_process revoked_file)
    (one_process revoked_file) 0 revoked_file _ _ _ _ _ 1 E2)
    as (He & _ & _ & _ & H & _).
  - unfold one_process. cbn. by rewrite insert_singleton_eq.
  - apply rtc_refl.
  - split; [exact He|]. intros q d. by apply H.
Defined.

Lemma cleared_cooldown_returns_witness :
  let cd := {| cd_category := "rate_limited"; cd_checked_at := 1; cd_until := 2; cd_canonical_category := None;
               cd_provider_id := None; cd_pool := None; cd_account_id := None |} in
  let f := record_cooldown "provider:p" cd empty_cache in
  c_cooldowns (merge_in_memory_over_disk (clear_cooldown "provider:p" f) f) !! "provider:p" = Some cd.
Proof. intros cd f. by apply (cleared_cooldown_returns f f "provider:p" cd). Defined.

Lemma session_pass_denies_witness :
  exists c1, merge_and_save (fun c => Ok (tt, with_routes c
      match record_agentic_evidence "r" true (utc 8) "ledger" None ∅ with Ok (_, rs) => rs | Err _ => ∅ end))
    empty_cache = Ok (tt, c1) /\
    forall q c2, commit_at "a" 0 8 9 c1 = Ok (q, Some c2) -> q = None.
Proof.
  destruct (record_agentic_evidence "r" true (utc 8) "ledger" None ∅) as [[v rs]|x] eqn:E;
    [|exfalso; revert E; vm_compute; discriminate].
  assert (v = true) as -> by (revert E; vm_compute; congruence).
  eexists. split; [reflexivity|]. intros q c2 H.
  eapply (session_pass_denies empty_cache _ c2 rs "r" (utc 8)); [done|exact E|reflexivity|..|exact H].
  vm_compute. discriminate.
Defined.
