(* ===== verification/Admit.v ===== *)
(** [verdict/admission.py]: how the admitted set is built. Live inventory, provider
    connections and normalized runtime evidence are judged route by route; the
    evidence is read from persisted state (negative observations only), quota rows and
    subscription snapshots ([verdict/subscription_headroom.py]), and from the gateway's
    connection rows ([QuotaEvidence] of [verdict/availability.py]). *)
From Stdlib Require Import Ascii.
From S2P Require Import Prelude PyStr Regex Time PyNum Classifier Contracts Admission Providers Ladder.

(** * Runtime evidence *)

Record RuntimeObservation := {
  ob_key : string;
  ob_state : string;
  ob_category : string;
  ob_source : string;
  ob_observed_at : option string;
  ob_until : option string;
  ob_pool_id : option string;
  ob_reset_at : option string;
  ob_provider_id : option string;
  ob_account_id : option string;
  ob_workspace_id : option string
}.
#[global] Instance observation_eq_dec : EqDecision RuntimeObservation.
Proof. solve_decision. Defined.

Record RuntimeEvidence := {
  ev_observations : list RuntimeObservation;
  ev_sources : list string
}.

Definition for_key (e : RuntimeEvidence) (key : string) : list RuntimeObservation :=
  List.filter (fun o => String.eqb (ob_key o) key) (ev_observations e).

Definition consulted (e : RuntimeEvidence) : list string :=
  List.filter (fun s => negb (endswith s ":absent")) (ev_sources e).

Definition merged (a b : RuntimeEvidence) : RuntimeEvidence :=
  {| ev_observations := ev_observations a ++ ev_observations b;
     ev_sources := dedupe (ev_sources a ++ ev_sources b) |}.

(** An observation of one of the persisted sources. *)
Definition observation (key state category source : string) (observed_at until : option string)
    : RuntimeObservation :=
  {| ob_key := key; ob_state := state; ob_category := category; ob_source := source;
     ob_observed_at := observed_at; ob_until := until; ob_pool_id := None; ob_reset_at := None;
     ob_provider_id := None; ob_account_id := None; ob_workspace_id := None |}.

(** [_parse_iso] of a JSON value that may not be a string *)
Definition ts (value : option string) : option Z := v ← value; instant <$> parse_iso v.

(** * Persisted evidence

    The files are read as parsed JSON; [None] stands for a file that is missing or
    is not valid JSON, and entries that are not objects are left out. *)

Record StateHealth := { sh_checked_at : option string; sh_category : string; sh_healthy : bool }.
Record StateCooldown := { sd_until : option string; sd_category : string }.
Record StateFile := {
  sf_health : list (string * StateHealth);
  sf_cooldowns : list (string * StateCooldown)
}.

(** The scope and name of a cooldown key, when the scope is one of [scopes]. *)
Definition scoped_key (scopes : list string) (key : string) : option string :=
  match partition1 ":" key with
  | (scope, Some name) =>
      if negb (mem scope scopes) || String.eqb name "" then None
      else Some (scope +:+ ":" +:+ (if String.eqb scope "route" then canonical_route_id name
                                    else lower name))
  | (_, None) => None
  end.

(** [evidence_from_ladder_state] *)
Definition evidence_from_ladder_state (name : string) (raw : option StateFile) (now : Z)
    (healthy_ttl_us : Z) : RuntimeEvidence :=
  let source := "ladder_state:" +:+ name in
  match raw with
  | None => {| ev_observations := []; ev_sources := [source +:+ ":absent"] |}
  | Some raw =>
      {| ev_observations :=
           omap (fun '(route_id, e) =>
                   checked ← ts (sh_checked_at e);
                   if healthy_ttl_us <? now - checked then None
                   else if sh_healthy e then None
                   else let state := state_for_category (sh_category e) in
                        Some (observation ("route:" +:+ canonical_route_id route_id) state
                                (or_else (sh_category e) state) source (Some (iso_us checked)) None))
             (sf_health raw)
           ++ omap (fun '(key, e) =>
                      until ← ts (sd_until e);
                      if until <=? now then None
                      else norm ← scoped_key ["route"; "provider"] key;
                           Some (observation norm "cooldown" (or_else (sd_category e) "cooldown")
                                   source None (Some (iso_us until))))
                (sf_cooldowns raw);
         ev_sources := [source] |}
  end.

Record FlatHealth := {
  fh_expires_at : option string;
  fh_category : string;
  fh_healthy : bool;
  fh_observed_at : option string
}.

(** [evidence_from_health_cache] *)
Definition evidence_from_health_cache (name : string) (raw : option (list (string * FlatHealth)))
    (now : Z) : RuntimeEvidence :=
  let source := "health_cache:" +:+ name in
  match raw with
  | None => {| ev_observations := []; ev_sources := [source +:+ ":absent"] |}
  | Some raw =>
      {| ev_observations :=
           omap (fun '(key, e) =>
                   expires ← ts (fh_expires_at e);
                   let category := or_else (fh_category e) "unknown" in
                   if expires <=? now then None
                   else if fh_healthy e then None
                   else if startswith key "provider:"
                   then Some (observation (lower key) "cooldown" category source
                                (fh_observed_at e) (Some (iso_us expires)))
                   else Some (observation ("route:" +:+ canonical_route_id key)
                                (state_for_category category) category source
                                (fh_observed_at e) (Some (iso_us expires))))
             raw;
         ev_sources := [source] |}
  end.

Record RestEntry := {
  re_healthy : bool;
  re_until : option string;
  re_category : string;
  re_checked_at : option string;
  re_provider_id : option string;
  re_account_id : option string
}.
Record RestFile := {
  rf_routes : list (string * RestEntry);
  rf_cooldowns : list (string * RestEntry)
}.

(** [evidence_from_at_rest_health_cache] *)
Definition evidence_from_at_rest_health_cache (name : string) (raw : option RestFile) (now : Z)
    : RuntimeEvidence :=
  let source := "at_rest_health_cache:" +:+ name in
  match raw with
  | None => {| ev_observations := []; ev_sources := [source +:+ ":absent"] |}
  | Some raw =>
      {| ev_observations :=
           omap (fun '(route_id, e) =>
                   if re_healthy e then None
                   else
                     until ← ts (re_until e);
                     let state := state_for_category (re_category e) in
                     if until <=? now then None
                     else Some (observation ("route:" +:+ canonical_route_id route_id) state
                                  (or_else (re_category e) state) source (re_checked_at e)
                                  (Some (iso_us until))))
             (rf_routes raw)
           ++ omap (fun '(key, e) =>
                      until ← ts (re_until e);
                      if until <=? now then None
                      else norm ← scoped_key ["route"; "provider"; "pool"; "account"] key;
                           Some {| ob_key := norm; ob_state := "cooldown";
                                   ob_category := or_else (re_category e) "cooldown";
                                   ob_source := source; ob_observed_at := re_checked_at e;
                                   ob_until := Some (iso_us until); ob_pool_id := None;
                                   ob_reset_at := None; ob_provider_id := re_provider_id e;
                                   ob_account_id := re_account_id e; ob_workspace_id := None |})
                (rf_cooldowns raw);
         ev_sources := [source] |}
  end.

(** [default_runtime_evidence], on the three files it reads *)
Definition default_runtime_evidence (ladder : option StateFile) (health : option (list (string * FlatHealth)))
    (rest : option RestFile) (now : Z) : RuntimeEvidence :=
  merged (merged (evidence_from_ladder_state "orchestration-health.json" ladder now 300000000)
                 (evidence_from_health_cache "subagent-health.json" health now))
    (evidence_from_at_rest_health_cache "health-cache.json" rest now).

Record QuotaRow := {
  qr_route_id : string;
  qr_provider : string;
  qr_exhausted : bool;
  qr_observed_at : string;
  qr_until : string;
  qr_source : string
}.

(** [str(x) if x else None] *)
Definition truthy (s : string) : option string := if String.eqb s "" then None else Some s.

(** [evidence_from_quota_rows] *)
Definition evidence_from_quota_rows (rows : list QuotaRow) (source : string) : RuntimeEvidence :=
  {| ev_observations :=
       omap (fun r =>
               key ← (if negb (String.eqb (strip (qr_route_id r)) "")
                      then Some ("route:" +:+ canonical_route_id (qr_route_id r))
                      else if negb (String.eqb (strip (qr_provider r)) "")
                      then Some ("provider:" +:+ lower (strip (qr_provider r)))
                      else None);
               Some (observation key (if qr_exhausted r then "exhausted" else "unknown")
                       (if qr_exhausted r then "quota_exhausted" else "quota_unknown")
                       (or_else (qr_source r) source) (truthy (qr_observed_at r))
                       (truthy (qr_until r))))
         rows;
     ev_sources := [source] |}.

(** * Subscription snapshots *)

Module CapacityFailureClass.
Inductive t :=
| RATE_LIMIT | CONCURRENCY_LIMIT | PROVIDER_OVERLOAD | QUOTA_EXHAUSTED | BALANCE_EXHAUSTED
| AUTH_EXPIRED | PERMISSION_DENIED | TRANSPORT | PROVIDER_OUTAGE | UNSUPPORTED | PARSE_ERROR
| UNKNOWN.
End CapacityFailureClass.

Record CapacityError := {
  ce_class : CapacityFailureClass.t;
  ce_message : string;
  ce_retry_after : option Z
}.

Record CapacityPool := {
  cp_pool_id : string;
  cp_status : string;
  cp_reset_at : option Z;
  cp_cooldown_until : option Z;
  cp_retry_after : option Z
}.

Record Balance := { bal_id : string; bal_kind : string; bal_remaining : option Q }.

(** [CapacitySnapshot], the fields the projection reads; instants in UTC *)
Record CapacitySnapshot := {
  cs_provider_id : string;
  cs_account_id : string;
  cs_workspace_id : option string;
  cs_observed_at : Z;
  cs_fresh_until : option Z;
  cs_pools : list CapacityPool;
  cs_balances : list Balance;
  cs_errors : list CapacityError
}.

(** [_fresh] *)
Definition fresh (s : CapacitySnapshot) (now ttl_us : Z) : bool :=
  now <=? default (cs_observed_at s + ttl_us) (cs_fresh_until s).

(** The state and category of a snapshot error; [None] for the ones not projected. *)
Definition error_state (e : CapacityError) : option (string * string) :=
  match ce_class e with
  | CapacityFailureClass.BALANCE_EXHAUSTED | CapacityFailureClass.QUOTA_EXHAUSTED =>
      Some ("exhausted", "subscription_exhaustion")
  | CapacityFailureClass.AUTH_EXPIRED | CapacityFailureClass.PERMISSION_DENIED =>
      Some ("unauthorized", "lockout")
  | CapacityFailureClass.RATE_LIMIT => Some ("cooldown", "rate_limit")
  | CapacityFailureClass.CONCURRENCY_LIMIT => Some ("cooldown", "concurrency_limit")
  | CapacityFailureClass.PROVIDER_OVERLOAD | CapacityFailureClass.PROVIDER_OUTAGE =>
      Some ("cooldown", "provider_overload")
  | _ => if contains (lower (ce_message e)) "payment" || contains (lower (ce_message e)) "billing"
         then Some ("unauthorized", "payment") else None
  end.

(** [_pool_reason] *)
Definition pool_reason (p : CapacityPool) (now : Z) : string * option string :=
  let category :=
    default "subscription_unknown"
      (dict_get (cp_status p)
         [("exhausted", "subscription_exhaustion");
          ("cooldown", match cp_retry_after p with Some _ => "rate_limit" | None => "cooldown" end);
          ("constrained", "subscription_constrained"); ("available", "subscription_available");
          ("unknown", "subscription_unknown")]) in
  let until := match cp_cooldown_until p, cp_retry_after p with
               | None, Some s => Some (now - now mod us_per_second + s * us_per_second)
               | u, _ => u
               end in
  (category, iso_us <$> until).

Definition snapshot_source (s : CapacitySnapshot) : string :=
  "subscription_headroom:" +:+ cs_provider_id s +:+ ":" +:+ cs_account_id s.

(** An observation of one snapshot. *)
Definition snapshot_obs (s : CapacitySnapshot) (state category : string) (until pool reset : option string)
    : RuntimeObservation :=
  {| ob_key := "provider:" +:+ lower (cs_provider_id s); ob_state := state;
     ob_category := category; ob_source := snapshot_source s;
     ob_observed_at := Some (iso_us (cs_observed_at s)); ob_until := until; ob_pool_id := pool;
     ob_reset_at := reset; ob_provider_id := Some (cs_provider_id s);
     ob_account_id := Some (cs_account_id s); ob_workspace_id := cs_workspace_id s |}.

Definition balance_obs (s : CapacitySnapshot) (b : Balance) : option RuntimeObservation :=
  if String.eqb (bal_kind b) "subscription_credits" then
    r ← bal_remaining b;
    Some (if Qle_bool r 0
          then snapshot_obs s "exhausted" "subscription_exhaustion" None (Some (bal_id b)) None
          else snapshot_obs s "healthy" "subscription_available" None (Some (bal_id b)) None)
  else None.

(** [subscription_observations] *)
Definition subscription_observations (snapshots : list CapacitySnapshot) (now ttl_us : Z)
    : list RuntimeObservation * list string :=
  (concat (map (fun s =>
     if fresh s now ttl_us then
       omap (fun e => '(state, category) ← error_state e;
                      Some (snapshot_obs s state category
                              ((fun r => iso_us (now + r * us_per_second)) <$> ce_retry_after e)
                              None None)) (cs_errors s)
       ++ map (fun p => let '(category, until) := pool_reason p now in
                        snapshot_obs s (cp_status p) category until (Some (cp_pool_id p))
                          (iso_us <$> cp_reset_at p)) (cs_pools s)
       ++ match cs_pools s, cs_balances s, cs_errors s with
          | [], [], [] => [snapshot_obs s "unknown" "subscription_unknown" None None None]
          | _, _, _ => []
          end
       ++ omap (balance_obs s) (cs_balances s)
     else []) snapshots),
   dedupe (map snapshot_source snapshots)).

(** * Connections *)

(** A connection row of the gateway. Text fields are empty when the row has no
    (truthy) value for them. *)
Record GatewayConnection := {
  gc_conn : Connection;
  gc_test_status : string;
  gc_account_id : string;
  gc_id : string;
  gc_workspace_id : string;
  gc_scope_type : string;
  gc_scope_id : string;
  gc_model : string;
  gc_pool_id : string;
  gc_last_error : string;
  gc_rate_limited_until : option string;
  gc_last_error_at : string;
  gc_observed_at : string;
  gc_updated_at : string;
  gc_last_tested : string
}.

Definition gc_provider (c : GatewayConnection) : string := conn_provider (gc_conn c).
Definition gc_active (c : GatewayConnection) : bool := conn_active (gc_conn c).

(** [str(c.get("account_id") or c.get("id") or "")] *)
Definition account_of (c : GatewayConnection) : string := or_else (gc_account_id c) (gc_id c).

Definition BAD_TEST_STATUS : list string :=
  ["error"; "failed"; "expired"; "unauthorized"; "invalid"; "unavailable"; "disabled";
   "exhausted"; "quota_exhausted"; "rate_limited"; "banned"].

Definition test_status (c : GatewayConnection) : string := lower (strip (gc_test_status c)).

(** [availability.QuotaEvidence], the fields admission reads *)
Record QuotaEvidence := {
  qe_scope : string;
  qe_scope_id : option string;
  qe_cooldown_until : option Z;
  qe_observed_at : option Z;
  qe_rate_limited : bool
}.

Section admission.
(** [hashlib.sha256(...).hexdigest()], the offset of the machine's local time zone,
    and whether the set [{owned, prefix}] is iterated with the prefix first. *)
Context (sha256_hex : string -> string) (local_off : Z) (prefix_first : bool).

(** [opaque_connection_token] *)
Definition opaque_connection_token (value : string) : string :=
  "conn:" +:+ String.substring 0 12 (sha256_hex value).

(** [account_forms] *)
Definition account_forms (value : string) : list string :=
  let text := strip value in
  if String.eqb text "" then []
  else if startswith text "conn:" then [text]
  else [text; opaque_connection_token text].

(** [availability._timestamp]: a naive time is taken in the local zone. *)
Definition timestamp (value : string) : option Z :=
  d ← fromisoformat (replace_with "Z" "+00:00" value);
  Some (dt_wall d - default local_off (dt_off d)).

(** [QuotaEvidence.from_connection] *)
Definition from_connection (c : GatewayConnection) : QuotaEvidence :=
  let scope := if mem (gc_scope_type c) ["model"; "account"; "provider"; "pool"]
               then gc_scope_type c else "account" in
  let field := if String.eqb scope "model" then gc_model c
               else if String.eqb scope "pool" then gc_pool_id c
               else if String.eqb scope "provider" then gc_provider c
               else gc_account_id c in
  let identifier := or_else (gc_scope_id c)
    (or_else field (if String.eqb scope "account" then gc_id c else "")) in
  let error := String.substring 0 4096 (gc_last_error c) in
  {| qe_scope := scope; qe_scope_id := truthy identifier;
     qe_cooldown_until := v ← gc_rate_limited_until c; timestamp v;
     qe_observed_at := timestamp (or_else (gc_last_error_at c)
       (or_else (gc_observed_at c) (or_else (gc_updated_at c) (gc_last_tested c))));
     qe_rate_limited := contains error "429" || String.eqb error "rate_limited" |}.

Definition RATE_LIMIT_US : Z := 60 * us_per_second.

(** [current_cooldown], [current_429] and [blocked_until] *)
Definition current_cooldown (q : QuotaEvidence) (now : Z) : bool :=
  match qe_cooldown_until q with Some u => now <? u | None => false end.

Definition current_429 (q : QuotaEvidence) (now : Z) (last_success : option Z) : bool :=
  match qe_rate_limited q, qe_observed_at q with
  | true, Some at_ =>
      if match last_success with Some s => at_ <=? s | None => false end then false
      else match qe_cooldown_until q with
           | Some _ => current_cooldown q now
           | None => (0 <=? now - at_) && (now - at_ <? RATE_LIMIT_US)
           end
  | _, _ => false
  end.

Definition blocked_until (q : QuotaEvidence) (now : Z) (last_success : option Z) : option Z :=
  if current_cooldown q now then qe_cooldown_until q
  else if current_429 q now last_success then (fun t => t + RATE_LIMIT_US) <$> qe_observed_at q
  else None.

(** The first live rate-limit window of the connection for the route. *)
Definition live_window (c : GatewayConnection) (route_id : string) (now : Z) : option Z :=
  foldr (fun kv rest =>
           if contains (fst kv) "/" && negb (String.eqb (canonical_route_id (fst kv)) route_id)
           then rest
           else match ts (Some (snd kv)) with
                | Some u => if now <? u then Some u else rest
                | None => rest
                end) None (conn_rate_limited_until (gc_conn c)).

(** [_connection_is_rate_limited] and [_connection_is_viable] *)
Definition connection_is_rate_limited (c : GatewayConnection) (route_id : string) (now : Z) : bool :=
  bool_decide (is_Some (blocked_until (from_connection c) now None))
  || bool_decide (is_Some (live_window c route_id now)).

Definition connection_is_viable (c : GatewayConnection) (route_id : string) (now : Z) : bool :=
  gc_active c && negb (mem (test_status c) BAD_TEST_STATUS)
  && negb (connection_is_rate_limited c route_id now).

(** [live_quota_refutes_rate_limit] *)
Definition live_quota_refutes_rate_limit (c : GatewayConnection) (route_id : string)
    (observed_at : option string) (now : Z) : bool :=
  match ts observed_at, ts (Some (gc_last_tested c)), quota_remaining (gc_conn c) route_id with
  | Some cooled, Some tested, Some remaining =>
      (cooled <? tested) && (tested <=? now) && Qltb 0 remaining
      && connection_is_viable c route_id now
  | _, _, _ => false
  end.

(** [_connections_for] *)
Definition connections_for (connections : list GatewayConnection) (names : list string)
    : list GatewayConnection :=
  let wanted := map lower (List.filter (fun n => negb (String.eqb n "")) names) in
  List.filter (fun c => mem (lower (gc_provider c)) wanted) connections.

(** * Judging one route *)

(** An inventory row; [ir_pool] is [subscription_pool_id or pool_id]. *)
Record InventoryRow := {
  ir_id : string;
  ir_row : Row;
  ir_pool : string;
  ir_account_id : string
}.

Definition ADMISSION_OPAQUE_IDS : list string := ["auto"; "default"; "best"].

(** [is_opaque] *)
Definition is_opaque (route_id : string) : bool :=
  let lowered := lower (canonical_route_id route_id) in
  mem lowered ADMISSION_OPAQUE_IDS || existsb (startswith lowered) OPAQUE_PREFIXES.

(** What [_judge] reads once: the route, its names and the connections. *)
Record Subject := {
  su_route : string;
  su_owned : string;
  su_prefix : string;
  su_resolved : string;
  su_provider : string;
  su_now : Z;
  su_source : string
}.

Definition subject (route_id : string) (row : InventoryRow) (now : Z) (source : string) : Subject :=
  let owned := lower (row_owned_by (ir_row row)) in
  let prefix := route_provider_prefix route_id in
  let resolved := if String.eqb owned "" then "" else resolve_provider owned in
  {| su_route := route_id; su_owned := owned; su_prefix := prefix; su_resolved := resolved;
     su_provider := or_else resolved (or_else owned prefix); su_now := now; su_source := source |}.

(** The [drop] helper of [_judge] *)
Definition drop_record (su : Subject) (stage : AdmissionStage.t) (reason source : string)
    (observed_at : option string) (health : string) (until reset_at : option string)
    : AdmissionRecord :=
  {| ar_route_id := su_route su; ar_provider := su_provider su; ar_admitted := false;
     ar_first_failed_stage := Some stage; ar_reason := reason; ar_source := source;
     ar_observed_at := observed_at; ar_health := health; ar_until := until;
     ar_reset_at := reset_at; ar_confirmation_source := None; ar_confirmed_at := None |}.

Definition drop_now (su : Subject) (stage : AdmissionStage.t) (reason source health : string)
    (until : option string) : AdmissionRecord :=
  drop_record su stage reason source (Some (iso_us (su_now su))) health until None.

Definition admit_record (su : Subject) (reason source : string) (observed_at : option string)
    (health : string) (until reset_at : option string) : AdmissionRecord :=
  {| ar_route_id := su_route su; ar_provider := su_provider su; ar_admitted := true;
     ar_first_failed_stage := None; ar_reason := reason; ar_source := source;
     ar_observed_at := observed_at; ar_health := health; ar_until := until;
     ar_reset_at := reset_at; ar_confirmation_source := None; ar_confirmed_at := None |}.

(** Discovery, entitlement and live rate-limit windows: the active connections, or the
    record of the stage that failed. *)
Definition entitled (su : Subject) (connections : list GatewayConnection)
    : result AdmissionRecord (list GatewayConnection) :=
  let conns := connections_for connections [su_resolved su; su_owned su; su_prefix su] in
  let active := List.filter gc_active conns in
  let statuses := map test_status active in
  if is_opaque (su_route su) || String.eqb (su_owned su) "combo"
  then Err (drop_now su AdmissionStage.DISCOVERED "opaque_route" "inventory" "unknown" None)
  else if bool_decide (active = [])
  then Err (drop_now su AdmissionStage.ENTITLED
              (if bool_decide (conns = []) then "no_connection_evidence" else "no_active_account")
              (su_source su) "unknown" None)
  else if forallb (fun s => mem s BAD_TEST_STATUS) statuses
  then let status := default "" (head (sort_str statuses)) in
       Err (drop_now su AdmissionStage.ENTITLED ("connection_status:" +:+ status) (su_source su)
              (state_for_category status) None)
  else match omap (fun c => live_window c (su_route su) (su_now su)) active with
       | until :: _ => Err (drop_now su AdmissionStage.AVAILABLE "provider_rate_limited"
                              (su_source su) "exhausted" (Some (iso_us until)))
       | [] => Ok active
       end.

(** The observations of the route; healthy ones count while they have not expired. *)
Definition route_evidence (su : Subject) (runtime : RuntimeEvidence) : list RuntimeObservation :=
  List.filter (fun o => negb (String.eqb (ob_state o) "healthy")
                        || match ob_until o with
                           | None => true
                           | Some _ => match ts (ob_until o) with
                                       | Some t => su_now su <? t
                                       | None => false
                                       end
                           end)
    (for_key runtime ("route:" +:+ su_route su)).

(** The observations of the provider, under the row's owner and the route's prefix. *)
Definition provider_names (su : Subject) : list string :=
  List.filter (fun n => negb (String.eqb n ""))
    (dedupe (if (prefix_first : bool) then [su_prefix su; su_owned su]
             else [su_owned su; su_prefix su])).

Definition provider_evidence (su : Subject) (runtime : RuntimeEvidence) : list RuntimeObservation :=
  concat (map (fun n => for_key runtime ("provider:" +:+ n)) (provider_names su)).

Definition latest (l : list Z) : option Z :=
  foldr (fun x acc => Some (match acc with Some y => Z.max x y | None => x end)) None l.

(** The last success the evidence proves; passive rows carry no success time. *)
Definition last_success (route_obs : list RuntimeObservation) : option Z :=
  latest (omap (fun o => if mem (ob_state o) ["healthy"; "success_hint"]
                            && negb (String.eqb (ob_category o) "passive_success")
                         then ts (ob_observed_at o) else None) route_obs).

(** Cooldowns the gateway itself reports on the active connections. *)
Definition gateway_evidence (su : Subject) (active : list GatewayConnection)
    (route_obs : list RuntimeObservation) : list RuntimeObservation :=
  omap (fun c =>
    let quota := from_connection c in
    until ← blocked_until quota (su_now su) (last_success route_obs);
    Some {| ob_key := if String.eqb (qe_scope quota) "model"
                      then "route:" +:+ canonical_route_id (default "" (qe_scope_id quota))
                      else "provider:" +:+ su_provider su;
            ob_state := "cooldown"; ob_category := "rate_limit";
            ob_source := "omniroute:/api/providers";
            ob_observed_at := iso_us <$> qe_observed_at quota; ob_until := Some (iso_us until);
            ob_pool_id := if String.eqb (qe_scope quota) "pool" then qe_scope_id quota else None;
            ob_reset_at := None; ob_provider_id := None;
            ob_account_id := if String.eqb (qe_scope quota) "account" then truthy (account_of c)
                             else None;
            ob_workspace_id := None |}) active.

Definition nonempty (l : list string) : list string :=
  List.filter (fun s => negb (String.eqb s "")) l.

(** To which account the route is bound: the pool markers, the connections of the bound
    account, the account encoded in the route id, and the accounts in play. *)
Record Binding := {
  bi_markers : list string;
  bi_active : list GatewayConnection;
  bi_encoded : string;
  bi_accounts : list string;
  bi_bound : bool
}.

Definition binding (su : Subject) (row : InventoryRow) (active : list GatewayConnection) : Binding :=
  let markers := account_forms (ir_pool row) in
  let active := if String.eqb (ir_account_id row) "" then active
                else List.filter (fun c => mem (account_of c) (account_forms (ir_account_id row))) active in
  let accounts := nonempty (map account_of active) in
  let parts := split "/" (su_route su) in
  let encoded := if (2 <? length parts)%nat && startswith (su_owned su) (su_prefix su +:+ "/")
                 then default "" (parts !! 1%nat) else "" in
  {| bi_markers := markers; bi_active := active; bi_encoded := encoded;
     bi_accounts := match accounts with [] => nonempty [encoded] | _ => accounts end;
     bi_bound := negb (bool_decide (markers = [])) || negb (String.eqb encoded "")
                 || negb (String.eqb (ir_account_id row) "") |}.

(** Capacity evidence counts for the concrete account, workspace and pool only. *)
Definition in_scope (su : Subject) (b : Binding) (o : RuntimeObservation) : bool :=
  let workspaces := nonempty (map gc_workspace_id (bi_active b)) in
  match ob_account_id o with Some a => mem a (bi_accounts b) | None => true end
  && match ob_workspace_id o with
     | Some w => String.eqb w "" || mem w workspaces
                 || (bool_decide (workspaces = []) && (length (bi_active b) =? 1)%nat)
     | None => true
     end
  && match ob_pool_id o with
     | Some p => bool_decide (bi_markers b = []) || String.eqb p "" || mem p (bi_markers b)
                 || contains (su_route su) p
     | None => true
     end.

(** Newer live quota refutes a persisted rate-limit cooldown of the provider. *)
Definition unrefuted (su : Subject) (b : Binding) (gateway : list RuntimeObservation)
    (o : RuntimeObservation) : bool :=
  bool_decide (o ∈ gateway)
  || negb (mem (ob_state o) ["cooldown"; "exhausted"])
  || negb (mem (ob_category o) RATE_LIMIT_COOLDOWN_CATEGORIES)
  || negb (existsb (fun c => live_quota_refutes_rate_limit c (su_route su) (ob_observed_at o) (su_now su))
             (bi_active b)).

(** A usable sibling account hides the exhausted accounts of an unbound route. *)
Definition unsuppressed (su : Subject) (b : Binding) (obs : list RuntimeObservation)
    : list RuntimeObservation :=
  let bad := nonempty (omap (fun o => if mem (ob_state o) ["exhausted"; "cooldown"]
                                      then ob_account_id o else None) obs) in
  let viable := existsb (fun a => negb (mem a bad)
                  && existsb (fun c => String.eqb (account_of c) a
                                       && connection_is_viable c (su_route su) (su_now su))
                       (bi_active b)) (bi_accounts b) in
  if negb (bi_bound b) && viable
  then List.filter (fun o => match ob_account_id o with
                             | Some a => negb (mem a bad) | None => true end) obs
  else obs.

(** Early returns of [_judge] on the evidence, in order. *)
Definition drop_obs (su : Subject) (stage : AdmissionStage.t) (reason : string)
    (o : RuntimeObservation) : AdmissionRecord :=
  drop_record su stage reason (ob_source o) (ob_observed_at o) (ob_state o) (ob_until o) (ob_reset_at o).

Definition first_with (p : RuntimeObservation -> bool) (l : list RuntimeObservation)
    : option RuntimeObservation := List.find p l.

Definition state_in (states : list string) (o : RuntimeObservation) : bool := mem (ob_state o) states.

Definition available_reason (o : RuntimeObservation) : string :=
  if mem (ob_category o) ["subscription_exhaustion"; "subscription_unknown"; "rate_limit";
                          "concurrency_limit"; "provider_overload"; "lockout"; "payment"]
  then ob_category o else ob_state o +:+ ":" +:+ ob_category o.

Definition negative_verdict (su : Subject) (route_obs provider_obs : list RuntimeObservation)
    : option AdmissionRecord :=
  match first_with (state_in ["unauthorized"]) (route_obs ++ provider_obs) with
  | Some o => Some (drop_obs su AdmissionStage.ENTITLED (ob_category o) o)
  | None =>
      match first_with (state_in ["unhealthy"]) route_obs with
      | Some o => Some (drop_record su AdmissionStage.HEALTHY (ob_category o) (ob_source o)
                          (ob_observed_at o) (ob_state o) (ob_until o) None)
      | None =>
          match first_with (state_in ["exhausted"; "cooldown"]) (route_obs ++ provider_obs) with
          | Some o => Some (drop_obs su AdmissionStage.AVAILABLE (available_reason o) o)
          | None => None
          end
      end
  end.

Definition unknown_subscription (o : RuntimeObservation) : bool :=
  String.eqb (ob_category o) "subscription_unknown"
  || (String.eqb (ob_state o) "unknown" && startswith (ob_source o) "subscription_headroom:").

(** The capability check on the row. *)
Definition capability_verdict (su : Subject) (row : Row) (required : list string) (min_context : Z)
    : option AdmissionRecord :=
  if bool_decide (required = []) && (min_context =? 0) then None
  else
  match List.find (fun needed => negb (has_cap row (if String.eqb needed "tools" then "tool_calling"
                                                    else needed))) (sort_str required) with
  | Some needed => Some (drop_now su AdmissionStage.CAPABILITY ("missing_capability:" +:+ needed)
                           "inventory" "unknown" None)
  | None => if context_tokens row <? min_context
            then Some (drop_now su AdmissionStage.CAPABILITY "insufficient_context" "inventory"
                         "unknown" None)
            else None
  end.

(** The end of [_judge], on the evidence that counts. *)
Definition decide_route (su : Subject) (row : InventoryRow)
    (route_obs provider_obs : list RuntimeObservation) (required : list string) (min_context : Z)
    (deny : string -> string) : AdmissionRecord :=
  match negative_verdict su route_obs provider_obs with
  | Some r => r
  | None =>
      match first_with unknown_subscription (route_obs ++ provider_obs) with
      | Some o => admit_record su "subscription_unknown" (ob_source o) (ob_observed_at o) "unknown"
                    (ob_until o) (ob_reset_at o)
      | None =>
          match capability_verdict su (ir_row row) required min_context with
          | Some r => r
          | None =>
              if negb (String.eqb (deny (su_route su)) "")
              then drop_now su AdmissionStage.POLICY (deny (su_route su)) "policy" "unknown" None
              else match last (List.filter (state_in ["healthy"]) (route_obs ++ provider_obs)) with
                   | Some o => admit_record su "admitted" (ob_source o) (ob_observed_at o) "healthy"
                                 None None
                   | None => admit_record su "admitted_unverified" (su_source su)
                               (Some (iso_us (su_now su))) "unknown" None None
                   end
          end
      end
  end.

(** The provider observations that count for the route. *)
Definition scoped_provider_evidence (su : Subject) (row : InventoryRow)
    (active : list GatewayConnection) (runtime : RuntimeEvidence)
    (gateway : list RuntimeObservation) : list RuntimeObservation :=
  let b := binding su row active in
  let all := provider_evidence su runtime
             ++ List.filter (fun o => String.eqb (ob_key o) ("provider:" +:+ su_provider su)) gateway in
  unsuppressed su b (List.filter (unrefuted su b gateway) (List.filter (in_scope su b) all)).

(** [_judge]; [deny] returns the empty string when the policy has nothing to say. *)
Definition judge (route_id : string) (row : InventoryRow) (connections : list GatewayConnection)
    (runtime : RuntimeEvidence) (now : Z) (source : string) (required : list string)
    (min_context : Z) (deny : string -> string) : AdmissionRecord :=
  let su := subject route_id row now source in
  match entitled su connections with
  | Err r => r
  | Ok active =>
      let seen := route_evidence su runtime in
      let gateway := gateway_evidence su active seen in
      let route_obs := seen ++ List.filter (fun o => String.eqb (ob_key o) ("route:" +:+ route_id)) gateway in
      decide_route su row route_obs (scoped_provider_evidence su row active runtime gateway)
        required min_context deny
  end.

(** * Building the set *)

Inductive unavailable_exn := AdmissionUnavailableError (reason detail : string).

(** Rows by canonical id; the first row of an id counts. *)
Definition rows_by_id (rows : list InventoryRow) : list (string * InventoryRow) :=
  foldl (fun d r =>
           if String.eqb (strip (ir_id r)) "" then d
           else let key := canonical_route_id (ir_id r) in
                match dict_get key d with Some _ => d | None => d ++ [(key, r)] end) [] rows.

Record AdmitArgs := {
  aa_now : Z;
  aa_require_runtime : bool;
  aa_inventory_source : string;
  aa_connections_source : string;
  aa_required : list string;
  aa_min_context : Z;
  aa_deny : string -> string;
  aa_snapshots : list CapacitySnapshot;
  aa_freshness_us : Z
}.

(** The evidence [admit] judges on: the runtime evidence and the subscription snapshots. *)
Definition admit_evidence (runtime : option RuntimeEvidence) (args : AdmitArgs) : RuntimeEvidence :=
  let evidence := default {| ev_observations := []; ev_sources := [] |} runtime in
  match aa_snapshots args with
  | [] => evidence
  | snapshots =>
      let '(obs, sources) := subscription_observations snapshots (aa_now args) (aa_freshness_us args) in
      merged evidence {| ev_observations := obs; ev_sources := sources |}
  end.

(** [admit] *)
Definition admit_routes (inventory : option (list InventoryRow))
    (connections : option (list GatewayConnection)) (runtime : option RuntimeEvidence)
    (args : AdmitArgs) : result unavailable_exn AdmittedSet :=
  match inventory, connections with
  | None, _ => Err (AdmissionUnavailableError "live_inventory_unavailable" (aa_inventory_source args))
  | Some _, None =>
      Err (AdmissionUnavailableError "connection_evidence_unavailable" (aa_connections_source args))
  | Some rows, Some conns =>
      if bool_decide (runtime = None) && aa_require_runtime args
         && bool_decide (aa_snapshots args = [])
         && negb (existsb (fun r => contains (ir_id r) "/subscription/") rows)
      then Err (AdmissionUnavailableError "runtime_evidence_unavailable"
                  "no runtime health/cooldown/quota source")
      else
        let evidence := admit_evidence runtime args in
        let table := rows_by_id rows in
        Ok {| as_records :=
                omap (fun rid => (fun row => judge rid row conns evidence (aa_now args)
                                    (aa_connections_source args) (aa_required args)
                                    (aa_min_context args) (aa_deny args)) <$> dict_get rid table)
                  (sort_str (map fst table));
              as_generated_at := iso_us (aa_now args);
              as_sources := dedupe (aa_inventory_source args :: aa_connections_source args
                                    :: ev_sources evidence);
              as_controller_identity := "unknown"; as_narrowing := [];
              as_runtime_consulted := consulted evidence |}
  end.

(** * Lemmas on the judgement *)

Lemma entitled_err su conns r : entitled su conns = Err r -> ar_admitted r = false.
Proof. unfold entitled. repeat (case_match; try done); by intros [= <-]. Qed.

(** What the discovery, entitlement and rate-limit stages establish. *)
Record entitled_spec (su : Subject) (conns active : list GatewayConnection) : Prop := {
  en_opaque : is_opaque (su_route su) = false;
  en_active : active = List.filter gc_active
    (connections_for conns [su_resolved su; su_owned su; su_prefix su]);
  en_usable : exists c, c ∈ active /\ (test_status c ∉ BAD_TEST_STATUS);
  en_window : forall c, c ∈ active -> live_window c (su_route su) (su_now su) = None
}.

Lemma entitled_ok su conns active : entitled su conns = Ok active -> entitled_spec su conns active.
Proof.
  unfold entitled. destruct (is_opaque _) eqn:Eo; [done|]. cbn [orb].
  destruct (String.eqb (su_owned su) "combo"); [done|].
  set (act := List.filter gc_active _).
  destruct (bool_decide_reflect (act = [])) as [|Hne]; [done|].
  destruct (forallb _ (map test_status act)) eqn:Ef; [done|].
  destruct (omap _ act) as [|u us] eqn:Ew; [|done]. intros [= <-]. constructor; try done.
  - apply not_true_iff_false in Ef.
    destruct (decide (Exists (fun c => test_status c ∉ BAD_TEST_STATUS) act)) as [He|He].
    + by apply Exists_exists in He.
    + destruct Ef. apply forallb_forall. intros s (c & <- & Hc)%in_map_iff.
      apply mem_spec. apply not_Exists_Forall in He; [|intros ?; apply _].
      rewrite Forall_forall in He. specialize (He c). cbn in He. apply dec_stable. apply He.
      by rewrite list_elem_of_In.
  - intros c Hc. destruct (live_window c _ _) as [u|] eqn:E; [|done].
    assert (Hu : u ∈ omap (fun c => live_window c (su_route su) (su_now su)) act).
    { apply elem_of_omap. eauto. }
    rewrite Ew in Hu. by apply not_elem_of_nil in Hu.
Qed.

Lemma negative_dropped su robs pobs r :
  negative_verdict su robs pobs = Some r -> ar_admitted r = false.
Proof. unfold negative_verdict. repeat (case_match; try done); by intros [= <-]. Qed.

Lemma find_elem (p : RuntimeObservation -> bool) l o :
  o ∈ l -> p o = true -> exists o', first_with p l = Some o'.
Proof.
  intros Hin Hp. unfold first_with. destruct (List.find p l) eqn:E; [eauto|].
  eapply find_none in E; [|by apply list_elem_of_In]. congruence.
Qed.

(** A blocking observation among the ones that count drops the route. *)
Lemma negative_found su robs pobs o :
  (o ∈ robs /\ state_in ["unauthorized"; "unhealthy"; "exhausted"; "cooldown"] o = true) \/
  (o ∈ pobs /\ state_in ["unauthorized"; "exhausted"; "cooldown"] o = true) ->
  exists r, negative_verdict su robs pobs = Some r.
Proof.
  intros H. unfold negative_verdict.
  destruct (first_with (state_in ["unauthorized"]) _) eqn:E1; [eauto|].
  destruct (first_with (state_in ["unhealthy"]) robs) eqn:E2; [eauto|].
  assert (Hin : o ∈ robs ++ pobs) by (rewrite elem_of_app; naive_solver).
  assert (Hst : state_in ["unauthorized"] o = true \/ (o ∈ robs /\ state_in ["unhealthy"] o = true) \/
    state_in ["exhausted"; "cooldown"] o = true).
  { unfold state_in in *. rewrite !mem_spec in *. rewrite !elem_of_cons in *.
    destruct H as [[? H]|[? H]]; naive_solver. }
  destruct Hst as [Hs|[[Hr Hs]|Hs]].
  - destruct (find_elem _ _ _ Hin Hs). congruence.
  - destruct (find_elem _ _ _ Hr Hs). congruence.
  - destruct (find_elem _ _ _ Hin Hs) as (o' & ->). eauto.
Qed.

(** * What an admitted record says *)

Record admitted_spec (su : Subject) (row : InventoryRow) (robs pobs : list RuntimeObservation)
    (required : list string) (min_context : Z) (deny : string -> string) (r : AdmissionRecord) : Prop := {
  ad_clean : negative_verdict su robs pobs = None;
  ad_unconfirmed : ar_confirmation_source r = None;
  ad_health : ar_health r = "healthy" \/ ar_health r = "unknown";
  ad_healthy : ar_health r = "healthy" -> exists o, o ∈ robs ++ pobs /\ ob_state o = "healthy";
  ad_gated : ar_reason r <> "subscription_unknown" ->
    capability_verdict su (ir_row row) required min_context = None /\ deny (su_route su) = "";
  ad_unknown : ar_reason r = "subscription_unknown" -> ar_health r = "unknown"
}.

Lemma decide_admitted su row robs pobs required min_context deny :
  let r := decide_route su row robs pobs required min_context deny in
  ar_admitted r = true -> admitted_spec su row robs pobs required min_context deny r.
Proof.
  cbv zeta. unfold decide_route.
  destruct (negative_verdict su robs pobs) as [r|] eqn:En.
  { intros Ha. by rewrite (negative_dropped _ _ _ _ En) in Ha. }
  destruct (first_with unknown_subscription _) as [o|] eqn:Eu.
  { intros _. constructor; cbn; auto; done. }
  destruct (capability_verdict su (ir_row row) required min_context) as [r|] eqn:Ec.
  { intros Ha. unfold capability_verdict in Ec. repeat (case_match; try done); by injection Ec as <-. }
  destruct (String.eqb_spec (deny (su_route su)) "") as [Ed|]; [|done]. cbn [negb].
  destruct (last _) as [o|] eqn:El; intros _; constructor; cbn; auto; try done.
  intros _. exists o. apply last_Some_elem_of in El. apply elem_of_lfilter in El as [Hin Hs].
  unfold state_in in Hs. rewrite mem_spec, elem_of_cons in Hs.
  destruct Hs as [?|[]%not_elem_of_nil]. done.
Qed.

(** * The evidence that counts *)

Lemma gateway_states su active seen o :
  o ∈ gateway_evidence su active seen -> ob_state o = "cooldown".
Proof.
  unfold gateway_evidence. intros (c & _ & H)%elem_of_omap.
  destruct (blocked_until _ _ _); [|done]. cbn in H. by injection H as <-.
Qed.

Lemma unsuppressed_sub su b obs o : o ∈ unsuppressed su b obs -> o ∈ obs.
Proof. unfold unsuppressed. case_match; [|done]. by intros [? _]%elem_of_lfilter. Qed.

Lemma unsuppressed_keeps su b obs o :
  o ∈ obs -> ob_account_id o = None -> o ∈ unsuppressed su b obs.
Proof.
  unfold unsuppressed. intros Ho Ha. case_match; [|done]. apply elem_of_lfilter. by rewrite Ha.
Qed.

Lemma provider_evidence_elem su runtime o :
  o ∈ provider_evidence su runtime <->
  o ∈ ev_observations runtime /\ exists name, name ∈ [su_owned su; su_prefix su] /\ name <> "" /\
    ob_key o = "provider:" +:+ name.
Proof using Type.
  clear sha256_hex local_off. unfold provider_evidence. rewrite elem_of_concat_map.
  assert (Hn : forall n, n ∈ provider_names su <-> n ∈ [su_owned su; su_prefix su] /\ n <> "").
  { intros n. unfold provider_names. rewrite elem_of_lfilter, negb_true_iff, String.eqb_neq.
    unfold dedupe. rewrite dedupe_from_elem. destruct prefix_first;
      rewrite !elem_of_cons; pose proof (not_elem_of_nil n); naive_solver. }
  setoid_rewrite Hn. clear Hn. unfold for_key. setoid_rewrite elem_of_lfilter.
  setoid_rewrite String.eqb_eq. naive_solver.
Qed.

(** A provider observation without account, workspace and pool counts, unless newer
    live quota refutes it. *)
Lemma scoped_keeps su row active runtime gateway o :
  o ∈ provider_evidence su runtime -> ob_account_id o = None -> ob_workspace_id o = None ->
  ob_pool_id o = None ->
  (ob_state o ∉ ["cooldown"; "exhausted"]) \/ (ob_category o ∉ RATE_LIMIT_COOLDOWN_CATEGORIES) ->
  o ∈ scoped_provider_evidence su row active runtime gateway.
Proof.
  intros Ho Ha Hw Hp Hr. unfold scoped_provider_evidence. apply unsuppressed_keeps; [|done].
  rewrite !elem_of_lfilter, elem_of_app. split_and!; [by left| |].
  - unfold in_scope. by rewrite Ha, Hw, Hp.
  - unfold unrefuted. destruct Hr as [Hr|Hr]; apply mem_false in Hr; rewrite Hr; cbn;
      rewrite ?orb_true_r; done.
Qed.

Lemma scoped_sub su row active runtime gateway o :
  o ∈ scoped_provider_evidence su row active runtime gateway ->
  o ∈ provider_evidence su runtime \/ o ∈ gateway.
Proof.
  unfold scoped_provider_evidence. intros H%unsuppressed_sub.
  rewrite !elem_of_lfilter, elem_of_app, elem_of_lfilter in H. naive_solver.
Qed.
Lemma judge_admitted rid row conns runtime now source required min_context deny :
  let r := judge rid row conns runtime now source required min_context deny in
  let su := subject rid row now source in
  ar_admitted r = true ->
  is_opaque rid = false /\
  (exists c, c ∈ connections_for conns [su_resolved su; su_owned su; su_prefix su] /\
     gc_active c = true /\ (test_status c ∉ BAD_TEST_STATUS)) /\
  (forall c, c ∈ connections_for conns [su_resolved su; su_owned su; su_prefix su] ->
     gc_active c = true -> live_window c rid now = None) /\
  ar_confirmation_source r = None /\
  (ar_health r = "unknown" \/ ar_health r = "healthy" /\ exists o, o ∈ ev_observations runtime /\
     ob_state o = "healthy" /\
     (o ∈ route_evidence su runtime \/ exists name, name ∈ [su_owned su; su_prefix su] /\
        name <> "" /\ ob_key o = "provider:" +:+ name)) /\
  (ar_reason r <> "subscription_unknown" ->
     capability_verdict su (ir_row row) required min_context = None /\ deny rid = "").
Proof.
  cbv zeta. unfold judge. set (su := subject rid row now source).
  destruct (entitled su conns) as [active|r] eqn:Ee.
  2:{ intros Ha. by rewrite (entitled_err _ _ _ Ee) in Ha. }
  apply entitled_ok in Ee as [Eo Ea (c & Hc & Hst) Ewin]. subst active.
  set (gateway := gateway_evidence _ _ _) in *. intros Ha.
  apply decide_admitted in Ha as [_ Hconf Hhealth Hhealthy Hgated _].
  split_and!; [done| | |done| |done].
  - apply elem_of_lfilter in Hc as [Hc Hact]. eauto.
  - intros c' Hc' Hact. apply Ewin. apply elem_of_lfilter. done.
  - destruct Hhealth as [Hh|Hh]; [right|by left]. split; [done|].
    destruct (Hhealthy Hh) as (o & Ho & Hs). exists o.
    assert (Hg : o ∈ gateway -> False).
    { intros Hg%gateway_states. congruence. }
    rewrite !elem_of_app, elem_of_lfilter in Ho.
    destruct Ho as [[Ho|[Ho _]]|[Ho|Ho]%scoped_sub]; [|by destruct Hg| |by destruct Hg].
    + split_and!; [|done|by left]. unfold route_evidence, for_key in Ho.
      by apply elem_of_lfilter in Ho as [[Ho _]%elem_of_lfilter _].
    + apply provider_evidence_elem in Ho as [Ho Hk]. split_and!; [done|done|by right].
Qed.

(** * The set *)

Lemma entitled_route su conns r : entitled su conns = Err r -> ar_route_id r = su_route su.
Proof. unfold entitled. repeat (case_match; try done); by intros [= <-]. Qed.

Lemma decide_route_id su row robs pobs required min_context deny :
  ar_route_id (decide_route su row robs pobs required min_context deny) = su_route su.
Proof.
  unfold decide_route, negative_verdict, capability_verdict. by repeat (case_match; simplify_eq).
Qed.

Lemma judge_route rid row conns runtime now source required min_context deny :
  ar_route_id (judge rid row conns runtime now source required min_context deny) = rid.
Proof.
  unfold judge. destruct (entitled _ _) eqn:E; [by rewrite decide_route_id|].
  by apply entitled_route in E.
Qed.

Lemma rows_by_id_spec rows :
  base.NoDup (map fst (rows_by_id rows)) /\
  (forall k r, (k, r) ∈ rows_by_id rows ->
     r ∈ rows /\ strip (ir_id r) <> "" /\ canonical_route_id (ir_id r) = k) /\
  (forall r, r ∈ rows -> strip (ir_id r) <> "" ->
     canonical_route_id (ir_id r) ∈ map fst (rows_by_id rows)).
Proof using Type.
  clear. unfold rows_by_id. set (step := fun (d : list (string * InventoryRow)) r => _).
  induction rows as [|r rows IH] using rev_ind.
  { split_and!; [constructor|by intros ? ? []%not_elem_of_nil|by intros ? []%not_elem_of_nil]. }
  rewrite foldl_app. cbn [foldl]. destruct IH as (Hnd & Hin & Hall).
  set (d := foldl step [] rows) in *. unfold step at 1 2 3.
  destruct (String.eqb_spec (strip (ir_id r)) "") as [Eb|Eb].
  { split_and!; [done| |].
    - intros k r' H. destruct (Hin k r' H). split; [apply elem_of_app; by left|done].
    - intros r' [H|[->|[]%not_elem_of_nil]%elem_of_cons]%elem_of_app ?; [by apply Hall|done]. }
  set (key := canonical_route_id (ir_id r)). destruct (dict_get key d) as [r0|] eqn:Ed.
  { split_and!; [done| |].
    - intros k r' H. destruct (Hin k r' H). split; [apply elem_of_app; by left|done].
    - intros r' [H|[->|[]%not_elem_of_nil]%elem_of_cons]%elem_of_app ?; [by apply Hall|].
      apply dict_get_elem in Ed. apply list_elem_of_fmap. by exists (key, r0). }
  rewrite map_app. cbn [map fst]. split_and!.
  - apply NoDup_app. split_and!; [done| |apply NoDup_singleton].
    intros k Hk ->%list_elem_of_singleton. by apply (proj1 (dict_get_none _ _) Ed).
  - intros k r' [H|[[= -> ->]|[]%not_elem_of_nil]%elem_of_cons]%elem_of_app.
    + destruct (Hin k r' H). split; [apply elem_of_app; by left|done].
    + split; [apply elem_of_app; right; left|done].
  - intros r' [H|[->|[]%not_elem_of_nil]%elem_of_cons]%elem_of_app ?; apply elem_of_app.
    + left. by apply Hall.
    + right. left.
Qed.

(** Every record is the judgement of the first inventory row of its route. *)
Lemma admit_records rows conns runtime args s r :
  admit_routes (Some rows) (Some conns) runtime args = Ok s -> r ∈ as_records s ->
  exists row, row ∈ rows /\ canonical_route_id (ir_id row) = ar_route_id r /\
    r = judge (ar_route_id r) row conns (admit_evidence runtime args) (aa_now args)
          (aa_connections_source args) (aa_required args) (aa_min_context args) (aa_deny args).
Proof.
  unfold admit_routes. case_match; [done|]. intros [= <-]. cbn [as_records].
  intros (rid & _ & Hr)%elem_of_omap.
  destruct (dict_get rid (rows_by_id rows)) as [row|] eqn:E; [|done]. injection Hr as <-.
  rewrite judge_route. destruct (rows_by_id_spec rows) as (_ & Hin & _).
  apply dict_get_elem, Hin in E as (? & _ & ?). eauto.
Qed.

Lemma admit_ids rows conns runtime args s :
  admit_routes (Some rows) (Some conns) runtime args = Ok s ->
  map ar_route_id (as_records s) = sort_str (map fst (rows_by_id rows)).
Proof.
  unfold admit_routes. case_match; [done|]. intros [= <-]. cbn [as_records].
  assert (Hall : forall k, k ∈ sort_str (map fst (rows_by_id rows)) -> dict_get k (rows_by_id rows) <> None).
  { intros k Hk Hn. apply dict_get_none in Hn. by rewrite elem_of_sort_str in Hk. }
  induction (sort_str (map fst (rows_by_id rows))) as [|k l IH]; cbn; [done|].
  destruct (dict_get k (rows_by_id rows)) as [row|] eqn:E; [|by destruct (Hall k ltac:(by left))].
  cbn. rewrite judge_route, IH; [done|]. intros k' Hk'. apply Hall. by right.
Qed.
End admission.

(** * Properties *)

(** Negative evidence fails closed. An observation that the route is unauthorized,
    unhealthy, exhausted or cooling down keeps it out of the admitted set, whatever
    healthy evidence there is beside it; so does evidence about its provider that names
    no account, when it says unauthorized, or exhausted or cooling down for a reason other
    than a rate limit. No sibling account, pool or connection state can hide it. *)
Theorem negative_evidence_blocks sha256_hex local_off prefix_first rid row conns runtime now source
    required min_context deny o :
  o ∈ ev_observations runtime ->
  (ob_key o = "route:" +:+ rid /\
   ob_state o ∈ ["unauthorized"; "unhealthy"; "exhausted"; "cooldown"]) \/
  ((exists name, name ∈ [lower (row_owned_by (ir_row row)); route_provider_prefix rid] /\
      name <> "" /\ ob_key o = "provider:" +:+ name) /\
   ob_account_id o = None /\ ob_workspace_id o = None /\ ob_pool_id o = None /\
   (ob_state o = "unauthorized" \/
    ob_state o ∈ ["exhausted"; "cooldown"] /\ (ob_category o ∉ RATE_LIMIT_COOLDOWN_CATEGORIES))) ->
  ar_admitted (judge sha256_hex local_off prefix_first rid row conns runtime now source required
                 min_context deny) = false.
Proof.
  intros Hin Hcase. unfold judge. set (su := subject rid row now source).
  destruct (entitled su conns) as [active|r] eqn:Ee; [|by eapply entitled_err].
  set (gateway := gateway_evidence _ _ _ _).
  unfold decide_route. edestruct (negative_found su) as [r Hr]; [|rewrite Hr; by eapply negative_dropped].
  destruct Hcase as [[Hk Hs]|(Hk & Ha & Hw & Hp & Hs)].
  - left. split; [|by apply mem_spec]. apply elem_of_app. left. unfold route_evidence, for_key.
    rewrite !elem_of_lfilter, Hk. split_and!; [done|by apply String.eqb_refl|].
    destruct (String.eqb_spec (ob_state o) "healthy") as [E|]; [|done]. rewrite E in Hs.
    rewrite !elem_of_cons in Hs. by destruct Hs as [|[|[|[|[]%not_elem_of_nil]]]].
  - right. split.
    + apply scoped_keeps; try done; [by apply provider_evidence_elem|].
      destruct Hs as [->|[_ ?]]; [left|by right]. rewrite !elem_of_cons.
      by intros [|[|[]%not_elem_of_nil]].
    + unfold state_in. apply mem_spec. rewrite !elem_of_cons.
      destruct Hs as [->|[Hs _]]; [by left|]. rewrite !elem_of_cons in Hs. naive_solver.
Qed.

(** What admission proves of a route in the admitted set: an inventory row has its id
    and it is no opaque router id, one of the active connections of its provider has a
    usable status, none of them has a live rate-limit window for it, nothing confirms it
    yet, its health is [unknown] unless a healthy observation of the route (not expired) or
    of its provider is in the evidence, and, unless it is admitted with unknown
    subscription headroom, it has the required capabilities and context and the policy does
    not deny it. *)
Theorem admitted_route sha256_hex local_off prefix_first rows conns runtime args s rid :
  admit_routes sha256_hex local_off prefix_first (Some rows) (Some conns) runtime args = Ok s ->
  rid ∈ ids s ->
  exists row r, row ∈ rows /\ canonical_route_id (ir_id row) = rid /\ r ∈ as_records s /\
    ar_route_id r = rid /\
    let evidence := admit_evidence runtime args in
    let su := subject rid row (aa_now args) (aa_connections_source args) in
    let serving := connections_for conns [su_resolved su; su_owned su; su_prefix su] in
    is_opaque rid = false /\
    (exists c, c ∈ serving /\ gc_active c = true /\ (test_status c ∉ BAD_TEST_STATUS)) /\
    (forall c, c ∈ serving -> gc_active c = true -> live_window c rid (aa_now args) = None) /\
    ar_confirmation_source r = None /\
    (ar_health r = "unknown" \/ ar_health r = "healthy" /\ exists o, o ∈ ev_observations evidence /\
       ob_state o = "healthy" /\
       (o ∈ route_evidence su evidence \/ exists name, name ∈ [su_owned su; su_prefix su] /\
          name <> "" /\ ob_key o = "provider:" +:+ name)) /\
    (ar_reason r <> "subscription_unknown" ->
       capability_verdict su (ir_row row) (aa_required args) (aa_min_context args) = None /\
       aa_deny args rid = "").
Proof.
  intros Hs (r & Hr & Ha & Hid)%elem_ids.
  destruct (admit_records _ _ _ _ _ _ _ _ _ Hs Hr) as (row & Hrow & Hc & Hj). rewrite Hid in *.
  exists row, r. do 4 (split; [done|]). cbv zeta.
  rewrite Hj in Ha. apply judge_admitted in Ha. by rewrite <- Hj in Ha.
Qed.

(** The admitted set holds exactly one record per canonical route id of the inventory,
    in sorted order of the ids. *)
Theorem admit_one_record_per_route sha256_hex local_off prefix_first rows conns runtime args s :
  admit_routes sha256_hex local_off prefix_first (Some rows) (Some conns) runtime args = Ok s ->
  base.NoDup (map ar_route_id (as_records s)) /\
  StronglySorted (fun a b => str_leb a b = true) (map ar_route_id (as_records s)) /\
  (forall x, x ∈ map ar_route_id (as_records s) <->
     exists row, row ∈ rows /\ strip (ir_id row) <> "" /\ canonical_route_id (ir_id row) = x).
Proof.
  intros Hs. rewrite (admit_ids _ _ _ _ _ _ _ _ Hs).
  destruct (rows_by_id_spec rows) as (Hnd & Hin & Hall). split_and!.
  - by rewrite sort_str_perm.
  - apply sort_by_sorted; eauto with verdict.
  - intros x. rewrite elem_of_sort_str. split.
    + intros ([k row] & -> & Hk)%list_elem_of_fmap. exists row. by apply Hin.
    + intros (row & Hr & Hne & <-). by apply Hall.
Qed.

(** * Persisted evidence carries no launch authority *)

Lemma state_for_category_negative c : state_for_category c <> "healthy".
Proof. unfold state_for_category. by repeat case_match. Qed.

(** Every entry of a list of persisted entries that yields an observation yields a
    negative one. *)
Ltac negative_entry H :=
  let k := fresh in let e := fresh in
  apply elem_of_omap in H as ([k e] & _ & H); cbn in H;
  repeat first [ progress simplify_eq/=
               | match type of H with _ ≫= _ = _ => apply bind_Some in H as (? & _ & H) end
               | case_match ];
  first [apply state_for_category_negative | done].

Lemma default_evidence_negative ladder health rest now o :
  o ∈ ev_observations (default_runtime_evidence ladder health rest now) -> ob_state o <> "healthy".
Proof.
  unfold default_runtime_evidence, merged. cbn [ev_observations]. rewrite !elem_of_app.
  intros [[H|H]|H].
  - unfold evidence_from_ladder_state in H. destruct ladder as [l|]; [|by apply not_elem_of_nil in H].
    cbn [ev_observations] in H. apply elem_of_app in H as [H|H]; negative_entry H.
  - unfold evidence_from_health_cache in H. destruct health as [l|]; [|by apply not_elem_of_nil in H].
    cbn [ev_observations] in H. negative_entry H.
  - unfold evidence_from_at_rest_health_cache in H. destruct rest as [l|]; [|by apply not_elem_of_nil in H].
    cbn [ev_observations] in H. apply elem_of_app in H as [H|H]; negative_entry H.
Qed.

(** Writable state on disk is never launch authority: a set admitted on the persisted
    evidence alone (the ladder state, the worker health cache and the at-rest health cache,
    with any contents) has no launchable route; every launch needs a live confirmation of
    the exact route first. *)
Theorem persisted_state_no_authority sha256_hex local_off prefix_first rows conns ladder health rest
    now args s rid :
  admit_routes sha256_hex local_off prefix_first (Some rows) (Some conns)
    (Some (default_runtime_evidence ladder health rest now)) args = Ok s ->
  aa_snapshots args = [] -> launchable s rid = false.
Proof.
  intros Hs Hsnap. unfold launchable. destruct (record_for s rid) as [r|] eqn:Er; [|done].
  unfold record_for in Er. apply find_some in Er as [Hr _]. rewrite <- list_elem_of_In in Hr.
  destruct (ar_admitted r) eqn:Ha; [|done]. cbn [negb].
  destruct (admit_records _ _ _ _ _ _ _ _ _ Hs Hr) as (row & _ & _ & Hj). rewrite Hj in Ha.
  apply judge_admitted in Ha as (_ & _ & _ & Hconf & Hh & _). rewrite <- Hj in Hconf, Hh.
  unfold confirmed. rewrite Hconf. rewrite (bool_decide_false (is_Some None)) by (by intros [? ?]).
  destruct Hh as [->|[_ (o & Ho & Hst & _)]]; [by destruct (_ && _)|].
  exfalso. unfold admit_evidence in Ho. rewrite Hsnap in Ho.
  by apply default_evidence_negative in Ho.
Qed.

(** * Concrete evidence *)

Definition gateway_row (provider account : string) : GatewayConnection :=
  {| gc_conn := {| conn_provider := provider; conn_active := true; conn_auth_type := "oauth";
       conn_plan_label := "max"; conn_importFreeModelsOnly := false;
       conn_import_free_only := false; conn_specific := None; conn_quota_models := [];
       conn_quota_percent := None; conn_rate_limited_until := []; conn_quota_reset_at := "" |};
     gc_test_status := "active"; gc_account_id := account; gc_id := ""; gc_workspace_id := "";
     gc_scope_type := ""; gc_scope_id := ""; gc_model := ""; gc_pool_id := "";
     gc_last_error := ""; gc_rate_limited_until := None; gc_last_error_at := "";
     gc_observed_at := ""; gc_updated_at := ""; gc_last_tested := "" |}.

Definition inventory_row (id owned_by : string) : InventoryRow :=
  {| ir_id := id;
     ir_row := {| row_owned_by := owned_by; row_type := "chat"; row_caps := None;
                  row_max_input_tokens := Some 200000; row_context_length := None;
                  row_capability_tier := Some 1; row_pricing := None |};
     ir_pool := ""; ir_account_id := "" |}.

Definition snapshot (balances : list Balance) : CapacitySnapshot :=
  {| cs_provider_id := "claude"; cs_account_id := "acct-1"; cs_workspace_id := None;
     cs_observed_at := 63900000000000000; cs_fresh_until := None; cs_pools := [];
     cs_balances := balances; cs_errors := [] |}.

Definition admit_args (deny : string -> string) (snapshots : list CapacitySnapshot) : AdmitArgs :=
  {| aa_now := 63900000001000000; aa_require_runtime := true;
     aa_inventory_source := "omniroute:/v1/models";
     aa_connections_source := "omniroute:/api/providers"; aa_required := []; aa_min_context := 0;
     aa_deny := deny; aa_snapshots := snapshots; aa_freshness_us := 300000000 |}.

Definition no_hash (s : string) : string := s.

Definition claude_rows : list InventoryRow :=
  [inventory_row "cc/claude-sonnet-5" "claude"; inventory_row "omniroute/cc/claude-opus-5" "claude"].

Definition stale_state : StateFile :=
  {| sf_health := [("cc/claude-sonnet-5", {| sh_checked_at := Some "2025-11-26T00:00:00+00:00";
                     sh_category := "timeout"; sh_healthy := true |})];
     sf_cooldowns := [("route:cc/claude-opus-5", {| sd_until := Some "2199-01-01T00:00:00+00:00";
                       sd_category := "timeout" |})] |}.

Definition persisted_run : result unavailable_exn AdmittedSet :=
  admit_routes no_hash 0 false (Some claude_rows) (Some [gateway_row "claude" "acct-1"])
    (Some (default_runtime_evidence (Some stale_state) None None 63900000001000000))
    (admit_args (fun _ => "") []).

Definition empty_set : AdmittedSet :=
  {| as_records := []; as_generated_at := ""; as_sources := []; as_controller_identity := "";
     as_narrowing := []; as_runtime_consulted := [] |}.

Definition persisted_set : AdmittedSet :=
  match persisted_run with Ok s => s | Err _ => empty_set end.

Lemma persisted_state_no_authority_witness :
  ids persisted_set = ["cc/claude-sonnet-5"] /\ launchable persisted_set "cc/claude-sonnet-5" = false.
Proof.
  split; [vm_compute; reflexivity|].
  apply (persisted_state_no_authority no_hash 0 false claude_rows [gateway_row "claude" "acct-1"]
    (Some stale_state) None None 63900000001000000 (admit_args (fun _ => "") [])).
  - vm_compute. reflexivity.
  - reflexivity.
Defined.

Lemma admit_one_record_per_route_witness :
  base.NoDup (map ar_route_id (as_records persisted_set)).
Proof.
  apply (admit_one_record_per_route no_hash 0 false claude_rows [gateway_row "claude" "acct-1"]
    (Some (default_runtime_evidence (Some stale_state) None None 63900000001000000))
    (admit_args (fun _ => "") [])).
  vm_compute. reflexivity.
Defined.

Lemma admitted_route_witness :
  exists row r, row ∈ claude_rows /\ canonical_route_id (ir_id row) = "cc/claude-sonnet-5" /\
    r ∈ as_records persisted_set /\ ar_route_id r = "cc/claude-sonnet-5".
Proof.
  destruct (admitted_route no_hash 0 false claude_rows [gateway_row "claude" "acct-1"]
    (Some (default_runtime_evidence (Some stale_state) None None 63900000001000000))
    (admit_args (fun _ => "") []) persisted_set "cc/claude-sonnet-5")
    as (row & r & H1 & H2 & H3 & H4 & _).
  - vm_compute. reflexivity.
  - apply mem_spec. vm_compute. reflexivity.
  - exists row, r. done.
Defined.

Lemma negative_evidence_blocks_witness :
  ar_admitted (judge no_hash 0 false "cc/claude-opus-5" (inventory_row "cc/claude-opus-5" "claude")
    [gateway_row "claude" "acct-1"]
    (default_runtime_evidence (Some stale_state) None None 63900000001000000) 63900000001000000
    "src" [] 0 (fun _ => "")) = false.
Proof.
  apply (negative_evidence_blocks no_hash 0 false "cc/claude-opus-5"
    (inventory_row "cc/claude-opus-5" "claude") [gateway_row "claude" "acct-1"]
    (default_runtime_evidence (Some stale_state) None None 63900000001000000) 63900000001000000
    "src" [] 0 (fun _ => "")
    (observation "route:cc/claude-opus-5" "cooldown" "timeout" "ladder_state:orchestration-health.json"
       None (Some "2199-01-01T00:00:00+00:00"))).
  - vm_compute. left.
  - left. split; [reflexivity|]. do 3 right. left.
Defined.

(** A route with unknown subscription headroom is admitted before the policy and the
    capability requirements are looked at: a route the policy denies is admitted, and one
    successful confirmation makes it launchable. *)
Theorem unknown_headroom_skips_policy :
  let args := admit_args (fun _ => "denied_by_policy") [snapshot []] in
  exists s s', admit_routes no_hash 0 false (Some [inventory_row "cc/claude-sonnet-5" "claude"])
      (Some [gateway_row "claude" "acct-1"]) None args = Ok s /\
    admits s "cc/claude-sonnet-5" = true /\
    record_confirmation s "cc/claude-sonnet-5" true "probe" "now" "" = Ok s' /\
    launchable s' "cc/claude-sonnet-5" = true.
Proof. eexists _, _. split_and!; vm_compute; reflexivity. Qed.

(** A positive subscription credit balance of the account counts as a healthy
    observation of every route of the provider: such a route is launchable without any
    probe or success of the route itself. *)
Theorem credit_balance_is_launch_authority :
  let args := admit_args (fun _ => "")
    [snapshot [{| bal_id := "credits"; bal_kind := "subscription_credits"; bal_remaining := Some 5%Q |}]] in
  exists s, admit_routes no_hash 0 false (Some [inventory_row "claude/never-probed" "claude"])
      (Some [gateway_row "claude" "acct-1"]) None args = Ok s /\
    for_key (admit_evidence None args) "route:claude/never-probed" = [] /\
    launchable s "claude/never-probed" = true.
Proof. eexists. split_and!; vm_compute; reflexivity. Qed.
