(* ===== verification/CostLedger.v ===== *)
(** [verdict/cost_ledger.py]: cost terms, reservations against the cash,
    subscription, quota and cheaper-inference pools, reconciliation and release.

    A [Decimal] is the rational it denotes ([Q]); sums, differences, products and
    divisions by powers of ten are exact as long as they fit the 28 digits of the
    default context. Amounts are compared with [==] and [Qle_bool]. *)
From Stdlib Require Import Ascii Lqa.
From S2P Require Import Prelude PyStr Time PyNum.

(** [CostLedgerError] with its message; an [AssertionError]; a [TypeError] of
    comparing a naive with an aware datetime; a [ValueError] of
    [datetime.fromisoformat]. *)
Inductive ledger_exn :=
| CostLedgerError (msg : string)
| AssertionError
| TypeError
| ValueError.

(** * Decimals *)

(** A value a caller may pass as an amount: a [Decimal] ([None] for NaN and the
    infinities), an [int], a [bool], or text ([str(value)] of a [str] or a
    [float]). *)
Inductive amount_in :=
| InDecimal (d : option Q)
| InInt (z : Z)
| InBool (b : bool)
| InText (s : string).

(** [_as_decimal] *)
Definition as_decimal (value : option amount_in) (field : string)
    : result ledger_exn (option Q) :=
  let bad := Err (CostLedgerError (field +:+ " must be a finite decimal")) in
  match value with
  | None => Ok None
  | Some (InDecimal (Some q)) => Ok (Some q)
  | Some (InDecimal None) => bad
  | Some (InBool _) => bad
  | Some (InInt z) => Ok (Some (inject_Z z))
  | Some (InText s) =>
      match parse_decimal s with
      | Some (Some q) => Ok (Some q)
      | _ => bad
      end
  end.

(** [_require_non_negative] *)
Definition require_non_negative (amount : Q) (field : string) : result ledger_exn Q :=
  _ ← raise_if (Qltb amount 0) (CostLedgerError (field +:+ " must be non-negative"));
  Ok amount.

(** [_require_non_negative(_as_decimal(v, field) or Decimal("0"), field)] *)
Definition non_negative_in (v : option amount_in) (field : string) : result ledger_exn Q :=
  d ← as_decimal v field;
  require_non_negative (default 0%Q d) field.

(** [_utc] *)
Definition utc_of (value : option datetime) (field : string)
    : result ledger_exn (option datetime) :=
  match value with
  | None => Ok None
  | Some d => match dt_off d with
              | None => Err (CostLedgerError (field +:+ " must be timezone-aware"))
              | Some _ => Ok (Some (astimezone_utc d))
              end
  end.

(** * Cost terms *)

Record CostTerm := {
  ct_kind : string;
  ct_amount : option Q;
  ct_unit : string;
  ct_status : string;
  ct_evidence_id : option string;
  ct_observed_at : option datetime;
  ct_fresh_until : option datetime;
  ct_notes : option string
}.

Definition STATUSES : list string := ["observed"; "estimated"; "unknown"; "assumed"].
Definition UNITS : list string :=
  ["usd"; "tokens"; "quota_units"; "subscription_units"; "dimensionless"].

(** [CostTerm(...)] with its [__post_init__] *)
Definition cost_term (kind : string) (amount : option amount_in) (unit status : string)
    (evidence_id : option string) (observed_at fresh_until : option datetime)
    (notes : option string) : result ledger_exn CostTerm :=
  _ ← raise_if (String.eqb (strip kind) "") (CostLedgerError "kind must be a non-empty string");
  _ ← raise_if (negb (mem status STATUSES)) (CostLedgerError ("invalid status: " +:+ repr status));
  _ ← raise_if (negb (mem unit UNITS)) (CostLedgerError ("invalid unit: " +:+ repr unit));
  observed ← utc_of observed_at "observed_at";
  fresh ← utc_of fresh_until "fresh_until";
  let mk a := {| ct_kind := kind; ct_amount := a; ct_unit := unit; ct_status := status;
                 ct_evidence_id := evidence_id; ct_observed_at := observed;
                 ct_fresh_until := fresh; ct_notes := notes |} in
  if String.eqb status "unknown" then
    _ ← raise_if (bool_decide (is_Some amount))
          (CostLedgerError "unknown terms must not carry an amount");
    Ok (mk None)
  else
    d ← as_decimal amount "amount";
    match d with
    | None => Err (CostLedgerError (status +:+ " terms require an amount"))
    | Some a => a ← require_non_negative a "amount"; Ok (mk (Some a))
    end.

(** * Reservations *)

Inductive SpendPool := Cash | Subscription | Quota | CheaperInference | OtherPool (name : string).

Inductive ReservationStatus := Reserved | Reconciled | Released | Partial.

#[global] Instance pool_eq_dec : EqDecision SpendPool.
Proof. solve_decision. Defined.
#[global] Instance reservation_status_eq_dec : EqDecision ReservationStatus.
Proof. solve_decision. Defined.

Definition status_value (s : ReservationStatus) : string :=
  match s with
  | Reserved => "reserved" | Reconciled => "reconciled"
  | Released => "released" | Partial => "partial"
  end.

Record Reservation := {
  r_id : string;
  r_trajectory_id : string;
  r_amount : Q;
  r_unit : string;
  r_pool : SpendPool;
  r_status : ReservationStatus;
  r_reserved_at : datetime;
  r_terms : list CostTerm;
  r_actual_amount : option Q;
  r_notes : option string;
  r_pool_id : option string
}.

(** The ledger. The lock serialises the operations, so one operation is one
    transition of this state. *)
Record CostLedger := {
  trajectory_id : string;
  cash_budget : option Q;
  subscription_budgets : gmap string Q;
  quota_budgets : gmap string Q;
  ci_budget : Q;
  ci_floor : Q;
  reservations : list (string * Reservation);
  cash_reserved : Q;
  cash_spent : Q;
  subscription_reserved : gmap string Q;
  quota_reserved : gmap string Q;
  ci_reserved : Q;
  ci_spent : Q;
  assistance_terms : list CostTerm
}.

Definition with_reservations (l : CostLedger) rs : CostLedger :=
  {| trajectory_id := trajectory_id l; cash_budget := cash_budget l;
     subscription_budgets := subscription_budgets l; quota_budgets := quota_budgets l;
     ci_budget := ci_budget l; ci_floor := ci_floor l; reservations := rs;
     cash_reserved := cash_reserved l; cash_spent := cash_spent l;
     subscription_reserved := subscription_reserved l; quota_reserved := quota_reserved l;
     ci_reserved := ci_reserved l; ci_spent := ci_spent l;
     assistance_terms := assistance_terms l |}.

Definition with_cash (l : CostLedger) reserved spent : CostLedger :=
  {| trajectory_id := trajectory_id l; cash_budget := cash_budget l;
     subscription_budgets := subscription_budgets l; quota_budgets := quota_budgets l;
     ci_budget := ci_budget l; ci_floor := ci_floor l; reservations := reservations l;
     cash_reserved := reserved; cash_spent := spent;
     subscription_reserved := subscription_reserved l; quota_reserved := quota_reserved l;
     ci_reserved := ci_reserved l; ci_spent := ci_spent l;
     assistance_terms := assistance_terms l |}.

Definition with_ci (l : CostLedger) reserved spent : CostLedger :=
  {| trajectory_id := trajectory_id l; cash_budget := cash_budget l;
     subscription_budgets := subscription_budgets l; quota_budgets := quota_budgets l;
     ci_budget := ci_budget l; ci_floor := ci_floor l; reservations := reservations l;
     cash_reserved := cash_reserved l; cash_spent := cash_spent l;
     subscription_reserved := subscription_reserved l; quota_reserved := quota_reserved l;
     ci_reserved := reserved; ci_spent := spent;
     assistance_terms := assistance_terms l |}.

Definition with_subscription (l : CostLedger) m : CostLedger :=
  {| trajectory_id := trajectory_id l; cash_budget := cash_budget l;
     subscription_budgets := subscription_budgets l; quota_budgets := quota_budgets l;
     ci_budget := ci_budget l; ci_floor := ci_floor l; reservations := reservations l;
     cash_reserved := cash_reserved l; cash_spent := cash_spent l;
     subscription_reserved := m; quota_reserved := quota_reserved l;
     ci_reserved := ci_reserved l; ci_spent := ci_spent l;
     assistance_terms := assistance_terms l |}.

Definition with_quota (l : CostLedger) m : CostLedger :=
  {| trajectory_id := trajectory_id l; cash_budget := cash_budget l;
     subscription_budgets := subscription_budgets l; quota_budgets := quota_budgets l;
     ci_budget := ci_budget l; ci_floor := ci_floor l; reservations := reservations l;
     cash_reserved := cash_reserved l; cash_spent := cash_spent l;
     subscription_reserved := subscription_reserved l; quota_reserved := m;
     ci_reserved := ci_reserved l; ci_spent := ci_spent l;
     assistance_terms := assistance_terms l |}.

Definition with_assistance (l : CostLedger) ts : CostLedger :=
  {| trajectory_id := trajectory_id l; cash_budget := cash_budget l;
     subscription_budgets := subscription_budgets l; quota_budgets := quota_budgets l;
     ci_budget := ci_budget l; ci_floor := ci_floor l; reservations := reservations l;
     cash_reserved := cash_reserved l; cash_spent := cash_spent l;
     subscription_reserved := subscription_reserved l; quota_reserved := quota_reserved l;
     ci_reserved := ci_reserved l; ci_spent := ci_spent l; assistance_terms := ts |}.

(** The budgets of a mapping, each checked. *)
Fixpoint budgets_in (label : string) (m : list (string * option amount_in))
    : result ledger_exn (gmap string Q) :=
  match m with
  | [] => Ok ∅
  | (k, v) :: m =>
      q ← non_negative_in v (label +:+ "[" +:+ k +:+ "]");
      rest ← budgets_in label m;
      Ok (<[k := q]> rest)
  end.

(** [CostLedger(...)] with its [__post_init__] *)
Definition cost_ledger (trajectory : string) (cash : option amount_in)
    (subs quotas : list (string * option amount_in)) (ci floor : option amount_in)
    : result ledger_exn CostLedger :=
  _ ← raise_if (String.eqb (strip trajectory) "")
        (CostLedgerError "trajectory_id must be non-empty");
  cash ← match cash with
         | None => Ok None
         | Some v => q ← non_negative_in (Some v) "cash_budget_usd"; Ok (Some q)
         end;
  ci ← non_negative_in ci "cheaper_inference_budget_usd";
  floor ← non_negative_in floor "cheaper_inference_protected_floor_usd";
  _ ← raise_if (Qltb ci floor)
        (CostLedgerError "protected floor cannot exceed CheaperInference budget");
  subs ← budgets_in "subscription_budgets" subs;
  quotas ← budgets_in "quota_budgets" quotas;
  Ok {| trajectory_id := trajectory; cash_budget := cash; subscription_budgets := subs;
        quota_budgets := quotas; ci_budget := ci; ci_floor := floor; reservations := [];
        cash_reserved := 0; cash_spent := 0; subscription_reserved := ∅;
        quota_reserved := ∅; ci_reserved := 0; ci_spent := 0; assistance_terms := [] |}.

(** [remaining_cash_usd] *)
Definition remaining_cash (l : CostLedger) : option Q :=
  b ← cash_budget l; Some (b - cash_reserved l - cash_spent l)%Q.

(** [remaining_cheaper_inference_usd] *)
Definition remaining_ci (l : CostLedger) : Q := (ci_budget l - ci_reserved l - ci_spent l)%Q.

(** [protected_cheaper_inference_remaining_usd] *)
Definition protected_ci_remaining (l : CostLedger) : Q :=
  let usable := (ci_budget l - ci_floor l)%Q in
  let consumed := (ci_reserved l + ci_spent l)%Q in
  if Qltb consumed usable then ci_floor l else Qmax0 (ci_budget l - consumed).

(** The subscription or quota branch of [reserve]. *)
Definition reserve_named (label : string) (budgets reserved : gmap string Q)
    (pool_id : option string) (amount : Q) : result ledger_exn (gmap string Q) :=
  let id := default "" pool_id in
  _ ← raise_if (String.eqb id "") (CostLedgerError (label +:+ " reserve requires pool_id"));
  match budgets !! id with
  | None => Err (CostLedgerError ("unknown " +:+ label +:+ " pool: " +:+ repr id))
  | Some budget =>
      let held := default 0%Q (reserved !! id) in
      _ ← raise_if (Qltb (budget - held)%Q amount)
            (CostLedgerError ("insufficient " +:+ label +:+ " budget"));
      Ok (<[id := (held + amount)%Q]> reserved)
  end.

(** The pool branches of [reserve]: the ledger with [amount] more held. *)
Definition hold (l : CostLedger) (pool : SpendPool) (unit : string)
    (pool_id : option string) (allow_protected : bool) (amount : Q)
    : result ledger_exn CostLedger :=
  match pool with
  | Cash =>
      _ ← raise_if (negb (String.eqb unit "usd")) (CostLedgerError "cash pool requires usd unit");
      _ ← match cash_budget l with
          | None => Ok tt
          | Some b => raise_if (Qltb (b - cash_reserved l - cash_spent l)%Q amount)
                        (CostLedgerError "insufficient cash budget")
          end;
      Ok (with_cash l (cash_reserved l + amount)%Q (cash_spent l))
  | Subscription =>
      m ← reserve_named "subscription" (subscription_budgets l) (subscription_reserved l)
            pool_id amount;
      Ok (with_subscription l m)
  | Quota =>
      m ← reserve_named "quota" (quota_budgets l) (quota_reserved l) pool_id amount;
      Ok (with_quota l m)
  | CheaperInference =>
      _ ← raise_if (negb (String.eqb unit "usd"))
            (CostLedgerError "cheaper_inference pool requires usd unit");
      let usable := if allow_protected then ci_budget l else (ci_budget l - ci_floor l)%Q in
      _ ← raise_if (Qltb (usable - ci_reserved l - ci_spent l)%Q amount)
            (CostLedgerError "insufficient CheaperInference budget");
      Ok (with_ci l (ci_reserved l + amount)%Q (ci_spent l))
  | OtherPool name => Err (CostLedgerError ("unknown pool: " +:+ repr name))
  end.

(** [CostLedger.reserve]; [rid] is the fresh [uuid4] and [now] the clock or the
    argument. *)
Definition reserve (l : CostLedger) (rid : string) (amount : amount_in) (pool : SpendPool)
    (unit : string) (pool_id : option string) (terms : list CostTerm)
    (allow_protected : bool) (now : datetime) : result ledger_exn (CostLedger * Reservation) :=
  amount ← non_negative_in (Some amount) "amount";
  when ← utc_of (Some now) "now";
  l' ← hold l pool unit pool_id allow_protected amount;
  let r := {| r_id := rid; r_trajectory_id := trajectory_id l; r_amount := amount;
              r_unit := unit; r_pool := pool; r_status := Reserved;
              r_reserved_at := default now when; r_terms := terms; r_actual_amount := None;
              r_notes := None; r_pool_id := pool_id |} in
  Ok (with_reservations l' (dict_set rid r (reservations l')), r).

(** A named pool of [_apply_settle] and [_release_reserved]: the held amount
    changes by [delta], never below zero. *)
Definition shift_named (reserved : gmap string Q) (pool_id : option string) (delta : Q)
    : result ledger_exn (gmap string Q) :=
  match pool_id with
  | None => Err AssertionError
  | Some id => Ok (<[id := Qmax0 (default 0%Q (reserved !! id) + delta)]> reserved)
  end.

(** [_apply_settle] *)
Definition apply_settle (l : CostLedger) (r : Reservation) (actual : Q)
    : result ledger_exn CostLedger :=
  let reserved := r_amount r in
  match r_pool r with
  | Cash => Ok (with_cash l (Qmax0 (cash_reserved l - reserved)) (cash_spent l + actual)%Q)
  | Subscription =>
      m ← shift_named (subscription_reserved l) (r_pool_id r) (- reserved + actual)%Q;
      Ok (with_subscription l m)
  | Quota =>
      m ← shift_named (quota_reserved l) (r_pool_id r) (- reserved + actual)%Q;
      Ok (with_quota l m)
  | CheaperInference =>
      Ok (with_ci l (Qmax0 (ci_reserved l - reserved)) (ci_spent l + actual)%Q)
  | OtherPool _ => Ok l
  end.

(** [_release_reserved] *)
Definition release_reserved (l : CostLedger) (r : Reservation) (amount : Q)
    : result ledger_exn CostLedger :=
  match r_pool r with
  | Cash => Ok (with_cash l (Qmax0 (cash_reserved l - amount)) (cash_spent l))
  | Subscription =>
      m ← shift_named (subscription_reserved l) (r_pool_id r) (- amount)%Q;
      Ok (with_subscription l m)
  | Quota =>
      m ← shift_named (quota_reserved l) (r_pool_id r) (- amount)%Q;
      Ok (with_quota l m)
  | CheaperInference => Ok (with_ci l (Qmax0 (ci_reserved l - amount)) (ci_spent l))
  | OtherPool _ => Ok l
  end.

Record CacheEvidence := {
  ce_cached_input_tokens : option Z;
  ce_cache_hit : option bool;
  ce_savings_usd : option amount_in;
  ce_evidence_id : option string
}.

(** [_cache_terms] *)
Definition cache_terms (e : CacheEvidence) (cached_tokens : option Z)
    : result ledger_exn (list CostTerm) :=
  let tokens := match ce_cached_input_tokens e with Some t => Some t | None => cached_tokens end in
  read ← match tokens with
         | None => Ok []
         | Some t => c ← cost_term "cache_read" (Some (InInt t)) "tokens" "observed"
                           (ce_evidence_id e) None None None;
                     Ok [c]
         end;
  match ce_savings_usd e with
  | None =>
      if bool_decide (ce_cache_hit e = Some true) then
        c ← cost_term "cache_read" None "usd" "unknown" (ce_evidence_id e) None None
              (Some "cache_hit_without_observed_savings");
        Ok (read ++ [c])
      else Ok read
  | Some savings =>
      amount ← non_negative_in (Some savings) "savings_usd";
      c ← cost_term "cache_read" (Some (InDecimal (Some amount))) "usd" "observed"
            (ce_evidence_id e) None None (Some "observed_cache_savings");
      Ok (read ++ [c])
  end.

(** [replace(current, status=..., reconcile_notes=...)] *)
Definition mark (r : Reservation) (s : ReservationStatus) (notes : string) : Reservation :=
  {| r_id := r_id r; r_trajectory_id := r_trajectory_id r; r_amount := r_amount r;
     r_unit := r_unit r; r_pool := r_pool r; r_status := s; r_reserved_at := r_reserved_at r;
     r_terms := r_terms r; r_actual_amount := r_actual_amount r; r_notes := Some notes;
     r_pool_id := r_pool_id r |}.

Definition settled (r : Reservation) (s : ReservationStatus) (actual : Q)
    (terms : list CostTerm) (notes : string) : Reservation :=
  {| r_id := r_id r; r_trajectory_id := r_trajectory_id r; r_amount := r_amount r;
     r_unit := r_unit r; r_pool := r_pool r; r_status := s; r_reserved_at := r_reserved_at r;
     r_terms := terms; r_actual_amount := Some actual; r_notes := Some notes;
     r_pool_id := r_pool_id r |}.

(** [notes or fallback] *)
Definition notes_or (notes : option string) (fallback : string) : string :=
  match notes with
  | Some n => if String.eqb n "" then fallback else n
  | None => fallback
  end.

Definition put (l : CostLedger) (rid : string) (r : Reservation) : CostLedger :=
  with_reservations l (dict_set rid r (reservations l)).

(** [self._reservations.get(reservation_id)], raising when it is unknown *)
Definition find_reservation (l : CostLedger) (rid : string) : result ledger_exn Reservation :=
  match dict_get rid (reservations l) with
  | None => Err (CostLedgerError ("unknown reservation: " +:+ repr rid))
  | Some r => Ok r
  end.

Record ReconcileArgs := {
  ra_actual_amount : option amount_in;
  ra_missing : bool;
  ra_delayed : bool;
  ra_partial : bool;
  ra_cached_tokens : option Z;
  ra_cache_evidence : option CacheEvidence;
  ra_notes : option string
}.

(** The cache terms that [reconcile] appends. *)
Definition reconcile_terms (a : ReconcileArgs) : result ledger_exn (list CostTerm) :=
  match ra_cache_evidence a, ra_cached_tokens a with
  | Some e, ct => cache_terms e ct
  | None, Some t =>
      c ← cost_term "cache_read" (Some (InInt t)) "tokens" "observed" None None None
            (Some "cached_tokens_without_priced_savings");
      Ok [c]
  | None, None => Ok []
  end.

(** [CostLedger.reconcile] *)
Definition reconcile (l : CostLedger) (rid : string) (a : ReconcileArgs)
    : result ledger_exn (CostLedger * Reservation) :=
  r ← find_reservation l rid;
  _ ← raise_if (bool_decide (r_status r = Reconciled \/ r_status r = Released))
        (CostLedgerError ("reservation already " +:+ status_value (r_status r)));
  if ra_missing a then
    let u := mark r Reserved (notes_or (ra_notes a) "actual_missing_conservative_hold") in
    Ok (put l rid u, u)
  else if ra_delayed a && bool_decide (ra_actual_amount a = None) then
    let u := mark r Reserved (notes_or (ra_notes a) "actual_delayed_hold") in
    Ok (put l rid u, u)
  else
    _ ← raise_if (bool_decide (ra_actual_amount a = None) && negb (ra_partial a))
          (CostLedgerError "actual_amount required unless missing/delayed/partial");
    actual ← non_negative_in (ra_actual_amount a) "actual_amount";
    extra ← reconcile_terms a;
    let s := if ra_partial a && Qltb actual (r_amount r) then Partial else Reconciled in
    l' ← apply_settle l r actual;
    let u := settled r s actual (r_terms r ++ extra)
               (notes_or (ra_notes a)
                  (if bool_decide (s = Partial) then "partial_billing" else "reconciled")) in
    Ok (put l' rid u, u).

(** [CostLedger.release] *)
Definition release (l : CostLedger) (rid : string) : result ledger_exn (CostLedger * Reservation) :=
  r ← find_reservation l rid;
  _ ← raise_if (bool_decide (r_status r <> Reserved))
        (CostLedgerError ("cannot release reservation in status " +:+ status_value (r_status r)));
  l' ← release_reserved l r (r_amount r);
  let u := mark r Released "released" in
  Ok (put l' rid u, u).

(** * Terms from evidence *)

Record PriceEvidence := {
  pe_input : option amount_in;
  pe_output : option amount_in;
  pe_stale : bool;
  pe_fresh_until : option string;
  pe_evidence_id : option string
}.

(** The [fresh_until] text of a price: the datetime, and whether it has passed. *)
Definition price_freshness (p : PriceEvidence) (when : datetime)
    : result ledger_exn (option datetime * bool) :=
  match pe_fresh_until p with
  | None => Ok (None, false)
  | Some raw =>
      if String.eqb raw "" then Ok (None, false)
      else match fromisoformat (replace_with "Z" "+00:00" raw) with
           | None => Err ValueError
           | Some f => match dt_off f with
                       | None => Err TypeError
                       | Some _ => Ok (Some f, instant f <=? instant when)
                       end
           end
  end.

(** [tokens_to_usd_term] *)
Definition tokens_to_usd_term (tokens : Z) (kind : string) (price : option PriceEvidence)
    (now : datetime) (output : bool) : result ledger_exn CostTerm :=
  when ← utc_of (Some now) "now";
  match price with
  | None => cost_term kind None "usd" "unknown" None when None (Some "price_unknown")
  | Some p =>
      let rate_key := if output then "output_usd_per_mtok" else "input_usd_per_mtok" in
      match (if output then pe_output p else pe_input p) with
      | None => cost_term kind None "usd" "unknown" (pe_evidence_id p) when None
                  (Some (rate_key +:+ "_missing"))
      | Some raw =>
          rate ← as_decimal (Some raw) rate_key;
          let usd := (inject_Z tokens * default 0%Q rate / inject_Z 1000000)%Q in
          '(fresh, expired) ← price_freshness p (default now when);
          let stale := pe_stale p || expired in
          cost_term kind (Some (InDecimal (Some usd))) "usd"
            (if stale then "assumed" else "estimated") (pe_evidence_id p) when fresh
            (Some (if stale then "stale_price_conservative" else "priced_from_evidence"))
      end
  end.

(** [subscription_opportunity_term] *)
Definition subscription_opportunity_term (units : option amount_in) (status : string)
    (evidence_id : option string) : result ledger_exn CostTerm :=
  match units with
  | None => cost_term "subscription_opportunity" None "subscription_units" "unknown"
              evidence_id None None None
  | Some u =>
      amount ← non_negative_in (Some u) "units";
      cost_term "subscription_opportunity" (Some (InDecimal (Some amount)))
        "subscription_units" status evidence_id None None None
  end.

(** The token buckets of an [AssistanceCost]. *)
Record AssistanceCost := {
  planning_tokens : Z; context_tokens : Z; tool_tokens : Z; verification_tokens : Z
}.

(** The loop of [attribute_assistance]. *)
Fixpoint bucket_terms (buckets : list (string * Z)) (price : option PriceEvidence)
    (now : datetime) : result ledger_exn (list CostTerm) :=
  match buckets with
  | [] => Ok []
  | (kind, tokens) :: rest =>
      if tokens <=? 0 then bucket_terms rest price now
      else
        t ← cost_term kind (Some (InInt tokens)) "tokens" "estimated" None (Some now) None
              (Some "assistance_cost_attribution");
        usd ← tokens_to_usd_term tokens kind price now false;
        ts ← bucket_terms rest price now;
        Ok (t :: usd :: ts)
  end.

(** [CostLedger.attribute_assistance] *)
Definition attribute_assistance (l : CostLedger) (a : AssistanceCost)
    (price : option PriceEvidence) (now : datetime)
    : result ledger_exn (CostLedger * list CostTerm) :=
  when ← utc_of (Some now) "now";
  terms ← bucket_terms
            [("planning", planning_tokens a); ("hydration", context_tokens a);
             ("tools", tool_tokens a); ("verification", verification_tokens a)]
            price (default now when);
  Ok (with_assistance l (assistance_terms l ++ terms), terms).

(** * Operations as transitions *)

(** A call of one of the operations that change the ledger. *)
Inductive ledger_op :=
| OpReserve (rid : string) (amount : amount_in) (pool : SpendPool) (unit : string)
    (pool_id : option string) (terms : list CostTerm) (allow_protected : bool) (now : datetime)
| OpReconcile (rid : string) (a : ReconcileArgs)
| OpRelease (rid : string)
| OpAttribute (a : AssistanceCost) (price : option PriceEvidence) (now : datetime).

Definition ledger_exec (l : CostLedger) (op : ledger_op) : result ledger_exn CostLedger :=
  match op with
  | OpReserve rid amount pool unit pool_id terms allow now =>
      '(l', _) ← reserve l rid amount pool unit pool_id terms allow now; Ok l'
  | OpReconcile rid a => '(l', _) ← reconcile l rid a; Ok l'
  | OpRelease rid => '(l', _) ← release l rid; Ok l'
  | OpAttribute a price now => '(l', _) ← attribute_assistance l a price now; Ok l'
  end.

(** * The books of a ledger *)

(** What a reservation holds while it is open, and what it spent once settled. *)
Definition open_amount (r : Reservation) : Q :=
  match r_status r with Reserved => r_amount r | _ => 0%Q end.

Definition spent_amount (r : Reservation) : Q :=
  match r_status r with
  | Reconciled | Partial => default 0%Q (r_actual_amount r)
  | _ => 0%Q
  end.

Definition due_amount (r : Reservation) : Q := (open_amount r + spent_amount r)%Q.

(** [r] draws on the pool: the cash and cheaper-inference pools are single,
    subscriptions and quotas are named. *)
Definition in_pool (P : SpendPool) (id : string) (r : Reservation) : bool :=
  bool_decide (r_pool r = P) &&
  match P with
  | Subscription | Quota => bool_decide (r_pool_id r = Some id)
  | _ => true
  end.

Definition total (f : Reservation -> Q) (P : SpendPool) (id : string)
    (rs : list (string * Reservation)) : Q :=
  foldr (fun p acc => ((if in_pool P id p.2 then f p.2 else 0) + acc)%Q) 0%Q rs.

Definition reservation_wf (r : Reservation) : Prop :=
  (0 <= r_amount r)%Q /\ (0 <= default 0 (r_actual_amount r))%Q /\
  (r_pool r = Subscription \/ r_pool r = Quota -> is_Some (r_pool_id r)).

(** The counters are the sums of what the reservations hold and spent. *)
Record books (l : CostLedger) : Prop := {
  bk_all : Forall (fun p => reservation_wf p.2) (reservations l);
  bk_cash_open : (cash_reserved l == total open_amount Cash "" (reservations l))%Q;
  bk_cash_spent : (cash_spent l == total spent_amount Cash "" (reservations l))%Q;
  bk_ci_open : (ci_reserved l == total open_amount CheaperInference "" (reservations l))%Q;
  bk_ci_spent : (ci_spent l == total spent_amount CheaperInference "" (reservations l))%Q;
  bk_sub : forall id, (default 0 (subscription_reserved l !! id)
                       == total due_amount Subscription id (reservations l))%Q;
  bk_quota : forall id, (default 0 (quota_reserved l !! id)
                         == total due_amount Quota id (reservations l))%Q
}.

Section totals.
Context (f : Reservation -> Q) (P : SpendPool) (id : string).

Definition share (r : Reservation) : Q := if in_pool P id r then f r else 0%Q.

Lemma total_cons k r rs : total f P id ((k, r) :: rs) = (share r + total f P id rs)%Q.
Proof. reflexivity. Qed.

Lemma total_set_fresh rid r rs :
  dict_get rid rs = None -> (total f P id (dict_set rid r rs) == total f P id rs + share r)%Q.
Proof.
  induction rs as [|[k r'] rs IH]; cbn [dict_get dict_set].
  - intros _. rewrite total_cons. cbn. lra.
  - destruct (String.eqb rid k); [done|]. intros H. rewrite !total_cons, IH by done. lra.
Qed.

Lemma total_set rid r r' rs :
  dict_get rid rs = Some r ->
  (total f P id (dict_set rid r' rs) == total f P id rs - share r + share r')%Q.
Proof.
  induction rs as [|[k r0] rs IH]; cbn [dict_get dict_set]; [done|].
  destruct (String.eqb rid k).
  - intros [= ->]. rewrite !total_cons. lra.
  - intros H. rewrite !total_cons, IH by done. lra.
Qed.

Context (fnonneg : forall r, reservation_wf r -> (0 <= f r)%Q).

Lemma share_nonneg r : reservation_wf r -> (0 <= share r)%Q.
Proof. intros H. unfold share. destruct (in_pool P id r); [auto|lra]. Qed.

Lemma total_nonneg rs : Forall (fun p => reservation_wf p.2) rs -> (0 <= total f P id rs)%Q.
Proof.
  induction 1 as [|[k r] rs H _ IH]; [cbn; lra|]. rewrite total_cons.
  pose proof (share_nonneg r H). lra.
Qed.

Lemma share_le_total rid r rs :
  Forall (fun p => reservation_wf p.2) rs -> dict_get rid rs = Some r ->
  (share r <= total f P id rs)%Q.
Proof.
  induction 1 as [|[k r0] rs H Hrs IH]; cbn [dict_get]; [done|]. rewrite total_cons.
  destruct (String.eqb rid k).
  - intros [= ->]. pose proof (total_nonneg rs Hrs). lra.
  - intros Hg. specialize (IH Hg). pose proof (share_nonneg r0 H). lra.
Qed.
End totals.

Lemma dict_get_Forall {V} (Q : V -> Prop) k v d :
  Forall (fun p => Q p.2) d -> dict_get k d = Some v -> Q v.
Proof.
  induction 1 as [|[k' v'] d H _ IH]; cbn; [done|].
  destruct (String.eqb k k'); [by intros [= ->]|auto].
Qed.

Lemma dict_set_Forall {V} (Q : V -> Prop) k v d :
  Forall (fun p => Q p.2) d -> Q v -> Forall (fun p => Q p.2) (dict_set k v d).
Proof.
  intros H Hv. induction H as [|[k' v'] d H Hd IH]; cbn; [by repeat constructor|].
  destruct (String.eqb k k'); constructor; auto.
Qed.

(** [l'] differs from [l] in its counters, by [d]. *)
Record shifted (l l' : CostLedger) (d : (Reservation -> Q) -> SpendPool -> string -> Q) : Prop := {
  sh_res : reservations l' = reservations l;
  sh_cash_open : (cash_reserved l' == cash_reserved l + d open_amount Cash "")%Q;
  sh_cash_spent : (cash_spent l' == cash_spent l + d spent_amount Cash "")%Q;
  sh_ci_open : (ci_reserved l' == ci_reserved l + d open_amount CheaperInference "")%Q;
  sh_ci_spent : (ci_spent l' == ci_spent l + d spent_amount CheaperInference "")%Q;
  sh_sub : forall id, (default 0 (subscription_reserved l' !! id) ==
                       default 0 (subscription_reserved l !! id) + d due_amount Subscription id)%Q;
  sh_quota : forall id, (default 0 (quota_reserved l' !! id) ==
                         default 0 (quota_reserved l !! id) + d due_amount Quota id)%Q
}.

Lemma books_put l l' rid r u :
  books l -> dict_get rid (reservations l) = Some r -> reservation_wf u ->
  shifted l l' (fun f P id => (share f P id u - share f P id r)%Q) ->
  books (put l' rid u).
Proof.
  intros B Hr Hu [Hres ? ? ? ? Hs Hq]. destruct B as [Hall ? ? ? ? Hbs Hbq].
  constructor; cbn -[total]; rewrite ?Hres; intros;
    try (rewrite (total_set _ _ _ _ r) by done; cbv beta in *;
         try specialize (Hs id); try specialize (Hq id);
         try specialize (Hbs id); try specialize (Hbq id); lra).
  by apply dict_set_Forall.
Qed.

Lemma books_fresh l l' rid u :
  books l -> dict_get rid (reservations l) = None -> reservation_wf u ->
  shifted l l' (fun f P id => share f P id u) ->
  books (put l' rid u).
Proof.
  intros B Hr Hu [Hres ? ? ? ? Hs Hq]. destruct B as [Hall ? ? ? ? Hbs Hbq].
  constructor; cbn -[total]; rewrite ?Hres; intros;
    try (rewrite total_set_fresh by done; cbv beta in *;
         try specialize (Hs id); try specialize (Hq id);
         try specialize (Hbs id); try specialize (Hbq id); lra).
  by apply dict_set_Forall.
Qed.

(** Computes the shares of a reservation whose pool is known. *)
Ltac shares :=
  unfold share, in_pool, due_amount, open_amount, spent_amount; cbn;
  repeat match goal with
  | H : r_pool ?r = _ |- _ => rewrite H
  | H : r_pool_id ?r = _ |- _ => rewrite H
  | H : r_status ?r = _ |- _ => rewrite H
  end;
  repeat first [rewrite bool_decide_true by done | rewrite bool_decide_false by done]; cbn.

(** A counter of named pools, changed at [id0]. *)
Lemma named_insert (m : gmap string Q) id0 id (x y : Q) :
  (x == default 0 (m !! id0) + y)%Q ->
  (default 0 (<[id0 := x]> m !! id)
   == default 0 (m !! id) + (if bool_decide (Some id0 = Some id) then y else 0))%Q.
Proof.
  intros Hx. destruct (decide (id0 = id)) as [->|Hne].
  - rewrite lookup_insert_eq, bool_decide_true by done. done.
  - rewrite lookup_insert_ne, bool_decide_false by congruence. lra.
Qed.

Lemma reserve_named_ok label budgets m pid a m' :
  reserve_named label budgets m pid a = Ok m' ->
  exists id b, pid = Some id /\ budgets !! id = Some b /\
    (default 0 (m !! id) + a <= b)%Q /\ m' = <[id := (default 0 (m !! id) + a)%Q]> m.
Proof.
  unfold reserve_named. intros ([] & Hid%raise_if_ok & H)%bind_ok. bool_hyps.
  destruct (budgets !! _) as [b|] eqn:Eb; [|done].
  apply bind_ok in H as ([] & Hle%raise_if_ok & [= <-]). apply Qltb_false in Hle.
  destruct pid as [id|]; [|done]. exists id, b. split_and!; try done. cbn in *. lra.
Qed.

Lemma hold_shifted l pool unit pid allow a l' r :
  hold l pool unit pid allow a = Ok l' ->
  r_pool r = pool -> r_pool_id r = pid -> r_status r = Reserved -> r_amount r = a ->
  shifted l l' (fun f P id => share f P id r) /\
  (pool = Subscription \/ pool = Quota -> is_Some pid).
Proof.
  intros H Hp Hid Hst Ha. subst a.
  destruct pool; cbn in H; inv_ok; subst;
    try match goal with H : reserve_named _ _ _ _ _ = Ok _ |- _ =>
      apply reserve_named_ok in H as (id0 & b & Hid0 & _ & _ & ->) end;
    (split; [|intros [?|?]; try discriminate; try (by rewrite Hid0)]).
  all: constructor; cbn [with_cash with_ci with_subscription with_quota reservations
         cash_reserved cash_spent ci_reserved ci_spent subscription_reserved quota_reserved];
       try reflexivity; intros; try (shares; lra).
  - shares. rewrite (named_insert _ _ _ _ (r_amount r)) by lra.
    destruct (bool_decide _); cbn; lra.
  - shares. rewrite (named_insert _ _ _ _ (r_amount r)) by lra.
    destruct (bool_decide _); cbn; lra.
Qed.

Lemma open_le_cash l rid r :
  books l -> dict_get rid (reservations l) = Some r -> r_status r = Reserved ->
  (r_pool r = Cash -> r_amount r <= cash_reserved l)%Q /\
  (r_pool r = CheaperInference -> r_amount r <= ci_reserved l)%Q /\
  (forall id, r_pool r = Subscription -> r_pool_id r = Some id ->
     r_amount r <= default 0 (subscription_reserved l !! id))%Q /\
  (forall id, r_pool r = Quota -> r_pool_id r = Some id ->
     r_amount r <= default 0 (quota_reserved l !! id))%Q.
Proof.
  intros [Hall Hc _ Hci _ Hs Hq] Hr Hst.
  assert (Hopen : forall r, reservation_wf r -> (0 <= open_amount r)%Q).
  { intros r' (? & _). unfold open_amount. case_match; lra. }
  assert (Hdue : forall r, reservation_wf r -> (0 <= due_amount r)%Q).
  { intros r' (? & ? & _). unfold due_amount, open_amount, spent_amount. case_match; lra. }
  split_and!; intros.
  - pose proof (share_le_total open_amount Cash "" Hopen rid r _ Hall Hr).
    assert (share open_amount Cash "" r == r_amount r)%Q by (shares; lra). lra.
  - pose proof (share_le_total open_amount CheaperInference "" Hopen rid r _ Hall Hr).
    assert (share open_amount CheaperInference "" r == r_amount r)%Q by (shares; lra). lra.
  - pose proof (share_le_total due_amount Subscription id Hdue rid r _ Hall Hr).
    assert (share due_amount Subscription id r == r_amount r)%Q by (shares; lra).
    specialize (Hs id). lra.
  - pose proof (share_le_total due_amount Quota id Hdue rid r _ Hall Hr).
    assert (share due_amount Quota id r == r_amount r)%Q by (shares; lra).
    specialize (Hq id). lra.
Qed.

Lemma settle_shifted l rid r actual s terms notes l' :
  books l -> dict_get rid (reservations l) = Some r -> r_status r = Reserved ->
  (0 <= actual)%Q -> s = Partial \/ s = Reconciled ->
  apply_settle l r actual = Ok l' ->
  shifted l l' (fun f P id =>
    (share f P id (settled r s actual terms notes) - share f P id r)%Q).
Proof.
  intros B Hr Hst Hact Hs H.
  pose proof (open_le_cash l rid r B Hr Hst) as (Hc & Hci & Hsub & Hq).
  unfold apply_settle in H. destruct (r_pool r) eqn:Hp; inv_ok; subst;
    try match goal with H : shift_named _ _ _ = Ok _ |- _ =>
      unfold shift_named in H; destruct (r_pool_id r) as [id0|] eqn:Hid; inv_ok; subst end;
    constructor; cbn [with_cash with_ci with_subscription with_quota reservations
         cash_reserved cash_spent ci_reserved ci_spent subscription_reserved quota_reserved];
       try reflexivity; intros; destruct Hs as [-> | ->];
    try (shares; try rewrite Qmax0_nonneg by (specialize (Hc eq_refl) || specialize (Hci eq_refl); lra); lra).
  all: shares; rewrite (named_insert _ _ _ _ (- r_amount r + actual)%Q)
    by (apply Qmax0_nonneg; (specialize (Hsub id0 eq_refl eq_refl) || specialize (Hq id0 eq_refl eq_refl)); lra).
  all: destruct (bool_decide _); cbn; lra.
Qed.

Lemma release_shifted l rid r notes l' :
  books l -> dict_get rid (reservations l) = Some r -> r_status r = Reserved ->
  release_reserved l r (r_amount r) = Ok l' ->
  shifted l l' (fun f P id => (share f P id (mark r Released notes) - share f P id r)%Q).
Proof.
  intros B Hr Hst H.
  pose proof (open_le_cash l rid r B Hr Hst) as (Hc & Hci & Hsub & Hq).
  unfold release_reserved in H. destruct (r_pool r) eqn:Hp; inv_ok; subst;
    try match goal with H : shift_named _ _ _ = Ok _ |- _ =>
      unfold shift_named in H; destruct (r_pool_id r) as [id0|] eqn:Hid; inv_ok; subst end;
    constructor; cbn [with_cash with_ci with_subscription with_quota reservations
         cash_reserved cash_spent ci_reserved ci_spent subscription_reserved quota_reserved];
       try reflexivity; intros;
    try (shares; try rewrite Qmax0_nonneg by (specialize (Hc eq_refl) || specialize (Hci eq_refl); lra); lra).
  all: shares; rewrite (named_insert _ _ _ _ (- r_amount r)%Q)
    by (apply Qmax0_nonneg; (specialize (Hsub id0 eq_refl eq_refl) || specialize (Hq id0 eq_refl eq_refl)); lra).
  all: destruct (bool_decide _); cbn; lra.
Qed.

(** * Runs *)

(** The caller's part: a fresh id for every reservation, and no second
    reconciliation of a partially billed one. *)
Definition disciplined (l : CostLedger) (op : ledger_op) : Prop :=
  match op with
  | OpReserve rid _ _ _ _ _ _ _ => dict_get rid (reservations l) = None
  | OpReconcile rid _ =>
      forall r, dict_get rid (reservations l) = Some r -> r_status r <> Partial
  | _ => True
  end.

(** No reservation is settled above its amount. *)
Definition thrifty (l : CostLedger) (op : ledger_op) : Prop :=
  match op with
  | OpReconcile rid a =>
      forall r q, dict_get rid (reservations l) = Some r ->
        non_negative_in (ra_actual_amount a) "actual_amount" = Ok q -> (q <= r_amount r)%Q
  | _ => True
  end.

(** No reservation may use the protected part of the cheaper-inference budget. *)
Definition unprotected (op : ledger_op) : Prop :=
  match op with OpReserve _ _ _ _ _ _ allow _ => allow = false | _ => True end.

(** Successful operations that satisfy [P], one after the other. *)
Inductive ledger_run (P : CostLedger -> ledger_op -> Prop) (l0 : CostLedger) : CostLedger -> Prop :=
| run_start : ledger_run P l0 l0
| run_step l op l' :
    ledger_run P l0 l -> P l op -> ledger_exec l op = Ok l' -> ledger_run P l0 l'.

Lemma non_negative_in_ok v field q : non_negative_in v field = Ok q -> (0 <= q)%Q.
Proof.
  unfold non_negative_in, require_non_negative. intros H; inv_ok; subst. by apply Qltb_false.
Qed.

(** What a successful operation does to the ledger. *)
Inductive ledger_change (l : CostLedger) : ledger_op -> CostLedger -> Prop :=
| change_reserve rid amount a pool unit pid terms allow now l1 u :
    non_negative_in (Some amount) "amount" = Ok a -> hold l pool unit pid allow a = Ok l1 ->
    r_pool u = pool -> r_pool_id u = pid -> r_status u = Reserved -> r_amount u = a ->
    r_actual_amount u = None ->
    ledger_change l (OpReserve rid amount pool unit pid terms allow now) (put l1 rid u)
| change_mark rid a r notes :
    dict_get rid (reservations l) = Some r -> r_status r = Reserved \/ r_status r = Partial ->
    ledger_change l (OpReconcile rid a) (put l rid (mark r Reserved notes))
| change_settle rid a r actual s terms notes l1 :
    dict_get rid (reservations l) = Some r -> r_status r = Reserved \/ r_status r = Partial ->
    non_negative_in (ra_actual_amount a) "actual_amount" = Ok actual ->
    s = Partial \/ s = Reconciled -> apply_settle l r actual = Ok l1 ->
    ledger_change l (OpReconcile rid a) (put l1 rid (settled r s actual terms notes))
| change_release rid r notes l1 :
    dict_get rid (reservations l) = Some r -> r_status r = Reserved ->
    release_reserved l r (r_amount r) = Ok l1 ->
    ledger_change l (OpRelease rid) (put l1 rid (mark r Released notes))
| change_attribute a price now ts :
    ledger_change l (OpAttribute a price now) (with_assistance l ts).

Lemma find_reservation_ok l rid r :
  find_reservation l rid = Ok r -> dict_get rid (reservations l) = Some r.
Proof. unfold find_reservation. destruct (dict_get _ _); [by intros [= ->]|done]. Qed.

Lemma ledger_exec_change l op l' : ledger_exec l op = Ok l' -> ledger_change l op l'.
Proof.
  destruct op as [rid amount pool unit pid terms allow now|rid a|rid|a price now]; cbn;
    intros ([l1 x] & H & [= <-])%bind_ok.
  - unfold reserve in H. apply bind_ok in H as (a & Ha & H).
    apply bind_ok in H as (w & _ & H). apply bind_ok in H as (l2 & Hh & [= <- _]).
    by eapply change_reserve.
  - unfold reconcile in H. apply bind_ok in H as (r & Hr%find_reservation_ok & H).
    apply bind_ok in H as ([] & Hst%raise_if_ok & H). bool_hyps.
    assert (Hs : r_status r = Reserved \/ r_status r = Partial)
      by (destruct (r_status r); tauto).
    destruct (ra_missing a); [injection H as <- _; by apply change_mark|].
    destruct (ra_delayed a && _); [injection H as <- _; by apply change_mark|].
    apply bind_ok in H as ([] & _ & H). apply bind_ok in H as (q & Hq & H).
    apply bind_ok in H as (ts & _ & H). apply bind_ok in H as (l2 & Hl & [= <- _]).
    eapply change_settle; try done. case_match; tauto.
  - unfold release in H. apply bind_ok in H as (r & Hr%find_reservation_ok & H).
    apply bind_ok in H as ([] & Hst%raise_if_ok & H). bool_hyps.
    apply bind_ok in H as (l2 & Hl & [= <- _]).
    eapply change_release; try done. by destruct (decide (r_status r = Reserved)).
  - unfold attribute_assistance in H. apply bind_ok in H as (w & _ & H).
    apply bind_ok in H as (ts & _ & [= <- _]). constructor.
Qed.

Lemma wf_get l rid r : books l -> dict_get rid (reservations l) = Some r -> reservation_wf r.
Proof. intros B. apply dict_get_Forall, B. Qed.

Lemma mark_reserved_shifted l r notes :
  r_status r = Reserved ->
  shifted l l (fun f P id => (share f P id (mark r Reserved notes) - share f P id r)%Q).
Proof.
  intros Hst.
  assert (E : forall f P id, (forall x y, r_status x = r_status y -> r_amount x = r_amount y ->
    r_actual_amount x = r_actual_amount y -> f x = f y) ->
    (share f P id (mark r Reserved notes) - share f P id r == 0)%Q).
  { intros f P id Hf. unfold share, in_pool. cbn. case_match; [|lra].
    rewrite (Hf (mark r Reserved notes) r); cbn; try done. lra. }
  constructor; try reflexivity; intros; (rewrite E; [lra|]);
    intros x y Hs Ha Hb; unfold due_amount, open_amount, spent_amount; by rewrite Hs, ?Ha, ?Hb.
Qed.

Lemma books_exec l op l' :
  books l -> disciplined l op -> ledger_exec l op = Ok l' -> books l'.
Proof.
  intros B D H%ledger_exec_change. destruct H as
    [rid amount a pool unit pid terms allow now l1 u Ha Hh <- <- Hst <- Hact
    |rid a r notes Hr Hs|rid a r actual s terms notes l1 Hr Hs Ha Hs' Hl
    |rid r notes l1 Hr Hs Hl|a price now ts]; cbn in D.
  - destruct (hold_shifted _ _ _ _ _ _ _ u Hh) as [Hsh Hid]; try done.
    eapply books_fresh; [exact B|done| |done].
    split_and!; [by eapply non_negative_in_ok|rewrite Hact; cbn; lra|done].
  - assert (Hst : r_status r = Reserved) by (specialize (D r Hr); tauto).
    eapply books_put; [exact B|done| |by apply mark_reserved_shifted].
    exact (wf_get l rid r B Hr).
  - assert (Hst : r_status r = Reserved) by (specialize (D r Hr); tauto).
    pose proof (non_negative_in_ok _ _ _ Ha) as Hpos.
    eapply books_put; [exact B|done| |by eapply settle_shifted].
    destruct (wf_get l rid r B Hr) as (? & ? & ?). by split_and!.
  - eapply books_put; [exact B|done| |by eapply release_shifted].
    exact (wf_get l rid r B Hr).
  - destruct B. by constructor.
Qed.

(** Every pool within its budget. *)
Record within (l : CostLedger) : Prop := {
  wi_cash : forall b, cash_budget l = Some b -> (cash_reserved l + cash_spent l <= b)%Q;
  wi_ci : (ci_reserved l + ci_spent l <= ci_budget l)%Q;
  wi_sub : forall id, (default 0 (subscription_reserved l !! id)
                       <= default 0 (subscription_budgets l !! id))%Q;
  wi_quota : forall id, (default 0 (quota_reserved l !! id) <= default 0 (quota_budgets l !! id))%Q
}.

Definition same_budgets (l l' : CostLedger) : Prop :=
  cash_budget l' = cash_budget l /\ ci_budget l' = ci_budget l /\ ci_floor l' = ci_floor l /\
  subscription_budgets l' = subscription_budgets l /\ quota_budgets l' = quota_budgets l.

Lemma same_budgets_put l l' rid u : same_budgets l l' -> same_budgets l (put l' rid u).
Proof. done. Qed.

Lemma hold_budgets l pool unit pid allow a l' :
  hold l pool unit pid allow a = Ok l' -> same_budgets l l'.
Proof. destruct pool; cbn; intros H; inv_ok; subst; done. Qed.

Lemma settle_budgets l r a l' : apply_settle l r a = Ok l' -> same_budgets l l'.
Proof. unfold apply_settle. destruct (r_pool r); intros H; inv_ok; subst; done. Qed.

Lemma release_budgets l r a l' : release_reserved l r a = Ok l' -> same_budgets l l'.
Proof. unfold release_reserved. destruct (r_pool r); intros H; inv_ok; subst; done. Qed.

Lemma hold_within l pool unit pid allow a l' :
  within l -> (0 <= ci_floor l)%Q -> hold l pool unit pid allow a = Ok l' -> within l'.
Proof.
  intros [Hc Hci Hs Hq] Hfl. destruct pool; cbn; intros H; inv_ok; subst;
    try match goal with H : reserve_named _ _ _ _ _ = Ok _ |- _ =>
      apply reserve_named_ok in H as (id0 & b0 & -> & Hb0 & Hle & ->) end;
    constructor; cbn; try done; intros.
  - rewrite H1 in H0. apply raise_if_ok, Qltb_false in H0. lra.
  - destruct (decide (id0 = id)) as [->|]; [rewrite lookup_insert_eq, Hb0; cbn; lra|].
    rewrite lookup_insert_ne by done. apply Hs.
  - destruct (decide (id0 = id)) as [->|]; [rewrite lookup_insert_eq, Hb0; cbn; lra|].
    rewrite lookup_insert_ne by done. apply Hq.
  - match goal with H : Qltb _ _ = false |- _ => apply Qltb_false in H end.
    destruct allow; lra.
Qed.

(** A change that gives back at least what it takes keeps every pool within budget. *)
Lemma shifted_within l l' d :
  within l -> same_budgets l l' -> shifted l l' d ->
  (d open_amount Cash "" + d spent_amount Cash "" <= 0)%Q ->
  (d open_amount CheaperInference "" + d spent_amount CheaperInference "" <= 0)%Q ->
  (forall P id, d due_amount P id <= 0)%Q -> within l'.
Proof.
  intros [Hc Hci Hs Hq] (E1 & E2 & E3 & E4 & E5) [_ ? ? ? ? Ss Sq] D1 D2 D3.
  constructor; [intros b Hb| |intros id|intros id]; rewrite ?E2, ?E4, ?E5.
  - rewrite E1 in Hb. specialize (Hc _ Hb). lra.
  - lra.
  - specialize (Ss id). specialize (Hs id). specialize (D3 Subscription id). lra.
  - specialize (Sq id). specialize (Hq id). specialize (D3 Quota id). lra.
Qed.

(** What replacing [r] by [u] changes, when [u] is due no more than [r]. *)
Lemma share_due_le P id r u :
  r_pool u = r_pool r -> r_pool_id u = r_pool_id r -> (due_amount u <= due_amount r)%Q ->
  (share open_amount P id u - share open_amount P id r
   + (share spent_amount P id u - share spent_amount P id r) <= 0)%Q /\
  (share due_amount P id u - share due_amount P id r <= 0)%Q.
Proof.
  intros Hp Hi Hd. unfold share, in_pool. rewrite Hp, Hi.
  unfold due_amount in *. case_match; split; lra.
Qed.

Lemma put_within l l' rid r u :
  within l -> same_budgets l l' ->
  shifted l l' (fun f P id => (share f P id u - share f P id r)%Q) ->
  r_pool u = r_pool r -> r_pool_id u = r_pool_id r -> (due_amount u <= due_amount r)%Q ->
  within (put l' rid u).
Proof.
  intros W S Sh Hp Hi Hd. enough (within l') as [? ? ? ?] by (by constructor).
  eapply shifted_within; [exact W|exact S|exact Sh|..]; cbv beta; intros;
    by apply share_due_le.
Qed.

Lemma within_exec l op l' :
  books l -> within l -> (0 <= ci_floor l)%Q -> disciplined l op -> thrifty l op ->
  ledger_exec l op = Ok l' -> within l' /\ same_budgets l l'.
Proof.
  intros B W Hf D T H%ledger_exec_change. destruct H as
    [rid amount a pool unit pid terms allow now l1 u Ha Hh <- <- Hst <- Hact
    |rid a r notes Hr Hs|rid a r actual s terms notes l1 Hr Hs Ha Hs' Hl
    |rid r notes l1 Hr Hs Hl|a price now ts]; cbn in D, T.
  - split; [|by eapply hold_budgets in Hh].
    destruct (hold_within _ _ _ _ _ _ _ W Hf Hh). by constructor.
  - assert (Hst : r_status r = Reserved) by (specialize (D r Hr); tauto). split; [|done].
    eapply put_within; [exact W|done|by apply mark_reserved_shifted|done|done|].
    unfold due_amount, open_amount, spent_amount; cbn. rewrite Hst. lra.
  - assert (Hst : r_status r = Reserved) by (specialize (D r Hr); tauto).
    pose proof (non_negative_in_ok _ _ _ Ha) as Hpos. specialize (T r actual Hr Ha).
    pose proof (settle_budgets _ _ _ _ Hl). split; [|done].
    eapply put_within; [exact W|done|by eapply settle_shifted|done|done|].
    unfold due_amount, open_amount, spent_amount; cbn. rewrite Hst.
    destruct Hs' as [-> | ->]; lra.
  - pose proof (release_budgets _ _ _ _ Hl). split; [|done].
    eapply put_within; [exact W|done|by eapply release_shifted|done|done|].
    destruct (wf_get l rid r B Hr) as (? & _).
    unfold due_amount, open_amount, spent_amount; cbn. rewrite Hs. lra.
  - split; [|done]. destruct W. by constructor.
Qed.

Lemma cost_ledger_start trajectory cash subs quotas ci floor l :
  cost_ledger trajectory cash subs quotas ci floor = Ok l ->
  books l /\ within l /\ (0 <= ci_floor l <= ci_budget l)%Q /\ reservations l = [] /\
  ci_reserved l = 0%Q /\ ci_spent l = 0%Q.
Proof.
  unfold cost_ledger. intros ([] & _ & H)%bind_ok.
  apply bind_ok in H as (c & Hc & H). apply bind_ok in H as (ci' & Hci%non_negative_in_ok & H).
  apply bind_ok in H as (fl & Hfl%non_negative_in_ok & H).
  apply bind_ok in H as ([] & Hle%raise_if_ok%Qltb_false & H).
  apply bind_ok in H as (s & Hs & H). apply bind_ok in H as (q & Hq & [= <-]).
  assert (Hb : forall label m g, budgets_in label m = Ok g -> forall id, (0 <= default 0 (g !! id))%Q).
  { intros label m. induction m as [|[k v] m IH]; cbn; intros g H id.
    - injection H as <-. rewrite lookup_empty. cbn. lra.
    - apply bind_ok in H as (x & Hx%non_negative_in_ok & H). apply bind_ok in H as (g' & Hg & [= <-]).
      destruct (decide (k = id)) as [->|]; [by rewrite lookup_insert_eq|].
      rewrite lookup_insert_ne by done. by eapply IH. }
  split_and!; try done; constructor; cbn; intros; try reflexivity; try lra.
  - destruct cash; [|simplify_eq; lra]. apply bind_ok in Hc as (x & Hx%non_negative_in_ok & [= <-]).
    simplify_eq. lra.
  - rewrite lookup_empty. cbn. by eapply Hb.
  - rewrite lookup_empty. cbn. by eapply Hb.
Qed.

Lemma total_due P id rs :
  (total due_amount P id rs == total open_amount P id rs + total spent_amount P id rs)%Q.
Proof.
  induction rs as [|[k r] rs IH]; [reflexivity|]. rewrite !total_cons, IH.
  unfold share, due_amount. case_match; lra.
Qed.

Lemma same_budgets_trans l0 l l' : same_budgets l0 l -> same_budgets l l' -> same_budgets l0 l'.
Proof. unfold same_budgets. naive_solver congruence. Qed.

Lemma run_books P l0 l :
  (forall l op, P l op -> disciplined l op) -> books l0 -> ledger_run P l0 l -> books l.
Proof. intros HP B. induction 1 as [|l op l' _ IH Hop H]; [done|]. by eapply books_exec; eauto. Qed.

Lemma run_within P l0 l :
  (forall l op, P l op -> disciplined l op /\ thrifty l op) ->
  books l0 -> within l0 -> (0 <= ci_floor l0)%Q -> ledger_run P l0 l ->
  within l /\ same_budgets l0 l.
Proof.
  intros HP B W Hf Hrun. induction Hrun as [|l op l' Hrun [IHw IHs] Hop H]; [done|].
  destruct (HP l op Hop) as [D T].
  assert (books l) as Bl by (eapply (run_books P); [naive_solver|exact B|exact Hrun]).
  destruct (within_exec l op l' Bl IHw) as [? ?]; try done.
  - destruct IHs as (_ & _ & -> & _). done.
  - split; [done|]. by eapply same_budgets_trans.
Qed.

(** An operation that may not use the protected floor does not touch it. *)
Lemma unprotected_exec l op l' :
  books l -> disciplined l op -> thrifty l op -> unprotected op ->
  (ci_reserved l + ci_spent l <= ci_budget l - ci_floor l)%Q ->
  ledger_exec l op = Ok l' -> (ci_reserved l' + ci_spent l' <= ci_budget l - ci_floor l)%Q.
Proof.
  intros B D T U Hc H%ledger_exec_change. destruct H as
    [rid amount a pool unit pid terms allow now l1 u Ha Hh <- <- Hst <- Hact
    |rid a r notes Hr Hs|rid a r actual s terms notes l1 Hr Hs Ha Hs' Hl
    |rid r notes l1 Hr Hs Hl|a price now ts]; cbn in D, T, U |- *; try done.
  - subst allow. destruct (r_pool u); cbn in Hh; inv_ok; subst; cbn; try done.
    match goal with H : Qltb _ (r_amount u) = false |- _ => apply Qltb_false in H end. lra.
  - assert (Hst : r_status r = Reserved) by (specialize (D r Hr); tauto).
    pose proof (non_negative_in_ok _ _ _ Ha) as Hpos. specialize (T r actual Hr Ha).
    pose proof (settle_shifted _ _ _ _ s terms notes _ B Hr Hst Hpos Hs' Hl) as [_ _ _ H1 H2 _ _].
    assert (Hd : (due_amount (settled r s actual terms notes) <= due_amount r)%Q).
    { unfold due_amount, open_amount, spent_amount; cbn. rewrite Hst.
      destruct Hs' as [-> | ->]; lra. }
    destruct (share_due_le CheaperInference "" r (settled r s actual terms notes) eq_refl eq_refl Hd). lra.
  - pose proof (release_shifted _ _ _ notes _ B Hr Hs Hl) as [_ _ _ H1 H2 _ _].
    destruct (wf_get l rid r B Hr) as (Hw & _).
    assert (Hd : (due_amount (mark r Released notes) <= due_amount r)%Q).
    { unfold due_amount, open_amount, spent_amount; cbn. rewrite Hs. lra. }
    destruct (share_due_le CheaperInference "" r (mark r Released notes) eq_refl eq_refl Hd). lra.
Qed.

(** * Properties *)

(** Double-entry. In every run where reservation ids are fresh and no
    partially billed reservation is reconciled again, the ledger's counters are
    exactly the sums over its reservations: cash and cheaper-inference hold what
    is open and have spent what was settled, and each named pool holds both. *)
Theorem ledger_counters_exact trajectory cash subs quotas ci floor l0 l :
  cost_ledger trajectory cash subs quotas ci floor = Ok l0 ->
  ledger_run disciplined l0 l ->
  let rs := reservations l in
  (cash_reserved l == total open_amount Cash "" rs)%Q /\
  (cash_spent l == total spent_amount Cash "" rs)%Q /\
  (ci_reserved l == total open_amount CheaperInference "" rs)%Q /\
  (ci_spent l == total spent_amount CheaperInference "" rs)%Q /\
  forall id,
    (default 0 (subscription_reserved l !! id) == total due_amount Subscription id rs)%Q /\
    (default 0 (quota_reserved l !! id) == total due_amount Quota id rs)%Q.
Proof.
  intros (B & _)%cost_ledger_start Hrun.
  destruct (run_books disciplined l0 l) as [? ? ? ? ? ? ?]; [done|done|done|].
  by split_and!.
Qed.

(** C38: no over-commitment. If moreover nothing is settled above its reserved
    amount, then what is open plus what was spent never exceeds the budget of
    the cash pool, of the cheaper-inference pool, or of any named pool. *)
Theorem ledger_within_budget trajectory cash subs quotas ci floor l0 l :
  cost_ledger trajectory cash subs quotas ci floor = Ok l0 ->
  ledger_run (fun l op => disciplined l op /\ thrifty l op) l0 l ->
  let rs := reservations l in
  (forall b, cash_budget l0 = Some b -> total due_amount Cash "" rs <= b)%Q /\
  (forall q, remaining_cash l = Some q -> 0 <= q)%Q /\
  (total due_amount CheaperInference "" rs <= ci_budget l0)%Q /\
  forall id,
    (total due_amount Subscription id rs <= default 0 (subscription_budgets l0 !! id))%Q /\
    (total due_amount Quota id rs <= default 0 (quota_budgets l0 !! id))%Q.
Proof.
  intros (B & W & Hf & _)%cost_ledger_start Hrun.
  destruct (run_within _ l0 l (fun _ _ H => H) B W) as [[Wc Wci Ws Wq] S]; [lra|done|].
  destruct (run_books _ l0 l (fun _ _ H => proj1 H) B Hrun) as [? Bc Bcs Bi Bis Bs Bq].
  destruct S as (E1 & E2 & E3 & E4 & E5). cbv zeta.
  pose proof (fun P => total_due P "" (reservations l)) as Td. split_and!.
  - intros b Hb. specialize (Td Cash). rewrite <- E1 in Hb. specialize (Wc b Hb). lra.
  - unfold remaining_cash. destruct (cash_budget l) as [b|]; [|done]. intros q [= <-].
    specialize (Wc b eq_refl). lra.
  - specialize (Td CheaperInference). rewrite <- E2. lra.
  - intros id. rewrite <- E4, <- E5. specialize (Bs id). specialize (Bq id).
    specialize (Ws id). specialize (Wq id). lra.
Qed.

(** While no reservation is allowed to use it, the protected floor of the
    cheaper-inference budget stays whole. *)
Theorem protected_floor_whole trajectory cash subs quotas ci floor l0 l :
  cost_ledger trajectory cash subs quotas ci floor = Ok l0 ->
  ledger_run (fun l op => disciplined l op /\ thrifty l op /\ unprotected op) l0 l ->
  (protected_ci_remaining l == ci_floor l0)%Q /\ (ci_floor l0 <= remaining_ci l)%Q.
Proof.
  intros (B & W & Hf & Hnil & Hr0 & Hs0)%cost_ledger_start Hrun.
  assert (Hinv : (ci_reserved l + ci_spent l <= ci_budget l - ci_floor l)%Q /\
    ci_floor l = ci_floor l0 /\ ci_budget l = ci_budget l0).
  { induction Hrun as [|l op l' Hrun (IH & IHf & IHb) (D & T & U) H].
    { rewrite Hr0, Hs0. split_and!; [lra|done|done]. }
    assert (books l) as Bl by (eapply run_books; [|exact B|exact Hrun]; naive_solver).
    assert (within l) as Wl by (eapply run_within; [|exact B|exact W|lra|exact Hrun]; naive_solver).
    destruct (within_exec l op l' Bl Wl) as [_ (_ & E2 & E3 & _)]; try done; [rewrite IHf; lra|].
    rewrite E2, E3. split_and!; [|done|done].
    by eapply unprotected_exec. }
  destruct Hinv as (Hc & Ef & Eb). unfold protected_ci_remaining, remaining_ci.
  split; [|rewrite Ef in Hc; lra].
  destruct (Qltb _ _) eqn:E; [by rewrite Ef|]. apply Qltb_false in E.
  rewrite <- Ef in *.
  pose proof (Qmax0_nonneg (ci_budget l - (ci_reserved l + ci_spent l))%Q ltac:(lra)). lra.
Qed.

(** A term says [unknown] exactly when it has no amount, and amounts are never negative. *)
Definition term_wf (t : CostTerm) : Prop :=
  (ct_amount t = None <-> ct_status t = "unknown") /\
  (forall a, ct_amount t = Some a -> 0 <= a)%Q /\
  ct_status t ∈ STATUSES /\ ct_unit t ∈ UNITS.

Lemma cost_term_wf kind amount unit status eid obs fresh notes t :
  cost_term kind amount unit status eid obs fresh notes = Ok t ->
  term_wf t /\ ct_kind t = kind /\ ct_unit t = unit.
Proof.
  unfold cost_term. intros ([] & _ & H)%bind_ok.
  apply bind_ok in H as ([] & Hs%raise_if_ok & H).
  apply bind_ok in H as ([] & Hu%raise_if_ok & H).
  apply bind_ok in H as (o & _ & H). apply bind_ok in H as (f & _ & H).
  apply negb_false_iff, mem_spec in Hs. apply negb_false_iff, mem_spec in Hu.
  destruct (String.eqb_spec status "unknown") as [->|Hne].
  - apply bind_ok in H as ([] & _ & [= <-]). by split_and!.
  - apply bind_ok in H as ([a|] & _ & H); [|done].
    apply bind_ok in H as (a' & Ha & [= <-]).
    unfold require_non_negative in Ha. inv_ok; subst. unfold term_wf; cbn.
    split_and!; try done. intros ? [= <-]. by apply Qltb_false.
Qed.

Lemma tokens_to_usd_term_wf tokens kind price now output t :
  tokens_to_usd_term tokens kind price now output = Ok t ->
  term_wf t /\ ct_kind t = kind /\ ct_unit t = "usd".
Proof.
  unfold tokens_to_usd_term. intros (w & _ & H)%bind_ok.
  destruct price as [p|]; [|by apply cost_term_wf in H].
  destruct (if output then pe_output p else pe_input p); [|by apply cost_term_wf in H].
  apply bind_ok in H as (rate & _ & H). apply bind_ok in H as ([f e] & _ & H).
  by apply cost_term_wf in H.
Qed.

Lemma bucket_terms_wf buckets price now ts :
  bucket_terms buckets price now = Ok ts ->
  Forall term_wf ts /\
  map (fun t => (ct_kind t, ct_unit t)) ts =
  concat (map (fun b => [(b.1, "tokens"); (b.1, "usd")])
            (List.filter (fun b => negb (b.2 <=? 0)) buckets)).
Proof.
  revert ts; induction buckets as [|[kind tokens] rest IH]; intros ts.
  - intros [= <-]. by split.
  - cbn [bucket_terms List.filter snd]. destruct (tokens <=? 0); cbn [negb]; [apply IH|].
    intros (t & Ht & H)%bind_ok. apply bind_ok in H as (u & Hu & H).
    apply bind_ok in H as (us & Hus & [= <-]).
    apply cost_term_wf in Ht as (? & Hk & Hn). apply tokens_to_usd_term_wf in Hu as (? & Hk' & Hn').
    destruct (IH us Hus) as [? E]. split; [by apply Forall_cons; split; [|apply Forall_cons]|].
    cbn. by rewrite Hk, Hn, Hk', Hn', E.
Qed.

(** Attributing assistance appends one token term and one USD term for each
    bucket with tokens, in order; every term is well formed, so a price that is
    not known yields an [unknown] term without an amount, never an invented one. *)
Theorem attribute_assistance_terms l a price now l' ts :
  attribute_assistance l a price now = Ok (l', ts) ->
  assistance_terms l' = assistance_terms l ++ ts /\
  reservations l' = reservations l /\
  Forall term_wf ts /\
  map (fun t => (ct_kind t, ct_unit t)) ts =
  concat (map (fun b => [(b.1, "tokens"); (b.1, "usd")])
    (List.filter (fun b => negb (b.2 <=? 0))
      [("planning", planning_tokens a); ("hydration", context_tokens a);
       ("tools", tool_tokens a); ("verification", verification_tokens a)])).
Proof.
  unfold attribute_assistance. intros (w & _ & H)%bind_ok.
  apply bind_ok in H as (us & Hus & [= <- <-]).
  apply bucket_terms_wf in Hus as [? ?]. by split_and!.
Qed.

(** A ledger with a cash budget of 100. *)
Definition sample_ledger : CostLedger :=
  {| trajectory_id := "t"; cash_budget := Some 100%Q; subscription_budgets := ∅;
     quota_budgets := ∅; ci_budget := 10; ci_floor := 4; reservations := [];
     cash_reserved := 0; cash_spent := 0; subscription_reserved := ∅; quota_reserved := ∅;
     ci_reserved := 0; ci_spent := 0; assistance_terms := [] |}.

Definition sample_reserve (rid : string) (amount : Z) : ledger_op :=
  OpReserve rid (InInt amount) Cash "usd" None [] false (utc 0).

Definition sample_partial (rid : string) (actual : Z) : ledger_op :=
  OpReconcile rid {| ra_actual_amount := Some (InInt actual); ra_missing := false;
    ra_delayed := false; ra_partial := true; ra_cached_tokens := None;
    ra_cache_evidence := None; ra_notes := None |}.

Fixpoint ledger_execs (l : CostLedger) (ops : list ledger_op) : result ledger_exn CostLedger :=
  match ops with
  | [] => Ok l
  | op :: ops => l' ← ledger_exec l op; ledger_execs l' ops
  end.

(** Reconciling a partially billed reservation a second time subtracts its
    reserved amount again and so frees the hold of another reservation: with a
    budget of 100, holding 60 and 40, two partial bills of 10 for the first let a
    third reservation of 80 through, and 120 are open next to 20 spent. *)
Theorem partial_twice_overcommits :
  exists l, ledger_execs sample_ledger
    [sample_reserve "a" 60; sample_reserve "b" 40; sample_partial "a" 10;
     sample_partial "a" 10; sample_reserve "c" 80] = Ok l /\
  (total open_amount Cash "" (reservations l) == 120)%Q /\
  (cash_spent l == 20)%Q /\ cash_budget l = Some 100%Q.
Proof. eexists. split; [vm_compute; reflexivity|]. by vm_compute. Qed.

Lemma sample_ledger_start :
  cost_ledger "t" (Some (InInt 100)) [] [] (Some (InInt 10)) (Some (InInt 4)) = Ok sample_ledger.
Proof. vm_compute. reflexivity. Qed.

(** Reserve 60, bill 10 of it partially, reserve 5 of cheaper inference. *)
Definition sample_ops : list ledger_op :=
  [sample_reserve "a" 60; sample_partial "a" 10;
   OpReserve "b" (InInt 5) CheaperInference "usd" None [] false (utc 0)].

Definition after (l : CostLedger) (ops : list ledger_op) : CostLedger :=
  match ledger_execs l ops with Ok l' => l' | Err _ => l end.

Definition sample_end : CostLedger := after sample_ledger sample_ops.

Lemma sample_run :
  ledger_run (fun l op => disciplined l op /\ thrifty l op /\ unprotected op)
    sample_ledger sample_end.
Proof.
  apply (run_step _ _ (after sample_ledger (take 2 sample_ops))
           (OpReserve "b" (InInt 5) CheaperInference "usd" None [] false (utc 0)));
    [apply (run_step _ _ (after sample_ledger (take 1 sample_ops)) (sample_partial "a" 10));
      [apply (run_step _ _ sample_ledger (sample_reserve "a" 60)); [apply run_start|..]|..]|..];
    try (vm_compute; reflexivity).
  - by split_and!.
  - split_and!; [intros r|intros r q|done]; vm_compute; [by intros [= <-]|].
    intros [= <-] [= <-]. done.
  - by split_and!.
Qed.

Lemma run_weaken (P R : CostLedger -> ledger_op -> Prop) l0 l :
  (forall l op, P l op -> R l op) -> ledger_run P l0 l -> ledger_run R l0 l.
Proof. intros H. induction 1; [constructor|]. eapply run_step; eauto. Qed.

Lemma ledger_counters_exact_witness :
  (cash_spent sample_end == total spent_amount Cash "" (reservations sample_end))%Q.
Proof.
  apply (ledger_counters_exact _ _ _ _ _ _ _ sample_end sample_ledger_start).
  eapply run_weaken; [|exact sample_run]. by intros l op [? _].
Defined.

Lemma ledger_within_budget_witness :
  (total due_amount Cash "" (reservations sample_end) <= 100)%Q.
Proof.
  destruct (ledger_within_budget _ _ _ _ _ _ _ sample_end sample_ledger_start) as [H _].
  { eapply run_weaken; [|exact sample_run]. by intros l op (? & ? & _). }
  exact (H _ eq_refl).
Defined.

Lemma protected_floor_whole_witness : (protected_ci_remaining sample_end == 4)%Q.
Proof.
  apply (protected_floor_whole _ _ _ _ _ _ _ sample_end sample_ledger_start sample_run).
Defined.

Lemma attribute_assistance_terms_witness :
  exists l' ts, attribute_assistance sample_ledger
    {| planning_tokens := 10; context_tokens := 0; tool_tokens := 3; verification_tokens := 0 |}
    None (utc 0) = Ok (l', ts) /\ Forall term_wf ts.
Proof.
  eexists _, _. split; [vm_compute; reflexivity|].
  eapply (attribute_assistance_terms sample_ledger
    {| planning_tokens := 10; context_tokens := 0; tool_tokens := 3; verification_tokens := 0 |}
    None (utc 0)).
  vm_compute; reflexivity.
Defined.
