(* ===== verification/BoundedRecovery.v ===== *)
(** [verdict/bounded_recovery.py]: classify a failure from its evidence and choose a
    corrective action within the attempt, deadline, cash and token budgets.

    Of a certification report the decision reads each component's identity, kind and
    state. Estimates are finite [Decimal]s, the rationals they denote; the decision's
    [budget_cash_remaining_usd], a [str(Decimal)] in the code, is kept as the number. *)
From Stdlib Require Import Ascii Lqa.
From S2P Require Import Prelude PyStr Json JsonDict Time PyNum MemoryPlane Session Recovery CostLedger.

Inductive RecoveryFailureClass :=
| MISSING_OR_STALE_CONTEXT
| PROVIDER_OR_GATEWAY_FAILURE
| MODEL_CAPABILITY_DEFICIT
| TOOL_OR_ENVIRONMENT_MISMATCH
| BAD_DECOMPOSITION_OR_PLAN
| IMPLEMENTATION_ERROR
| VERIFICATION_OR_TEST_INFRA_FAILURE
| CONTEXT_LENGTH_OVERFLOW
| AMBIGUOUS_OR_UNKNOWN.

Inductive RecoveryAction :=
| REHYDRATE | RETRY | REPAIR_TOOL_OR_ENVIRONMENT | SWITCH_EXECUTION_PLANE | REPLAN
| ESCALATE_CAPABILITY | BLOCK.

Inductive RecoveryOutcome := CONTINUE | BLOCKED | CANCELLED | SUCCESS.

#[global] Instance failure_class_eq_dec : EqDecision RecoveryFailureClass.
Proof. solve_decision. Defined.
#[global] Instance action_eq_dec : EqDecision RecoveryAction.
Proof. solve_decision. Defined.
#[global] Instance outcome_eq_dec : EqDecision RecoveryOutcome.
Proof. solve_decision. Defined.

Record ExecutionRoute := {
  rt_model_id : string;
  rt_provider : string;
  rt_gateway_id : option string;
  rt_capability_tier : Z;
  rt_is_frontier : bool
}.

Record FailureEvidence := {
  ev_error_class : string;
  ev_message : string;
  ev_status_code : option Z;
  ev_signals : gset string;
  ev_side_effects_ambiguous : bool;
  ev_cancelled : bool;
  ev_generating_worker_id : option string;
  ev_verification_worker_id : option string
}.

(** The payload of [evidence_digest]. *)
Definition digest_payload (e : FailureEvidence) : json :=
  obj [("error_class", JStr (ev_error_class e)); ("message", JStr (ev_message e));
       ("status_code", jopt JInt (ev_status_code e));
       ("signals", JList (map JStr (sort_str (elements (ev_signals e)))));
       ("side_effects_ambiguous", JBool (ev_side_effects_ambiguous e));
       ("cancelled", JBool (ev_cancelled e));
       ("generating_worker_id", jopt JStr (ev_generating_worker_id e));
       ("verification_worker_id", jopt JStr (ev_verification_worker_id e))].

(** [from_failure_entry] *)
Definition from_failure_entry (entry : FailureEntry) (signals : gset string)
    (generating verification : option string) (cancelled ambiguous : bool) : FailureEvidence :=
  {| ev_error_class := fe_error_class entry; ev_message := fe_message entry;
     ev_status_code := fe_status_code entry; ev_signals := signals;
     ev_side_effects_ambiguous := ambiguous; ev_cancelled := cancelled;
     ev_generating_worker_id := generating; ev_verification_worker_id := verification |}.

(** A [ValueError]. *)
Inductive recovery_exn := RecoveryValueError (msg : string).

Record RecoveryBounds := {
  rb_max_attempts : Z;
  rb_deadline_at : option datetime;
  rb_action_cash : Q;
  rb_action_tokens : Q
}.

(** [RecoveryBounds(...)] with its [__post_init__] *)
Definition recovery_bounds (max_attempts : Z) (deadline_at : option datetime) (cash tokens : Q)
    : result recovery_exn RecoveryBounds :=
  _ ← raise_if (max_attempts <? 1) (RecoveryValueError "max_attempts must be >= 1");
  Ok {| rb_max_attempts := max_attempts; rb_deadline_at := deadline_at;
        rb_action_cash := cash; rb_action_tokens := tokens |}.

(** [RecoveryBounds()] *)
Definition default_bounds : RecoveryBounds :=
  {| rb_max_attempts := 3; rb_deadline_at := None; rb_action_cash := (1 # 100)%Q;
     rb_action_tokens := 100 |}.

Record RecoveryDecision := {
  rd_failure_class : RecoveryFailureClass;
  rd_action : RecoveryAction;
  rd_outcome : RecoveryOutcome;
  rd_route_before : ExecutionRoute;
  rd_route_after : ExecutionRoute;
  rd_reason : string;
  rd_attempt_index : Z;
  rd_evidence_digest : string;
  rd_created_at : datetime;
  rd_escalated : bool;
  rd_frontier_call : bool;
  rd_replan_signal : bool;
  rd_charge_generating_model : bool;
  rd_success : bool;
  rd_cash_remaining : option Q
}.

(** * Classification *)

Definition SIGNAL_CLASS : list (list string * RecoveryFailureClass) :=
  [(["missing_context"; "stale_context"; "context_missing"; "context_stale"],
    MISSING_OR_STALE_CONTEXT);
   (["provider_outage"; "gateway_failure"; "upstream_error"; "rate_limited"; "provider_error"],
    PROVIDER_OR_GATEWAY_FAILURE);
   (["context_length_exceeded"; "context_length_overflow"; "context_overflow"],
    CONTEXT_LENGTH_OVERFLOW);
   (["capability_deficit"; "model_too_weak"; "insufficient_capability"],
    MODEL_CAPABILITY_DEFICIT);
   (["tool_mismatch"; "environment_mismatch"; "tool_missing"; "env_broken"],
    TOOL_OR_ENVIRONMENT_MISMATCH);
   (["bad_decomposition"; "bad_plan"; "plan_failure"; "circular_plan"],
    BAD_DECOMPOSITION_OR_PLAN);
   (["implementation_error"; "code_error"; "logic_bug"], IMPLEMENTATION_ERROR);
   (["verification_infra"; "test_infra"; "proof_env_failure"],
    VERIFICATION_OR_TEST_INFRA_FAILURE)].

Definition PROVIDER_ERROR_CLASSES : list string :=
  ["rate_limited"; "quota_exhausted"; "timeout"; "upstream_error"; "server_error";
   "provider_error"; "gateway_error"].

Definition RETRYABLE_STATUS_CODES : list Z := [408; 409; 425; 429; 500; 502; 503; 504].

Definition status_in (codes : list Z) (status : option Z) : bool :=
  match status with Some c => existsb (Z.eqb c) codes | None => false end.

(** The first group of [_SIGNAL_CLASS] that a signal belongs to. *)
Definition signal_class (signals : list string) : option RecoveryFailureClass :=
  snd <$> List.find (fun g => existsb (fun s => mem s g.1) signals) SIGNAL_CLASS.

(** The branches of [classify_failure] that read the error class, status and message. *)
Definition text_class (error message : string) (status : option Z) : RecoveryFailureClass :=
  if mem error ["context_length_exceeded"; "context_length_overflow"] then CONTEXT_LENGTH_OVERFLOW
  else if status_in [400; 413] status && is_context_length_error message
  then CONTEXT_LENGTH_OVERFLOW
  else if mem error ["context_stale"; "context_missing"; "stale_context"; "missing_context"]
  then MISSING_OR_STALE_CONTEXT
  else if any_in message ["missing context"; "stale context"; "context pack"]
  then MISSING_OR_STALE_CONTEXT
  else if mem error PROVIDER_ERROR_CLASSES || status_in RETRYABLE_STATUS_CODES status ||
          contains message "provider" || contains message "gateway"
  then PROVIDER_OR_GATEWAY_FAILURE
  else if any_in message ["capability"; "too weak"; "cannot satisfy"]
  then MODEL_CAPABILITY_DEFICIT
  else if any_in message ["tool"; "sandbox"; "environment"; "binary missing"]
  then TOOL_OR_ENVIRONMENT_MISMATCH
  else if any_in message ["plan"; "decomposition"; "circular"] then BAD_DECOMPOSITION_OR_PLAN
  else if any_in message ["test runner"; "verification infra"; "proof env"]
  then VERIFICATION_OR_TEST_INFRA_FAILURE
  else if mem error ["implementation_error"; "code_error"] || contains message "assertion"
  then IMPLEMENTATION_ERROR
  else AMBIGUOUS_OR_UNKNOWN.

(** [classify_failure] *)
Definition classify_failure (e : FailureEvidence) : RecoveryFailureClass :=
  if ev_cancelled e || ev_side_effects_ambiguous e then AMBIGUOUS_OR_UNKNOWN
  else match signal_class (map lower (elements (ev_signals e))) with
       | Some c => c
       | None => text_class (strip (lower (ev_error_class e))) (lower (ev_message e))
                   (ev_status_code e)
       end.

(** * Routes *)

Inductive CertificationState := READY | DEGRADED | UNAVAILABLE | UNSUPPORTED | UNKNOWN_STATE.
Inductive ComponentKind :=
| HARNESS | GATEWAY | MCP | MODEL_POOL | INTELLIGENCE | PROVIDER | TOOLCHAIN.

#[global] Instance certification_state_eq_dec : EqDecision CertificationState.
Proof. solve_decision. Defined.
#[global] Instance component_kind_eq_dec : EqDecision ComponentKind.
Proof. solve_decision. Defined.

(** What the decision reads of a [CertifiedComponent]. *)
Record CertifiedComponent := {
  cc_component_id : string;
  cc_kind : ComponentKind;
  cc_identity : string;
  cc_state : CertificationState
}.

Definition names_component (id : string) (c : CertifiedComponent) : bool :=
  String.eqb (cc_component_id c) id || String.eqb (cc_identity c) id.

(** [_component_ready] *)
Definition component_ready (report : option (list CertifiedComponent)) (component_id : option string)
    (kinds : list ComponentKind) : bool :=
  match report, component_id with
  | None, _ | _, None | _, Some "" => true
  | Some components, Some id =>
      match List.find (fun c => names_component id c && bool_decide (cc_kind c ∈ kinds)) components with
      | Some c => bool_decide (cc_state c = READY)
      | None => false
      end
  end.

Definition same_endpoint (a b : ExecutionRoute) : bool :=
  String.eqb (rt_model_id a) (rt_model_id b) && String.eqb (rt_provider a) (rt_provider b) &&
  bool_decide (rt_gateway_id a = rt_gateway_id b).

Definition provider_listed (report : option (list CertifiedComponent)) (provider : string) : bool :=
  match report with Some cs => existsb (names_component provider) cs | None => false end.

(** The body of the loop of [_pick_equivalent]: the candidate is returned. *)
Definition equivalent (current : ExecutionRoute) (report : option (list CertifiedComponent))
    (c : ExecutionRoute) : bool :=
  (rt_capability_tier c =? rt_capability_tier current) &&
  negb (rt_is_frontier c && negb (rt_is_frontier current)) &&
  negb (same_endpoint c current) &&
  component_ready report (rt_gateway_id c) [GATEWAY] &&
  negb (provider_listed report (rt_provider c) &&
        negb (component_ready report (Some (rt_provider c)) [PROVIDER; GATEWAY])).

(** [_pick_equivalent] *)
Definition pick_equivalent (current : ExecutionRoute) (candidates : list ExecutionRoute)
    (report : option (list CertifiedComponent)) : option ExecutionRoute :=
  List.find (equivalent current report) candidates.

(** The key [(tier, is_frontier, model_id, provider)]: [a]'s is at most [b]'s. *)
Definition weaker (a b : ExecutionRoute) : bool :=
  if rt_capability_tier a =? rt_capability_tier b then
    if eqb (rt_is_frontier a) (rt_is_frontier b) then
      if String.eqb (rt_model_id a) (rt_model_id b)
      then str_leb (rt_provider a) (rt_provider b)
      else str_leb (rt_model_id a) (rt_model_id b)
    else negb (rt_is_frontier a)
  else rt_capability_tier a <? rt_capability_tier b.

Definition is_stronger (current c : ExecutionRoute) : bool :=
  (rt_capability_tier current <? rt_capability_tier c) ||
  ((rt_capability_tier c =? rt_capability_tier current) &&
   negb (String.eqb (rt_model_id c) (rt_model_id current))).

(** [_pick_stronger] *)
Definition pick_stronger (current : ExecutionRoute) (candidates : list ExecutionRoute)
    : option ExecutionRoute :=
  head (sort_by weaker (List.filter (is_stronger current) candidates)).

(** * Decisions *)

Record BoundedRecoveryController := {
  br_bounds : RecoveryBounds;
  br_history : list RecoveryDecision
}.

(** The arguments of [decide]. *)
Record Request := {
  rq_evidence : FailureEvidence;
  rq_route : ExecutionRoute;
  rq_certification : option (list CertifiedComponent);
  rq_equivalent_routes : list ExecutionRoute;
  rq_stronger_routes : list ExecutionRoute;
  rq_attempt_index : option Z;
  rq_estimated_cash : option Q;
  rq_estimated_tokens : option Q;
  rq_now : datetime
}.

(** What a reservation counts against the tokens pool. *)
Definition counted (r : Reservation) : Q :=
  match r_status r with
  | Reserved | Partial => r_amount r
  | Reconciled => default 0%Q (r_actual_amount r)
  | Released => 0%Q
  end.

(** The loop over [ledger.reservations()]. *)
Definition reserved_tokens (l : CostLedger) : Q := total counted Quota "tokens" (reservations l).

(** The guards in order; the reason of the first that blocks. *)
Definition blocked_by (b : RecoveryBounds) (when : datetime) (attempt : Z) (l : CostLedger)
    (cash tokens : Q) : option string :=
  if match rb_deadline_at b with Some d => instant d <? instant when | None => false end
  then Some "deadline exceeded; bounded blocker"
  else if rb_max_attempts b <=? attempt
  then Some ("max attempts (" +:+ str_of_Z (rb_max_attempts b) +:+ ") exhausted; bounded blocker")
  else if match remaining_cash l with Some q => Qltb q cash | None => false end
  then Some "insufficient cash budget for recovery action; bounded blocker"
  else match quota_budgets l !! "tokens" with
       | Some budget =>
           if Qltb (budget - reserved_tokens l)%Q tokens
           then Some "insufficient token/quota budget for recovery action; bounded blocker"
           else None
       | None => None
       end.

(** The action of a decision that continues. *)
Record Plan := {
  pl_action : RecoveryAction;
  pl_route_after : ExecutionRoute;
  pl_reason : string;
  pl_escalated : bool;
  pl_frontier_call : bool;
  pl_replan_signal : bool;
  pl_charge : bool
}.

Definition stay (action : RecoveryAction) (route : ExecutionRoute) (reason : string)
    (replan charge : bool) : Plan :=
  {| pl_action := action; pl_route_after := route; pl_reason := reason; pl_escalated := false;
     pl_frontier_call := false; pl_replan_signal := replan; pl_charge := charge |}.

(** The same route without the frontier flag. *)
Definition off_frontier (r : ExecutionRoute) : ExecutionRoute :=
  {| rt_model_id := rt_model_id r; rt_provider := rt_provider r; rt_gateway_id := rt_gateway_id r;
     rt_capability_tier := rt_capability_tier r; rt_is_frontier := false |}.

(** The branches on the failure class: a plan, or the reason of a block. *)
Definition corrective (c : RecoveryFailureClass) (q : Request) : Plan + string :=
  let route := rq_route q in
  let same := pick_equivalent route (rq_equivalent_routes q) (rq_certification q) in
  let up := pick_stronger route (rq_stronger_routes q) in
  match c with
  | AMBIGUOUS_OR_UNKNOWN =>
      inr "ambiguous_or_unknown failure; conservative policy never marks success"
  | MISSING_OR_STALE_CONTEXT =>
      inl (stay REHYDRATE (if rt_is_frontier route then off_frontier route else route)
             "rehydrate missing/stale context; retry same cheap route (no frontier call)"
             false true)
  | TOOL_OR_ENVIRONMENT_MISMATCH =>
      inl (stay REPAIR_TOOL_OR_ENVIRONMENT route
             "repair/select eligible tool or environment path without model upgrade" false true)
  | VERIFICATION_OR_TEST_INFRA_FAILURE =>
      inl (stay REPAIR_TOOL_OR_ENVIRONMENT route
             "reconcile verification/test infrastructure before charging the generating model"
             false false)
  | PROVIDER_OR_GATEWAY_FAILURE =>
      match same with
      | None => inr "provider/gateway failure with no equivalent same-tier certified route"
      | Some r =>
          inl (stay SWITCH_EXECUTION_PLANE r
                 ("switch execution plane preserving capability tier ("
                  +:+ str_of_Z (rt_capability_tier route)
                  +:+ "); strategy/context/proof state unchanged") false true)
      end
  | IMPLEMENTATION_ERROR =>
      inl (stay RETRY route "bounded same-tier retry for implementation error" false true)
  | BAD_DECOMPOSITION_OR_PLAN =>
      inl (stay REPLAN route
             ("emit replan signal for BOD-104 strategy planner within budget "
              +:+ "(planner not invoked here)") true true)
  | CONTEXT_LENGTH_OVERFLOW =>
      match same, up with
      | Some r, _ =>
          inl (stay SWITCH_EXECUTION_PLANE r
                 ("context length overflow; switch execution plane to equivalent route "
                  +:+ "with potentially larger context window") false true)
      | None, Some r =>
          inl (stay SWITCH_EXECUTION_PLANE r
                 ("context length overflow; switch to stronger route with potentially "
                  +:+ "larger context window (no same-tier equivalent available)") false true)
      | None, None => inr "context length overflow with no alternative route"
      end
  | MODEL_CAPABILITY_DEFICIT =>
      match up with
      | None => inr "model capability deficit with no stronger qualified candidate"
      | Some r =>
          inl {| pl_action := ESCALATE_CAPABILITY; pl_route_after := r;
                 pl_reason := "escalate to stronger qualified candidate; "
                   +:+ "do not endlessly retry incapable same-tier model";
                 pl_escalated := true; pl_frontier_call := rt_is_frontier r;
                 pl_replan_signal := false; pl_charge := true |}
      end
  end.

Section decide.
(** [hashlib.sha256(...).hexdigest()] *)
Context (sha256_hex : string -> string).

(** [evidence_digest] *)
Definition evidence_digest (e : FailureEvidence) : string :=
  "sha256:" +:+ sha256_hex (dumps true (digest_payload e)).

(** The outcome of a request: its class, outcome and the plan or the reason of a block. *)
Definition verdict_of (b : RecoveryBounds) (attempt : Z) (l : CostLedger) (q : Request)
    : RecoveryFailureClass * RecoveryOutcome * (Plan + string) :=
  let e := rq_evidence q in
  let cash := default (rb_action_cash b) (rq_estimated_cash q) in
  let tokens := default (rb_action_tokens b) (rq_estimated_tokens q) in
  let c := classify_failure e in
  if ev_cancelled e
  then (AMBIGUOUS_OR_UNKNOWN, CANCELLED, inr "cancellation during verification is not completion")
  else match blocked_by b (rq_now q) attempt l cash tokens with
       | Some reason => (c, BLOCKED, inr reason)
       | None =>
           match corrective c q with
           | inr reason => (c, BLOCKED, inr reason)
           | inl p => (c, CONTINUE, inl p)
           end
       end.

(** The decision object; a block keeps the route, and only a cancellation or an
    infrastructure repair does not charge the generating model. *)
Definition decision (l : CostLedger) (q : Request) (attempt : Z)
    (v : RecoveryFailureClass * RecoveryOutcome * (Plan + string)) : RecoveryDecision :=
  let '(c, outcome, plan) := v in
  let p := match plan with
           | inl p => p
           | inr reason => stay BLOCK (rq_route q) reason false
                             (negb (bool_decide (outcome = CANCELLED)))
           end in
  {| rd_failure_class := c; rd_action := pl_action p; rd_outcome := outcome;
     rd_route_before := rq_route q; rd_route_after := pl_route_after p;
     rd_reason := pl_reason p; rd_attempt_index := attempt;
     rd_evidence_digest := evidence_digest (rq_evidence q);
     rd_created_at := astimezone_utc (rq_now q); rd_escalated := pl_escalated p;
     rd_frontier_call := pl_frontier_call p; rd_replan_signal := pl_replan_signal p;
     rd_charge_generating_model := pl_charge p; rd_success := false;
     rd_cash_remaining := remaining_cash l |}.

(** [decide] *)
Definition decide_bounded (ctl : BoundedRecoveryController) (l : CostLedger) (q : Request)
    : result recovery_exn (BoundedRecoveryController * RecoveryDecision) :=
  let e := rq_evidence q in
  let attempt := default (Z.of_nat (length (br_history ctl))) (rq_attempt_index q) in
  match ev_generating_worker_id e, ev_verification_worker_id e with
  | Some g, Some v =>
      raise_if (String.eqb g v)
        (RecoveryValueError ("verification must be independent of the generating worker (got "
                             +:+ repr g +:+ ")"))
  | _, _ => Ok tt
  end ≫= fun _ =>
  let d := decision l q attempt (verdict_of (br_bounds ctl) attempt l q) in
  Ok ({| br_bounds := br_bounds ctl; br_history := br_history ctl ++ [d] |}, d).
End decide.

(** * Lemmas *)

Lemma blocked_by_none b when attempt l cash tokens :
  blocked_by b when attempt l cash tokens = None <->
  (forall d, rb_deadline_at b = Some d -> instant when <= instant d) /\
  attempt < rb_max_attempts b /\
  (forall q, remaining_cash l = Some q -> cash <= q)%Q /\
  (forall budget, quota_budgets l !! "tokens" = Some budget ->
     tokens + reserved_tokens l <= budget)%Q.
Proof.
  unfold blocked_by. split.
  - intros H. destruct (match rb_deadline_at b with Some _ => _ | None => _ end) eqn:Ed; [done|].
    destruct (rb_max_attempts b <=? attempt) eqn:Ea; [done|].
    destruct (match remaining_cash l with Some _ => _ | None => _ end) eqn:Ec; [done|].
    split_and!.
    + intros d Hd. rewrite Hd in Ed. lia.
    + lia.
    + intros q Hq. rewrite Hq in Ec. by apply Qltb_false in Ec.
    + intros budget Hb. rewrite Hb in H. destruct (Qltb _ _) eqn:Et; [done|].
      apply Qltb_false in Et. lra.
  - intros (Hd & Ha & Hc & Ht).
    assert (match rb_deadline_at b with Some d => instant d <? instant when | None => false end = false)
      as ->. { destruct (rb_deadline_at b) as [d|]; [|done]. specialize (Hd d eq_refl). lia. }
    assert (rb_max_attempts b <=? attempt = false) as -> by lia.
    assert (match remaining_cash l with Some q => Qltb q cash | None => false end = false) as ->.
    { destruct (remaining_cash l) as [q|]; [|done]. by apply Qltb_false, Hc. }
    destruct (quota_budgets l !! "tokens") as [budget|]; [|done].
    specialize (Ht budget eq_refl). destruct (Qltb _ _) eqn:E; [|done].
    apply Qltb_spec in E. lra.
Qed.

Lemma decide_bounded_ok sha256_hex ctl l q ctl' d :
  decide_bounded sha256_hex ctl l q = Ok (ctl', d) ->
  let attempt := default (Z.of_nat (length (br_history ctl))) (rq_attempt_index q) in
  d = decision sha256_hex l q attempt (verdict_of (br_bounds ctl) attempt l q) /\
  br_bounds ctl' = br_bounds ctl /\ br_history ctl' = br_history ctl ++ [d].
Proof. unfold decide_bounded. intros (u & _ & [= <- <-])%bind_ok. done. Qed.

(** The decision object carries the verdict. *)
Lemma decision_fields sha256_hex l q attempt c outcome plan :
  let d := decision sha256_hex l q attempt (c, outcome, plan) in
  rd_failure_class d = c /\ rd_outcome d = outcome /\ rd_success d = false /\
  rd_route_before d = rq_route q /\ rd_attempt_index d = attempt.
Proof. done. Qed.

Lemma verdict_continue b attempt l q c plan :
  verdict_of b attempt l q = (c, CONTINUE, plan) ->
  ev_cancelled (rq_evidence q) = false /\ c = classify_failure (rq_evidence q) /\
  blocked_by b (rq_now q) attempt l (default (rb_action_cash b) (rq_estimated_cash q))
    (default (rb_action_tokens b) (rq_estimated_tokens q)) = None /\
  exists p, plan = inl p /\ corrective c q = inl p.
Proof.
  unfold verdict_of. destruct (ev_cancelled (rq_evidence q)); [done|].
  destruct (blocked_by _ _ _ _ _ _); [done|].
  destruct (corrective _ q) as [p|r] eqn:E; [|done]. intros [= <- <-]. split_and!; eauto.
Qed.

Lemma verdict_outcome b attempt l q c outcome plan :
  verdict_of b attempt l q = (c, outcome, plan) -> outcome ∈ [CONTINUE; BLOCKED; CANCELLED].
Proof. unfold verdict_of. repeat case_match; intros [= <- <- <-]; set_solver. Qed.

(** * The ledger's promise *)

Lemma total_le f g P id rs :
  Forall (fun p => f p.2 <= g p.2)%Q rs -> (total f P id rs <= total g P id rs)%Q.
Proof.
  induction 1 as [|[k r] rs H _ IH]; [cbn; lra|]. rewrite !total_cons. unfold share. cbn in H.
  destruct (in_pool P id r); lra.
Qed.

(** The guard never counts less of a reservation than the pool holds. *)
Lemma run_counted l0 l :
  reservations l0 = [] ->
  ledger_run (fun l op => disciplined l op /\ thrifty l op) l0 l ->
  Forall (fun p => due_amount p.2 <= counted p.2)%Q (reservations l).
Proof.
  intros Hnil. induction 1 as [|l op l' Hrun IH [D T] H]; [by rewrite Hnil|].
  apply ledger_exec_change in H. destruct H as
    [rid amount a pool unit pid terms allow now l1 u Ha Hh <- <- Hst <- Hact
    |rid a r notes Hr Hs|rid a r actual s terms notes l1 Hr Hs Ha Hs' Hl
    |rid r notes l1 Hr Hs Hl|a price now ts]; cbn in D, T.
  - destruct (hold_shifted _ _ _ _ _ _ _ u Hh) as [[E _ _ _ _ _ _] _]; try done.
    cbn. rewrite E. apply (dict_set_Forall (fun r => due_amount r <= counted r)%Q); [exact IH|].
    unfold due_amount, open_amount, spent_amount, counted. rewrite Hst. lra.
  - apply (dict_set_Forall (fun r => due_amount r <= counted r)%Q); [exact IH|].
    unfold due_amount, open_amount, spent_amount, counted; cbn. lra.
  - assert (reservations l1 = reservations l) as E.
    { unfold apply_settle in Hl. destruct (r_pool r); inv_ok; subst; done. }
    cbn. rewrite E. apply (dict_set_Forall (fun r => due_amount r <= counted r)%Q); [exact IH|].
    specialize (T r actual Hr Ha). unfold due_amount, open_amount, spent_amount, counted; cbn.
    destruct Hs' as [-> | ->]; lra.
  - assert (reservations l1 = reservations l) as E.
    { unfold release_reserved in Hl. destruct (r_pool r); inv_ok; subst; done. }
    cbn. rewrite E. apply (dict_set_Forall (fun r => due_amount r <= counted r)%Q); [exact IH|].
    unfold due_amount, open_amount, spent_amount, counted; cbn. lra.
  - exact IH.
Qed.

(** * Properties *)

(** What a decision that continues says of its request. *)
Lemma continue_facts sha256_hex ctl l q ctl' d :
  decide_bounded sha256_hex ctl l q = Ok (ctl', d) -> rd_outcome d = CONTINUE ->
  ev_cancelled (rq_evidence q) = false /\
  rd_failure_class d = classify_failure (rq_evidence q) /\
  blocked_by (br_bounds ctl) (rq_now q) (rd_attempt_index d) l
    (default (rb_action_cash (br_bounds ctl)) (rq_estimated_cash q))
    (default (rb_action_tokens (br_bounds ctl)) (rq_estimated_tokens q)) = None /\
  rd_attempt_index d = default (Z.of_nat (length (br_history ctl))) (rq_attempt_index q) /\
  rd_route_before d = rq_route q /\
  exists p, corrective (rd_failure_class d) q = inl p /\
    rd_action d = pl_action p /\ rd_route_after d = pl_route_after p /\
    rd_escalated d = pl_escalated p /\ rd_frontier_call d = pl_frontier_call p.
Proof.
  intros (-> & _ & _)%decide_bounded_ok.
  set (attempt := default _ (rq_attempt_index q)).
  destruct (verdict_of (br_bounds ctl) attempt l q) as [[c outcome] plan] eqn:Ej.
  destruct (decision_fields sha256_hex l q attempt c outcome plan) as (Hc & Ho & _ & Hr & Ha).
  rewrite Ho, Hc, Hr, Ha. intros ->.
  destruct (verdict_continue _ _ _ _ _ _ Ej) as (Hcan & -> & Hb & p & -> & Hp).
  split_and!; try done. by exists p.
Qed.

(** A decision to continue is within every bound, and no decision is a success.
    [CONTINUE] means: not cancelled, not ambiguous, within the deadline, below the
    attempt limit, the estimate within the remaining cash and within what the tokens
    pool has left. *)
Theorem continue_within_bounds sha256_hex ctl l q ctl' d :
  decide_bounded sha256_hex ctl l q = Ok (ctl', d) ->
  rd_success d = false /\ rd_outcome d <> SUCCESS /\
  (rd_outcome d = CONTINUE ->
   ev_cancelled (rq_evidence q) = false /\
   ev_side_effects_ambiguous (rq_evidence q) = false /\
   (forall t, rb_deadline_at (br_bounds ctl) = Some t -> instant (rq_now q) <= instant t) /\
   rd_attempt_index d < rb_max_attempts (br_bounds ctl) /\
   (forall r, remaining_cash l = Some r ->
      default (rb_action_cash (br_bounds ctl)) (rq_estimated_cash q) <= r)%Q /\
   (forall budget, quota_budgets l !! "tokens" = Some budget ->
      default (rb_action_tokens (br_bounds ctl)) (rq_estimated_tokens q) + reserved_tokens l
      <= budget)%Q).
Proof.
  intros H. pose proof (continue_facts _ _ _ _ _ _ H) as Hf.
  apply decide_bounded_ok in H as (Hd & _ & _).
  destruct (verdict_of _ _ _ _) as [[c outcome] plan] eqn:Ej. apply verdict_outcome in Ej.
  split; [by rewrite Hd|]. split; [rewrite Hd; cbn; set_solver|].
  intros (Hcan & Hcl & Hb & _ & _ & p & Hp & _)%Hf.
  apply blocked_by_none in Hb as (? & ? & ? & ?). split_and!; try done.
  destruct (ev_side_effects_ambiguous (rq_evidence q)) eqn:Ea; [|done].
  rewrite Hcl in Hp. unfold classify_failure in Hp. by rewrite Ea, orb_true_r in Hp.
Qed.

(** The pools can hold what a decision to continue estimated. *)
Lemma continue_holds sha256_hex trajectory cash subs quotas ci floor l0 l ctl q ctl' d :
  cost_ledger trajectory cash subs quotas ci floor = Ok l0 ->
  ledger_run (fun l op => disciplined l op /\ thrifty l op) l0 l ->
  decide_bounded sha256_hex ctl l q = Ok (ctl', d) -> rd_outcome d = CONTINUE ->
  let cash_needed := default (rb_action_cash (br_bounds ctl)) (rq_estimated_cash q) in
  let tokens_needed := default (rb_action_tokens (br_bounds ctl)) (rq_estimated_tokens q) in
  exists l1, hold l Cash "usd" None false cash_needed = Ok l1 /\
    (is_Some (quota_budgets l !! "tokens") ->
     exists l2, hold l1 Quota "tokens" (Some "tokens") false tokens_needed = Ok l2).
Proof.
  intros (B & _ & _ & Hnil & _)%cost_ledger_start Hrun H Ho. cbv zeta.
  destruct (continue_facts _ _ _ _ _ _ H Ho) as (_ & _ & Hb & _).
  apply blocked_by_none in Hb as (_ & _ & Hcash & Htok).
  pose proof (run_books _ l0 l (fun _ _ H => proj1 H) B Hrun) as Bl.
  pose proof (total_le _ _ Quota "tokens" _ (run_counted l0 l Hnil Hrun)) as Hle.
  set (cn := default _ (rq_estimated_cash q)) in *.
  exists (with_cash l (cash_reserved l + cn)%Q (cash_spent l)). split.
  - cbn. unfold remaining_cash in Hcash. destruct (cash_budget l) as [b|]; [|done].
    specialize (Hcash _ eq_refl). destruct (Qltb _ _) eqn:E; [|done].
    apply Qltb_spec in E. lra.
  - intros [budget Hq]. cbn. unfold reserve_named. cbn. rewrite Hq.
    specialize (Htok _ Hq). pose proof (bk_quota _ Bl "tokens") as Hbk.
    destruct (Qltb _ _) eqn:E; [|eauto]. apply Qltb_spec in E. unfold reserved_tokens in Htok.
    cbn in E. lra.
Qed.

(** [reserve] of an amount that is not negative succeeds where the pool can hold it. *)
Lemma reserve_holds l rid amount pool unit pool_id terms prot now l' :
  (0 <= amount)%Q -> dt_off now <> None -> hold l pool unit pool_id prot amount = Ok l' ->
  exists r, reserve l rid (InDecimal (Some amount)) pool unit pool_id terms prot now
            = Ok (with_reservations l' (dict_set rid r (reservations l')), r).
Proof.
  intros Ha Hn H.
  assert (E : non_negative_in (Some (InDecimal (Some amount))) "amount" = Ok amount).
  { unfold non_negative_in, require_non_negative. cbn. destruct (Qltb amount 0) eqn:E; [|done].
    apply Qltb_spec in E. lra. }
  unfold reserve. rewrite E. cbn [mbind result_mbind result_bind]. unfold utc_of. destruct (dt_off now); [|done].
  cbn [mbind result_mbind result_bind]. rewrite H. cbn [mbind result_mbind result_bind]. by eexists.
Qed.

Lemma hold_reservations l rs amount l' :
  hold l Quota "tokens" (Some "tokens") false amount = Ok l' ->
  hold (with_reservations l rs) Quota "tokens" (Some "tokens") false amount = Ok (with_reservations l' rs).
Proof.
  cbn. intros H. apply bind_ok in H as (m & H & [= <-]). unfold with_reservations at 1 2. cbn. by rewrite H.
Qed.

(** C26: what a recovery needs can be paid. In a ledger reached from its construction by
    operations that reuse no reservation id, settle no reservation above its amount and
    none twice, a decision to continue with estimates that are not negative is followed by calls of
    [reserve] at an aware time that succeed: for the estimated cash, and then for the estimated tokens when a tokens
    pool is configured. *)
Theorem continue_is_affordable sha256_hex trajectory cash subs quotas ci floor l0 l ctl q ctl' d now :
  cost_ledger trajectory cash subs quotas ci floor = Ok l0 ->
  ledger_run (fun l op => disciplined l op /\ thrifty l op) l0 l ->
  decide_bounded sha256_hex ctl l q = Ok (ctl', d) -> rd_outcome d = CONTINUE -> dt_off now <> None ->
  let cash_needed := default (rb_action_cash (br_bounds ctl)) (rq_estimated_cash q) in
  let tokens_needed := default (rb_action_tokens (br_bounds ctl)) (rq_estimated_tokens q) in
  (0 <= cash_needed)%Q -> (0 <= tokens_needed)%Q ->
  forall rid rid' terms, exists l1 r1,
    reserve l rid (InDecimal (Some cash_needed)) Cash "usd" None terms false now = Ok (l1, r1) /\
    (is_Some (quota_budgets l !! "tokens") ->
     exists l2 r2, reserve l1 rid' (InDecimal (Some tokens_needed)) Quota "tokens" (Some "tokens") terms false now
                   = Ok (l2, r2)).
Proof.
  intros Hstart Hrun H Ho Hnow cn tn Hc Ht rid rid' terms.
  destruct (continue_holds _ _ _ _ _ _ _ _ _ _ _ _ _ Hstart Hrun H Ho) as (l1 & H1 & H2). fold cn tn in H1, H2.
  destruct (reserve_holds l rid cn Cash "usd" None terms false now l1 Hc Hnow H1) as (r1 & E1).
  do 2 eexists. split; [exact E1|]. intros Hq. destruct (H2 Hq) as (l2 & E2).
  destruct (reserve_holds (with_reservations l1 (dict_set rid r1 (reservations l1))) rid' tn Quota "tokens"
    (Some "tokens") terms false now (with_reservations l2 (dict_set rid r1 (reservations l1))) Ht Hnow) as (r2 & E3);
    [|by do 2 eexists].
  by apply hold_reservations.
Qed.


(** The decisions of one controller; a request that raises leaves no trace. *)
Fixpoint decisions (sha256_hex : string -> string) (ctl : BoundedRecoveryController)
    (requests : list (CostLedger * Request)) : BoundedRecoveryController :=
  match requests with
  | [] => ctl
  | (l, q) :: requests =>
      decisions sha256_hex
        (match decide_bounded sha256_hex ctl l q with Ok (ctl', _) => ctl' | Err _ => ctl end)
        requests
  end.

Definition continues (d : RecoveryDecision) : bool := bool_decide (rd_outcome d = CONTINUE).

(** Only the first [n] elements of a list may satisfy [p]. *)
Lemma filter_bounded {A} (p : A -> bool) l n :
  (forall i x, l !! i = Some x -> p x = true -> (i < n)%nat) ->
  (length (List.filter p l) <= n)%nat.
Proof.
  intros H. rewrite <- (take_drop n l), List.filter_app, length_app.
  assert (List.filter p (drop n l) = []) as ->.
  { destruct (List.filter p (drop n l)) as [|x xs] eqn:E; [done|].
    assert (In x (List.filter p (drop n l))) as [Hx Hp]%List.filter_In by (rewrite E; by left).
    apply list_elem_of_In, list_elem_of_lookup in Hx as [i Hi]. rewrite lookup_drop in Hi.
    specialize (H _ _ Hi Hp). lia. }
  pose proof (List.filter_length_le p (take n l)). rewrite length_take in *. cbn. lia.
Qed.

Lemma decisions_indexed sha256_hex requests ctl :
  Forall (fun lq => rq_attempt_index lq.2 = None) requests ->
  (forall i d, br_history ctl !! i = Some d -> continues d = true ->
     Z.of_nat i < rb_max_attempts (br_bounds ctl)) ->
  let ctl' := decisions sha256_hex ctl requests in
  br_bounds ctl' = br_bounds ctl /\
  forall i d, br_history ctl' !! i = Some d -> continues d = true ->
    Z.of_nat i < rb_max_attempts (br_bounds ctl).
Proof.
  cbv zeta. intros Hr. revert ctl. induction Hr as [|[l q] requests Hq _ IH]; intros ctl Hh; [done|].
  cbn [decisions]. destruct (decide_bounded sha256_hex ctl l q) as [[ctl' d]|] eqn:E; [|by apply IH].
  pose proof (continue_facts sha256_hex ctl l q ctl' d E) as Hb.
  apply decide_bounded_ok in E as (Hd & Eb & Eh). rewrite <- Eb. apply IH.
  intros i d' Hi Hc. rewrite Eb. rewrite Eh in Hi.
  apply lookup_app_Some in Hi as [Hi|[Hlen Hi]]; [by apply (Hh _ _ Hi)|].
  apply list_lookup_singleton_Some in Hi as [Hi <-].
  apply bool_decide_eq_true in Hc. apply Hb in Hc as (_ & _ & Hbl & Ha & _).
  apply blocked_by_none in Hbl as (_ & Hlt & _). cbn in Hq. rewrite Ha, Hq in Hlt. cbn in Hlt. lia.
Qed.

(** Recovery is bounded. Whatever the failures, routes and ledgers, a controller
    whose requests leave the attempt index to it decides to continue at most
    [max_attempts] times. *)
Theorem recovery_attempts_bounded sha256_hex max_attempts deadline cash tokens b requests :
  recovery_bounds max_attempts deadline cash tokens = Ok b ->
  Forall (fun lq => rq_attempt_index lq.2 = None) requests ->
  Z.of_nat (length (List.filter continues
    (br_history (decisions sha256_hex {| br_bounds := b; br_history := [] |} requests))))
  <= max_attempts.
Proof.
  unfold recovery_bounds. intros ([] & Hm%raise_if_ok & [= <-])%bind_ok Hr.
  set (ctl := {| br_bounds := _; br_history := [] |}).
  destruct (decisions_indexed sha256_hex requests ctl Hr) as [_ H]; [done|].
  assert (length (List.filter continues (br_history (decisions sha256_hex ctl requests)))
          <= Z.to_nat max_attempts)%nat; [|lia].
  apply filter_bounded. intros i d Hi Hc. specialize (H i d Hi Hc). cbn in H. lia.
Qed.

(** A component a report certifies as ready, of one of the kinds. *)
Definition certified (report : option (list CertifiedComponent)) (id : string)
    (kinds : list ComponentKind) : Prop :=
  forall cs, report = Some cs -> id <> "" ->
  exists c, c ∈ cs /\ names_component id c = true /\ cc_kind c ∈ kinds /\ cc_state c = READY.

Lemma component_ready_certified report id kinds :
  component_ready report (Some id) kinds = true -> certified report id kinds.
Proof.
  unfold certified. intros H cs -> Hne. destruct id as [|a id]; [done|]. cbn [component_ready] in H.
  destruct (List.find _ cs) as [c|] eqn:E; [|done].
  apply List.find_some in E as [Hin Hc]. bool_hyps. exists c.
  by rewrite list_elem_of_In.
Qed.

(** An execution-plane switch after a provider or gateway failure keeps the
    capability tier: the new route is one of the offered ones, of the same tier, not the
    endpoint that failed, never a frontier model instead of a cheap one, behind a
    gateway that the certification report, if there is one, holds ready, and of a
    provider that is ready if the report lists it. *)
Theorem switch_is_equivalent sha256_hex ctl l q ctl' d :
  decide_bounded sha256_hex ctl l q = Ok (ctl', d) -> rd_outcome d = CONTINUE ->
  rd_failure_class d = PROVIDER_OR_GATEWAY_FAILURE ->
  let r := rd_route_after d in
  rd_action d = SWITCH_EXECUTION_PLANE /\ r ∈ rq_equivalent_routes q /\
  rt_capability_tier r = rt_capability_tier (rq_route q) /\
  same_endpoint r (rq_route q) = false /\
  (rt_is_frontier r = true -> rt_is_frontier (rq_route q) = true) /\
  (forall g, rt_gateway_id r = Some g -> certified (rq_certification q) g [GATEWAY]) /\
  (provider_listed (rq_certification q) (rt_provider r) = true ->
   certified (rq_certification q) (rt_provider r) [PROVIDER; GATEWAY]).
Proof.
  intros H Ho Hc. destruct (continue_facts _ _ _ _ _ _ H Ho) as (_ & _ & _ & _ & _ & p & Hp & Ha & Hr & _).
  rewrite Hc in Hp. cbn in Hp. destruct (pick_equivalent _ _ _) as [r|] eqn:E; [|done].
  injection Hp as <-. rewrite Ha, Hr. cbn. unfold pick_equivalent in E.
  apply List.find_some in E as [Hin He]. unfold equivalent in He. bool_hyps.
  rewrite list_elem_of_In. split_and!; try done; try lia.
  - intros Hf. destruct (rt_is_frontier (rq_route q)); [done|]. rewrite Hf in *. naive_solver.
  - intros g Hg. apply component_ready_certified. by rewrite <- Hg.
  - intros Hl. apply component_ready_certified.
    destruct (component_ready (rq_certification q) (Some (rt_provider r)) _); [done|].
    rewrite Hl in *. naive_solver.
Qed.

Lemma weaker_total a b : weaker a b = true \/ weaker b a = true.
Proof.
  unfold weaker. rewrite (Z.eqb_sym (rt_capability_tier b)).
  destruct (Z.eqb_spec (rt_capability_tier a) (rt_capability_tier b)); [|lia].
  destruct (rt_is_frontier a), (rt_is_frontier b); cbn; auto;
    rewrite (String.eqb_sym (rt_model_id b));
    destruct (String.eqb (rt_model_id a) (rt_model_id b)); apply str_leb_total.
Qed.

(** The key as a lexicographic product. *)
Lemma weaker_spec a b :
  weaker a b = true <->
  rt_capability_tier a < rt_capability_tier b \/
  rt_capability_tier a = rt_capability_tier b /\
  (rt_is_frontier a = false /\ rt_is_frontier b = true \/
   rt_is_frontier a = rt_is_frontier b /\
   (rt_model_id a <> rt_model_id b /\ str_leb (rt_model_id a) (rt_model_id b) = true \/
    rt_model_id a = rt_model_id b /\ str_leb (rt_provider a) (rt_provider b) = true)).
Proof.
  unfold weaker. destruct (Z.eqb_spec (rt_capability_tier a) (rt_capability_tier b)).
  - destruct (String.eqb_spec (rt_model_id a) (rt_model_id b)) as [E|E];
      destruct (rt_is_frontier a), (rt_is_frontier b); cbn; naive_solver lia.
  - rewrite Z.ltb_lt. naive_solver lia.
Qed.

Lemma weaker_trans a b c : weaker a b = true -> weaker b c = true -> weaker a c = true.
Proof.
  rewrite !weaker_spec.
  intros [?|(? & [[? ?]|(? & [[? ?]|[? ?]])])] [?|(? & [[? ?]|(? & [[? ?]|[? ?]])])];
    try (left; lia); right; (split; [lia|]); try (left; split; congruence);
    right; (split; [congruence|]).
  - destruct (decide (rt_model_id a = rt_model_id c)) as [E|Hne]; [|left; split; [done|]].
    + exfalso. rewrite E in *. by apply H1, str_leb_antisym.
    + by eapply str_leb_trans.
  - left. split; congruence.
  - left. split; congruence.
  - right. split; [congruence|]. by eapply str_leb_trans.
Qed.

(** The chosen candidate is qualified, and least among the qualified ones. *)
Lemma pick_stronger_least current candidates r :
  pick_stronger current candidates = Some r ->
  r ∈ candidates /\ is_stronger current r = true /\
  forall c, c ∈ candidates -> is_stronger current c = true -> weaker r c = true.
Proof.
  unfold pick_stronger. set (qualified := List.filter (is_stronger current) candidates). intros H.
  pose proof (sort_by_sorted weaker weaker_total weaker_trans qualified) as Hs.
  assert (Hin : forall x, x ∈ sort_by weaker qualified <-> x ∈ candidates /\ is_stronger current x = true).
  { intros x. unfold qualified. rewrite elem_of_sort_by, elem_of_lfilter. tauto. }
  destruct (sort_by weaker qualified) as [|x xs]; [done|]. injection H as ->.
  destruct (proj1 (Hin r)) as [? ?]; [by left|]. split_and!; try done.
  intros c Hc Hq. apply StronglySorted_inv in Hs as [_ Hall]. rewrite Forall_forall in Hall.
  assert (c ∈ r :: xs) as [->|Hx]%elem_of_cons by by apply Hin.
  - by destruct (weaker_total r r).
  - by apply Hall.
Qed.

(** Capability is raised for a capability deficit only, and to the least qualified
    candidate. A decision that escalates has that class; its route is one of the
    offered stronger ones, and no qualified one is below it in tier, frontier use and
    name. *)
Theorem escalation_is_least sha256_hex ctl l q ctl' d :
  decide_bounded sha256_hex ctl l q = Ok (ctl', d) -> rd_outcome d = CONTINUE ->
  (rd_escalated d = true <-> rd_failure_class d = MODEL_CAPABILITY_DEFICIT) /\
  (rd_escalated d = true ->
   rd_route_after d ∈ rq_stronger_routes q /\
   is_stronger (rq_route q) (rd_route_after d) = true /\
   rd_frontier_call d = rt_is_frontier (rd_route_after d) /\
   forall c, c ∈ rq_stronger_routes q -> is_stronger (rq_route q) c = true ->
     weaker (rd_route_after d) c = true).
Proof.
  intros H Ho. destruct (continue_facts _ _ _ _ _ _ H Ho) as (_ & _ & _ & _ & _ & p & Hp & _ & Hr & He & Hf).
  rewrite Hr, He, Hf. clear Hr He Hf H Ho.
  destruct (rd_failure_class d); cbn in Hp; repeat case_match; simplify_eq; cbn; try by split.
  split; [by split|]. intros _.
  match goal with H : pick_stronger _ _ = Some _ |- _ => apply pick_stronger_least in H as (? & ? & ?) end.
  by split_and!.
Qed.

(** The evidence digest identifies the evidence: two records with one digest are
    equal, unless two different texts have one SHA-256 digest. *)
Theorem digest_identifies_evidence sha256_hex e1 e2 :
  evidence_digest sha256_hex e1 = evidence_digest sha256_hex e2 ->
  e1 = e2 \/ exists a b, a <> b /\ sha256_hex a = sha256_hex b.
Proof.
  unfold evidence_digest. intros H%(inj (String.append "sha256:")).
  destruct (decide (dumps true (digest_payload e1) = dumps true (digest_payload e2))) as [E|Hne];
    [left|by right; eauto].
  assert (Hwf : forall e, json_wf (digest_payload e) = true).
  { intros e. apply obj_wf. repeat (apply Forall_cons; split; [cbn [snd]|]); [..|constructor]; try done.
    - by destruct (ev_status_code e).
    - by apply (list_wf JStr (fun _ => True)); [|apply Forall_true].
    - by destruct (ev_generating_worker_id e).
    - by destruct (ev_verification_worker_id e). }
  apply dumps_inj in E; [|apply Hwf..].
  assert (Hget : forall k, match digest_payload e1, digest_payload e2 with
    | JObj a, JObj b => dict_get k a = dict_get k b | _, _ => False end).
  { intros k. rewrite E. done. }
  assert (Hopt : forall A (f : A -> json) (a b : option A), (forall x y, f x = f y -> x = y) ->
    (forall x, f x <> JNull) -> jopt f a = jopt f b -> a = b).
  { intros A f [] [] Hf Hn Hj; cbn in Hj; try done; [f_equal; auto|by destruct (Hn a)|by destruct (Hn a)]. }
  destruct e1 as [c1 m1 s1 g1 a1 x1 w1 v1], e2 as [c2 m2 s2 g2 a2 x2 w2 v2].
  pose proof (Hget "error_class") as E1. pose proof (Hget "message") as E2.
  pose proof (Hget "status_code") as E3. pose proof (Hget "signals") as E4.
  pose proof (Hget "side_effects_ambiguous") as E5. pose proof (Hget "cancelled") as E6.
  pose proof (Hget "generating_worker_id") as E7. pose proof (Hget "verification_worker_id") as E8.
  cbn -[sort_str elements jopt map] in E1, E2, E3, E4, E5, E6, E7, E8.
  injection E1 as ->. injection E2 as ->. injection E5 as ->. injection E6 as ->.
  injection E3 as E3%Hopt; [|congruence|done]. injection E7 as E7%Hopt; [|congruence|done].
  injection E8 as E8%Hopt; [|congruence|done]. injection E4 as E4.
  subst. f_equal. apply set_eq. intros x.
  assert (Hs : forall g : gset string, x ∈ g <-> x ∈ sort_str (elements g)).
  { intros g. by rewrite elem_of_sort_str, elem_of_elements. }
  rewrite (Hs g1), (Hs g2).
  assert (Hinj : forall a b, map JStr a = map JStr b -> a = b).
  { induction a as [|y a IH]; intros [|z b] Hab; cbn in Hab; try done. injection Hab as -> ?%IH. by subst. }
  by apply Hinj in E4 as ->.
Qed.

(** * Samples *)

Module BoundedSample.

Definition digest (s : string) : string := s.

Definition route (model provider : string) (gateway : option string) (tier : Z) (frontier : bool)
    : ExecutionRoute :=
  {| rt_model_id := model; rt_provider := provider; rt_gateway_id := gateway;
     rt_capability_tier := tier; rt_is_frontier := frontier |}.

Definition evidence (signal : string) : FailureEvidence :=
  {| ev_error_class := ""; ev_message := ""; ev_status_code := None; ev_signals := {[ signal ]};
     ev_side_effects_ambiguous := false; ev_cancelled := false;
     ev_generating_worker_id := Some "gen-1"; ev_verification_worker_id := Some "verify-1" |}.

Definition cheap : ExecutionRoute := route "small" "p" (Some "gateway-a") 0 false.

Definition request (signal : string) (from : ExecutionRoute) (same up : list ExecutionRoute) : Request :=
  {| rq_evidence := evidence signal; rq_route := from; rq_certification := None;
     rq_equivalent_routes := same; rq_stronger_routes := up; rq_attempt_index := None;
     rq_estimated_cash := None; rq_estimated_tokens := None; rq_now := utc 0 |}.

Definition controller : BoundedRecoveryController :=
  {| br_bounds := default_bounds; br_history := [] |}.

(** The decision on a request, with the ledger of [CostLedger]'s sample run. *)
Definition decided (q : Request) : option RecoveryDecision :=
  match decide_bounded digest controller sample_end q with Ok (_, d) => Some d | Err _ => None end.

Definition outage : Request :=
  request "Provider_Outage" cheap [cheap; route "small" "q" (Some "gateway-b") 0 false] [].

Definition deficit : Request :=
  request "capability_deficit" cheap []
    [route "huge" "q" None 3 true; route "medium" "q" None 1 false].
End BoundedSample.

Lemma continue_within_bounds_witness :
  exists d, BoundedSample.decided BoundedSample.outage = Some d /\ rd_outcome d = CONTINUE /\
  rd_success d = false.
Proof.
  eexists. split; [vm_compute; reflexivity|]. split; [reflexivity|].
  refine (proj1 (continue_within_bounds BoundedSample.digest BoundedSample.controller sample_end
    BoundedSample.outage _ _ _)). vm_compute. reflexivity.
Defined.

Lemma continue_is_affordable_witness :
  exists l1 r1, reserve sample_end "r" (InDecimal (Some (1 # 100)%Q)) Cash "usd" None [] false (utc 0) = Ok (l1, r1).
Proof.
  assert (E : exists ctl d, decide_bounded BoundedSample.digest BoundedSample.controller
    sample_end BoundedSample.outage = Ok (ctl, d) /\ rd_outcome d = CONTINUE).
  { eexists _, _. split; [vm_compute; reflexivity|reflexivity]. }
  destruct E as (ctl & d & E & Ho).
  destruct (continue_is_affordable BoundedSample.digest _ _ _ _ _ _ _ sample_end
    BoundedSample.controller BoundedSample.outage ctl d (utc 0) sample_ledger_start) with (rid := "r") (rid' := "s")
    (terms := @nil CostTerm) as (l1 & r1 & H & _).
  - eapply run_weaken; [|exact sample_run]. intros l op (H1 & H2 & _). exact (conj H1 H2).
  - exact E.
  - exact Ho.
  - discriminate.
  - vm_compute. discriminate.
  - vm_compute. discriminate.
  - exists l1, r1. exact H.
Defined.

(** Estimates are not checked: with a negative one the controller continues, and the reservation of
    what it estimated is refused. *)
Theorem negative_estimate_continues :
  let q := {| rq_evidence := rq_evidence BoundedSample.outage; rq_route := rq_route BoundedSample.outage;
              rq_certification := None; rq_equivalent_routes := rq_equivalent_routes BoundedSample.outage;
              rq_stronger_routes := []; rq_attempt_index := None; rq_estimated_cash := Some (-1)%Q;
              rq_estimated_tokens := None; rq_now := utc 0 |} in
  (exists ctl d, decide_bounded BoundedSample.digest BoundedSample.controller sample_end q = Ok (ctl, d) /\
     rd_outcome d = CONTINUE) /\
  exists e, reserve sample_end "r" (InDecimal (Some (-1)%Q)) Cash "usd" None [] false (utc 0) = Err e.
Proof. split; [do 2 eexists; split; [vm_compute; reflexivity|reflexivity]|eexists; vm_compute; reflexivity]. Qed.

Lemma recovery_attempts_bounded_witness :
  Z.of_nat (length (List.filter continues (br_history
    (decisions BoundedSample.digest BoundedSample.controller
      (repeat (sample_end, BoundedSample.outage) 5))))) <= 3.
Proof.
  apply (recovery_attempts_bounded BoundedSample.digest 3 None (1 # 100)%Q 100%Q default_bounds
    (repeat (sample_end, BoundedSample.outage) 5)); [reflexivity|].
  by repeat constructor.
Defined.

Lemma switch_is_equivalent_witness :
  exists d, BoundedSample.decided BoundedSample.outage = Some d /\
  rd_route_after d ∈ rq_equivalent_routes BoundedSample.outage.
Proof.
  eexists. split; [vm_compute; reflexivity|].
  eapply (switch_is_equivalent BoundedSample.digest BoundedSample.controller sample_end
    BoundedSample.outage); [vm_compute; reflexivity|reflexivity|reflexivity].
Defined.

Lemma escalation_is_least_witness :
  exists d, BoundedSample.decided BoundedSample.deficit = Some d /\
  rt_model_id (rd_route_after d) = "medium" /\
  rd_route_after d ∈ rq_stronger_routes BoundedSample.deficit.
Proof.
  eexists. split; [vm_compute; reflexivity|]. split; [reflexivity|].
  eapply (escalation_is_least BoundedSample.digest BoundedSample.controller sample_end
    BoundedSample.deficit); [vm_compute; reflexivity|reflexivity|reflexivity].
Defined.

Lemma digest_identifies_evidence_witness :
  BoundedSample.evidence "a" = BoundedSample.evidence "a" \/
  exists a b : string, a <> b /\ BoundedSample.digest a = BoundedSample.digest b.
Proof. apply (digest_identifies_evidence BoundedSample.digest). reflexivity. Defined.

(** * What the model shows *)

(** After a context overflow the payload may go to the same model again, behind another
    gateway. *)
Theorem overflow_keeps_model :
  exists d, BoundedSample.decided (BoundedSample.request "context_overflow" BoundedSample.cheap
    [BoundedSample.route "small" "p" (Some "gateway-b") 0 false] []) = Some d /\
  rd_outcome d = CONTINUE /\ rt_model_id (rd_route_after d) = rt_model_id (rd_route_before d).
Proof. eexists. split; [vm_compute; reflexivity|]. by split. Qed.

(** A context overflow may be answered by a frontier model, and the decision says
    neither that it escalates nor that it is a frontier call. *)
Theorem overflow_hides_frontier_call :
  exists d, BoundedSample.decided (BoundedSample.request "context_overflow" BoundedSample.cheap []
    [BoundedSample.route "huge" "q" None 3 true]) = Some d /\
  rd_outcome d = CONTINUE /\ rt_is_frontier (rd_route_after d) = true /\
  rd_frontier_call d = false /\ rd_escalated d = false.
Proof. eexists. split; [vm_compute; reflexivity|]. by split_and!. Qed.

(** A capability deficit may be answered by another model of the same tier, although a
    stronger one is offered. *)
Theorem escalation_stays_in_tier :
  exists d, BoundedSample.decided (BoundedSample.request "model_too_weak" BoundedSample.cheap []
    [BoundedSample.route "large" "q" None 1 false; BoundedSample.route "tiny" "q" None 0 false])
    = Some d /\
  rd_escalated d = true /\ rt_capability_tier (rd_route_after d) = 0.
Proof. eexists. split; [vm_compute; reflexivity|]. by split. Qed.

(** A frontier route with stale context is retried on the same model, recorded as no
    frontier call. *)
Theorem rehydrate_relabels_frontier :
  exists d, BoundedSample.decided (BoundedSample.request "stale_context"
    (BoundedSample.route "huge" "q" None 3 true) [] []) = Some d /\
  rt_model_id (rd_route_after d) = "huge" /\ rt_is_frontier (rd_route_before d) = true /\
  rt_is_frontier (rd_route_after d) = false /\ rd_frontier_call d = false.
Proof. eexists. split; [vm_compute; reflexivity|]. by split_and!. Qed.
