(* ===== verification/Concurrency.v ===== *)
(** Concurrency of stories: [verdict/orchestration/concurrency_governor.py] (admission
    under global caps), [ready_gate.py] (readiness from dependency evidence) and
    [story_footprint.py] (whether two stories may write concurrently).

    Pressures and the caps they scale are rationals; [None] is a NaN pressure. Sets of
    paths are lists in any order. *)
From Stdlib Require Import Ascii Lqa Qround.
From S2P Require Import Prelude PyStr PyNum.

(** * The governor *)

Module Decision.
Inductive t := ADMIT | DEFER | SERIALIZE.
End Decision.
#[global] Instance decision_eq_dec : EqDecision Decision.t.
Proof. solve_decision. Defined.

Record AdmitRequest := {
  rq_story_id : string;
  rq_needs_coding_worker : bool;
  rq_needs_integration_slot : bool;
  rq_provider_pool : string
}.

Record ResourcePressure := { rp_cpu : option Q; rp_ram : option Q; rp_disk : option Q }.

Record RunState := {
  rs_running_stories : Z;
  rs_running_coding_workers : Z;
  rs_running_integration_slots : Z;
  rs_story_is_already_running : bool;
  rs_pool_healthy_capacity : list (string * Z)
}.

Record GovernorCaps := {
  gv_max_stories : Z;
  gv_max_coding_workers : Z;
  gv_max_integration_slots : Z
}.

(** [GovernorCaps.__post_init__] *)
Definition governor_caps (stories coding integration : Z) : GovernorCaps :=
  {| gv_max_stories := Z.max 1 stories; gv_max_coding_workers := Z.max 1 coding;
     gv_max_integration_slots := Z.max 1 integration |}.

(** [_clamp] *)
Definition clamp (v : option Q) : Q :=
  match v with
  | None => 1%Q
  | Some v => Qmaxb 0 (Qminb 1 v)
  end.

(** [max_pressure] *)
Definition max_pressure (p : ResourcePressure) : Q :=
  Qmaxb (Qmaxb (clamp (rp_cpu p)) (clamp (rp_ram p))) (clamp (rp_disk p)).

(** [_effective_cap] *)
Definition effective_cap (base : Z) (pressure : Q) : Z :=
  Z.max 1 (Z.min base (Qfloor (inject_Z base * (1 - pressure)))).

Definition no_pressure : ResourcePressure :=
  {| rp_cpu := Some 0%Q; rp_ram := Some 0%Q; rp_disk := Some 0%Q |}.

Section governor.
(** How a pressure is printed, [f"{p:.2f}"]. *)
Context (fmt2 : Q -> string).

Definition cap_reason (what verb : string) (running cap : Z) (p : Q) : string :=
  what +:+ " cap reached (" +:+ str_of_Z running +:+ "/" +:+ str_of_Z cap
  +:+ (if Qeq_bool p 0 then "" else ", pressure=" +:+ fmt2 p) +:+ "); " +:+ verb.

(** [GlobalConcurrencyGovernor.admit] *)
Definition governor_admit (caps : GovernorCaps) (rq : AdmitRequest) (st : RunState)
    (pressure : option ResourcePressure) : Decision.t * string :=
  let p := max_pressure (default no_pressure pressure) in
  let pool := rq_provider_pool rq in
  let healthy := dict_get pool (rs_pool_healthy_capacity st) in
  let eff_stories := effective_cap (gv_max_stories caps) p in
  let eff_coding := effective_cap (gv_max_coding_workers caps) p in
  let eff_integration := effective_cap (gv_max_integration_slots caps) p in
  let blocked :=
    if String.eqb pool "" then None
    else match healthy with
         | None => Some ("provider pool " +:+ repr pool +:+ " health unknown; failing closed")
         | Some n => if n <=? 0
                     then Some ("provider pool " +:+ repr pool +:+ " has 0 healthy candidates")
                     else None
         end in
  match blocked with
  | Some reason => (Decision.DEFER, reason)
  | None =>
      if rs_story_is_already_running st
      then (Decision.ADMIT, "story " +:+ repr (rq_story_id rq)
                            +:+ " already running; admitted to prevent starvation")
      else if eff_stories <=? rs_running_stories st
      then (Decision.SERIALIZE, cap_reason "story" "serialize" (rs_running_stories st) eff_stories p)
      else if rq_needs_coding_worker rq && (eff_coding <=? rs_running_coding_workers st)
      then (Decision.DEFER, cap_reason "coding-worker" "deferring" (rs_running_coding_workers st)
                              eff_coding p)
      else if rq_needs_integration_slot rq && (eff_integration <=? rs_running_integration_slots st)
      then (Decision.DEFER, cap_reason "integration-slot" "deferring"
                              (rs_running_integration_slots st) eff_integration p)
      else (Decision.ADMIT, "within all caps; admitted")
  end.
End governor.

(** * The ready gate *)

Module ReadyVerdict.
Inductive t := READY | EXCLUDED | WAIT.
End ReadyVerdict.

Record DepEvidence := {
  de_identifier : string;
  de_linear_done : option bool;
  de_merge_commit_on_main : option bool;
  de_verification_record_present : option bool
}.

Definition main_verified (d : DepEvidence) : bool :=
  bool_decide (de_merge_commit_on_main d = Some true)
  && bool_decide (de_verification_record_present d = Some true).

Definition waiting_reason (d : DepEvidence) : string :=
  "dep '" +:+ de_identifier d +:+
  (if bool_decide (de_linear_done d = Some true)
   then "' is Done in Linear but not MAIN_VERIFIED"
   else if bool_decide (de_merge_commit_on_main d = None)
           || bool_decide (de_verification_record_present d = None)
   then "' has unknown/missing evidence; fail-closed to WAIT"
   else "' is not MAIN_VERIFIED").

(** [ready_decision] *)
Definition ready_decision (labels : list string) (deps : list DepEvidence) : ReadyVerdict.t * string :=
  if mem "automation:manual" labels
  then (ReadyVerdict.EXCLUDED,
        "label 'automation:manual' present; story excluded from auto-dispatch")
  else match deps with
       | [] => (ReadyVerdict.READY, "no dependencies; story is ready")
       | _ =>
           match map waiting_reason (List.filter (fun d => negb (main_verified d)) deps) with
           | [] => (ReadyVerdict.READY, "all dependencies are MAIN_VERIFIED; story is ready")
           | waiting => (ReadyVerdict.WAIT, join "; " waiting)
           end
       end.

(** * Glob patterns: [fnmatch.fnmatch] on POSIX *)

Inductive gtoken :=
| GStar
| GAny
| GLit (c : ascii)
| GSet (neg : bool) (ranges : list (ascii * ascii)).

(** The ranges of a bracket expression; [lo-hi] with [lo > hi] matches nothing. *)
Fixpoint set_ranges (s : string) : list (ascii * ascii) :=
  match s with
  | EmptyString => []
  | String lo s' =>
      match s' with
      | String "-" s2 =>
          match s2 with
          | String hi s3 => (lo, hi) :: set_ranges s3
          | EmptyString => [(lo, lo); ("-"%char, "-"%char)]
          end
      | _ => (lo, lo) :: set_ranges s'
      end
  end.

(** The body of a bracket expression, and what follows its closing bracket: a [!] and a
    first [\]] belong to the body. *)
Definition bracket (s : string) : option (bool * string * string) :=
  let '(neg, s1) := match s with String "!" s' => (true, s') | _ => (false, s) end in
  let '(first, s2) := match s1 with String "]" s' => ("]", s') | _ => ("", s1) end in
  match partition1 "]" s2 with
  | (body, Some rest) => Some (neg, first +:+ body, rest)
  | (_, None) => None
  end.

(** [fnmatch.translate]; every token consumes at least one character of the pattern, so
    its length is enough fuel. *)
Fixpoint glob_tokens (fuel : nat) (s : string) : list gtoken :=
  match fuel with
  | O => []
  | S fuel =>
      match s with
      | EmptyString => []
      | String "*" s' => GStar :: glob_tokens fuel s'
      | String "?" s' => GAny :: glob_tokens fuel s'
      | String "[" s' =>
          match bracket s' with
          | Some (neg, body, rest) => GSet neg (set_ranges body) :: glob_tokens fuel rest
          | None => GLit "[" :: glob_tokens fuel s'
          end
      | String c s' => GLit c :: glob_tokens fuel s'
      end
  end.

Definition in_set (neg : bool) (ranges : list (ascii * ascii)) (c : ascii) : bool :=
  xorb neg (existsb (fun '(lo, hi) => (N_of_ascii lo <=? N_of_ascii c)%N
                                      && (N_of_ascii c <=? N_of_ascii hi)%N) ranges).

Fixpoint glob_match (ts : list gtoken) : string -> bool :=
  match ts with
  | [] => fun s => String.eqb s ""
  | GStar :: ts =>
      fix star (s : string) : bool :=
        glob_match ts s || match s with EmptyString => false | String _ s' => star s' end
  | GAny :: ts => fun s => match s with String _ s' => glob_match ts s' | EmptyString => false end
  | GLit c :: ts => fun s => match s with
                             | String d s' => Ascii.eqb c d && glob_match ts s'
                             | EmptyString => false
                             end
  | GSet neg ranges :: ts => fun s => match s with
                             | String d s' => in_set neg ranges d && glob_match ts s'
                             | EmptyString => false
                             end
  end.

(** [fnmatch.fnmatch(name, pattern)] *)
Definition fnmatch (name pattern : string) : bool :=
  glob_match (glob_tokens (String.length pattern) pattern) name.

(** * Story footprints *)

Module CollisionReason.
Inductive t :=
| DISJOINT | SAME_FILE | GLOB_OVERLAP | SAME_AUTHORITY | UNKNOWN_FOOTPRINT | INVALID_PATH
| DIRECTORY_OVERLAP.
End CollisionReason.

(** The verdict of [collide]: [true] is PARALLEL. *)
Module CollisionVerdict.
Inductive t := PARALLEL | SERIALIZE.
End CollisionVerdict.

(** One component of [posixpath.normpath] onto the reversed components so far. *)
Definition norm_step (absolute : bool) (acc : list string) (comp : string) : list string :=
  if String.eqb comp "" || String.eqb comp "." then acc
  else if negb (String.eqb comp "..") then comp :: acc
  else match acc with
       | [] => if absolute then [] else [".."]
       | top :: rest => if String.eqb top ".." then ".." :: acc else rest
       end.

(** [posixpath.normpath] *)
Definition normpath (path : string) : string :=
  if String.eqb path "" then "."
  else
    let absolute := startswith path "/" in
    let slashes := if negb absolute then ""
                   else if startswith path "//" && negb (startswith path "///") then "//" else "/" in
    let body := slashes +:+ join "/" (rev (foldl (norm_step absolute) [] (split "/" path))) in
    if String.eqb body "" then "." else body.

Definition slashed (raw : string) : string := replace_char "\" "/" raw.

(** [_normalize_path] *)
Definition normalize_path (raw : string) : string :=
  let p := normpath (slashed raw) in if String.eqb p "." then "" else p.

(** [_is_invalid] *)
Definition is_invalid (normalized : string) : bool :=
  String.eqb normalized "" || startswith normalized "/" || String.eqb normalized ".."
  || startswith normalized "../".

(** [_is_glob] *)
Definition is_glob (pattern : string) : bool :=
  contains pattern "*" || contains pattern "?" || contains pattern "[".

Fixpoint rstrip_char (c : ascii) (s : string) : string :=
  match s with
  | EmptyString => EmptyString
  | String d s' => match rstrip_char c s' with
                   | EmptyString => if Ascii.eqb d c then EmptyString else String d EmptyString
                   | t => String d t
                   end
  end.

(** [_is_directory_entry] *)
Definition is_directory_entry (raw : string) : bool :=
  endswith (rstrip_char " " (slashed raw)) "/".

Record StoryFootprint := {
  fp_story_id : string;
  fp_write_paths : list string;
  fp_authorities : list string
}.

Definition is_known (f : StoryFootprint) : bool := negb (bool_decide (fp_write_paths f = [])).

(** [_prepare_paths]: the paths and the directory entries in lower case, and whether a
    path is invalid. When one is, the paths are not used. *)
Definition prepare_paths (raw : list string) : list string * list string * bool :=
  (map (fun p => lower (normalize_path p)) raw,
   map (fun p => lower (normalize_path p)) (List.filter is_directory_entry raw),
   existsb (fun p => is_invalid (normalize_path p)) raw).

Definition intersects (xs ys : list string) : bool := existsb (fun x => mem x ys) xs.

(** A path of [paths] at or below a directory of [dirs]. *)
Definition below (dirs paths : list string) : bool :=
  existsb (fun d => existsb (fun p => startswith p (d +:+ "/") || String.eqb p d) paths) dirs.

Definition globs_overlap (pa pb : string) : bool :=
  (is_glob pa && fnmatch pb pa) || (is_glob pb && fnmatch pa pb)
  || (is_glob pa && is_glob pb && (fnmatch pa pb || fnmatch pb pa)).

(** [_paths_overlap] *)
Definition paths_overlap (paths_a paths_b dirs_a dirs_b : list string) : option CollisionReason.t :=
  if intersects paths_a paths_b then Some CollisionReason.SAME_FILE
  else if below dirs_a paths_b then Some CollisionReason.DIRECTORY_OVERLAP
  else if below dirs_b paths_a then Some CollisionReason.DIRECTORY_OVERLAP
  else if existsb (fun pa => existsb (globs_overlap pa) paths_b) paths_a
  then Some CollisionReason.GLOB_OVERLAP
  else None.

(** [collide] *)
Definition collide (a b : StoryFootprint) : CollisionVerdict.t * CollisionReason.t :=
  if negb (is_known a) || negb (is_known b)
  then (CollisionVerdict.SERIALIZE, CollisionReason.UNKNOWN_FOOTPRINT)
  else
    let '(paths_a, dirs_a, invalid_a) := prepare_paths (fp_write_paths a) in
    let '(paths_b, dirs_b, invalid_b) := prepare_paths (fp_write_paths b) in
    if invalid_a || invalid_b then (CollisionVerdict.SERIALIZE, CollisionReason.INVALID_PATH)
    else if intersects (fp_authorities a) (fp_authorities b)
    then (CollisionVerdict.SERIALIZE, CollisionReason.SAME_AUTHORITY)
    else match paths_overlap paths_a paths_b dirs_a dirs_b with
         | Some reason => (CollisionVerdict.SERIALIZE, reason)
         | None => (CollisionVerdict.PARALLEL, CollisionReason.DISJOINT)
         end.

(** * Lemmas *)

Lemma clamp_bounds v : (0 <= clamp v <= 1)%Q.
Proof.
  destruct v as [v|]; cbn; [|lra].
  pose proof (Qminb_spec 1 v) as [[? ?] _]. pose proof (Qmaxb_spec 0 (Qminb 1 v)) as [[? ?] [E|E]]; lra.
Qed.

Lemma max_pressure_bounds p : (0 <= max_pressure p <= 1)%Q.
Proof.
  unfold max_pressure.
  pose proof (clamp_bounds (rp_cpu p)). pose proof (clamp_bounds (rp_ram p)).
  pose proof (clamp_bounds (rp_disk p)).
  pose proof (Qmaxb_spec (clamp (rp_cpu p)) (clamp (rp_ram p))) as [[? ?] [E1|E1]];
  pose proof (Qmaxb_spec (Qmaxb (clamp (rp_cpu p)) (clamp (rp_ram p))) (clamp (rp_disk p)))
    as [[? ?] [E2|E2]]; lra.
Qed.

Lemma effective_cap_bounds base p : 1 <= base -> 1 <= effective_cap base p <= base.
Proof. intros H. unfold effective_cap. lia. Qed.

Lemma effective_cap_antitone base p q :
  1 <= base -> (p <= q)%Q -> effective_cap base q <= effective_cap base p.
Proof.
  intros Hb Hpq. unfold effective_cap.
  assert (Hf : Qfloor (inject_Z base * (1 - q)) <= Qfloor (inject_Z base * (1 - p))).
  { apply Qfloor_resp_le. apply Qmult_le_l; [|lra].
    change 0%Q with (inject_Z 0). rewrite <- Zlt_Qlt. lia. }
  lia.
Qed.

(** What an admission says; [p] is the pressure that counted. *)
Record governor_ok (caps : GovernorCaps) (rq : AdmitRequest) (st : RunState) (p : Q) : Prop := {
  go_pool : rq_provider_pool rq <> "" ->
    exists n, dict_get (rq_provider_pool rq) (rs_pool_healthy_capacity st) = Some n /\ 0 < n;
  go_caps : rs_story_is_already_running st = false ->
    rs_running_stories st < effective_cap (gv_max_stories caps) p /\
    (rq_needs_coding_worker rq = true ->
       rs_running_coding_workers st < effective_cap (gv_max_coding_workers caps) p) /\
    (rq_needs_integration_slot rq = true ->
       rs_running_integration_slots st < effective_cap (gv_max_integration_slots caps) p)
}.

Lemma governor_admit_iff fmt2 caps rq st pressure :
  fst (governor_admit fmt2 caps rq st pressure) = Decision.ADMIT <->
  governor_ok caps rq st (max_pressure (default no_pressure pressure)).
Proof.
  unfold governor_admit. set (p := max_pressure _).
  set (blocked := if String.eqb (rq_provider_pool rq) "" then None else _).
  assert (Hb : blocked = None <-> (rq_provider_pool rq <> "" -> exists n,
    dict_get (rq_provider_pool rq) (rs_pool_healthy_capacity st) = Some n /\ 0 < n)).
  { subst blocked. destruct (String.eqb_spec (rq_provider_pool rq) ""); [naive_solver|].
    destruct (dict_get _ _) as [n0|]; [|naive_solver].
    destruct (Z.leb_spec n0 0); [|naive_solver lia].
    split; [done|]. intros Hn. destruct Hn as (m & E & Hm); [done|]. injection E. lia. }
  clearbody blocked. destruct blocked as [reason|]; cbn [fst].
  { split; [done|]. intros [Hp _]. by apply Hb in Hp. }
  destruct (rs_story_is_already_running st) eqn:Er; cbn [fst].
  { split; [|done]. intros _. constructor; [by apply Hb|congruence]. }
  destruct (Z.leb_spec (effective_cap (gv_max_stories caps) p) (rs_running_stories st)); cbn [fst].
  { split; [done|]. intros [_ Hc]. destruct (Hc Er) as [? _]. lia. }
  destruct (rq_needs_coding_worker rq && _) eqn:Ec; cbn [fst].
  { split; [done|]. intros [_ Hc]. apply andb_true_iff in Ec as [Ec Hl%Z.leb_le].
    destruct (Hc Er) as (_ & Hc' & _). specialize (Hc' Ec). lia. }
  destruct (rq_needs_integration_slot rq && _) eqn:Ei; cbn [fst].
  { split; [done|]. intros [_ Hc]. apply andb_true_iff in Ei as [Ei Hl%Z.leb_le].
    destruct (Hc Er) as (_ & _ & Hc'). specialize (Hc' Ei). lia. }
  split; [|done]. intros _. constructor; [by apply Hb|]. intros _. split_and!; [done| |].
  - intros E. rewrite E in Ec. cbn in Ec. by apply Z.leb_gt.
  - intros E. rewrite E in Ei. cbn in Ei. by apply Z.leb_gt.
Qed.

(** * Runs of the governor *)

(** A new story asks to start, under some pressure and pool health; or a running story
    that held [coding] workers and [integration] slots ends. *)
Inductive gov_event :=
| Start (rq : AdmitRequest) (pressure : option ResourcePressure) (pools : list (string * Z))
| Finish (coding integration : Z).

Definition gov_counts : Type := Z * Z * Z.

(** The counters after an event: an admitted story takes the slots it asked for. *)
Definition gov_step (fmt2 : Q -> string) (caps : GovernorCaps) (c : gov_counts) (e : gov_event)
    : gov_counts :=
  let '(stories, coding, integration) := c in
  match e with
  | Start rq pressure pools =>
      let st := {| rs_running_stories := stories; rs_running_coding_workers := coding;
                   rs_running_integration_slots := integration;
                   rs_story_is_already_running := false; rs_pool_healthy_capacity := pools |} in
      match fst (governor_admit fmt2 caps rq st pressure) with
      | Decision.ADMIT => (stories + 1, coding + Z.b2z (rq_needs_coding_worker rq),
                           integration + Z.b2z (rq_needs_integration_slot rq))
      | _ => c
      end
  | Finish c i => (stories - 1, coding - Z.max 0 c, integration - Z.max 0 i)
  end.

(** However stories ask, whatever pressure and pool health they report, the governor
    never starts a story above the story cap, nor with a coding worker or integration slot
    above its cap: the counters of every run of starts and finishes stay within the
    configured caps. *)
Theorem governor_caps_hold fmt2 s c i events :
  let caps := governor_caps s c i in
  let '(stories, coding, integration) := foldl (gov_step fmt2 caps) (0, 0, 0) events in
  stories <= gv_max_stories caps /\ coding <= gv_max_coding_workers caps /\
  integration <= gv_max_integration_slots caps.
Proof.
  cbv zeta. set (caps := governor_caps s c i).
  assert (Hcaps : 1 <= gv_max_stories caps /\ 1 <= gv_max_coding_workers caps /\
    1 <= gv_max_integration_slots caps) by (cbn; lia).
  clearbody caps. induction events as [|e events IH] using rev_ind; [cbn; lia|].
  rewrite foldl_app. cbn [foldl]. destruct (foldl _ _ events) as [[st cd] ig].
  destruct e as [rq pressure pools|c' i']; cbn [gov_step]; [|lia].
  set (rs := {| rs_running_stories := st |}).
  pose proof (governor_admit_iff fmt2 caps rq rs pressure) as [Hok _].
  destruct (fst (governor_admit _ _ _ _ _)); [|done|done].
  destruct (go_caps _ _ _ _ (Hok eq_refl) eq_refl) as (H1 & H2 & H3). cbn in H1, H2, H3.
  set (p := max_pressure _) in *.
  destruct Hcaps as (B1 & B2 & B3). pose proof (effective_cap_bounds _ p B1).
  pose proof (effective_cap_bounds _ p B2). pose proof (effective_cap_bounds _ p B3).
  destruct (rq_needs_coding_worker rq), (rq_needs_integration_slot rq); cbn [Z.b2z];
    try specialize (H2 eq_refl); try specialize (H3 eq_refl); lia.
Qed.

(** Pressure only tightens: a request admitted under some pressure is admitted under
    every lower one, and no pressure (missing measurements count as full pressure) closes
    an idle governor: with nothing running and a healthy pool a request is always admitted. *)
Theorem governor_pressure_tightens fmt2 s c i rq st p q :
  let caps := governor_caps s c i in
  (max_pressure p <= max_pressure q)%Q ->
  (fst (governor_admit fmt2 caps rq st (Some q)) = Decision.ADMIT ->
   fst (governor_admit fmt2 caps rq st (Some p)) = Decision.ADMIT) /\
  (rs_running_stories st = 0 -> rs_running_coding_workers st = 0 ->
   rs_running_integration_slots st = 0 ->
   (rq_provider_pool rq <> "" ->
      exists n, dict_get (rq_provider_pool rq) (rs_pool_healthy_capacity st) = Some n /\ 0 < n) ->
   fst (governor_admit fmt2 caps rq st (Some q)) = Decision.ADMIT).
Proof.
  cbv zeta. intros Hpq. set (caps := governor_caps s c i).
  assert (Hcaps : 1 <= gv_max_stories caps /\ 1 <= gv_max_coding_workers caps /\
    1 <= gv_max_integration_slots caps) by (cbn; lia).
  destruct Hcaps as (B1 & B2 & B3). rewrite !governor_admit_iff.
  change (default no_pressure (Some p)) with p. change (default no_pressure (Some q)) with q.
  clearbody caps. split.
  - intros [Hpool Hc]. constructor; [done|]. intros Hr. destruct (Hc Hr) as (H1 & H2 & H3).
    pose proof (effective_cap_antitone _ _ _ B1 Hpq). pose proof (effective_cap_antitone _ _ _ B2 Hpq).
    pose proof (effective_cap_antitone _ _ _ B3 Hpq).
    split_and!; [lia|intros E; specialize (H2 E); lia|intros E; specialize (H3 E); lia].
  - intros E1 E2 E3 Hpool. constructor; [done|]. intros _. rewrite E1, E2, E3.
    pose proof (effective_cap_bounds _ (max_pressure q) B1).
    pose proof (effective_cap_bounds _ (max_pressure q) B2).
    pose proof (effective_cap_bounds _ (max_pressure q) B3). split_and!; intros; lia.
Qed.

(** The ready gate: a story is READY exactly when it is not labelled manual and every
    dependency is merged on main with a verification record; EXCLUDED exactly when it is
    labelled manual; unknown evidence of any dependency means WAIT. *)
Theorem ready_decision_iff labels deps :
  (fst (ready_decision labels deps) = ReadyVerdict.READY <->
   ("automation:manual" ∉ labels) /\ forall d, d ∈ deps ->
     de_merge_commit_on_main d = Some true /\ de_verification_record_present d = Some true) /\
  (fst (ready_decision labels deps) = ReadyVerdict.EXCLUDED <-> "automation:manual" ∈ labels).
Proof.
  unfold ready_decision. destruct (mem "automation:manual" labels) eqn:Em.
  { apply mem_spec in Em. split; [|done]. split; [done|naive_solver]. }
  apply mem_false in Em.
  assert (Hv : forall d, main_verified d = true <-> de_merge_commit_on_main d = Some true /\
    de_verification_record_present d = Some true).
  { intros d. unfold main_verified. by rewrite andb_true_iff, !bool_decide_eq_true. }
  destruct deps as [|d0 deps].
  { cbn [fst]. split; [|done]. split; [|done]. split; [done|by intros ? []%not_elem_of_nil]. }
  set (all := d0 :: deps). destruct (map waiting_reason _) as [|w ws] eqn:Ew; cbn [fst].
  - split; [|done]. split; [|done]. intros _. split; [done|]. intros d Hd. apply Hv.
    destruct (main_verified d) eqn:E; [done|]. apply map_eq_nil in Ew.
    assert (Hin : d ∈ List.filter (fun d => negb (main_verified d)) all).
    { apply elem_of_lfilter. by rewrite E. }
    rewrite Ew in Hin. by apply not_elem_of_nil in Hin.
  - split; [|done]. split; [done|]. intros [_ Hall]. exfalso.
    assert (Hin : w ∈ map waiting_reason (List.filter (fun d => negb (main_verified d)) all)).
    { rewrite Ew. left. }
    apply list_elem_of_fmap in Hin as (d & _ & [Hd Hn]%elem_of_lfilter).
    by rewrite (proj2 (Hv d) (Hall d Hd)) in Hn.
Qed.

(** * Collisions *)

Lemma intersects_spec xs ys : intersects xs ys = true <-> exists x, x ∈ xs /\ x ∈ ys.
Proof.
  unfold intersects. rewrite existsb_exists. setoid_rewrite list_elem_of_In.
  split; intros (x & H1 & H2); exists x; (split; [done|]).
  - by apply list_elem_of_In, mem_spec.
  - by apply mem_spec, list_elem_of_In.
Qed.

Lemma intersects_comm xs ys : intersects xs ys = intersects ys xs.
Proof. apply eq_bool_prop_intro. rewrite !Is_true_true, !intersects_spec. naive_solver. Qed.

Lemma globs_overlap_comm pa pb : globs_overlap pa pb = globs_overlap pb pa.
Proof.
  unfold globs_overlap. destruct (is_glob pa), (is_glob pb), (fnmatch pa pb), (fnmatch pb pa); done.
Qed.

Lemma existsb_swap {A} (f : A -> A -> bool) xs ys :
  (forall x y, f x y = f y x) ->
  existsb (fun x => existsb (f x) ys) xs = existsb (fun y => existsb (f y) xs) ys.
Proof.
  intros Hf. apply eq_bool_prop_intro. rewrite !Is_true_true, !existsb_exists.
  setoid_rewrite existsb_exists. split; intros (x & Hx & y & Hy & E); exists y; (split; [done|]);
    exists x; by rewrite Hf.
Qed.

Lemma paths_overlap_comm pa pb da db : paths_overlap pa pb da db = paths_overlap pb pa db da.
Proof.
  unfold paths_overlap. rewrite intersects_comm. destruct (intersects pb pa); [done|].
  destruct (below da pb), (below db pa); try done.
  by rewrite (existsb_swap globs_overlap) by apply globs_overlap_comm.
Qed.

(** The verdict of two stories, reason included, does not depend on their order. *)
Theorem collide_symmetric a b : collide a b = collide b a.
Proof.
  unfold collide. rewrite orb_comm. case_match; [done|]. cbn [prepare_paths].
  rewrite orb_comm. case_match; [done|]. rewrite intersects_comm. case_match; [done|].
  by rewrite paths_overlap_comm.
Qed.

Lemma below_false dirs paths d p :
  below dirs paths = false -> d ∈ dirs -> p ∈ paths ->
  startswith p (d +:+ "/") = false /\ p <> d.
Proof.
  intros H Hd Hp. destruct (startswith p (d +:+ "/") || String.eqb p d) eqn:E.
  - exfalso. apply not_true_iff_false in H. apply H. unfold below.
    apply existsb_exists. exists d. rewrite <- list_elem_of_In. split; [done|].
    apply existsb_exists. exists p. by rewrite <- list_elem_of_In.
  - apply orb_false_iff in E as [-> E%String.eqb_neq]. done.
Qed.

(** Two stories run in parallel only on evidence: both declare write paths, all of
    them valid, they share no authority, and for any two of their paths, compared in
    normal form and without case: the paths differ, neither lies below the other when that
    one is written as a directory (with a trailing slash), and neither matches the other
    as a glob pattern. *)
Theorem collide_parallel a b r pa pb :
  collide a b = (CollisionVerdict.PARALLEL, r) ->
  pa ∈ fp_write_paths a -> pb ∈ fp_write_paths b ->
  let na := lower (normalize_path pa) in let nb := lower (normalize_path pb) in
  is_invalid (normalize_path pa) = false /\ is_invalid (normalize_path pb) = false /\
  (forall x, x ∈ fp_authorities a -> x ∉ fp_authorities b) /\
  na <> nb /\
  (is_directory_entry pa = true -> startswith nb (na +:+ "/") = false) /\
  (is_directory_entry pb = true -> startswith na (nb +:+ "/") = false) /\
  (is_glob na = true -> fnmatch nb na = false) /\ (is_glob nb = true -> fnmatch na nb = false).
Proof.
  intros H Ha Hb na nb. unfold collide in H. case_match; [done|]. cbn [prepare_paths] in H.
  destruct (_ || _) eqn:Einv in H; [done|]. destruct (intersects (fp_authorities a) _) eqn:Eauth; [done|].
  unfold paths_overlap in H. destruct (intersects (map _ _) _) eqn:Esame; [done|].
  destruct (below _ _) eqn:E1 in H; [done|]. destruct (below _ _) eqn:E2 in H; [done|].
  destruct (existsb _ _) eqn:Eg in H; [done|].
  apply orb_false_iff in Einv as [Ia Ib].
  assert (Hna : na ∈ map (fun p => lower (normalize_path p)) (fp_write_paths a)).
  { apply list_elem_of_fmap. eauto. }
  assert (Hnb : nb ∈ map (fun p => lower (normalize_path p)) (fp_write_paths b)).
  { apply list_elem_of_fmap. eauto. }
  split_and!.
  - by apply (existsb_false (fun p => is_invalid (normalize_path p)) _ pa Ia).
  - by apply (existsb_false (fun p => is_invalid (normalize_path p)) _ pb Ib).
  - intros x H1 H2. apply not_true_iff_false in Eauth. apply Eauth, intersects_spec. eauto.
  - intros E. apply not_true_iff_false in Esame. apply Esame, intersects_spec. exists na.
    split; [done|]. by rewrite E.
  - intros Hd. eapply below_false; [exact E1| |done]. apply list_elem_of_fmap. exists pa.
    split; [done|]. by apply elem_of_lfilter.
  - intros Hd. eapply below_false; [exact E2| |done]. apply list_elem_of_fmap. exists pb.
    split; [done|]. by apply elem_of_lfilter.
  - intros Hg. eapply existsb_false in Eg; [|exact Hna]. eapply existsb_false in Eg; [|exact Hnb].
    unfold globs_overlap in Eg. rewrite Hg in Eg. by destruct (fnmatch nb na).
  - intros Hg. eapply existsb_false in Eg; [|exact Hna]. eapply existsb_false in Eg; [|exact Hnb].
    unfold globs_overlap in Eg. rewrite Hg in Eg. destruct (fnmatch na nb); [|done].
    by rewrite orb_true_r in Eg.
Qed.

(** * Normal paths *)

(** The components of a normal relative path, last first: proper names above the [..]s
    that lead out of the root. *)
Definition proper (comp : string) : Prop :=
  comp <> "" /\ comp <> "." /\ comp <> ".." /\ free_of "/" comp = true.

Definition normal_stack (acc : list string) : Prop :=
  exists names n, acc = names ++ repeat ".." n /\ Forall proper names.

Lemma norm_step_normal acc comp :
  normal_stack acc -> free_of "/" comp = true -> normal_stack (norm_step false acc comp).
Proof.
  intros (names & n & -> & Hn) Hf. unfold norm_step.
  destruct (String.eqb_spec comp ""), (String.eqb_spec comp "."); cbn [orb]; try (by exists names, n).
  destruct (String.eqb_spec comp "..") as [->|]; cbn [negb].
  - destruct names as [|top names]; cbn [app].
    + destruct n as [|n]; cbn; [by exists [], 1%nat|]. by exists [], (S (S n)).
    + apply Forall_cons in Hn as [(_ & _ & Ht & _) Hn]. apply String.eqb_neq in Ht. rewrite Ht.
      by exists names, n.
  - exists (comp :: names), n. split; [done|]. constructor; [done|done].
Qed.

Lemma norm_fold_normal comps : forall acc,
  (forall c, c ∈ comps -> free_of "/" c = true) -> normal_stack acc ->
  normal_stack (foldl (norm_step false) acc comps).
Proof.
  induction comps as [|c comps IH]; intros acc Hf Hacc; [done|]. cbn [foldl].
  apply IH; [intros; apply Hf; by right|]. apply norm_step_normal; [done|]. apply Hf. by left.
Qed.

Lemma join_dotdot ws : is_invalid (join "/" (".." :: ws)) = true.
Proof.
  destruct ws as [|w ws]; [done|].
  change (join "/" (".." :: w :: ws)) with (String "." (String "." (String "/" (join "/" (w :: ws))))).
  by destruct (join "/" (w :: ws)).
Qed.

Lemma rev_repeat {A} (x : A) n : rev (repeat x n) = repeat x n.
Proof.
  induction n as [|n IH]; cbn; [done|]. rewrite IH. clear IH.
  induction n as [|n IH]; cbn; [done|]. by rewrite IH.
Qed.

Lemma is_invalid_abs t : is_invalid (String "/" t) = true.
Proof. by destruct t. Qed.

(** A valid normal form is relative: the joined components of a normal stack. *)
Lemma normalize_path_form raw :
  is_invalid (normalize_path raw) = false ->
  exists acc, normal_stack acc /\ normalize_path raw = join "/" (rev acc).
Proof.
  unfold normalize_path, normpath. cbv zeta. set (path := slashed raw). clearbody path.
  destruct (String.eqb path "") eqn:Ep; [done|].
  destruct (startswith path "/") eqn:Es; cbn [negb].
  { set (b := join _ _). intros H. exfalso. revert H.
    destruct (_ && _);
      [change ("//" +:+ b) with (String "/" ("/" +:+ b))|change ("/" +:+ b) with (String "/" b)];
      cbn [String.eqb Ascii.eqb Bool.eqb]; by rewrite is_invalid_abs. }
  set (acc := foldl (norm_step false) [] (split "/" path)).
  assert (Hacc : normal_stack acc).
  { apply norm_fold_normal; [intros c; apply split_free|]. by exists [], 0%nat. }
  change ("" +:+ join "/" (rev acc)) with (join "/" (rev acc)).
  destruct (String.eqb (join "/" (rev acc)) ""); [done|].
  destruct (String.eqb (join "/" (rev acc)) "."); [done|]. eauto.
Qed.

(** A path accepted by the footprint check lies inside the repository: its normal form
    is relative, and none of its components is empty, [.] or [..]. *)
Theorem normalize_path_inside raw :
  is_invalid (normalize_path raw) = false ->
  Forall proper (split "/" (normalize_path raw)).
Proof.
  intros Hv. destruct (normalize_path_form raw Hv) as (acc & Hacc & E). rewrite E in *. clear E.
  destruct Hacc as (names & n & -> & Hn). rewrite rev_app_distr, rev_repeat in *.
  destruct n as [|n].
  - cbn [repeat app] in *. rewrite split_join.
    + by rewrite Forall_forall in Hn |- *; intros c Hc; apply Hn; rewrite <- elem_of_rev.
    + intros E. by rewrite E in Hv.
    + intros c Hc. rewrite elem_of_rev in Hc. rewrite Forall_forall in Hn. by apply Hn.
  - exfalso. cbn [repeat app] in Hv. by rewrite join_dotdot in Hv.
Qed.

(** * Concrete stories *)

Definition story (paths : list string) : StoryFootprint :=
  {| fp_story_id := "s"; fp_write_paths := paths; fp_authorities := [] |}.

Lemma collide_parallel_witness :
  collide (story ["docs/"; "src/*.py"]) (story [".\Verdict\API.py"])
    = (CollisionVerdict.PARALLEL, CollisionReason.DISJOINT) /\
  fnmatch "verdict/api.py" "src/*.py" = false.
Proof.
  split; [vm_compute; reflexivity|].
  refine (proj1 (proj2 (proj2 (proj2 (proj2 (proj2 (proj2
    (collide_parallel (story ["docs/"; "src/*.py"]) (story [".\Verdict\API.py"])
       CollisionReason.DISJOINT "src/*.py" ".\Verdict\API.py" _ _ _))))))) _).
  - vm_compute. reflexivity.
  - right. left.
  - left.
  - vm_compute. reflexivity.
Defined.

Lemma normalize_path_inside_witness :
  normalize_path "./src//a/../b.py" = "src/b.py" /\
  Forall proper (split "/" (normalize_path "./src//a/../b.py")).
Proof.
  split; [vm_compute; reflexivity|].
  apply (normalize_path_inside "./src//a/../b.py"). vm_compute. reflexivity.
Defined.

Lemma governor_pressure_tightens_witness :
  fst (governor_admit (fun _ => "") (governor_caps 3 6 2)
    {| rq_story_id := "s"; rq_needs_coding_worker := true; rq_needs_integration_slot := false;
       rq_provider_pool := "" |}
    {| rs_running_stories := 0; rs_running_coding_workers := 0; rs_running_integration_slots := 0;
       rs_story_is_already_running := false; rs_pool_healthy_capacity := [] |}
    (Some {| rp_cpu := None; rp_ram := Some 2%Q; rp_disk := Some 0%Q |})) = Decision.ADMIT.
Proof.
  apply (governor_pressure_tightens (fun _ => "") 3 6 2
    {| rq_story_id := "s"; rq_needs_coding_worker := true; rq_needs_integration_slot := false;
       rq_provider_pool := "" |}
    {| rs_running_stories := 0; rs_running_coding_workers := 0; rs_running_integration_slots := 0;
       rs_story_is_already_running := false; rs_pool_healthy_capacity := [] |}
    no_pressure {| rp_cpu := None; rp_ram := Some 2%Q; rp_disk := Some 0%Q |}).
  - vm_compute. discriminate.
  - reflexivity.
  - reflexivity.
  - reflexivity.
  - intros H. by destruct H.
Defined.

(** Two overlaps the footprint check misses. A directory written without a trailing
    slash does not collide with a file below it; and two patterns that both match a file
    are let run in parallel when neither matches the other's text. *)
Theorem collide_misses_overlap :
  collide (story ["verdict"]) (story ["verdict/api.py"])
    = (CollisionVerdict.PARALLEL, CollisionReason.DISJOINT) /\
  collide (story ["src/a*.py"]) (story ["src/*b.py"])
    = (CollisionVerdict.PARALLEL, CollisionReason.DISJOINT) /\
  fnmatch "src/ab.py" "src/a*.py" = true /\ fnmatch "src/ab.py" "src/*b.py" = true.
Proof. split_and!; vm_compute; reflexivity. Qed.
