(* ===== verification/Async.v ===== *)
(** Coroutines: an [async def] of the sources is a tree of operations. The code between two
    suspension points is atomic, so a task is a program over a set of operations [op], each
    with the type of its [reply]; exceptions are leaves. The tree is inductive: a task makes
    finitely many operations whatever the replies are.

    [along] and [returns] follow all replies of a task at once. *)
From S2P Require Import Prelude.

Section task.
Context {exn op : Type} {reply : op -> Type}.

Inductive task (A : Type) : Type :=
| Ret (a : A)
| Raise (e : exn)
| Do (o : op) (k : reply o -> task A).

#[global] Arguments Ret {A} a.
#[global] Arguments Raise {A} e.
#[global] Arguments Do {A} o k.

Fixpoint task_bind {A B} (f : A -> task B) (t : task A) : task B :=
  match t with
  | Ret a => f a
  | Raise e => Raise e
  | Do o k => Do o (fun r => task_bind f (k r))
  end.

(** One operation *)
Definition perform (o : op) : task (reply o) := Do o Ret.

(** [try: t except ...: h e]; [h e] is [None] for an exception the clauses do not name. *)
Fixpoint try_except {A} (t : task A) (h : exn -> option (task A)) : task A :=
  match t with
  | Ret a => Ret a
  | Raise e => default (Raise e) (h e)
  | Do o k => Do o (fun r => try_except (k r) h)
  end.

(** [try: t finally: f]; an exception of [f] replaces the one of [t]. *)
Fixpoint try_finally {A} (t : task A) (f : task unit) : task A :=
  match t with
  | Ret a => task_bind (fun _ => Ret a) f
  | Raise e => task_bind (fun _ => Raise e) f
  | Do o k => Do o (fun r => try_finally (k r) f)
  end.

(** A task that has returned or raised *)
Definition finished {A} (t : task A) : bool :=
  match t with Do _ _ => false | _ => true end.

(** * Properties of all the operations of a task

    [along P t]: every operation [t] may make, whatever the replies, satisfies [P]. *)
Fixpoint along {A} (P : op -> Prop) (t : task A) : Prop :=
  match t with
  | Do o k => P o /\ forall r, along P (k r)
  | _ => True
  end.

(** [returns R t]: whatever the replies, a value that [t] returns satisfies [R]. *)
Fixpoint returns {A} (R : A -> Prop) (t : task A) : Prop :=
  match t with
  | Ret a => R a
  | Raise _ => True
  | Do _ k => forall r, returns R (k r)
  end.

End task.

Arguments task exn op reply A : clear implicits.

#[export] Instance task_mret exn op reply : MRet (task exn op reply) := fun A a => Ret a.
#[export] Instance task_mbind exn op reply : MBind (task exn op reply) :=
  fun A B f t => task_bind f t.

(** [for x in xs: f x] *)
Fixpoint for_each {exn op reply A} (f : A -> task exn op reply unit) (xs : list A) :
    task exn op reply unit :=
  match xs with
  | [] => Ret tt
  | x :: xs => f x ;; for_each f xs
  end.
