(* ===== verification/Runtime.v ===== *)
(** [verdict/orchestration/runtime.py], the [DagRuntime]: drivers that take a node from
    PLANNED to VALIDATED or BLOCKED, the operator's controls, the scheduling loop and the
    conclusion of a run; with [controls.py] requests and the gateway check of
    [contracts.py].

    An [async def] is a [task] (see [Async]) over the operations [op]. A driver reads and
    writes one [Cell]: the [NodeRun] of its node and the entries of [inflight] and
    [_capacity] under its id. What the runtime receives as constructor arguments (selector,
    executor, classifier, runner, prompt callback, reviewer, clock) and the file system are
    queries: [Call] is a plain call, [Await] suspends the task, and both may raise. Events
    keep the fields a reader of the log decides on; excerpts, counters and timings of the
    payloads are left out. *)
From Stdlib Require Import Ascii.
From S2P Require Import Prelude PyStr Time PyNum Contracts Providers Recovery Ladder Async.

(** * Policy and per-node state *)

Record RuntimePolicy := {
  rp_max_parallel : Z;
  rp_max_attempts : Z;  (* max_attempts_per_node *)
  attempt_timeout_seconds : Q;
  verify_timeout_seconds : Q;
  run_deadline_seconds : Q;
  require_review : bool;
  max_cooldown_wait_seconds : Q;
  context_budget_bytes : Z;
  min_context_budget_bytes : Z;
  run_repo_gates : bool;
  require_dispatch_permit : bool
}.

(** The fields of an [AdmissionProof] and of a [DispatchPermit] that the runtime reads; a
    [DispatchScope] is its canonical text. *)
Record AdmissionProof := {
  ap_route_id : string;
  ap_qualified_at : Z;
  ap_expires_at : Z;
  ap_authorization_digest : string;
  ap_epoch : Z;
  ap_scope : string
}.

Record DispatchPermit := {
  dp_permit_id : string;
  dp_route_id : string;
  dp_scope : string;
  dp_epoch : Z
}.

(** An entry of [NodeRun.history]. *)
Record HistoryEntry := {
  h_attempt : Z;
  h_route_id : string;
  h_outcome : string;
  h_commit : string;
  h_evidence : string
}.

Record NodeRun := {
  nr_node : WorkNode;
  nr_state : NodeState.t;
  nr_attempt : Z;
  nr_route_id : string;
  nr_history : list HistoryEntry;
  nr_failures : list FailureClassification;
  nr_excluded_routes : list string;
  nr_commit : string;
  nr_reason : string;
  nr_context_budget : Z;
  nr_repacked_routes : list string;
  nr_failure_feedback : string;
  nr_rehydrated_routes : list string;
  nr_excluded_pools : list string;
  nr_selected_context_window : option Z;
  nr_dispatch_proof : option AdmissionProof;
  nr_permit : option DispatchPermit
}.

(** [NodeRun(node)] *)
Definition node_run (n : WorkNode) : NodeRun :=
  {| nr_node := n; nr_state := NodeState.PLANNED; nr_attempt := 0; nr_route_id := "";
     nr_history := []; nr_failures := []; nr_excluded_routes := []; nr_commit := "";
     nr_reason := ""; nr_context_budget := 0; nr_repacked_routes := [];
     nr_failure_feedback := ""; nr_rehydrated_routes := []; nr_excluded_pools := [];
     nr_selected_context_window := None; nr_dispatch_proof := None; nr_permit := None |}.

(** Assignments to the fields of a [NodeRun] *)
Definition with_state (x : NodeState.t) (r : NodeRun) : NodeRun :=
  {| nr_node := nr_node r; nr_state := x; nr_attempt := nr_attempt r; nr_route_id :=
     nr_route_id r; nr_history := nr_history r; nr_failures := nr_failures r;
     nr_excluded_routes := nr_excluded_routes r; nr_commit := nr_commit r; nr_reason :=
     nr_reason r; nr_context_budget := nr_context_budget r; nr_repacked_routes :=
     nr_repacked_routes r; nr_failure_feedback := nr_failure_feedback r;
     nr_rehydrated_routes := nr_rehydrated_routes r; nr_excluded_pools := nr_excluded_pools
     r; nr_selected_context_window := nr_selected_context_window r; nr_dispatch_proof :=
     nr_dispatch_proof r; nr_permit := nr_permit r |}.
Definition with_attempt (x : Z) (r : NodeRun) : NodeRun :=
  {| nr_node := nr_node r; nr_state := nr_state r; nr_attempt := x; nr_route_id :=
     nr_route_id r; nr_history := nr_history r; nr_failures := nr_failures r;
     nr_excluded_routes := nr_excluded_routes r; nr_commit := nr_commit r; nr_reason :=
     nr_reason r; nr_context_budget := nr_context_budget r; nr_repacked_routes :=
     nr_repacked_routes r; nr_failure_feedback := nr_failure_feedback r;
     nr_rehydrated_routes := nr_rehydrated_routes r; nr_excluded_pools := nr_excluded_pools
     r; nr_selected_context_window := nr_selected_context_window r; nr_dispatch_proof :=
     nr_dispatch_proof r; nr_permit := nr_permit r |}.
Definition with_route_id (x : string) (r : NodeRun) : NodeRun :=
  {| nr_node := nr_node r; nr_state := nr_state r; nr_attempt := nr_attempt r; nr_route_id
     := x; nr_history := nr_history r; nr_failures := nr_failures r; nr_excluded_routes :=
     nr_excluded_routes r; nr_commit := nr_commit r; nr_reason := nr_reason r;
     nr_context_budget := nr_context_budget r; nr_repacked_routes := nr_repacked_routes r;
     nr_failure_feedback := nr_failure_feedback r; nr_rehydrated_routes :=
     nr_rehydrated_routes r; nr_excluded_pools := nr_excluded_pools r;
     nr_selected_context_window := nr_selected_context_window r; nr_dispatch_proof :=
     nr_dispatch_proof r; nr_permit := nr_permit r |}.
Definition with_history (x : list HistoryEntry) (r : NodeRun) : NodeRun :=
  {| nr_node := nr_node r; nr_state := nr_state r; nr_attempt := nr_attempt r; nr_route_id
     := nr_route_id r; nr_history := x; nr_failures := nr_failures r; nr_excluded_routes :=
     nr_excluded_routes r; nr_commit := nr_commit r; nr_reason := nr_reason r;
     nr_context_budget := nr_context_budget r; nr_repacked_routes := nr_repacked_routes r;
     nr_failure_feedback := nr_failure_feedback r; nr_rehydrated_routes :=
     nr_rehydrated_routes r; nr_excluded_pools := nr_excluded_pools r;
     nr_selected_context_window := nr_selected_context_window r; nr_dispatch_proof :=
     nr_dispatch_proof r; nr_permit := nr_permit r |}.
Definition with_failures (x : list FailureClassification) (r : NodeRun) : NodeRun :=
  {| nr_node := nr_node r; nr_state := nr_state r; nr_attempt := nr_attempt r; nr_route_id
     := nr_route_id r; nr_history := nr_history r; nr_failures := x; nr_excluded_routes :=
     nr_excluded_routes r; nr_commit := nr_commit r; nr_reason := nr_reason r;
     nr_context_budget := nr_context_budget r; nr_repacked_routes := nr_repacked_routes r;
     nr_failure_feedback := nr_failure_feedback r; nr_rehydrated_routes :=
     nr_rehydrated_routes r; nr_excluded_pools := nr_excluded_pools r;
     nr_selected_context_window := nr_selected_context_window r; nr_dispatch_proof :=
     nr_dispatch_proof r; nr_permit := nr_permit r |}.
Definition with_excluded_routes (x : list string) (r : NodeRun) : NodeRun :=
  {| nr_node := nr_node r; nr_state := nr_state r; nr_attempt := nr_attempt r; nr_route_id
     := nr_route_id r; nr_history := nr_history r; nr_failures := nr_failures r;
     nr_excluded_routes := x; nr_commit := nr_commit r; nr_reason := nr_reason r;
     nr_context_budget := nr_context_budget r; nr_repacked_routes := nr_repacked_routes r;
     nr_failure_feedback := nr_failure_feedback r; nr_rehydrated_routes :=
     nr_rehydrated_routes r; nr_excluded_pools := nr_excluded_pools r;
     nr_selected_context_window := nr_selected_context_window r; nr_dispatch_proof :=
     nr_dispatch_proof r; nr_permit := nr_permit r |}.
Definition with_commit (x : string) (r : NodeRun) : NodeRun :=
  {| nr_node := nr_node r; nr_state := nr_state r; nr_attempt := nr_attempt r; nr_route_id
     := nr_route_id r; nr_history := nr_history r; nr_failures := nr_failures r;
     nr_excluded_routes := nr_excluded_routes r; nr_commit := x; nr_reason := nr_reason r;
     nr_context_budget := nr_context_budget r; nr_repacked_routes := nr_repacked_routes r;
     nr_failure_feedback := nr_failure_feedback r; nr_rehydrated_routes :=
     nr_rehydrated_routes r; nr_excluded_pools := nr_excluded_pools r;
     nr_selected_context_window := nr_selected_context_window r; nr_dispatch_proof :=
     nr_dispatch_proof r; nr_permit := nr_permit r |}.
Definition with_reason (x : string) (r : NodeRun) : NodeRun :=
  {| nr_node := nr_node r; nr_state := nr_state r; nr_attempt := nr_attempt r; nr_route_id
     := nr_route_id r; nr_history := nr_history r; nr_failures := nr_failures r;
     nr_excluded_routes := nr_excluded_routes r; nr_commit := nr_commit r; nr_reason := x;
     nr_context_budget := nr_context_budget r; nr_repacked_routes := nr_repacked_routes r;
     nr_failure_feedback := nr_failure_feedback r; nr_rehydrated_routes :=
     nr_rehydrated_routes r; nr_excluded_pools := nr_excluded_pools r;
     nr_selected_context_window := nr_selected_context_window r; nr_dispatch_proof :=
     nr_dispatch_proof r; nr_permit := nr_permit r |}.
Definition with_context_budget (x : Z) (r : NodeRun) : NodeRun :=
  {| nr_node := nr_node r; nr_state := nr_state r; nr_attempt := nr_attempt r; nr_route_id
     := nr_route_id r; nr_history := nr_history r; nr_failures := nr_failures r;
     nr_excluded_routes := nr_excluded_routes r; nr_commit := nr_commit r; nr_reason :=
     nr_reason r; nr_context_budget := x; nr_repacked_routes := nr_repacked_routes r;
     nr_failure_feedback := nr_failure_feedback r; nr_rehydrated_routes :=
     nr_rehydrated_routes r; nr_excluded_pools := nr_excluded_pools r;
     nr_selected_context_window := nr_selected_context_window r; nr_dispatch_proof :=
     nr_dispatch_proof r; nr_permit := nr_permit r |}.
Definition with_repacked_routes (x : list string) (r : NodeRun) : NodeRun :=
  {| nr_node := nr_node r; nr_state := nr_state r; nr_attempt := nr_attempt r; nr_route_id
     := nr_route_id r; nr_history := nr_history r; nr_failures := nr_failures r;
     nr_excluded_routes := nr_excluded_routes r; nr_commit := nr_commit r; nr_reason :=
     nr_reason r; nr_context_budget := nr_context_budget r; nr_repacked_routes := x;
     nr_failure_feedback := nr_failure_feedback r; nr_rehydrated_routes :=
     nr_rehydrated_routes r; nr_excluded_pools := nr_excluded_pools r;
     nr_selected_context_window := nr_selected_context_window r; nr_dispatch_proof :=
     nr_dispatch_proof r; nr_permit := nr_permit r |}.
Definition with_failure_feedback (x : string) (r : NodeRun) : NodeRun :=
  {| nr_node := nr_node r; nr_state := nr_state r; nr_attempt := nr_attempt r; nr_route_id
     := nr_route_id r; nr_history := nr_history r; nr_failures := nr_failures r;
     nr_excluded_routes := nr_excluded_routes r; nr_commit := nr_commit r; nr_reason :=
     nr_reason r; nr_context_budget := nr_context_budget r; nr_repacked_routes :=
     nr_repacked_routes r; nr_failure_feedback := x; nr_rehydrated_routes :=
     nr_rehydrated_routes r; nr_excluded_pools := nr_excluded_pools r;
     nr_selected_context_window := nr_selected_context_window r; nr_dispatch_proof :=
     nr_dispatch_proof r; nr_permit := nr_permit r |}.
Definition with_rehydrated_routes (x : list string) (r : NodeRun) : NodeRun :=
  {| nr_node := nr_node r; nr_state := nr_state r; nr_attempt := nr_attempt r; nr_route_id
     := nr_route_id r; nr_history := nr_history r; nr_failures := nr_failures r;
     nr_excluded_routes := nr_excluded_routes r; nr_commit := nr_commit r; nr_reason :=
     nr_reason r; nr_context_budget := nr_context_budget r; nr_repacked_routes :=
     nr_repacked_routes r; nr_failure_feedback := nr_failure_feedback r;
     nr_rehydrated_routes := x; nr_excluded_pools := nr_excluded_pools r;
     nr_selected_context_window := nr_selected_context_window r; nr_dispatch_proof :=
     nr_dispatch_proof r; nr_permit := nr_permit r |}.
Definition with_excluded_pools (x : list string) (r : NodeRun) : NodeRun :=
  {| nr_node := nr_node r; nr_state := nr_state r; nr_attempt := nr_attempt r; nr_route_id
     := nr_route_id r; nr_history := nr_history r; nr_failures := nr_failures r;
     nr_excluded_routes := nr_excluded_routes r; nr_commit := nr_commit r; nr_reason :=
     nr_reason r; nr_context_budget := nr_context_budget r; nr_repacked_routes :=
     nr_repacked_routes r; nr_failure_feedback := nr_failure_feedback r;
     nr_rehydrated_routes := nr_rehydrated_routes r; nr_excluded_pools := x;
     nr_selected_context_window := nr_selected_context_window r; nr_dispatch_proof :=
     nr_dispatch_proof r; nr_permit := nr_permit r |}.
Definition with_selected_context_window (x : option Z) (r : NodeRun) : NodeRun :=
  {| nr_node := nr_node r; nr_state := nr_state r; nr_attempt := nr_attempt r; nr_route_id
     := nr_route_id r; nr_history := nr_history r; nr_failures := nr_failures r;
     nr_excluded_routes := nr_excluded_routes r; nr_commit := nr_commit r; nr_reason :=
     nr_reason r; nr_context_budget := nr_context_budget r; nr_repacked_routes :=
     nr_repacked_routes r; nr_failure_feedback := nr_failure_feedback r;
     nr_rehydrated_routes := nr_rehydrated_routes r; nr_excluded_pools := nr_excluded_pools
     r; nr_selected_context_window := x; nr_dispatch_proof := nr_dispatch_proof r; nr_permit
     := nr_permit r |}.
Definition with_dispatch_proof (x : option AdmissionProof) (r : NodeRun) : NodeRun :=
  {| nr_node := nr_node r; nr_state := nr_state r; nr_attempt := nr_attempt r; nr_route_id
     := nr_route_id r; nr_history := nr_history r; nr_failures := nr_failures r;
     nr_excluded_routes := nr_excluded_routes r; nr_commit := nr_commit r; nr_reason :=
     nr_reason r; nr_context_budget := nr_context_budget r; nr_repacked_routes :=
     nr_repacked_routes r; nr_failure_feedback := nr_failure_feedback r;
     nr_rehydrated_routes := nr_rehydrated_routes r; nr_excluded_pools := nr_excluded_pools
     r; nr_selected_context_window := nr_selected_context_window r; nr_dispatch_proof := x;
     nr_permit := nr_permit r |}.
Definition with_permit (x : option DispatchPermit) (r : NodeRun) : NodeRun :=
  {| nr_node := nr_node r; nr_state := nr_state r; nr_attempt := nr_attempt r; nr_route_id
     := nr_route_id r; nr_history := nr_history r; nr_failures := nr_failures r;
     nr_excluded_routes := nr_excluded_routes r; nr_commit := nr_commit r; nr_reason :=
     nr_reason r; nr_context_budget := nr_context_budget r; nr_repacked_routes :=
     nr_repacked_routes r; nr_failure_feedback := nr_failure_feedback r;
     nr_rehydrated_routes := nr_rehydrated_routes r; nr_excluded_pools := nr_excluded_pools
     r; nr_selected_context_window := nr_selected_context_window r; nr_dispatch_proof :=
     nr_dispatch_proof r; nr_permit := x |}.

(** [s.add(x)] on a set of strings, kept in insertion order *)
Definition set_add (x : string) (s : list string) : list string :=
  if mem x s then s else s ++ [x].

(** * The environment *)

(** What the collaborators and the file system may raise. *)
Inductive env_exn :=
| EValue (msg : string)          (* ValueError *)
| ENotFound (msg : string)       (* FileNotFoundError *)
| EOwnership (msg : string)      (* OwnershipError *)
| EOther (name msg : string).    (* any other Exception *)

(** An exception in a driver: [task.cancel()] was delivered, the environment raised, or the
    runtime itself did: an [OrchestrationError] or a [KeyError], [xs[-1]] of an empty list,
    [ContextPlan] refusing its fields, or a naive datetime subtracted from an aware one. *)
Inductive exn :=
| CancelledError
| Env (e : env_exn)
| Orch (x : orch_exn)
| IndexError
| ContextContractError
| TypeError.

Record ContextPlan := {
  cp_plan_id : string;
  cp_candidate_id : string;
  cp_token_budget : Z;
  cp_output_token_reserve : Z;
  cp_tool_token_reserve : Z;
  cp_candidate_context_window : option Z
}.

Record RepoGate := { rg_name : string; rg_argv : list string; rg_source : string }.

Inductive query :=
(* plain calls *)
| QNow
| QLaunchable (route : string)
| QBlocker (route : string) (now : Z)
| QExists (path : string)
| QRmtree (path : string)
| QEnsureExcludes (cwd : string)
| QIsSymlink (path : string)
| QRestore (salvage_dir worktree : string) (owned : list string)
| QSalvage (worktree : string) (owned : list string) (salvage_dir : string) (changed : list string)
| QPrompt (node : WorkNode) (worktree : string) (budget : Z) (plan : ContextPlan) (suffix : string)
| QOrigin (node route cwd : string)
| QReleasePin (node route cwd : string)
| QClassify (t : WorkerTerminal) (now : Z)
| QSessionFailure (route : string) (f : FailureClassification) (t : WorkerTerminal) (now : Z)
    (provenance : string)
| QRecordFailure (route : string) (f : FailureClassification) (now : Z)
| QRecordSuccess (route : string) (now : Z)
| QSaveAttempt (node : string) (attempt : Z) (route : string) (t : WorkerTerminal)
| QDiscoverGates (worktree : string)
| QResolveGate (argv : list string) (worktree : string)
| QResolveVerify (argv : list string)
| QFormatTarget (worktree path : string)
| QTokenHex
(* suspensions *)
| QSelect (requirements : TaskRequirements) (now : Z)
| QBind (node : WorkNode) (route : string)
| QRun (argv : list string) (cwd : string) (timeout : Q)
| QExecute (prompt route cwd : string) (timeout : Q) (attempt_id : string)
| QSleep (seconds : Q)
| QCommitPermit (p : AdmissionProof) (attempt_id : string) (deadline : Z)
| QEpoch (scope : string)
| QRevoke (p : DispatchPermit) (event_id : string) (observed_at : Z)
| QReview (level base_ref head_ref : string) (exclude_routes exclude_families : list string).

(** The type of the answer to a query *)
Definition answer (q : query) : Type :=
  match q with
  | QNow => Z
  | QBlocker _ _ => option string
  | QExists _ | QIsSymlink _ | QFormatTarget _ _ => bool
  | QRestore _ _ _ => list string * list string * string
  | QSalvage _ _ _ _ => list string * list string * string
  | QPrompt _ _ _ _ _ => string
  | QOrigin _ _ _ => option string
  | QClassify _ _ => FailureClassification
  | QDiscoverGates _ => list RepoGate
  | QResolveGate _ _ => list string
  | QResolveVerify _ => list string
  | QTokenHex => string
  | QSelect _ _ => option RouteVerdict * list RouteVerdict
  | QBind _ _ => option AdmissionProof
  | QRun _ _ _ => Z * string
  | QExecute _ _ _ _ _ => WorkerTerminal
  | QCommitPermit _ _ _ => option DispatchPermit
  | QEpoch _ => Z
  | QReview _ _ _ _ _ => ReviewResult
  | _ => unit
  end.

Inductive value := VStr (s : string) | VInt (z : Z) | VBool (b : bool) | VList (l : list string).

(** [events.emit(type, node_id, **data)] *)
Record event := { ev_type : string; ev_node : string; ev_data : list (string * value) }.

(** [asyncio.Semaphore] of the worker slots and [asyncio.Lock] of the worktrees *)
Inductive resource := Slots | WorktreeLock.

#[global] Instance resource_eq_dec : EqDecision resource.
Proof. solve_decision. Defined.

Inductive op :=
| Get
| Put (r : NodeRun)
| SetInflight (route : option string)
| SetCapacity (c : string)
| DepCommits
| Emit (e : event)
| Call (q : query)
| Await (q : query)
| Acquire (r : resource)
| Release (r : resource).

(** A suspension ends with an answer, an exception of the environment, or the delivery of
    [task.cancel()]. *)
Inductive wakeup (A : Type) := Answered (a : A) | Failed (e : env_exn) | Cancelled.
Arguments Answered {A} a.
Arguments Failed {A} e.
Arguments Cancelled {A}.

Definition reply (o : op) : Type :=
  match o with
  | Get => NodeRun
  | DepCommits => list string
  | Call q => env_exn + answer q
  | Await q => wakeup (answer q)
  | Acquire _ => wakeup unit
  | _ => unit
  end.

Abbreviation prog := (task exn op reply).

Definition get_run : prog NodeRun := perform Get.
Definition put_run (r : NodeRun) : prog unit := perform (Put r).
Definition modify (f : NodeRun -> NodeRun) : prog unit := r ← get_run; put_run (f r).
Definition dep_commits : prog (list string) := perform DepCommits.

Definition emit (type node : string) (data : list (string * value)) : prog unit :=
  perform (Emit {| ev_type := type; ev_node := node; ev_data := data |}).

Definition call (q : query) : prog (answer q) :=
  r ← (perform (Call q) : prog (env_exn + answer q));
  match r with inl e => Raise (Env e) | inr a => Ret a end.

Definition woken {A} (w : wakeup A) : prog A :=
  match w with Answered a => Ret a | Failed e => Raise (Env e) | Cancelled => Raise CancelledError end.

Definition await (q : query) : prog (answer q) :=
  r ← (perform (Await q) : prog (wakeup (answer q))); woken r.

(** [async with r: body] *)
Definition async_with {A} (r : resource) (body : prog A) : prog A :=
  w ← (perform (Acquire r) : prog (wakeup unit));
  woken w ;; try_finally body (perform (Release r)).

Definition lift {A} (m : result orch_exn A) : prog A :=
  match m with Ok a => Ret a | Err x => Raise (Orch x) end.

Definition run_orch_error (msg : string) : exn := Orch (OrchestrationError msg).

(** * Text helpers *)

(** [min(a, b)] *)
Definition qmin (a b : Q) : Q := if Qle_bool b a && negb (Qle_bool a b) then b else a.

Definition nl : string := String "010" "".

(** [s[-n:]] for [n > 0] *)
Definition last_chars (n : nat) (s : string) : string := drop_str (String.length s - n) s.

Definition is_line_break (c : ascii) : bool :=
  let n := N_of_ascii c in ((10 <=? n) && (n <=? 13) || (28 <=? n) && (n <=? 30))%N.

Fixpoint map_chars (f : ascii -> ascii) (s : string) : string :=
  match s with EmptyString => EmptyString | String c s => String (f c) (map_chars f s) end.

(** [[line for line in s.splitlines() if line.strip()]]: the empty line between the
    characters of a CRLF is dropped with the blank ones. *)
Definition nonblank_lines (s : string) : list string :=
  List.filter (fun l => negb (String.eqb (strip l) ""))
    (split "010" (map_chars (fun c => if is_line_break c then "010"%char else c) s)).

(** [_blocked_report]; the prefix test on [line.upper()] is the one on the lower-case text. *)
Definition blocked_report (output : string) : string :=
  let lines := map strip (nonblank_lines (strip output)) in
  let ends := match lines with [] => [] | l :: _ => [l; List.last lines l] end in
  default "" (List.find (fun line => startswith (lower line) "result: blocked") ends).

(** * Gateway origins ([contracts.py])

    [urlsplit(url)] as far as [normalize_gateway_origin] reads it: the scheme, the host and
    the port, or [None] where it or a property raises [ValueError]. *)
Definition is_scheme_char (c : ascii) : bool :=
  is_word c && negb (Ascii.eqb c "_") || Ascii.eqb c "+" || Ascii.eqb c "-" || Ascii.eqb c ".".

Fixpoint all_chars (p : ascii -> bool) (s : string) : bool :=
  match s with EmptyString => true | String c s => p c && all_chars p s end.

Fixpoint take_until (p : ascii -> bool) (s : string) : string :=
  match s with
  | EmptyString => EmptyString
  | String c s => if p c then EmptyString else String c (take_until p s)
  end.

Definition url_scheme (url : string) : string * string :=
  match partition1 ":" url with
  | (String c s as head, Some rest) =>
      if is_word c && negb (is_digit c) && negb (Ascii.eqb c "_") && all_chars is_scheme_char s
      then (lower head, rest) else ("", url)
  | _ => ("", url)
  end.

Definition url_port (text : option string) : option (option Z) :=
  match text with
  | None | Some "" => Some None
  | Some digits =>
      if all_chars is_digit digits then
        let port := foldl (fun n c => 10 * n + default 0 (digit_value c)) 0
                      (String.list_ascii_of_string digits) in
        if port <=? 65535 then Some (Some port) else None
      else None
  end.

Definition has_char (c : ascii) (s : string) : bool := negb (all_chars (fun d => negb (Ascii.eqb c d)) s).

Fixpoint filter_chars (p : ascii -> bool) (s : string) : string :=
  match s with
  | EmptyString => EmptyString
  | String c s => if p c then String c (filter_chars p s) else filter_chars p s
  end.

(** (scheme, hostname, port) *)
Definition urlsplit (url : string) : option (string * string * option Z) :=
  let url := filter_chars (fun c => negb (mem (String c "") ["009"; "010"; "013"]))
               (lstrip_by (fun c => N_of_ascii c <=? 32)%N url) in
  let '(scheme, rest) := url_scheme url in
  let netloc := if startswith rest "//"
                then take_until (fun c => Ascii.eqb c "/" || Ascii.eqb c "?" || Ascii.eqb c "#") (drop_str 2 rest)
                else "" in
  if xorb (has_char "[" netloc) (has_char "]" netloc) then None
  else
    let hostinfo := split_last "@" netloc in
    let '(host, port) :=
      match partition1 "[" hostinfo with
      | (_, Some bracketed) =>
          let '(host, after) := partition1 "]" bracketed in
          (host, snd (partition1 ":" (default "" after)))
      | _ => partition1 ":" hostinfo
      end in
    port ← url_port port;
    Some (scheme, lower host, port).

Definition LOCAL_EXECUTOR_ORIGIN : string := "local:".

Definition normalize_gateway_origin (url : string) : option string :=
  '(scheme, host, explicit_port) ← urlsplit (strip url);
  let port := match explicit_port with
              | Some p => Some p
              | None => if String.eqb scheme "http" then Some 80
                        else if String.eqb scheme "https" then Some 443 else None
              end in
  if String.eqb scheme "" || String.eqb host "" then None
  else
    p ← port;
    let host := if has_char ":" host then "[" +:+ host +:+ "]" else host in
    Some (scheme +:+ "://" +:+ host +:+ ":" +:+ str_of_Z p).

Definition gateway_origin_matches (reported bound : string) : bool :=
  if String.eqb reported LOCAL_EXECUTOR_ORIGIN then true
  else match normalize_gateway_origin reported with
       | Some origin => bool_decide (Some origin = normalize_gateway_origin bound)
       | None => false
       end.

(** * Context budget *)

Definition estimate_tokens (text : string) : Z := Z.max 1 ((Z.of_nat (String.length text) + 3) / 4).

Definition WORKER_OUTPUT_RESERVE : Z := 1024.
Definition WORKER_SAFETY_RESERVE : Z := 512.

Definition input_token_budget (p : ContextPlan) : Z :=
  cp_token_budget p - cp_output_token_reserve p - cp_tool_token_reserve p.

(** [ContextPlan.__post_init__] accepts the plan. *)
Definition plan_valid (p : ContextPlan) : bool :=
  negb (String.eqb (strip (cp_plan_id p)) "") && negb (String.eqb (strip (cp_candidate_id p)) "")
  && (0 <=? cp_token_budget p) && (0 <=? cp_output_token_reserve p) && (0 <=? cp_tool_token_reserve p)
  && match cp_candidate_context_window p with Some w => 1 <=? w | None => true end
  && (1 <=? cp_token_budget p) && (1 <=? input_token_budget p).

Definition context_plan (run : NodeRun) (budget : Z) : ContextPlan :=
  let output := WORKER_OUTPUT_RESERVE in
  let safety := WORKER_SAFETY_RESERVE in
  let window := match nr_selected_context_window run with
                | Some w => if w <? 1 then None else Some w
                | None => None
                end in
  let total := Z.min (default 8192 window) (Z.max 0 (budget / 4) + output + safety) in
  {| cp_plan_id := "worker:" +:+ node_id (nr_node run) +:+ ":a" +:+ str_of_Z (nr_attempt run);
     cp_candidate_id := nr_route_id run;
     cp_token_budget := Z.max 1 total;
     cp_output_token_reserve := Z.min output (Z.max 0 (total - 1));
     cp_tool_token_reserve := Z.min safety (Z.max 0 (total - output - 1));
     cp_candidate_context_window := window |}.

(** [input_limit] of [_attempt] *)
Definition input_limit (plan : ContextPlan) : Z :=
  match cp_candidate_context_window plan with
  | Some w => Z.max 0 (Z.min (input_token_budget plan)
                          (w - WORKER_OUTPUT_RESERVE - WORKER_SAFETY_RESERVE))
  | None => input_token_budget plan
  end.

(** [fits] of [_attempt] *)
Definition prompt_fits (plan : ContextPlan) (budget : Z) (prompt : string) : bool :=
  (estimate_tokens prompt <=? input_limit plan) && (Z.of_nat (String.length prompt) <=? budget).

(** [_explain_exhaustion] *)
Definition stage_order (s : EligibilityStage.t) : nat :=
  match s with
  | EligibilityStage.AVAILABLE => 0 | EligibilityStage.HEALTHY => 1
  | EligibilityStage.TASK_ELIGIBLE => 2 | EligibilityStage.SELECTED => 3
  | EligibilityStage.ENTITLED => 4 | EligibilityStage.DISCOVERED => 5
  end%nat.

Definition verdict_leb (a b : RouteVerdict) : bool :=
  let key v := match v_failed v with Some s => stage_order s | None => 9%nat end in
  (key a <? key b)%nat || (key a =? key b)%nat && str_leb (v_route a) (v_route b).

Definition explain_exhaustion (verdicts : list RouteVerdict) : string :=
  let ranked := sort_by verdict_leb (List.filter (fun v => bool_decide (is_Some (v_failed v))) verdicts) in
  let stage v := match v_failed v with Some s => EligibilityStage.value s | None => "" end in
  let part v := v_route v +:+ ":" +:+ stage v +:+ ":" +:+ v_reason v
                +:+ match v_cooldown_until v with
                    | Some u => if String.eqb u "" then "" else " until " +:+ u
                    | None => ""
                    end in
  let count s := length (List.filter (fun v => String.eqb (stage v) s) ranked) in
  let summary := join ", " (map (fun s => str_of_Z (Z.of_nat (count s)) +:+ " failed " +:+ s)
                              (sort_str (dedupe (map stage ranked)))) in
  "[" +:+ summary +:+ "] " +:+ join "; " (map part (firstn 8 ranked)).

(** Exception classes *)
Definition exn_text (e : exn) : string * string :=
  match e with
  | CancelledError => ("CancelledError", "")
  | Env (EValue m) => ("ValueError", m)
  | Env (ENotFound m) => ("FileNotFoundError", m)
  | Env (EOwnership m) => ("OwnershipError", m)
  | Env (EOther n m) => (n, m)
  | Orch (OrchestrationError m) => ("OrchestrationError", m)
  | Orch (KeyError k) => ("KeyError", repr k)
  | Orch (EnumError v) => ("ValueError", v)
  | Orch FuelError => ("FuelError", "")
  | IndexError => ("IndexError", "list index out of range")
  | ContextContractError => ("ContextContractError", "")
  | TypeError => ("TypeError", "can't subtract offset-naive and offset-aware datetimes")
  end.

(** [except ValueError]: [OrchestrationError] and [ContextContractError] are subclasses. *)
Definition is_value_error (e : exn) : bool :=
  match e with
  | Env (EValue _) | Orch (OrchestrationError _) | Orch (EnumError _) | ContextContractError => true
  | _ => false
  end.

Definition is_orchestration_error (e : exn) : bool :=
  match e with Orch (OrchestrationError _) => true | _ => false end.

(** [t], and on an exception first [h], then the exception again *)
Definition on_error {A} (t : prog A) (h : prog unit) : prog A :=
  try_except t (fun e => Some (h ;; Raise e)).

(** * The runtime *)

(** What [DagRuntime.__init__] and the start of [run] fix: [cf_authority] is the gateway
    origin of the [DispatchAuthority], [cf_run_digest] the digest of the run
    directory in [permit_attempt_id], [cf_keywords] the keyword arguments the prompt
    callback accepts, [cf_session_feedback] whether the selector has
    [record_session_failure], [cf_reviewer] whether there is a reviewer. *)
Record Config := {
  cf_policy : RuntimePolicy;
  cf_graph : WorkGraph;
  cf_authority : option string;
  cf_repo : string;
  cf_run_dir : string;
  cf_run_digest : string;
  cf_base_sha : string;
  cf_keywords : list string;
  cf_session_feedback : bool;
  cf_reviewer : bool
}.

Section runtime.
Context (cfg : Config).

Let policy := cf_policy cfg.
Let run_dir := cf_run_dir cfg.
Let run_name := split_last "/" (cf_run_dir cfg).

(** [self._set(run, state, ...)] *)
Definition set_state (state : NodeState.t) (data : list (string * value)) : prog unit :=
  run ← get_run;
  lift (check_transition (nr_state run) state) ;;
  put_run (with_state state run) ;;
  emit "node_state" (node_id (nr_node run))
    ([("state", VStr (NodeState.value state)); ("route_id", VStr (nr_route_id run));
      ("attempt", VInt (nr_attempt run))] ++ data).

(** ** Git *)

Definition runner (argv : list string) (cwd : string) (timeout : Q) : prog (Z * string) :=
  await (QRun argv cwd timeout).

Definition git_call (args : list string) (cwd : string) (timeout : Q) : prog string :=
  '(code, out) ← runner ("git" :: args) cwd timeout;
  if code =? 0 then Ret (strip out)
  else Raise (run_orch_error ("git " +:+ join " " args +:+ " failed (" +:+ str_of_Z code +:+ "): "
                              +:+ last_chars 600 out)).

Definition git_head (cwd : string) : prog string := git_call ["rev-parse"; "HEAD"] cwd 120.

Definition remove_worktree_unlocked (path : string) : prog unit :=
  '(code, _) ← runner ["git"; "worktree"; "remove"; "--force"; path] (cf_repo cfg) 60;
  if code =? 0 then Ret tt
  else
    there ← call (QExists path);
    if there : bool then
      call (QRmtree path) ;;
      runner ["git"; "worktree"; "prune"] (cf_repo cfg) 60 ;;
      Ret tt
    else Ret tt.

Definition add_worktree (path branch base : string) : prog unit :=
  async_with WorktreeLock
    (there ← call (QExists path);
     (if there : bool then remove_worktree_unlocked path else Ret tt) ;;
     git_call ["worktree"; "add"; "-f"; "-B"; branch; path; base] (cf_repo cfg) 120 ;;
     Ret tt).

Definition remove_worktree (path : string) : prog unit :=
  async_with WorktreeLock (remove_worktree_unlocked path).

Definition BYPRODUCT_EXCLUDES : list string :=
  ["__pycache__/"; "*.pyc"; ".pytest_cache/"; ".mypy_cache/"; ".ruff_cache/"; ".coverage";
   "node_modules/"; ".verdict/"; ".serena/"; "venv/"; ".venv/"].

(** Stages an owned path under a byproduct directory, unless it is neither on disk nor
    tracked. *)
Definition stage_owned (cwd p : string) : prog unit :=
  let spec := ":(literal)" +:+ p in
  exists_ ← call (QExists (cwd +:+ "/" +:+ p));
  on_disk ← (if exists_ : bool then Ret true else call (QIsSymlink (cwd +:+ "/" +:+ p)));
  skip ← (if on_disk : bool then Ret false
          else '(code, _) ← runner ["git"; "ls-files"; "--error-unmatch"; "--"; spec] cwd 30;
               Ret (negb (code =? 0)));
  if skip : bool then Ret tt
  else git_call ["add"; "-A"; "-f"; "--"; spec] cwd 120 ;; Ret tt.

Definition changed_files (cwd base : string) (owned : list string) : prog (list string) :=
  call (QEnsureExcludes cwd) ;;
  let dir_excludes := List.filter (fun p => endswith p "/") BYPRODUCT_EXCLUDES in
  git_call ["add"; "-A"] cwd 120 ;;
  for_each (stage_owned cwd) (List.filter (fun p => existsb (startswith p) dir_excludes) owned) ;;
  out ← git_call ["diff"; "--cached"; "--name-only"; base] cwd 120;
  Ret (nonblank_lines out).

Definition commit_all (cwd message : string) : prog string :=
  git_call ["add"; "-A"] cwd 120 ;;
  '(code, _) ← runner ["git"; "diff"; "--cached"; "--quiet"] cwd 60;
  (if code =? 0 then Ret ""
   else git_call ["-c"; "user.name=verdict-worker"; "-c"; "user.email=verdict-worker@localhost";
                  "commit"; "-q"; "--no-verify"; "-m"; message] cwd 120) ;;
  git_head cwd.

Definition worktree_path (name : string) : string := run_dir +:+ "/worktrees/" +:+ name.

Definition merge_commits (commits : list string) (label : string) : prog string :=
  let path := worktree_path ("_" +:+ label) in
  add_worktree path ("verdict/run-" +:+ run_name +:+ "/_" +:+ label) (cf_base_sha cfg) ;;
  try_finally
    (for_each (fun sha =>
       git_call ["-c"; "user.name=verdict"; "-c"; "user.email=verdict@localhost"; "merge";
                 "--no-ff"; "--no-edit"; "-q"; sha] path 120 ;; Ret tt) commits ;;
     git_head path)
    (remove_worktree path).

(** [_node_base] *)
Definition node_base (node : WorkNode) : prog string :=
  commits ← dep_commits;
  match List.filter (fun c => negb (String.eqb c "")) commits with
  | [] => Ret (cf_base_sha cfg)
  | [c] => Ret c
  | deps => merge_commits deps ("base-" +:+ node_id node)
  end.

(** ** Repo gates and validation *)

(** Exit code and output of one gate; a missing executable is exit 127. *)
Definition run_gate (g : RepoGate) (worktree : string) : prog (Z * string) :=
  resolved ← try_except (argv ← call (QResolveGate (rg_argv g) worktree); Ret (Ok argv))
               (fun e => match e with Env (ENotFound m) => Some (Ret (Err m)) | _ => None end);
  match resolved with
  | Ok argv => runner argv worktree (verify_timeout_seconds policy)
  | Err m => Ret (127, m)
  end.

Fixpoint run_gates (gs : list RepoGate) (nid worktree : string) (fixable_only : bool)
    (failed : list string) : prog (list string) :=
  match gs with
  | [] => Ret failed
  | g :: gs =>
      '(code, out) ← run_gate g worktree;
      emit "repo_gate" nid [("name", VStr (rg_name g)); ("ok", VBool (code =? 0));
                            ("exit_code", VInt code)] ;;
      let fixable := negb ((code =? 126) || (code =? 127)) || negb fixable_only in
      run_gates gs nid worktree fixable_only
        (if negb (code =? 0) && fixable
         then failed ++ ["repo_gate_failed: " +:+ rg_name g +:+ " exit " +:+ str_of_Z code
                         +:+ ": " +:+ last_chars 600 out]
         else failed)
  end.

(** [_run_repo_gates]: the returned reason, and the messages appended to [failed] *)
Definition repo_gates (nid worktree : string) (fixable_only : bool) :
    prog (option string * list string) :=
  if negb (run_repo_gates policy) then
    emit "repo_gates" nid [("disabled", VBool true)] ;; Ret (None, [])
  else
    found ← try_except (gs ← call (QDiscoverGates worktree); Ret (Ok gs))
              (fun e => if is_value_error e then Some (Ret (Err (snd (exn_text e)))) else None);
    match found with
    | Err m =>
        let reason := take_str 300 ("repo_gates_config_error: " +:+ m) in
        emit "repo_gates" nid [("error", VStr reason)] ;;
        Ret (if fixable_only then None else Some reason, [])
    | Ok gs =>
        emit "repo_gates" nid [("gates", VList (map rg_name gs))] ;;
        failed ← run_gates gs nid worktree fixable_only [];
        Ret (head failed, failed)
    end.

Fixpoint format_targets (worktree : string) (changed : list string) : prog (list string) :=
  match changed with
  | [] => Ret []
  | p :: changed =>
      ok ← call (QFormatTarget worktree p);
      rest ← format_targets worktree changed;
      Ret (if ok : bool then p :: rest else rest)
  end.

Definition repair_formatting (nid worktree : string) (changed : list string) : prog (list string) :=
  targets ← format_targets worktree changed;
  if bool_decide (targets = []) then
    Ret ["repo_gate_failed: ruff-format exit 1: no changed files to format"]
  else
    resolved ← try_except
                 (argv ← call (QResolveGate ("ruff" :: "format" :: targets) worktree); Ret (Some argv))
                 (fun e => match e with Env (ENotFound _) => Some (Ret None) | _ => None end);
    match resolved with
    | None => Ret ["repo_gate_failed: ruff-format exit 127: ruff not found"]
    | Some argv =>
        '(code, _) ← runner argv worktree (verify_timeout_seconds policy);
        emit "controller" nid [("state", VStr "FORMATTER_APPLIED"); ("exit_code", VInt code)] ;;
        '(_, failed) ← repo_gates nid worktree true;
        Ret failed
    end.

(** Runs the gate of that name, if there is one: whether it fails *)
Fixpoint named_gate_fails (gs : list RepoGate) (name scratch : string) : prog bool :=
  match gs with
  | [] => Ret false
  | g :: gs =>
      if String.eqb (rg_name g) name then
        argv ← call (QResolveGate (rg_argv g) scratch);
        '(code, _) ← runner argv scratch (verify_timeout_seconds policy);
        Ret (negb (code =? 0))
      else named_gate_fails gs name scratch
  end.

Definition gate_fails_on_base (gate_reason base : string) : prog bool :=
  let prefix := "repo_gate_failed: " in
  let name := split1_head " " (if startswith gate_reason prefix
                               then drop_str (String.length prefix) gate_reason else gate_reason) in
  tag ← call QTokenHex;
  let scratch := worktree_path ("gate-base-" +:+ tag) in
  add_worktree scratch ("verdict/gate-base-" +:+ tag) base ;;
  try_finally
    (try_except (gs ← call (QDiscoverGates scratch); named_gate_fails gs name scratch)
       (fun e => match e with
                 | Env (ENotFound _) => Some (Ret false)
                 | _ => if is_value_error e then Some (Ret false) else None
                 end))
    (remove_worktree scratch ;;
     try_except (git_call ["branch"; "-D"; "verdict/gate-base-" +:+ tag] (cf_repo cfg) 120 ;; Ret tt)
       (fun e => if is_orchestration_error e then Some (Ret tt) else None)).

(** The first failed gate that does not already fail on the base *)
Fixpoint introduced_failure (failed : list string) (base : string) : prog (option string) :=
  match failed with
  | [] => Ret None
  | g :: failed =>
      old ← gate_fails_on_base g base;
      if old : bool then introduced_failure failed base
      else Ret (Some ("verification_failed: " +:+ take_str 600 g))
  end.

(** The ownership barrier of [_validate]: the rejection, if any *)
Definition ownership_barrier (node : WorkNode) (changed : list string) : prog (option string) :=
  if bool_decide (kind node = NodeKind.IMPLEMENT) then
    let outside := List.filter (fun p => negb (owns node p)) changed in
    emit "barrier" (node_id node) [("name", VStr "ownership"); ("ok", VBool (bool_decide (outside = [])));
                                   ("stray_paths", VList outside)] ;;
    if bool_decide (outside = []) then
      (if bool_decide (changed = [])
       then emit "barrier" (node_id node) [("name", VStr "no_change"); ("ok", VBool true)]
       else Ret tt) ;;
      Ret None
    else Ret (Some ("ownership_violation: " +:+ join ", " (firstn 8 outside)))
  else if bool_decide (owned_files node = []) && negb (bool_decide (changed = [])) then
    emit "barrier" (node_id node) [("name", VStr "ownership"); ("ok", VBool false);
                                   ("stray_paths", VList changed)] ;;
    Ret (Some ("ownership_violation: node has no owned_files but changed: "
               +:+ join ", " (firstn 8 changed)))
  else Ret None.

(** [_validate]: the rejection, or [None] when the work is accepted *)
Definition validate (node : WorkNode) (worktree base : string) : prog (option string) :=
  changed ← changed_files worktree base (owned_files node);
  stray ← ownership_barrier node changed;
  match stray with
  | Some reason => Ret (Some reason)
  | None =>
      if bool_decide (verification_command node = []) then
        emit "verify" (node_id node) [("ok", VBool true); ("exit_code", VInt 0)] ;; Ret None
      else
        resolved ← call (QResolveVerify (verification_command node));
        '(code, out) ← runner resolved worktree (verify_timeout_seconds policy);
        emit "verify" (node_id node) [("ok", VBool (code =? 0)); ("exit_code", VInt code)] ;;
        if negb (code =? 0) then
          Ret (Some ("verification_failed: exit " +:+ str_of_Z code +:+ ": " +:+ last_chars 300 out))
        else if bool_decide (kind node = NodeKind.IMPLEMENT) && negb (bool_decide (changed = [])) then
          '(_, failed) ← repo_gates (node_id node) worktree true;
          failed ← (if negb (bool_decide (failed = []))
                       && forallb (fun f => startswith f "repo_gate_failed: ruff-format ") failed
                    then repair_formatting (node_id node) worktree changed
                    else Ret failed);
          introduced_failure failed base
        else Ret None
  end.

(** ** Failures *)

(** A [WorkerTerminal(ok=False, error=...)] of the runtime itself *)
Definition failed_terminal (model error : string) (status : option Z) : WorkerTerminal :=
  {| wt_ok := false; wt_output := ""; wt_stop_reason := ""; wt_error := error;
     wt_status_code := status; wt_retry_after := None; wt_model := model; wt_executor_kind := "" |}.

Definition history_entry (run : NodeRun) (outcome commit : string) : HistoryEntry :=
  {| h_attempt := nr_attempt run; h_route_id := nr_route_id run; h_outcome := outcome;
     h_commit := commit; h_evidence := "" |}.

Definition add_history (outcome commit : string) : prog unit :=
  modify (fun r => with_history (nr_history r ++ [history_entry r outcome commit]) r).

(** Session feedback is best effort: its exceptions become an event. *)
Definition session_feedback (run : NodeRun) (terminal : WorkerTerminal) (f : FailureClassification) :
    prog unit :=
  let nid := node_id (nr_node run) in
  if cf_session_feedback cfg then
    try_except
      (now ← call QNow;
       call (QSessionFailure (nr_route_id run) f terminal now
               (run_name +:+ ":" +:+ nid +:+ ":a" +:+ str_of_Z (nr_attempt run))) ;;
       emit "controller" nid [("phase", VStr "session_feedback")])
      (fun e => match e with
                | CancelledError => None
                | _ => Some (emit "controller" nid
                               [("phase", VStr "session_feedback");
                                ("reason", VStr ("persistence_error:" +:+ fst (exn_text e)))])
                end)
  else Ret tt.

(** [_record_failure]; [given] is the [failure] argument. *)
Definition record_run_failure (terminal : WorkerTerminal) (validated : bool)
    (given : option FailureClassification) : prog unit :=
  f ← match given with
      | Some f => Ret f
      | None => now ← call QNow; call (QClassify terminal now)
      end;
  modify (fun r => with_failures (nr_failures r ++ [f]) r) ;;
  set_state (if validated then NodeState.REJECTED else NodeState.TERMINAL_FAILURE)
    [("reason", VStr (fc_category f))] ;;
  run ← get_run;
  let nid := node_id (nr_node run) in
  emit "failure" nid [("category", VStr (fc_category f)); ("action", VStr (fc_action f));
                      ("route_id", VStr (nr_route_id run)); ("attempt", VInt (nr_attempt run))] ;;
  session_feedback run terminal f ;;
  (if negb (String.eqb (fc_scope f) "none") && negb (Qle_bool (fc_cooldown_seconds f) 0) then
     now ← call QNow;
     call (QRecordFailure (nr_route_id run) f now) ;;
     let pooled := String.eqb (fc_scope f) "provider"
                   && mem (fc_category f) POOL_COOLDOWN_CATEGORIES in
     emit "cooldown" nid
       [("key", VStr (if pooled then pool_of (nr_route_id run) else nr_route_id run));
        ("scope", VStr (if pooled then "pool" else "route"))]
   else Ret tt) ;;
  add_history (fc_category f) "".

Definition REVOKING_CATEGORIES : list string := ["authentication"; "permission"; "model_mismatch"].

(** Keeps a failed attempt's owned partial work for the next one. *)
Definition salvage_work (node : WorkNode) (worktree : string) (terminal : WorkerTerminal) : prog unit :=
  if bool_decide (owned_files node = []) then Ret tt
  else
    there ← call (QExists worktree);
    if (there : bool) && negb (String.eqb (wt_executor_kind terminal) "fault-injected") then
      base ← node_base node;
      changed ← changed_files worktree base (owned_files node);
      let dir := run_dir +:+ "/salvage/" +:+ node_id node in
      '(saved, skipped, error) ← call (QSalvage worktree (owned_files node) dir changed);
      if bool_decide (saved = @nil string) && bool_decide (skipped = @nil string) && String.eqb error ""
      then Ret tt
      else
        emit "salvage" (node_id node) [("saved", VList saved)] ;;
        add_history "salvage" ""
    else Ret tt.

(** [_fail] *)
Definition fail_attempt (terminal : WorkerTerminal) (worktree : string) (validated : bool) : prog bool :=
  try_finally
    (record_run_failure terminal validated None ;;
     run ← get_run;
     (match nr_permit run, last (nr_failures run) with
      | Some permit, Some f =>
          if mem (fc_category f) REVOKING_CATEGORIES then
            now ← call QNow;
            await (QRevoke permit (run_name +:+ ":" +:+ dp_permit_id permit +:+ ":" +:+ fc_category f) now)
          else Ret tt
      | Some _, None => Raise IndexError
      | None, _ => Ret tt
      end) ;;
     salvage_work (nr_node run) worktree terminal)
    (remove_worktree worktree) ;;
  Ret false.

(** A send that is refused before anything was sent, and settles the node *)
Definition settle_denied (category action reason worktree : string) : prog unit :=
  record_run_failure (failed_terminal "" reason None) false
    (Some (failure category action 0 "none" reason)) ;;
  modify (with_reason reason) ;;
  set_state NodeState.BLOCKED [("reason", VStr reason)] ;;
  remove_worktree worktree.

(** ** One attempt *)

(** [dispatch_blocker(selector, route_id, now)] of [contracts.py] *)
Definition check_blocker (route : string) : prog (option string) :=
  now ← call QNow;
  b ← call (QBlocker route now);
  Ret (match b with Some "" => None | b => b end).

Definition execute (prompt worktree : string) (run : NodeRun) : prog WorkerTerminal :=
  let route := nr_route_id run in
  try_except
    (await (QExecute prompt route worktree (qmin (attempt_timeout_seconds policy) 900)
              (node_id (nr_node run) +:+ "-a" +:+ str_of_Z (nr_attempt run))))
    (fun e => match e with
              | CancelledError => None
              | Env (EOwnership m) =>
                  Some (Ret (failed_terminal route ("ownership_refused: " +:+ m) (Some 125)))
              | _ => Some (Ret (failed_terminal route ("transport: " +:+ fst (exn_text e) +:+ ": "
                                                       +:+ snd (exn_text e)) None))
              end).

Definition permit_attempt_id (nid : string) (attempt : Z) : string :=
  run_name +:+ ":" +:+ cf_run_digest cfg +:+ ":" +:+ nid +:+ "-a" +:+ str_of_Z attempt.

Definition PERMIT_PROOF_MAX_VALIDITY_SECONDS : Z := 600.

Definition commit_permit (run : NodeRun) : prog (option DispatchPermit) :=
  match nr_dispatch_proof run with
  | None => Ret None
  | Some proof =>
      if negb (String.eqb (ap_route_id proof) (nr_route_id run)) then Ret None
      else
        let attempt_id := permit_attempt_id (node_id (nr_node run)) (nr_attempt run) in
        let deadline := Z.min (ap_expires_at proof)
                          (ap_qualified_at proof + PERMIT_PROOF_MAX_VALIDITY_SECONDS * us_per_second) in
        permit ← await (QCommitPermit proof attempt_id deadline);
        (match permit with
         | Some p => emit "controller" (node_id (nr_node run))
                       [("phase", VStr "dispatch_permit"); ("permit_id", VStr (dp_permit_id p))]
         | None => Ret tt
         end) ;;
        Ret permit
  end.

Definition restore_work (run : NodeRun) (worktree : string) : prog unit :=
  let node := nr_node run in
  if (1 <? nr_attempt run) && negb (bool_decide (owned_files node = [])) then
    '(restored, _, error) ← call (QRestore (run_dir +:+ "/salvage/" +:+ node_id node) worktree
                                    (owned_files node));
    if bool_decide (restored = @nil string) && String.eqb error "" then Ret tt
    else
      emit "restore" (node_id node) [("restored", VList restored)] ;;
      add_history "restore" ""
  else Ret tt.

(** The retry instructions appended to the prompt *)
Definition feedback_suffix (run : NodeRun) : prog string :=
  if String.eqb (nr_failure_feedback run) "" then Ret ""
  else match last (nr_failures run) with
       | None => Raise IndexError
       | Some f =>
           let header := if String.eqb (fc_category f) "ownership_violation"
                         then "PREVIOUS_ATTEMPT_FAILED_OWNERSHIP"
                         else "PREVIOUS_ATTEMPT_FAILED_VERIFICATION" in
           Ret (nl +:+ nl +:+ header +:+ ":" +:+ nl +:+ nr_failure_feedback run +:+ nl
                +:+ "Fix the cause above, then run VERIFICATION_COMMAND again." +:+ nl)
       end.

(** [_prompt]: a callback that does not take the suffix gets it appended. *)
Definition prompt_text (node : WorkNode) (worktree : string) (budget : Z) (plan : ContextPlan)
    (suffix : string) : prog string :=
  text ← call (QPrompt node worktree budget plan suffix);
  Ret (if mem "mandatory_suffix" (cf_keywords cfg) then text else text +:+ suffix).

Definition run_budget (run : NodeRun) : Z :=
  if nr_context_budget run =? 0 then context_budget_bytes policy else nr_context_budget run.

(** The prompt of the attempt, or [None] when it does not fit and the node is settled *)
Definition hydrate (worktree : string) : prog (option string) :=
  set_state NodeState.DISPATCHED [] ;;
  run ← get_run;
  let node := nr_node run in
  let nid := node_id node in
  emit "dispatch" nid [("route_id", VStr (nr_route_id run)); ("attempt", VInt (nr_attempt run));
                       ("worktree", VStr worktree)] ;;
  set_state NodeState.RUNNING [] ;;
  let budget := run_budget run in
  let plan := context_plan run budget in
  (if plan_valid plan then Ret tt else Raise ContextContractError) ;;
  suffix ← feedback_suffix run;
  prompt ← prompt_text node worktree budget plan suffix;
  let fits := prompt_fits plan budget prompt in
  emit "hydrate" nid [("route_id", VStr (nr_route_id run)); ("estimated_fit", VBool fits)] ;;
  if fits then Ret (Some prompt)
  else
    settle_denied "context_input_rejected" "FAIL_CLOSED"
      "context_input_rejected: full prompt exceeds conservative input budget" worktree ;;
    Ret None.

(** The authority checks between the gateway check and the send: [Some r] when the attempt
    ends here with result [r] *)
Definition authorize (origin : option string) (worktree : string) : prog (option bool) :=
  let denied := fun reason => settle_denied "dispatch_denied" "BLOCK" reason worktree ;; Ret (Some true) in
  match cf_authority cfg with
  | Some bound =>
      match origin with
      | None => denied "dispatch_denied: executor origin unknown"
      | Some o =>
          if negb (gateway_origin_matches o bound) then denied "dispatch_denied: executor origin mismatch"
          else
            run ← get_run;
            permit ← commit_permit run;
            modify (with_permit permit) ;;
            match permit with
            | Some _ => Ret None
            | None =>
                let reason := "permit_denied: proof revoked or expired before the send" in
                record_run_failure (failed_terminal "" reason None) false
                  (Some (failure "permit_denied" "REROUTE" 0 "none" reason)) ;;
                remove_worktree worktree ;;
                Ret (Some false)
            end
      end
  | None =>
      if require_dispatch_permit policy
      then denied "dispatch_denied: no admission proof for the bound route"
      else Ret None
  end.

(** The [try] of [_attempt] around the send. [inl r]: the attempt ended before the send with
    [r]. An exception or early return frees the origin pin while it is held, and always the
    [inflight] entry. *)
Definition dispatch (worktree : string) : prog (bool + WorkerTerminal) :=
  let pop := perform (SetInflight None) in
  prompt ← on_error (hydrate worktree) pop;
  match prompt with
  | None => pop ;; Ret (inl true)
  | Some prompt =>
      run ← get_run;
      let nid := node_id (nr_node run) in
      let route := nr_route_id run in
      let unpin := call (QReleasePin nid route worktree) in
      origin ← on_error (call (QOrigin nid route worktree)) pop;
      ended ← on_error
                (authorize (match origin with Some "" => None | o => o end) worktree)
                (unpin ;; pop);
      match ended with
      | Some r => unpin ;; pop ;; Ret (inl r)
      | None =>
          terminal ← on_error (run ← get_run; execute prompt worktree run) pop;
          pop ;; Ret (inr terminal)
      end
  end.

(** A worker that reports [RESULT: BLOCKED] has failed. *)
Definition reported_terminal (t : WorkerTerminal) : WorkerTerminal :=
  let line := if wt_ok t then blocked_report (wt_output t) else "" in
  if String.eqb line "" then t
  else {| wt_ok := false; wt_output := wt_output t; wt_stop_reason := "";
          wt_error := "worker_blocked: " +:+ take_str 200 line; wt_status_code := None;
          wt_retry_after := None; wt_model := wt_model t; wt_executor_kind := wt_executor_kind t |}.

(** Whether the scope of the permit was revoked while the send was in flight *)
Definition revoked_in_flight (run : NodeRun) : prog bool :=
  match nr_permit run with
  | None => Ret false
  | Some permit => epoch ← await (QEpoch (dp_scope permit)); Ret (negb (epoch =? dp_epoch permit))
  end.

(** The second [try] of [_attempt]: the result of the send *)
Definition settle (terminal : WorkerTerminal) (worktree base : string) : prog bool :=
  try_finally
    (run ← get_run;
     let node := nr_node run in
     let nid := node_id node in
     emit "terminal" nid [("ok", VBool (wt_ok terminal)); ("route_id", VStr (nr_route_id run));
                          ("attempt", VInt (nr_attempt run))] ;;
     (if String.eqb (wt_executor_kind terminal) "fault-injected" then Ret tt
      else call (QSaveAttempt nid (nr_attempt run) (nr_route_id run) terminal)) ;;
     let terminal := reported_terminal terminal in
     if negb (wt_ok terminal) || String.eqb (strip (wt_output terminal)) ""
     then fail_attempt terminal worktree false
     else
       revoked ← revoked_in_flight run;
       if revoked : bool then
         let reason := "permit_revoked_after_commit: scope revoked during the send" in
         record_run_failure terminal false
           (Some (failure "permit_revoked_after_commit" "REROUTE" 0 "none" reason)) ;;
         Ret false
       else
         set_state NodeState.TERMINAL_SUCCESS [] ;;
         verdict ← validate node worktree base;
         match verdict with
         | Some reason => fail_attempt (failed_terminal (nr_route_id run) reason None) worktree true
         | None =>
             commit ← commit_all worktree
                        ("verdict(" +:+ nid +:+ "): " +:+ take_str 60 (objective node) +:+ " ["
                         +:+ nr_route_id run +:+ "]");
             modify (with_commit commit) ;;
             remove_worktree worktree ;;
             now ← call QNow;
             call (QRecordSuccess (nr_route_id run) now) ;;
             add_history "validated" commit ;;
             set_state NodeState.VALIDATED [("commit", VStr commit)] ;;
             Ret true
         end)
    (there ← call (QExists worktree);
     if there : bool then remove_worktree worktree else Ret tt).

(** [_attempt]: [None] when the route was revoked before the dispatch *)
Definition attempt : prog (option bool) :=
  modify (with_permit None) ;;
  run ← get_run;
  let node := nr_node run in
  let name := node_id node +:+ "-a" +:+ str_of_Z (nr_attempt run) in
  let worktree := worktree_path name in
  async_with Slots
    (blocker ← check_blocker (nr_route_id run);
     match blocker with
     | Some b =>
         emit "eligibility" (node_id node)
           [("revoked", VStr (nr_route_id run));
            ("reason", VStr ("pre-dispatch recheck: " +:+ b +:+ " cooling"))] ;;
         Ret None
     | None =>
         set_state NodeState.ADMITTED [] ;;
         base ← node_base node;
         add_worktree worktree ("verdict/run-" +:+ run_name +:+ "/" +:+ name) base ;;
         restore_work run worktree ;;
         perform (SetInflight (Some (nr_route_id run))) ;;
         sent ← dispatch worktree;
         match sent with
         | inl r => Ret (Some r)
         | inr terminal => ok ← settle terminal worktree base; Ret (Some ok)
         end
     end).

(** ** The driver of a worker node *)

(** [_repack]: halves the context budget; [false] at the floor *)
Definition repack : prog bool :=
  run ← get_run;
  let current := run_budget run in
  let smaller := Z.max (min_context_budget_bytes policy) (current / 2) in
  if current <=? smaller then Ret false
  else
    put_run (with_context_budget smaller run) ;;
    emit "repack" (node_id (nr_node run)) [("from_budget_bytes", VInt current);
                                           ("to_budget_bytes", VInt smaller)] ;;
    Ret true.

Definition hydrator_takes_budget : bool :=
  mem "context_budget_bytes" (cf_keywords cfg) || mem "context_plan" (cf_keywords cfg).

(** [TaskRequirements.for_node] with the routes and pools excluded so far *)
Definition node_requirements (run : NodeRun) : TaskRequirements :=
  let base := for_node (nr_node run) in
  {| tr_required_capabilities := tr_required_capabilities base;
     tr_min_context_tokens := tr_min_context_tokens base;
     tr_coding := tr_coding base;
     tr_reasoning := tr_reasoning base;
     tr_frontier_worthy := tr_frontier_worthy base;
     tr_task_category := tr_task_category base;
     tr_exclude_routes := nr_excluded_routes run;
     tr_exclude_families := tr_exclude_families base;
     tr_exclude_pools := nr_excluded_pools run;
     tr_max_capability_tier := tr_max_capability_tier base;
     tr_task_family := tr_task_family base |}.

(** Closes the node; [exhausted] adds the [pool_exhausted] failure event. *)
Definition block (reason : string) (exhausted : bool) : prog unit :=
  modify (with_reason reason) ;;
  set_state NodeState.BLOCKED [("reason", VStr reason)] ;;
  if exhausted then
    run ← get_run;
    emit "failure" (node_id (nr_node run)) [("category", VStr "pool_exhausted");
                                            ("action", VStr "FAIL_CLOSED")]
  else Ret tt.

(** The earliest cooldown among the routes that only a cooldown keeps out. A text that is
    no datetime is skipped, and so is one that cannot be compared with the earliest so far
    ([TypeError] of a naive and an aware value). *)
Fixpoint earliest_cooldown (tried : list string) (vs : list RouteVerdict) (best : option datetime) :
    option datetime :=
  match vs with
  | [] => best
  | v :: vs =>
      let until := match v_failed v, v_cooldown_until v with
                   | Some EligibilityStage.AVAILABLE, Some u =>
                       if String.eqb u "" || mem (v_route v) tried then None else fromisoformat u
                   | _, _ => None
                   end in
      earliest_cooldown tried vs
        (match until, best with
         | None, _ => best
         | Some t, None => Some t
         | Some t, Some b =>
             if eqb (bool_decide (is_Some (dt_off t))) (bool_decide (is_Some (dt_off b)))
                && (instant t <? instant b) then Some t else best
         end)
  end.

(** Waits for a short cooldown, at most once: whether it waited. Subtracting an aware and a
    naive datetime raises. *)
Definition wait_cooldown (waited : bool) (considered : list RouteVerdict) : prog bool :=
  run ← get_run;
  if waited then Ret false
  else match earliest_cooldown (nr_excluded_routes run) considered None with
       | None => Ret false
       | Some e =>
           now ← call QNow;
           if bool_decide (dt_off e = None) then Raise TypeError
           else
             let wait := (inject_Z (instant e - now) / inject_Z us_per_second)%Q in
             if negb (Qle_bool wait 0) && Qle_bool wait (max_cooldown_wait_seconds policy) then
               emit "cooldown" (node_id (nr_node run)) [("scope", VStr "wait"); ("until", VStr (iso e))] ;;
               await (QSleep (wait + 1)) ;;
               Ret true
             else Ret false
       end.

(** A selection taken back before its dispatch: the route is excluded; after too many the
    node is closed. Whether the driver goes on. *)
Definition revoke (route : string) (revocations : Z) : prog bool :=
  modify (fun r => with_excluded_routes (set_add route (nr_excluded_routes r)) r) ;;
  if rp_max_attempts policy <? revocations
  then block "pre-dispatch revalidation kept revoking selections" true ;; Ret false
  else Ret true.

(** The checks between selection and binding: [false] when the selection is revoked *)
Definition recheck (route : string) : prog bool :=
  call (QLaunchable route) ;;
  blocker ← check_blocker route;
  match blocker with
  | Some b =>
      run ← get_run;
      emit "eligibility" (node_id (nr_node run))
        [("revoked", VStr route); ("reason", VStr ("pre-dispatch recheck: " +:+ b +:+ " cooling"))] ;;
      Ret false
  | None =>
      match cf_authority cfg with
      | None => Ret true
      | Some _ =>
          run ← get_run;
          proof ← await (QBind (nr_node run) route);
          modify (with_dispatch_proof proof) ;;
          match proof with
          | Some _ => Ret true
          | None =>
              emit "eligibility" (node_id (nr_node run))
                [("revoked", VStr route); ("reason", VStr "pre-dispatch recheck: no_fresh_passport")] ;;
              Ret false
          end
      end
  end.

(** Binds the route: counts the attempt and reserves the route in [inflight]. *)
Definition bind_route (choice : RouteVerdict) : prog unit :=
  run ← get_run;
  let previous := nr_route_id run in
  let nid := node_id (nr_node run) in
  put_run (with_selected_context_window (v_context choice)
             (with_route_id (v_route choice) (with_attempt (nr_attempt run + 1) run))) ;;
  emit "eligibility" nid [("selected", VStr (v_route choice));
                          ("capacity_class", VStr (CapacityClass.value (v_capacity choice)))] ;;
  emit "selection" nid [("route_id", VStr (v_route choice)); ("provider", VStr (v_provider choice));
                        ("capacity_class", VStr (CapacityClass.value (v_capacity choice)));
                        ("attempt", VInt (nr_attempt run + 1))] ;;
  perform (SetCapacity (CapacityClass.value (v_capacity choice))) ;;
  perform (SetInflight (Some (v_route choice))) ;;
  match last (nr_failures run) with
  | Some f => if String.eqb previous "" then Ret tt
              else emit "reassign" nid [("from_route", VStr previous); ("to_route", VStr (v_route choice));
                                        ("reason", VStr (fc_category f))]
  | None => Ret tt
  end.

Definition ownership_advice : string :=
  nl +:+ "The out-of-scope files above must not be created or modified. "
  +:+ "Only OWNED_FILES may change. If one is required, finish with "
  +:+ "RESULT: BLOCKED naming the file.".

(** The evidence a retry gets *)
Definition feedback_of (f : FailureClassification) : string :=
  if String.eqb (fc_category f) "ownership_violation" then take_str 1700 (fc_evidence f) +:+ ownership_advice
  else if String.eqb (fc_category f) "verification_failed" then last_chars 2000 (fc_evidence f)
  else "".

Definition CONTEXT_LENGTH_CATEGORY : string := "context_length_exceeded".

Definition exclude_route : prog unit :=
  modify (fun r => with_excluded_routes (set_add (nr_route_id r) (nr_excluded_routes r)) r).

(** What a failed attempt changes for the next one: wait, shrink the prompt, retry the same
    route once with the evidence, or exclude the route and its pool. *)
Definition adapt (f : FailureClassification) : prog unit :=
  run ← get_run;
  let route := nr_route_id run in
  if String.eqb (fc_action f) "RETRY_INFRA" then
    await (QSleep (qmin (fc_cooldown_seconds f) 60))
  else if String.eqb (fc_category f) CONTEXT_LENGTH_CATEGORY then
    shrunk ← repack;
    if (shrunk : bool) && hydrator_takes_budget && negb (mem route (nr_repacked_routes run))
    then modify (fun r => with_repacked_routes (set_add route (nr_repacked_routes r)) r)
    else exclude_route
  else if mem (fc_category f) ["verification_failed"; "ownership_violation"]
          && negb (mem route (nr_rehydrated_routes run)) then
    modify (fun r => with_rehydrated_routes (set_add route (nr_rehydrated_routes r)) r) ;;
    emit "rehydrate" (node_id (nr_node run)) [("reason", VStr (fc_category f)); ("route_id", VStr route)]
  else
    exclude_route ;;
    if mem (fc_category f) POOL_COOLDOWN_CATEGORIES
    then modify (fun r => with_excluded_pools (set_add (pool_of route) (nr_excluded_pools r)) r)
    else Ret tt.

(** After a failed attempt: whether the node is planned again *)
Definition replan : prog bool :=
  modify (with_failure_feedback "") ;;
  run ← get_run;
  match last (nr_failures run) with
  | None =>
      exclude_route ;;
      set_state NodeState.PLANNED [("reassign", VBool true)] ;; Ret true
  | Some f =>
      modify (with_failure_feedback (feedback_of f)) ;;
      adapt f ;;
      if String.eqb (fc_action f) "BLOCK"
      then block ("non-recoverable: " +:+ fc_category f) false ;; Ret false
      else set_state NodeState.PLANNED [("reassign", VBool true)] ;; Ret true
  end.

(** The [while True] of [_drive] *)
Fixpoint drive_loop (fuel : nat) (waited : bool) (revocations : Z) : prog unit :=
  match fuel with
  | O => Raise (Orch FuelError)
  | S fuel =>
      run ← get_run;
      if rp_max_attempts policy <=? nr_attempt run then
        block ("replacement budget exhausted after " +:+ str_of_Z (nr_attempt run) +:+ " attempts: "
               +:+ join ", " (map (fun h => h_route_id h +:+ ":" +:+ h_outcome h) (nr_history run))) true
      else
        now ← call QNow;
        '(choice, considered) ← await (QSelect (node_requirements run) now);
        match choice with
        | None =>
            again ← wait_cooldown waited considered;
            if again : bool then drive_loop fuel true revocations
            else
              emit "eligibility" (node_id (nr_node run)) [("selected", VStr "")] ;;
              block ("no eligible model: " +:+ explain_exhaustion considered) true
        | Some choice =>
            let route := v_route choice in
            ready ← recheck route;
            if negb ready then
              go ← revoke route (revocations + 1);
              if go : bool then drive_loop fuel waited (revocations + 1) else Ret tt
            else
              bind_route choice ;;
              ok ← attempt;
              match ok with
              | None =>
                  modify (fun r => with_route_id (nr_route_id run) (with_attempt (nr_attempt r - 1) r)) ;;
                  perform (SetInflight None) ;;
                  go ← revoke route (revocations + 1);
                  if go : bool then drive_loop fuel waited (revocations + 1) else Ret tt
              | Some true => Ret tt
              | Some false =>
                  go ← replan;
                  if go : bool then drive_loop fuel waited revocations else Ret tt
              end
        end
  end.

(** ** Integration and review nodes *)

(** The checks on the merged tree: the rejection, empty when they pass *)
Definition integration_checks (node : WorkNode) (worktree : string) : prog string :=
  failed ← (if bool_decide (verification_command node = []) then Ret ""
            else
              resolved ← call (QResolveVerify (verification_command node));
              '(code, out) ← runner resolved worktree (verify_timeout_seconds policy);
              emit "verify" (node_id node) [("ok", VBool (code =? 0)); ("exit_code", VInt code)] ;;
              Ret (if code =? 0 then ""
                   else "integration verification failed: exit " +:+ str_of_Z code +:+ ": "
                        +:+ last_chars 600 out));
  reason ← (if String.eqb failed "" then
              '(reason, _) ← repo_gates (node_id node) worktree false; Ret (default "" reason)
            else Ret failed);
  emit "barrier" (node_id node)
    [("name", VStr (if String.eqb (barrier node) "" then "integration" else barrier node));
     ("ok", VBool (String.eqb reason ""))] ;;
  Ret reason.

(** Puts the evidence into the last history entry. *)
Definition annotate_last (evidence : string) (h : list HistoryEntry) : list HistoryEntry :=
  match rev h with
  | [] => []
  | e :: h => rev ({| h_attempt := h_attempt e; h_route_id := h_route_id e; h_outcome := h_outcome e;
                      h_commit := h_commit e; h_evidence := evidence |} :: h)
  end.

Definition integrate_node : prog unit :=
  modify (fun r => with_route_id "" (with_attempt (nr_attempt r + 1) r)) ;;
  run ← get_run;
  let node := nr_node run in
  let nid := node_id node in
  set_state NodeState.ADMITTED [] ;;
  set_state NodeState.DISPATCHED [] ;;
  set_state NodeState.RUNNING [] ;;
  base ← try_except (b ← node_base node; Ret (Ok b))
           (fun e => if is_orchestration_error e then Some (Ret (Err (snd (exn_text e)))) else None);
  match base with
  | Err msg =>
      set_state NodeState.TERMINAL_FAILURE [("reason", VStr "merge_conflict")] ;;
      let reason := "integration merge failed: " +:+ msg in
      modify (with_reason reason) ;;
      emit "barrier" nid [("name", VStr (if String.eqb (barrier node) "" then "integration" else barrier node));
                          ("ok", VBool false)] ;;
      set_state NodeState.BLOCKED [("reason", VStr reason)]
  | Ok base =>
      emit "terminal" nid [("ok", VBool true); ("route_id", VStr ""); ("attempt", VInt (nr_attempt run))] ;;
      set_state NodeState.TERMINAL_SUCCESS [] ;;
      let worktree := worktree_path (nid +:+ "-a" +:+ str_of_Z (nr_attempt run)) in
      add_worktree worktree ("verdict/run-" +:+ run_name +:+ "/" +:+ nid) base ;;
      reason ← try_finally (integration_checks node worktree) (remove_worktree worktree);
      if negb (String.eqb reason "") then
        let evidence := "verification_failed: " +:+ reason in
        modify (with_reason reason) ;;
        record_run_failure (failed_terminal "" evidence None) true
          (Some (failure "verification_failed" "CORRECT_IMPLEMENTATION" 0 "none" evidence)) ;;
        modify (fun r => with_history (annotate_last (last_chars 2000 reason) (nr_history r))
                           (with_failure_feedback (last_chars 2000 reason) r)) ;;
        set_state NodeState.BLOCKED [("reason", VStr reason)]
      else
        modify (with_commit base) ;;
        add_history "validated" base ;;
        set_state NodeState.VALIDATED [("commit", VStr base)]
  end.

(** Every round of the loop uses up an attempt, a revocation or the one wait. *)
Definition drive_fuel : nat := S (S (S (Z.to_nat (rp_max_attempts policy) + Z.to_nat (rp_max_attempts policy)))).

(** [_drive] *)
Definition drive (k : NodeKind.t) : prog unit :=
  if bool_decide (k = NodeKind.INTEGRATE) || bool_decide (k = NodeKind.REVIEW)
  then integrate_node
  else drive_loop drive_fuel false 0.

End runtime.
