(* ===== verification/Scheduler.v ===== *)
(** [verdict/orchestration/runtime.py], the scheduling side of [DagRuntime]: the control
    handlers ([cancel_run], [cancel_node], [retry_node]), readiness and the propagation of
    blocks, the loop of [run], and [_conclude] with the independent review.

    A [Sys] is a state of a run. [advance] runs a task to its next suspension, so what is
    between two suspensions is atomic as in [asyncio]; [sys_step] is one turn of the event
    loop, and a schedule is the list of turns. The environment is a function of the number of
    observations made so far: every behaviour of the collaborators along a run is one of
    them. *)
From S2P Require Import Prelude PyStr Contracts Recovery Async Runtime.

Section scheduler.
Context (cfg : Config).

Let policy := cf_policy cfg.

(** * Conclusion of a run *)

Record RunResult := {
  res_outcome : RunOutcome.t;
  res_reason : string;
  res_integration : string;
  res_review : option ReviewResult
}.

Definition outcome_value (o : RunOutcome.t) : string :=
  match o with
  | RunOutcome.COMPLETE => "COMPLETE" | RunOutcome.BLOCKED => "BLOCKED"
  | RunOutcome.CANCELLED => "CANCELLED"
  end.

Definition finish (o : RunOutcome.t) (reason integration : string) (review : option ReviewResult) :
    prog RunResult :=
  emit "run_finished" "" [("outcome", VStr (outcome_value o)); ("reason", VStr reason);
                          ("integration_ref", VStr integration)] ;;
  Ret {| res_outcome := o; res_reason := reason; res_integration := integration;
         res_review := review |}.

(** [_leaf_commits] *)
Definition leaf_commits (runs : list NodeRun) : list string :=
  let consumed := concat (map (fun r => depends_on (nr_node r)) runs) in
  omap (fun r => if mem (node_id (nr_node r)) consumed || String.eqb (nr_commit r) ""
                 then None else Some (nr_commit r)) runs.

(** The routes that wrote code in this run, failed attempts included *)
Definition implementers (runs : list NodeRun) : list string :=
  dedupe (List.filter (fun r => negb (String.eqb r ""))
            (concat (map (fun r => nr_route_id r :: map h_route_id (nr_history r)) runs))).

(** One review round; any exception is an [ERROR] result. *)
Definition review_round (level head : string) (exclude_routes exclude_families : list string) :
    prog ReviewResult :=
  r ← try_except
        (await (QReview level (cf_base_sha cfg) head exclude_routes exclude_families))
        (fun e => match e with
                  | CancelledError => None
                  | _ => Some (Ret {| rr_status := "ERROR"; rr_reviewer := "unknown"; rr_route_id := "";
                                      rr_findings := [];
                                      rr_detail := fst (exn_text e) +:+ ": " +:+ snd (exn_text e) |})
                  end);
  emit "controller" "" [("state", VStr "REVIEW_INDEPENDENCE"); ("level", VStr level);
                        ("excluded_routes", VList (sort_str exclude_routes));
                        ("excluded_families", VList (sort_str exclude_families))] ;;
  Ret r.

(** First with the implementers' families excluded too, then with their routes only *)
Definition review (head : string) (routes : list string) : prog ReviewResult :=
  r ← review_round "family" head routes (dedupe (map route_family routes));
  if String.eqb (rr_status r) "ERROR" && contains (rr_detail r) "no independent reviewer"
  then review_round "route" head routes []
  else Ret r.

(** [_conclude], on the [NodeRun]s in the order of the graph *)
Definition conclude (runs : list NodeRun) : prog RunResult :=
  match List.find (fun r => negb (bool_decide (nr_state r = NodeState.VALIDATED))) runs with
  | Some first =>
      finish RunOutcome.BLOCKED
        (node_id (nr_node first) +:+ ": "
         +:+ (if String.eqb (nr_reason first) "" then NodeState.value (nr_state first) else nr_reason first))
        "" None
  | None =>
      integration ← match leaf_commits runs with
                    | [c] => Ret c
                    | leaves => merge_commits cfg leaves "integration"
                    end;
      emit "integrate" "" [("ok", VBool true); ("ref", VStr integration)] ;;
      emit "barrier" "" [("name", VStr "integration"); ("ok", VBool true)] ;;
      let complete := finish RunOutcome.COMPLETE "all nodes validated, integrated and reviewed" integration in
      if negb (require_review policy) then complete None
      else if negb (cf_reviewer cfg) then
        finish RunOutcome.BLOCKED "review required but no reviewer configured" integration None
      else
        r ← review integration (implementers runs);
        emit "review" "" [("status", VStr (rr_status r)); ("route_id", VStr (rr_route_id r))] ;;
        if review_passed r then complete (Some r)
        else
          finish RunOutcome.BLOCKED
            ("independent review " +:+ rr_status r +:+ ": "
             +:+ (if String.eqb (rr_detail r) "" then "blocking findings" else rr_detail r))
            integration (Some r)
  end.

(** * The scheduler *)

Record ControlRequest := {
  cr_id : string;
  cr_kind : string;
  cr_node_id : option string;
  cr_requested_by : string
}.

(** What the runtime keeps under one node id *)
Record Cell := {
  c_run : NodeRun;
  c_inflight : option string;
  c_capacity : option string
}.

Definition cell_with_run (r : NodeRun) (c : Cell) : Cell :=
  {| c_run := r; c_inflight := c_inflight c; c_capacity := c_capacity c |}.
Definition cell_with_inflight (i : option string) (c : Cell) : Cell :=
  {| c_run := c_run c; c_inflight := i; c_capacity := c_capacity c |}.
Definition cell_with_capacity (k : string) (c : Cell) : Cell :=
  {| c_run := c_run c; c_inflight := c_inflight c; c_capacity := Some k |}.

(** What happens: an event, a query, its outcome. The log says who made the observation: a
    node's driver, or "" for the controller. *)
Inductive obs :=
| OEvent (e : event)
| OAsk (q : query)
| OGot (q : query) (a : answer q)
| OFailed (q : query) (e : env_exn)
| OCancel.

(** A driver's [asyncio.Task]: the rest of its program, and whether [cancel()] was called
    and not yet delivered *)
Record Driver := { d_task : prog unit; d_cancelled : bool }.

(** [GLoop]: in [asyncio.wait] of the loop. [GGather]: waiting for cancelled drivers after
    [cancel_run]. [GClose]: the same in the [finally], with the result already published.
    [GConclude]: in [_conclude]. *)
Inductive phase :=
| GLoop
| GGather
| GClose (r : RunResult)
| GConclude (t : prog RunResult)
| GDone (r : RunResult)
| GCrashed (e : exn).

Record Sys := {
  s_cells : list (string * Cell);          (* self.nodes, inflight, _capacity *)
  s_pending : list (string * Driver);      (* pending *)
  s_held : list (resource * string);       (* who holds the slots and the worktree lock *)
  s_log : list (string * obs);
  s_cancel_requested : bool;
  s_processed : list string;               (* _processed_controls *)
  s_phase : phase
}.

Definition sys_cells (f : list (string * Cell) -> list (string * Cell)) (s : Sys) : Sys :=
  {| s_cells := f (s_cells s); s_pending := s_pending s; s_held := s_held s; s_log := s_log s;
     s_cancel_requested := s_cancel_requested s; s_processed := s_processed s; s_phase := s_phase s |}.
Definition sys_pending (f : list (string * Driver) -> list (string * Driver)) (s : Sys) : Sys :=
  {| s_cells := s_cells s; s_pending := f (s_pending s); s_held := s_held s; s_log := s_log s;
     s_cancel_requested := s_cancel_requested s; s_processed := s_processed s; s_phase := s_phase s |}.
Definition sys_held (f : list (resource * string) -> list (resource * string)) (s : Sys) : Sys :=
  {| s_cells := s_cells s; s_pending := s_pending s; s_held := f (s_held s); s_log := s_log s;
     s_cancel_requested := s_cancel_requested s; s_processed := s_processed s; s_phase := s_phase s |}.
Definition sys_log (nid : string) (o : obs) (s : Sys) : Sys :=
  {| s_cells := s_cells s; s_pending := s_pending s; s_held := s_held s;
     s_log := s_log s ++ [(nid, o)];
     s_cancel_requested := s_cancel_requested s; s_processed := s_processed s; s_phase := s_phase s |}.
Definition sys_phase (p : phase) (s : Sys) : Sys :=
  {| s_cells := s_cells s; s_pending := s_pending s; s_held := s_held s; s_log := s_log s;
     s_cancel_requested := s_cancel_requested s; s_processed := s_processed s; s_phase := p |}.
Definition sys_processed (id : string) (s : Sys) : Sys :=
  {| s_cells := s_cells s; s_pending := s_pending s; s_held := s_held s; s_log := s_log s;
     s_cancel_requested := s_cancel_requested s; s_processed := set_add id (s_processed s);
     s_phase := s_phase s |}.
Definition sys_cancel (s : Sys) : Sys :=
  {| s_cells := s_cells s; s_pending := s_pending s; s_held := s_held s; s_log := s_log s;
     s_cancel_requested := true; s_processed := s_processed s; s_phase := s_phase s |}.

(** Changes the value under [k]. *)
Definition alter_at {V} (k : string) (f : V -> V) (d : list (string * V)) : list (string * V) :=
  map (fun kv => if String.eqb (fst kv) k then (fst kv, f (snd kv)) else kv) d.

Definition get_node_run (s : Sys) (nid : string) : option NodeRun := c_run <$> dict_get nid (s_cells s).

(** An event of the controller *)
Definition log_event (type nid : string) (data : list (string * value)) (s : Sys) : Sys :=
  sys_log "" (OEvent {| ev_type := type; ev_node := nid; ev_data := data |}) s.

(** [self.nodes[nid]] changes to [f] of it, outside a driver *)
Definition set_run (nid : string) (f : NodeRun -> NodeRun) (s : Sys) : Sys :=
  sys_cells (alter_at nid (fun c => cell_with_run (f (c_run c)) c)) s.

(** [run.state = state; emit("node_state", ...)] with the given reason *)
Definition force_state (nid : string) (state : NodeState.t) (reason : string) (s : Sys) : Sys :=
  log_event "node_state" nid [("state", VStr (NodeState.value state)); ("reason", VStr reason)]
    (set_run nid (with_state state) s).

Definition log_control (req : ControlRequest) (nid : string) (accepted : bool) (reason : string) (s : Sys) : Sys :=
  log_event "control" nid
    [("id", VStr (cr_id req)); ("kind", VStr (cr_kind req)); ("accepted", VBool accepted);
     ("reason", VStr reason)] s.

(** [pending[nid].cancel()]: nothing for a task that is done *)
Definition cancel_driver (d : Driver) : Driver :=
  if finished (d_task d) then d else {| d_task := d_task d; d_cancelled := true |}.

(** ** Controls *)

Definition is_active (s : NodeState.t) : bool :=
  bool_decide (s ∈ [NodeState.PLANNED; NodeState.ADMITTED; NodeState.DISPATCHED; NodeState.RUNNING]).

Definition cancel_run_node (s : Sys) (nid : string) : Sys :=
  match get_node_run s nid with
  | Some run =>
      let close state := force_state nid state "cancelled by operator"
                           (set_run nid (with_reason "cancelled by operator") s) in
      if is_active (nr_state run) then
        if bool_decide (NodeState.BLOCKED ∈ TRANSITIONS (nr_state run)) then close NodeState.BLOCKED
        else if bool_decide (NodeState.TERMINAL_FAILURE ∈ TRANSITIONS (nr_state run))
        then close NodeState.TERMINAL_FAILURE
        else s
      else s
  | None => s
  end.

Definition handle_cancel_run (req : ControlRequest) (s : Sys) : Sys :=
  let s := sys_pending (map (fun kv => (fst kv, cancel_driver (snd kv)))) (sys_cancel s) in
  log_control req "" true "run cancelled by operator"
    (foldl cancel_run_node s (map fst (s_cells s))).

Definition handle_cancel_node (req : ControlRequest) (s : Sys) : Sys :=
  let nid := default "" (cr_node_id req) in
  match get_node_run s nid with
  | None => log_control req "" false ("unknown node_id: " +:+ repr nid) s
  | Some run =>
      if negb (is_active (nr_state run)) then
        log_control req nid false ("node " +:+ nid +:+ " is " +:+ NodeState.value (nr_state run)
                               +:+ "; only active work can be cancelled") s
      else
        let s := sys_pending (alter_at nid cancel_driver) s in
        let s := if bool_decide (NodeState.TERMINAL_FAILURE ∈ TRANSITIONS (nr_state run)) then
                   force_state nid NodeState.BLOCKED "cancelled_by_operator"
                     (force_state nid NodeState.TERMINAL_FAILURE "cancelled_by_operator"
                        (set_run nid (with_reason "cancelled_by_operator") s))
                 else if bool_decide (NodeState.BLOCKED ∈ TRANSITIONS (nr_state run)) then
                   force_state nid NodeState.BLOCKED "cancelled_by_operator"
                     (set_run nid (with_reason "cancelled_by_operator") s)
                 else s in
        log_control req nid true "node cancelled by operator" s
  end.

(** [RecoveryBudget(max_attempts_per_node=...)] *)
Definition recovery_budget : RecoveryBudget :=
  {| max_attempts_per_node := rp_max_attempts policy; max_same_route_retries := 0;
     max_verification_repairs := 1 |}.

Definition driver_active (s : Sys) (nid : string) : bool :=
  match dict_get nid (s_pending s) with Some d => negb (finished (d_task d)) | None => false end.

Definition handle_retry_node (req : ControlRequest) (s : Sys) : Sys :=
  let nid := default "" (cr_node_id req) in
  match get_node_run s nid with
  | None => log_control req "" false ("unknown node_id: " +:+ repr nid) s
  | Some run =>
      if negb (bool_decide (nr_state run ∈ [NodeState.TERMINAL_FAILURE; NodeState.BLOCKED])) then
        log_control req nid false ("node " +:+ nid +:+ " in state " +:+ NodeState.value (nr_state run)
                               +:+ "; retry only for TERMINAL_FAILURE/BLOCKED") s
      else if driver_active s nid then
        log_control req nid false "node driver is still active; retry refused" s
      else if contains (nr_reason run) "cancelled" then
        log_control req nid false "node was cancelled; replacement prohibited" s
      else if bool_decide (nr_failures run = []) then
        log_control req nid false "no recoverable failure evidence recorded; retry refused" s
      else
        let '(action, reason) := decide_recovery recovery_budget (nr_failures run) (Some (nr_attempt run)) in
        if String.eqb action "FAIL_CLOSED" then
          log_control req nid false ("recovery budget refused: " +:+ reason) s
        else
          log_control req nid true ("retry accepted: " +:+ reason)
            (force_state nid NodeState.PLANNED ("retry requested by operator (" +:+ reason +:+ ")")
               (set_run nid (with_reason "") s))
  end.

(** [_poll_controls]; the second component is [true] for [RunOutcome.CANCELLED]. *)
Fixpoint poll_controls (reqs : list ControlRequest) (s : Sys) : Sys * bool :=
  match reqs with
  | [] => (s, false)
  | req :: reqs =>
      if mem (cr_id req) (s_processed s) then poll_controls reqs s
      else
        let s := sys_processed (cr_id req) s in
        if String.eqb (cr_kind req) "cancel_run" then (handle_cancel_run req s, true)
        else if String.eqb (cr_kind req) "cancel_node" then poll_controls reqs (handle_cancel_node req s)
        else if String.eqb (cr_kind req) "retry_node" then poll_controls reqs (handle_retry_node req s)
        else poll_controls reqs
               (log_control req "" false ("unknown control kind: " +:+ repr (cr_kind req)) s)
  end.

(** ** Readiness *)

Definition state_is (s : Sys) (state : NodeState.t) (nid : string) : bool :=
  match get_node_run s nid with Some r => bool_decide (nr_state r = state) | None => false end.

(** [_ready]. Every dependency is a node of the graph. *)
Definition ready (s : Sys) : list string :=
  if s_cancel_requested s then []
  else List.filter (fun nid =>
         match get_node_run s nid with
         | Some r => bool_decide (nr_state r = NodeState.PLANNED)
                     && forallb (state_is s NodeState.VALIDATED) (depends_on (nr_node r))
         | None => false
         end) (map fst (s_cells s)).

(** One round over the nodes: whether one was blocked *)
Definition propagate_node (acc : Sys * bool) (nid : string) : Sys * bool :=
  let '(s, changed) := acc in
  match get_node_run s nid with
  | Some r =>
      if bool_decide (nr_state r = NodeState.PLANNED) then
        match List.filter (state_is s NodeState.BLOCKED) (depends_on (nr_node r)) with
        | [] => (s, changed)
        | blocked =>
            let reason := "dependency blocked: " +:+ join ", " blocked in
            (force_state nid NodeState.BLOCKED reason (set_run nid (with_reason reason) s), true)
        end
      else (s, changed)
  | None => (s, changed)
  end.

Fixpoint propagate_loop (fuel : nat) (s : Sys) : Sys :=
  match fuel with
  | O => s
  | S fuel =>
      let '(s, changed) := foldl propagate_node (s, false) (map fst (s_cells s)) in
      if changed then propagate_loop fuel s else s
  end.

(** [_propagate_blocks]: a round blocks a node or is the last. *)
Definition propagate_blocks (s : Sys) : Sys := propagate_loop (S (length (s_cells s))) s.

(** ** Execution *)

(** What the environment answers to the [n]-th observation *)
Definition environment : Type := nat -> forall q : query, env_exn + answer q.

Context (env : environment).

(** Capacity of a resource: [asyncio.Semaphore(min(policy.max_parallel, graph.max_parallel))] *)
Definition capacity (r : resource) : Z :=
  match r with
  | Slots => Z.min (rp_max_parallel policy) (max_parallel (cf_graph cfg))
  | WorktreeLock => 1
  end.

Definition holders (s : Sys) (r : resource) : list string :=
  map snd (List.filter (fun h => bool_decide (fst h = r)) (s_held s)).

(** Removes one entry. *)
Fixpoint release_one (r : resource) (nid : string) (held : list (resource * string)) :
    list (resource * string) :=
  match held with
  | [] => []
  | h :: held => if bool_decide (h = (r, nid)) then held else h :: release_one r nid held
  end.

Definition commits_of_deps (s : Sys) (nid : string) : list string :=
  match get_node_run s nid with
  | Some r => omap (fun d => nr_commit <$> get_node_run s d) (depends_on (nr_node r))
  | None => []
  end.

Definition log_answer (nid : string) (q : query) (a : env_exn + answer q) (s : Sys) : Sys :=
  sys_log nid (match a with inl e => OFailed q e | inr a => OGot q a end) s.

(** Runs a task up to its next suspension. *)
Fixpoint advance {A} (nid : string) (t : prog A) (s : Sys) : prog A * Sys :=
  match t with
  | Ret a => (Ret a, s)
  | Raise e => (Raise e, s)
  | Do o k =>
      match o return (reply o -> prog A) -> prog A * Sys with
      | Get => fun k => match get_node_run s nid with
                        | Some r => advance nid (k r) s
                        | None => (Raise (Orch (KeyError nid)), s)
                        end
      | Put r => fun k => advance nid (k tt) (set_run nid (fun _ => r) s)
      | SetInflight i => fun k => advance nid (k tt) (sys_cells (alter_at nid (cell_with_inflight i)) s)
      | SetCapacity c => fun k => advance nid (k tt) (sys_cells (alter_at nid (cell_with_capacity c)) s)
      | DepCommits => fun k => advance nid (k (commits_of_deps s nid)) s
      | Emit e => fun k => advance nid (k tt) (sys_log nid (OEvent e) s)
      | Call q => fun k => let a := env (length (s_log s)) q in
                           advance nid (k a) (log_answer nid q a (sys_log nid (OAsk q) s))
      | Await q => fun k => (Do (Await q) k, sys_log nid (OAsk q) s)
      | Acquire r => fun k => (Do (Acquire r) k, s)
      | Release r => fun k => advance nid (k tt) (sys_held (release_one r nid) s)
      end k
  end.

(** Wakes a suspended task: [cancel()] is delivered as [CancelledError]; a resource is
    granted only when one is free. [None]: the task cannot run. *)
Definition wake {A} (nid : string) (cancelled : bool) (t : prog A) (s : Sys) : option (prog A * Sys) :=
  match t with
  | Ret _ | Raise _ => None
  | Do o k =>
      match o return (reply o -> prog A) -> option (prog A * Sys) with
      | Await q => fun k =>
          if cancelled then Some (advance nid (k Cancelled) (sys_log nid OCancel s))
          else let a := env (length (s_log s)) q in
               Some (advance nid (k (match a with inl e => Failed e | inr a => Answered a end))
                       (log_answer nid q a s))
      | Acquire r => fun k =>
          if cancelled then Some (advance nid (k Cancelled) (sys_log nid OCancel s))
          else if Z.of_nat (length (holders s r)) <? capacity r
               then Some (advance nid (k (Answered tt)) (sys_held (cons (r, nid)) s))
               else None
      | _ => fun _ => Some (if cancelled then (Raise CancelledError, s) else advance nid t s)
      end k
  end.

(** ** The loop *)

(** Removes a finished driver; a crash blocks its node only. *)
Definition reap_one (s : Sys) (nid : string) : Sys :=
  match dict_get nid (s_pending s) with
  | Some d =>
      if finished (d_task d) then
        let s := sys_pending (List.filter (fun kv => negb (String.eqb (fst kv) nid))) s in
        match d_task d with
        | Raise CancelledError => s
        | Raise e =>
            let reason := "driver crash: " +:+ fst (exn_text e) +:+ ": " +:+ snd (exn_text e) in
            log_event "node_state" nid [("state", VStr "BLOCKED"); ("reason", VStr reason)]
              (set_run nid (fun r =>
                 let r := with_reason reason r in
                 if bool_decide (nr_state r ∈ [NodeState.VALIDATED; NodeState.BLOCKED]) then r
                 else with_state NodeState.BLOCKED r) s)
        | _ => s
        end
      else s
  | None => s
  end.

Definition reap (s : Sys) : Sys := foldl reap_one s (map fst (s_pending s)).

(** [pending[node_id] = asyncio.create_task(self._drive(node_id))] *)
Definition spawn_one (s : Sys) (nid : string) : Sys :=
  match dict_get nid (s_pending s), get_node_run s nid with
  | None, Some r =>
      sys_pending (fun p => p ++ [(nid, {| d_task := drive cfg (kind (nr_node r)); d_cancelled := false |})]) s
  | _, _ => s
  end.

Definition all_done (s : Sys) : bool := forallb (fun kv => finished (d_task (snd kv))) (s_pending s).

Definition node_runs (s : Sys) : list NodeRun := map (fun kv => c_run (snd kv)) (s_cells s).

(** [_finish] of the loop's own returns *)
Definition finish_run (o : RunOutcome.t) (reason : string) (s : Sys) : RunResult * Sys :=
  ({| res_outcome := o; res_reason := reason; res_integration := ""; res_review := None |},
   log_event "run_finished" "" [("outcome", VStr (outcome_value o)); ("reason", VStr reason);
                                ("integration_ref", VStr "")] s).

Definition main_phase (r : prog RunResult * Sys) : Sys :=
  let '(t, s) := r in
  sys_phase (match t with Ret r => GDone r | Raise e => GCrashed e | _ => GConclude t end) s.

(** From one [asyncio.wait] to the next: the drivers that are done are reaped; then the top
    of the [while True]. [late]: the run deadline has passed; [reqs]: what the control
    channel returns. *)
Definition loop_round (late : bool) (reqs : list ControlRequest) (s : Sys) : Sys :=
  let s := reap s in
  if late then
    let s := sys_pending (map (fun kv => (fst kv, cancel_driver (snd kv)))) s in
    let '(r, s) := finish_run RunOutcome.BLOCKED "run deadline exceeded" s in
    sys_phase (GClose r) s
  else
    let '(s, cancelled) := poll_controls reqs s in
    if cancelled : bool then sys_phase GGather s
    else
      let s := propagate_blocks s in
      let s := foldl spawn_one s (ready s) in
      if bool_decide (map fst (s_pending s) = [])
      then main_phase (advance "" (conclude (node_runs s)) s)
      else s.

(** A step: the event loop runs a driver, or the controller. *)
Inductive label :=
| LDriver (nid : string)
| LController (late : bool) (reqs : list ControlRequest).

Definition put_driver (nid : string) (t : prog unit) (s : Sys) : Sys :=
  sys_pending (alter_at nid (fun _ => {| d_task := t; d_cancelled := false |})) s.

Definition sys_step (l : label) (s : Sys) : Sys :=
  match l with
  | LDriver nid =>
      match dict_get nid (s_pending s) with
      | Some d => match wake nid (d_cancelled d) (d_task d) s with
                  | Some (t, s) => put_driver nid t s
                  | None => s
                  end
      | None => s
      end
  | LController late reqs =>
      match s_phase s with
      | GLoop => loop_round late reqs s
      | GGather =>
          if all_done s then
            let '(r, s) := finish_run RunOutcome.CANCELLED "run cancelled by operator"
                             (sys_pending (fun _ => []) s) in
            sys_phase (GDone r) s
          else s
      | GClose r => if all_done s then sys_phase (GDone r) s else s
      | GConclude t => match wake "" false t s with Some r => main_phase r | None => s end
      | GDone _ | GCrashed _ => s
      end
  end.

Definition init_sys : Sys :=
  {| s_cells := map (fun n => (node_id n, {| c_run := node_run n; c_inflight := None;
                                             c_capacity := None |})) (nodes (cf_graph cfg));
     s_pending := []; s_held := []; s_log := []; s_cancel_requested := false; s_processed := [];
     s_phase := GLoop |}.

(** [run()] along a schedule *)
Definition run_schedule (ls : list label) : Sys := foldl (fun s l => sys_step l s) init_sys ls.

(** The states of a run *)
Definition reachable (s : Sys) : Prop := exists ls, s = run_schedule ls.

End scheduler.
