(* ===== verification/RuntimeLogic.v ===== *)
(** A program logic for the drivers of [Runtime].

    A driver sees a [Local] state: its [NodeRun], the resources it holds, and the trace of
    its own observations. [wp I X h t Q E l] says of the task [t] started in [l]: the
    invariant [I] holds at every suspension, a send happens only in a worker slot, a returned
    value satisfies [Q], a raised exception satisfies [E], a validated node stays validated; and if the task is cancelled at a
    suspension, it only cleans up ([unwinds]): it changes no [NodeRun], sends nothing, never
    returns, and ends holding exactly [h].

    [calm] is the specification most helpers have: same [NodeRun], same resources, no send,
    and only exceptions of the environment or of git. *)
From S2P Require Import Prelude PyStr Contracts Recovery Async Runtime Scheduler.

Create HintDb calm.

(** * Traces *)

Definition is_send (o : obs) : bool :=
  match o with OAsk (QExecute _ _ _ _ _) => true | _ => false end.

Definition no_send (q : query) : Prop := is_send (OAsk q) = false.

(** The sends of a trace *)
Definition sends (tr : list obs) : nat := length (List.filter is_send tr).

(** The attempt ids of the sends, in order *)
Definition send_id (o : obs) : option string :=
  match o with OAsk (QExecute _ _ _ _ id) => Some id | _ => None end.

Definition send_ids (tr : list obs) : list string := omap send_id tr.

(** What happened since the last send *)
Fixpoint recent (tr : list obs) : list obs :=
  match tr with
  | [] => []
  | o :: tr => if existsb is_send tr then recent tr else if is_send o then tr else o :: tr
  end.

(** [tr'] continues [tr] without a send. *)
Definition extends (tr tr' : list obs) : Prop :=
  exists seg, tr' = tr ++ seg /\ Forall (fun o => is_send o = false) seg.

Lemma extends_refl tr : extends tr tr.
Proof. exists []. split; [by rewrite app_nil_r|done]. Qed.

Lemma extends_trans tr tr' tr'' : extends tr tr' -> extends tr' tr'' -> extends tr tr''.
Proof.
  intros (a & -> & ?) (b & -> & ?). exists (a ++ b). split; [by rewrite app_assoc|].
  by apply Forall_app.
Qed.

Lemma extends_snoc tr tr' o : is_send o = false -> extends tr tr' -> extends tr (tr' ++ [o]).
Proof. intros ? H. apply (extends_trans _ _ _ H). exists [o]. by split; [|constructor]. Qed.

#[export] Hint Resolve extends_refl extends_trans extends_snoc : calm.

Lemma sends_app a b : sends (a ++ b) = (sends a + sends b)%nat.
Proof. unfold sends. by rewrite List.filter_app, length_app. Qed.

Lemma no_send_filter seg : Forall (fun o => is_send o = false) seg -> List.filter is_send seg = [].
Proof. induction 1 as [|o seg Ho _ IH]; cbn; [done|]. by rewrite Ho. Qed.

Lemma extends_sends tr tr' : extends tr tr' -> sends tr' = sends tr.
Proof.
  intros (seg & -> & H). rewrite sends_app. unfold sends at 2.
  rewrite no_send_filter by done. cbn. lia.
Qed.

Lemma send_ids_app a b : send_ids (a ++ b) = send_ids a ++ send_ids b.
Proof. apply omap_app. Qed.

Lemma extends_send_ids tr tr' : extends tr tr' -> send_ids tr' = send_ids tr.
Proof.
  intros (seg & -> & H). rewrite send_ids_app. enough (send_ids seg = []) as -> by apply app_nil_r.
  induction H as [|o seg Ho _ IH]; [done|]. unfold send_ids in *. cbn.
  destruct o as [|q| | |]; try done. by destruct q.
Qed.

Lemma recent_snoc tr o :
  recent (tr ++ [o]) = if is_send o then [] else recent tr ++ [o].
Proof.
  induction tr as [|p tr IH]; cbn; [by destruct (is_send o)|].
  rewrite existsb_app. cbn. rewrite orb_false_r, IH.
  destruct (is_send o) eqn:E; cbn.
  - by rewrite orb_true_r.
  - rewrite orb_false_r. destruct (existsb is_send tr); [done|]. by destruct (is_send p).
Qed.

Lemma extends_recent tr tr' : extends tr tr' -> recent tr ⊆ recent tr'.
Proof.
  intros (seg & -> & H). induction seg as [|o seg IH] using rev_ind; [by rewrite app_nil_r|].
  apply Forall_app in H as [? H]. inversion H; subst.
  rewrite app_assoc, recent_snoc. destruct (is_send o) eqn:E; [done|].
  intros x Hx. apply elem_of_app. left. by apply IH.
Qed.

(** * Local states *)

Record Local := { l_run : NodeRun; l_held : list resource; l_trace : list obs }.

Definition l_put (r : NodeRun) (l : Local) : Local :=
  {| l_run := r; l_held := l_held l; l_trace := l_trace l |}.
Definition l_hold (h : list resource) (l : Local) : Local :=
  {| l_run := l_run l; l_held := h; l_trace := l_trace l |}.
Definition l_obs (o : obs) (l : Local) : Local :=
  {| l_run := l_run l; l_held := l_held l; l_trace := l_trace l ++ [o] |}.

(** Removes one occurrence. *)
Fixpoint drop_one (r : resource) (h : list resource) : list resource :=
  match h with
  | [] => []
  | x :: h => if bool_decide (x = r) then h else x :: drop_one r h
  end.

(** * Unwinding *)

Fixpoint unwinds {A} (t : prog A) (h : list resource) (Q : A -> list resource -> Prop)
    (E : exn -> list resource -> Prop) : Prop :=
  match t with
  | Ret a => Q a h
  | Raise e => E e h
  | Do o k =>
      match o return (reply o -> prog A) -> Prop with
      | Put _ => fun _ => False
      | Call q => fun k => no_send q /\ forall x, unwinds (k x) h Q E
      | Await q => fun k => no_send q /\ forall w, unwinds (k w) h Q E
      | Acquire r => fun k => unwinds (k (Answered tt)) (r :: h) Q E
                              /\ forall w, w <> Answered tt -> unwinds (k w) h Q E
      | Release r => fun k => unwinds (k tt) (drop_one r h) Q E
      | _ => fun k => forall x, unwinds (k x) h Q E
      end k
  end.

(** A cancelled task that holds [h]: it never returns, ends holding [h0] with an exception
    in [X]. *)
Definition aborts {A} (X : exn -> Prop) (t : prog A) (h h0 : list resource) : Prop :=
  unwinds t h (fun _ _ => False) (fun e h' => X e /\ h' = h0).

Ltac task_ind t :=
  let o := fresh "o" in let k := fresh "k" in let IH := fresh "IH" in
  induction t as [?a|?e|o k IH]; intros; cbn in *;
  [| | destruct o; cbn in *; intros; destruct_and?; try done; repeat split; intros; eauto].

Lemma unwinds_mono {A} (t : prog A) h (Q Q' : A -> list resource -> Prop)
    (E E' : exn -> list resource -> Prop) :
  (forall a h, Q a h -> Q' a h) -> (forall e h, E e h -> E' e h) ->
  unwinds t h Q E -> unwinds t h Q' E'.
Proof. intros HQ HE. revert h. task_ind t; eauto. Qed.

Lemma unwinds_bind {A B} (t : prog A) (f : A -> prog B) h Q E :
  unwinds t h (fun a h' => unwinds (f a) h' Q E) E -> unwinds (t ≫= f) h Q E.
Proof. unfold mbind, task_mbind. revert h. task_ind t; eauto. Qed.

Lemma unwinds_try_finally {A} (t : prog A) f h Q E :
  unwinds t h (fun a h' => unwinds f h' (fun _ => Q a) E)
    (fun e h' => unwinds f h' (fun _ => E e) E) ->
  unwinds (try_finally t f) h Q E.
Proof.
  revert h. task_ind t; eauto.
  - apply unwinds_bind. eapply unwinds_mono, H; eauto.
  - apply unwinds_bind. eapply unwinds_mono, H; eauto.
Qed.

Lemma unwinds_try_except {A} (t : prog A) g h Q E :
  unwinds t h Q (fun e h' => unwinds (default (Raise e) (g e)) h' Q E) ->
  unwinds (try_except t g) h Q E.
Proof. revert h. task_ind t; eauto. Qed.

(** * Weakest preconditions *)

(** The invariant does not depend on observations other than sends. *)
Class Stable (I : NodeRun -> list obs -> Prop) : Prop :=
  stable r tr tr' : I r tr -> extends tr tr' -> I r tr'.

Section wp.
Context (I : NodeRun -> list obs -> Prop).

Definition inv (l : Local) : Prop := I (l_run l) (l_trace l).

(** A send needs a worker slot. *)
Definition slotted (q : query) (l : Local) : Prop :=
  is_send (OAsk q) = true -> Slots ∈ l_held l.

Fixpoint wp {A} (X : exn -> Prop) (h0 : list resource) (t : prog A) (Q : A -> Local -> Prop)
    (E : exn -> Local -> Prop) (l : Local) : Prop :=
  match t with
  | Ret a => Q a l
  | Raise e => E e l
  | Do o k =>
      match o return (reply o -> prog A) -> Prop with
      | Get => fun k => wp X h0 (k (l_run l)) Q E l
      | Put r => fun k =>
          (nr_state (l_run l) = NodeState.VALIDATED -> nr_state r = NodeState.VALIDATED) /\
          wp X h0 (k tt) Q E (l_put r l)
      | SetInflight _ => fun k => wp X h0 (k tt) Q E l
      | SetCapacity _ => fun k => wp X h0 (k tt) Q E l
      | DepCommits => fun k => forall cs, wp X h0 (k cs) Q E l
      | Emit e => fun k => wp X h0 (k tt) Q E (l_obs (OEvent e) l)
      | Call q => fun k =>
          no_send q /\
          (forall a, wp X h0 (k (inr a)) Q E (l_obs (OGot q a) (l_obs (OAsk q) l))) /\
          forall e, wp X h0 (k (inl e)) Q E (l_obs (OFailed q e) (l_obs (OAsk q) l))
      | Await q => fun k =>
          let l := l_obs (OAsk q) l in
          slotted q l /\ inv l /\
          (forall a, wp X h0 (k (Answered a)) Q E (l_obs (OGot q a) l)) /\
          (forall e, wp X h0 (k (Failed e)) Q E (l_obs (OFailed q e) l)) /\
          aborts X (k Cancelled) (l_held l) h0
      | Acquire r => fun k =>
          inv l /\ wp X h0 (k (Answered tt)) Q E (l_hold (r :: l_held l) l) /\
          aborts X (k Cancelled) (l_held l) h0
      | Release r => fun k => wp X h0 (k tt) Q E (l_hold (drop_one r (l_held l)) l)
      end k
  end.

Lemma wp_mono {A} (X X' : exn -> Prop) h0 (t : prog A) (Q Q' : A -> Local -> Prop)
    (E E' : exn -> Local -> Prop) l :
  (forall e, X e -> X' e) -> (forall a l, Q a l -> Q' a l) -> (forall e l, E e l -> E' e l) ->
  wp X h0 t Q E l -> wp X' h0 t Q' E' l.
Proof.
  intros HX HQ HE. revert l.
  task_ind t; eauto; (eapply unwinds_mono; [| |eassumption]); naive_solver.
Qed.

Lemma wp_bind {A B} X h0 (t : prog A) (f : A -> prog B) Q E l :
  wp X h0 t (fun a => wp X h0 (f a) Q E) E l -> wp X h0 (t ≫= f) Q E l.
Proof.
  unfold mbind, task_mbind. revert l.
  task_ind t; eauto; apply unwinds_bind; (eapply unwinds_mono; [| |eassumption]); naive_solver.
Qed.

(** The finalizer [f] of a task that holds [h1] at its end *)
Lemma wp_try_finally {A} X h0 h1 (t : prog A) f Q E l :
  wp X h1 t (fun a => wp X h0 f (fun _ => Q a) E) (fun e => wp X h0 f (fun _ => E e) E) l ->
  (forall e, X e -> unwinds f h1 (fun _ h => h = h0) (fun e h => X e /\ h = h0)) ->
  wp X h0 (try_finally t f) Q E l.
Proof.
  intros H Hf. revert l H. assert (Hab : forall (t : prog A) h, aborts X t h h1 -> aborts X (try_finally t f) h h0).
  { intros t' h Ht. apply unwinds_try_finally. eapply unwinds_mono; [| |exact Ht]; [done|].
    intros e h' [HX ->]. eapply unwinds_mono; [| |apply (Hf _ HX)]; naive_solver. }
  task_ind t; eauto; try (apply wp_bind; eapply wp_mono; [| | |eassumption]; by eauto).
Qed.

Lemma wp_try_except {A} (X X' : exn -> Prop) h0 (t : prog A) g Q E l :
  wp X h0 t Q (fun e => wp X' h0 (default (Raise e) (g e)) Q E) l ->
  (forall e, X e -> X' e /\ g e = None) ->
  wp X' h0 (try_except t g) Q E l.
Proof.
  intros H HX. revert l H.
  assert (Hab : forall (t : prog A) h, aborts X t h h0 -> aborts X' (try_except t g) h h0).
  { intros t' h Ht. apply unwinds_try_except. eapply unwinds_mono; [| |exact Ht]; [done|].
    intros e h' [He ->]. destruct (HX _ He) as [? ->]. done. }
  task_ind t; eauto.
Qed.

(** [on_error t f]: [f] runs on an exception, which is raised again. *)
Lemma wp_on_error {A} X h0 (t : prog A) f Q E l :
  wp X h0 t Q (fun e => wp X h0 f (fun _ => E e) E) l ->
  (forall e, X e -> unwinds f h0 (fun _ h => h = h0) (fun e h => X e /\ h = h0)) ->
  wp X h0 (on_error t f) Q E l.
Proof.
  intros H Hf. unfold on_error. revert l H.
  assert (Hab : forall (t : prog A) h, aborts X t h h0 ->
            aborts X (try_except t (fun e => Some (f ;; Raise e))) h h0).
  { intros t' h Ht. apply unwinds_try_except. eapply unwinds_mono; [| |exact Ht]; [done|].
    intros e h' [He ->]. cbn. apply unwinds_bind. eapply unwinds_mono; [| |apply (Hf _ He)]; naive_solver. }
  task_ind t; eauto.
  apply wp_bind. eapply wp_mono; [| | |eassumption]; by eauto.
Qed.

(** * Calm tasks *)

(** An exception of the environment, a git command that failed, or one of the two exceptions
    the runtime raises for values it was given: a context plan that its contract refuses, and
    a cooldown without a time zone *)
Definition crash_ok (e : exn) : Prop :=
  match e with
  | Env _ | ContextContractError | TypeError => True
  | Orch (OrchestrationError m) => startswith m "git " = true
  | _ => False
  end.

Definition calm_ext (l l' : Local) : Prop :=
  l_run l' = l_run l /\ l_held l' = l_held l /\ extends (l_trace l) (l_trace l').

Definition calm {A} (X : exn -> Prop) (t : prog A) : Prop :=
  forall l, inv l -> wp X (l_held l) t (fun _ => calm_ext l) (fun e l' => calm_ext l l' /\ crash_ok e) l.

(** A finalizer: it ends with the resources it started with, also when cancelled. *)
Definition cleans {A} (X : exn -> Prop) (t : prog A) : Prop :=
  forall h, unwinds t h (fun _ h' => h' = h) (fun e h' => X e /\ h' = h).

Definition only_cancel (e : exn) : Prop := e = CancelledError.
Definition cancel_or_env (e : exn) : Prop := e = CancelledError \/ exists e', e = Env e'.
(** What a cancelled driver may end with *)
Definition exit_ok (e : exn) : Prop := e = CancelledError \/ crash_ok e.

Context {I_ext : Stable I}.

Lemma calm_ext_refl l : calm_ext l l.
Proof using Type. split_and!; auto with calm. Qed.

Lemma calm_ext_trans l l' l'' : calm_ext l l' -> calm_ext l' l'' -> calm_ext l l''.
Proof using Type. intros (? & ? & ?) (? & ? & ?). split_and!; [congruence..|eauto with calm]. Qed.

Lemma calm_ext_inv l l' : calm_ext l l' -> inv l -> inv l'.
Proof using I_ext. unfold inv. intros (-> & _ & ?) ?. by eapply stable. Qed.

Lemma calm_ext_obs l o : is_send o = false -> calm_ext l (l_obs o l).
Proof using Type. intros. split_and!; cbn; auto with calm. Qed.

Hint Resolve calm_ext_refl calm_ext_trans calm_ext_inv calm_ext_obs : calm.

(** A calm task runs anywhere the invariant holds. *)
Lemma wp_calm {A} X h0 (t : prog A) (Q : A -> Local -> Prop) (E : exn -> Local -> Prop) l :
  calm X t -> inv l -> l_held l = h0 ->
  (forall a l', calm_ext l l' -> inv l' -> Q a l') ->
  (forall e l', calm_ext l l' -> inv l' -> crash_ok e -> E e l') ->
  wp X h0 t Q E l.
Proof using I_ext.
  intros Ht Hl <- HQ HE. eapply wp_mono; [| | |apply (Ht l Hl)]; [done|..]; cbn.
  - intros a l' ?. eauto with calm.
  - intros e l' [? ?]. eauto with calm.
Qed.

Lemma calm_mono {A} (X X' : exn -> Prop) (t : prog A) :
  (forall e, X e -> X' e) -> calm X t -> calm X' t.
Proof using Type. intros HX H l Hl. eapply wp_mono; [exact HX|..|exact (H l Hl)]; done. Qed.

Lemma calm_ret {A} X (a : A) : calm X (Ret a).
Proof using Type. intros l Hl. apply calm_ext_refl. Qed.

Lemma calm_raise {A} X e : crash_ok e -> calm X (Raise e : prog A).
Proof using Type. intros He l Hl. cbn. auto with calm. Qed.

Lemma calm_bind {A B} X (t : prog A) (f : A -> prog B) :
  calm X t -> (forall a, calm X (f a)) -> calm X (t ≫= f).
Proof using I_ext.
  intros Ht Hf l Hl. apply wp_bind. eapply wp_calm; [exact Ht|done|done|..]; cbn.
  - intros a l' Hx Hl'. eapply wp_calm; [apply Hf|done|by destruct Hx as (_ & -> & _)|..]; intros; eauto with calm.
  - auto.
Qed.

Lemma calm_emit X type nid data : calm X (emit type nid data).
Proof using Type. intros l Hl. by apply calm_ext_obs. Qed.

Lemma calm_get {A} X (f : NodeRun -> prog A) : (forall r, calm X (f r)) -> calm X (r ← get_run; f r).
Proof using Type. intros Hf l Hl. exact (Hf (l_run l) l Hl). Qed.

Lemma calm_commits {A} X (f : list string -> prog A) :
  (forall cs, calm X (f cs)) -> calm X (cs ← dep_commits; f cs).
Proof using Type. intros Hf l Hl cs. exact (Hf cs l Hl). Qed.

Lemma calm_call X q : no_send q -> calm X (call q).
Proof using Type.
  intros Hq l Hl. cbn. split_and!; [done|..]; intros; [|split; [|done]];
    (eapply calm_ext_trans; apply calm_ext_obs; done).
Qed.

Lemma calm_await (X : exn -> Prop) q : X CancelledError -> no_send q -> calm X (await q).
Proof using I_ext.
  intros HX Hq l Hl. cbn.
  assert (calm_ext l (l_obs (OAsk q) l)) by auto with calm.
  split; [unfold slotted; congruence|]. split; [eauto with calm|].
  split; [intros a; eauto with calm|]. split; [|done].
  intros e. split; [eauto with calm|done].
Qed.

Lemma drop_one_cons r h : drop_one r (r :: h) = h.
Proof using Type. cbn. by rewrite bool_decide_true. Qed.

(** [async with]: the resource is released on every exit. *)
Lemma wp_async_with {A} (X : exn -> Prop) r (t : prog A) Q E l :
  inv l -> X CancelledError ->
  wp X (r :: l_held l) t (fun a l' => Q a (l_hold (drop_one r (l_held l')) l'))
    (fun e l' => E e (l_hold (drop_one r (l_held l')) l')) (l_hold (r :: l_held l) l) ->
  wp X (l_held l) (async_with r t) Q E l.
Proof using Type.
  intros Hl HX H. unfold async_with. cbn. split; [done|]. split; [|done].
  change (wp X (l_held l) (try_finally t (perform (Release r))) Q E (l_hold (r :: l_held l) l)).
  apply (wp_try_finally X _ (r :: l_held l)); [exact H|].
  intros e He. cbn. by rewrite bool_decide_true.
Qed.

Lemma calm_with {A} (X : exn -> Prop) r (t : prog A) :
  X CancelledError -> calm X t -> calm X (async_with r t).
Proof using I_ext.
  intros HX Ht l Hl. apply wp_async_with; [done|done|].
  eapply wp_calm; [exact Ht|exact Hl|done|..].
  - intros a l' (Hr & Hh & Hx) _. split_and!; cbn in *; [done| |done]. by rewrite Hh, drop_one_cons.
  - intros e l' (Hr & Hh & Hx) _ He. split; [|done].
    split_and!; cbn in *; [done| |done]. by rewrite Hh, drop_one_cons.
Qed.

Lemma calm_finally {A} X (t : prog A) f : calm X t -> calm X f -> cleans X f -> calm X (try_finally t f).
Proof using I_ext.
  intros Ht Hf Hc l Hl. apply (wp_try_finally X _ (l_held l)); [|intros; apply Hc].
  eapply wp_calm; [exact Ht|done|done|..]; intros;
    (eapply wp_calm; [exact Hf|done|by destruct H as (_ & -> & _)|..]); intros; eauto with calm.
Qed.

Lemma calm_try {A} (X X' : exn -> Prop) (t : prog A) g :
  calm X t -> (forall e, X e -> X' e /\ g e = None) ->
  (forall e t', crash_ok e -> g e = Some t' -> calm X' t') -> calm X' (try_except t g).
Proof using I_ext.
  intros Ht HX Hg l Hl. eapply wp_try_except; [|exact HX].
  eapply wp_calm; [exact Ht|done|done|..]; [auto|].
  intros e l' Hx Hl' He. destruct (g e) as [t'|] eqn:E; cbn; [|auto].
  eapply wp_calm; [by eapply Hg|done|by destruct Hx as (_ & -> & _)|..]; intros; eauto with calm.
Qed.

Lemma calm_for_each {A} X (f : A -> prog unit) xs : (forall x, calm X (f x)) -> calm X (for_each f xs).
Proof using I_ext. intros Hf. induction xs; cbn; [apply calm_ret|by apply calm_bind]. Qed.

Lemma cleans_ret {A} X (a : A) : cleans X (Ret a).
Proof using Type. done. Qed.

Lemma cleans_bind {A B} X (t : prog A) (f : A -> prog B) :
  cleans X t -> (forall a, cleans X (f a)) -> cleans X (t ≫= f).
Proof using Type.
  intros Ht Hf h. apply unwinds_bind. eapply unwinds_mono; [| |apply Ht]; [|done].
  intros a ? ->. apply Hf.
Qed.

Lemma cleans_call (X : exn -> Prop) q : no_send q -> (forall e, X (Env e)) -> cleans X (call q).
Proof using Type. intros Hq HX h. cbn. split; [done|]. intros [e|a]; cbn; auto. Qed.

Lemma cleans_await (X : exn -> Prop) q :
  X CancelledError -> (forall e, X (Env e)) -> no_send q -> cleans X (await q).
Proof using Type. intros HX HE Hq h. cbn. split; [done|]. intros [a|e|]; cbn; auto. Qed.

Lemma cleans_with {A} (X : exn -> Prop) r (t : prog A) :
  X CancelledError -> (forall e, X (Env e)) -> cleans X t -> cleans X (async_with r t).
Proof using Type.
  intros HX HE Ht h. unfold async_with. cbn. split; [|intros [[]|e|] ?; cbn; auto; done].
  apply unwinds_try_finally. eapply unwinds_mono; [| |apply Ht]; cbn.
  - intros a ? ->. by rewrite drop_one_cons.
  - intros e ? [? ->]. by rewrite drop_one_cons.
Qed.

Lemma cleans_try {A} (X X' : exn -> Prop) (t : prog A) g :
  cleans X t -> (forall e, X e -> g e = None -> X' e) ->
  (forall e t', g e = Some t' -> cleans X' t') -> cleans X' (try_except t g).
Proof using Type.
  intros Ht HX Hg h. apply unwinds_try_except. eapply unwinds_mono; [| |apply Ht]; [done|].
  cbn. intros e ? [He ->]. destruct (g e) eqn:E; cbn; [by eapply Hg|]. split; [by apply HX|done].
Qed.

End wp.

#[export] Hint Resolve calm_ext_refl calm_ext_trans calm_ext_inv calm_ext_obs : calm.

(** * The helpers of the runtime are calm *)

Lemma git_error_ok m : crash_ok (run_orch_error ("git " +:+ m)).
Proof. cbn. unfold startswith. unfold String.append. by destruct m. Qed.
#[export] Hint Resolve git_error_ok : calm.

Ltac calm_step :=
  lazymatch goal with
  | |- calm ?J _ (get_run ≫= _) => apply (calm_get J); intros ?
  | |- calm ?J _ (dep_commits ≫= _) => apply (calm_commits J); intros ?
  | |- calm ?J _ (_ ≫= _) => apply (calm_bind J); [|intros ?]
  | |- calm ?J _ (Ret _) => apply (calm_ret J)
  | |- calm ?J _ (Raise _) => apply (calm_raise J); solve [done | auto with calm]
  | |- calm ?J _ (emit _ _ _) => apply (calm_emit J)
  | |- calm ?J _ (call _) => apply (calm_call J); done
  | |- calm ?J _ (await _) => apply (calm_await J); done
  | |- calm ?J _ (async_with _ _) => apply (calm_with J); [done|]
  | |- calm ?J _ (for_each _ _) => apply (calm_for_each J); intros ?
  | |- calm ?J _ (let _ := _ in _) => cbv zeta
  | |- calm ?J _ (match ?x with _ => _ end) => destruct x
  | |- calm ?J _ (if ?x then _ else _) => destruct x
  end.
Ltac calm := repeat (first [solve [eauto with calm] | calm_step]).

Section helpers.
Context (I : NodeRun -> list obs -> Prop) {I_ext : Stable I}.


Context (cfg : Config).

Section any.
Context (X : exn -> Prop) (Xc : X CancelledError).

Lemma runner_calm argv cwd timeout : calm I X (runner argv cwd timeout).
Proof using I_ext Xc. unfold runner. calm. Qed.
Hint Resolve runner_calm : calm.

Lemma git_call_calm args cwd timeout : calm I X (git_call args cwd timeout).
Proof using I_ext Xc. unfold git_call. calm. Qed.
Hint Resolve git_call_calm : calm.

Lemma git_head_calm cwd : calm I X (git_head cwd).
Proof using I_ext Xc. unfold git_head. calm. Qed.
Hint Resolve git_head_calm : calm.

Lemma remove_worktree_calm path : calm I X (remove_worktree cfg path).
Proof using I_ext Xc. unfold remove_worktree, remove_worktree_unlocked. calm. Qed.
Hint Resolve remove_worktree_calm : calm.

Lemma add_worktree_calm path branch base : calm I X (add_worktree cfg path branch base).
Proof using I_ext Xc. unfold add_worktree, remove_worktree_unlocked. calm. Qed.
Hint Resolve add_worktree_calm : calm.

Lemma changed_files_calm cwd base owned : calm I X (changed_files cwd base owned).
Proof using I_ext Xc. unfold changed_files, stage_owned. calm. Qed.
Hint Resolve changed_files_calm : calm.

Lemma commit_all_calm cwd msg : calm I X (commit_all cwd msg).
Proof using I_ext Xc. unfold commit_all. calm. Qed.

Lemma named_gate_fails_calm gs name scratch : calm I X (named_gate_fails cfg gs name scratch).
Proof using I_ext Xc. induction gs; cbn [named_gate_fails]; calm. Qed.

Lemma resolve_calm {A} q (f : answer q -> prog A) g :
  no_send q -> (forall a, exists b, f a = Ret b) -> g CancelledError = None ->
  (forall e t', g e = Some t' -> exists b, t' = Ret b) ->
  calm I X (try_except (a ← call q; f a) g).
Proof using I_ext Xc.
  intros Hq Hf Hc Hg. apply (calm_try I only_cancel).
  - apply (calm_bind I); [by apply (calm_call I)|]. intros a. destruct (Hf a) as [b ->]. apply (calm_ret I).
  - intros e ->. done.
  - intros e t' _ Ht. destruct (Hg _ _ Ht) as [b ->]. apply (calm_ret I).
Qed.

Lemma run_gate_calm g worktree : calm I X (run_gate cfg g worktree).
Proof using I_ext Xc.
  unfold run_gate. apply (calm_bind I); [|intros []; calm].
  apply resolve_calm; [done|eauto|done|]. intros [|[]| | | |] t' ?; simplify_eq; eauto.
Qed.
Hint Resolve run_gate_calm : calm.

Lemma run_gates_calm gs nid worktree b failed : calm I X (run_gates cfg gs nid worktree b failed).
Proof using I_ext Xc. revert failed. induction gs; intros; cbn [run_gates]; calm. Qed.
Hint Resolve run_gates_calm : calm.

Lemma repo_gates_calm nid worktree b : calm I X (repo_gates cfg nid worktree b).
Proof using I_ext Xc.
  unfold repo_gates. destruct (negb _); [calm|].
  apply (calm_bind I); [|intros []; calm].
  apply resolve_calm; [done|eauto|done|].
  intros e t'. destruct (is_value_error e); intros; simplify_eq; eauto.
Qed.
Hint Resolve repo_gates_calm : calm.

Lemma format_targets_calm worktree changed : calm I X (format_targets worktree changed).
Proof using I_ext Xc. induction changed; cbn [format_targets]; calm. Qed.
Hint Resolve format_targets_calm : calm.

Lemma repair_formatting_calm nid worktree changed : calm I X (repair_formatting cfg nid worktree changed).
Proof using I_ext Xc.
  unfold repair_formatting. apply (calm_bind I); [calm|]. intros targets. destruct (bool_decide _); [calm|].
  apply (calm_bind I); [|intros []; calm].
  apply resolve_calm; [done|eauto|done|]. intros [|[]| | | |] t' ?; simplify_eq; eauto.
Qed.
Hint Resolve repair_formatting_calm : calm.

Lemma ownership_barrier_calm node changed : calm I X (ownership_barrier node changed).
Proof using I_ext Xc. unfold ownership_barrier. calm. Qed.

Lemma check_blocker_calm route : calm I X (check_blocker route).
Proof using I_ext Xc. unfold check_blocker. calm. Qed.

Lemma commit_permit_calm run : calm I X (commit_permit cfg run).
Proof using I_ext Xc. unfold commit_permit. calm. Qed.

Lemma prompt_text_calm node worktree budget plan suffix :
  calm I X (prompt_text cfg node worktree budget plan suffix).
Proof using I_ext Xc. unfold prompt_text. calm. Qed.

Lemma session_feedback_calm run terminal f : calm I X (session_feedback cfg run terminal f).
Proof using I_ext Xc.
  unfold session_feedback. destruct (cf_session_feedback cfg); [|calm].
  apply (calm_try I only_cancel).
  - calm.
  - by intros e ->.
  - intros e t' _ Ht. destruct e; simplify_eq; calm.
Qed.

Lemma revoked_in_flight_calm run : calm I X (revoked_in_flight run).
Proof using I_ext Xc. unfold revoked_in_flight. calm. Qed.

Lemma wait_cooldown_calm waited considered : calm I X (wait_cooldown cfg waited considered).
Proof using I_ext Xc. unfold wait_cooldown. calm. Qed.

Section finalizers.
Context (Xe : forall e, X (Env e)).

Lemma remove_worktree_cleans path : cleans X (remove_worktree cfg path).
Proof using Xc Xe.
  unfold remove_worktree, remove_worktree_unlocked, runner. apply cleans_with; [done|done|].
  apply cleans_bind; [by apply cleans_await|]. intros [code ?]. destruct (code =? 0); [done|].
  apply cleans_bind; [by apply cleans_call|]. intros b. destruct b; [|done].
  apply cleans_bind; [by apply cleans_call|]. intros ?.
  apply cleans_bind; [by apply cleans_await|]. done.
Qed.
Hint Resolve remove_worktree_cleans : calm.

Lemma merge_commits_calm commits label : calm I X (merge_commits cfg commits label).
Proof using I_ext Xc Xe.
  unfold merge_commits. apply (calm_bind I); [calm|]. intros ?.
  apply (calm_finally I); [calm|calm|apply remove_worktree_cleans].
Qed.
Hint Resolve merge_commits_calm : calm.

Lemma node_base_calm node : calm I X (node_base cfg node).
Proof using I_ext Xc Xe. unfold node_base. calm. Qed.
Hint Resolve node_base_calm : calm.

End finalizers.
End any.

Hint Resolve runner_calm git_call_calm git_head_calm remove_worktree_calm add_worktree_calm
  changed_files_calm commit_all_calm named_gate_fails_calm run_gate_calm run_gates_calm
  repo_gates_calm format_targets_calm repair_formatting_calm ownership_barrier_calm
  check_blocker_calm commit_permit_calm prompt_text_calm session_feedback_calm
  revoked_in_flight_calm wait_cooldown_calm remove_worktree_cleans merge_commits_calm
  node_base_calm : calm.

Lemma git_call_cleans (X : exn -> Prop) args cwd timeout :
  X CancelledError -> (forall e, X (Env e)) -> (forall m, X (run_orch_error m)) ->
  cleans X (git_call args cwd timeout).
Proof using Type.
  intros Xc Xe Xo. unfold git_call, runner. apply cleans_bind; [by apply cleans_await|].
  intros [code out]. destruct (code =? 0); [done|]. intros h. by split.
Qed.

Section finalized.
Context (X : exn -> Prop) (Xc : X CancelledError) (Xe : forall e, X (Env e)).

(** The [finally] of [_gate_fails_on_base] *)
Lemma drop_branch_cleans scratch args :
  cleans X (remove_worktree cfg scratch ;;
            try_except (git_call args (cf_repo cfg) 120 ;; Ret tt)
              (fun e => if is_orchestration_error e then Some (Ret tt) else None)).
Proof using Xc Xe.
  apply cleans_bind; [by apply remove_worktree_cleans|]. intros _.
  apply (cleans_try (fun e => X e \/ is_orchestration_error e = true)).
  - apply cleans_bind; [|done]. apply git_call_cleans; cbn; auto.
  - intros e [?|E]; [done|]. by rewrite E.
  - intros e t'. destruct (is_orchestration_error e); [|done]. by intros [= <-].
Qed.

Lemma gate_fails_on_base_calm reason base : calm I X (gate_fails_on_base cfg reason base).
Proof using I_ext Xc Xe.
  unfold gate_fails_on_base. cbv zeta. apply (calm_bind I); [calm|]. intros tag.
  apply (calm_bind I); [calm|]. intros _. apply (calm_finally I); [..|apply drop_branch_cleans].
  - apply (calm_try I only_cancel).
    + apply (calm_bind I); [calm|]. intros gs. by apply named_gate_fails_calm.
    + by intros e ->.
    + intros e t' _. destruct e as [|[]|[]| | |]; cbn; intros; simplify_eq; calm.
  - apply (calm_bind I); [calm|]. intros _. apply (calm_try I only_cancel).
    + apply (calm_bind I); [by apply git_call_calm|]. intros ?. apply (calm_ret I).
    + by intros e ->.
    + intros e t' _. destruct (is_orchestration_error e); intros; simplify_eq. calm.
Qed.
Hint Resolve gate_fails_on_base_calm : calm.

Lemma introduced_failure_calm failed base : calm I X (introduced_failure cfg failed base).
Proof using I_ext Xc Xe. induction failed; cbn [introduced_failure]; calm. Qed.

End finalized.
End helpers.

#[export] Hint Resolve runner_calm git_call_calm git_head_calm remove_worktree_calm
  add_worktree_calm changed_files_calm commit_all_calm named_gate_fails_calm run_gate_calm
  run_gates_calm repo_gates_calm format_targets_calm repair_formatting_calm
  ownership_barrier_calm check_blocker_calm commit_permit_calm prompt_text_calm
  session_feedback_calm revoked_in_flight_calm wait_cooldown_calm remove_worktree_cleans
  merge_commits_calm node_base_calm gate_fails_on_base_calm introduced_failure_calm : calm.

#[export] Hint Extern 0 (exit_ok _) => first [by left | by right] : calm core.
#[export] Hint Extern 0 (forall _, exit_ok _) => intros ?; first [by left | by right] : calm.
#[export] Hint Extern 0 (cancel_or_env CancelledError) => left; reflexivity : calm.
#[export] Hint Extern 0 (forall _, cancel_or_env (Env _)) => intros ?; right; eexists; reflexivity : calm.
#[export] Hint Extern 0 (Stable _) => apply _ : calm.
