(* ===== verification/RuntimeDriver.v ===== *)
(** The drivers of [Runtime] against their specification.

    [good n] is what holds of the [NodeRun] of node [n] and of its trace at every suspension
    and at the end of its driver: attempts and sends are bounded, every send was checked, and
    a validated node has its evidence. [drive_spec]: a driver that starts on a planned node
    ends with the node validated or blocked, holding nothing, and can only crash on an
    exception of the environment or of git. *)
From S2P Require Import Prelude PyStr Contracts Providers Recovery Ladder Async Runtime Scheduler.
From S2P Require Import RuntimeLogic.

(** * Specifications

    [spec J h P t Q]: from [P] and the invariant, holding [h], the task keeps the invariant,
    ends holding [h], and returns with [Q]. *)
Section spec.
Context (J : NodeRun -> list obs -> Prop).

Definition spec {A} (h : list resource) (P : NodeRun -> list obs -> Prop) (t : prog A)
    (Q : A -> NodeRun -> list obs -> Prop) : Prop :=
  forall l, P (l_run l) (l_trace l) -> inv J l -> l_held l = h ->
  wp J exit_ok h t
    (fun a l' => Q a (l_run l') (l_trace l') /\ inv J l' /\ l_held l' = h)
    (fun e l' => inv J l' /\ l_held l' = h /\ crash_ok e) l.

Lemma spec_mono {A} h (P P' : NodeRun -> list obs -> Prop) (t : prog A) (Q Q' : A -> NodeRun -> list obs -> Prop) :
  (forall r tr, P' r tr -> J r tr -> P r tr) -> (forall a r tr, Q a r tr -> J r tr -> Q' a r tr) ->
  spec h P t Q -> spec h P' t Q'.
Proof.
  intros HP HQ H l Hl Hi Hh. eapply wp_mono; [| | |apply (H l); auto]; [done| |done].
  intros a l' (? & ? & ?). eauto.
Qed.

Lemma spec_bind {A B} h P (t : prog A) R (f : A -> prog B) Q :
  spec h P t R -> (forall a, spec h (R a) (f a) Q) -> spec h P (t ≫= f) Q.
Proof.
  intros Ht Hf l Hl Hi Hh. apply wp_bind. eapply wp_mono; [| | |apply (Ht l); auto]; [done| |done].
  intros a l' (? & ? & ?). by apply Hf.
Qed.

Lemma spec_ret {A} h (P : NodeRun -> list obs -> Prop) (a : A) (Q : A -> NodeRun -> list obs -> Prop) :
  (forall r tr, P r tr -> J r tr -> Q a r tr) -> spec h P (Ret a) Q.
Proof. intros HQ l Hl Hi Hh. cbn. auto. Qed.

Lemma spec_get {A} h P (f : NodeRun -> prog A) Q :
  (forall r0, spec h (fun r tr => P r tr /\ r = r0) (f r0) Q) -> spec h P (r ← get_run; f r) Q.
Proof. intros Hf l Hl Hi Hh. exact (Hf (l_run l) l (conj Hl eq_refl) Hi Hh). Qed.

Lemma spec_modify h (P : NodeRun -> list obs -> Prop) g (Q : unit -> NodeRun -> list obs -> Prop) :
  (forall r, nr_state (g r) = nr_state r) ->
  (forall r tr, P r tr -> J r tr -> J (g r) tr /\ Q tt (g r) tr) -> spec h P (modify g) Q.
Proof.
  intros Hs HQ l Hl Hi Hh. cbn. destruct (HQ _ _ Hl Hi).
  split; [by rewrite Hs|]. split; [done|by split].
Qed.

Lemma spec_put h (P : NodeRun -> list obs -> Prop) r' (Q : unit -> NodeRun -> list obs -> Prop) :
  (forall r tr, P r tr -> J r tr -> nr_state r' = nr_state r /\ J r' tr /\ Q tt r' tr) ->
  spec h P (put_run r') Q.
Proof.
  intros HQ l Hl Hi Hh. cbn. destruct (HQ _ _ Hl Hi) as (-> & ? & ?).
  split; [done|]. split; [done|by split].
Qed.

Lemma spec_inflight h P i : spec h P (perform (SetInflight i)) (fun _ => P).
Proof. intros l Hl Hi Hh. cbn. auto. Qed.

Lemma spec_capacity h P c : spec h P (perform (SetCapacity c)) (fun _ => P).
Proof. intros l Hl Hi Hh. cbn. auto. Qed.

Context {J_ext : Stable J}.

Lemma spec_calm {A} h P `{!Stable P} (t : prog A) : calm J exit_ok t -> spec h P t (fun _ => P).
Proof.
  intros Ht l Hl Hi Hh. eapply (wp_calm J); [exact Ht|done|done|..].
  - intros a l' Hx Hi'. split_and!; [|done|by destruct Hx as (_ & -> & _)].
    destruct Hx as (-> & _ & Hx). by apply (Stable0 _ _ _ Hl).
  - intros e l' Hx Hi' He. split_and!; [done|by destruct Hx as (_ & -> & _)|done].
Qed.

Lemma spec_emit h P `{!Stable P} type nid data : spec h P (emit type nid data) (fun _ => P).
Proof. apply spec_calm; [done|]. apply (calm_emit J). Qed.

Lemma got_recent tr o : is_send o = false -> o ∈ recent (tr ++ [o]).
Proof using Type. intros Ho. rewrite recent_snoc, Ho. apply elem_of_app. right. by left. Qed.

Lemma spec_call h P `{!Stable P} q :
  no_send q -> spec h P (call q) (fun a r tr => P r tr /\ OGot q a ∈ recent tr).
Proof.
  intros Hq l Hl Hi Hh. cbn.
  assert (Hx : forall o, is_send o = false -> extends (l_trace l) ((l_trace l ++ [OAsk q]) ++ [o]))
    by auto with calm.
  assert (Hi' : forall o, is_send o = false -> inv J (l_obs o (l_obs (OAsk q) l))).
  { intros o Ho. apply (J_ext _ _ _ Hi). cbn. auto. }
  split; [done|]. split; intros a.
  - split; [|split; [by apply Hi'|done]].
    split; [by apply (Stable0 _ _ _ Hl), Hx|by apply got_recent].
  - split; [by apply Hi'|done].
Qed.

Lemma spec_await h P `{!Stable P} q :
  no_send q -> spec h P (await q) (fun a r tr => P r tr /\ OGot q a ∈ recent tr).
Proof.
  intros Hq l Hl Hi Hh. cbn.
  assert (Hx : forall o, is_send o = false -> extends (l_trace l) ((l_trace l ++ [OAsk q]) ++ [o]))
    by auto with calm.
  assert (Hi' : forall o, is_send o = false -> inv J (l_obs o (l_obs (OAsk q) l))).
  { intros o Ho. apply (J_ext _ _ _ Hi). cbn. auto. }
  split; [unfold slotted; congruence|]. split; [apply (J_ext _ _ _ Hi); cbn; auto with calm|].
  split; [intros a|split; [intros e|by split; [left|]]].
  - split; [|split; [by apply Hi'|done]].
    split; [by apply (Stable0 _ _ _ Hl), Hx|by apply got_recent].
  - split; [by apply Hi'|done].
Qed.

(** A task that ends in [finally: f] *)
Lemma spec_finally {A} h P (t : prog A) f Q :
  spec h P t Q -> calm J exit_ok f -> cleans exit_ok f -> (forall a, Stable (Q a)) ->
  spec h P (try_finally t f) Q.
Proof.
  intros Ht Hf Hc HQ l Hl Hi Hh. apply (wp_try_finally J exit_ok h h); [|intros; apply Hc].
  eapply wp_mono; [| | |by apply (Ht l)]; [done|..].
  - intros a l' (Ha & Hi' & Hh'). eapply (wp_calm J); [exact Hf|done|done|..].
    + intros _ l'' (Er & Eh & Hx) Hi''. split; [|split; [done|congruence]]. rewrite Er. by apply (HQ _ _ _ _ Ha).
    + intros e l'' (_ & Eh & _) Hi'' He. split; [done|split; [congruence|done]].
  - intros e l' (Hi' & Hh' & He). eapply (wp_calm J); [exact Hf|done|done|..];
      intros ? l'' (_ & Eh & _) Hi''; intros; (split; [done|split; [congruence|done]]).
Qed.

Lemma spec_on_error {A} h P (t : prog A) f Q :
  spec h P t Q -> calm J exit_ok f -> cleans exit_ok f -> spec h P (on_error t f) Q.
Proof.
  intros Ht Hf Hc l Hl Hi Hh. apply wp_on_error; [|intros; apply Hc].
  eapply wp_mono; [| | |by apply (Ht l)]; [done|done|].
  intros e l' (Hi' & Hh' & He). eapply (wp_calm J); [exact Hf|done|done|..];
    intros ? l'' (_ & Eh & _) Hi''; intros; (split; [done|split; [congruence|done]]).
Qed.

Lemma spec_with {A} h P r (t : prog A) Q : spec (r :: h) P t Q -> spec h P (async_with r t) Q.
Proof using Type.
  intros Ht l Hl Hi <-. apply wp_async_with; [done|by left|].
  eapply wp_mono; [| | |by apply (Ht (l_hold (r :: l_held l) l))]; [done|..]; cbn.
  - intros a l' (? & ? & Hh). rewrite Hh, drop_one_cons. auto.
  - intros e l' (? & Hh & ?). rewrite Hh, drop_one_cons. auto.
Qed.

Lemma spec_set_state h (P : NodeRun -> list obs -> Prop) st data (R : NodeRun -> list obs -> Prop) :
  (forall r tr, P r tr -> J r tr ->
     st ∈ TRANSITIONS (nr_state r) /\ J (with_state st r) tr /\ R (with_state st r) tr) ->
  Stable R -> spec h P (set_state st data) (fun _ => R).
Proof.
  intros H HR. unfold set_state. apply spec_get. intros r0.
  intros l [Hl <-] Hi Hh. destruct (H _ _ Hl Hi) as (Ht & Hj & Hr).
  assert (nr_state (l_run l) <> NodeState.VALIDATED) by (intros E; rewrite E in Ht; by inversion Ht).
  apply check_transition_ok in Ht. rewrite Ht. cbn.
  split; [done|]. split; [|split; [|done]].
  - apply (HR _ _ _ Hr). auto with calm.
  - apply (J_ext _ _ _ Hj). cbn. auto with calm.
Qed.

End spec.

(** * What holds of a node and its trace *)

Section driver.
Context (cfg : Config) (n : WorkNode).

Definition is_integration (n : WorkNode) : bool :=
  bool_decide (kind n = NodeKind.INTEGRATE) || bool_decide (kind n = NodeKind.REVIEW).

(** The blocker check of a route came back clear since the last send. *)
Definition cleared (route : string) (tr : list obs) : Prop :=
  exists now b, OGot (QBlocker route now) b ∈ recent tr /\ (b = None \/ b = Some "").

(** Since the last send, a permit for the route was committed under the id of the attempt, by
    a gateway that is the one the authority binds. *)
Definition permitted (bound route : string) (attempt : Z) (tr : list obs) : Prop :=
  (exists nid cwd o, OGot (QOrigin nid route cwd) (Some o) ∈ recent tr /\
     gateway_origin_matches o bound = true) /\
  exists p deadline permit,
    OGot (QCommitPermit p (permit_attempt_id cfg (node_id n) attempt) deadline) (Some permit) ∈ recent tr /\
    ap_route_id p = route.

(** The checks a send needs, all made since the previous send *)
Definition send_checked (prompt route attempt_id : string) (tr : list obs) : Prop :=
  OGot (QLaunchable route) tt ∈ recent tr /\ cleared route tr /\
  Z.of_nat (String.length prompt) <= context_budget_bytes (cf_policy cfg) /\
  exists attempt, attempt_id = node_id n +:+ "-a" +:+ str_of_Z attempt /\
  match cf_authority cfg with
  | Some bound => permitted bound route attempt tr
  | None => require_dispatch_permit (cf_policy cfg) = false
  end.

(** Every send of the trace was checked. *)
Inductive gated : list obs -> Prop :=
| gated_nil : gated []
| gated_other tr o : is_send o = false -> gated tr -> gated (tr ++ [o])
| gated_send tr prompt route cwd timeout id :
    send_checked prompt route id tr -> gated tr ->
    gated (tr ++ [OAsk (QExecute prompt route cwd timeout id)]).

(** The verification command of the node exited 0. *)
Definition verified (tr : list obs) : Prop :=
  verification_command n = [] \/
  exists argv cwd timeout out,
    OGot (QResolveVerify (verification_command n)) argv ∈ recent tr /\
    OGot (QRun argv cwd timeout) (0, out) ∈ recent tr.

(** The worker answered the last send: it did not fail and did not report itself blocked. *)
Definition answered (tr : list obs) : Prop :=
  exists prompt route cwd timeout id t,
    OGot (QExecute prompt route cwd timeout id) t ∈ recent tr /\
    wt_ok t = true /\ strip (wt_output t) <> "" /\ blocked_report (wt_output t) = "".

(** Git lists the changed files, and the node owns them all, when it is an implement node or
    one that owns no files (which then changed none); [validate] does not ask it of a node of
    another kind that lists owned files ([owned_files_unchecked]). *)
Definition contained (tr : list obs) : Prop :=
  kind n = NodeKind.IMPLEMENT \/ owned_files n = [] ->
  exists base cwd timeout out,
    OGot (QRun ["git"; "diff"; "--cached"; "--name-only"; base] cwd timeout) (0, out) ∈ recent tr /\
    forall p, p ∈ nonblank_lines (strip out) -> owns n p = true.

Definition evidence (tr : list obs) : Prop :=
  verified tr /\ (is_integration n = false -> answered tr /\ contained tr).

(** The sends of the trace carry the ids of attempts up to [k], each larger than the one
    before: no attempt sends twice. *)
Definition attempt_name (k : Z) : string := node_id n +:+ "-a" +:+ str_of_Z k.

Definition numbered (k : Z) (tr : list obs) : Prop :=
  exists ks, send_ids tr = map attempt_name ks /\ StronglySorted Z.lt ks /\
    Forall (fun a => 1 <= a <= k) ks.

Record good (r : NodeRun) (tr : list obs) : Prop := {
  g_node : nr_node r = n;
  g_sends : Z.of_nat (sends tr) <= nr_attempt r;
  g_numbered : numbered (nr_attempt r) tr;
  g_silent : is_integration n = true -> sends tr = 0%nat;
  g_attempts : is_integration n = false -> nr_attempt r <= Z.max 0 (rp_max_attempts (cf_policy cfg));
  g_budget : nr_context_budget r = 0 \/ nr_context_budget r <= context_budget_bytes (cf_policy cfg);
  g_gated : gated tr;
  g_evidence : nr_state r = NodeState.VALIDATED -> evidence tr
}.

(** ** Stability *)

Lemma numbered_mono k k' tr : numbered k tr -> k <= k' -> numbered k' tr.
Proof using Type.
  intros (ks & E & Hs & Hk) Hle. exists ks. split_and!; [done|done|].
  eapply Forall_impl; [exact Hk|]. cbn. lia.
Qed.

Lemma numbered_extends k tr tr' : numbered k tr -> extends tr tr' -> numbered k tr'.
Proof using Type. unfold numbered. intros H Hx. by rewrite (extends_send_ids _ _ Hx). Qed.

Lemma attempt_numbered k k' tr prompt route cwd timeout : numbered k tr -> k < k' -> 1 <= k' ->
  numbered k' (tr ++ [OAsk (QExecute prompt route cwd timeout (attempt_name k'))]).
Proof using Type.
  intros (ks & E & Hs & Hk) Hlt H1. exists (ks ++ [k']). rewrite send_ids_app, E, map_app.
  split_and!; [done| |].
  - clear E. induction Hs as [|x ks Hs IH Hx]; cbn; [by repeat constructor|].
    apply Forall_cons in Hk as [? Hk]. constructor; [by apply IH|].
    apply Forall_app. split; [done|]. constructor; [lia|done].
  - apply Forall_app. split; [|by repeat constructor; lia].
    eapply Forall_impl; [exact Hk|]. cbn. lia.
Qed.

Lemma gated_extends tr tr' : gated tr -> extends tr tr' -> gated tr'.
Proof using Type.
  intros Ht (seg & -> & H). induction seg as [|o seg IH] using rev_ind; [by rewrite app_nil_r|].
  apply Forall_app in H as [? H]. inversion H; subst. rewrite app_assoc. constructor; auto.
Qed.

Ltac mono Hx := repeat match goal with
  | H : _ /\ _ |- _ => destruct H
  | H : exists _, _ |- _ => destruct H
  end; repeat first [eexists | split]; try (apply Hx; eassumption); try eassumption.

#[local] Instance cleared_stable route : Stable (fun _ => cleared route).
Proof using Type. intros r tr tr' H Hx%extends_recent. unfold cleared in *. mono Hx. Qed.

#[local] Instance permitted_stable bound route a : Stable (fun _ => permitted bound route a).
Proof using Type. intros r tr tr' H Hx%extends_recent. unfold permitted in *. mono Hx. Qed.

#[local] Instance verified_stable : Stable (fun _ => verified).
Proof using Type. intros r tr tr' [H|H] Hx%extends_recent; [by left|]. right. mono Hx. Qed.

#[local] Instance answered_stable : Stable (fun _ => answered).
Proof using Type. intros r tr tr' H Hx%extends_recent. unfold answered in *. mono Hx. Qed.

#[local] Instance contained_stable : Stable (fun _ => contained).
Proof using Type. intros r tr tr' H Hx%extends_recent Hk. specialize (H Hk). mono Hx. Qed.

#[local] Instance evidence_stable : Stable (fun _ => evidence).
Proof using Type.
  intros r tr tr' [Hv H] Hx. split; [by eapply (verified_stable r)|].
  intros Hi. destruct (H Hi). split; [by eapply (answered_stable r)|by eapply (contained_stable r)].
Qed.

#[global] Instance good_stable : Stable good.
Proof using Type.
  intros r tr tr' [] Hx. constructor; try done.
  - by rewrite (extends_sends _ _ Hx).
  - by eapply numbered_extends.
  - by rewrite (extends_sends _ _ Hx).
  - by eapply gated_extends.
  - intros Hs. eapply (evidence_stable r); eauto.
Qed.

(** [good] reads the node, the attempt, the context budget and whether it is validated. *)
Lemma good_same r r' tr :
  good r tr -> nr_node r' = nr_node r -> nr_attempt r' = nr_attempt r ->
  nr_context_budget r' = nr_context_budget r ->
  (nr_state r' = NodeState.VALIDATED -> nr_state r = NodeState.VALIDATED) -> good r' tr.
Proof using Type. intros [] En Ea Eb Es. constructor; rewrite ?En, ?Ea, ?Eb; auto. Qed.

#[local] Instance run_stable (P : NodeRun -> Prop) : Stable (fun r _ => P r).
Proof using Type. by intros r tr tr' ? _. Qed.

#[local] Instance and_stable P Q : Stable P -> Stable Q -> Stable (fun r tr => P r tr /\ Q r tr).
Proof using Type. intros HP HQ r tr tr' [? ?] Hx. split; [by eapply HP|by eapply HQ]. Qed.

#[local] Instance recent_stable (f : NodeRun -> obs) : Stable (fun r tr => f r ∈ recent tr).
Proof using Type. intros r tr tr' H Hx. by apply (extends_recent _ _ Hx). Qed.

#[local] Instance sends_stable (P : NodeRun -> nat -> Prop) : Stable (fun r tr => P r (sends tr)).
Proof using Type. intros r tr tr' H Hx. by rewrite (extends_sends _ _ Hx). Qed.

#[local] Instance ex_stable {A} (P : A -> NodeRun -> list obs -> Prop) :
  (forall a, Stable (P a)) -> Stable (fun r tr => exists a, P a r tr).
Proof using Type. intros HP r tr tr' [a ?] Hx. exists a. by eapply HP. Qed.

#[local] Instance impl_stable (F : Prop) P : Stable P -> Stable (fun r tr => F -> P r tr).
Proof using Type. intros HP r tr tr' H Hx ?. eapply HP; eauto. Qed.

Abbreviation specs := (spec good).

Ltac spec_step :=
  lazymatch goal with
  | |- spec _ _ _ (get_run ≫= _) _ => apply spec_get; intros ?
  | |- spec _ _ _ (emit _ _ _ ≫= _) _ => eapply spec_bind; [apply spec_emit; apply _|intros ?]
  | |- spec _ _ _ (call _ ≫= _) _ => eapply spec_bind; [apply spec_call; [apply _..|done]|intros ?]
  | |- spec _ _ _ (await _ ≫= _) _ => eapply spec_bind; [apply spec_await; [apply _..|done]|intros ?]
  | |- spec _ _ _ (let _ := _ in _) _ => cbv zeta
  end.

Section ghost.
Context (h : list resource) (P : NodeRun -> list obs -> Prop) `{!Stable P}.

Lemma git_call_spec args cwd timeout :
  specs h P (git_call args cwd timeout) (fun out r tr =>
    P r tr /\ exists raw, out = strip raw /\ OGot (QRun ("git" :: args) cwd timeout) (0, raw) ∈ recent tr).
Proof using Stable0.
  unfold git_call, runner. spec_step. destruct a as [code raw].
  destruct (Z.eqb_spec code 0) as [->|]; [apply spec_ret; naive_solver|].
  intros l [Hl _] Hi Hh. cbn. split_and!; [done|done|apply git_error_ok].
Qed.

Lemma changed_files_spec cwd base owned :
  specs h P (changed_files cwd base owned) (fun changed r tr =>
    P r tr /\ exists raw, changed = nonblank_lines (strip raw) /\
    OGot (QRun ["git"; "diff"; "--cached"; "--name-only"; base] cwd 120) (0, raw) ∈ recent tr).
Proof using Stable0.
  unfold changed_files. eapply spec_bind; [apply spec_calm; [apply _..|by apply calm_call]|intros ?].
  cbv zeta. eapply spec_bind; [apply spec_calm; [apply _..|by apply git_call_calm; [apply _|]]|intros ?].
  eapply spec_bind; [apply spec_calm; [apply _..|]|intros ?].
  { unfold stage_owned. calm. }
  eapply spec_bind; [apply git_call_spec|]. intros out. apply spec_ret. naive_solver.
Qed.

Definition owned_paths (changed : list string) : Prop :=
  kind n = NodeKind.IMPLEMENT \/ owned_files n = [] -> forall p, p ∈ changed -> owns n p = true.

Lemma ownership_barrier_spec changed :
  specs h P (ownership_barrier n changed) (fun o r tr => P r tr /\ (o = None -> owned_paths changed)).
Proof using Stable0.
  unfold ownership_barrier. case_bool_decide as Hk; cbv zeta.
  - spec_step. case_bool_decide as Ho.
    + assert (Hown : owned_paths changed).
      { intros _ p Hp. destruct (owns n p) eqn:E; [done|].
        assert (Hin : p ∈ List.filter (fun p => negb (owns n p)) changed)
          by (apply elem_of_lfilter; by rewrite E).
        rewrite Ho in Hin. by apply not_elem_of_nil in Hin. }
      eapply spec_bind with (R := fun _ => P).
      * case_bool_decide; [apply spec_emit; apply _|apply spec_ret; auto].
      * intros _. apply spec_ret. auto.
    + apply spec_ret. done.
  - destruct (bool_decide (owned_files n = [])) eqn:Hof; cbn [andb];
      [destruct (bool_decide (changed = [])) eqn:Hc; cbn [negb]|].
    + apply spec_ret. intros r tr ? _. split; [done|]. intros _ _ p Hp. bool_hyps. subst.
      by apply not_elem_of_nil in Hp.
    + spec_step. by apply spec_ret.
    + apply spec_ret. intros r tr ? _. split; [done|]. intros _ [?|?]; [done|]. by bool_hyps.
Qed.

End ghost.

Lemma validate_spec h P `{!Stable P} worktree base :
  specs h P (validate cfg n worktree base) (fun o r tr =>
    P r tr /\ (o = None -> verified tr /\ contained tr)).
Proof using Type.
  unfold validate. eapply spec_bind; [by apply changed_files_spec|]. intros changed.
  eapply spec_bind; [apply ownership_barrier_spec; apply _|]. intros [reason|].
  { apply spec_ret. naive_solver. }
  eapply spec_mono with (P := fun r tr => P r tr /\ contained tr); [|intros a r tr H _; exact H|].
  { intros r tr ([HP (raw & -> & Hg)] & Ho) _. split; [done|]. intros Hk.
    do 4 eexists. split; [exact Hg|]. by apply Ho. }
  case_bool_decide as Hv.
  { spec_step. apply spec_ret. intros r tr [? ?] _. split; [done|]. intros _. split; [by left|done]. }
  spec_step. unfold runner. eapply spec_bind; [apply spec_await; [apply _..|done]|]. intros [code out].
  spec_step. destruct (Z.eqb_spec code 0) as [->|]; cbn [negb]; [|apply spec_ret; naive_solver].
  eapply spec_mono with (P := fun r tr => P r tr /\ verified tr /\ contained tr)
                        (Q := fun _ r tr => P r tr /\ verified tr /\ contained tr);
    [|naive_solver|].
  { intros r tr ([[? ?] ?] & Hr) _. split_and!; try done. right. eauto 10. }
  apply spec_calm; [apply _..|]. calm.
Qed.

(** ** Failures *)

Definition fb_ok (r : NodeRun) : Prop := nr_failure_feedback r = "" \/ nr_failures r <> [].

(** Attempt [a] of a worker node has not sent anything yet. *)
Definition unsent (a : Z) (tr : list obs) : Prop :=
  is_integration n = false /\ Z.of_nat (sends tr) <= a - 1 /\ numbered (a - 1) tr.

(** The route is bound for attempt [a], which has not sent anything yet. *)
Definition bound (st : NodeState.t) (a : Z) (r : NodeRun) (tr : list obs) : Prop :=
  nr_state r = st /\ nr_attempt r = a /\ fb_ok r /\ unsent a tr /\
  OGot (QLaunchable (nr_route_id r)) tt ∈ recent tr.

Definition in_state (st : NodeState.t) (a : Z) (r : NodeRun) : Prop :=
  nr_state r = st /\ nr_attempt r = a.

(** Attempt [a] failed, and the failure is recorded. *)
Definition failed_at (a : Z) (r : NodeRun) : Prop :=
  (nr_state r = NodeState.TERMINAL_FAILURE \/ nr_state r = NodeState.REJECTED) /\
  nr_attempt r = a /\ nr_failures r <> [].

Definition closed (r : NodeRun) : Prop :=
  nr_state r = NodeState.VALIDATED \/ nr_state r = NodeState.BLOCKED.

#[local] Instance bound_stable st a : Stable (bound st a).
Proof using Type.
  intros r tr tr' (? & ? & ? & (? & ? & ?) & ?) Hx. split_and!; try done.
  - split_and!; [done|by rewrite (extends_sends _ _ Hx)|by eapply numbered_extends].
  - by apply (extends_recent _ _ Hx).
Qed.

#[local] Instance cleared_run_stable : Stable (fun r => cleared (nr_route_id r)).
Proof using Type. intros r. apply (cleared_stable (nr_route_id r) r). Qed.

(** A field update that [good] does not read *)
Ltac same := intros; destruct_and?; split;
  [eapply good_same; [eassumption|..]; cbn in *; intuition congruence | cbn in *; auto].

(** An assignment that neither [good] nor the assertion reads *)
Ltac keep :=
  apply spec_modify; [done|];
  let r := fresh in let tr := fresh in let Hp := fresh in let Hg := fresh in
  intros r tr Hp Hg; destruct_and? Hp; split; [eapply good_same; [exact Hg|..]; done|];
  by split_and?.

Lemma spec_pure {A} h (P : NodeRun -> list obs -> Prop) (F : Prop) (t : prog A) Q :
  (forall r tr, P r tr -> good r tr -> F) -> (F -> specs h P t Q) -> specs h P t Q.
Proof using Type. intros HF H l Hl Hi Hh. by apply H; [eapply HF|..]. Qed.

Lemma add_history_spec h (P : NodeRun -> Prop) outcome commit :
  (forall r x, P r -> P (with_history x r)) ->
  specs h (fun r _ => P r) (add_history outcome commit) (fun _ r _ => P r).
Proof using Type. intros HP. unfold add_history. apply spec_modify; [done|]. same. Qed.

Section record.
Context (h : list resource) (a : Z).

Lemma record_failure_spec s terminal (validated : bool) given :
  let target := if validated then NodeState.REJECTED else NodeState.TERMINAL_FAILURE in
  target ∈ TRANSITIONS s ->
  specs h (fun r _ => in_state s a r) (record_run_failure cfg terminal validated given)
    (fun _ r _ => in_state target a r /\ nr_failures r <> []).
Proof using Type.
  intros target Ht. unfold record_run_failure.
  eapply spec_bind with (R := fun _ r _ => in_state s a r).
  { destruct given; [by apply spec_ret|]. apply spec_calm; [apply _..|]. calm. }
  intros f. eapply spec_bind with (R := fun _ r _ => in_state s a r /\ nr_failures r <> []).
  { apply spec_modify; [done|]. intros r tr Hr Hg. split.
    - eapply good_same; [exact Hg|..]; cbn; done.
    - split; [exact Hr|]. cbn. by destruct (nr_failures r). }
  intros ?. eapply spec_bind with (R := fun _ r _ => in_state target a r /\ nr_failures r <> []).
  { apply spec_set_state; [apply _| |apply _]. intros r tr [[-> ?] ?] Hg. split; [exact Ht|].
    split; [|done]. eapply good_same; [exact Hg|..]; cbn; try done. by destruct validated. }
  intros ?. spec_step. eapply spec_mono with (P := fun r _ => in_state target a r /\ nr_failures r <> []);
    [naive_solver|intros ? ? ? H _; exact H|].
  spec_step. eapply spec_bind; [apply spec_calm; [apply _..|]|intros ?].
  { calm. }
  eapply spec_bind; [apply spec_calm; [apply _..|]|intros ?].
  { calm. }
  by apply (add_history_spec h (fun r => in_state target a r /\ nr_failures r <> [])).
Qed.

Lemma salvage_spec (P : NodeRun -> Prop) node worktree terminal :
  (forall r x, P r -> P (with_history x r)) ->
  specs h (fun r _ => P r) (salvage_work cfg node worktree terminal) (fun _ r _ => P r).
Proof using Type.
  intros HP. unfold salvage_work. destruct (bool_decide _); [by apply spec_ret|].
  eapply spec_bind; [apply spec_calm; [apply _..|]; calm|intros there].
  destruct (_ && _); [|by apply spec_ret].
  eapply spec_bind; [apply spec_calm; [apply _..|]; calm|intros base].
  eapply spec_bind; [apply spec_calm; [apply _..|]; calm|intros changed].
  cbv zeta. eapply spec_bind; [apply spec_calm; [apply _..|]; calm|intros [[saved skipped] error]].
  destruct (_ && _); [by apply spec_ret|]. spec_step. by apply add_history_spec.
Qed.

Lemma fail_attempt_spec s terminal worktree (validated : bool) :
  (if validated then NodeState.REJECTED else NodeState.TERMINAL_FAILURE) ∈ TRANSITIONS s ->
  specs h (fun r _ => in_state s a r) (fail_attempt cfg terminal worktree validated)
    (fun b r _ => b = false /\ failed_at a r).
Proof using Type.
  intros Ht. unfold fail_attempt.
  eapply spec_bind with (R := fun _ r _ => failed_at a r); [|intros ?; by apply spec_ret].
  apply spec_finally; [apply _| |calm|auto with calm|intros ?; apply _].
  eapply spec_bind with (R := fun _ r _ => failed_at a r).
  { eapply spec_mono; [| |by apply (record_failure_spec s)]; [done|].
    intros ? r tr [[Hs Ha] Hf] _. unfold failed_at. rewrite Hs. destruct validated; auto. }
  intros ?. spec_step. eapply spec_bind with (R := fun _ r _ => failed_at a r).
  - apply (spec_pure _ _ (nr_failures r0 <> [])); [by intros r tr [[_ [_ ?]] <-]|]. intros Hf.
    eapply spec_mono with (P := fun r _ => failed_at a r); [naive_solver|intros ? ? ? H _; exact H|].
    apply spec_calm; [apply _..|]. destruct (nr_permit r0); [|calm].
    destruct (last (nr_failures r0)) eqn:El; [|by apply last_None in El]. calm.
  - intros ?. by apply salvage_spec.
Qed.

Lemma settle_denied_spec category action reason worktree :
  specs h (fun r _ => in_state NodeState.RUNNING a r) (settle_denied cfg category action reason worktree)
    (fun _ r _ => closed r).
Proof using Type.
  unfold settle_denied. eapply spec_bind; [apply (record_failure_spec NodeState.RUNNING _ false); set_solver|].
  intros ?. eapply spec_bind with (R := fun _ r _ => in_state NodeState.TERMINAL_FAILURE a r).
  { apply spec_modify; [done|]. intros r tr [[? ?] ?] Hg. split; [|done]. eapply good_same; [exact Hg|..]; done. }
  intros ?. eapply spec_bind with (R := fun _ r _ => closed r).
  { apply spec_set_state; [apply _| |apply _]. intros r tr [-> ?] Hg. split; [set_solver|].
    split; [|by right]. eapply good_same; [exact Hg|..]; done. }
  intros ?. apply spec_calm; [apply _..|]. calm.
Qed.
End record.

(** ** One attempt *)

(** The authority's conditions on a send of attempt [a] *)
Definition authorized (a : Z) (route : string) (tr : list obs) : Prop :=
  match cf_authority cfg with
  | Some b => permitted b route a tr
  | None => require_dispatch_permit (cf_policy cfg) = false
  end.

#[local] Instance authorized_stable a : Stable (fun r => authorized a (nr_route_id r)).
Proof using Type.
  intros r tr tr' H Hx. unfold authorized in *. destruct (cf_authority cfg); [|done].
  by eapply (permitted_stable _ _ _ r).
Qed.

Definition ready_to_send (a : Z) (r : NodeRun) (tr : list obs) : Prop :=
  bound NodeState.RUNNING a r tr /\ cleared (nr_route_id r) tr.

#[local] Instance ready_stable a : Stable (ready_to_send a).
Proof using Type. unfold ready_to_send. apply _. Qed.

Lemma bound_with_state st st' a r tr : bound st a r tr -> bound st' a (with_state st' r) tr.
Proof using Type. intros (? & ? & ? & ? & ?). by split_and!. Qed.

Section attempt.
Context (h : list resource) (a : Z).

Lemma hydrate_spec worktree :
  specs h (fun r tr => bound NodeState.ADMITTED a r tr /\ cleared (nr_route_id r) tr)
    (hydrate cfg worktree)
    (fun o r tr => match o with
                   | Some prompt => ready_to_send a r tr /\
                       Z.of_nat (String.length prompt) <= context_budget_bytes (cf_policy cfg)
                   | None => closed r
                   end).
Proof using Type.
  unfold hydrate.
  eapply spec_bind with (R := fun _ r tr => bound NodeState.DISPATCHED a r tr /\ cleared (nr_route_id r) tr).
  { apply spec_set_state; [apply _| |apply _]. intros r tr [Hb Hc] Hg. pose proof Hb as (-> & _).
    split; [set_solver|]. split; [eapply good_same; [exact Hg|..]; done|].
    split; [by eapply bound_with_state|done]. }
  intros ?. spec_step. cbv zeta. spec_step.
  eapply spec_bind with (R := fun _ r tr => ready_to_send a r tr /\ fb_ok r0 /\
      (nr_context_budget r0 = 0 \/ nr_context_budget r0 <= context_budget_bytes (cf_policy cfg))).
  { apply spec_set_state; [apply _| |apply _]. intros r tr ([Hb Hc] & <-) Hg. pose proof Hb as (-> & _ & Hf & _).
    split; [set_solver|]. split; [eapply good_same; [exact Hg|..]; done|].
    split; [split; [by eapply bound_with_state|done]|]. split; [done|apply Hg]. }
  intros ?. apply (spec_pure _ _ (fb_ok r0 /\ run_budget cfg r0 <= context_budget_bytes (cf_policy cfg))).
  { intros r tr (_ & Hf & Hb) _. split; [done|]. unfold run_budget.
    destruct (Z.eqb_spec (nr_context_budget r0) 0); [done|]. by destruct Hb. }
  intros [Hf Hb].
  eapply spec_mono with (P := ready_to_send a); [naive_solver|intros ? ? ? H _; exact H|].
  eapply spec_bind; [apply spec_calm; [apply _..|]; calm|intros ?].
  eapply spec_bind; [apply spec_calm; [apply _..|]|intros suffix].
  { unfold feedback_suffix. destruct (String.eqb_spec (nr_failure_feedback r0) "") as [?|Hne]; [calm|].
    destruct (last (nr_failures r0)) eqn:El; [calm|]. apply last_None in El. by destruct Hf. }
  eapply spec_bind; [apply spec_calm; [apply _..|]; calm|intros prompt].
  spec_step. destruct (prompt_fits _ _ prompt) eqn:Hfit.
  - apply spec_ret. intros r tr Hr _. split; [done|]. unfold prompt_fits in Hfit. bool_hyps. lia.
  - eapply spec_bind; [|intros ?; apply spec_ret; intros ? ? H _; exact H].
    eapply spec_mono; [| |apply (settle_denied_spec h a)]; [|intros ? ? ? H _; exact H].
    by intros r tr [(? & ? & _) _] _.
Qed.

Lemma commit_permit_spec (P : NodeRun -> list obs -> Prop) `{!Stable P} run :
  specs h P (commit_permit cfg run) (fun o r tr => P r tr /\
    forall permit, o = Some permit -> exists p deadline,
      OGot (QCommitPermit p (permit_attempt_id cfg (node_id (nr_node run)) (nr_attempt run)) deadline)
        (Some permit) ∈ recent tr /\ ap_route_id p = nr_route_id run).
Proof using Type.
  unfold commit_permit. destruct (nr_dispatch_proof run) as [p|]; [|apply spec_ret; naive_solver].
  destruct (String.eqb_spec (ap_route_id p) (nr_route_id run)) as [Ep|]; cbn [negb];
    [|apply spec_ret; naive_solver].
  cbv zeta. spec_step.
  eapply spec_bind; [apply spec_calm; [apply _..|]; calm|intros ?]. apply spec_ret.
  intros r tr [? Hg] _. split; [done|]. intros permit ->. eauto.
Qed.

(** A denied send settles the node: the attempt returns [Some true]. *)
Lemma denied_spec P (Q : option bool -> NodeRun -> list obs -> Prop) reason worktree :
  (forall r tr, P r tr -> ready_to_send a r tr) -> (forall r tr, closed r -> Q (Some true) r tr) ->
  specs h P (settle_denied cfg "dispatch_denied" "BLOCK" reason worktree ;; Ret (Some true)) Q.
Proof using Type.
  intros HP HQ. eapply spec_bind with (R := fun _ r _ => closed r);
    [|intros ?; apply spec_ret; auto].
  eapply spec_mono; [| |apply (settle_denied_spec h a)]; [|intros ? ? ? H _; exact H].
  intros r tr Hr _. by destruct (HP _ _ Hr) as [(? & ? & _) _].
Qed.

Lemma authorize_spec origin worktree :
  specs h (fun r tr => ready_to_send a r tr /\
            forall o, origin = Some o -> exists nid cwd,
              OGot (QOrigin nid (nr_route_id r) cwd) (Some o) ∈ recent tr)
    (authorize cfg origin worktree)
    (fun o r tr => match o with
                   | None => ready_to_send a r tr /\ authorized a (nr_route_id r) tr
                   | Some true => closed r
                   | Some false => failed_at a r
                   end).
Proof using Type.
  unfold authorize. cbv zeta. unfold authorized. destruct (cf_authority cfg) as [b|] eqn:Ea.
  2:{ destruct (require_dispatch_permit _) eqn:Er; [apply denied_spec; naive_solver|]. apply spec_ret. naive_solver. }
  destruct origin as [o|]; [|apply denied_spec; naive_solver].
  destruct (gateway_origin_matches o b) eqn:Eo; cbn [negb]; [|apply denied_spec; naive_solver].
  spec_step. eapply spec_mono with (P := fun r tr => ready_to_send a r tr /\ nr_route_id r = nr_route_id r0 /\
       (nr_node r0 = n /\ nr_attempt r0 = a) /\
       exists nid cwd, OGot (QOrigin nid (nr_route_id r) cwd) (Some o) ∈ recent tr);
    [|intros ? ? ? H _; exact H|].
  { intros r tr ([Hr Ho] & <-) Hg. split_and!; auto; [apply Hg|by destruct Hr as [(_ & ? & _) _]]. }
  eapply spec_bind; [apply commit_permit_spec; apply _|]. intros permit.
  eapply spec_bind with (R := fun _ r tr => ready_to_send a r tr /\
    match permit with Some _ => permitted b (nr_route_id r) a tr | None => True end).
  { apply spec_modify; [done|]. intros r tr ([Hr (Hrt & [En Eat] & Ho)] & Hp) Hg.
    split; [eapply good_same; [exact Hg|..]; done|]. split; [exact Hr|]. destruct permit as [permit|]; [|done].
    destruct (Hp _ eq_refl) as (p & dl & Hgot & Ep). rewrite En, Eat in Hgot. cbn.
    destruct Ho as (nid & cwd & Ho). split; [eauto|]. do 3 eexists. split; [exact Hgot|congruence]. }
  intros ?. destruct permit; [apply spec_ret; naive_solver|].
  cbv zeta. eapply spec_bind with (R := fun _ r _ => failed_at a r).
  { eapply spec_mono; [| |apply (record_failure_spec h a NodeState.RUNNING _ false); set_solver].
    - by intros r tr [[(? & ? & _) _] _] _.
    - intros ? r tr [[? ?] ?] _. unfold failed_at. auto. }
  intros ?. eapply spec_bind; [apply spec_calm; [apply _..|]; calm|intros ?]. by apply spec_ret.
Qed.

(** The send itself: it is the first one of the attempt, and it was checked. *)
Lemma send_good r tr prompt cwd timeout :
  good r tr -> ready_to_send a r tr -> authorized a (nr_route_id r) tr ->
  Z.of_nat (String.length prompt) <= context_budget_bytes (cf_policy cfg) ->
  good r (tr ++ [OAsk (QExecute prompt (nr_route_id r) cwd timeout
                         (node_id (nr_node r) +:+ "-a" +:+ str_of_Z (nr_attempt r)))]).
Proof using Type.
  intros [] [(Hst & Ha & _ & (Hi & Hs & Hk) & Hl) Hc] Hau Hp. constructor; try done.
  - rewrite sends_app. cbn. lia.
  - rewrite g_node0, Ha. apply (attempt_numbered (a - 1)); [done|lia|lia].
  - congruence.
  - apply gated_send; [|done]. rewrite g_node0. split; [done|]. split; [done|]. split; [done|].
    exists (nr_attempt r). split; [done|]. by rewrite Ha.
  - congruence.
Qed.

Lemma execute_spec prompt worktree run : Slots ∈ h ->
  Z.of_nat (String.length prompt) <= context_budget_bytes (cf_policy cfg) ->
  specs h (fun r tr => (ready_to_send a r tr /\ authorized a (nr_route_id r) tr) /\ r = run)
    (execute cfg prompt worktree run)
    (fun t r tr => in_state NodeState.RUNNING a r /\
       (wt_ok t = true -> exists route cwd timeout id, OGot (QExecute prompt route cwd timeout id) t ∈ recent tr)).
Proof using Type.
  intros Hsl Hp l ([Hr Hau] & Er) Hi Hh. unfold execute. cbn. rewrite <- Er.
  pose proof (send_good _ _ prompt worktree (qmin (attempt_timeout_seconds (cf_policy cfg)) 900) Hi Hr Hau Hp) as Hg.
  assert (Hst : in_state NodeState.RUNNING a (l_run l)) by (by destruct Hr as [(? & ? & _) _]).
  assert (Hx : forall o, is_send o = false -> forall tr, good (l_run l) tr -> good (l_run l) (tr ++ [o])).
  { intros o Ho tr Hg'. apply (good_stable _ _ _ Hg'). auto with calm. }
  split; [intros _; cbn; congruence|]. split; [exact Hg|]. split; [|split; [|by cbn]].
  - intros t. split; [|split; [by apply Hx|done]]. split; [done|]. intros _.
    do 4 eexists. by apply got_recent.
  - intros e. destruct e; cbn; (split; [split; [done|discriminate]|split; [by apply Hx|done]]).
Qed.

Lemma calm_inflight X i : calm (A := unit) good X (perform (SetInflight i)).
Proof using Type. intros l Hl. apply calm_ext_refl. Qed.

Lemma cleans_inflight X i : cleans (A := unit) X (perform (SetInflight i)).
Proof using Type. by intros l Hl. Qed.

#[local] Hint Resolve calm_inflight cleans_inflight : calm.

Lemma unpin_cleans q : no_send q -> cleans exit_ok (call q ;; perform (SetInflight None)).
Proof using Type.
  intros ?. apply cleans_bind; [by apply cleans_call|]. intros ?. apply cleans_inflight.
Qed.

Lemma dispatch_spec worktree : Slots ∈ h ->
  specs h (fun r tr => bound NodeState.ADMITTED a r tr /\ cleared (nr_route_id r) tr)
    (dispatch cfg worktree)
    (fun s r tr => match s with
                   | inl true => closed r
                   | inl false => failed_at a r
                   | inr t => in_state NodeState.RUNNING a r /\
                       (wt_ok t = true -> exists prompt route cwd timeout id,
                          OGot (QExecute prompt route cwd timeout id) t ∈ recent tr)
                   end).
Proof using Type.
  intros Hsl. unfold dispatch. cbv zeta.
  eapply spec_bind; [apply spec_on_error; [apply _|apply hydrate_spec|calm|auto with calm]|].
  intros [prompt|].
  2:{ eapply spec_bind; [apply spec_inflight|intros ?]. apply spec_ret. auto. }
  apply (spec_pure _ _ (Z.of_nat (String.length prompt) <= context_budget_bytes (cf_policy cfg)));
    [naive_solver|]. intros Hp. spec_step.
  eapply spec_mono with (P := fun r tr => ready_to_send a r tr /\ nr_route_id r = nr_route_id r0);
    [naive_solver|intros ? ? ? H _; exact H|].
  eapply spec_bind.
  { apply spec_on_error; [apply _|apply spec_call; [apply _..|done]|calm|auto with calm]. }
  intros origin. eapply spec_bind.
  { apply spec_on_error; [apply _| |calm|by apply unpin_cleans].
    eapply spec_mono; [|intros ? ? ? H _; exact H|apply authorize_spec].
    intros r tr [[Hr Er] Ho] _. split; [done|]. intros o Eo. rewrite Er.
    destruct origin as [s|]; [|done]. exists (node_id (nr_node r0)), worktree.
    assert (s = o) as -> by (destruct s; congruence). exact Ho. }
  intros [ended|].
  - eapply spec_bind; [apply spec_calm; [destruct ended; apply _..|]; calm|intros ?].
    eapply spec_bind; [apply spec_inflight|intros ?]. by apply spec_ret; intros; destruct ended.
  - eapply spec_bind.
    + apply spec_on_error; [apply _| |calm|auto with calm]. spec_step.
      by apply (execute_spec prompt worktree).
    + intros t. eapply spec_bind; [apply spec_inflight|intros ?]. apply spec_ret. naive_solver.
Qed.

Lemma reported_ok t : wt_ok (reported_terminal t) = true ->
  reported_terminal t = t /\ blocked_report (wt_output t) = "".
Proof using Type.
  unfold reported_terminal. destruct (wt_ok t) eqn:E.
  - destruct (String.eqb_spec (blocked_report (wt_output t)) ""); [done|discriminate].
  - cbn. congruence.
Qed.

Lemma clean_up_worktree worktree :
  let f := there ← call (QExists worktree); if there : bool then remove_worktree cfg worktree else Ret tt in
  calm good exit_ok f /\ cleans exit_ok f.
Proof using Type.
  split; [calm|]. apply cleans_bind; [by apply cleans_call|]. intros b. destruct b; [|done].
  auto with calm.
Qed.

Lemma settle_spec terminal worktree base :
  specs h (fun r tr => in_state NodeState.RUNNING a r /\
            (wt_ok terminal = true -> exists prompt route cwd timeout id,
               OGot (QExecute prompt route cwd timeout id) terminal ∈ recent tr))
    (settle cfg terminal worktree base)
    (fun b r _ => if b : bool then closed r else failed_at a r).
Proof using Type.
  unfold settle. destruct (clean_up_worktree worktree) as [Hcalm Hclean].
  apply spec_finally; [apply _| |exact Hcalm|exact Hclean|intros []; apply _].
  spec_step. cbv zeta. eapply spec_mono with (P := fun r tr => in_state NodeState.RUNNING a r /\
       (nr_node r = n /\ nr_node r0 = n) /\ (wt_ok terminal = true -> exists prompt route cwd timeout id,
               OGot (QExecute prompt route cwd timeout id) terminal ∈ recent tr));
    [|intros ? ? ? H _; exact H|].
  { intros r tr ([Hr Ht] & <-) Hg. split; [done|]. split; [split; apply Hg|done]. }
  spec_step. eapply spec_bind; [apply spec_calm; [apply _..|]; calm|intros ?].
  destruct (negb (wt_ok (reported_terminal terminal)) || _) eqn:Ef.
  { eapply spec_mono; [| |apply (fail_attempt_spec h a NodeState.RUNNING _ _ false); set_solver].
    - naive_solver.
    - by intros b r tr [-> ?] _. }
  apply orb_false_iff in Ef as [Eo Es]. apply negb_false_iff in Eo. apply String.eqb_neq in Es.
  destruct (reported_ok _ Eo) as [Er Eb]. rewrite Er in Eo, Es |- *.
  apply (spec_pure _ _ (nr_node r0 = n)); [naive_solver|]. intros ->.
  eapply spec_mono with (P := fun r tr => in_state NodeState.RUNNING a r /\ answered tr);
    [|intros ? ? ? H _; exact H|].
  { intros r tr (Hr & _ & Ht) _. split; [done|]. destruct (Ht Eo) as (? & ? & ? & ? & ? & ?).
    do 6 eexists. eauto. }
  eapply spec_bind; [apply spec_calm; [apply _..|]; calm|intros revoked]. destruct revoked.
  { eapply spec_bind with (R := fun _ r _ => failed_at a r); [|intros ?; by apply spec_ret].
    eapply spec_mono; [| |apply (record_failure_spec h a NodeState.RUNNING _ false); set_solver].
    - naive_solver.
    - intros ? r tr [[? ?] ?] _. unfold failed_at. auto. }
  eapply spec_bind with (R := fun _ r tr => in_state NodeState.TERMINAL_SUCCESS a r /\ answered tr).
  { apply spec_set_state; [apply _| |apply _]. intros r tr [[Hs Ha] Hans] Hg. rewrite Hs.
    split; [set_solver|]. split; [eapply good_same; [exact Hg|..]; done|]. done. }
  intros ?. eapply spec_bind; [apply validate_spec; apply _|]. intros [reason|].
  { eapply spec_mono; [| |apply (fail_attempt_spec h a NodeState.TERMINAL_SUCCESS _ _ true); set_solver].
    - naive_solver.
    - by intros b r tr [-> ?] _. }
  eapply spec_mono with (P := fun r tr => in_state NodeState.TERMINAL_SUCCESS a r /\ evidence tr);
    [|intros ? ? ? H _; exact H|].
  { intros r tr [[Hs Hans] Hv] _. destruct (Hv eq_refl). done. }
  eapply spec_bind; [apply spec_calm; [apply _..|]; calm|intros commit].
  eapply spec_bind with (R := fun _ r tr => in_state NodeState.TERMINAL_SUCCESS a r /\ evidence tr).
  { apply spec_modify; [done|]. intros r tr [Hs He] Hg. split; [eapply good_same; [exact Hg|..]; done|done]. }
  intros ?. eapply spec_bind; [apply spec_calm; [apply _..|]; calm|intros ?].
  eapply spec_bind; [apply spec_calm; [apply _..|]; calm|intros ?].
  eapply spec_bind; [apply spec_calm; [apply _..|]; calm|intros ?].
  eapply spec_bind with (R := fun _ r tr => in_state NodeState.TERMINAL_SUCCESS a r /\ evidence tr).
  { apply spec_modify; [done|]. intros r tr [Hs He] Hg. split; [eapply good_same; [exact Hg|..]; done|done]. }
  intros ?. eapply spec_bind with (R := fun _ r _ => closed r); [|intros ?; by apply spec_ret].
  apply spec_set_state; [apply _| |apply _]. intros r tr [[Hs Ha] He] Hg. rewrite Hs.
  split; [set_solver|]. split; [|by left]. destruct Hg. by constructor.
Qed.

End attempt.

Lemma restore_spec h (P : NodeRun -> list obs -> Prop) `{!Stable P} run worktree :
  (forall r x tr, P r tr -> P (with_history x r) tr) ->
  specs h P (restore_work cfg run worktree) (fun _ => P).
Proof using Type.
  intros HP. unfold restore_work. destruct (_ && _); [|apply spec_ret; auto].
  eapply spec_bind; [apply spec_calm; [apply _..|]; calm|intros [[restored ?] error]].
  destruct (_ && _); [apply spec_ret; auto|]. spec_step.
  unfold add_history. apply spec_modify; [done|]. same.
Qed.

Lemma check_blocker_spec h (P : NodeRun -> list obs -> Prop) `{!Stable P} route :
  specs h P (check_blocker route) (fun o r tr => P r tr /\ (o = None -> cleared route tr)).
Proof using Type.
  unfold check_blocker. eapply spec_bind; [apply spec_call; [apply _..|done]|]. intros now.
  eapply spec_bind; [apply spec_call; [apply _..|done]|]. intros b.
  apply spec_ret. intros r tr [[HP _] Hg] _. split; [done|]. intros Hn.
  exists now, b. split; [exact Hg|]. destruct b as [[]|]; auto; done.
Qed.

(** The attempt: revoked before anything happened, settled, or failed *)
Lemma attempt_spec a :
  specs [] (bound NodeState.PLANNED a) (attempt cfg)
    (fun o r tr => match o with
                   | None => bound NodeState.PLANNED a r tr
                   | Some true => closed r
                   | Some false => failed_at a r
                   end).
Proof using Type.
  unfold attempt. eapply spec_bind with (R := fun _ => bound NodeState.PLANNED a).
  { apply spec_modify; [done|]. intros r tr Hb Hg. split; [eapply good_same; [exact Hg|..]; done|exact Hb]. }
  intros ?. spec_step. cbv zeta. apply spec_with.
  eapply spec_mono with (P := fun r tr => bound NodeState.PLANNED a r tr /\ nr_route_id r = nr_route_id r0);
    [naive_solver|intros ? ? ? H _; exact H|].
  eapply spec_bind with (R := fun o r tr => bound NodeState.PLANNED a r tr /\
                                (o = None -> cleared (nr_route_id r) tr)).
  { eapply spec_mono; [intros ? ? H _; exact H| |apply check_blocker_spec; apply _].
    intros o r tr [[Hb Er] Hc] _. split; [done|]. rewrite Er. exact Hc. }
  intros [b|].
  { spec_step. apply spec_ret. naive_solver. }
  eapply spec_bind with (R := fun _ r tr => bound NodeState.ADMITTED a r tr /\ cleared (nr_route_id r) tr).
  { apply spec_set_state; [apply _| |apply _]. intros r tr [Hb Hc] Hg. pose proof Hb as (-> & _).
    split; [set_solver|]. split; [eapply good_same; [exact Hg|..]; done|].
    split; [by eapply bound_with_state|by apply Hc]. }
  intros ?. eapply spec_bind; [apply spec_calm; [apply _..|]; calm|intros base].
  eapply spec_bind; [apply spec_calm; [apply _..|]; calm|intros ?].
  eapply spec_bind; [apply restore_spec; [apply _|done]|intros ?].
  eapply spec_bind; [apply spec_inflight|intros ?].
  eapply spec_bind; [apply dispatch_spec; set_solver|]. intros [[]|terminal]; [by apply spec_ret..|].
  eapply spec_bind; [apply settle_spec|]. intros []; by apply spec_ret.
Qed.

(** ** The driver of a worker node *)

Definition planned (a : Z) (r : NodeRun) : Prop :=
  nr_state r = NodeState.PLANNED /\ nr_attempt r = a /\ fb_ok r.

Lemma block_spec h s reason exhausted : NodeState.BLOCKED ∈ TRANSITIONS s ->
  specs h (fun r _ => nr_state r = s) (block reason exhausted) (fun _ r _ => closed r).
Proof using Type.
  intros Hs. unfold block. eapply spec_bind with (R := fun _ r _ => nr_state r = s).
  { apply spec_modify; [done|]. same. }
  intros ?. eapply spec_bind with (R := fun _ r _ => closed r).
  { apply spec_set_state; [apply _| |apply _]. intros r tr <- Hg. split; [done|].
    split; [|by right]. eapply good_same; [exact Hg|..]; done. }
  intros ?. apply spec_calm; [apply _..|]. calm.
Qed.

Lemma revoke_spec a route rev :
  specs [] (fun r _ => planned a r) (revoke cfg route rev)
    (fun go r _ => if go : bool then planned a r /\ rev <= rp_max_attempts (cf_policy cfg) else closed r).
Proof using Type.
  unfold revoke. eapply spec_bind with (R := fun _ r _ => planned a r).
  { keep. }
  intros ?. destruct (Z.ltb_spec (rp_max_attempts (cf_policy cfg)) rev).
  - eapply spec_bind with (R := fun _ r _ => closed r); [|intros ?; by apply spec_ret].
    eapply spec_mono; [| |apply (block_spec [] NodeState.PLANNED); set_solver]; [|done].
    by intros r tr [? _] _.
  - by apply spec_ret.
Qed.

Lemma recheck_spec a route :
  specs [] (fun r _ => planned a r) (recheck cfg route)
    (fun ok r tr => planned a r /\ (ok = true -> OGot (QLaunchable route) tt ∈ recent tr)).
Proof using Type.
  unfold recheck. eapply spec_bind; [apply spec_call; [apply _..|done]|]. intros [].
  eapply spec_bind; [apply spec_calm; [apply _..|]; calm|]. intros [b|].
  { spec_step. eapply spec_mono with (P := fun r _ => planned a r); [naive_solver|intros ? ? ? H _; exact H|].
    spec_step. by apply spec_ret. }
  destruct (cf_authority cfg); [|apply spec_ret; naive_solver].
  spec_step. eapply spec_mono with (P := fun r tr => planned a r /\ OGot (QLaunchable route) tt ∈ recent tr);
    [naive_solver|intros ? ? ? H _; exact H|].
  eapply spec_bind; [apply spec_calm; [apply _..|]; calm|]. intros proof.
  eapply spec_bind with (R := fun _ r tr => planned a r /\ OGot (QLaunchable route) tt ∈ recent tr).
  { keep. }
  intros ?. destruct proof; [apply spec_ret; naive_solver|]. spec_step. apply spec_ret. naive_solver.
Qed.

Lemma bind_route_spec a choice :
  is_integration n = false -> a < rp_max_attempts (cf_policy cfg) ->
  specs [] (fun r tr => planned a r /\ OGot (QLaunchable (v_route choice)) tt ∈ recent tr)
    (bind_route choice) (fun _ => bound NodeState.PLANNED (a + 1)).
Proof using Type.
  intros Hi Ha. unfold bind_route. spec_step. cbv zeta.
  eapply spec_bind with (R := fun _ => bound NodeState.PLANNED (a + 1)).
  { apply spec_put. intros r tr ([(Hs & Hat & Hf) Hl] & ->) Hg. split; [done|].
    assert (good (with_attempt (nr_attempt r0 + 1) r0) tr) as Hg'.
    { destruct Hg. constructor; cbn; try done; [lia|eapply numbered_mono; [done|lia]|lia]. }
    split; [eapply good_same; [exact Hg'|..]; done|].
    destruct Hg. split_and!; cbn; try done; [lia|].
    split_and!; [done|lia|]. eapply numbered_mono; [done|lia]. }
  intros ?. spec_step. spec_step. eapply spec_bind; [apply spec_capacity|intros ?].
  eapply spec_bind; [apply spec_inflight|intros ?]. apply spec_calm; [apply _..|]. calm.
Qed.

Lemma repack_spec a :
  specs [] (fun r _ => failed_at a r) (repack cfg) (fun _ r _ => failed_at a r).
Proof using Type.
  unfold repack. spec_step. cbv zeta.
  destruct (Z.leb_spec (run_budget cfg r0) (Z.max (min_context_budget_bytes (cf_policy cfg)) (run_budget cfg r0 / 2)))
    as [|Hlt]; [apply spec_ret; naive_solver|].
  eapply spec_bind with (R := fun _ r _ => failed_at a r).
  { apply spec_put. intros r tr [Hf ->] Hg. split; [done|]. split; [|exact Hf].
    assert (run_budget cfg r0 <= context_budget_bytes (cf_policy cfg)).
    { unfold run_budget. destruct (Z.eqb_spec (nr_context_budget r0) 0); [done|].
      destruct (g_budget _ _ Hg); [done|lia]. }
    destruct Hg. constructor; cbn; try done. right. lia. }
  intros ?. spec_step. by apply spec_ret.
Qed.

Lemma adapt_spec a f :
  specs [] (fun r _ => failed_at a r) (adapt cfg f) (fun _ r _ => failed_at a r).
Proof using Type.
  assert (Hex : specs [] (fun r _ => failed_at a r) exclude_route (fun _ r _ => failed_at a r)).
  { keep. }
  unfold adapt. spec_step. cbv zeta.
  eapply spec_mono with (P := fun r _ => failed_at a r); [naive_solver|intros ? ? ? H _; exact H|].
  destruct (String.eqb _ "RETRY_INFRA").
  { eapply spec_mono; [intros ? ? H _; exact H| |apply spec_await; [apply _..|done]]. naive_solver. }
  destruct (String.eqb _ CONTEXT_LENGTH_CATEGORY).
  { eapply spec_bind; [apply repack_spec|]. intros shrunk. destruct (_ && _); [|exact Hex].
    keep. }
  destruct (_ && _).
  { eapply spec_bind with (R := fun _ r _ => failed_at a r).
    - keep.
    - intros ?. apply spec_emit; apply _. }
  eapply spec_bind; [exact Hex|]. intros ?. destruct (mem _ _); [|by apply spec_ret].
  keep.
Qed.

Lemma replan_spec a :
  specs [] (fun r _ => failed_at a r) (replan cfg) (fun go r _ => if go : bool then planned a r else closed r).
Proof using Type.
  unfold replan. eapply spec_bind with (R := fun _ r _ => failed_at a r).
  { keep. }
  intros ?. spec_step. apply (spec_pure _ _ (nr_failures r0 <> [])); [by intros r tr [(_ & _ & ?) <-]|].
  intros Hf. destruct (last (nr_failures r0)) as [f|] eqn:El; [|by apply last_None in El].
  eapply spec_bind with (R := fun _ r _ => failed_at a r).
  { apply spec_modify; [done|]. intros r tr [Hp _] Hg. split; [eapply good_same; [exact Hg|..]; done|exact Hp]. }
  intros ?. eapply spec_bind; [apply adapt_spec|]. intros ?. destruct (String.eqb _ "BLOCK").
  - eapply spec_bind with (R := fun _ r _ => closed r); [|intros ?; by apply spec_ret].
    intros l Hl. destruct Hl as ([Hs|Hs] & Ha & Hne) eqn:E; clear E.
    + by apply (block_spec [] NodeState.TERMINAL_FAILURE); [set_solver|].
    + by apply (block_spec [] NodeState.REJECTED); [set_solver|].
  - eapply spec_bind with (R := fun _ r _ => planned a r); [|intros ?; by apply spec_ret].
    apply spec_set_state; [apply _| |apply _]. intros r tr ([Hs|Hs] & Ha & Hne) Hg;
      (split; [rewrite Hs; set_solver|split; [eapply good_same; [exact Hg|..]; done|]];
       split_and!; cbn; [done|done|by right]).
Qed.

(** Rounds left: attempts, revocations and the wait *)
Definition rounds (a rev : Z) (waited : bool) : nat :=
  Z.to_nat (rp_max_attempts (cf_policy cfg) - a) + Z.to_nat (rp_max_attempts (cf_policy cfg) + 1 - rev)
  + if waited then 0 else 1.

Lemma drive_loop_spec fuel waited rev a : is_integration n = false -> (rounds a rev waited < fuel)%nat -> 0 <= rev ->
  specs [] (fun r _ => planned a r) (drive_loop cfg fuel waited rev) (fun _ r _ => closed r).
Proof using Type.
  intros Hni. revert waited rev a. induction fuel as [|fuel IH]; intros waited rev a Hr Hrev; [lia|].
  cbn [drive_loop]. spec_step.
  apply (spec_pure _ _ (nr_attempt r0 = a)); [by intros r tr [(_ & ? & _) <-]|]. intros <-.
  set (a := nr_attempt r0) in *.
  eapply spec_mono with (P := fun r _ => planned a r /\ nr_route_id r = nr_route_id r0);
    [naive_solver|intros ? ? ? H _; exact H|].
  assert (Hbl : forall P reason, (forall r tr, P r tr -> planned a r) ->
            specs [] P (block reason true) (fun _ r _ => closed r)).
  { intros P reason HP. eapply spec_mono; [|intros ? ? ? H _; exact H|apply (block_spec [] NodeState.PLANNED); set_solver].
    intros r tr Hp _. by destruct (HP _ _ Hp). }
  destruct (Z.leb_spec (rp_max_attempts (cf_policy cfg)) a) as [|Ha]; [by apply Hbl; naive_solver|].
  eapply spec_bind; [apply spec_calm; [apply _..|]; calm|]. intros now.
  eapply spec_bind; [apply spec_calm; [apply _..|]; calm|]. intros [choice considered].
  destruct choice as [choice|].
  - eapply spec_bind; [eapply spec_mono; [|intros ? ? ? H _; exact H|apply (recheck_spec a)]; naive_solver|].
    intros ok. destruct ok; cbn [negb].
    + eapply spec_bind.
      { eapply spec_mono; [|intros ? ? ? H _; exact H|apply (bind_route_spec a choice)]; [naive_solver|done..]. }
      intros ?. eapply spec_bind; [apply attempt_spec|]. intros [[]|].
      * by apply spec_ret.
      * eapply spec_bind; [apply replan_spec|]. intros []; [|by apply spec_ret].
        apply IH; [|done]. unfold rounds in *. lia.
      * eapply spec_bind with (R := fun _ r _ => planned a r).
        { apply spec_modify; [done|]. intros r tr (Hs & Hat & Hf & (_ & Hsd & Hnum) & _) Hg. split.
          - destruct Hg. constructor; cbn; try done; [lia|by rewrite Hat|].
            intros Hi. specialize (g_attempts0 Hi). lia.
          - split_and!; cbn; try done. lia. }
        intros ?. eapply spec_bind; [apply spec_inflight|intros ?].
        eapply spec_bind; [apply (revoke_spec a)|]. intros []; [|by apply spec_ret].
        intros l [Hl Hle]. revert l Hl. apply IH; [|lia]. unfold rounds in *. lia.
    + eapply spec_bind.
      { eapply spec_mono; [|intros ? ? ? H _; exact H|apply (revoke_spec a)]. naive_solver. }
      intros []; [|by apply spec_ret]. intros l [Hl Hle]. revert l Hl.
      apply IH; [|lia]. unfold rounds in *. lia.
  - eapply spec_bind with (R := fun again r _ => planned a r /\ (again = true -> waited = false)).
    { destruct waited.
      - unfold wait_cooldown. spec_step. apply spec_ret. naive_solver.
      - eapply spec_mono; [intros ? ? H _; exact H| |apply spec_calm; [apply _..|]; calm]. naive_solver. }
    intros []; [|spec_step; apply Hbl; naive_solver].
    intros l [Hl Hw]. specialize (Hw eq_refl) as ->. revert l Hl. apply IH; [|done]. unfold rounds in *. lia.
Qed.

(** ** Integration *)

Lemma integration_checks_spec h (P : NodeRun -> list obs -> Prop) `{!Stable P} worktree :
  specs h P (integration_checks cfg n worktree) (fun reason r tr => P r tr /\ (reason = "" -> verified tr)).
Proof using Type.
  unfold integration_checks.
  eapply spec_bind with (R := fun failed r tr => P r tr /\ (failed = "" -> verified tr)).
  { case_bool_decide as Hv; [apply spec_ret; intros; split; [done|by left]|].
    eapply spec_bind; [apply spec_call; [apply _..|done]|]. intros argv. unfold runner.
    eapply spec_bind; [apply spec_await; [apply _..|done]|]. intros [code out]. spec_step.
    apply spec_ret. intros r tr [[HP Ha] Hg] _. split; [done|].
    destruct (Z.eqb_spec code 0) as [->|]; [|done]. intros _. right. eauto 10. }
  intros failed. destruct (String.eqb_spec failed "") as [->|Hne].
  - eapply spec_mono with (P := fun r tr => P r tr /\ verified tr)
      (Q := fun _ r tr => P r tr /\ verified tr); [naive_solver|naive_solver|].
    apply spec_calm; [apply _..|]. calm.
  - eapply spec_bind with (R := fun o r tr => P r tr /\ o = failed); [apply spec_ret; naive_solver|].
    intros reason. spec_step. apply spec_ret. naive_solver.
Qed.

Lemma integrate_spec a : is_integration n = true ->
  specs [] (fun r _ => planned a r) (integrate_node cfg) (fun _ r _ => closed r).
Proof using Type.
  intros Hi. unfold integrate_node.
  eapply spec_bind with (R := fun _ r _ => in_state NodeState.PLANNED (a + 1) r).
  { apply spec_modify; [done|]. intros r tr (Hs & Ha & _) Hg. split; [|split; cbn; [done|lia]].
    destruct Hg. constructor; cbn; try done; [lia|eapply numbered_mono; [done|lia]|congruence]. }
  intros ?. spec_step. cbv zeta. apply (spec_pure _ _ (nr_node r0 = n)); [by intros r tr [_ <-] []|].
  intros ->.
  assert (Hset : forall P st st' data, st' ∈ TRANSITIONS st -> st' <> NodeState.VALIDATED ->
            (forall r tr, P r tr -> in_state st (a + 1) r) ->
            specs [] P (set_state st' data) (fun _ r _ => in_state st' (a + 1) r)).
  { intros P st st' data Ht Hv HP. apply spec_set_state; [apply _| |apply _].
    intros r tr Hp Hg. destruct (HP _ _ Hp) as [-> ?]. split; [done|].
    split; [eapply good_same; [exact Hg|..]; done|done]. }
  eapply spec_bind; [apply (Hset _ NodeState.PLANNED); [set_solver|done|naive_solver]|intros ?].
  eapply spec_bind; [apply (Hset _ NodeState.ADMITTED); [set_solver|done|naive_solver]|intros ?].
  eapply spec_bind; [apply (Hset _ NodeState.DISPATCHED); [set_solver|done|naive_solver]|intros ?].
  eapply spec_bind; [apply spec_calm; [apply _..|]|].
  { apply (calm_try good cancel_or_env); [calm|..].
    - intros e [->|[e' ->]]; done.
    - intros e t' _. destruct (is_orchestration_error e); intros; simplify_eq; calm. }
  intros [base|msg].
  - spec_step. eapply spec_bind; [apply (Hset _ NodeState.RUNNING); [set_solver|done|naive_solver]|intros ?].
    eapply spec_bind; [apply spec_calm; [apply _..|]; calm|intros ?].
    eapply spec_bind.
    { apply spec_finally; [apply _|apply integration_checks_spec; apply _|calm|auto with calm|intros ?; apply _]. }
    intros reason. destruct (String.eqb_spec reason "") as [->|Hne]; cbn [negb].
    + eapply spec_bind with (R := fun _ r tr => in_state NodeState.TERMINAL_SUCCESS (a + 1) r /\ verified tr).
      { apply spec_modify; [done|]. intros r tr [Hs Hv] Hg. split; [eapply good_same; [exact Hg|..]; done|]. split; [done|auto]. }
      intros ?. eapply spec_bind with (R := fun _ r tr => in_state NodeState.TERMINAL_SUCCESS (a + 1) r /\ verified tr); [keep|].
      intros ?. apply spec_set_state; [apply _| |apply _]. intros r tr [[-> ?] Hv] Hg. split; [set_solver|].
      split; [|by left]. destruct Hg. constructor; try done. intros _. split; [done|congruence].
    + cbv zeta. eapply spec_bind with (R := fun _ r _ => in_state NodeState.TERMINAL_SUCCESS (a + 1) r); [keep|].
      intros ?. eapply spec_bind; [apply (record_failure_spec [] (a + 1) NodeState.TERMINAL_SUCCESS _ true); set_solver|].
      intros ?. eapply spec_bind with (R := fun _ r _ => in_state NodeState.REJECTED (a + 1) r); [keep|].
      intros ?. eapply spec_mono; [| |apply (Hset (fun r _ => in_state NodeState.REJECTED (a + 1) r) NodeState.REJECTED);
        [set_solver|done|done]]; [done|]. intros ? r tr [? _] _. by right.
  - eapply spec_bind; [apply (Hset _ NodeState.RUNNING); [set_solver|done|naive_solver]|intros ?]. cbv zeta.
    eapply spec_bind with (R := fun _ r _ => in_state NodeState.TERMINAL_FAILURE (a + 1) r); [keep|].
    intros ?. spec_step. eapply spec_mono; [| |apply (Hset (fun r _ => in_state NodeState.TERMINAL_FAILURE (a + 1) r)
      NodeState.TERMINAL_FAILURE); [set_solver|done|done]]; [done|]. intros ? r tr [? _] _. by right.
Qed.

(** A driver started on a planned node *)
Lemma drive_spec a : specs [] (fun r _ => planned a r) (drive cfg (kind n)) (fun _ r _ => closed r).
Proof using Type.
  unfold drive. change (bool_decide (kind n = NodeKind.INTEGRATE) || bool_decide (kind n = NodeKind.REVIEW))
    with (is_integration n).
  destruct (is_integration n) eqn:Hi; [by apply integrate_spec|].
  apply (spec_pure _ _ (0 <= a)); [|intros Ha].
  { intros r tr (_ & <- & _) Hg. pose proof (g_sends _ _ Hg). lia. }
  apply drive_loop_spec; [done| |done]. unfold rounds, drive_fuel. lia.
Qed.

End driver.
