(* ===== verification/RuntimeSafety.v ===== *)
(** The scheduler of [Scheduler] with the drivers of [RuntimeDriver]: the invariant of the
    states of a run, and what it gives. [sys_inv] is kept by every turn of the event loop,
    for every behaviour of the environment, every schedule and every sequence of controls. *)
From S2P Require Import Prelude PyStr Contracts Recovery Async Runtime Scheduler RuntimeLogic.
From S2P Require Import RuntimeDriver.

(** * The part of a state that belongs to a node *)

Definition trace_of (nid : string) (log : list (string * obs)) : list obs :=
  map snd (List.filter (fun o => String.eqb (fst o) nid) log).

Definition held_of (nid : string) (held : list (resource * string)) : list resource :=
  map fst (List.filter (fun h => String.eqb (snd h) nid) held).

Definition local (s : Sys) (nid : string) (r : NodeRun) : Local :=
  {| l_run := r; l_held := held_of nid (s_held s); l_trace := trace_of nid (s_log s) |}.

Lemma trace_of_snoc nid m o log :
  trace_of nid (log ++ [(m, o)]) = trace_of nid log ++ (if String.eqb m nid then [o] else []).
Proof.
  unfold trace_of. rewrite List.filter_app, map_app. cbn. by destruct (String.eqb m nid).
Qed.

Lemma held_of_release r nid held : held_of nid (release_one r nid held) = drop_one r (held_of nid held).
Proof.
  induction held as [|[r' m] held IH]; cbn; [done|]. unfold held_of in *.
  case_bool_decide as Hb; [simplify_eq; cbn; rewrite String.eqb_refl; cbn; by rewrite bool_decide_true|].
  cbn. destruct (String.eqb_spec m nid) as [->|]; [|done]. cbn.
  rewrite bool_decide_false by congruence. by rewrite IH.
Qed.

Lemma held_of_release_ne r nid m held : m <> nid -> held_of m (release_one r nid held) = held_of m held.
Proof.
  intros Hm. induction held as [|[r' k] held IH]; cbn; [done|]. unfold held_of in *.
  case_bool_decide; [simplify_eq; cbn; by destruct (String.eqb_spec nid m)|].
  cbn. destruct (String.eqb k m); cbn; by rewrite IH.
Qed.

Lemma release_one_sub r nid held : release_one r nid held `sublist_of` held.
Proof.
  induction held as [|x held IH]; cbn; [done|]. case_bool_decide; [by apply sublist_cons|by apply sublist_skip].
Qed.

Lemma dict_get_alter {V} k m (f : V -> V) d :
  dict_get m (alter_at k f d) = if String.eqb m k then f <$> dict_get m d else dict_get m d.
Proof.
  induction d as [|[k' v] d IH]; cbn; [by destruct (String.eqb m k)|].
  destruct (String.eqb_spec k' k) as [->|Hk]; cbn.
  - destruct (String.eqb_spec m k); [done|exact IH].
  - destruct (String.eqb_spec m k') as [->|]; [|exact IH]. by destruct (String.eqb_spec k' k).
Qed.

Lemma alter_at_keys {V} k (f : V -> V) d : map fst (alter_at k f d) = map fst d.
Proof.
  unfold alter_at. rewrite map_map. apply map_ext. intros [k' v]. cbn. by destruct (String.eqb k' k).
Qed.

Lemma get_set_run s nid m f :
  get_node_run (set_run nid f s) m = if String.eqb m nid then f <$> get_node_run s m else get_node_run s m.
Proof.
  unfold get_node_run, set_run, sys_cells. cbn. rewrite dict_get_alter.
  destruct (String.eqb m nid); [|done]. by destruct (dict_get m (s_cells s)).
Qed.

Lemma get_alter_cell s nid m f : (forall c, c_run (f c) = c_run c) ->
  get_node_run (sys_cells (alter_at nid f) s) m = get_node_run s m.
Proof.
  intros Hf. unfold get_node_run, sys_cells. cbn. rewrite dict_get_alter.
  destruct (String.eqb m nid); [|done]. destruct (dict_get m (s_cells s)); cbn; [|done]. by rewrite Hf.
Qed.

Lemma set_run_set_run nid f g s : set_run nid f (set_run nid g s) = set_run nid (fun r => f (g r)) s.
Proof.
  unfold set_run, sys_cells. cbn. f_equal. unfold alter_at. rewrite map_map. apply map_ext. intros [k c]. cbn.
  destruct (String.eqb k nid) eqn:E; cbn; by rewrite E.
Qed.

Lemma set_run_log nid f type m data s : set_run nid f (log_event type m data s) = log_event type m data (set_run nid f s).
Proof. done. Qed.

(** What a driver's step leaves alone *)
Record frame (nid : string) (s s' : Sys) : Prop := {
  fr_keys : map fst (s_cells s') = map fst (s_cells s);
  fr_run m : m <> nid -> get_node_run s' m = get_node_run s m;
  fr_trace m : m <> nid -> trace_of m (s_log s') = trace_of m (s_log s);
  fr_held m : m <> nid -> held_of m (s_held s') = held_of m (s_held s);
  fr_sub : s_held s' `sublist_of` s_held s;
  fr_pending : s_pending s' = s_pending s;
  fr_phase : s_phase s' = s_phase s;
  fr_cancel : s_cancel_requested s' = s_cancel_requested s
}.

Lemma frame_refl nid s : frame nid s s.
Proof. by constructor. Qed.

Lemma frame_trans nid s s' s'' : frame nid s s' -> frame nid s' s'' -> frame nid s s''.
Proof.
  intros [] []. constructor; intros; rewrite ?fr_pending1, ?fr_phase1, ?fr_cancel1; try congruence.
  - rewrite fr_run1 by done. auto.
  - rewrite fr_trace1 by done. auto.
  - rewrite fr_held1 by done. auto.
  - by etrans.
Qed.

Lemma frame_log nid o s : frame nid s (sys_log nid o s).
Proof.
  constructor; try done. intros m Hm. cbn [s_log sys_log]. rewrite trace_of_snoc.
  destruct (String.eqb_spec nid m); [done|]. by rewrite app_nil_r.
Qed.

Lemma frame_set_run nid f s : frame nid s (set_run nid f s).
Proof.
  constructor; try done.
  - cbn. apply alter_at_keys.
  - intros m Hm. rewrite get_set_run. by destruct (String.eqb_spec m nid).
Qed.

Lemma frame_cell nid f s : (forall c, c_run (f c) = c_run c) -> frame nid s (sys_cells (alter_at nid f) s).
Proof.
  intros Hf. constructor; try done; [cbn; apply alter_at_keys|]. intros. by apply get_alter_cell.
Qed.

Lemma frame_release nid r s : frame nid s (sys_held (release_one r nid) s).
Proof.
  constructor; try done; cbn; [intros; by apply held_of_release_ne|apply release_one_sub].
Qed.

Lemma frame_answer nid q a s : frame nid s (log_answer nid q a s).
Proof. apply frame_log. Qed.

Create HintDb frame.
#[export] Hint Resolve frame_refl frame_log frame_set_run frame_release frame_answer : frame.

Lemma sub_cons (x : string) l : l ⊆ x :: l.
Proof. set_solver. Qed.

Lemma sub_cons_trans (x : string) l l' l'' : l' ⊆ x :: l -> l'' ⊆ x :: l' -> l'' ⊆ x :: l.
Proof. set_solver. Qed.

Lemma sub_app_one (x : string) l : l ++ [x] ⊆ x :: l.
Proof. set_solver. Qed.

#[export] Hint Resolve sub_cons sub_cons_trans sub_app_one : frame.

Lemma dict_get_app_none {V} k (d d' : list (string * V)) : dict_get k d = None -> dict_get k (d ++ d') = dict_get k d'.
Proof. induction d as [|[m v] d IH]; cbn; [done|]. destruct (String.eqb k m); [done|auto]. Qed.

Lemma dict_get_app_some {V} k (d d' : list (string * V)) v : dict_get k d = Some v -> dict_get k (d ++ d') = Some v.
Proof. induction d as [|[m w] d IH]; cbn; [done|]. destruct (String.eqb k m); [done|auto]. Qed.

Lemma dict_get_nodup {V} k v (d : list (string * V)) : base.NoDup (map fst d) -> (k, v) ∈ d -> dict_get k d = Some v.
Proof.
  induction d as [|[m w] d IH]; cbn; intros Hn Hx; [by apply not_elem_of_nil in Hx|].
  inversion Hn; subst. apply elem_of_cons in Hx as [[= <- <-]|Hx]; [by rewrite String.eqb_refl|].
  destruct (String.eqb_spec k m) as [->|]; [|auto]. destruct H1. apply list_elem_of_fmap. by exists (m, v).
Qed.

Section safety.
Context (cfg : Config) (env : environment).

Lemma advance_frame {A} nid (t : prog A) s : frame nid s (snd (advance env nid t s)).
Proof.
  revert s. induction t as [a|e|o k IH]; intros s; [apply frame_refl..|].
  destruct o; cbn [advance]; cbv zeta; try apply frame_refl;
    try (eapply frame_trans; [|apply IH]; auto with frame; by apply frame_cell).
  - destruct (get_node_run s nid); [apply IH|apply frame_refl].
  - eapply frame_trans; [apply (frame_log nid (OAsk q))|]. eapply frame_trans; [|apply IH]. apply frame_answer.
  - apply frame_log.
Qed.

Lemma local_log s nid o r : local (sys_log nid o s) nid r = l_obs o (local s nid r).
Proof. unfold local, l_obs. cbn [s_log s_held sys_log l_run l_held l_trace]. by rewrite trace_of_snoc, String.eqb_refl. Qed.

Lemma local_answer s nid q a r :
  local (log_answer nid q a s) nid r =
    l_obs (match a with inl e => OFailed q e | inr a => OGot q a end) (local s nid r).
Proof. apply local_log. Qed.

Lemma local_release s nid x r :
  local (sys_held (release_one x nid) s) nid r = l_hold (drop_one x (held_of nid (s_held s))) (local s nid r).
Proof. unfold local, l_hold. cbn [s_log s_held sys_held l_run l_held l_trace]. by rewrite held_of_release. Qed.

(** * Suspended drivers *)

Section node.
Context (n : WorkNode).

Abbreviation J := (good cfg n).

(** How a driver ends *)
Definition ended (_ : unit) (l : Local) : Prop := closed (l_run l) /\ inv J l /\ l_held l = [].
Definition crashed (e : exn) (l : Local) : Prop := inv J l /\ l_held l = [] /\ crash_ok e.

Abbreviation live_wp t := (wp J exit_ok [] t ended crashed).

(** A driver that follows its specification: finished, at a suspension, or not started *)
Definition suspended (t : prog unit) (l : Local) : Prop :=
  inv J l /\
  match t with
  | Ret _ => closed (l_run l) /\ l_held l = []
  | Raise e => l_held l = [] /\ crash_ok e
  | Do o k =>
      match o return (reply o -> prog unit) -> Prop with
      | Await q => fun k =>
          slotted q l /\
          (forall a, live_wp (k (Answered a)) (l_obs (OGot q a) l)) /\
          (forall e, live_wp (k (Failed e)) (l_obs (OFailed q e) l)) /\
          aborts exit_ok (k Cancelled) (l_held l) []
      | Acquire r => fun k =>
          live_wp (k (Answered tt)) (l_hold (r :: l_held l) l) /\
          aborts exit_ok (k Cancelled) (l_held l) []
      | _ => fun _ => live_wp t l /\ l_held l = []
      end k
  end.

Lemma advance_wp nid (t : prog unit) s r :
  get_node_run s nid = Some r -> live_wp t (local s nid r) ->
  exists r', get_node_run (snd (advance env nid t s)) nid = Some r' /\
    suspended (fst (advance env nid t s)) (local (snd (advance env nid t s)) nid r') /\
    (nr_state r = NodeState.VALIDATED -> nr_state r' = NodeState.VALIDATED).
Proof using Type.
  revert s r. induction t as [a|e|o k IH]; intros s r Hr Hw.
  - exists r. destruct Hw as (? & ? & ?). by split_and!.
  - exists r. destruct Hw as (? & ? & ?). by split_and!.
  - destruct o; cbn [advance]; cbv zeta; cbn [wp] in Hw.
    + rewrite Hr. by apply IH.
    + destruct Hw as [Hv Hw]. destruct (IH tt (set_run nid (fun _ => r0) s) r0) as (r' & ? & ? & ?).
      * rewrite get_set_run, String.eqb_refl. by rewrite Hr.
      * exact Hw.
      * exists r'. split_and!; auto.
    + apply (IH tt); [|exact Hw]. by rewrite get_alter_cell.
    + apply (IH tt); [|exact Hw]. by rewrite get_alter_cell.
    + apply IH; [done|]. apply Hw.
    + apply (IH tt); [done|]. by rewrite local_log.
    + destruct Hw as (_ & Ha & He). destruct (env _ q) as [e|a] eqn:E.
      * apply (IH (inl e)); [done|]. rewrite local_answer, local_log. apply He.
      * apply (IH (inr a)); [done|]. rewrite local_answer, local_log. apply Ha.
    + exists r. cbn [fst snd]. rewrite local_log. destruct Hw as (? & ? & ? & ? & ?). by split_and!.
    + exists r. destruct Hw as (? & ? & ?). by split_and!.
    + apply (IH tt); [done|]. by rewrite local_release.
Qed.

Lemma advance_aborts nid (t : prog unit) s r :
  get_node_run s nid = Some r -> aborts exit_ok t (held_of nid (s_held s)) [] ->
  let s' := snd (advance env nid t s) in
  get_node_run s' nid = Some r /\ extends (trace_of nid (s_log s)) (trace_of nid (s_log s')) /\
  aborts exit_ok (fst (advance env nid t s)) (held_of nid (s_held s')) [].
Proof using Type.
  cbv zeta. revert s. induction t as [a|e|o k IH]; intros s Hr Hw; [by split_and!; auto with calm..|].
  assert (Hlog : forall o, is_send o = false -> extends (trace_of nid (s_log s)) (trace_of nid (s_log (sys_log nid o s)))).
  { intros o' Ho. cbn [s_log sys_log]. rewrite trace_of_snoc, String.eqb_refl. auto with calm. }
  destruct o; cbn [advance]; cbv zeta; unfold aborts in *; cbn [unwinds] in Hw.
  - rewrite Hr. by apply IH.
  - done.
  - destruct (IH tt (sys_cells (alter_at nid (cell_with_inflight route)) s)) as (? & ? & ?);
      [by rewrite get_alter_cell|apply Hw|done].
  - destruct (IH tt (sys_cells (alter_at nid (cell_with_capacity c)) s)) as (? & ? & ?);
      [by rewrite get_alter_cell|apply Hw|done].
  - apply IH; [done|apply Hw].
  - destruct (IH tt (sys_log nid (OEvent e) s)) as (? & Hx & ?); [done|apply Hw|].
    split; [done|]. split; [exact (extends_trans _ _ _ (Hlog (OEvent e) eq_refl) Hx)|done].
  - destruct Hw as [Hq Hw]. destruct (IH (env (length (s_log s)) q)
      (log_answer nid q (env (length (s_log s)) q) (sys_log nid (OAsk q) s))) as (? & Hx & ?); [done|apply Hw|].
    split_and!; try done. eapply extends_trans; [|exact Hx]. unfold log_answer. cbn [s_log sys_log].
    rewrite !trace_of_snoc, !String.eqb_refl. apply extends_snoc; [by destruct (env _ q)|]. auto with calm.
  - cbn [fst snd]. split; [done|]. split; [apply Hlog; by destruct Hw|done].
  - by split_and!; auto with calm.
  - destruct (IH tt (sys_held (release_one r0 nid) s)) as (? & ? & ?); [done| |done].
    cbn [s_held sys_held]. by rewrite held_of_release.
Qed.
End node.

(** A task at a suspension, or finished *)
Definition paused {A} (t : prog A) : Prop :=
  match t with Do (Await _) _ | Do (Acquire _) _ | Ret _ | Raise _ => True | _ => False end.

Lemma advance_paused {A} nid (t : prog A) s : paused (fst (advance env nid t s)).
Proof using Type.
  revert s. induction t as [a|e|o k IH]; intros s; [done..|].
  destruct o; cbn [advance]; cbv zeta; try done. by destruct (get_node_run s nid).
Qed.

(** A cancelled driver: [cancel()] is still to be delivered, or it is cleaning up. *)
Definition unwinding (d : Driver) (h : list resource) : Prop :=
  if d_cancelled d then
    match d_task d with
    | Do o k =>
        match o return (reply o -> prog unit) -> Prop with
        | Await q => fun k =>
            (is_send (OAsk q) = true -> Slots ∈ h) /\ aborts exit_ok (k Cancelled) h []
        | Acquire r => fun k => aborts exit_ok (k Cancelled) h []
        | _ => fun _ => h = []
        end k
    | _ => False
    end
  else paused (d_task d) /\ aborts exit_ok (d_task d) h [].

(** A node, seen from the scheduler. [loop]: the scheduling loop is running. *)
Definition node_ok (loop : Prop) (n : WorkNode) (l : Local) (driver : option Driver) : Prop :=
  good cfg n (l_run l) (l_trace l) /\
  match driver with
  | None => l_held l = [] /\
      (loop -> (nr_state (l_run l) = NodeState.PLANNED /\ fb_ok (l_run l)) \/ closed (l_run l))
  | Some d =>
      (d_cancelled d = false /\ suspended n (d_task d) l) \/
      (unwinding d (l_held l) /\ (loop -> nr_state (l_run l) = NodeState.BLOCKED))
  end.

(** What a step of [nid]'s driver leaves alone, when it may also take a resource *)
Record touches (nid : string) (s s' : Sys) : Prop := {
  to_keys : map fst (s_cells s') = map fst (s_cells s);
  to_run m : m <> nid -> get_node_run s' m = get_node_run s m;
  to_trace m : m <> nid -> trace_of m (s_log s') = trace_of m (s_log s);
  to_held m : m <> nid -> held_of m (s_held s') = held_of m (s_held s);
  to_slots : Z.of_nat (length (holders s Slots)) <= Z.max 0 (capacity cfg Slots) ->
             Z.of_nat (length (holders s' Slots)) <= Z.max 0 (capacity cfg Slots);
  to_pending : s_pending s' = s_pending s;
  to_phase : s_phase s' = s_phase s;
  to_cancel : s_cancel_requested s' = s_cancel_requested s
}.

Lemma holders_sub s s' r : s_held s' `sublist_of` s_held s ->
  (length (holders s' r) <= length (holders s r))%nat.
Proof using Type.
  unfold holders. rewrite !length_map. generalize (s_held s) (s_held s'). clear.
  intros h h'. induction 1; cbn; [done|..]; destruct (bool_decide _); cbn; lia.
Qed.

Lemma frame_touches nid s s' : frame nid s s' -> touches nid s s'.
Proof using Type.
  intros []. constructor; auto. intros H. pose proof (holders_sub s s' Slots fr_sub0). lia.
Qed.

Lemma touches_trans nid s s' s'' : touches nid s s' -> touches nid s' s'' -> touches nid s s''.
Proof using Type.
  intros [] []. constructor; intros; rewrite ?to_pending1, ?to_phase1, ?to_cancel1; try congruence; auto.
  - rewrite to_run1 by done. auto.
  - rewrite to_trace1 by done. auto.
  - rewrite to_held1 by done. auto.
Qed.

Lemma acquire_touches nid r s :
  Z.of_nat (length (holders s r)) < capacity cfg r -> touches nid s (sys_held (cons (r, nid)) s).
Proof using Type.
  intros Hr. constructor; try done.
  - intros m Hm. cbn. unfold held_of. cbn. by destruct (String.eqb_spec nid m).
  - intros H. unfold holders in *. cbn. destruct r; cbn in *; [rewrite bool_decide_true by done; cbn; lia|].
    by rewrite bool_decide_false.
Qed.

Lemma local_acquire s nid x r :
  local (sys_held (cons (x, nid)) s) nid r = l_hold (x :: held_of nid (s_held s)) (local s nid r).
Proof using Type. unfold local, l_hold, held_of. cbn. by rewrite String.eqb_refl. Qed.

Lemma wake_touches {A} nid c (t : prog A) s t' s' :
  wake cfg env nid c t s = Some (t', s') -> touches nid s s'.
Proof using Type.
  destruct t as [a|e|o k]; [done..|]. unfold wake. intros H.
  assert (Hadv : forall (t : prog A) s1, touches nid s s1 -> Some (advance env nid t s1) = Some (t', s') -> touches nid s s').
  { intros t s1 H1 [= E]. eapply touches_trans; [exact H1|]. apply frame_touches.
    pose proof (advance_frame nid t s1). by rewrite E in H0. }
  destruct o; try (destruct c; [simplify_eq; apply frame_touches, frame_refl|];
                   eapply Hadv; [|exact H]; apply frame_touches, frame_refl).
  - destruct c; (eapply Hadv; [|exact H]); apply frame_touches; [apply frame_log|apply frame_answer].
  - destruct c; [eapply Hadv; [|exact H]; apply frame_touches, frame_log|].
    destruct (Z.ltb_spec (Z.of_nat (length (holders s r))) (capacity cfg r)); [|done].
    eapply Hadv; [|exact H]. by apply acquire_touches.
Qed.

(** ** A turn of a driver *)

(** The node after a turn: still fine, and validated if it was. *)
Definition turned (loop : Prop) (n : WorkNode) (r : NodeRun) (t : prog unit) (s : Sys) : Prop :=
  exists r', get_node_run s (node_id n) = Some r' /\
    node_ok loop n (local s (node_id n) r') (Some {| d_task := t; d_cancelled := false |}) /\
    (nr_state r = NodeState.VALIDATED -> nr_state r' = NodeState.VALIDATED).

Lemma turned_live loop n (t : prog unit) s r :
  get_node_run s (node_id n) = Some r ->
  wp (good cfg n) exit_ok [] t (ended n) (crashed n) (local s (node_id n) r) ->
  turned loop n r (fst (advance env (node_id n) t s)) (snd (advance env (node_id n) t s)).
Proof using Type.
  intros Hr Hw. destruct (advance_wp n _ _ _ _ Hr Hw) as (r' & Hr' & Hs & Hv).
  exists r'. split; [done|]. split; [|done]. split; [apply Hs|]. left. by split.
Qed.

Lemma turned_unwinding (loop : Prop) n (t : prog unit) s r :
  get_node_run s (node_id n) = Some r -> good cfg n r (trace_of (node_id n) (s_log s)) ->
  (loop -> nr_state r = NodeState.BLOCKED) ->
  aborts exit_ok t (held_of (node_id n) (s_held s)) [] ->
  turned loop n r (fst (advance env (node_id n) t s)) (snd (advance env (node_id n) t s)).
Proof using Type.
  intros Hr Hg Hl Ha. destruct (advance_aborts _ _ _ _ Hr Ha) as (Hr' & Hx & Ha').
  exists r. split; [done|]. split; [|done]. split; [by eapply good_stable|]. right.
  split; [|done]. split; [apply advance_paused|done].
Qed.

Lemma good_log n m o s r : is_send o = false ->
  good cfg n r (trace_of m (s_log s)) -> good cfg n r (trace_of m (s_log (sys_log m o s))).
Proof using Type.
  intros Ho Hg. eapply good_stable; [exact Hg|]. cbn [s_log sys_log].
  rewrite trace_of_snoc, String.eqb_refl. auto with calm.
Qed.

Lemma wake_turned loop n d s t' s' r :
  get_node_run s (node_id n) = Some r -> node_ok loop n (local s (node_id n) r) (Some d) ->
  wake cfg env (node_id n) (d_cancelled d) (d_task d) s = Some (t', s') -> turned loop n r t' s'.
Proof using Type.
  intros Hr [Hg Hd] Hw. cbn in Hg, Hd. destruct d as [t c]; cbn [d_task d_cancelled] in *.
  assert (Hres : forall (t : prog unit) s1, Some (advance env (node_id n) t s1) = Some (t', s') ->
            turned loop n r (fst (advance env (node_id n) t s1)) (snd (advance env (node_id n) t s1)) ->
            turned loop n r t' s') by (intros t1 s1 E H; injection E as E; by rewrite E in H).
  destruct t as [a|e|o k]; [done..|]. destruct Hd as [[-> [_ Hs]]|[Hu Hb]].
  - (* live *)
    unfold wake in Hw. destruct o;
      try (eapply Hres; [exact Hw|]; apply turned_live; [done|exact (proj1 Hs)]).
    + destruct Hs as (_ & Ha & He & _). eapply Hres; [exact Hw|]. apply turned_live; [done|].
      rewrite local_answer. destruct (env _ q); [apply He|apply Ha].
    + destruct (Z.ltb_spec (Z.of_nat (length (holders s r0))) (capacity cfg r0)); [|done].
      eapply Hres; [exact Hw|]. apply turned_live; [done|]. rewrite local_acquire. apply Hs.
  - (* cancelled *)
    unfold wake in Hw. unfold unwinding in Hu. cbn [d_task d_cancelled] in Hu. destruct c.
    + assert (Hraise : held_of (node_id n) (s_held s) = [] -> turned loop n r (Raise CancelledError) s).
      { intros Hh. exists r. split; [done|]. split; [|done]. split; [done|]. right. split; [|done].
        by split; [|split]. }
      destruct o; try (simplify_eq; by apply Hraise); (eapply Hres; [exact Hw|]);
        (apply turned_unwinding; [done|by apply good_log|done|]); [exact (proj2 Hu)|exact Hu].
    + destruct Hu as [_ Hu]. unfold aborts in Hu. destruct o; cbn [unwinds] in Hu;
        try (eapply Hres; [exact Hw|]; apply turned_unwinding; done).
      * destruct Hu as [Hq Hu]. eapply Hres; [exact Hw|]. apply turned_unwinding; [done| |done|apply Hu].
        apply good_log; [by destruct (env _ q)|done].
      * destruct (Z.ltb_spec (Z.of_nat (length (holders s r0))) (capacity cfg r0)); [|done].
        eapply Hres; [exact Hw|]. apply turned_unwinding; [done|done|done|].
        cbn [s_held sys_held]. unfold held_of in *. cbn. rewrite String.eqb_refl. apply Hu.
Qed.

(** * The invariant of a run *)

Context (graph : graph_ok (cf_graph cfg)) (named : forall n, n ∈ nodes (cf_graph cfg) -> node_id n <> "").

Let ns := nodes (cf_graph cfg).

Definition validated (s : Sys) (nid : string) : Prop := state_is s NodeState.VALIDATED nid = true.

(** A [COMPLETE] result: every node is validated, and a required review passed. *)
Definition result_ok (s : Sys) (r : RunResult) : Prop :=
  res_outcome r = RunOutcome.COMPLETE ->
  (forall n, n ∈ nodes (cf_graph cfg) -> validated s (node_id n)) /\
  (require_review (cf_policy cfg) = true ->
     exists rv, res_review r = Some rv /\ review_passed rv = true).

Definition phase_ok (s : Sys) : Prop :=
  match s_phase s with
  | GLoop => s_cancel_requested s = false
  | GClose r | GDone r => result_ok s r
  | GConclude t => returns (result_ok s) t
  | _ => True
  end.

(** Node [n] is past its first readiness: its state says so, or it has a driver, or it was sent
    to a worker. *)
Definition started (s : Sys) (n : WorkNode) (r : NodeRun) : Prop :=
  nr_state r ∉ [NodeState.PLANNED; NodeState.BLOCKED] \/ node_id n ∈ map fst (s_pending s) \/
  sends (trace_of (node_id n) (s_log s)) <> 0%nat.

Record sys_inv (s : Sys) : Prop := {
  si_keys : map fst (s_cells s) = map node_id (nodes (cf_graph cfg));
  si_nodup : base.NoDup (map fst (s_pending s));
  si_known : map fst (s_pending s) ⊆ map node_id (nodes (cf_graph cfg));
  si_node n : n ∈ nodes (cf_graph cfg) -> exists r, get_node_run s (node_id n) = Some r /\
    node_ok (s_phase s = GLoop) n (local s (node_id n) r) (dict_get (node_id n) (s_pending s));
  si_deps n r d : n ∈ nodes (cf_graph cfg) -> get_node_run s (node_id n) = Some r ->
    started s n r -> d ∈ depends_on n -> validated s d;
  si_slots : Z.of_nat (length (holders s Slots)) <= Z.max 0 (capacity cfg Slots);
  si_phase : phase_ok s
}.

Lemma node_inj n m : n ∈ ns -> m ∈ ns -> node_id n = node_id m -> n = m.
Proof using graph. intros. eapply nodup_map_inj; eauto. apply graph. Qed.

Lemma known_node nid : nid ∈ map node_id ns -> exists n, n ∈ ns /\ node_id n = nid.
Proof using Type. intros (n & -> & ?)%list_elem_of_fmap. eauto. Qed.

Lemma pending_in nid (d : Driver) l : dict_get nid l = Some d -> nid ∈ map fst l.
Proof using Type. intros H%dict_get_elem. apply list_elem_of_fmap. by exists (nid, d). Qed.

Lemma pending_get nid (l : list (string * Driver)) : nid ∈ map fst l -> exists d, dict_get nid l = Some d.
Proof using Type.
  intros H. destruct (dict_get nid l) eqn:E; [eauto|]. by apply dict_get_none in E.
Qed.

Lemma result_ok_mono s s' r : (forall d, validated s d -> validated s' d) -> result_ok s r -> result_ok s' r.
Proof using Type. intros Hv Hr Hc. destruct (Hr Hc). split; auto. Qed.

Lemma returns_mono {A} (R R' : A -> Prop) (t : prog A) : (forall a, R a -> R' a) -> returns R t -> returns R' t.
Proof using Type. intros HR. induction t; cbn; eauto. Qed.

Lemma phase_ok_mono s s' : s_phase s' = s_phase s -> s_cancel_requested s' = s_cancel_requested s ->
  (forall d, validated s d -> validated s' d) -> phase_ok s -> phase_ok s'.
Proof using Type.
  unfold phase_ok. intros -> -> Hv. destruct (s_phase s); try done.
  - by apply result_ok_mono.
  - apply returns_mono. intros a. by apply result_ok_mono.
  - by apply result_ok_mono.
Qed.

(** A change that concerns node [nid] only *)
Record edits (nid : string) (s s' : Sys) : Prop := {
  ed_keys : map fst (s_cells s') = map fst (s_cells s);
  ed_run m : m <> nid -> get_node_run s' m = get_node_run s m;
  ed_trace m : m <> nid -> m <> "" -> trace_of m (s_log s') = trace_of m (s_log s);
  ed_held m : m <> nid -> held_of m (s_held s') = held_of m (s_held s);
  ed_slots : Z.of_nat (length (holders s Slots)) <= Z.max 0 (capacity cfg Slots) ->
             Z.of_nat (length (holders s' Slots)) <= Z.max 0 (capacity cfg Slots);
  ed_pending m : m <> nid -> dict_get m (s_pending s') = dict_get m (s_pending s);
  ed_nodup : base.NoDup (map fst (s_pending s)) -> base.NoDup (map fst (s_pending s'));
  ed_known : map fst (s_pending s') ⊆ nid :: map fst (s_pending s);
  ed_phase : s_phase s' = s_phase s;
  ed_cancel : s_cancel_requested s' = s_cancel_requested s
}.

Lemma edits_refl nid s : edits nid s s.
Proof using Type. constructor; auto with frame. Qed.

Lemma edits_trans nid s s' s'' : edits nid s s' -> edits nid s' s'' -> edits nid s s''.
Proof using Type.
  intros [] []. constructor; intros; auto; try congruence.
  - rewrite ed_run1 by done. auto.
  - rewrite ed_trace1 by done. auto.
  - rewrite ed_held1 by done. auto.
  - rewrite ed_pending1 by done. auto.
  - eauto with frame.
Qed.

Lemma touches_edits nid s s' : touches nid s s' -> edits nid s s'.
Proof using Type. intros []. constructor; auto; rewrite to_pending0; auto with frame. Qed.

Lemma edits_log nid type m data s : edits nid s (log_event type m data s).
Proof using Type.
  constructor; auto with frame. intros k Hk Hne. unfold log_event. cbn [s_log sys_log].
  rewrite trace_of_snoc. destruct (String.eqb_spec "" k); [congruence|]. by rewrite app_nil_r.
Qed.

Lemma edits_set_run nid f s : edits nid s (set_run nid f s).
Proof using Type. apply touches_edits, frame_touches, frame_set_run. Qed.

Lemma edits_alter nid f s : edits nid s (sys_pending (alter_at nid f) s).
Proof using Type.
  constructor; auto; cbn [s_pending sys_pending]; rewrite ?alter_at_keys; auto with frame.
  intros m Hm. rewrite dict_get_alter. by destruct (String.eqb_spec m nid).
Qed.

Lemma dict_get_filter nid m (l : list (string * Driver)) :
  dict_get m (List.filter (fun kv => negb (String.eqb (fst kv) nid)) l)
  = if String.eqb m nid then None else dict_get m l.
Proof using Type.
  induction l as [|[k v] l IH]; cbn; [by destruct (String.eqb m nid)|].
  destruct (String.eqb_spec k nid) as [->|]; cbn.
  - rewrite IH. destruct (String.eqb_spec m nid); done.
  - rewrite IH. destruct (String.eqb_spec m k) as [->|]; [|done]. by destruct (String.eqb_spec k nid).
Qed.

Lemma map_fst_filter nid (l : list (string * Driver)) :
  map fst (List.filter (fun kv => negb (String.eqb (fst kv) nid)) l)
  = List.filter (fun k => negb (String.eqb k nid)) (map fst l).
Proof using Type. induction l as [|[k v] l IH]; cbn; [done|]. destruct (String.eqb k nid); cbn; by rewrite IH. Qed.

Lemma edits_drop nid s :
  edits nid s (sys_pending (List.filter (fun kv => negb (String.eqb (fst kv) nid))) s).
Proof using Type.
  constructor; auto; cbn [s_pending sys_pending].
  - intros m Hm. rewrite dict_get_filter. by destruct (String.eqb_spec m nid).
  - rewrite map_fst_filter. intros H. by apply NoDup_ListNoDup, List.NoDup_filter, NoDup_ListNoDup.
  - rewrite map_fst_filter. intros x [? _]%elem_of_lfilter. by right.
Qed.

Lemma edits_spawn nid d s : dict_get nid (s_pending s) = None ->
  edits nid s (sys_pending (fun p => p ++ [(nid, d)]) s).
Proof using Type.
  intros Hn. constructor; auto; cbn [s_pending sys_pending].
  - intros m Hm. generalize (s_pending s). clear -Hm. intros l. induction l as [|[k v] l IH]; cbn.
    + by destruct (String.eqb_spec m nid).
    + by destruct (String.eqb m k).
  - rewrite map_app. intros H. apply NoDup_app. split_and!; [done| |apply NoDup_singleton].
    intros x Hx ->%list_elem_of_singleton. by apply dict_get_none in Hn.
  - rewrite map_app. apply sub_app_one.
Qed.

#[local] Hint Resolve edits_refl edits_log edits_set_run edits_alter edits_drop edits_spawn : frame.

(** [sys_inv] is kept by a change that keeps the changed node fine. *)
Lemma sys_inv_edit s s' n r :
  sys_inv s -> n ∈ ns -> get_node_run s (node_id n) = Some r -> edits (node_id n) s s' ->
  (exists r', get_node_run s' (node_id n) = Some r' /\
    node_ok (s_phase s = GLoop) n (local s' (node_id n) r') (dict_get (node_id n) (s_pending s')) /\
    (nr_state r = NodeState.VALIDATED -> nr_state r' = NodeState.VALIDATED) /\
    (started s' n r' -> forall d, d ∈ depends_on n -> validated s d)) ->
  sys_inv s'.
Proof using graph named.
  intros Hi Hn Hr He (r' & Hr' & Hok & Hv & Hd). destruct He.
  assert (Hval : forall d, validated s d -> validated s' d).
  { intros d. unfold validated, state_is. destruct (String.eqb_spec d (node_id n)) as [->|Hne].
    - rewrite Hr, Hr'. intros H. apply bool_decide_eq_true in H. apply bool_decide_eq_true. auto.
    - by rewrite ed_run0. }
  constructor.
  - rewrite ed_keys0. apply Hi.
  - apply ed_nodup0, Hi.
  - intros x Hx%ed_known0. apply elem_of_cons in Hx as [->|Hx]; [|by apply Hi].
    apply list_elem_of_fmap. eauto.
  - intros m Hm. rewrite ed_phase0. destruct (decide (node_id m = node_id n)) as [E|Hne].
    { apply node_inj in E as ->; eauto. }
    destruct (si_node _ Hi m Hm) as (rm & Hrm & Hokm).
    exists rm. rewrite ed_run0, ed_pending0 by done. split; [done|]. unfold local in *.
    rewrite ed_held0, ed_trace0 by auto. done.
  - intros m rm d Hm Hrm Hc Hdep. apply Hval. destruct (decide (node_id m = node_id n)) as [E|Hne].
    + apply node_inj in E as ->; [|done|done]. simplify_eq. auto.
    + rewrite ed_run0 in Hrm by done.
      eapply (si_deps _ Hi m); eauto. destruct Hc as [?|[Hc|Hc]]; [by left|right; left|right; right].
      * apply ed_known0 in Hc. by apply elem_of_cons in Hc as [?|?].
      * by rewrite ed_trace0 in Hc by auto.
  - apply ed_slots0, Hi.
  - eapply phase_ok_mono; [exact ed_phase0|exact ed_cancel0|exact Hval|apply Hi].
Qed.

(** A turn of a driver keeps the invariant. *)
Lemma driver_step_inv s nid : sys_inv s -> sys_inv (sys_step cfg env (LDriver nid) s).
Proof using graph named.
  intros Hi. cbn [sys_step]. destruct (dict_get nid (s_pending s)) as [d|] eqn:Hd; [|done].
  destruct (wake _ _ _ _ _ _) as [[t' s']|] eqn:Hw; [|done].
  destruct (known_node nid) as (n & Hn & <-); [by apply Hi; eapply pending_in|].
  destruct (si_node _ Hi n Hn) as (r & Hr & Hok). rewrite Hd in Hok.
  destruct (wake_turned _ _ _ _ _ _ _ Hr Hok Hw) as (r' & Hr' & Hok' & Hv).
  pose proof (wake_touches _ _ _ _ _ _ Hw) as Ht.
  eapply (sys_inv_edit s _ n r); [done|done|done|..].
  - eapply edits_trans; [by apply touches_edits|]. apply edits_alter.
  - exists r'. split; [done|]. split; [|split; [done|]].
    + unfold put_driver. cbn [s_pending sys_pending]. rewrite dict_get_alter, String.eqb_refl.
      rewrite (to_pending _ _ _ Ht), Hd. exact Hok'.
    + intros _ dep Hdep. eapply (si_deps _ Hi n r); [done|done| |done]. right; left. by eapply pending_in.
Qed.

(** ** The scheduling loop *)

(** The invariant while the loop runs *)
Definition loop_inv (s : Sys) : Prop := sys_inv s /\ s_phase s = GLoop.

(** No finished driver is left in [pending]. *)
Definition reaped (s : Sys) : Prop :=
  forall nid d, dict_get nid (s_pending s) = Some d -> finished (d_task d) = false.

Lemma trace_log_event type nid data s m : m <> "" ->
  trace_of m (s_log (log_event type nid data s)) = trace_of m (s_log s).
Proof using Type.
  intros Hm. unfold log_event. cbn [s_log sys_log]. rewrite trace_of_snoc.
  destruct (String.eqb_spec "" m); [congruence|]. by rewrite app_nil_r.
Qed.

Lemma log_event_inv s type nid data : sys_inv s -> sys_inv (log_event type nid data s).
Proof using named.
  intros Hi. constructor; try apply Hi.
  - intros n Hn. destruct (si_node _ Hi n Hn) as (r & Hr & Hok).
    exists r. split; [exact Hr|]. unfold local in *. rewrite trace_log_event; auto.
  - intros n r d Hn Hr Hc. apply (si_deps _ Hi n r d Hn Hr). unfold started in *. by rewrite trace_log_event in Hc by auto.
Qed.

Lemma log_control_inv s req nid ok reason : sys_inv s -> sys_inv (log_control req nid ok reason s).
Proof using named. apply log_event_inv. Qed.

(** [run.state = st; run.reason = ...] from the controller, on a node that is not validated:
    the node must be fine again. *)
Lemma set_run_inv s n r f :
  sys_inv s -> n ∈ ns -> get_node_run s (node_id n) = Some r ->
  nr_state r <> NodeState.VALIDATED ->
  node_ok (s_phase s = GLoop) n (local s (node_id n) (f r)) (dict_get (node_id n) (s_pending s)) ->
  (nr_state (f r) ∈ [NodeState.PLANNED; NodeState.BLOCKED]) ->
  sys_inv (set_run (node_id n) f s).
Proof using graph named.
  intros Hi Hn Hr Hnv Hok Hst. eapply (sys_inv_edit s _ n r); [done..|apply edits_set_run|].
  exists (f r). rewrite get_set_run, String.eqb_refl, Hr. split; [done|]. split; [exact Hok|].
  split; [done|]. intros [?|Hp] d Hd; [done|]. eapply (si_deps _ Hi n r); eauto. by right.
Qed.

Lemma reap_one_inv s nid : loop_inv s -> loop_inv (reap_one s nid).
Proof using graph named.
  intros [Hi Hl]. unfold reap_one. destruct (dict_get nid (s_pending s)) as [d|] eqn:Hd; [|done].
  destruct (finished (d_task d)) eqn:Hf; [|done]. cbv zeta.
  destruct (known_node nid) as (n & Hn & <-); [by apply Hi; eapply pending_in|].
  destruct (si_node _ Hi n Hn) as (r & Hr & Hg & Hok). rewrite Hd in Hok.
  set (s1 := sys_pending _ s).
  assert (Hnone : dict_get (node_id n) (s_pending s1) = None).
  { unfold s1. cbn [s_pending sys_pending]. rewrite dict_get_filter. by rewrite String.eqb_refl. }
  assert (Hdrop : closed r -> held_of (node_id n) (s_held s) = [] -> loop_inv s1).
  { intros Hc Hh. split; [|done]. eapply (sys_inv_edit s _ n r); [done..|apply edits_drop|].
    exists r. split; [done|]. fold s1. rewrite Hnone. split; [split; [exact Hg|by split; [|right]]|].
    split; [done|]. intros Hx dep Hdep. eapply (si_deps _ Hi n r); eauto.
    right; left. by eapply pending_in. }
  assert (Hcrash : forall f e, good cfg n (f r) (trace_of (node_id n) (s_log s)) -> closed (f r) ->
            (nr_state r = NodeState.VALIDATED -> nr_state (f r) = NodeState.VALIDATED) ->
            held_of (node_id n) (s_held s) = [] -> loop_inv (log_event "node_state" (node_id n) e (set_run (node_id n) f s1))).
  { intros f e Hgf Hc Hv Hh. split; [|done]. apply log_event_inv.
    eapply (sys_inv_edit s _ n r); [done..|eapply edits_trans; [apply edits_drop|apply edits_set_run]|].
    exists (f r). fold s1. rewrite get_set_run, String.eqb_refl.
    change (get_node_run s1 (node_id n)) with (get_node_run s (node_id n)). rewrite Hr. split; [done|].
    split; [|split; [done|]].
    - cbn [s_pending set_run sys_cells]. rewrite Hnone. split; [exact Hgf|]. by split; [|right].
    - intros _ dep Hdep. eapply (si_deps _ Hi n r); eauto. right; left. by eapply pending_in. }
  destruct (d_task d) as [u|e|] eqn:Ht; [| |done].
  - destruct Hok as [[_ Hs]|[Hu _]].
    + destruct Hs as (_ & ? & ?). by apply Hdrop.
    + unfold unwinding in Hu. rewrite Ht in Hu. destruct (d_cancelled d); [done|]. by destruct Hu.
  - assert (Hh : held_of (node_id n) (s_held s) = []).
    { destruct Hok as [[_ Hs]|[Hu _]]; [by destruct Hs as (_ & ? & ?)|].
      unfold unwinding in Hu. rewrite Ht in Hu. destruct (d_cancelled d); [done|]. by destruct Hu as (_ & _ & ?). }
    assert (Hc : e = CancelledError -> closed r).
    { intros ->. destruct Hok as [[_ Hs]|[_ Hb]]; [by destruct Hs as (_ & _ & ?)|].
      right. by apply Hb. }
    assert (Hset : forall e reason, loop_inv (log_event "node_state" (node_id n) e (set_run (node_id n) (fun r =>
               let r := with_reason reason r in
               if bool_decide (nr_state r ∈ [NodeState.VALIDATED; NodeState.BLOCKED]) then r
               else with_state NodeState.BLOCKED r) s1))).
    { intros ev reason. apply Hcrash; [..|done]; cbv zeta; cbn [nr_state with_reason].
      - case_bool_decide; (eapply good_same; [exact Hg|..]; done).
      - case_bool_decide as Hb; [|by right]. unfold closed. cbn. set_solver.
      - case_bool_decide as Hb; [done|]. cbn. set_solver. }
    destruct e; [by apply Hdrop; [apply Hc|]|apply Hset..].
Qed.

Lemma foldl_inv {A} (P : Sys -> Prop) (f : Sys -> A -> Sys) xs s :
  (forall s x, P s -> P (f s x)) -> P s -> P (foldl f s xs).
Proof using Type. intros Hf. revert s. induction xs as [|x xs IH]; cbn; auto. Qed.

Lemma reap_inv s : loop_inv s -> loop_inv (reap s).
Proof using graph named. intros H. unfold reap. apply foldl_inv; [intros; by apply reap_one_inv|done]. Qed.

Lemma reap_one_pending s k :
  s_pending (reap_one s k) =
    match dict_get k (s_pending s) with
    | Some d => if finished (d_task d)
                then List.filter (fun kv => negb (String.eqb (fst kv) k)) (s_pending s) else s_pending s
    | None => s_pending s
    end.
Proof using Type.
  unfold reap_one. destruct (dict_get k (s_pending s)) as [d|]; [|done].
  destruct (d_task d) as [|e|]; [done| |done]. by destruct e.
Qed.

Lemma reaps_pending xs s m d :
  dict_get m (s_pending (foldl reap_one s xs)) = Some d ->
  dict_get m (s_pending s) = Some d /\ (m ∈ xs -> finished (d_task d) = false).
Proof using Type.
  revert s. induction xs as [|x xs IH]; intros s; cbn; [by split; [|intros ?%not_elem_of_nil]|].
  intros (Hd & Hx)%IH. rewrite reap_one_pending in Hd.
  destruct (dict_get x (s_pending s)) as [dx|] eqn:Ex.
  - destruct (finished (d_task dx)) eqn:Ef.
    + rewrite dict_get_filter in Hd. destruct (String.eqb_spec m x); [done|].
      split; [done|]. intros [?|?]%elem_of_cons; [done|auto].
    + split; [done|]. intros [->|?]%elem_of_cons; [|auto]. congruence.
  - split; [done|]. intros [->|?]%elem_of_cons; [congruence|auto].
Qed.

Lemma reap_reaped s : reaped (reap s).
Proof using Type.
  intros m d Hd. destruct (reaps_pending _ _ _ _ Hd) as [Hd' Hf]. apply Hf. by eapply pending_in.
Qed.

(** ** Controls *)

(** The loop's invariant with the reaped drivers; kept by the controls that do not end the run *)
Definition poll_inv (s : Sys) : Prop := loop_inv s /\ reaped s.

Lemma poll_log s req nid ok reason : poll_inv s -> poll_inv (log_control req nid ok reason s).
Proof using named. intros [[Hi Hl] Hr]. split; [split; [by apply log_control_inv|done]|done]. Qed.

(** Cancelling a driver that is suspended or not started *)
Lemma cancel_unwinding n d l : finished (d_task d) = false ->
  (d_cancelled d = false /\ suspended n (d_task d) l) \/ unwinding d (l_held l) ->
  unwinding (cancel_driver d) (l_held l).
Proof using Type.
  intros Hf H. unfold cancel_driver. rewrite Hf. unfold unwinding in *. cbn [d_cancelled d_task].
  destruct (d_task d) as [|e|o k]; [done..|]. destruct H as [[_ [_ Hs]]|Hu].
  - destruct o; try exact (proj2 Hs). destruct Hs as (? & _ & _ & ?). by split.
  - destruct (d_cancelled d); [done|]. destruct Hu as [Hp Hu]. unfold aborts in *.
    destruct o; try done; cbn [unwinds] in Hu; [|by apply (proj2 Hu)].
    destruct Hu as [Hq Hu]. split; [|apply Hu]. intros E. unfold no_send in Hq. congruence.
Qed.

(** The node is closed by the controller: its driver, if any, was cancelled. *)
Lemma cancel_node_inv s n r reason :
  poll_inv s -> n ∈ ns -> get_node_run s (node_id n) = Some r -> is_active (nr_state r) = true ->
  poll_inv (set_run (node_id n) (fun r => with_state NodeState.BLOCKED (with_reason reason r))
              (sys_pending (alter_at (node_id n) cancel_driver) s)).
Proof using graph named.
  intros [[Hi Hl] Hreap] Hn Hr Ha. split; [split; [|done]|].
  - destruct (si_node _ Hi n Hn) as (r' & Hr' & Hg & Hok). simplify_eq.
    assert (Hnv : nr_state r <> NodeState.VALIDATED) by (intros E; by rewrite E in Ha).
    assert (Hnb : nr_state r <> NodeState.BLOCKED) by (intros E; by rewrite E in Ha).
    eapply (sys_inv_edit s _ n r); [done..|eapply edits_trans; [apply edits_alter|apply edits_set_run]|].
    eexists. rewrite get_set_run, String.eqb_refl.
    change (get_node_run (sys_pending ?f s) ?m) with (get_node_run s m). rewrite Hr.
    split; [done|]. split; [|split; [done|]].
    + cbn [s_pending set_run sys_cells sys_pending]. rewrite dict_get_alter, String.eqb_refl.
      split; [eapply good_same; [exact Hg|..]; done|].
      destruct (dict_get (node_id n) (s_pending s)) as [d|] eqn:Hd; cbn [fmap option_fmap option_map].
      * right. split; [|done]. apply (cancel_unwinding n d (local s (node_id n) r)); [by eapply Hreap|].
        destruct Hok as [?|[? _]]; auto.
      * destruct Hok as [Hh _]. split; [done|]. right. by right.
    + unfold started. cbn [s_pending s_log set_run sys_cells sys_pending]. rewrite alter_at_keys.
      intros [Hx|Hp] dep Hdep; [set_solver|]. eapply (si_deps _ Hi n r); eauto. by right.
  - intros m d. cbn [s_pending set_run sys_cells sys_pending]. rewrite dict_get_alter.
    destruct (String.eqb m (node_id n)); [|apply Hreap].
    destruct (dict_get m (s_pending s)) as [d'|] eqn:E; [|done]. cbn. intros [= <-].
    pose proof (Hreap _ _ E). unfold cancel_driver. by destruct (finished (d_task d')) eqn:?.
Qed.

Lemma poll_log_event s type nid data : poll_inv s -> poll_inv (log_event type nid data s).
Proof using named. intros [[Hi Hl] Hr]. split; [split; [by apply log_event_inv|done]|done]. Qed.

Lemma run_node s nid r : sys_inv s -> get_node_run s nid = Some r -> exists n, n ∈ ns /\ node_id n = nid.
Proof using Type.
  intros Hi Hr. apply known_node. unfold ns. rewrite <- (si_keys _ Hi).
  unfold get_node_run in Hr. destruct (dict_get nid (s_cells s)) eqn:E; [|done].
  apply dict_get_elem in E. apply list_elem_of_fmap. by eexists (_, _).
Qed.

Lemma handle_cancel_node_inv s req : poll_inv s -> poll_inv (handle_cancel_node req s).
Proof using graph named.
  intros Hp. unfold handle_cancel_node. cbv zeta. destruct (get_node_run s _) as [r|] eqn:Hr; [|by apply poll_log].
  destruct (is_active (nr_state r)) eqn:Ha; cbn [negb]; [|by apply poll_log].
  apply poll_log. destruct (run_node _ _ _ (proj1 (proj1 Hp)) Hr) as (n & Hn & E). rewrite <- E in *.
  pose proof (cancel_node_inv s n r "cancelled_by_operator" Hp Hn Hr Ha) as H.
  unfold force_state. rewrite !set_run_log, !set_run_set_run.
  case_bool_decide as Hb; [|case_bool_decide as Hb2]; [by repeat apply poll_log_event..|].
  exfalso. revert Ha Hb Hb2. destruct (nr_state r); cbn; set_solver.
Qed.

Lemma handle_retry_node_inv s req : poll_inv s -> poll_inv (handle_retry_node cfg req s).
Proof using graph named.
  intros Hp. unfold handle_retry_node. cbv zeta. destruct (get_node_run s _) as [r|] eqn:Hr; [|by apply poll_log].
  case_bool_decide as Hst; cbn [negb]; [|by apply poll_log].
  destruct (driver_active s _) eqn:Hact; [by apply poll_log|].
  destruct (contains _ _); [by apply poll_log|].
  case_bool_decide as Hf; [by apply poll_log|].
  destruct (decide_recovery _ _ _) as [action reason].
  destruct (String.eqb action "FAIL_CLOSED"); [by apply poll_log|].
  apply poll_log. unfold force_state. apply poll_log_event. rewrite set_run_set_run.
  destruct Hp as [[Hi Hl] Hreap]. destruct (run_node _ _ _ Hi Hr) as (n & Hn & E). rewrite <- E in *.
  split; [split; [|done]|done].
  destruct (si_node _ Hi n Hn) as (r' & Hr' & Hg & Hok). simplify_eq.
  assert (Hnone : dict_get (node_id n) (s_pending s) = None).
  { unfold driver_active in Hact. destruct (dict_get (node_id n) (s_pending s)) as [d|] eqn:Hd; [|done].
    pose proof (Hreap _ _ Hd) as Hx. by rewrite Hx in Hact. }
  apply (set_run_inv s n r); [done|done|done|intros Es; rewrite Es in Hst; set_solver| |cbn; set_solver].
  rewrite Hnone in Hok |- *. split; [eapply good_same; [exact Hg|..]; done|].
  split; [apply Hok|]. intros _. left. split; [done|]. by right.
Qed.

(** ** [cancel_run] *)

(** The invariant once the loop is over: states no longer matter for the drivers. *)
Lemma leave_inv s p : sys_inv s -> (p <> GLoop) -> phase_ok (sys_phase p s) -> sys_inv (sys_phase p s).
Proof using Type.
  intros Hi Hp Hph. constructor; try apply Hi; [|done]. intros n Hn.
  destruct (si_node _ Hi n Hn) as (r & Hr & Hg & Hok). exists r. split; [exact Hr|]. split; [exact Hg|].
  cbn [s_phase sys_phase s_pending]. destruct (dict_get (node_id n) (s_pending s)).
  - destruct Hok as [?|[? _]]; [by left|right]. by split.
  - destruct Hok as [? _]. by split.
Qed.

Definition cancel_all : Sys -> Sys := sys_pending (map (fun kv => (fst kv, cancel_driver (snd kv)))).

Lemma dict_get_cancel nid l :
  dict_get nid (map (fun kv => (fst kv, cancel_driver (snd kv))) l) = cancel_driver <$> dict_get nid l.
Proof using Type. induction l as [|[k d] l IH]; cbn; [done|]. by destruct (String.eqb nid k). Qed.

Lemma cancel_all_keys l :
  map fst (map (fun kv : string * Driver => (fst kv, cancel_driver (snd kv))) l) = map fst l.
Proof using Type. rewrite map_map. by apply map_ext. Qed.

Lemma cancel_all_inv s : sys_inv s -> s_phase s <> GLoop -> sys_inv (cancel_all s).
Proof using Type.
  intros Hi Hp. constructor; try apply Hi; unfold cancel_all, started; cbn [s_pending sys_pending s_phase];
    rewrite ?cancel_all_keys; try apply Hi.
  intros n Hn. destruct (si_node _ Hi n Hn) as (r & Hr & Hg & Hok). exists r. split; [exact Hr|].
  split; [exact Hg|]. rewrite dict_get_cancel. destruct (dict_get (node_id n) (s_pending s)) as [d|]; [|exact Hok].
  cbn [fmap option_fmap option_map]. destruct (finished (d_task d)) eqn:Hf.
  - assert (cancel_driver d = d) as -> by (unfold cancel_driver; by rewrite Hf). exact Hok.
  - right. split; [|done]. apply (cancel_unwinding n d (local s (node_id n) r)); [done|].
    destruct Hok as [?|[? _]]; auto.
Qed.

(** Every driver has been cancelled, and the loop is over. *)
Definition gather_inv (s : Sys) : Prop :=
  sys_inv s /\ s_phase s = GGather /\
  forall nid d, dict_get nid (s_pending s) = Some d -> d_cancelled d = true.

Lemma cancel_run_node_inv s nid : gather_inv s -> gather_inv (cancel_run_node s nid).
Proof using graph named.
  intros (Hi & Hp & Hc). unfold cancel_run_node. destruct (get_node_run s nid) as [r|] eqn:Hr; [|done].
  cbv zeta. destruct (is_active (nr_state r)) eqn:Ha; [|done].
  destruct (run_node _ _ _ Hi Hr) as (n & Hn & <-).
  assert (Hset : forall st, st <> NodeState.VALIDATED ->
    (st = NodeState.BLOCKED \/ nr_state r ∉ [NodeState.PLANNED; NodeState.BLOCKED]) ->
    gather_inv (force_state (node_id n) st "cancelled by operator"
                  (set_run (node_id n) (with_reason "cancelled by operator") s))).
  { intros st Hst Hd. split; [|done]. unfold force_state. apply log_event_inv. rewrite set_run_set_run.
    destruct (si_node _ Hi n Hn) as (r' & Hr' & Hg & Hok). simplify_eq.
    eapply (sys_inv_edit s _ n r); [done..|apply edits_set_run|]. eexists.
    rewrite get_set_run, String.eqb_refl, Hr. split; [done|]. split; [|split; [intros E; by rewrite E in Ha|]].
    - split; [eapply good_same; [exact Hg|..]; done|]. cbn [s_pending set_run sys_cells].
      destruct (dict_get (node_id n) (s_pending s)) as [d|] eqn:Ed.
      + right. split; [|by rewrite Hp]. destruct Hok as [[Hx _]|[? _]]; [|done]. by rewrite (Hc _ _ Ed) in Hx.
      + destruct Hok as [? _]. split; [done|]. by rewrite Hp.
    - intros Hx dep Hdep. eapply (si_deps _ Hi n r); eauto. destruct Hx as [Hx|?]; [|by right].
      destruct Hd as [->|?]; [cbn in Hx; set_solver|by left]. }
  case_bool_decide as Hb; [by apply Hset; auto|].
  case_bool_decide; [|done]. apply Hset; [done|]. right. revert Ha Hb. destruct (nr_state r); cbn; set_solver.
Qed.

Lemma cancel_run_node_phase p s nid : sys_phase p (cancel_run_node s nid) = cancel_run_node (sys_phase p s) nid.
Proof using Type.
  unfold cancel_run_node. change (get_node_run (sys_phase p s) nid) with (get_node_run s nid).
  destruct (get_node_run s nid); [|done]. cbv zeta. repeat (destruct (is_active _) || case_bool_decide); done.
Qed.

Lemma handle_cancel_run_inv s req : poll_inv s -> sys_inv (sys_phase GGather (handle_cancel_run req s)).
Proof using graph named.
  intros [[Hi Hl] Hreap]. unfold handle_cancel_run. cbv zeta.
  set (s1 := sys_pending _ (sys_cancel s)).
  change (sys_inv (log_control req "" true "run cancelled by operator"
            (sys_phase GGather (foldl cancel_run_node s1 (map fst (s_cells s1)))))).
  apply log_control_inv.
  assert (H1 : gather_inv (sys_phase GGather s1)).
  { split_and!; [|done|].
    - change (sys_inv (cancel_all (sys_phase GGather (sys_cancel s)))). apply cancel_all_inv; [|done].
      assert (sys_inv (sys_phase GGather s)) as Hx by (by apply leave_inv). constructor; apply Hx.
    - intros nid d. unfold s1. cbn [s_pending sys_phase sys_pending sys_cancel]. rewrite dict_get_cancel.
      destruct (dict_get nid (s_pending s)) as [d'|] eqn:E; [|done]. cbn. intros [= <-].
      unfold cancel_driver. by rewrite (Hreap _ _ E). }
  generalize (map fst (s_cells s1)). intros xs.
  assert (Hc : forall xs s2, sys_phase GGather (foldl cancel_run_node s2 xs)
                             = foldl cancel_run_node (sys_phase GGather s2) xs).
  { clear. intros xs. induction xs as [|x xs IH]; intros s2; cbn; [done|]. by rewrite IH, cancel_run_node_phase. }
  rewrite Hc. apply (foldl_inv gather_inv); [intros; by apply cancel_run_node_inv|done].
Qed.

Lemma poll_controls_inv reqs s : poll_inv s ->
  let '(s', cancelled) := poll_controls cfg reqs s in
  if cancelled : bool then sys_inv (sys_phase GGather s') else poll_inv s'.
Proof using graph named.
  revert s. induction reqs as [|req reqs IH]; intros s Hp; cbn [poll_controls]; [done|].
  destruct (mem (cr_id req) (s_processed s)); [by apply IH|]. cbv zeta.
  assert (Hq : poll_inv (sys_processed (cr_id req) s)).
  { destruct Hp as [[Hi ?] ?]. split; [split; [|done]|done]. constructor; apply Hi. }
  destruct (String.eqb (cr_kind req) "cancel_run"); [by apply handle_cancel_run_inv|].
  destruct (String.eqb (cr_kind req) "cancel_node"); [by apply IH, handle_cancel_node_inv|].
  destruct (String.eqb (cr_kind req) "retry_node"); [by apply IH, handle_retry_node_inv|].
  by apply IH, poll_log.
Qed.

(** ** Propagation of blocks *)

Definition planned_count (s : Sys) : nat :=
  length (List.filter (state_is s NodeState.PLANNED) (map fst (s_cells s))).

(** A planned node with a blocked dependency *)
Definition doomed (s : Sys) (nid : string) : Prop :=
  exists r, get_node_run s nid = Some r /\ nr_state r = NodeState.PLANNED /\
  List.filter (state_is s NodeState.BLOCKED) (depends_on (nr_node r)) <> [].

Lemma propagate_node_cases s c nid :
  (propagate_node (s, c) nid = (s, c) /\ ~ doomed s nid) \/
  (doomed s nid /\ exists reason ev, propagate_node (s, c) nid =
     (log_event "node_state" nid ev (set_run nid (fun r => with_state NodeState.BLOCKED (with_reason reason r)) s), true)).
Proof using Type.
  unfold propagate_node, doomed. destruct (get_node_run s nid) as [r|] eqn:Hr; [|left; naive_solver].
  case_bool_decide as Hs; [|left; naive_solver].
  destruct (List.filter _ _) as [|d ds] eqn:Hf; [left; split; [done|]; naive_solver|].
  right. split; [exists r; by rewrite Hf|]. unfold force_state. rewrite set_run_set_run. eauto.
Qed.

Lemma state_is_blocked s nid reason m : state_is s NodeState.PLANNED nid = true ->
  state_is (set_run nid (fun r => with_state NodeState.BLOCKED (with_reason reason r)) s) NodeState.PLANNED m
  = state_is s NodeState.PLANNED m && negb (String.eqb m nid).
Proof using Type.
  unfold state_is. rewrite get_set_run. destruct (String.eqb_spec m nid) as [->|]; cbn; [|by rewrite andb_true_r].
  destruct (get_node_run s nid); cbn; [|done]. by rewrite andb_false_r.
Qed.

Lemma doomed_planned s nid : doomed s nid -> state_is s NodeState.PLANNED nid = true.
Proof using Type. intros (r & Hr & Hs & _). unfold state_is. rewrite Hr. by apply bool_decide_eq_true. Qed.

Lemma doomed_count s nid reason ev : doomed s nid ->
  (planned_count (log_event "node_state" nid ev
     (set_run nid (fun r => with_state NodeState.BLOCKED (with_reason reason r)) s)) < planned_count s)%nat.
Proof using Type.
  intros Hd. pose proof (doomed_planned _ _ Hd) as Hp. unfold planned_count.
  change (map fst (s_cells (log_event ?a ?b ?c (set_run nid ?f s)))) with (map fst (alter_at nid (fun c => cell_with_run (f (c_run c)) c) (s_cells s))).
  rewrite alter_at_keys. erewrite List.filter_ext; [|intros m; exact (state_is_blocked s nid reason m Hp)].
  assert (Hin : nid ∈ map fst (s_cells s)).
  { destruct Hd as (r & Hr & _). unfold get_node_run in Hr. destruct (dict_get nid (s_cells s)) eqn:E; [|done].
    apply dict_get_elem in E. apply list_elem_of_fmap. by eexists (_, _). }
  revert Hin Hp. generalize (state_is s NodeState.PLANNED). generalize (map fst (s_cells s)). clear.
  intros l f Hin Hf.
  assert (Hle : forall l, (length (List.filter (fun m => f m && negb (String.eqb m nid)) l) <= length (List.filter f l))%nat).
  { clear. intros l. induction l as [|x l IH]; cbn; [lia|]. destruct (f x), (String.eqb x nid); cbn; lia. }
  induction l as [|x l IH]; [by apply not_elem_of_nil in Hin|].
  apply elem_of_cons in Hin as [<-|Hin]; cbn.
  - rewrite Hf, String.eqb_refl. cbn. specialize (Hle l). lia.
  - specialize (IH Hin). destruct (f x), (String.eqb x nid); cbn; lia.
Qed.

Lemma propagate_pass xs s c :
  let '(s', c') := foldl propagate_node (s, c) xs in
  (planned_count s' <= planned_count s)%nat /\
  (c' = true -> c = true \/ (planned_count s' < planned_count s)%nat) /\
  (c = true -> c' = true) /\
  (c' = false -> s' = s /\ forall x, x ∈ xs -> ~ doomed s x).
Proof using Type.
  revert s c. induction xs as [|x xs IH]; intros s c; cbn [foldl].
  { split_and!; [done|by left|done|]. intros _. split; [done|]. by intros x ?%not_elem_of_nil. }
  destruct (propagate_node_cases s c x) as [[-> Hn]|[Hd (reason & ev & ->)]].
  - specialize (IH s c). destruct (foldl _ _ _) as [s' c']. destruct IH as (? & ? & ? & H). split_and!; auto.
    intros Hc. destruct (H Hc) as [-> Hx]. split; [done|]. intros y [->|?]%elem_of_cons; auto.
  - pose proof (doomed_count s x reason ev Hd) as Hlt. set (s1 := log_event _ _ _ _) in *.
    specialize (IH s1 true). destruct (foldl _ _ _) as [s' c']. destruct IH as (? & ? & Ht & H). split_and!.
    + lia.
    + intros Hc. right. lia.
    + intros _. by apply Ht.
    + by rewrite Ht by done.
Qed.

Lemma propagate_node_keys acc x : map fst (s_cells (fst (propagate_node acc x))) = map fst (s_cells (fst acc)).
Proof using Type.
  destruct acc as [s c]. destruct (propagate_node_cases s c x) as [[-> _]|[_ (reason & ev & ->)]]; [done|].
  cbn [fst]. apply alter_at_keys.
Qed.

Lemma propagate_pass_keys xs acc : map fst (s_cells (fst (foldl propagate_node acc xs))) = map fst (s_cells (fst acc)).
Proof using Type. revert acc. induction xs; intros acc; cbn; [done|]. by rewrite IHxs, propagate_node_keys. Qed.

(** Enough rounds reach a state in which no planned node has a blocked dependency. *)
Lemma propagate_loop_complete fuel s nid : (planned_count s < fuel)%nat ->
  ~ doomed (propagate_loop fuel s) nid.
Proof using Type.
  revert s. induction fuel as [|fuel IH]; intros s Hf; [lia|]. cbn [propagate_loop].
  pose proof (propagate_pass (map fst (s_cells s)) s false) as Hp.
  destruct (foldl _ _ _) as [s' c']. destruct Hp as (Hle & Hlt & _ & Hx). destruct c'.
  - apply IH. destruct (Hlt eq_refl); [done|lia].
  - destruct (Hx eq_refl) as [-> Hn]. intros Hd. refine (Hn _ _ Hd). destruct Hd as (r & Hr & _).
    unfold get_node_run in Hr. destruct (dict_get nid (s_cells s)) eqn:E; [|done].
    apply dict_get_elem in E. apply list_elem_of_fmap. by eexists (_, _).
Qed.

Lemma propagate_complete s nid : ~ doomed (propagate_blocks s) nid.
Proof using Type.
  apply propagate_loop_complete. unfold planned_count.
  pose proof (List.filter_length_le (state_is s NodeState.PLANNED) (map fst (s_cells s))).
  rewrite length_map in *. lia.
Qed.

Lemma propagate_node_inv s c nid : poll_inv s -> poll_inv (fst (propagate_node (s, c) nid)).
Proof using graph named.
  intros Hp. destruct (propagate_node_cases s c nid) as [[-> _]|[(r & Hr & Hs & Hd) (reason & ev & ->)]]; [done|].
  cbn [fst]. apply poll_log_event. destruct Hp as [[Hi Hl] Hreap]. split; [split; [|done]|done].
  destruct (run_node _ _ _ Hi Hr) as (n & Hn & <-).
  destruct (si_node _ Hi n Hn) as (r' & Hr' & Hg & Hok). simplify_eq.
  apply (set_run_inv s n r); [done|done|done|by rewrite Hs| |cbn; set_solver].
  split; [eapply good_same; [exact Hg|..]; done|].
  destruct (dict_get (node_id n) (s_pending s)) as [d|] eqn:Ed.
  - exfalso. destruct (List.filter _ _) as [|x xs] eqn:Hf; [done|].
    assert (Hx : x ∈ x :: xs) by left. rewrite <- Hf in Hx. apply elem_of_lfilter in Hx as [Hx Hb].
    cbn in Hg. rewrite (g_node _ _ _ _ Hg) in Hx.
    assert (Hv : validated s x) by (eapply (si_deps _ Hi n r); eauto; right; left; by eapply pending_in).
    unfold validated, state_is in *. destruct (get_node_run s x); [|done].
    apply bool_decide_eq_true in Hb, Hv. congruence.
  - destruct Hok as [Hh _]. split; [exact Hh|]. intros _. right. by right.
Qed.

Lemma propagate_blocks_inv s : poll_inv s -> poll_inv (propagate_blocks s).
Proof using graph named.
  unfold propagate_blocks. generalize (S (length (s_cells s))). intros fuel. revert s.
  assert (Hpass : forall xs s c, poll_inv s -> poll_inv (fst (foldl propagate_node (s, c) xs))).
  { induction xs as [|x xs IH]; intros s c Hp; cbn [foldl]; [done|].
    pose proof (propagate_node_inv s c x Hp). destruct (propagate_node (s, c) x). auto. }
  induction fuel as [|fuel IH]; intros s Hp; cbn [propagate_loop]; [done|].
  specialize (Hpass (map fst (s_cells s)) s false Hp). destruct (foldl _ _ _) as [s' []]; auto.
Qed.

(** ** New drivers *)

Lemma drive_starts k : exists f, drive cfg k = Do Get f.
Proof using Type.
  unfold drive. destruct (_ || _); [by eexists|]. unfold drive_fuel. by eexists.
Qed.

Lemma drive_suspended n l : inv (good cfg n) l -> l_held l = [] ->
  nr_state (l_run l) = NodeState.PLANNED -> fb_ok (l_run l) -> suspended n (drive cfg (kind n)) l.
Proof using Type.
  intros Hi Hh Hs Hf. split; [done|].
  assert (Hw : wp (good cfg n) exit_ok [] (drive cfg (kind n)) (ended n) (crashed n) l).
  { eapply wp_mono; [| | |apply (drive_spec cfg n (nr_attempt (l_run l)) l)];
      [done|done|done|by split_and!|done|done]. }
  destruct (drive_starts (kind n)) as [f Ef]. rewrite Ef in *. by split.
Qed.

(** What [ready] gives *)
Lemma ready_spec s nid : nid ∈ ready s -> exists r, get_node_run s nid = Some r /\
  nr_state r = NodeState.PLANNED /\ forall d, d ∈ depends_on (nr_node r) -> validated s d.
Proof using Type.
  unfold ready. destruct (s_cancel_requested s); [by intros ?%not_elem_of_nil|].
  intros [_ Hr]%elem_of_lfilter. destruct (get_node_run s nid) as [r|]; [|done]. exists r.
  apply andb_true_iff in Hr as [Hs%bool_decide_eq_true Hd]. split_and!; [done|done|].
  intros d Hin. rewrite forallb_forall in Hd. by apply Hd, list_elem_of_In.
Qed.

Lemma spawn_one_runs s nid m : get_node_run (spawn_one cfg s nid) m = get_node_run s m.
Proof using Type. unfold spawn_one. by destruct (dict_get _ _), (get_node_run s nid). Qed.

Lemma spawn_one_inv s nid r : poll_inv s -> get_node_run s nid = Some r ->
  nr_state r = NodeState.PLANNED -> (forall d, d ∈ depends_on (nr_node r) -> validated s d) ->
  poll_inv (spawn_one cfg s nid).
Proof using graph named.
  intros Hp Hr Hs Hd. unfold spawn_one. rewrite Hr.
  destruct (dict_get nid (s_pending s)) as [d|] eqn:Ed; [done|]. destruct Hp as [[Hi Hl] Hreap].
  destruct (run_node _ _ _ Hi Hr) as (n & Hn & <-).
  destruct (si_node _ Hi n Hn) as (r' & Hr' & Hg & Hok). simplify_eq. rewrite Ed in Hok.
  destruct Hok as [Hh Hx]. cbn in Hg, Hh. rewrite (g_node _ _ _ _ Hg) in *.
  destruct (Hx Hl) as [[_ Hf]|[Hv|Hv]]; [|cbn in Hv; congruence..].
  destruct (drive_starts (kind n)) as [f Ef]. split; [split; [|done]|].
  - eapply (sys_inv_edit s _ n r); [done..|by apply edits_spawn|].
    exists r. split; [done|]. split; [|split; [done|auto]]. split; [done|].
    cbn [s_pending sys_pending]. rewrite dict_get_app_none by done.
    cbn [dict_get]. rewrite String.eqb_refl. left. split; [done|]. by apply drive_suspended.
  - intros m d. cbn [s_pending sys_pending]. destruct (dict_get m (s_pending s)) as [d'|] eqn:Em.
    + rewrite (dict_get_app_some _ _ _ _ Em). intros [= <-]. by eapply Hreap.
    + rewrite dict_get_app_none by done. cbn [dict_get]. destruct (String.eqb m (node_id n)); [|done].
      intros [= <-]. cbn [d_task]. by rewrite Ef.
Qed.

Lemma spawns_inv xs s s1 : poll_inv s1 -> (forall m, get_node_run s1 m = get_node_run s m) ->
  xs ⊆ ready s -> poll_inv (foldl (spawn_one cfg) s1 xs).
Proof using graph named.
  revert s1. induction xs as [|x xs IH]; intros s1 Hp Hs Hxs; [done|]. cbn [foldl].
  apply IH; [|intros m; by rewrite spawn_one_runs|intros y Hy; apply Hxs; by right].
  destruct (ready_spec s x) as (r & Hr & Hst & Hd); [apply Hxs; by left|].
  apply (spawn_one_inv s1 x r); [done|by rewrite Hs|done|].
  intros d Hin. specialize (Hd d Hin). unfold validated, state_is in *. by rewrite Hs.
Qed.

Lemma spawn_inv s : poll_inv s -> poll_inv (foldl (spawn_one cfg) s (ready s)).
Proof using graph named. intros Hp. by apply (spawns_inv _ s). Qed.

(** ** Conclusion *)

Lemma returns_bind {A B} (R : A -> Prop) (S : B -> Prop) (t : prog A) f :
  returns R t -> (forall a, R a -> returns S (f a)) -> returns S (t ≫= f).
Proof using Type. intros Ht Hf. induction t as [a|e|o k IH]; cbn in *; eauto. Qed.

Lemma returns_any {A} (t : prog A) : returns (fun _ => True) t.
Proof using Type. by induction t; cbn. Qed.

Lemma finish_returns o reason ref review :
  returns (fun r => res_outcome r = o /\ res_review r = review) (finish o reason ref review).
Proof using Type. cbn. by intros _. Qed.

(** [_conclude] answers COMPLETE only when all the nodes are validated and the review it
    needs passed. *)
Lemma conclude_returns (runs : list NodeRun) :
  returns (fun r => res_outcome r = RunOutcome.COMPLETE ->
    (forall run, run ∈ runs -> nr_state run = NodeState.VALIDATED) /\
    (require_review (cf_policy cfg) = true -> exists rv, res_review r = Some rv /\ review_passed rv = true))
    (conclude cfg runs).
Proof using Type.
  unfold conclude. destruct (List.find _ runs) as [first|] eqn:Hfind.
  { eapply returns_mono; [|apply finish_returns]. intros r [E _] Hc. congruence. }
  assert (Hall : forall run, run ∈ runs -> nr_state run = NodeState.VALIDATED).
  { intros run Hin%list_elem_of_In. pose proof (List.find_none _ _ Hfind _ Hin) as H.
    cbn in H. by apply negb_false_iff, bool_decide_eq_true in H. }
  eapply returns_bind; [apply returns_any|]. intros ref _.
  eapply returns_bind; [apply returns_any|]. intros _ _.
  eapply returns_bind; [apply returns_any|]. intros _ _. cbv zeta.
  destruct (require_review (cf_policy cfg)) eqn:Hrev; cbn [negb].
  - destruct (cf_reviewer cfg); cbn [negb].
    + eapply returns_bind; [apply returns_any|]. intros rv _.
      eapply returns_bind; [apply returns_any|]. intros _ _.
      destruct (review_passed rv) eqn:Hp.
      * eapply returns_mono; [|apply finish_returns]. intros r [E1 E2] _. split; [done|]. eauto.
      * eapply returns_mono; [|apply finish_returns]. intros r [E _] Hc. congruence.
    + eapply returns_mono; [|apply finish_returns]. intros r [E _] Hc. congruence.
  - eapply returns_mono; [|apply finish_returns]. by intros r [E1 E2] _.
Qed.

Lemma advance_returns {A} nid R (t : prog A) s : returns R t -> returns R (fst (advance env nid t s)).
Proof using Type.
  revert s. induction t as [a|e|o k IH]; intros s Hr; [done..|].
  destruct o; cbn [advance]; cbv zeta; cbn [returns] in Hr; try (by apply IH); try done.
  destruct (get_node_run s nid); [|done]. by apply IH.
Qed.

(** A turn of the controller's own task changes nothing the nodes own. *)
Lemma controller_touches s s' : sys_inv s -> touches "" s s' -> sys_inv s'.
Proof using named.
  intros Hi [].
  assert (Hv : forall d, validated s d -> validated s' d).
  { intros d. unfold validated, state_is. destruct (String.eqb_spec d "") as [->|Hne]; [|by rewrite to_run0].
    destruct (get_node_run s "") as [r|] eqn:Hr; [|done].
    destruct (run_node _ _ _ Hi Hr) as (n & Hn & E). by destruct (named n Hn). }
  constructor; rewrite ?to_keys0, ?to_pending0; try apply Hi.
  - intros n Hn. destruct (si_node _ Hi n Hn) as (r & Hr & Hok). pose proof (named n Hn).
    exists r. rewrite to_run0 by done. split; [done|]. unfold local in *.
    rewrite to_held0, to_trace0, to_phase0 by done. done.
  - intros n r d Hn Hr Hc Hd. apply Hv. rewrite to_run0 in Hr by auto. eapply (si_deps _ Hi n r); [done..| |done].
    unfold started in *. by rewrite to_pending0, to_trace0 in Hc by auto.
  - apply to_slots0, Hi.
  - eapply phase_ok_mono; [done..|apply Hi].
Qed.

Lemma main_phase_inv t s : sys_inv s -> returns (result_ok s) t -> sys_inv (main_phase (t, s)).
Proof using Type.
  intros Hi Ht. cbn [main_phase]. destruct t; by apply leave_inv.
Qed.

Lemma conclude_ok s : sys_inv s -> returns (result_ok s) (conclude cfg (node_runs s)).
Proof using Type.
  intros Hi. eapply returns_mono; [|apply conclude_returns]. intros r H Hc. destruct (H Hc) as [Hall Hrev].
  split; [|done]. intros n Hn. destruct (si_node _ Hi n Hn) as (run & Hr & _).
  unfold validated, state_is. rewrite Hr. apply bool_decide_eq_true, Hall.
  unfold get_node_run in Hr. destruct (dict_get (node_id n) (s_cells s)) as [c|] eqn:E; [|done].
  apply dict_get_elem in E. cbn in Hr. simplify_eq. unfold node_runs. apply list_elem_of_fmap. by exists (node_id n, c).
Qed.

Lemma result_ok_touches s s' r : sys_inv s -> touches "" s s' -> result_ok s r -> result_ok s' r.
Proof using named.
  intros Hi Ht Hr Hc. destruct (Hr Hc) as [Hv ?]. split; [|done]. intros n Hn. specialize (Hv n Hn).
  unfold validated, state_is in *. by rewrite (to_run _ _ _ Ht) by auto.
Qed.

Lemma loop_round_inv late reqs s : loop_inv s -> sys_inv (loop_round cfg env late reqs s).
Proof using graph named.
  intros Hl. unfold loop_round. cbv zeta. assert (Hp : poll_inv (reap s)) by (split; [by apply reap_inv|apply reap_reaped]).
  revert Hp. generalize (reap s). clear s Hl. intros s Hp. destruct late.
  - cbn [finish_run]. destruct Hp as [[Hi Hl] _].
    change (sys_inv (log_event "run_finished" "" [("outcome", VStr "BLOCKED"); ("reason", VStr "run deadline exceeded"); ("integration_ref", VStr "")]
      (cancel_all (sys_phase (GClose {| res_outcome := RunOutcome.BLOCKED; res_reason := "run deadline exceeded"; res_integration := ""; res_review := None |}) s)))).
    apply log_event_inv, cancel_all_inv; [|done]. by apply leave_inv.
  - pose proof (poll_controls_inv reqs s Hp) as Hc. destruct (poll_controls cfg reqs s) as [s1 []]; [done|].
    assert (Hs : poll_inv (foldl (spawn_one cfg) (propagate_blocks s1) (ready (propagate_blocks s1))))
      by (by apply spawn_inv, propagate_blocks_inv).
    revert Hs. generalize (foldl (spawn_one cfg) (propagate_blocks s1) (ready (propagate_blocks s1))). intros s2 Hs.
    destruct (bool_decide _); [|apply Hs]. destruct Hs as [[Hi _] _].
    pose proof (frame_touches _ _ _ (advance_frame "" (conclude cfg (node_runs s2)) s2)) as Ht.
    pose proof (advance_returns "" _ _ s2 (conclude_ok s2 Hi)) as Hr.
    destruct (advance env "" _ s2) as [t s3]. cbn [fst snd] in *.
    apply main_phase_inv; [by eapply controller_touches|].
    eapply returns_mono; [|exact Hr]. intros a. by apply result_ok_touches.
Qed.

Lemma wake_returns {A} nid c R (t : prog A) s t' s' :
  returns R t -> wake cfg env nid c t s = Some (t', s') -> returns R t'.
Proof using Type.
  destruct t as [a|e|o k]; [done..|]. unfold wake. intros Hr H.
  assert (Hadv : forall (t : prog A) s1, returns R t -> Some (advance env nid t s1) = Some (t', s') -> returns R t').
  { intros t s1 H1 [= E]. pose proof (advance_returns nid R t s1 H1) as H2. by rewrite E in H2. }
  destruct o; cbn [returns] in Hr;
    try (destruct c; [by simplify_eq|]; eapply Hadv; [|exact H]; exact Hr).
  - destruct c; (eapply Hadv; [|exact H]); apply Hr.
  - destruct c; [eapply Hadv; [|exact H]; apply Hr|].
    destruct (Z.ltb_spec (Z.of_nat (length (holders s r))) (capacity cfg r)); [|done].
    eapply Hadv; [|exact H]. apply Hr.
Qed.

Lemma finished_free loop n l d : node_ok loop n l (Some d) -> finished (d_task d) = true -> l_held l = [].
Proof using Type.
  intros [_ [[_ [_ Hs]]|[Hu _]]] Hf.
  - destruct (d_task d); [apply Hs..|done].
  - unfold unwinding in Hu. destruct (d_cancelled d); [by destruct (d_task d)|].
    destruct Hu as [_ Hu]. unfold aborts in Hu. destruct (d_task d); cbn in Hu; [done|by destruct Hu|done].
Qed.

(** Every cancelled driver has ended. *)
Lemma gathered_inv s r : sys_inv s -> s_phase s = GGather -> all_done s = true -> result_ok s r ->
  sys_inv (sys_phase (GDone r) (sys_pending (fun _ => []) s)).
Proof using graph named.
  intros Hi Hp Hd Hr. constructor; try apply Hi; cbn [s_pending sys_pending sys_phase map]; [constructor|set_solver|..].
  - intros n Hn. destruct (si_node _ Hi n Hn) as (run & Hrun & Hok). exists run. split; [exact Hrun|].
    split; [apply Hok|]. split; [|done].
    destruct (dict_get (node_id n) (s_pending s)) as [d|] eqn:E; [|by destruct Hok as [_ [? _]]].
    refine (finished_free _ _ _ _ Hok _). unfold all_done in Hd. rewrite forallb_forall in Hd.
    apply (Hd (node_id n, d)), list_elem_of_In. by apply dict_get_elem.
  - intros n run d Hn Hrun Hs Hdep. eapply (si_deps _ Hi n run); eauto.
    destruct Hs as [?|[Hx|?]]; [by left|by apply not_elem_of_nil in Hx|by right; right].
  - exact Hr.
Qed.

Lemma sys_step_inv l s : sys_inv s -> sys_inv (sys_step cfg env l s).
Proof using graph named.
  intros Hi. destruct l as [nid|late reqs]; [by apply driver_step_inv|].
  cbn [sys_step]. destruct (s_phase s) as [| |r|t|r|e] eqn:Hp; [by apply loop_round_inv| | | |done|done].
  - destruct (all_done s) eqn:Hd; [|done]. cbn [finish_run].
    match goal with |- sys_inv (sys_phase ?p (log_event ?a ?b ?c ?s1)) =>
      change (sys_inv (log_event a b c (sys_phase p s1))) end.
    by apply log_event_inv, gathered_inv.
  - destruct (all_done s); [|done]. apply leave_inv; [done|done|].
    pose proof (si_phase _ Hi) as H. unfold phase_ok in *. by rewrite Hp in H.
  - destruct (wake cfg env "" false t s) as [[t' s']|] eqn:Hw; [|done].
    pose proof (wake_touches _ _ _ _ _ _ Hw) as Ht.
    apply main_phase_inv; [by eapply controller_touches|].
    pose proof (si_phase _ Hi) as H. unfold phase_ok in H. rewrite Hp in H.
    eapply returns_mono; [intros a; by apply (result_ok_touches s)|].
    eapply wake_returns; eauto.
Qed.

Lemma dict_get_nodes {V} (f : WorkNode -> V) l n : base.NoDup (map node_id l) -> n ∈ l ->
  dict_get (node_id n) (map (fun n => (node_id n, f n)) l) = Some (f n).
Proof using Type.
  induction l as [|m l IH]; intros Hd Hn; [by apply not_elem_of_nil in Hn|]. cbn [map dict_get].
  inversion Hd as [|? ? Hx Hd']; subst. destruct (String.eqb_spec (node_id n) (node_id m)) as [E|Hne].
  - apply elem_of_cons in Hn as [->|Hn]; [done|]. destruct Hx. rewrite <- E. apply list_elem_of_fmap. eauto.
  - apply elem_of_cons in Hn as [->|Hn]; [done|auto].
Qed.

Lemma init_run n : n ∈ ns -> get_node_run (init_sys cfg) (node_id n) = Some (node_run n).
Proof using graph.
  intros Hn. unfold get_node_run, init_sys. cbn [s_cells]. by rewrite dict_get_nodes; [|apply graph|].
Qed.

Lemma init_good n : good cfg n (node_run n) [].
Proof using Type.
  constructor; cbn; try done; try lia; [|constructor].
  exists []. by repeat constructor.
Qed.

Lemma init_inv : sys_inv (init_sys cfg).
Proof using graph named.
  constructor; cbn [init_sys s_cells s_pending map].
  - rewrite map_map. by apply map_ext.
  - constructor.
  - set_solver.
  - intros n Hn. exists (node_run n). split; [by apply init_run|]. split; [apply init_good|].
    split; [done|]. intros _. left. by split; [|left].
  - intros n r d Hn Hr. rewrite init_run in Hr by done. injection Hr as <-. unfold started. cbn. set_solver.
  - cbn. lia.
  - done.
Qed.

(** Every state of a run satisfies the invariant. *)
Lemma reachable_inv s : reachable cfg env s -> sys_inv s.
Proof using graph named.
  intros [ls ->]. unfold run_schedule. generalize init_inv. generalize (init_sys cfg).
  induction ls as [|l ls IH]; intros s Hi; [done|]. by apply IH, sys_step_inv.
Qed.

(** * What the invariant gives *)

(** The driver waits for the worker it was sent to. *)
Definition executing (d : Driver) : bool :=
  match d_task d with
  | Do o _ => match o with Await q => is_send (OAsk q) | _ => false end
  | _ => false
  end.

Lemma executing_holds loop n l d : node_ok loop n l (Some d) -> executing d = true -> Slots ∈ l_held l.
Proof using Type.
  unfold executing. intros [_ [[_ [_ Hs]]|[Hu _]]] He.
  - destruct (d_task d) as [| |o k]; [done..|]. destruct o; try done. by apply Hs.
  - unfold unwinding in Hu. destruct (d_cancelled d).
    + destruct (d_task d) as [| |o k]; [done..|]. destruct o; try done. by apply Hu.
    + destruct Hu as [_ Hu]. unfold aborts in Hu. destruct (d_task d) as [| |o k]; [done..|].
      destruct o; try done. cbn [unwinds] in Hu. destruct Hu as [Hq _]. unfold no_send in Hq. congruence.
Qed.

Lemma held_holders s r nid : r ∈ held_of nid (s_held s) -> nid ∈ holders s r.
Proof using Type.
  unfold held_of, holders. rewrite !list_elem_of_fmap. intros (h & -> & [Hh E]%elem_of_lfilter).
  apply String.eqb_eq in E as <-. exists h. split; [done|]. apply elem_of_lfilter. split; [done|].
  by apply bool_decide_eq_true.
Qed.

Lemma executing_bound s : sys_inv s ->
  Z.of_nat (length (List.filter (fun kv => executing (snd kv)) (s_pending s))) <= Z.max 0 (capacity cfg Slots).
Proof using Type.
  intros Hi. etrans; [|apply Hi]. apply Nat2Z.inj_le.
  rewrite <- (length_map fst (List.filter _ _)). apply List.NoDup_incl_length.
  - apply NoDup_ListNoDup. pose proof (si_nodup _ Hi) as Hn. revert Hn.
    generalize (s_pending s). clear. intros l. induction l as [|[k d] l IH]; cbn; [constructor|].
    inversion 1; subst. destruct (executing d); cbn; [constructor|]; auto.
    rewrite list_elem_of_fmap. intros (x & -> & [Hx _]%elem_of_lfilter). by destruct H1; apply list_elem_of_fmap_2.
  - intros x Hx. apply list_elem_of_In in Hx. apply list_elem_of_In.
    apply list_elem_of_fmap in Hx as ([k d] & -> & [Hx He]%elem_of_lfilter). cbn [fst snd] in *.
    assert (Hk : k ∈ map fst (s_pending s)) by (apply list_elem_of_fmap; by exists (k, d)).
    destruct (known_node k) as (n & Hn & <-); [by apply Hi|].
    destruct (si_node _ Hi n Hn) as (r & Hr & Hok).
    rewrite (dict_get_nodup _ _ _ (si_nodup _ Hi) Hx) in Hok.
    apply held_holders. exact (executing_holds _ _ _ _ Hok He).
Qed.

(** A driver that ended: it returned with its node closed, or it raised an expected exception. *)
Lemma driver_exit s nid d e : sys_inv s -> dict_get nid (s_pending s) = Some d -> d_task d = Raise e -> exit_ok e.
Proof using Type.
  intros Hi Hd He. destruct (known_node nid) as (n & Hn & <-); [by apply Hi; eapply pending_in|].
  destruct (si_node _ Hi n Hn) as (r & Hr & Hok). rewrite Hd in Hok.
  destruct Hok as [_ [[_ [_ Hs]]|[Hu _]]]; [rewrite He in Hs; right; apply Hs|].
  unfold unwinding in Hu. rewrite He in Hu. destruct (d_cancelled d); [done|]. apply Hu.
Qed.

(** ** A run that ends by itself is settled *)

Lemma spawn_one_keeps s nid : map fst (s_pending s) ⊆ map fst (s_pending (spawn_one cfg s nid)).
Proof using Type.
  unfold spawn_one. destruct (dict_get _ _); [done|]. destruct (get_node_run s nid); [|done].
  cbn [s_pending sys_pending]. rewrite map_app. intros x Hx. apply elem_of_app. by left.
Qed.

Lemma spawns_keep xs s : map fst (s_pending s) ⊆ map fst (s_pending (foldl (spawn_one cfg) s xs)).
Proof using Type.
  revert s. induction xs as [|x xs IH]; intros s; cbn [foldl]; [done|].
  etrans; [apply (spawn_one_keeps s x)|apply IH].
Qed.

Lemma spawns_start xs s nid : nid ∈ xs -> is_Some (get_node_run s nid) ->
  nid ∈ map fst (s_pending (foldl (spawn_one cfg) s xs)).
Proof using Type.
  revert s. induction xs as [|x xs IH]; intros s Hx Hs; cbn [foldl]; [by apply not_elem_of_nil in Hx|].
  apply elem_of_cons in Hx as [<-|Hx]; [|apply IH; [done|by rewrite spawn_one_runs]].
  apply spawns_keep. unfold spawn_one. destruct (dict_get nid (s_pending s)) eqn:E; [by eapply pending_in|].
  destruct Hs as [r ->]. cbn [s_pending sys_pending]. rewrite map_app. apply elem_of_app. right. by left.
Qed.

Definition settled (s : Sys) : Prop :=
  forall n, n ∈ nodes (cf_graph cfg) -> exists r, get_node_run s (node_id n) = Some r /\ closed r.

(** Nothing is ready, no driver is left and no planned node waits for a blocked one. *)
Lemma quiet_settled s : poll_inv s -> s_pending s = [] -> ready s = [] -> (forall nid, ~ doomed s nid) -> settled s.
Proof using graph named.
  intros [[Hi Hl] _] Hp Hready Hd.
  destruct (go_layers _ graph) as [ls Hls].
  assert (Hk : forall k n l, ls !! k = Some l -> node_id n ∈ l -> n ∈ ns ->
            exists r, get_node_run s (node_id n) = Some r /\ closed r).
  { intros k. induction k as [k IH] using lt_wf_ind. intros n l Hk Hnl Hn.
    destruct (si_node _ Hi n Hn) as (r & Hr & Hok). exists r. split; [done|].
    rewrite Hp in Hok. destruct Hok as (Hg & _ & Hc). destruct (Hc Hl) as [[Hpl _]|?]; [|done].
    cbn in Hpl, Hg. exfalso.
    assert (Hdeps : forall d, d ∈ depends_on n -> validated s d).
    { intros d Hdn. destruct (known_node d) as (m & Hm & <-); [by eapply go_known|].
      destruct (layer_dep ns (go_nodup _ graph) ls k l (node_id n) (node_id m) Hls Hk Hnl) as (k' & l' & Hlt & Hk' & Hl').
      { exists n. by split_and!. }
      destruct (IH k' Hlt m l' Hk' Hl' Hm) as (rm & Hrm & [Hv|Hb]).
      - unfold validated, state_is. rewrite Hrm. by apply bool_decide_eq_true.
      - destruct (Hd (node_id n)). exists r. split_and!; [done|done|]. rewrite (g_node _ _ _ _ Hg).
        intros Hf. assert (Hin : node_id m ∈ List.filter (state_is s NodeState.BLOCKED) (depends_on n)).
        { apply elem_of_lfilter. split; [done|]. unfold state_is. rewrite Hrm. by apply bool_decide_eq_true. }
        rewrite Hf in Hin. by apply not_elem_of_nil in Hin. }
    assert (Hin : node_id n ∈ ready s).
    { unfold ready. pose proof (si_phase _ Hi) as Hph. unfold phase_ok in Hph. rewrite Hl in Hph. rewrite Hph.
      apply elem_of_lfilter. split; [rewrite (si_keys _ Hi); apply list_elem_of_fmap; eauto|].
      rewrite Hr, (bool_decide_true _ Hpl), (g_node _ _ _ _ Hg). apply forallb_forall.
      intros d Hdn%list_elem_of_In. by apply Hdeps. }
    rewrite Hready in Hin. by apply not_elem_of_nil in Hin. }
  intros n Hn. destruct (layer_of ns (go_nodup _ graph) ls (node_id n) Hls) as (k & l & Hk1 & Hl1).
  { apply list_elem_of_fmap. eauto. }
  by eapply Hk.
Qed.

(** The loop goes to [_conclude] only when the run is settled. *)
Lemma loop_settled s reqs : sys_inv s -> s_phase s = GLoop ->
  let s' := loop_round cfg env false reqs s in
  s_phase s' <> GLoop -> s_phase s' <> GGather -> settled s'.
Proof using graph named.
  cbv zeta. intros Hi Hl. unfold loop_round. cbv zeta.
  assert (Hp : poll_inv (reap s)) by (split; [by apply reap_inv|apply reap_reaped]).
  pose proof (poll_controls_inv reqs (reap s) Hp) as Hc. destruct (poll_controls cfg reqs (reap s)) as [s1 []]; [done|].
  pose proof (propagate_blocks_inv s1 Hc) as Hb. pose proof (propagate_complete s1) as Hd.
  set (p := propagate_blocks s1) in *. pose proof (spawn_inv p Hb) as Hs.
  case_bool_decide as He; [|intros H; destruct H; apply Hs]. intros _ _.
  assert (Hnil : s_pending p = []).
  { destruct (s_pending p) as [|x xs] eqn:E; [done|]. pose proof (spawns_keep (ready p) p) as Hk.
    rewrite E, He in Hk. exfalso. eapply not_elem_of_nil, Hk. by left. }
  assert (Hready : ready p = []).
  { destruct (ready p) as [|x xs] eqn:E; [done|]. exfalso. apply (not_elem_of_nil x). rewrite <- He.
    apply spawns_start; [by left|]. destruct (ready_spec p x) as (r & Hr & _); [rewrite E; by left|eauto]. }
  rewrite Hready. cbn [foldl]. pose proof (quiet_settled p Hb Hnil Hready Hd) as Hset.
  pose proof (advance_frame "" (conclude cfg (node_runs p)) p) as Hf.
  destruct (advance env "" _ p) as [t s3]. cbn [snd] in Hf. intros n Hn.
  destruct (Hset n Hn) as (r & Hr & Hcl). exists r. split; [|done].
  change (get_node_run s3 (node_id n) = Some r). rewrite (fr_run _ _ _ Hf); auto.
Qed.

(** ** Closed for good

    A blocked node without a driver that was cancelled, or has no failure on record, is
    never touched again. *)

Definition parked (s : Sys) (nid : string) (r : NodeRun) : Prop :=
  get_node_run s nid = Some r /\ dict_get nid (s_pending s) = None /\
  nr_state r = NodeState.BLOCKED /\ (nr_failures r = [] \/ contains (nr_reason r) "cancelled" = true).

Lemma parked_edits m nid s s' r : edits m s s' -> m <> nid -> parked s nid r -> parked s' nid r.
Proof using Type.
  intros He Hm (? & ? & ? & ?). unfold parked. rewrite (ed_run _ _ _ He), (ed_pending _ _ _ He) by done. done.
Qed.

Lemma parked_set_run m nid f s r : parked s nid r -> m <> nid -> parked (set_run m f s) nid r.
Proof using cfg ns. intros Hp Hm. by eapply parked_edits; [apply edits_set_run|..]. Qed.

Section parked.
Context (nid : string) (r : NodeRun).

Abbreviation P := (fun s => parked s nid r).

Lemma parked_reap_one s m : parked s nid r -> parked (reap_one s m) nid r.
Proof using cfg ns.
  intros Hp. unfold reap_one. destruct (dict_get m (s_pending s)) as [d|] eqn:Hd; [|done].
  assert (Hm : m <> nid) by (intros ->; by destruct Hp as (_ & Hn & _); rewrite Hn in Hd).
  destruct (finished (d_task d)); [|done]. cbv zeta.
  assert (Hdrop : parked (sys_pending (List.filter (fun kv => negb (String.eqb (fst kv) m))) s) nid r)
    by (by eapply parked_edits; [apply edits_drop|..]).
  destruct (d_task d) as [|e|]; [done| |done]. destruct e; try done; by apply (parked_set_run m nid).
Qed.

Lemma parked_cancel_node s req : parked s nid r -> parked (handle_cancel_node req s) nid r.
Proof using cfg ns.
  intros Hp. unfold handle_cancel_node. cbv zeta. set (m := default "" (cr_node_id req)).
  destruct (get_node_run s m) as [rm|] eqn:Hr; [|done]. destruct (is_active (nr_state rm)) eqn:Ha; [|done].
  assert (Hm : m <> nid).
  { intros E. destruct Hp as (Hg & _ & Hb & _). rewrite E, Hg in Hr. injection Hr as <-. by rewrite Hb in Ha. }
  cbn [negb]. assert (Hc : parked (sys_pending (alter_at m cancel_driver) s) nid r)
    by (by eapply parked_edits; [apply edits_alter|..]).
  case_bool_decide; [|case_bool_decide]; [| |done]; by repeat apply (parked_set_run m nid).
Qed.

Lemma parked_retry_node s req : parked s nid r -> parked (handle_retry_node cfg req s) nid r.
Proof using cfg ns.
  intros Hp. unfold handle_retry_node. cbv zeta. set (m := default "" (cr_node_id req)).
  destruct (get_node_run s m) as [rm|] eqn:Hr; [|done]. case_bool_decide as Hst; [|done]. cbn [negb].
  destruct (driver_active s m); [done|]. destruct (contains (nr_reason rm) "cancelled") eqn:Hc; [done|].
  case_bool_decide as Hf; [done|]. destruct (decide_recovery _ _ _) as [action reason].
  destruct (String.eqb action "FAIL_CLOSED"); [done|].
  assert (Hm : m <> nid).
  { intros E. destruct Hp as (Hg & _ & _ & Hx). rewrite E, Hg in Hr. injection Hr as <-. destruct Hx; congruence. }
  by repeat apply (parked_set_run m nid).
Qed.

Lemma parked_cancel_run_node s m : parked s nid r -> parked (cancel_run_node s m) nid r.
Proof using cfg ns.
  intros Hp. unfold cancel_run_node. destruct (get_node_run s m) as [rm|] eqn:Hr; [|done].
  cbv zeta. destruct (is_active (nr_state rm)) eqn:Ha; [|done].
  assert (Hm : m <> nid).
  { intros ->. destruct Hp as (Hg & _ & Hb & _). rewrite Hg in Hr. injection Hr as <-. by rewrite Hb in Ha. }
  case_bool_decide; [|case_bool_decide]; [| |done]; by repeat apply (parked_set_run m nid).
Qed.

Lemma parked_cancel_all s : parked s nid r -> parked (cancel_all s) nid r.
Proof using cfg ns.
  intros (? & Hd & ?). split; [done|]. split; [|done]. unfold cancel_all. cbn [s_pending sys_pending].
  by rewrite dict_get_cancel, Hd.
Qed.

Lemma parked_poll reqs s : parked s nid r -> parked (fst (poll_controls cfg reqs s)) nid r.
Proof using cfg ns.
  revert s. induction reqs as [|req reqs IH]; intros s Hp; cbn [poll_controls]; [done|].
  destruct (mem (cr_id req) (s_processed s)); [by apply IH|]. cbv zeta.
  assert (Hq : parked (sys_processed (cr_id req) s) nid r) by exact Hp.
  destruct (String.eqb (cr_kind req) "cancel_run").
  { cbn [fst]. unfold handle_cancel_run. cbv zeta. unfold log_control, log_event.
    apply (foldl_inv P cancel_run_node); [intros; by apply parked_cancel_run_node|].
    exact (parked_cancel_all _ Hq). }
  destruct (String.eqb (cr_kind req) "cancel_node"); [by apply IH, parked_cancel_node|].
  destruct (String.eqb (cr_kind req) "retry_node"); [by apply IH, parked_retry_node|]. by apply IH.
Qed.

Lemma parked_propagate s : parked s nid r -> parked (propagate_blocks s) nid r.
Proof using cfg ns.
  unfold propagate_blocks. generalize (S (length (s_cells s))). intros fuel. revert s.
  assert (Hpass : forall xs s c, parked s nid r -> parked (fst (foldl propagate_node (s, c) xs)) nid r).
  { induction xs as [|x xs IH]; intros s c Hp; cbn [foldl]; [done|].
    destruct (propagate_node_cases s c x) as [[-> _]|[(rx & Hr & Hs & _) (reason & ev & ->)]]; [by apply IH|].
    apply IH. apply (parked_set_run x nid); [done|]. intros ->. destruct Hp as (Hg & _ & Hb & _). congruence. }
  induction fuel as [|fuel IH]; intros s Hp; cbn [propagate_loop]; [done|].
  specialize (Hpass (map fst (s_cells s)) s false Hp). destruct (foldl _ _ _) as [s' []]; auto.
Qed.

Lemma parked_spawn xs s s1 : xs ⊆ ready s -> parked s nid r -> parked s1 nid r ->
  parked (foldl (spawn_one cfg) s1 xs) nid r.
Proof using cfg ns.
  revert s1. induction xs as [|x xs IH]; intros s1 Hxs Hp Hp1; cbn [foldl]; [done|].
  apply IH; [intros y Hy; apply Hxs; by right|done|].
  destruct (ready_spec s x) as (rx & Hr & Hs & _); [apply Hxs; by left|].
  assert (Hm : x <> nid) by (intros ->; destruct Hp as (Hg & _ & Hb & _); congruence).
  unfold spawn_one. destruct (dict_get x (s_pending s1)) eqn:E; [done|].
  destruct (get_node_run s1 x); [|done]. eapply parked_edits; [by apply edits_spawn|done|done].
Qed.

Lemma parked_step l s : nid <> "" -> parked s nid r -> parked (sys_step cfg env l s) nid r.
Proof using cfg ns.
  intros Hne Hp. destruct l as [m|late reqs]; cbn [sys_step].
  - destruct (dict_get m (s_pending s)) as [d|] eqn:Hd; [|done].
    assert (Hm : m <> nid) by (intros ->; destruct Hp as (_ & Hn & _); congruence).
    destruct (wake _ _ _ _ _ _) as [[t s']|] eqn:Hw; [|done].
    eapply parked_edits; [eapply edits_trans; [apply touches_edits, (wake_touches _ _ _ _ _ _ Hw)|apply edits_alter]|done|done].
  - destruct (s_phase s) as [| |res|t|res|e] eqn:Hph; [| | | |done|done].
    + unfold loop_round. cbv zeta.
      assert (Hr : parked (reap s) nid r) by (apply (foldl_inv P reap_one); [intros; by apply parked_reap_one|done]).
      destruct late; [exact (parked_cancel_all _ Hr)|]. pose proof (parked_poll reqs _ Hr) as Hc.
      destruct (poll_controls cfg reqs (reap s)) as [s1 []]; [exact Hc|]. cbn [fst] in Hc.
      pose proof (parked_propagate _ Hc) as Hb.
      pose proof (parked_spawn (ready (propagate_blocks s1)) _ _ (reflexivity _) Hb Hb) as Hs.
      case_bool_decide; [|exact Hs].
      match goal with |- parked (main_phase (advance _ _ ?t ?s2)) _ _ =>
        pose proof (touches_edits _ _ _ (frame_touches _ _ _ (advance_frame "" t s2))) as He;
        destruct (advance env "" t s2) as [t' s3] end.
      exact (parked_edits _ _ _ _ _ He (not_eq_sym Hne) Hs).
    + destruct (all_done s); [|done]. destruct Hp as (? & _ & ?). by split.
    + by destruct (all_done s).
    + destruct (wake _ _ _ _ _ _) as [[t' s']|] eqn:Hw; [|done].
      exact (parked_edits _ _ _ _ _ (touches_edits _ _ _ (wake_touches _ _ _ _ _ _ Hw)) (not_eq_sym Hne) Hp).
Qed.

Lemma parked_forever ls s : nid <> "" -> parked s nid r ->
  parked (foldl (fun s l => sys_step cfg env l s) s ls) nid r.
Proof using cfg ns. intros Hne. apply (foldl_inv P). intros. by apply parked_step. Qed.
End parked.
End safety.
