(* ===== verification/RuntimeProgress.v ===== *)
(** The event loop cannot get stuck: the runtime takes the worker slots and the worktree lock
    in a fixed order, so as long as a driver is left, one of them can take a turn.

    [orderly] is the locking discipline of a task, whatever the replies; [drive_orderly] shows
    that the drivers follow it, also while they unwind. *)
From S2P Require Import Prelude PyStr Contracts Recovery Async Runtime Scheduler RuntimeLogic.
From S2P Require Import RuntimeDriver RuntimeSafety.

(** * The locking discipline *)

(** A worker slot is taken with nothing held; the worktree lock is not taken twice. *)
Definition may_take (r : resource) (h : list resource) : Prop :=
  match r with Slots => h = [] | WorktreeLock => WorktreeLock ∉ h end.

(** From holding [h], the task takes resources in order and ends holding [h0]. *)
Fixpoint orderly {A} (h0 h : list resource) (t : prog A) : Prop :=
  match t with
  | Ret _ | Raise _ => h = h0
  | Do o k =>
      match o return (reply o -> prog A) -> Prop with
      | Acquire r => fun k =>
          may_take r h /\ orderly h0 (r :: h) (k (Answered tt)) /\
          forall w, w <> Answered tt -> orderly h0 h (k w)
      | Release r => fun k => orderly h0 (drop_one r h) (k tt)
      | _ => fun k => forall x, orderly h0 h (k x)
      end k
  end.

(** A task that is orderly wherever the worktree lock is free *)
Abbreviation tidy t := (forall h, WorktreeLock ∉ h -> orderly h h t).

(** A task that takes nothing *)
Abbreviation plain t := (forall h, orderly h h t).

Lemma orderly_bind_ {A B} h0 h (t : prog A) (f : A -> prog B) :
  orderly h0 h t -> (forall a, orderly h0 h0 (f a)) -> orderly h0 h (t ≫= f).
Proof.
  intros Ht Hf. revert h Ht. induction t as [a|e|o k IH]; intros h Ht; [by rewrite Ht; apply Hf|done|].
  change (Do o k ≫= f) with (Do o (fun r => k r ≫= f)).
  destruct o; cbn [orderly] in *; try (intros x; by apply IH); [|by apply IH].
  destruct Ht as (Hm & Ha & Hw). split; [done|]. split; [by apply IH|]. intros w Hne. apply IH; auto.
Qed.

Lemma orderly_try_except_ {A} h0 h (t : prog A) (hdl : exn -> option (prog A)) :
  orderly h0 h t -> (forall e, match hdl e with Some t' => orderly h0 h0 t' | None => True end) ->
  orderly h0 h (try_except t hdl).
Proof.
  intros Ht Hf. revert h Ht. induction t as [a|e|o k IH]; intros h Ht; [done| |].
  - cbn [try_except]. specialize (Hf e). cbn in Ht. subst. by destruct (hdl e).
  - cbn [try_except]. destruct o; cbn [orderly] in *; try (intros x; by apply IH); [|by apply IH].
    destruct Ht as (Hm & Ha & Hw). split; [done|]. split; [by apply IH|]. intros w Hne. apply IH; auto.
Qed.

Lemma orderly_try_finally_ {A} h0 h1 h (t : prog A) f :
  orderly h1 h t -> orderly h0 h1 f -> orderly h0 h (try_finally t f).
Proof.
  intros Ht Hf. revert h Ht. induction t as [a|e|o k IH]; intros h Ht; cbn [try_finally].
  - cbn in Ht. subst. by apply (orderly_bind_ h0 h1 f (fun _ => Ret a)).
  - cbn in Ht. subst. by apply (orderly_bind_ h0 h1 f (fun _ => Raise e)).
  - destruct o; cbn [orderly] in *; try (intros x; by apply IH); [|by apply IH].
    destruct Ht as (Hm & Ha & Hw). split; [done|]. split; [by apply IH|]. intros w Hne. apply IH; auto.
Qed.

Lemma orderly_with {A} h r (t : prog A) : may_take r h -> orderly (r :: h) (r :: h) t -> orderly h h (async_with r t).
Proof.
  intros Hm Ht. unfold async_with. cbn. split; [done|]. split; [|by intros [[]| |]].
  eapply orderly_try_finally_; [exact Ht|]. change (drop_one r (r :: h) = h). by rewrite drop_one_cons.
Qed.

Section rules.
Context (h : list resource).

Lemma orderly_bind {A B} (t : prog A) (f : A -> prog B) :
  orderly h h t -> (forall a, orderly h h (f a)) -> orderly h h (t ≫= f).
Proof. apply orderly_bind_. Qed.

Lemma orderly_try_except {A} (t : prog A) (hdl : exn -> option (prog A)) :
  orderly h h t -> (forall e, match hdl e with Some t' => orderly h h t' | None => True end) ->
  orderly h h (try_except t hdl).
Proof. apply orderly_try_except_. Qed.

Lemma orderly_try_finally {A} (t : prog A) f : orderly h h t -> orderly h h f -> orderly h h (try_finally t f).
Proof. apply orderly_try_finally_. Qed.

Lemma orderly_on_error {A} (t : prog A) f : orderly h h t -> orderly h h f -> orderly h h (on_error t f).
Proof.
  intros Ht Hf. unfold on_error. apply orderly_try_except; [done|]. intros e. by apply orderly_bind.
Qed.

Lemma orderly_call q : orderly h h (call q).
Proof. cbn. by intros []. Qed.

Lemma orderly_await q : orderly h h (await q).
Proof. cbn. by intros []. Qed.

Lemma orderly_set_state st data : orderly h h (set_state st data).
Proof. unfold set_state. cbn. intros r. by destruct (check_transition _ _). Qed.

Lemma orderly_for_each {A} (f : A -> prog unit) xs : (forall x, orderly h h (f x)) -> orderly h h (for_each f xs).
Proof. intros Hf. induction xs; cbn [for_each]; [done|]. by apply orderly_bind. Qed.
End rules.

Create HintDb tidy.
#[export] Hint Resolve orderly_call orderly_await orderly_set_state : tidy.

(** Follows the shape of a task; what is left are calls of tasks with a lemma of their own. *)
Ltac tidy_step :=
  match goal with
  | |- forall _, _ => intros ?
  | |- orderly _ _ (Ret _) => reflexivity
  | |- orderly _ _ (Raise _) => reflexivity
  | |- orderly _ _ (call _) => apply orderly_call
  | |- orderly _ _ (await _) => apply orderly_await
  | |- orderly _ _ (runner _ _ _) => apply orderly_await
  | |- orderly _ _ (set_state _ _) => apply orderly_set_state
  | |- orderly _ _ (emit _ _ _) => exact (fun _ => eq_refl)
  | |- orderly _ _ get_run => exact (fun _ => eq_refl)
  | |- orderly _ _ dep_commits => exact (fun _ => eq_refl)
  | |- orderly _ _ (put_run _) => exact (fun _ => eq_refl)
  | |- orderly _ _ (modify _) => exact (fun _ _ => eq_refl)
  | |- orderly _ _ (add_history _ _) => exact (fun _ _ => eq_refl)
  | |- orderly _ _ (perform (SetInflight _)) => exact (fun _ => eq_refl)
  | |- orderly _ _ (perform (SetCapacity _)) => exact (fun _ => eq_refl)
  | |- orderly _ _ (async_with _ _) => apply orderly_with
  | |- orderly _ _ (on_error _ _) => apply orderly_on_error
  | |- orderly _ _ (try_finally _ _) => apply orderly_try_finally
  | |- orderly _ _ (try_except _ _) => apply orderly_try_except; [|intros ?]
  | |- orderly _ _ (for_each _ _) => apply orderly_for_each
  | |- orderly _ _ (mbind _ _) => apply orderly_bind; [|intros ?]
  | |- orderly _ _ (let _ := _ in _) => cbv zeta
  | |- orderly _ _ (match ?x with _ => _ end) => destruct x
  | |- match ?x with Some _ => _ | None => True end =>
      match x with
      | Some _ => cbv iota
      | None => exact I
      | match ?y with _ => _ end => destruct y
      end
  | |- True => exact I
  | |- may_take WorktreeLock _ => assumption
  end.

Ltac tidy_up := repeat first [ tidy_step | solve [eauto with tidy] ].

Section drivers.
Context (cfg : Config).

Lemma git_call_plain args cwd timeout : plain (git_call args cwd timeout).
Proof. unfold git_call. tidy_up. Qed.
Hint Resolve git_call_plain : tidy.

Lemma git_head_plain cwd : plain (git_head cwd).
Proof. apply git_call_plain. Qed.
Hint Resolve git_head_plain : tidy.

Lemma remove_unlocked_plain path : plain (remove_worktree_unlocked cfg path).
Proof. unfold remove_worktree_unlocked. tidy_up. Qed.
Hint Resolve remove_unlocked_plain : tidy.

Lemma add_worktree_tidy path branch base : tidy (add_worktree cfg path branch base).
Proof. unfold add_worktree. tidy_up. Qed.
Hint Resolve add_worktree_tidy : tidy.

Lemma remove_worktree_tidy path : tidy (remove_worktree cfg path).
Proof. unfold remove_worktree. tidy_up. Qed.
Hint Resolve remove_worktree_tidy : tidy.

Lemma changed_files_plain cwd base owned : plain (changed_files cwd base owned).
Proof. unfold changed_files, stage_owned. tidy_up. Qed.
Hint Resolve changed_files_plain : tidy.

Lemma commit_all_plain cwd message : plain (commit_all cwd message).
Proof. unfold commit_all. tidy_up. Qed.
Hint Resolve commit_all_plain : tidy.

Lemma merge_commits_tidy commits label : tidy (merge_commits cfg commits label).
Proof. unfold merge_commits. tidy_up. Qed.
Hint Resolve merge_commits_tidy : tidy.

Lemma node_base_tidy node : tidy (node_base cfg node).
Proof. unfold node_base. tidy_up. Qed.
Hint Resolve node_base_tidy : tidy.

Lemma run_gate_plain g worktree : plain (run_gate cfg g worktree).
Proof. unfold run_gate. tidy_up. Qed.
Hint Resolve run_gate_plain : tidy.

Lemma run_gates_plain gs nid worktree fixable failed : plain (run_gates cfg gs nid worktree fixable failed).
Proof. revert failed. induction gs; intros failed; cbn [run_gates]; tidy_up. Qed.
Hint Resolve run_gates_plain : tidy.

Lemma repo_gates_plain nid worktree fixable : plain (repo_gates cfg nid worktree fixable).
Proof. unfold repo_gates. tidy_up. Qed.
Hint Resolve repo_gates_plain : tidy.

Lemma format_targets_plain worktree changed : plain (format_targets worktree changed).
Proof. induction changed; cbn [format_targets]; tidy_up. Qed.
Hint Resolve format_targets_plain : tidy.

Lemma repair_formatting_plain nid worktree changed : plain (repair_formatting cfg nid worktree changed).
Proof. unfold repair_formatting. tidy_up. Qed.
Hint Resolve repair_formatting_plain : tidy.

Lemma named_gate_fails_plain gs name scratch : plain (named_gate_fails cfg gs name scratch).
Proof. induction gs; cbn [named_gate_fails]; tidy_up. Qed.
Hint Resolve named_gate_fails_plain : tidy.

Lemma gate_fails_on_base_tidy reason base : tidy (gate_fails_on_base cfg reason base).
Proof. unfold gate_fails_on_base. tidy_up. Qed.
Hint Resolve gate_fails_on_base_tidy : tidy.

Lemma introduced_failure_tidy failed base : tidy (introduced_failure cfg failed base).
Proof. induction failed; cbn [introduced_failure]; tidy_up. Qed.
Hint Resolve introduced_failure_tidy : tidy.

Lemma validate_tidy node worktree base : tidy (validate cfg node worktree base).
Proof. unfold validate, ownership_barrier. tidy_up. Qed.
Hint Resolve validate_tidy : tidy.

Lemma record_run_failure_plain terminal validated given : plain (record_run_failure cfg terminal validated given).
Proof. unfold record_run_failure, session_feedback. tidy_up. Qed.
Hint Resolve record_run_failure_plain : tidy.

Lemma salvage_work_tidy node worktree terminal : tidy (salvage_work cfg node worktree terminal).
Proof. unfold salvage_work. tidy_up. Qed.
Hint Resolve salvage_work_tidy : tidy.

Lemma fail_attempt_tidy terminal worktree validated : tidy (fail_attempt cfg terminal worktree validated).
Proof. unfold fail_attempt. tidy_up. Qed.
Hint Resolve fail_attempt_tidy : tidy.

Lemma settle_denied_tidy category action reason worktree : tidy (settle_denied cfg category action reason worktree).
Proof. unfold settle_denied. tidy_up. Qed.
Hint Resolve settle_denied_tidy : tidy.

Lemma check_blocker_plain route : plain (check_blocker route).
Proof. unfold check_blocker. tidy_up. Qed.
Hint Resolve check_blocker_plain : tidy.

Lemma hydrate_tidy worktree : tidy (hydrate cfg worktree).
Proof. unfold hydrate, feedback_suffix, prompt_text. tidy_up. Qed.
Hint Resolve hydrate_tidy : tidy.

Lemma authorize_tidy origin worktree : tidy (authorize cfg origin worktree).
Proof. unfold authorize, commit_permit. tidy_up. Qed.
Hint Resolve authorize_tidy : tidy.

Lemma dispatch_tidy worktree : tidy (dispatch cfg worktree).
Proof. unfold dispatch, execute. tidy_up. Qed.
Hint Resolve dispatch_tidy : tidy.

Lemma settle_tidy terminal worktree base : tidy (settle cfg terminal worktree base).
Proof. unfold settle, revoked_in_flight. tidy_up. Qed.
Hint Resolve settle_tidy : tidy.

Lemma restore_work_plain run worktree : plain (restore_work cfg run worktree).
Proof. unfold restore_work. tidy_up. Qed.
Hint Resolve restore_work_plain : tidy.

Lemma attempt_orderly : orderly [] [] (attempt cfg).
Proof.
  assert (WorktreeLock ∉ [Slots]) by (apply (bool_decide_unpack _); by vm_compute).
  unfold attempt. tidy_up. done.
Qed.
Hint Resolve attempt_orderly : tidy.

Lemma block_plain reason exhausted : plain (block reason exhausted).
Proof. unfold block. tidy_up. Qed.
Hint Resolve block_plain : tidy.

Lemma wait_cooldown_plain waited considered : plain (wait_cooldown cfg waited considered).
Proof. unfold wait_cooldown. tidy_up. Qed.
Hint Resolve wait_cooldown_plain : tidy.

Lemma revoke_plain route revocations : plain (revoke cfg route revocations).
Proof. unfold revoke. tidy_up. Qed.
Hint Resolve revoke_plain : tidy.

Lemma recheck_plain route : plain (recheck cfg route).
Proof. unfold recheck. tidy_up. Qed.
Hint Resolve recheck_plain : tidy.

Lemma bind_route_plain choice : plain (bind_route choice).
Proof. unfold bind_route. tidy_up. Qed.
Hint Resolve bind_route_plain : tidy.

Lemma replan_plain : plain (replan cfg).
Proof. unfold replan, adapt, exclude_route, repack. tidy_up. Qed.
Hint Resolve replan_plain : tidy.

Lemma drive_loop_orderly fuel waited revocations : orderly [] [] (drive_loop cfg fuel waited revocations).
Proof. revert waited revocations. induction fuel; intros; cbn [drive_loop]; tidy_up. Qed.

Lemma integrate_node_tidy : tidy (integrate_node cfg).
Proof. unfold integrate_node, integration_checks. tidy_up. Qed.

(** Every driver follows the discipline. *)
Lemma drive_orderly k : orderly [] [] (drive cfg k).
Proof.
  unfold drive. destruct (_ || _); [apply integrate_node_tidy, not_elem_of_nil|apply drive_loop_orderly].
Qed.

End drivers.

(** * The scheduler keeps it *)

(** The drivers are in order, and while they run nobody else holds anything. *)
Record lock_inv (s : Sys) : Prop := {
  li_driver nid d : dict_get nid (s_pending s) = Some d -> orderly [] (held_of nid (s_held s)) (d_task d);
  li_holder : match s_phase s with
              | GLoop | GGather | GClose _ =>
                  forall nid, dict_get nid (s_pending s) = None -> held_of nid (s_held s) = []
              | _ => True
              end
}.

(** What the controller does to the drivers: it may cancel them, and drops finished ones. *)
Record tame (s s' : Sys) : Prop := {
  ta_held : s_held s' = s_held s;
  ta_phase : s_phase s' = s_phase s;
  ta_task nid d' : dict_get nid (s_pending s') = Some d' ->
    exists d, dict_get nid (s_pending s) = Some d /\ d_task d' = d_task d;
  ta_drop nid d : dict_get nid (s_pending s) = Some d -> dict_get nid (s_pending s') = None ->
    finished (d_task d) = true
}.

#[export] Instance tame_preorder : PreOrder tame.
Proof.
  split.
  - intros s. constructor; [done..|eauto|congruence].
  - intros s1 s2 s3 [] []. constructor; [congruence..| |].
    + intros nid d3 (d2 & H2 & E2)%ta_task1. apply ta_task0 in H2 as (d1 & ? & ?). exists d1. split; congruence.
    + intros nid d1 H1 H3. destruct (dict_get nid (s_pending s2)) as [d2|] eqn:H2; [|by eapply ta_drop0].
      destruct (ta_task0 _ _ H2) as (d & Hd & E). rewrite H1 in Hd. injection Hd as <-.
      rewrite <- E. by eapply ta_drop1.
Qed.

Lemma finished_orderly {A} h0 h (t : prog A) : finished t = true -> orderly h0 h t -> h = h0.
Proof. by destruct t. Qed.

Lemma tame_inv s s' : tame s s' -> lock_inv s -> lock_inv s'.
Proof.
  intros [] []. constructor; rewrite ?ta_held0, ?ta_phase0.
  - intros nid d' (d & Hd & ->)%ta_task0. auto.
  - destruct (s_phase s); try done; intros nid Hn;
      (destruct (dict_get nid (s_pending s)) as [d|] eqn:Hd; [|by apply li_holder0]);
      (eapply finished_orderly; [by eapply ta_drop0|by apply li_driver0]).
Qed.

Lemma tame_same s s' : s_held s' = s_held s -> s_phase s' = s_phase s -> s_pending s' = s_pending s -> tame s s'.
Proof. intros Eh Ep Ed. constructor; [done..| |]; rewrite Ed; [eauto|congruence]. Qed.

Lemma tame_cancel nid s : tame s (sys_pending (alter_at nid cancel_driver) s).
Proof.
  constructor; [done..| |]; cbn [s_pending sys_pending]; intros m d; rewrite dict_get_alter.
  - destruct (String.eqb m nid); [|eauto]. destruct (dict_get m (s_pending s)) as [d0|]; [|done].
    cbn. intros [= <-]. exists d0. split; [done|]. unfold cancel_driver. by destruct (finished (d_task d0)).
  - intros Hd. rewrite Hd. by destruct (String.eqb m nid).
Qed.

Lemma tame_cancel_all s : tame s (cancel_all s).
Proof.
  constructor; [done..| |]; unfold cancel_all; cbn [s_pending sys_pending]; intros m d; rewrite dict_get_cancel.
  - destruct (dict_get m (s_pending s)) as [d0|]; [|done]. cbn. intros [= <-]. exists d0.
    split; [done|]. unfold cancel_driver. by destruct (finished (d_task d0)).
  - intros Hd. by rewrite Hd.
Qed.

Lemma reap_one_rest s k : s_held (reap_one s k) = s_held s /\ s_phase (reap_one s k) = s_phase s.
Proof.
  unfold reap_one. destruct (dict_get k (s_pending s)) as [d|]; [|done].
  destruct (d_task d) as [|e|]; [done| |done]. by destruct e.
Qed.

Lemma tame_reap_one s k : tame s (reap_one s k).
Proof.
  destruct (reap_one_rest s k). constructor; [done..| |]; intros m d; rewrite reap_one_pending;
    destruct (dict_get k (s_pending s)) as [dk|] eqn:Ek; [|eauto| |congruence].
  - destruct (finished (d_task dk)); [|eauto]. rewrite dict_get_filter. destruct (String.eqb m k); [done|eauto].
  - destruct (finished (d_task dk)) eqn:Ef; [|congruence]. rewrite dict_get_filter.
    destruct (String.eqb_spec m k) as [->|]; congruence.
Qed.

Lemma tame_foldl {A} (f : Sys -> A -> Sys) xs s : (forall s x, tame s (f s x)) -> tame s (foldl f s xs).
Proof. intros Hf. revert s. induction xs as [|x xs IH]; intros s; cbn; [reflexivity|]. etrans; [apply Hf|apply IH]. Qed.

Lemma tame_cancel_node req s : tame s (handle_cancel_node req s).
Proof.
  unfold handle_cancel_node. cbv zeta. destruct (get_node_run s _) as [r|]; [|by apply tame_same].
  destruct (negb _); [by apply tame_same|]. etrans; [apply (tame_cancel (default "" (cr_node_id req)))|].
  repeat case_bool_decide; by apply tame_same.
Qed.

Lemma tame_retry_node cfg req s : tame s (handle_retry_node cfg req s).
Proof.
  unfold handle_retry_node. cbv zeta. destruct (get_node_run s _) as [r|]; [|by apply tame_same].
  destruct (decide_recovery _ _ _). repeat case_match; by apply tame_same.
Qed.

Lemma tame_cancel_run_node s nid : tame s (cancel_run_node s nid).
Proof. unfold cancel_run_node. cbv zeta. repeat case_match; by apply tame_same. Qed.

Lemma tame_poll cfg reqs s : tame s (fst (poll_controls cfg reqs s)).
Proof.
  revert s. induction reqs as [|req reqs IH]; intros s; cbn [poll_controls]; [reflexivity|].
  destruct (mem (cr_id req) (s_processed s)); [apply IH|]. cbv zeta.
  etrans; [by apply (tame_same s (sys_processed (cr_id req) s))|]. set (s1 := sys_processed _ s).
  destruct (String.eqb (cr_kind req) "cancel_run").
  { cbn [fst]. unfold handle_cancel_run. cbv zeta. set (s2 := sys_pending _ (sys_cancel s1)).
    transitivity (cancel_all s1); [apply tame_cancel_all|]. transitivity s2; [by apply tame_same|].
    transitivity (foldl cancel_run_node s2 (map fst (s_cells s2))); [|by apply tame_same].
    apply tame_foldl, tame_cancel_run_node. }
  destruct (String.eqb (cr_kind req) "cancel_node"); [etrans; [apply tame_cancel_node|apply IH]|].
  destruct (String.eqb (cr_kind req) "retry_node"); [etrans; [apply tame_retry_node|apply IH]|].
  match goal with |- tame _ (fst (poll_controls _ _ ?s2)) => transitivity s2; [by apply tame_same|apply IH] end.
Qed.

Lemma tame_propagate s : tame s (propagate_blocks s).
Proof.
  unfold propagate_blocks. generalize (S (length (s_cells s))). intros fuel. revert s.
  assert (Hpass : forall xs s c, tame s (fst (foldl propagate_node (s, c) xs))).
  { induction xs as [|x xs IH]; intros s c; cbn [foldl]; [reflexivity|].
    destruct (propagate_node_cases s c x) as [[-> _]|[_ (reason & ev & ->)]]; [apply IH|].
    match goal with |- tame _ (fst (foldl _ (?s2, _) _)) => transitivity s2; [by apply tame_same|apply IH] end. }
  induction fuel as [|fuel IH]; intros s; cbn [propagate_loop]; [reflexivity|].
  specialize (Hpass (map fst (s_cells s)) s false). destruct (foldl _ _ _) as [s' []]; [etrans; eauto|done].
Qed.

Section progress.
Context (cfg : Config) (env : environment).
Context (graph : graph_ok (cf_graph cfg)) (named : forall n, n ∈ nodes (cf_graph cfg) -> node_id n <> "").

Lemma spawn_lock s nid : s_phase s = GLoop -> lock_inv s -> lock_inv (spawn_one cfg s nid) /\ s_phase (spawn_one cfg s nid) = GLoop.
Proof using Type.
  intros Hp [Hd Hh]. unfold spawn_one. destruct (dict_get nid (s_pending s)) as [d|] eqn:E; [done|].
  destruct (get_node_run s nid) as [r|]; [|done]. rewrite Hp in Hh. split; [|done].
  constructor; cbn [s_pending sys_pending s_held s_phase].
  - intros m d. destruct (dict_get m (s_pending s)) as [d'|] eqn:Em.
    + rewrite (dict_get_app_some _ _ _ _ Em). intros [= <-]. auto.
    + rewrite dict_get_app_none by done. cbn [dict_get]. destruct (String.eqb_spec m nid) as [->|]; [|done].
      intros [= <-]. cbn [d_task]. rewrite Hh by done. apply drive_orderly.
  - rewrite Hp. intros m Hm. apply Hh. destruct (dict_get m (s_pending s)) as [d'|] eqn:Em; [|done].
    by rewrite (dict_get_app_some _ _ _ _ Em) in Hm.
Qed.

Lemma phase_lock p s : lock_inv s ->
  match p with GLoop | GGather | GClose _ =>
    match s_phase s with GLoop | GGather | GClose _ => True | _ => False end | _ => True end ->
  lock_inv (sys_phase p s).
Proof using Type. intros [Hd Hh] Hp. constructor; [done|]. cbn [s_phase sys_phase]. destruct p; try done; by destruct (s_phase s). Qed.

Lemma loop_round_lock late reqs s : s_phase s = GLoop -> lock_inv s -> lock_inv (loop_round cfg env late reqs s).
Proof using Type.
  intros Hl Hi. unfold loop_round. cbv zeta.
  assert (Hr : tame s (reap s)) by apply tame_foldl, tame_reap_one. destruct late.
  { cbn [finish_run].
    assert (Ht : tame s (cancel_all (reap s))) by (etrans; [exact Hr|apply tame_cancel_all]).
    apply phase_lock; [|cbn; by rewrite (ta_phase _ _ Hr), Hl]. eapply tame_inv; [|exact Hi].
    etrans; [exact Ht|by apply tame_same]. }
  pose proof (tame_poll cfg reqs (reap s)) as Hp. destruct (poll_controls cfg reqs (reap s)) as [s1 c]. cbn [fst] in Hp.
  assert (H1 : tame s s1) by (by etrans). destruct c.
  { apply phase_lock; [by eapply tame_inv|]. by rewrite (ta_phase _ _ H1), Hl. }
  pose proof (tame_propagate s1) as Hb. assert (H2 : tame s (propagate_blocks s1)) by (by etrans).
  assert (Hs : lock_inv (foldl (spawn_one cfg) (propagate_blocks s1) (ready (propagate_blocks s1))) /\
               s_phase (foldl (spawn_one cfg) (propagate_blocks s1) (ready (propagate_blocks s1))) = GLoop).
  { apply (foldl_inv (fun s => lock_inv s /\ s_phase s = GLoop)); [intros s2 x [? ?]; by apply spawn_lock|].
    split; [by eapply tame_inv|]. by rewrite (ta_phase _ _ H2). }
  destruct Hs as [Hs Hph]. case_bool_decide as He; [|exact Hs].
  match goal with |- lock_inv (main_phase (advance _ _ ?t ?s2)) =>
    pose proof (advance_frame env "" t s2) as Hf; pose proof (advance_paused env "" t s2) as Hpa;
    destruct (advance env "" t s2) as [t' s3] end.
  cbn [fst snd] in *. cbn [main_phase]. apply map_eq_nil in He. constructor.
  - intros nid d. cbn [s_pending sys_phase]. by rewrite (fr_pending _ _ _ Hf), He.
  - cbn [s_phase sys_phase]. by destruct t'.
Qed.

Lemma advance_orderly {A} nid h0 (t : prog A) s : is_Some (get_node_run s nid) ->
  orderly h0 (held_of nid (s_held s)) t ->
  let s' := snd (advance env nid t s) in orderly h0 (held_of nid (s_held s')) (fst (advance env nid t s)).
Proof using Type.
  cbv zeta. revert s. induction t as [a|e|o k IH]; intros s Hr Ht; [done..|].
  destruct o; cbn [advance]; cbv zeta; cbn [orderly] in Ht; try (apply IH; [done|by apply Ht]); try exact Ht.
  - destruct Hr as [r Er]. rewrite Er. by apply IH.
  - apply IH; [|by apply Ht]. rewrite get_set_run, String.eqb_refl. destruct Hr as [? ->]. eauto.
  - apply IH; [|by apply Ht]. by rewrite get_alter_cell.
  - apply IH; [|by apply Ht]. by rewrite get_alter_cell.
  - apply IH; [done|]. cbn [s_held sys_held]. by rewrite held_of_release.
Qed.

Lemma wake_orderly nid c (t : prog unit) s t' s' : is_Some (get_node_run s nid) ->
  orderly [] (held_of nid (s_held s)) t ->
  (paused t \/ held_of nid (s_held s) = []) ->
  wake cfg env nid c t s = Some (t', s') -> orderly [] (held_of nid (s_held s')) t'.
Proof using Type.
  intros Hr Ht Hp. destruct t as [a|e|o k]; [done..|]. unfold wake.
  assert (Hadv : forall (t : prog unit) s1, is_Some (get_node_run s1 nid) -> orderly [] (held_of nid (s_held s1)) t ->
            Some (advance env nid t s1) = Some (t', s') -> orderly [] (held_of nid (s_held s')) t').
  { intros t s1 H1 H2 [= E]. pose proof (advance_orderly nid [] t s1 H1 H2) as H. by rewrite E in H. }
  destruct o; try (destruct c; [intros [= <- <-]; by destruct Hp|]; by apply Hadv).
  - cbn [orderly] in Ht. destruct c; apply Hadv; try done; apply Ht.
  - cbn [orderly] in Ht. destruct Ht as (_ & Ha & Hw). destruct c; [apply Hadv; [done|by apply Hw]|].
    destruct (Z.ltb_spec (Z.of_nat (length (holders s r))) (capacity cfg r)); [|done].
    apply Hadv; [done|]. cbn [s_held sys_held]. unfold held_of in *. cbn. rewrite String.eqb_refl. exact Ha.
Qed.

Lemma node_paused loop n l d : node_ok cfg loop n l (Some d) -> paused (d_task d) \/ l_held l = [].
Proof using Type.
  intros [_ [[_ [_ Hs]]|[Hu _]]].
  - destruct (d_task d) as [| |o k]; [by left..|]. destruct o; try (right; apply Hs); by left.
  - unfold unwinding in Hu. destruct (d_cancelled d); [|left; apply Hu].
    destruct (d_task d) as [| |o k]; [done..|]. destruct o; try (right; apply Hu); by left.
Qed.

Lemma sys_step_lock l s : sys_inv cfg s -> lock_inv s -> lock_inv (sys_step cfg env l s).
Proof using named.
  intros Hi Hk. destruct l as [nid|late reqs]; cbn [sys_step].
  - destruct (dict_get nid (s_pending s)) as [d|] eqn:Hd; [|done].
    destruct (wake _ _ _ _ _ _) as [[t' s']|] eqn:Hw; [|done].
    pose proof (wake_touches _ _ _ _ _ _ _ _ Hw) as Ht.
    destruct (known_node cfg nid) as (n & Hn & <-); [by apply Hi; eapply pending_in|].
    destruct (si_node _ _ Hi n Hn) as (r & Hr & Hok). rewrite Hd in Hok.
    assert (Ho : orderly [] (held_of (node_id n) (s_held s')) t').
    { eapply wake_orderly; [by eexists|by apply (li_driver _ Hk)|exact (node_paused _ _ _ _ Hok)|exact Hw]. }
    constructor; cbn [put_driver s_pending sys_pending s_held s_phase].
    + intros m dm. rewrite dict_get_alter, (to_pending _ _ _ _ Ht). destruct (String.eqb_spec m (node_id n)) as [->|Hne].
      * rewrite Hd. cbn. intros [= <-]. exact Ho.
      * intros Hm. rewrite (to_held _ _ _ _ Ht) by done. by apply (li_driver _ Hk).
    + rewrite (to_phase _ _ _ _ Ht). pose proof (li_holder _ Hk) as Hh. destruct (s_phase s); try done;
        (intros m; rewrite dict_get_alter, (to_pending _ _ _ _ Ht);
         destruct (String.eqb_spec m (node_id n)) as [->|Hne]; [by rewrite Hd|];
         intros Hm; rewrite (to_held _ _ _ _ Ht) by done; by apply Hh).
  - destruct (s_phase s) as [| |r|t|r|e] eqn:Hp; [by apply loop_round_lock| | | |done|done].
    + destruct (all_done s); [|done]. cbn [finish_run]. by constructor.
    + destruct (all_done s); [|done]. by apply phase_lock.
    + destruct (wake cfg env "" false t s) as [[t' s']|] eqn:Hw; [|done].
      pose proof (wake_touches _ _ _ _ _ _ _ _ Hw) as Ht.
      constructor; [|cbn [main_phase s_phase sys_phase]; by destruct t'].
      intros m d. cbn [main_phase s_pending s_held sys_phase]. rewrite (to_pending _ _ _ _ Ht). intros Hd.
      rewrite (to_held _ _ _ _ Ht); [by apply (li_driver _ Hk)|]. intros ->.
      destruct (known_node cfg "") as (n & Hn & E); [by apply Hi; eapply pending_in|]. by destruct (named n Hn).
Qed.

Lemma reachable_lock s : reachable cfg env s -> lock_inv s.
Proof using graph named.
  intros [ls ->]. unfold run_schedule.
  assert (H : sys_inv cfg (init_sys cfg) /\ lock_inv (init_sys cfg)) by (split; [by apply init_inv|by constructor]).
  revert H. generalize (init_sys cfg). induction ls as [|l ls IH]; intros s [Hi Hk]; [done|].
  apply IH. split; [by apply sys_step_inv|by apply sys_step_lock].
Qed.

(** ** No deadlock *)

Definition awake (s : Sys) (nid : string) : Prop :=
  exists d r, dict_get nid (s_pending s) = Some d /\ wake cfg env nid (d_cancelled d) (d_task d) s = Some r.

(** The phases in which the run waits for its drivers *)
Definition waits (s : Sys) : Prop :=
  match s_phase s with GLoop | GGather | GClose _ => True | _ => False end.

(** A driver is awake, or waits for a resource that is taken. *)
Lemma awake_or_waiting s nid d : dict_get nid (s_pending s) = Some d -> finished (d_task d) = false ->
  awake s nid \/
  exists r k, d_task d = Do (Acquire r) k /\ capacity cfg r <= Z.of_nat (length (holders s r)).
Proof using Type.
  intros Hd Hf. unfold awake, wake. destruct (d_task d) as [| |o k] eqn:Et; [done..|].
  destruct o; try (left; exists d; eexists; split; [done|]; rewrite Et; reflexivity).
  - left. exists d. rewrite Et. destruct (d_cancelled d); eexists; by split.
  - destruct (d_cancelled d) eqn:Ec; [left; exists d; eexists; rewrite Et, Ec; by split|].
    destruct (Z.ltb_spec (Z.of_nat (length (holders s r))) (capacity cfg r)) as [Hlt|Hge].
    + left. exists d. eexists. rewrite Et, Ec. split; [done|]. rewrite (proj2 (Z.ltb_lt _ _) Hlt). reflexivity.
    + right. by exists r, k.
Qed.

Lemma holder_of s r : 1 <= Z.of_nat (length (holders s r)) -> exists m, r ∈ held_of m (s_held s).
Proof using Type.
  intros H. destruct (holders s r) as [|m ms] eqn:E; [cbn in H; lia|]. exists m.
  assert (Hm : m ∈ holders s r) by (rewrite E; left). unfold holders, held_of in *.
  apply list_elem_of_fmap in Hm as (h & -> & [Hh Hr]%elem_of_lfilter). apply list_elem_of_fmap. exists h.
  apply bool_decide_eq_true in Hr. split; [done|]. apply elem_of_lfilter. split; [done|apply String.eqb_refl].
Qed.

(** A holder is a driver that is not finished. *)
Lemma holder_driver s r m : lock_inv s -> waits s -> r ∈ held_of m (s_held s) ->
  exists d, dict_get m (s_pending s) = Some d /\ finished (d_task d) = false /\
    orderly [] (held_of m (s_held s)) (d_task d).
Proof using Type.
  intros Hk Hw Hr. destruct (dict_get m (s_pending s)) as [d|] eqn:Hd.
  - exists d. split; [done|]. pose proof (li_driver _ Hk _ _ Hd) as Ho. split; [|done].
    destruct (finished (d_task d)) eqn:Hf; [|done]. rewrite (finished_orderly _ _ _ Hf Ho) in Hr. by apply not_elem_of_nil in Hr.
  - pose proof (li_holder _ Hk) as Hh. unfold waits in Hw.
    assert (E : held_of m (s_held s) = []) by (destruct (s_phase s); try done; by apply Hh).
    rewrite E in Hr. by apply not_elem_of_nil in Hr.
Qed.

(** The driver that holds the worktree lock is awake. *)
Lemma locker_awake s : lock_inv s -> waits s -> 1 <= Z.of_nat (length (holders s WorktreeLock)) -> exists m, awake s m.
Proof using Type.
  intros Hk Hw [m Hm]%holder_of. destruct (holder_driver s _ m Hk Hw Hm) as (d & Hd & Hf & Ho). exists m.
  destruct (awake_or_waiting s m d Hd Hf) as [?|(r & k & Et & _)]; [done|]. rewrite Et in Ho. destruct Ho as [Ht _].
  exfalso. destruct r; cbn in Ht; [rewrite Ht in Hm; by apply not_elem_of_nil in Hm|done].
Qed.

Lemma no_deadlock s nid d : lock_inv s -> waits s -> 1 <= capacity cfg Slots ->
  dict_get nid (s_pending s) = Some d -> finished (d_task d) = false -> exists m, awake s m.
Proof using Type.
  intros Hk Hw Hc Hd Hf. destruct (awake_or_waiting s nid d Hd Hf) as [?|(r & k & _ & Hr)]; [eauto|].
  destruct r; [|by apply locker_awake]. destruct (holder_of s Slots) as [m Hm]; [lia|].
  destruct (holder_driver s _ m Hk Hw Hm) as (dm & Hdm & Hfm & Ho).
  destruct (awake_or_waiting s m dm Hdm Hfm) as [?|(r & km & Et & Hr')]; [eauto|].
  destruct r; [|by apply locker_awake]. rewrite Et in Ho. destruct Ho as [Ht _]. cbn in Ht.
  rewrite Ht in Hm. by apply not_elem_of_nil in Hm.
Qed.

(** ** Drivers cannot run forever *)

(** [t'] is a later point of [t], or an end of it. *)
Fixpoint later (t' t : prog unit) : Prop :=
  match t with
  | Do o k => finished t' = true \/ exists r, t' = k r \/ later t' (k r)
  | _ => False
  end.

Lemma later_wf t : Acc later t.
Proof using Type.
  assert (Hend : forall t, finished t = true -> Acc later t) by (intros t0 Hf; constructor; intros t'; by destruct t0).
  induction t as [a|e|o k IH]; [by apply Hend..|]. constructor. intros t' [Hf|(r & [->|Hl])]; [by apply Hend|done|].
  exact (Acc_inv (IH r) Hl).
Qed.

(** [advance] leaves a task where it is only at a suspension. *)
Lemma advance_later nid t s : is_Some (get_node_run s nid) ->
  later (fst (advance env nid t s)) t \/ fst (advance env nid t s) = t /\ paused t.
Proof using Type.
  revert s. induction t as [a|e|o k IH]; intros s Hr; [by right..|].
  assert (Hstep : forall (r : reply o) s1, is_Some (get_node_run s1 nid) ->
            later (fst (advance env nid (k r) s1)) (Do o k)).
  { intros r s1 H1. right. exists r. destruct (IH r s1 H1) as [?|[? _]]; auto. }
  destruct o; cbn [advance]; cbv zeta; try (by right); left; try (by apply Hstep).
  - destruct Hr as [r Er]. rewrite Er. apply Hstep. eauto.
  - apply (Hstep tt). rewrite get_set_run, String.eqb_refl. destruct Hr as [? ->]. eauto.
  - apply (Hstep tt). by rewrite get_alter_cell.
  - apply (Hstep tt). by rewrite get_alter_cell.
Qed.

(** A turn moves the driver on. *)
Lemma wake_later nid c t s t' s' : is_Some (get_node_run s nid) ->
  wake cfg env nid c t s = Some (t', s') -> later t' t.
Proof using Type.
  intros Hr. destruct t as [a|e|o k]; [done..|].
  assert (Hk : forall (r : reply o) s1, is_Some (get_node_run s1 nid) ->
            Some (advance env nid (k r) s1) = Some (t', s') -> later t' (Do o k)).
  { intros r s1 H1 H2. pose proof (advance_later nid (k r) s1 H1) as H. apply (inj Some) in H2. rewrite H2 in H.
    right. exists r. destruct H as [?|[? _]]; auto. }
  assert (Hgo : ~ paused (Do o k) -> Some (if c then (Raise CancelledError, s) else advance env nid (Do o k) s) = Some (t', s') ->
            later t' (Do o k)).
  { intros Hn H2. apply (inj Some) in H2. destruct c; [injection H2 as <- _; by left|].
    pose proof (advance_later nid (Do o k) s Hr) as H. rewrite H2 in H. by destruct H as [?|[_ ?]]. }
  unfold wake. destruct o; try (apply Hgo; exact (fun H => H)).
  - intros Hw. destruct c; (eapply Hk; [|exact Hw]); exact Hr.
  - intros Hw. destruct c; [eapply Hk; [|exact Hw]; exact Hr|].
    destruct (Z.ltb_spec (Z.of_nat (length (holders s r))) (capacity cfg r)); [|done].
    eapply Hk; [|exact Hw]. exact Hr.
Qed.

(** One task of the list moves on. *)
Inductive one_later : list (prog unit) -> list (prog unit) -> Prop :=
| one_here t t' l : later t' t -> one_later (t' :: l) (t :: l)
| one_there t l l' : one_later l' l -> one_later (t :: l') (t :: l).

Lemma one_later_wf l : Acc one_later l.
Proof using Type.
  induction l as [|t l IH]; [constructor; intros l' H; inversion H|].
  revert t IH. intros t Hl. pose proof (later_wf t) as Ht. revert l Hl.
  induction Ht as [t _ IHt]. intros l Hl. induction Hl as [l Hl IHl]. constructor. intros l2 H.
  inversion H as [? t' ? Hlt|? ? l' Hlt]; subst; [|by apply IHl].
  apply IHt; [done|]. by constructor.
Qed.

Definition tasks (s : Sys) : list (prog unit) := map (fun kv => d_task (snd kv)) (s_pending s).

Lemma put_later nid d t p : base.NoDup (map fst p) -> dict_get nid p = Some d -> later t (d_task d) ->
  one_later (map (fun kv => d_task (snd kv)) (alter_at nid (fun _ => {| d_task := t; d_cancelled := false |}) p))
            (map (fun kv => d_task (snd kv)) p).
Proof using Type.
  intros Hn Hd Hl. induction p as [|[k v] p IH]; [done|]. cbn in Hn. inversion Hn as [|? ? Hk Hn']; subst.
  cbn [dict_get] in Hd. cbn [alter_at map fst snd]. destruct (String.eqb_spec nid k) as [->|Hne].
  - injection Hd as ->. rewrite String.eqb_refl. cbn [snd d_task].
    assert (E : alter_at k (fun _ => {| d_task := t; d_cancelled := false |}) p = p).
    { clear -Hk. induction p as [|[m v] p IH]; [done|]. cbn in *. apply not_elem_of_cons in Hk as [? ?].
      destruct (String.eqb_spec m k); [congruence|]. f_equal. by apply IH. }
    unfold alter_at in E. rewrite E. by constructor.
  - destruct (String.eqb_spec k nid); [congruence|]. apply one_there. by apply IH.
Qed.

(** A turn of some driver *)
Definition turn (s' s : Sys) : Prop := exists nid, awake s nid /\ s' = sys_step cfg env (LDriver nid) s.

Lemma turn_later s s' : sys_inv cfg s -> turn s' s -> one_later (tasks s') (tasks s).
Proof using named.
  intros Hi (nid & (d & [t s1] & Hd & Hw) & ->). cbn [sys_step]. rewrite Hd, Hw.
  destruct (known_node cfg nid) as (n & Hn & <-); [by apply Hi; eapply pending_in|].
  destruct (si_node _ _ Hi n Hn) as (r & Hr & _).
  assert (Hl : later t (d_task d)) by (eapply wake_later; [by eexists|exact Hw]).
  pose proof (wake_touches _ _ _ _ _ _ _ _ Hw) as Ht. unfold tasks. cbn [put_driver s_pending sys_pending].
  rewrite (to_pending _ _ _ _ Ht). by apply (put_later _ d); [apply Hi|..].
Qed.

Lemma turns_wf s : sys_inv cfg s -> Acc turn s.
Proof using graph named.
  intros Hi. remember (tasks s) as l eqn:E. revert s E Hi. induction (one_later_wf l) as [l _ IH].
  intros s -> Hi. constructor. intros s' Ht. apply (IH (tasks s')); [by apply turn_later|done|].
  destruct Ht as (nid & _ & ->). by apply sys_step_inv.
Qed.

Lemma unfinished s : sys_inv cfg s -> all_done s = false ->
  exists nid d, dict_get nid (s_pending s) = Some d /\ finished (d_task d) = false.
Proof using Type.
  intros Hi Hd. unfold all_done in Hd. apply not_true_iff_false in Hd. rewrite forallb_forall in Hd.
  destruct (List.existsb (fun kv => negb (finished (d_task (snd kv)))) (s_pending s)) eqn:Ex.
  - apply existsb_exists in Ex as ([k v] & Hin & Hv%negb_true_iff). exists k, v. split; [|done].
    apply dict_get_nodup; [apply Hi|]. by apply list_elem_of_In.
  - destruct Hd. intros x Hx. apply not_true_iff_false in Ex. destruct (finished (d_task (snd x))) eqn:E; [done|].
    destruct Ex. apply existsb_exists. exists x. by rewrite E.
Qed.

(** Some turns of the drivers finish them all. *)
Lemma drivers_done s : sys_inv cfg s -> lock_inv s -> waits s -> 1 <= capacity cfg Slots ->
  exists nids, all_done (foldl (fun s l => sys_step cfg env l s) s (map LDriver nids)) = true.
Proof using graph named.
  intros Hi. pose proof (turns_wf s Hi) as Hacc. induction Hacc as [s _ IH]. intros Hk Hw Hc.
  destruct (all_done s) eqn:Hd; [by exists []|].
  destruct (unfinished s Hi Hd) as (nid & d & Hn & Hf).
  destruct (no_deadlock s nid d Hk Hw Hc Hn Hf) as [m Hm].
  destruct (IH (sys_step cfg env (LDriver m) s)) as [nids Hn'].
  - by exists m.
  - by apply sys_step_inv.
  - by apply sys_step_lock.
  - unfold waits in *. cbn [sys_step]. destruct (dict_get m (s_pending s)) as [dm|]; [|done].
    destruct (wake _ _ _ _ _ _) as [[t' s']|] eqn:E; [|done]. cbn [put_driver s_phase sys_pending].
    by rewrite (to_phase _ _ _ _ (wake_touches _ _ _ _ _ _ _ _ E)).
  - done.
  - by exists (m :: nids).
Qed.
End progress.
