(* ===== verification/RuntimeTheorems.v ===== *)
(** The theorems on the runtime: what every state of every run of [Scheduler] satisfies,
    whatever the workers, git, the router, the operator and the order of the event loop do.
    The invariants are [sys_inv] of [RuntimeSafety] and [lock_inv] of [RuntimeProgress]. *)
From S2P Require Import Prelude PyStr Time Contracts Recovery Ladder Async Runtime Scheduler.
From S2P Require Import RuntimeLogic RuntimeDriver RuntimeSafety RuntimeProgress.

(** What the constructors guarantee about the graph of a run *)
Class WellFormed (cfg : Config) : Prop := {
  wf_graph : graph_ok (cf_graph cfg);
  wf_named n : n ∈ nodes (cf_graph cfg) -> node_id n <> ""
}.

(** * A sample run

    Two implementation nodes and a review node; every collaborator answers well. *)
Module Sample.

(** The configurations differ in the number of worker slots and in the permit duty. *)
Definition config (slots : Z) (permits : bool) : Config :=
  {| cf_policy := {| rp_max_parallel := slots; rp_max_attempts := 4; attempt_timeout_seconds := 900;
       verify_timeout_seconds := 600; run_deadline_seconds := 3600; require_review := true;
       max_cooldown_wait_seconds := 120; context_budget_bytes := 60000;
       min_context_budget_bytes := 4000; run_repo_gates := true; require_dispatch_permit := permits |};
     cf_graph := sample_graph; cf_authority := None; cf_repo := "/r";
     cf_run_dir := "/r/runs/x"; cf_run_digest := "d"; cf_base_sha := "base"; cf_keywords := [];
     cf_session_feedback := true; cf_reviewer := true |}.

Definition cfg : Config := config 2 false.

(** Permits are required and there is no authority. *)
Definition strict : Config := config 2 true.

(** A policy without worker slots *)
Definition no_slots : Config := config 0 false.

Definition route_of (id provider : string) : RouteVerdict :=
  {| v_route := id; v_provider := provider; v_reached := None; v_failed := None; v_reason := "";
     v_capacity := CapacityClass.FREE; v_cooldown_until := None; v_rank := None; v_tier := None;
     v_context := Some 100000; v_tools := None; v_structured := None; v_price := None; v_pool := "";
     v_capacity_evidence := ""; v_cooldown_scope := "" |}.

Definition route : RouteVerdict := route_of "cc/claude" "cc".

Definition terminal : WorkerTerminal :=
  {| wt_ok := true; wt_output := "done"; wt_stop_reason := ""; wt_error := ""; wt_status_code := None;
     wt_retry_after := None; wt_model := "m"; wt_executor_kind := "" |}.

Definition passing_review : ReviewResult :=
  {| rr_status := "PASS"; rr_reviewer := "r"; rr_route_id := "x"; rr_findings := []; rr_detail := "" |}.

(** The answers, with the worker's and the verification's as parameters *)
Definition answers (worker : string -> WorkerTerminal) (verify : list string -> Z) : environment :=
  fun _ q =>
  match q return env_exn + answer q with
  | QNow => inr 0
  | QBlocker _ _ => inr None
  | QExists _ => inr false
  | QIsSymlink _ => inr false
  | QFormatTarget _ _ => inr true
  | QRestore _ _ _ => inr ([], [], "")
  | QSalvage _ _ _ _ => inr ([], [], "")
  | QPrompt _ _ _ _ _ => inr "do it"
  | QOrigin _ _ _ => inr None
  | QClassify t _ => inr (classify t)
  | QDiscoverGates _ => inr []
  | QResolveGate a _ => inr a
  | QResolveVerify a => inr a
  | QTokenHex => inr "t"
  | QSelect _ _ => inr (Some route, [route])
  | QBind _ _ => inr None
  | QRun argv _ _ => inr (verify argv, "")
  | QExecute _ _ _ _ id => inr (worker id)
  | QCommitPermit _ _ _ => inr None
  | QEpoch _ => inr 0
  | QReview _ _ _ _ _ => inr passing_review
  | _ => inr tt
  end.

Definition env : environment := answers (fun _ => terminal) (fun _ => 0).

(** [n] rounds of the event loop in which every driver has a turn *)
Definition rounds (n : nat) : list label :=
  concat (repeat [LController false []; LDriver "a"; LDriver "b"; LDriver "r"] n).

Definition after (n : nat) : Sys := run_schedule cfg env (rounds n).

(** Turns of one driver, and controller rounds with and without a control request *)
Definition turns (nid : string) (n : nat) : list label := repeat (LDriver nid) n.
Definition tick : label := LController false [].
Definition control (id kind nid : string) : label :=
  LController false [{| cr_id := id; cr_kind := kind; cr_node_id := Some nid; cr_requested_by := "op" |}].

(** The first worker of "a" fails, and for a while no route is eligible. *)
Definition flaky : environment := fun n q =>
  match q return env_exn + answer q with
  | QSelect _ _ => if (10 <=? n)%nat && (n <? 68)%nat then inr (None, []) else inr (Some route, [route])
  | q => answers (fun id => if String.eqb id "a-a1"
                            then {| wt_ok := false; wt_output := ""; wt_stop_reason := ""; wt_error := "boom";
                                    wt_status_code := Some 500; wt_retry_after := None; wt_model := "m";
                                    wt_executor_kind := "" |}
                            else terminal) (fun _ => 0) n q
  end.

(** Removing the worktree fails. *)
Definition disk : environment := fun n q =>
  match q return env_exn + answer q with
  | QExists _ => inr (58 <? n)%nat
  | QRun argv _ _ => if bool_decide (firstn 3 argv = ["git"; "worktree"; "remove"]) && (58 <? n)%nat
                     then inl (EOther "OSError" "disk") else inr (0, "")
  | q => env n q
  end.


(** The first worker of "a" fails; after the second one git cannot list the changed files;
    each attempt runs on another route. *)
Definition crashing : environment := fun n q =>
  match q return env_exn + answer q with
  | QSelect _ _ => inr (Some (if (n <? 20)%nat then route
                              else if (n <? 100)%nat then route_of "cx/gpt" "cx"
                              else route_of "kr/glm" "kr"), [route])
  | QRun argv cwd _ => if bool_decide (firstn 3 argv = ["git"; "diff"; "--cached"]) && contains cwd "a-a2"
                       then inl (EOther "OSError" "spawn") else inr (0, "")
  | q => flaky 0%nat q
  end.

Lemma after_reachable n : reachable cfg env (after n).
Proof. by exists (rounds n). Qed.

End Sample.

Lemma sample_graph_named n : n ∈ nodes sample_graph -> node_id n <> "".
Proof.
  intros Hn. cbn in Hn. repeat (apply elem_of_cons in Hn as [->|Hn]; [done|]). by apply not_elem_of_nil in Hn.
Qed.

#[export] Instance sample_well_formed : WellFormed Sample.cfg.
Proof. split; [eapply work_graph_ok; exact sample_graph_ok|apply sample_graph_named]. Qed.

#[export] Instance strict_well_formed : WellFormed Sample.strict.
Proof. split; [eapply work_graph_ok; exact sample_graph_ok|apply sample_graph_named]. Qed.

(** * Helper lemmas *)

Lemma trace_of_app nid log log' : trace_of nid (log ++ log') = trace_of nid log ++ trace_of nid log'.
Proof. unfold trace_of. by rewrite List.filter_app, map_app. Qed.

Lemma trace_of_cons nid o log : trace_of nid ((nid, o) :: log) = o :: trace_of nid log.
Proof. unfold trace_of. cbn. by rewrite String.eqb_refl. Qed.

Lemma gated_at cfg n tr tr' prompt route cwd timeout id :
  gated cfg n (tr ++ OAsk (QExecute prompt route cwd timeout id) :: tr') -> send_checked cfg n prompt route id tr.
Proof.
  induction tr' as [|o tr' IH] using rev_ind; intros H.
  - inversion H as [E|tr0 o Ho Hg E|tr0 p' r' c' t' i' Hs Hg E].
    + by destruct tr.
    + apply app_inj_tail in E as [-> ->]. done.
    + apply app_inj_tail in E as [-> E]. by simplify_eq.
  - rewrite app_comm_cons, app_assoc in H. apply IH.
    inversion H as [E|tr0 o' Ho Hg E|tr0 p' r' c' t' i' Hs Hg E].
    + by destruct tr.
    + by apply app_inj_tail in E as [-> _].
    + by apply app_inj_tail in E as [-> _].
Qed.

Section theorems.
Context (cfg : Config) (env : environment) `{WF : !WellFormed cfg}.

Lemma run_inv s : reachable cfg env s -> sys_inv cfg s.
Proof using WF. apply reachable_inv; [apply wf_graph|apply wf_named]. Qed.

Lemma run_node_good s n r : reachable cfg env s -> n ∈ nodes (cf_graph cfg) ->
  get_node_run s (node_id n) = Some r -> good cfg n r (trace_of (node_id n) (s_log s)).
Proof using WF.
  intros Hs%run_inv Hn Hr. destruct (si_node _ _ Hs n Hn) as (r' & Hr' & Hg & _). by simplify_eq.
Qed.

Lemma run_node_some s n : reachable cfg env s -> n ∈ nodes (cf_graph cfg) ->
  exists r, get_node_run s (node_id n) = Some r.
Proof using WF. intros Hs%run_inv Hn. destruct (si_node _ _ Hs n Hn) as (r & Hr & _). eauto. Qed.

(** C1: nothing is sent to a worker unchecked: at every send of every run, since the node's
    previous send, the route passed the launch gate, its blocker was looked up and was clear,
    the prompt is within the policy's byte budget, and with a dispatch authority a permit was
    committed for that route under the attempt's id by a gateway whose reported origin matches
    the bound one (without an authority, permits are not required). *)
Theorem sends_gated s n pre post prompt route cwd timeout id :
  reachable cfg env s -> n ∈ nodes (cf_graph cfg) ->
  s_log s = pre ++ (node_id n, OAsk (QExecute prompt route cwd timeout id)) :: post ->
  send_checked cfg n prompt route id (trace_of (node_id n) pre).
Proof using WF.
  intros Hs Hn E. destruct (run_node_some s n Hs Hn) as [r Hr].
  pose proof (g_gated _ _ _ _ (run_node_good s n r Hs Hn Hr)) as Hg.
  rewrite E, trace_of_app, trace_of_cons in Hg. by eapply gated_at.
Qed.

(** C2: a node is VALIDATED only on evidence: its verification command exited 0 after its last
    send, and unless it is an integration or review node, the worker answered with a non-empty
    output that does not report a block, and, if it is an implement node or owns no files,
    every file git lists as changed is one the node owns. Of a node of another kind that lists
    owned files the changed files are not checked ([owned_files_unchecked]). *)
Theorem validated_on_evidence s n r :
  reachable cfg env s -> n ∈ nodes (cf_graph cfg) -> get_node_run s (node_id n) = Some r ->
  nr_state r = NodeState.VALIDATED -> evidence n (trace_of (node_id n) (s_log s)).
Proof using WF. intros Hs Hn Hr. apply (g_evidence _ _ _ _ (run_node_good s n r Hs Hn Hr)). Qed.

(** C5: every node is sent at most once per attempt, and its attempts are bounded. The sends
    of a node carry the ids of its attempts, each with a larger number than the one before and
    none above the attempts the node has made, so no attempt is sent twice; there are at most
    as many sends as attempts. A worker node makes at most [max_attempts] attempts, operator
    retries included; an integration or review node is never sent to a worker. *)
Theorem attempts_bounded s n r :
  reachable cfg env s -> n ∈ nodes (cf_graph cfg) -> get_node_run s (node_id n) = Some r ->
  let tr := trace_of (node_id n) (s_log s) in
  numbered n (nr_attempt r) tr /\ Z.of_nat (sends tr) <= nr_attempt r /\
  if is_integration n then sends tr = 0%nat
  else nr_attempt r <= Z.max 0 (rp_max_attempts (cf_policy cfg)).
Proof using WF.
  intros Hs Hn Hr tr. destruct (run_node_good s n r Hs Hn Hr) as [_ Hsends Hnum Hsilent Hmax _ _ _].
  split; [exact Hnum|]. split; [exact Hsends|]. destruct (is_integration n); auto.
Qed.

(** C6: at most [min(policy.max_parallel, graph.max_parallel)] drivers wait for a worker at the
    same time, cancelled ones that have not noticed included. *)
Theorem parallel_bounded s :
  reachable cfg env s ->
  Z.of_nat (length (List.filter (fun kv => executing (snd kv)) (s_pending s))) <=
    Z.max 0 (Z.min (rp_max_parallel (cf_policy cfg)) (max_parallel (cf_graph cfg))).
Proof using WF. intros Hs%run_inv. by apply (executing_bound cfg s). Qed.

(** C4: dependencies first: a node that has a driver, was ever sent to a worker, or is in a
    state other than PLANNED and BLOCKED has all its dependencies VALIDATED. *)
Theorem dependencies_first s n r d :
  reachable cfg env s -> n ∈ nodes (cf_graph cfg) -> get_node_run s (node_id n) = Some r ->
  started s n r -> d ∈ depends_on n -> state_is s NodeState.VALIDATED d = true.
Proof using WF. intros Hs%run_inv. by apply (si_deps _ _ Hs n r d). Qed.

(** C7: a run that leaves its loop by itself is settled: if a round of the controller with
    deadline to spare and no [cancel_run] leaves the loop, every node is VALIDATED or BLOCKED;
    no node is left waiting. *)
Theorem run_settles s reqs s' :
  reachable cfg env s -> s_phase s = GLoop -> s' = sys_step cfg env (LController false reqs) s ->
  s_phase s' <> GLoop -> s_phase s' <> GGather ->
  forall n, n ∈ nodes (cf_graph cfg) ->
    state_is s' NodeState.VALIDATED (node_id n) = true \/ state_is s' NodeState.BLOCKED (node_id n) = true.
Proof using WF.
  intros Hs%run_inv Hl -> H1 H2 n Hn. cbn [sys_step] in *. rewrite Hl in *.
  destruct (loop_settled cfg env wf_graph wf_named s reqs Hs Hl H1 H2 n Hn) as (r & Hr & Hc).
  unfold state_is. rewrite Hr. destruct Hc; [left|right]; by apply bool_decide_eq_true.
Qed.

(** C3: COMPLETE is earned: a run that ended COMPLETE has every node VALIDATED, and when the
    policy requires a review, a review result that passed. *)
Theorem complete_is_earned s res :
  reachable cfg env s -> s_phase s = GDone res -> res_outcome res = RunOutcome.COMPLETE ->
  (forall n, n ∈ nodes (cf_graph cfg) -> state_is s NodeState.VALIDATED (node_id n) = true) /\
  (require_review (cf_policy cfg) = true -> exists rv, res_review res = Some rv /\ review_passed rv = true).
Proof using WF.
  intros Hs%run_inv Hp Hc. pose proof (si_phase _ _ Hs) as H. unfold phase_ok in H. rewrite Hp in H. by apply H.
Qed.


(** Closed for good: a BLOCKED node without a driver whose reason says it was cancelled, or
    that has no recorded failure (a node blocked because a dependency is blocked), keeps its
    record whatever follows, operator retries of it and of its dependencies included; the run
    cannot end COMPLETE any more. *)
Theorem closed_for_good s n r ls :
  reachable cfg env s -> n ∈ nodes (cf_graph cfg) -> get_node_run s (node_id n) = Some r ->
  dict_get (node_id n) (s_pending s) = None -> nr_state r = NodeState.BLOCKED ->
  nr_failures r = [] \/ contains (nr_reason r) "cancelled" = true ->
  let s' := foldl (fun s l => sys_step cfg env l s) s ls in
  get_node_run s' (node_id n) = Some r /\
  forall res, s_phase s' = GDone res -> res_outcome res <> RunOutcome.COMPLETE.
Proof using WF.
  intros Hs Hn Hr Hd Hb Hf s'.
  assert (Hp : parked s' (node_id n) r) by (apply parked_forever; [by apply wf_named|by split_and!]).
  split; [apply Hp|]. intros res Hres Hc.
  assert (Hs' : reachable cfg env s').
  { destruct Hs as [ls0 ->]. exists (ls0 ++ ls). unfold s', run_schedule. by rewrite foldl_app. }
  apply run_inv in Hs'. pose proof (si_phase _ _ Hs') as H. unfold phase_ok in H. rewrite Hres in H.
  destruct (H Hc) as [Hv _]. specialize (Hv n Hn). unfold validated, state_is in Hv.
  destruct Hp as (Hg & _ & Hst & _). by rewrite Hg, Hst in Hv.
Qed.

(** In authority mode without an authority nothing is ever sent. *)
Theorem no_authority_no_send s n :
  reachable cfg env s -> n ∈ nodes (cf_graph cfg) ->
  require_dispatch_permit (cf_policy cfg) = true -> cf_authority cfg = None ->
  sends (trace_of (node_id n) (s_log s)) = 0%nat.
Proof using WF.
  intros Hs Hn Hreq Hau. destruct (run_node_some s n Hs Hn) as [r Hr].
  pose proof (g_gated _ _ _ _ (run_node_good s n r Hs Hn Hr)) as Hg.
  induction Hg as [|tr o Ho Hg IH|tr prompt route cwd timeout id Hc Hg IH]; [done|..].
  - unfold sends in *. rewrite List.filter_app. cbn. by rewrite Ho, app_nil_r.
  - destruct Hc as (_ & _ & _ & attempt & _ & Hx). rewrite Hau in Hx. congruence.
Qed.

(** C9: the drivers of a run cannot run forever: from no state is there an infinite sequence
    of turns of the drivers without a round of the controller. *)
Theorem turns_terminate s :
  reachable cfg env s -> ~ exists f : nat -> Sys, f O = s /\ forall i, turn cfg env (f (S i)) (f i).
Proof using WF.
  intros Hs (f & Ef & Hf). pose proof (turns_wf cfg env wf_graph wf_named s (run_inv s Hs)) as Ha.
  clear Hs. revert f Ef Hf. induction Ha as [s _ IH]. intros f <- Hf.
  exact (IH (f 1%nat) (Hf O) (fun i => f (S i)) eq_refl (fun i => Hf (S i))).
Qed.

(** C8: no deadlock when the policy allows at least one worker: while the run waits for
    drivers, one of the unfinished drivers can always take a turn (the worker slots and the
    worktree lock are taken in order), and some turns of the drivers, which need nothing from
    the controller, finish them all. A policy that allows none is not refused, and deadlocks
    ([no_slots_no_turn]). *)
Theorem drivers_finish s :
  reachable cfg env s -> waits s -> 1 <= rp_max_parallel (cf_policy cfg) ->
  (all_done s = false -> exists nid, awake cfg env s nid) /\
  exists nids, all_done (foldl (fun s l => sys_step cfg env l s) s (map LDriver nids)) = true.
Proof using WF.
  intros Hs Hw Hp. pose proof (reachable_lock cfg env wf_graph wf_named s Hs) as Hk. apply run_inv in Hs.
  assert (Hc : 1 <= capacity cfg Slots) by (cbn; pose proof (go_parallel _ (wf_graph (cfg := cfg))); lia).
  split; [|by apply drivers_done; [apply wf_graph|apply wf_named|..]].
  intros Hd. destruct (unfinished cfg s Hs Hd) as (nid & d & Hn & Hf). by eapply no_deadlock.
Qed.

End theorems.

(** * Propagation of blocks *)

Definition blocked_by (s : Sys) (r : NodeRun) : Prop :=
  exists d, d ∈ depends_on (nr_node r) /\ state_is s NodeState.BLOCKED d = true.

(** [s'] is [s] with some planned nodes blocked, each for a dependency blocked in [s']. *)
Record propagated (s s' : Sys) : Prop := {
  pg_other m : state_is s NodeState.PLANNED m = false -> get_node_run s' m = get_node_run s m;
  pg_planned m r : get_node_run s m = Some r -> nr_state r = NodeState.PLANNED ->
    get_node_run s' m = Some r \/
    exists r', get_node_run s' m = Some r' /\ nr_node r' = nr_node r /\
      nr_state r' = NodeState.BLOCKED /\ blocked_by s' r'
}.

Lemma propagated_blocked s s' d : propagated s s' ->
  state_is s NodeState.BLOCKED d = true -> state_is s' NodeState.BLOCKED d = true.
Proof.
  intros Hp Hd. unfold state_is in *. rewrite (pg_other _ _ Hp); [done|].
  unfold state_is. destruct (get_node_run s d); [|done]. apply bool_decide_eq_true in Hd.
  by rewrite bool_decide_false by congruence.
Qed.

Lemma blocked_by_mono s s' r : propagated s s' -> blocked_by s r -> blocked_by s' r.
Proof. intros Hp (d & Hd & Hb). exists d. eauto using propagated_blocked. Qed.

#[export] Instance propagated_preorder : PreOrder propagated.
Proof.
  split.
  - intros s. constructor; auto.
  - intros s1 s2 s3 H12 H23. constructor.
    + intros m Hm. rewrite (pg_other _ _ H23); [by apply (pg_other _ _ H12)|].
      unfold state_is in *. by rewrite (pg_other _ _ H12).
    + intros m r Hr Hs. destruct (pg_planned _ _ H12 m r Hr Hs) as [H2|(r2 & H2 & En & Eb & Hb)].
      * by apply (pg_planned _ _ H23).
      * right. exists r2. split; [|split_and!; try done; by eapply blocked_by_mono].
        rewrite (pg_other _ _ H23); [done|]. unfold state_is. rewrite H2. by rewrite Eb.
Qed.

Lemma propagate_node_propagated s c nid : propagated s (fst (propagate_node (s, c) nid)).
Proof.
  destruct (propagate_node_cases s c nid) as [[-> _]|[Hd (reason & ev & ->)]]; [reflexivity|]. cbn [fst].
  pose proof (doomed_planned _ _ Hd) as Hp. destruct Hd as (r & Hr & Hs & Hf).
  assert (Hget : forall m, get_node_run (log_event "node_state" nid ev (set_run nid
      (fun r => with_state NodeState.BLOCKED (with_reason reason r)) s)) m
      = if String.eqb m nid then (fun r => with_state NodeState.BLOCKED (with_reason reason r)) <$> get_node_run s m
        else get_node_run s m) by (intros m; apply get_set_run).
  constructor.
  - intros m Hm. rewrite Hget. destruct (String.eqb_spec m nid) as [->|]; [congruence|done].
  - intros m rm Hrm Hsm. rewrite Hget. destruct (String.eqb_spec m nid) as [->|]; [|by left].
    simplify_eq. rewrite Hr. right. eexists. split; [done|]. split_and!; [done..|].
    destruct (List.filter _ _) as [|d ds] eqn:E; [done|]. assert (Hin : d ∈ d :: ds) by left.
    rewrite <- E in Hin. apply elem_of_lfilter in Hin as [Hin Hb]. exists d. split; [done|].
    unfold state_is in *. rewrite Hget. destruct (String.eqb_spec d nid) as [->|]; [|done].
    rewrite Hr in Hb. apply bool_decide_eq_true in Hb. congruence.
Qed.

Lemma propagate_loop_propagated fuel s : propagated s (propagate_loop fuel s).
Proof.
  assert (Hpass : forall xs s c, propagated s (fst (foldl propagate_node (s, c) xs))).
  { induction xs as [|x xs IH]; intros s0 c; cbn [foldl]; [reflexivity|].
    pose proof (propagate_node_propagated s0 c x) as Hx. destruct (propagate_node (s0, c) x) as [s1 c1].
    etrans; [exact Hx|apply IH]. }
  revert s. induction fuel as [|fuel IH]; intros s; cbn [propagate_loop]; [reflexivity|].
  specialize (Hpass (map fst (s_cells s)) s false). destruct (foldl _ _ _) as [s' []]; [|done].
  etrans; [exact Hpass|apply IH].
Qed.

(** [_propagate_blocks] blocks exactly what it should: it stops, afterwards no PLANNED node
    has a BLOCKED dependency, every node it blocked has one, and it touches no other node. *)
Theorem propagate_exact s :
  let s' := propagate_blocks s in
  (forall nid, ~ doomed s' nid) /\
  (forall nid, state_is s NodeState.PLANNED nid = false -> get_node_run s' nid = get_node_run s nid) /\
  (forall nid r, get_node_run s nid = Some r -> nr_state r = NodeState.PLANNED ->
     get_node_run s' nid = Some r \/
     exists r', get_node_run s' nid = Some r' /\ nr_state r' = NodeState.BLOCKED /\ blocked_by s' r').
Proof.
  intros s'. pose proof (propagate_loop_propagated (S (length (s_cells s))) s) as Hp.
  split; [intros nid; apply propagate_complete|]. split; [apply (pg_other _ _ Hp)|].
  intros nid r Hr Hs. destruct (pg_planned _ _ Hp nid r Hr Hs) as [?|(r' & ? & _ & ? & ?)]; [by left|right; eauto].
Qed.

(** * Context budget *)

Lemma worker_plan_id (x : string) : String.eqb (strip ("worker:" +:+ x)) "" = false.
Proof.
  assert (H : forall c s, is_space c = false -> String.eqb (strip (String c s)) "" = false).
  { intros c s Hc. unfold strip. cbn [lstrip_by]. rewrite Hc. cbn [rstrip_by]. rewrite Hc. by destruct (rstrip_by is_space s). }
  by apply (H (Ascii.ascii_of_nat 119)).
Qed.

Lemma plan_accepted x route total out tool window :
  strip route <> "" -> 0 <= out -> 0 <= tool -> 1 <= total - out - tool ->
  match window with Some w => 1 <= w | None => True end ->
  plan_valid {| cp_plan_id := "worker:" +:+ x; cp_candidate_id := route; cp_token_budget := total;
                cp_output_token_reserve := out; cp_tool_token_reserve := tool;
                cp_candidate_context_window := window |} = true.
Proof.
  intros Hr Ho Ht Hi Hw. unfold plan_valid, input_token_budget.
  cbn [cp_plan_id cp_candidate_id cp_token_budget cp_output_token_reserve cp_tool_token_reserve cp_candidate_context_window].
  rewrite worker_plan_id, (proj2 (String.eqb_neq _ _) Hr). cbn [negb andb].
  destruct window; rewrite !andb_true_iff, !Z.leb_le; split_and!; try done; lia.
Qed.

(** For every node and byte budget, the plan [_context_plan] builds leaves at least one
    input token and stays within the route's window, [ContextPlan] accepts it whenever the
    route has a name, and a prompt [_attempt] lets through leaves the output reserve and the
    safety reserve (1536 tokens) free in the window: no prompt fits a smaller one. *)
Theorem context_plan_bounds run budget :
  let plan := context_plan run budget in
  1 <= input_token_budget plan /\
  (forall w, cp_candidate_context_window plan = Some w -> cp_token_budget plan <= w) /\
  (strip (nr_route_id run) <> "" -> plan_valid plan = true) /\
  (forall w b prompt, nr_selected_context_window run = Some w -> 1 <= w ->
     prompt_fits plan b prompt = true ->
     estimate_tokens prompt + WORKER_OUTPUT_RESERVE + WORKER_SAFETY_RESERVE <= w).
Proof.
  cbv zeta. unfold input_token_budget, context_plan. cbv zeta.
  cbn [cp_token_budget cp_output_token_reserve cp_tool_token_reserve cp_candidate_context_window].
  unfold WORKER_OUTPUT_RESERVE, WORKER_SAFETY_RESERVE.
  assert (Hw : forall w, (match nr_selected_context_window run with
      | Some w => if w <? 1 then None else Some w | None => None end) = Some w -> 1 <= w).
  { intros w. destruct (nr_selected_context_window run) as [v|]; [|done]. destruct (Z.ltb_spec v 1); [done|].
    intros [= ->]. done. }
  destruct (match nr_selected_context_window run with Some w => _ | None => None end) as [v|] eqn:Ev; cbn [from_option id].
  - specialize (Hw v eq_refl). split; [lia|]. split; [intros w [= <-]; lia|]. split.
    + intros Hr. by apply plan_accepted; cbn; [|lia..].
    + intros w b prompt Es H1. rewrite Es in Ev. destruct (Z.ltb_spec w 1); [lia|]. injection Ev as ->.
      unfold prompt_fits, input_limit, estimate_tokens, WORKER_OUTPUT_RESERVE, WORKER_SAFETY_RESERVE.
      cbn [cp_candidate_context_window]. rewrite andb_true_iff, Z.leb_le.
      generalize ((Z.of_nat (String.length prompt) + 3) / 4). lia.
  - clear Hw. split; [lia|]. split; [done|]. split.
    + intros Hr. by apply plan_accepted; cbn; [|lia..].
    + intros w b prompt Es H1. rewrite Es in Ev. by destruct (Z.ltb_spec w 1); [lia|].
Qed.

(** * Independent review *)

Section along.
Context (P : op -> Prop).

Lemma along_bind {A B} (t : prog A) (f : A -> prog B) :
  along P t -> (forall a, along P (f a)) -> along P (t ≫= f).
Proof. intros Ht Hf. induction t as [a|e|o k IH]; [apply Hf|done|]. destruct Ht. split; [done|]. intros r. by apply IH. Qed.

Lemma along_try_except {A} (t : prog A) h :
  along P t -> (forall e t', h e = Some t' -> along P t') -> along P (try_except t h).
Proof.
  intros Ht Hh. induction t as [a|e|o k IH]; cbn [try_except]; [done| |].
  - destruct (h e) eqn:E; [by eapply Hh|done].
  - destruct Ht. split; [done|]. intros r. by apply IH.
Qed.

Lemma along_try_finally {A} (t : prog A) f : along P t -> along P f -> along P (try_finally t f).
Proof.
  intros Ht Hf. induction t as [a|e|o k IH]; cbn [try_finally].
  - by apply (along_bind f (fun _ => Ret a)).
  - by apply (along_bind f (fun _ => Raise e)).
  - destruct Ht. split; [done|]. intros r. by apply IH.
Qed.

Lemma along_perform o : P o -> along P (perform o : prog (reply o)).
Proof. by split. Qed.

Lemma along_call q : P (Call q) -> along P (call q).
Proof. intros H. apply along_bind; [by apply along_perform|]. by intros []. Qed.

Lemma along_await q : P (Await q) -> along P (await q).
Proof. intros H. apply along_bind; [by apply along_perform|]. by intros []. Qed.

Lemma along_with {A} r (t : prog A) : P (Acquire r) -> P (Release r) -> along P t -> along P (async_with r t).
Proof.
  intros Ha Hr Ht. apply along_bind; [by apply along_perform|]. intros w.
  apply along_bind; [by destruct w|]. intros _. apply along_try_finally; [done|by apply along_perform].
Qed.

Lemma along_for_each {A} (f : A -> prog unit) xs : (forall x, along P (f x)) -> along P (for_each f xs).
Proof. intros Hf. induction xs; cbn [for_each]; [done|]. by apply along_bind. Qed.
End along.

Ltac along := repeat first
  [ done
  | apply along_with
  | apply along_call
  | apply along_await
  | apply along_for_each; intros ?
  | apply along_try_finally
  | apply along_bind; [|intros ?]
  | match goal with |- along _ (let '_ := ?x in _) => destruct x end
  | match goal with |- along _ (if ?b then _ else _) => destruct b end ].

(** A review asked of the reviewer excludes every route that wrote code in the run, failed
    attempts included, and at the family level every family of theirs. *)
Definition independent (runs : list NodeRun) (o : op) : Prop :=
  match o with
  | Await (QReview level _ _ routes families) =>
      (forall run, run ∈ runs -> nr_route_id run <> "" -> nr_route_id run ∈ routes) /\
      (forall run h, run ∈ runs -> h ∈ nr_history run -> h_route_id h <> "" -> h_route_id h ∈ routes) /\
      (level = "family" -> forall r, r ∈ routes -> route_family r ∈ families)
  | _ => True
  end.

Lemma merge_commits_along cfg runs commits label : along (independent runs) (merge_commits cfg commits label).
Proof.
  unfold merge_commits, add_worktree, remove_worktree, remove_worktree_unlocked, git_head, git_call, runner.
  along.
Qed.

Lemma elem_of_dedupe x xs : x ∈ dedupe xs <-> x ∈ xs.
Proof. unfold dedupe. rewrite dedupe_from_elem. split; [by intros [? _]|]. intros ?. split; [done|apply not_elem_of_nil]. Qed.

Lemma implementers_spec runs r : r <> "" ->
  r ∈ implementers runs <-> exists run, run ∈ runs /\ (r = nr_route_id run \/ exists h, h ∈ nr_history run /\ r = h_route_id h).
Proof.
  intros Hr. unfold implementers. rewrite elem_of_dedupe, elem_of_lfilter, elem_of_concat. split.
  - intros [(l & Hin & Hl) _]. apply list_elem_of_fmap in Hl as (run & -> & Hrun). exists run. split; [done|].
    apply elem_of_cons in Hin as [?|Hin]; [by left|right]. apply list_elem_of_fmap in Hin as (h & ? & ?). eauto.
  - intros (run & Hrun & Hx). split; [|by apply negb_true_iff, String.eqb_neq].
    eexists. split; [|apply list_elem_of_fmap; eexists; eauto].
    destruct Hx as [->|(h & Hh & ->)]; [by left|right]. apply list_elem_of_fmap. eauto.
Qed.

(** C10: the review is independent of the recorded routes: in [_conclude], every request to
    the reviewer excludes every route the nodes of the run record, as their current route or
    in their history (the failed attempts included), and the first round all their model
    families too. A route that the nodes no longer record is not excluded: an attempt whose
    driver crashed leaves no history ([crashed_route_may_review]). *)
Theorem review_independent cfg runs : along (independent runs) (conclude cfg runs).
Proof.
  assert (Hr : forall head level fams, (level = "family" -> forall r, r ∈ implementers runs -> route_family r ∈ fams) ->
            along (independent runs) (review_round cfg level head (implementers runs) fams)).
  { intros head level fams Hf. unfold review_round. apply along_bind; [|intros ?; along].
    apply along_try_except; [|by intros []; intros t [= <-]]. apply along_await. split_and!; [| |done].
    - intros run Hin Hne. apply implementers_spec; eauto.
    - intros run h Hin Hh Hne. apply implementers_spec; eauto 6. }
  assert (Hrev : forall ref, along (independent runs) (review cfg ref (implementers runs))).
  { intros ref. unfold review. apply along_bind.
    - apply Hr. intros _ r Hin. rewrite elem_of_dedupe. apply list_elem_of_fmap. eauto.
    - intros rv. destruct (_ && _); [by apply Hr|done]. }
  unfold conclude, finish. destruct (List.find _ runs); [along|].
  apply along_bind; [destruct (leaf_commits runs) as [|c []]; [apply merge_commits_along|done|apply merge_commits_along]|].
  intros ref. specialize (Hrev ref). along.
Qed.

(** * The constructors *)

Lemma work_node_named a n : work_node a = Ok n -> node_id n <> "".
Proof.
  unfold work_node. cbv zeta. destruct (String.eqb_spec (strip (a_node_id a)) "") as [|Hs]; [done|].
  intros H E. inv_ok. subst. cbn in E. by rewrite E in Hs.
Qed.

(** C27: what [WorkNode] and [WorkGraph] accept, the runtime can run: a graph built by the
    constructors has unique non-empty node ids, known dependencies and no cycle, which is all
    the theorems on runs assume. *)
Theorem constructed_well_formed args ns goal topo why mp cfg :
  map_result work_node args = Ok ns -> work_graph goal ns topo why mp = Ok (cf_graph cfg) ->
  WellFormed cfg.
Proof.
  intros Ha Hg. destruct (work_graph_ok _ _ _ _ _ _ Hg) as [G E]. split; [done|]. rewrite E. intros n Hn.
  apply map_result_ok in Ha. clear -Ha Hn. induction Ha as [|a m args ns Ham _ IH]; [by apply not_elem_of_nil in Hn|].
  apply elem_of_cons in Hn as [->|Hn]; [by eapply work_node_named|auto].
Qed.

(** * Behaviours to know *)

(** A retry does not reopen the dependents: "a" fails and is blocked for want of a route,
    so its dependent "r" is blocked too; the operator's retry of "a" is accepted and "a" and
    "b" are validated, but the retry of "r" is refused and the run ends BLOCKED on "r" for a
    dependency that is validated. *)
Theorem retry_leaves_dependents_blocked :
  let s := run_schedule Sample.cfg Sample.flaky
    ([Sample.tick; LDriver "b"] ++ Sample.turns "a" 10 ++
     [Sample.tick; Sample.control "1" "retry_node" "a"; Sample.control "2" "retry_node" "r"] ++
     Sample.turns "a" 30 ++ Sample.turns "b" 30 ++ [Sample.tick]) in
  map (state_is s NodeState.VALIDATED) ["a"; "b"] = [true; true] /\
  state_is s NodeState.BLOCKED "r" = true /\
  (exists run, get_node_run s "r" = Some run /\ nr_reason run = "dependency blocked: a") /\
  s_phase s = GDone {| res_outcome := RunOutcome.BLOCKED; res_reason := "r: dependency blocked: a";
                       res_integration := ""; res_review := None |}.
Proof. vm_compute. split_and!; [done..| |done]. eexists. by split. Qed.

(** A crash after validation is reported as a block: when the clean-up of a validated node
    raises, the controller emits [node_state BLOCKED] for it while the node stays VALIDATED. *)
Theorem crash_after_validation_reports_blocked :
  let s := run_schedule Sample.cfg Sample.disk ([Sample.tick] ++ Sample.turns "a" 30 ++ [Sample.tick]) in
  state_is s NodeState.VALIDATED "a" = true /\
  last (s_log s) = Some ("", OEvent {| ev_type := "node_state"; ev_node := "a";
    ev_data := [("state", VStr "BLOCKED"); ("reason", VStr "driver crash: OSError: disk")] |}).
Proof. by vm_compute. Qed.

(** No driver of the run can take a turn. *)
Definition asleep (cfg : Config) (env : environment) (s : Sys) : bool :=
  forallb (fun kv => match wake cfg env (fst kv) (d_cancelled (snd kv)) (d_task (snd kv)) s with
                     | Some _ => false
                     | None => true
                     end) (s_pending s).

Lemma asleep_spec cfg env s nid : asleep cfg env s = true -> ~ awake cfg env s nid.
Proof.
  intros H (d & r & Hd%dict_get_elem & Hw). unfold asleep in H. rewrite forallb_forall in H.
  apply list_elem_of_In in Hd. specialize (H _ Hd). cbn in H. by rewrite Hw in H.
Qed.

(** A policy without worker slots is accepted, and its run stands still: two drivers wait for
    a slot that nobody holds, and none can ever take a turn. *)
Theorem no_slots_no_turn :
  let s := run_schedule Sample.no_slots Sample.env (Sample.rounds 2) in
  all_done s = false /\ s_held s = [] /\ forall nid, ~ awake Sample.no_slots Sample.env s nid.
Proof.
  cbv zeta. split; [vm_compute; reflexivity|]. split; [vm_compute; reflexivity|].
  intros nid. apply asleep_spec. vm_compute. reflexivity.
Qed.

(** A route that wrote code can be asked to review it: node "a" fails on its first route, its
    second attempt is sent to "cx/gpt" and crashes before it is recorded, the operator retries
    it and the third route is validated. The routes the review would exclude do not name
    "cx/gpt". *)
Theorem crashed_route_may_review :
  let s := run_schedule Sample.cfg Sample.crashing
    (Sample.tick :: Sample.turns "a" 120 ++
     [Sample.tick; Sample.control "1" "retry_node" "a"; Sample.tick] ++ Sample.rounds 40) in
  state_is s NodeState.VALIDATED "a" = true /\
  omap (fun o => match o with OAsk (QExecute _ route _ _ id) => Some (route, id) | _ => None end)
    (trace_of "a" (s_log s)) = [("cc/claude", "a-a1"); ("cx/gpt", "a-a2"); ("kr/glm", "a-a3")] /\
  implementers (node_runs s) = ["kr/glm"; "cc/claude"].
Proof. vm_compute. by split_and!. Qed.

(** Only implement nodes are held to their owned files: on a node of another kind that lists
    some, the ownership barrier of [_validate] passes whatever files changed. *)
Theorem owned_files_unchecked node changed :
  kind node <> NodeKind.IMPLEMENT -> owned_files node <> [] ->
  ownership_barrier node changed = Ret None.
Proof.
  intros Hk Ho. unfold ownership_barrier. by rewrite !bool_decide_false by done.
Qed.

(** * Witnesses *)

Definition node_a : WorkNode := sample_node "a" "implement" [] ["src/a.py"].
Definition node_r : WorkNode := sample_node "r" "review" ["a"; "b"] [].

Lemma node_a_in : node_a ∈ nodes (cf_graph Sample.cfg).
Proof. left. Qed.

Lemma node_r_in : node_r ∈ nodes (cf_graph Sample.cfg).
Proof. right. right. left. Qed.

Definition run_of (s : Sys) (nid : string) : NodeRun := default (node_run node_a) (get_node_run s nid).

Lemma schedule_reachable cfg env ls : reachable cfg env (run_schedule cfg env ls).
Proof. by exists ls. Qed.

Lemma sends_gated_witness :
  let log := s_log (Sample.after 5) in
  log = firstn 46 log ++ ("a", OAsk (QExecute "do it" "cc/claude" "/r/runs/x/worktrees/a-a1" 900 "a-a1"))
                         :: skipn 47 log /\
  send_checked Sample.cfg node_a "do it" "cc/claude" "a-a1" (trace_of "a" (firstn 46 log)).
Proof.
  intros log. assert (E : log = firstn 46 log ++ ("a", OAsk (QExecute "do it" "cc/claude" "/r/runs/x/worktrees/a-a1" 900 "a-a1"))
                         :: skipn 47 log) by (by vm_compute).
  split; [exact E|]. exact (sends_gated _ _ _ node_a _ _ _ _ _ _ _ (Sample.after_reachable 5) node_a_in E).
Defined.

Lemma validated_on_evidence_witness :
  state_is (Sample.after 21) NodeState.VALIDATED "a" = true /\
  evidence node_a (trace_of "a" (s_log (Sample.after 21))).
Proof.
  split; [by vm_compute|].
  apply (validated_on_evidence _ _ _ node_a (run_of (Sample.after 21) "a") (Sample.after_reachable 21) node_a_in);
    by vm_compute.
Defined.

Lemma attempts_bounded_witness :
  let tr := trace_of "a" (s_log (Sample.after 21)) in
  let r := run_of (Sample.after 21) "a" in
  send_ids tr = ["a-a1"] /\
  (numbered node_a (nr_attempt r) tr /\ Z.of_nat (sends tr) <= nr_attempt r /\
   if is_integration node_a then sends tr = 0%nat else nr_attempt r <= Z.max 0 4).
Proof.
  intros tr r. split; [vm_compute; reflexivity|].
  apply (attempts_bounded _ _ _ node_a r (Sample.after_reachable 21) node_a_in).
  vm_compute. reflexivity.
Defined.

Lemma parallel_bounded_witness :
  Z.of_nat (length (List.filter (fun kv => executing (snd kv)) (s_pending (Sample.after 6)))) <= 2.
Proof. exact (parallel_bounded Sample.cfg Sample.env _ (Sample.after_reachable 6)). Defined.

Lemma dependencies_first_witness :
  nr_state <$> get_node_run (Sample.after 20) "r" = Some NodeState.TERMINAL_SUCCESS /\
  state_is (Sample.after 20) NodeState.VALIDATED "b" = true.
Proof.
  split; [by vm_compute|].
  apply (dependencies_first _ _ _ node_r (run_of (Sample.after 20) "r") "b" (Sample.after_reachable 20) node_r_in);
    [by vm_compute| |right; left].
  left. apply (bool_decide_unpack _). by vm_compute.
Defined.

Lemma run_settles_witness :
  let s' := sys_step Sample.cfg Sample.env (LController false []) (Sample.after 21) in
  state_is s' NodeState.VALIDATED "r" = true \/ state_is s' NodeState.BLOCKED "r" = true.
Proof.
  refine (run_settles _ _ _ [] _ (Sample.after_reachable 21) _ eq_refl _ _ node_r node_r_in);
    [by vm_compute|vm_compute; discriminate..].
Defined.

Lemma complete_is_earned_witness :
  exists res, s_phase (Sample.after 23) = GDone res /\
  (forall n, n ∈ nodes sample_graph -> state_is (Sample.after 23) NodeState.VALIDATED (node_id n) = true) /\
  (true = true -> exists rv, res_review res = Some rv /\ review_passed rv = true).
Proof.
  eexists. split; [vm_compute; reflexivity|].
  refine (complete_is_earned Sample.cfg Sample.env _ _ (Sample.after_reachable 23) _ _);
    [vm_compute; reflexivity|reflexivity].
Defined.


Lemma closed_for_good_witness :
  let s := run_schedule Sample.cfg Sample.env [Sample.control "1" "cancel_node" "r"] in
  let s' := foldl (fun s l => sys_step Sample.cfg Sample.env l s) s (Sample.control "2" "retry_node" "r" :: Sample.rounds 30) in
  get_node_run s' "r" = Some (run_of s "r") /\
  forall res, s_phase s' = GDone res -> res_outcome res <> RunOutcome.COMPLETE.
Proof.
  intros s s'. apply (closed_for_good Sample.cfg Sample.env s node_r (run_of s "r") _ (schedule_reachable _ _ _) node_r_in);
    [by vm_compute..|right; by vm_compute].
Defined.

Lemma no_authority_no_send_witness :
  sends (trace_of "a" (s_log (run_schedule Sample.strict Sample.env (Sample.rounds 30)))) = 0%nat.
Proof.
  exact (no_authority_no_send Sample.strict Sample.env _ node_a (schedule_reachable _ _ _) node_a_in eq_refl eq_refl).
Defined.

Lemma turns_terminate_witness :
  ~ exists f : nat -> Sys, f O = Sample.after 5 /\ forall i, turn Sample.cfg Sample.env (f (S i)) (f i).
Proof. exact (turns_terminate Sample.cfg Sample.env _ (Sample.after_reachable 5)). Defined.

Lemma drivers_finish_witness :
  (all_done (Sample.after 5) = false -> exists nid, awake Sample.cfg Sample.env (Sample.after 5) nid) /\
  exists nids, all_done (foldl (fun s l => sys_step Sample.cfg Sample.env l s) (Sample.after 5) (map LDriver nids)) = true.
Proof. apply (drivers_finish Sample.cfg Sample.env _ (Sample.after_reachable 5)); [by vm_compute|done]. Defined.

Lemma constructed_well_formed_witness : WellFormed Sample.cfg.
Proof.
  refine (constructed_well_formed [sample_args "a" "implement" [] ["src/a.py"];
    sample_args "b" "implement" [] ["src/b.py"]; sample_args "r" "review" ["a"; "b"] []] sample_nodes
    _ _ _ _ Sample.cfg _ sample_graph_ok). by vm_compute.
Defined.
