(* ===== verification/ReceiptStore.v ===== *)
(** The receipt store: [ReceiptStore] of [verdict/receipt_store.py].

    The table is the list of its rows in the order of insertion, which is SQLite's rowid order: a row
    holds the texts of the payload and of the provenance, a record their values. Every
    operation runs in one [BEGIN IMMEDIATE] transaction under the store's lock, so that it is one
    step of the system: on an exception the transaction is rolled back and the table stays. Rows with
    equal keys in an [ORDER BY sequence] come in rowid order, as the index on [(scope, sequence)]
    gives them within a scope; between scopes SQLite leaves their order open. The random part of a fresh id and the time are arguments; a timestamp is a float's
    [repr], and the difference of two is taken exactly. *)
From Stdlib Require Import Ascii.
From S2P Require Import Prelude PyStr PyNum Json JsonDict Policy Redaction.

(** * Data *)

Definition RECEIPT_TYPES : list string :=
  ["decision"; "context"; "execution"; "verification"; "outcome"; "manifest"; "tombstone";
   "file_edit"; "file_read"; "file_write"; "file_delete"; "command"; "tool_call"; "session";
   "compaction"; "error"].

Inductive receipt_exn :=
| ValueError (msg : string)
| TypeError (msg : string)
| KeyError (key : string)
| ReceiptConflictError (msg : string)
| ReceiptIntegrityError (msg : string)
| ReceiptStoreError (msg : string)
| SqliteIntegrityError
| JSONDecodeError.

(** [ReceiptRecord], a row of the table and an item of a manifest: they differ in what they hold for
    the payload and for the provenance. *)
Record receipt (P V : Type) := Receipt {
  rr_id : string;
  rr_timestamp : string;
  rr_type : string;
  rr_scope : string;
  rr_payload : P;
  rr_content_hash : string;
  rr_sensitivity : string;
  rr_provenance : V;
  rr_parent : option string;
  rr_sequence : Z;
  rr_previous_hash : option string;
  rr_record_hash : string;
  rr_event_id : option string;
  rr_event_type : option string;
  rr_terminal_outcome : option string;
  rr_idempotency_key : option string;
  rr_tombstone_for : option string;
  rr_key_ref : option string
}.
Arguments Receipt {P V}.
Arguments rr_id {P V}. Arguments rr_timestamp {P V}. Arguments rr_type {P V}.
Arguments rr_scope {P V}. Arguments rr_payload {P V}. Arguments rr_content_hash {P V}.
Arguments rr_sensitivity {P V}. Arguments rr_provenance {P V}. Arguments rr_parent {P V}.
Arguments rr_sequence {P V}. Arguments rr_previous_hash {P V}. Arguments rr_record_hash {P V}.
Arguments rr_event_id {P V}. Arguments rr_event_type {P V}.
Arguments rr_terminal_outcome {P V}. Arguments rr_idempotency_key {P V}.
Arguments rr_tombstone_for {P V}. Arguments rr_key_ref {P V}.

Abbreviation ReceiptRecord := (receipt json json).
Abbreviation Row := (receipt string string).
Abbreviation Item := (receipt (option json) json).

(** The same receipt with another payload and provenance *)
Definition with_bodies {P V P' V'} (r : receipt P V) (p : P') (v : V') : receipt P' V' :=
  Receipt (rr_id r) (rr_timestamp r) (rr_type r) (rr_scope r) p (rr_content_hash r)
    (rr_sensitivity r) v (rr_parent r) (rr_sequence r) (rr_previous_hash r) (rr_record_hash r)
    (rr_event_id r) (rr_event_type r) (rr_terminal_outcome r) (rr_idempotency_key r)
    (rr_tombstone_for r) (rr_key_ref r).

(** [ReceiptRecord.is_tombstone] *)
Definition is_tombstone (r : ReceiptRecord) : bool :=
  String.eqb (rr_type r) "tombstone" || bool_decide (rr_tombstone_for r <> None).

(** The keyword arguments of [_insert] *)
Record draft := {
  dr_type : string;
  dr_scope : string;
  dr_payload : json;
  dr_sensitivity : string;
  dr_provenance : json;
  dr_id : string;
  dr_timestamp : string;
  dr_parent : option string;
  dr_event_id : option string;
  dr_event_type : option string;
  dr_terminal_outcome : option string;
  dr_idempotency_key : option string;
  dr_tombstone_for : option string;
  dr_key_ref : option string
}.

(** The arguments of [put_receipt]; the provenance is a dict. *)
Record put_args := {
  pa_type : string;
  pa_scope : string;
  pa_payload : json;
  pa_sensitivity : string;
  pa_provenance : option (list (string * json));
  pa_id : option string;
  pa_parent : option string;
  pa_event_id : option string;
  pa_event_type : option string;
  pa_terminal_outcome : option string;
  pa_idempotency_key : option string;
  pa_allowlist : list string;
  pa_key_ref : option string
}.

(** The result of [verify_integrity] *)
Record integrity := {
  in_valid : bool;
  in_checked : nat;
  in_errors : list string;
  in_scope : option string
}.

(** A manifest of [export_manifest] *)
Record manifest := {
  mf_version : string;
  mf_format_version : string;
  mf_receipt_count : nat;
  mf_manifest_digest : string;
  mf_receipts : list Item
}.

Definition DEFAULT_PROVENANCE : json :=
  obj [("source", JStr "verdict_receipt_store"); ("version", JStr "2.0")].

(** [_canonical] *)
Definition canonical (v : json) : string := dumps true v.

(** [_validate_scope] *)
Definition validate_scope (scope : string) : result receipt_exn string :=
  _ ← raise_if (String.eqb (strip scope) "" || (512 <? String.length scope)%nat)
        (ValueError "a non-empty bounded receipt scope is required");
  _ ← raise_if (existsb (fun c => (N_of_ascii c <? 32)%N) (String.list_ascii_of_string scope))
        (ValueError "receipt scope contains control characters");
  Ok scope.

(** [a == b] of two JSON values as Python compares them: [bool], [int] and [float] by their number
    (an [int] beyond 2^53 next to a [float] by its decimal text), a NaN unequal to everything. *)
Definition number_value (v : json) : option Q :=
  match v with
  | JBool b => Some (if b then 1 else 0)%Q
  | JInt z => Some (z # 1)%Q
  | JFloat r => match parse_decimal r with Some (Some q) => Some q | _ => None end
  | _ => None
  end.

Definition is_number (v : json) : bool :=
  match v with JBool _ | JInt _ | JFloat _ => true | _ => false end.

Definition number_eq (v w : json) : bool :=
  match number_value v, number_value w with
  | Some p, Some q => Qeq_bool p q
  | None, None => match v, w with
                  | JFloat r, JFloat t => String.eqb r t && negb (String.eqb r "NaN")
                  | _, _ => false
                  end
  | _, _ => false
  end.

Fixpoint py_eq (v w : json) {struct v} : bool :=
  match v, w with
  | JNull, JNull => true
  | JStr s, JStr t => String.eqb s t
  | JList vs, JList ws =>
      (fix go (vs ws : list json) : bool :=
         match vs, ws with
         | [], [] => true
         | v :: vs, w :: ws => py_eq v w && go vs ws
         | _, _ => false
         end) vs ws
  | JObj ms, JObj ns =>
      (fix go (ms ns : list (string * json)) : bool :=
         match ms, ns with
         | [], [] => true
         | (k, v) :: ms, (k', w) :: ns => String.eqb k k' && py_eq v w && go ms ns
         | _, _ => false
         end) ms ns
  | _, _ => is_number v && is_number w && number_eq v w
  end.

(** * Reading rows *)

(** [_row_to_record] *)
Definition row_to_record (row : Row) : result receipt_exn ReceiptRecord :=
  match loads (rr_payload row), loads (rr_provenance row) with
  | Some p, Some v => Ok (with_bodies row p v)
  | _, _ => Err JSONDecodeError
  end.

Definition in_scope_of (scope : string) (row : Row) : bool := String.eqb (rr_scope row) scope.

(** [ORDER BY sequence ASC] *)
Definition ascending (rows : list Row) : list Row :=
  sort_by (fun a b => rr_sequence a <=? rr_sequence b) rows.

(** [ORDER BY sequence DESC] *)
Definition descending (rows : list Row) : list Row := rev (ascending rows).

Definition opt_is (o : option string) (s : string) : bool := bool_decide (o = Some s).

(** [EXISTS (SELECT 1 FROM receipts t WHERE t.tombstone_for = receipts.receipt_id)] *)
Definition tombstoned (rows : list Row) (row : Row) : bool :=
  existsb (fun t => opt_is (rr_tombstone_for t) (rr_id row)) rows.

(** [_next_sequence] *)
Definition next_sequence (rows : list Row) (scope : string) : Z * option string :=
  match descending (List.filter (in_scope_of scope) rows) with
  | row :: _ => (rr_sequence row + 1, Some (rr_record_hash row))
  | [] => (1, None)
  end.

Section store.
(** [hashlib.sha256(text.encode()).hexdigest()] *)
Context (sha256_hex : string -> string).

Definition content_hash_of (payload : json) : string := sha256_hex (canonical payload).

(** [provenance or {}] *)
Definition or_empty (v : json) : json := if truthy v then v else JObj [].

(** The list that [_record_hash] digests *)
Definition hashed_fields (r : ReceiptRecord) : json :=
  JList [JStr (rr_id r); JFloat (rr_timestamp r); JStr (rr_type r); JStr (rr_content_hash r);
         JStr (rr_scope r); JInt (rr_sequence r); jopt JStr (rr_previous_hash r);
         JStr (rr_sensitivity r); or_empty (rr_provenance r); jopt JStr (rr_parent r);
         jopt JStr (rr_event_id r); jopt JStr (rr_event_type r); jopt JStr (rr_terminal_outcome r);
         jopt JStr (rr_tombstone_for r); jopt JStr (rr_key_ref r);
         jopt JStr (rr_idempotency_key r)].

(** [_record_hash] of a record's fields *)
Definition record_hash_of (r : ReceiptRecord) : string := sha256_hex (canonical (hashed_fields r)).

(** * Appending *)

(** The record that [_insert] writes *)
Definition sealed (d : draft) (sequence : Z) (previous_hash : option string) : ReceiptRecord :=
  let r h := Receipt (dr_id d) (dr_timestamp d) (dr_type d) (dr_scope d) (dr_payload d)
               (content_hash_of (dr_payload d)) (dr_sensitivity d) (dr_provenance d) (dr_parent d)
               sequence previous_hash h (dr_event_id d) (dr_event_type d) (dr_terminal_outcome d)
               (dr_idempotency_key d) (dr_tombstone_for d) (dr_key_ref d) in
  r (record_hash_of (r "")).

Definition to_row (r : ReceiptRecord) : Row :=
  with_bodies r (canonical (rr_payload r)) (canonical (rr_provenance r)).

(** The primary key and the unique index on [(scope, idempotency_key)] *)
Definition clashes (r : ReceiptRecord) (row : Row) : bool :=
  String.eqb (rr_id row) (rr_id r)
  || (String.eqb (rr_scope row) (rr_scope r)
      && match rr_idempotency_key r with
         | Some k => opt_is (rr_idempotency_key row) k
         | None => false
         end).

(** [_insert] *)
Definition insert (rows : list Row) (d : draft) : result receipt_exn (list Row * ReceiptRecord) :=
  _ ← raise_if (negb (mem (dr_type d) RECEIPT_TYPES))
        (ValueError ("unsupported receipt type: " +:+ dr_type d));
  let '(sequence, previous_hash) := next_sequence rows (dr_scope d) in
  let r := sealed d sequence previous_hash in
  if existsb (clashes r) rows then Err SqliteIntegrityError
  else Ok (rows ++ [to_row r], r).

(** [redact_sensitive_dict] of a payload *)
Definition redact_payload (payload : json) (allowlist : list string) : result receipt_exn json :=
  match redact_sensitive_dict payload allowlist with
  | Some clean => Ok clean
  | None => Err (TypeError "receipt payload must be a JSON object")
  end.

(** [put_receipt]; [uuid] and [now] are what [uuid4().hex] and [time()] return. *)
Definition put_receipt (rows : list Row) (a : put_args) (uuid now : string)
    : result receipt_exn (list Row * ReceiptRecord) :=
  scope ← validate_scope (pa_scope a);
  clean ← redact_payload (pa_payload a) (pa_allowlist a);
  prov ← redact_payload (match pa_provenance a with
                         | Some (m :: ms) => JObj (m :: ms)
                         | _ => DEFAULT_PROVENANCE
                         end) [];
  _ ← raise_if (String.eqb (pa_sensitivity a) "" || (64 <? String.length (pa_sensitivity a))%nat)
        (ValueError "receipt sensitivity must be a bounded non-empty string");
  let r_id := match pa_id a with
              | Some (String _ _ as i) => i
              | _ => "rcpt-" +:+ uuid
              end in
  let append :=
    match insert rows
      {| dr_type := pa_type a; dr_scope := scope; dr_payload := clean;
         dr_sensitivity := pa_sensitivity a; dr_provenance := prov; dr_id := r_id;
         dr_timestamp := now; dr_parent := pa_parent a; dr_event_id := pa_event_id a;
         dr_event_type := pa_event_type a; dr_terminal_outcome := pa_terminal_outcome a;
         dr_idempotency_key := pa_idempotency_key a; dr_tombstone_for := None;
         dr_key_ref := pa_key_ref a |} with
    | Err SqliteIntegrityError => Err (ReceiptConflictError "receipt id already exists")
    | res => res
    end in
  match pa_idempotency_key a with
  | None => append
  | Some k =>
      match List.find (fun row => in_scope_of scope row && opt_is (rr_idempotency_key row) k) rows with
      | None => append
      | Some existing =>
          record ← row_to_record existing;
          if py_eq (rr_payload record) clean && String.eqb (rr_type record) (pa_type a)
          then Ok (rows, record)
          else Err (ReceiptConflictError "idempotency key conflicts with an existing receipt")
      end
  end.

(** The rows of a parent's terminal events, first to last *)
Definition terminal_events (rows : list Row) (parent scope : string) : list Row :=
  ascending (List.filter (fun row => opt_is (rr_parent row) parent && in_scope_of scope row
                                     && bool_decide (rr_terminal_outcome row <> None)) rows).

(** [append_event] *)
Definition append_event (rows : list Row) (parent scope : string) (payload : json)
    (event_id event_type : string) (terminal_outcome : option string) (allowlist : list string)
    (uuid now : string) : result receipt_exn (list Row * ReceiptRecord) :=
  scope ← validate_scope scope;
  clean ← redact_payload payload allowlist;
  _ ← raise_if (String.eqb event_id "" || String.eqb event_type "")
        (ValueError "event_id and event_type are required");
  let append :=
    insert rows
      {| dr_type := "execution"; dr_scope := scope; dr_payload := clean;
         dr_sensitivity := "internal"; dr_provenance := DEFAULT_PROVENANCE;
         dr_id := "evt-" +:+ uuid; dr_timestamp := now; dr_parent := Some parent;
         dr_event_id := Some event_id; dr_event_type := Some event_type;
         dr_terminal_outcome := terminal_outcome; dr_idempotency_key := None;
         dr_tombstone_for := None; dr_key_ref := None |} in
  _ ← raise_if (negb (existsb (fun row => String.eqb (rr_id row) parent && in_scope_of scope row) rows))
        (KeyError parent);
  match List.find (fun row => in_scope_of scope row && opt_is (rr_event_id row) event_id) rows with
  | Some existing =>
      record ← row_to_record existing;
      if py_eq (rr_payload record) clean && opt_is (rr_parent record) parent
      then Ok (rows, record)
      else Err (ReceiptConflictError "event id conflicts with an existing event")
  | None =>
      match terminal_outcome, terminal_events rows parent scope with
      | _, [] => append
      | Some outcome, first :: _ =>
          if opt_is (rr_terminal_outcome first) outcome
          then record ← row_to_record first; Ok (rows, record)
          else Err (ReceiptConflictError "terminal outcome conflicts with prior terminal event")
      | None, _ :: _ =>
          Err (ReceiptConflictError "cannot append a lifecycle event after terminalization")
      end
  end.

(** [_tombstone] *)
Definition tombstone_row (rows : list Row) (receipt_id scope reason uuid now : string)
    : result receipt_exn (list Row * ReceiptRecord) :=
  scope ← validate_scope scope;
  match List.find (fun row => opt_is (rr_tombstone_for row) receipt_id && in_scope_of scope row) rows with
  | Some existing => record ← row_to_record existing; Ok (rows, record)
  | None =>
      insert rows
        {| dr_type := "tombstone"; dr_scope := scope;
           dr_payload := obj [("target_receipt_id", JStr receipt_id); ("reason", JStr reason)];
           dr_sensitivity := "internal"; dr_provenance := DEFAULT_PROVENANCE;
           dr_id := "tomb-" +:+ uuid; dr_timestamp := now; dr_parent := Some receipt_id;
           dr_event_id := None; dr_event_type := None; dr_terminal_outcome := None;
           dr_idempotency_key := None; dr_tombstone_for := Some receipt_id; dr_key_ref := None |}
  end.

(** * Verification *)

(** The pages of [_iter_chain_records] for one scope, whose rows come in ascending order: each is
    the first [page_size] rows above the last sequence seen. A page that is not empty raises that
    sequence, so the number of rows bounds the number of pages. *)
Fixpoint pages (fuel page_size : nat) (rows : list Row) (last_seq : Z) : list Row :=
  match fuel with
  | O => []
  | S fuel =>
      let page := take page_size (List.filter (fun row => last_seq <? rr_sequence row) rows) in
      match last page with
      | None => []
      | Some row => page ++ pages fuel page_size rows (rr_sequence row)
      end
  end.

Definition PAGE_SIZE : nat := Z.to_nat 5000.

(** The rows of one scope in the order of the walk *)
Definition walk_scope (rows : list Row) (include_tombstones : bool) (scope : string) : list Row :=
  let mine := List.filter (in_scope_of scope) rows in
  let shown := if include_tombstones then mine
               else List.filter (fun row => negb (tombstoned rows row)) mine in
  pages (S (length shown)) PAGE_SIZE (ascending shown) 0.

(** [SELECT DISTINCT scope FROM receipts ORDER BY scope] *)
Definition distinct_scopes (rows : list Row) : list string :=
  sort_str (dedupe_from [] (map rr_scope rows)).

(** [_iter_chain_records], run to its end *)
Definition iter_chain_records (rows : list Row) (scope : option string) (include_tombstones : bool)
    : result receipt_exn (list ReceiptRecord) :=
  scopes ← match scope with
           | Some s => s ← validate_scope s; Ok [s]
           | None => Ok (distinct_scopes rows)
           end;
  map_result row_to_record (concat (map (walk_scope rows include_tombstones) scopes)).

(** What one record adds to the errors *)
Definition record_errors (previous : option string) (r : ReceiptRecord) : list string :=
  (if negb (String.eqb (content_hash_of (rr_payload r)) (rr_content_hash r))
   then [rr_id r +:+ ":content_hash"] else [])
  ++ (if (rr_sequence r <? 1) || negb (bool_decide (rr_previous_hash r = previous))
      then [rr_id r +:+ ":chain_link"] else [])
  ++ (if negb (String.eqb (record_hash_of r) (rr_record_hash r))
      then [rr_id r +:+ ":record_hash"] else []).

(** The loop of [verify_integrity]; [previous] is [previous_by_scope]. *)
Fixpoint chain_errors (previous : gmap string string) (rs : list ReceiptRecord) : list string :=
  match rs with
  | [] => []
  | r :: rs => record_errors (previous !! rr_scope r) r
               ++ chain_errors (<[rr_scope r := rr_record_hash r]> previous) rs
  end.

(** [verify_integrity] *)
Definition verify_integrity (rows : list Row) (scope : option string)
    : result receipt_exn integrity :=
  rs ← iter_chain_records rows scope true;
  let errors := chain_errors ∅ rs in
  Ok {| in_valid := match errors with [] => true | _ => false end;
        in_checked := length rs; in_errors := errors; in_scope := scope |}.

(** [_assert_integrity] *)
Definition assert_integrity (rows : list Row) (scope : option string) : result receipt_exn unit :=
  found ← verify_integrity rows scope;
  raise_if (negb (in_valid found)) (ReceiptIntegrityError "receipt integrity verification failed").

(** * Reads *)

(** [get_receipt] *)
Definition get_receipt (rows : list Row) (receipt_id : string) (scope : option string)
    (include_tombstones : bool) : result receipt_exn (option ReceiptRecord) :=
  _ ← assert_integrity rows scope;
  scope ← match scope with Some s => s ← validate_scope s; Ok (Some s) | None => Ok None end;
  let fits row := String.eqb (rr_id row) receipt_id
                  && match scope with Some s => in_scope_of s row | None => true end
                  && (include_tombstones || negb (tombstoned rows row)) in
  match List.find fits rows with
  | Some row => record ← row_to_record row; Ok (Some record)
  | None => Ok None
  end.

(** [query_receipts]; [strict] is the store's [strict_scope]. *)
Definition query_receipts (strict : bool) (rows : list Row) (receipt_type scope : option string)
    (limit : Z) (include_tombstones : bool) (parent : option string)
    : result receipt_exn (list ReceiptRecord) :=
  _ ← raise_if ((limit <? 1) || (100000 <? limit))
        (ValueError "receipt query limit must be between 1 and 100000");
  _ ← assert_integrity rows scope;
  scope ← match scope with
          | None => _ ← raise_if strict (ValueError "receipt scope is required"); Ok None
          | Some s => s ← validate_scope s; Ok (Some s)
          end;
  let fits row := match receipt_type with Some t => String.eqb (rr_type row) t | None => true end
                  && match scope with Some s => in_scope_of s row | None => true end
                  && match parent with Some p => opt_is (rr_parent row) p | None => true end
                  && (include_tombstones || negb (tombstoned rows row)) in
  map_result row_to_record (take (Z.to_nat limit) (descending (List.filter fits rows))).

(** [tombstone] *)
Definition tombstone (rows : list Row) (receipt_id scope reason uuid now : string)
    : result receipt_exn (list Row * ReceiptRecord) :=
  found ← get_receipt rows receipt_id (Some scope) true;
  match found with
  | None => Err (KeyError receipt_id)
  | Some _ => tombstone_row rows receipt_id scope reason uuid now
  end.

(** [record.timestamp < cutoff] *)
Definition older (cutoff : Q) (r : ReceiptRecord) : bool :=
  match parse_decimal (rr_timestamp r) with
  | Some (Some t) => Qltb t cutoff
  | _ => String.eqb (rr_timestamp r) "-Infinity"
  end.

(** The loop of [apply_retention]; each [_tombstone] is its own transaction, so that an exception
    leaves the table of the markers written before it: it is the second component. *)
Fixpoint retire (rows : list Row) (scope : string) (rs : list ReceiptRecord)
    (uuid : nat -> string) (now : string) (removed : list string)
    : list Row * result receipt_exn (list string) :=
  match rs with
  | [] => (rows, Ok removed)
  | r :: rs =>
      if is_tombstone r then retire rows scope rs uuid now removed
      else match tombstone_row rows (rr_id r) scope "retention" (uuid (length removed)) now with
           | Ok (rows', _) => retire rows' scope rs uuid now (removed ++ [rr_id r])
           | Err e => (rows, Err e)
           end
  end.

(** [apply_retention] with [now] given; the [n]th marker takes the [n]th uuid. *)
Definition apply_retention (strict : bool) (rows : list Row) (scope : string)
    (max_age_seconds now : Q) (uuid : nat -> string) (time : string)
    : list Row * result receipt_exn (list string) :=
  if Qltb max_age_seconds 0
  then (rows, Err (ValueError "retention age must not be negative"))
  else
    match query_receipts strict rows None (Some scope) 100000 false None with
    | Err e => (rows, Err e)
    | Ok rs => retire rows scope (List.filter (older (now - max_age_seconds)) rs) uuid time []
    end.

(** * Manifests *)

Definition item_json (i : Item) : json :=
  obj ([("receipt_id", JStr (rr_id i)); ("timestamp", JFloat (rr_timestamp i));
        ("receipt_type", JStr (rr_type i)); ("scope", JStr (rr_scope i));
        ("content_hash", JStr (rr_content_hash i)); ("sensitivity", JStr (rr_sensitivity i));
        ("provenance", rr_provenance i); ("parent_receipt_id", jopt JStr (rr_parent i));
        ("sequence", JInt (rr_sequence i)); ("previous_hash", jopt JStr (rr_previous_hash i));
        ("record_hash", JStr (rr_record_hash i)); ("event_id", jopt JStr (rr_event_id i));
        ("event_type", jopt JStr (rr_event_type i));
        ("terminal_outcome", jopt JStr (rr_terminal_outcome i));
        ("idempotency_key", jopt JStr (rr_idempotency_key i));
        ("tombstone_for", jopt JStr (rr_tombstone_for i)); ("key_ref", jopt JStr (rr_key_ref i))]
       ++ given "payload" id (rr_payload i)).

Definition items_digest (items : list Item) : string :=
  sha256_hex (canonical (JList (map item_json items))).

(** The sort key [(scope, sequence, receipt_id)] *)
Definition export_le (a b : ReceiptRecord) : bool :=
  if String.eqb (rr_scope a) (rr_scope b)
  then if rr_sequence a =? rr_sequence b then str_leb (rr_id a) (rr_id b)
       else rr_sequence a <? rr_sequence b
  else str_leb (rr_scope a) (rr_scope b).

(** [export_manifest] *)
Definition export_manifest (strict : bool) (rows : list Row) (scope : option string)
    (include_payload : bool) : result receipt_exn manifest :=
  rs ← query_receipts strict rows None scope 100000 true None;
  let items := map (fun r => with_bodies r (if include_payload then Some (rr_payload r) else None)
                               (rr_provenance r)) (sort_by export_le rs) in
  Ok {| mf_version := "1.0"; mf_format_version := "2.0"; mf_receipt_count := length items;
        mf_manifest_digest := items_digest items; mf_receipts := items |}.

(** The sort key [(scope, sequence)] of an import *)
Definition import_le (a b : Item) : bool :=
  if String.eqb (rr_scope a) (rr_scope b) then rr_sequence a <=? rr_sequence b
  else str_leb (rr_scope a) (rr_scope b).

Definition mismatch (id field : string) : receipt_exn :=
  ReceiptIntegrityError ("imported record mismatch: " +:+ id +:+ ":" +:+ field).

(** One item of an import *)
Definition import_item (rows : list Row) (item : Item) : result receipt_exn (list Row * nat) :=
  match rr_payload item with
  | None => Err (ReceiptStoreError "manifest does not contain importable payloads")
  | Some payload =>
      scope ← validate_scope (rr_scope item);
      match List.find (fun row => String.eqb (rr_id row) (rr_id item) && in_scope_of scope row) rows with
      | Some existing =>
          record ← row_to_record existing;
          _ ← raise_if (negb (String.eqb (rr_record_hash record) (rr_record_hash item)))
                (ReceiptConflictError "import conflicts with existing receipt");
          Ok (rows, O)
      | None =>
          _ ← match payload with
              | JObj _ => Ok tt
              | _ => Err (ReceiptStoreError "manifest payload must be an object")
              end;
          prov ← redact_payload (rr_provenance item) [];
          '(rows', r) ← insert rows
            {| dr_type := rr_type item; dr_scope := scope; dr_payload := payload;
               dr_sensitivity := rr_sensitivity item; dr_provenance := prov; dr_id := rr_id item;
               dr_timestamp := rr_timestamp item; dr_parent := rr_parent item;
               dr_event_id := rr_event_id item; dr_event_type := rr_event_type item;
               dr_terminal_outcome := rr_terminal_outcome item;
               dr_idempotency_key := rr_idempotency_key item;
               dr_tombstone_for := rr_tombstone_for item; dr_key_ref := rr_key_ref item |};
          _ ← raise_if (negb (String.eqb (rr_content_hash r) (rr_content_hash item)))
                (mismatch (rr_id item) "content_hash");
          _ ← raise_if (negb (String.eqb (rr_record_hash r) (rr_record_hash item)))
                (mismatch (rr_id item) "record_hash");
          _ ← raise_if (negb (rr_sequence r =? rr_sequence item)) (mismatch (rr_id item) "sequence");
          _ ← raise_if (negb (bool_decide (rr_previous_hash r = rr_previous_hash item)))
                (mismatch (rr_id item) "previous_hash");
          Ok (rows', 1%nat)
      end
  end.

Fixpoint import_items (rows : list Row) (items : list Item) (inserted : nat)
    : result receipt_exn (list Row * nat) :=
  match items with
  | [] => Ok (rows, inserted)
  | item :: items => '(rows', n) ← import_item rows item; import_items rows' items (inserted + n)
  end.

(** [import_manifest] of a manifest whose items have every field that [export_manifest] writes, with
    its type. *)
Definition import_manifest (rows : list Row) (m : manifest) : result receipt_exn (list Row * nat) :=
  _ ← raise_if (negb (mem (split1_head "." (mf_version m)) ["1"; "2"]))
        (ReceiptStoreError "unsupported receipt manifest version");
  _ ← raise_if (negb (String.eqb (items_digest (mf_receipts m)) (mf_manifest_digest m)))
        (ReceiptIntegrityError "manifest digest mismatch");
  import_items rows (sort_by import_le (mf_receipts m)) 0.

(** [import_bundle] *)
Definition import_bundle (rows : list Row) (m : manifest) (scope : string)
    : result receipt_exn (list Row * nat) :=
  _ ← validate_scope scope;
  _ ← raise_if (existsb (fun i => negb (String.eqb (rr_scope i) scope)) (mf_receipts m))
        (ValueError "receipt import scope mismatch");
  import_manifest rows m.

(** [replay]: the ids, types and payloads in order, with the number of records checked *)
Definition replay (strict : bool) (rows : list Row) (scope : string) (root : option string)
    : result receipt_exn (list (string * string * json) * integrity) :=
  found ← verify_integrity rows (Some scope);
  _ ← raise_if (negb (in_valid found))
        (ReceiptIntegrityError "cannot replay an invalid receipt chain");
  rs ← query_receipts strict rows None (Some scope) 100000 true None;
  let picked := match root with
                | Some i => List.filter (fun r => String.eqb (rr_id r) i || opt_is (rr_parent r) i) rs
                | None => rs
                end in
  Ok (map (fun r => (rr_id r, rr_type r, rr_payload r))
          (sort_by (fun a b => rr_sequence a <=? rr_sequence b) picked), found).
End store.
