(* ===== verification/ReceiptChain.v ===== *)
(** The hash chains of the receipt store: the invariant of its table, that the operations keep it,
    what verification finds on it, and what a chain that verifies fixes. *)
From Stdlib Require Import Ascii.
From S2P Require Import Prelude PyStr PyNum Json JsonDict Policy Redaction ReceiptStore.

(** * Lists *)

Lemma lfilter_map {A B} (f : B -> bool) (g : A -> B) l :
  List.filter f (map g l) = map g (List.filter (fun x => f (g x)) l).
Proof. induction l as [|x l IH]; cbn; [done|]. destruct (f (g x)); cbn; by rewrite IH. Qed.

Lemma lfilter_all {A} (f : A -> bool) l : (forall x, x ∈ l -> f x = true) -> List.filter f l = l.
Proof.
  induction l as [|x l IH]; intros H; cbn; [done|]. rewrite H by set_solver.
  rewrite IH; [done|]. intros; apply H; set_solver.
Qed.

Lemma lfilter_none {A} (f : A -> bool) l : (forall x, x ∈ l -> f x = false) -> List.filter f l = [].
Proof.
  induction l as [|x l IH]; intros H; cbn; [done|]. rewrite H by set_solver.
  apply IH. intros; apply H; set_solver.
Qed.

Lemma map_result_all {E A B} (f : A -> result E B) (g : B -> A) l :
  (forall x, x ∈ l -> f (g x) = Ok x) -> map_result f (map g l) = Ok l.
Proof.
  intros H. apply map_result_ok. induction l as [|x l IH]; cbn; constructor.
  - apply H. set_solver.
  - apply IH. intros; apply H; set_solver.
Qed.

Section sorted.
Context {A : Type} (le : A -> A -> bool).

Lemma insert_by_least x l : (forall y, y ∈ l -> le x y = true) -> insert_by le x l = x :: l.
Proof. destruct l as [|y l]; intros H; cbn; [done|]. by rewrite H by set_solver. Qed.

Lemma sort_by_id l : StronglySorted (fun a b => le a b = true) l -> sort_by le l = l.
Proof.
  induction 1 as [|x l Hs IH Hx]; cbn; [done|]. fold (sort_by le l). rewrite IH.
  apply insert_by_least. intros y Hy. rewrite Forall_forall in Hx. by apply Hx.
Qed.
End sorted.

(** * Rows and records *)

Definition bodies_wf (r : ReceiptRecord) : Prop :=
  json_wf (rr_payload r) = true /\ json_wf (rr_provenance r) = true.

Lemma row_round_trip r : bodies_wf r -> row_to_record (to_row r) = Ok r.
Proof.
  intros [Hp Hv]. unfold row_to_record, to_row, canonical.
  cbn [rr_payload rr_provenance with_bodies]. rewrite !loads_dumps by done. by destruct r.
Qed.

Definition seq_le (a b : Row) : bool := rr_sequence a <=? rr_sequence b.

(** The rows are in increasing order of their sequences, above [n]. *)
Fixpoint climbs (n : Z) (rows : list Row) : Prop :=
  match rows with
  | [] => True
  | row :: rows => n < rr_sequence row /\ climbs (rr_sequence row) rows
  end.

Lemma climbs_weaken n m rows : m <= n -> climbs n rows -> climbs m rows.
Proof. destruct rows; cbn; [done|]. intuition lia. Qed.

Lemma climbs_above n rows x : climbs n rows -> x ∈ rows -> n < rr_sequence x.
Proof.
  revert n; induction rows as [|r rows IH]; intros n; cbn; [set_solver|].
  intros [H1 H2] [->|Hx]%elem_of_cons; [done|]. specialize (IH _ H2 Hx). lia.
Qed.

Lemma climbs_app n l1 l2 :
  climbs n (l1 ++ l2) <->
  climbs n l1 /\ climbs (match last l1 with Some r => rr_sequence r | None => n end) l2.
Proof.
  revert n; induction l1 as [|r l1 IH]; intros n; cbn [app climbs]; [by cbn; intuition|].
  rewrite IH. rewrite last_cons. destruct (last l1) as [x|]; cbn; intuition.
Qed.

Lemma climbs_sorted n rows : climbs n rows -> ascending rows = rows.
Proof.
  intros H. apply sort_by_id. revert n H. induction rows as [|r rows IH]; intros n; cbn; [constructor|].
  intros [H1 H2]. constructor; [by eapply IH|]. apply Forall_forall. intros x Hx.
  apply Z.leb_le. pose proof (climbs_above _ _ _ H2 Hx). lia.
Qed.

Lemma climbs_last n rows x z : climbs n rows -> last rows = Some z -> x ∈ rows -> rr_sequence x <= rr_sequence z.
Proof.
  revert n; induction rows as [|r rows IH]; intros n; [set_solver|]. cbn [climbs].
  intros [H1 H2] Hz Hx. rewrite last_cons in Hz. destruct (last rows) as [y|] eqn:E.
  - injection Hz as ->. apply elem_of_cons in Hx as [->|Hx]; [|by eapply IH].
    apply Z.lt_le_incl. eapply climbs_above; [done|]. apply last_Some in E as (l & ->). set_solver.
  - injection Hz as ->. apply last_None in E as ->. apply list_elem_of_singleton in Hx as ->. lia.
Qed.

(** The walk by pages sees the rows above [n] of an increasing list, each once, in order:
    no page boundary loses or repeats one. *)
Lemma pages_rest size fuel : (0 < size)%nat -> forall pre rest n,
  climbs n rest -> (forall x, x ∈ pre -> rr_sequence x <= n) -> (length rest < fuel)%nat ->
  pages fuel size (pre ++ rest) n = rest.
Proof.
  intros Hs. induction fuel as [|fuel IH]; intros pre rest n Hc Hpre Hf; [lia|].
  cbn [pages]. rewrite List.filter_app.
  rewrite (lfilter_none _ pre) by (intros x Hx; apply Z.ltb_ge; auto).
  rewrite (lfilter_all _ rest) by (intros x Hx; apply Z.ltb_lt; by eapply climbs_above).
  cbn [app]. destruct (last (take size rest)) as [row|] eqn:El.
  - rewrite <- (take_drop size rest) in Hc. apply climbs_app in Hc as [Hc1 Hc2]. rewrite El in Hc2.
    assert (Hpos : (length (drop size rest) < length rest)%nat).
    { rewrite length_drop. destruct rest; [by rewrite take_nil in El|cbn; lia]. }
    rewrite <- (take_drop size rest) at 2. rewrite app_assoc, IH; [apply take_drop|done| |lia].
    intros x [Hx|Hx]%elem_of_app; [|exact (climbs_last _ _ _ _ Hc1 El Hx)].
    transitivity n; [auto|]. apply Z.lt_le_incl. eapply climbs_above; [done|].
    apply last_Some in El as (l & ->). set_solver.
  - apply last_None in El. destruct rest; [done|]. destruct size; [lia|done].
Qed.

Lemma pages_all size fuel rows n :
  (0 < size)%nat -> climbs n rows -> (length rows < fuel)%nat -> pages fuel size rows n = rows.
Proof. intros Hs Hc Hf. apply (pages_rest size fuel Hs [] rows n); [done|set_solver|done]. Qed.

(** * The chain of a scope *)

Section chain.
Context (sha256_hex : string -> string).

(** The records continue a chain whose last hash is [prev] and whose next sequence is [n]. *)
Fixpoint linked (prev : option string) (n : Z) (rs : list ReceiptRecord) : Prop :=
  match rs with
  | [] => True
  | r :: rs =>
      rr_sequence r = n /\ rr_previous_hash r = prev /\
      rr_content_hash r = content_hash_of sha256_hex (rr_payload r) /\
      rr_record_hash r = record_hash_of sha256_hex r /\
      linked (Some (rr_record_hash r)) (n + 1) rs
  end.

Definition of_scope (s : string) (rs : list ReceiptRecord) : list ReceiptRecord :=
  List.filter (fun r => String.eqb (rr_scope r) s) rs.

Definition head_hash (prev : option string) (rs : list ReceiptRecord) : option string :=
  match last rs with Some r => Some (rr_record_hash r) | None => prev end.

Definition is_object (v : json) : Prop := exists ms, v = JObj ms.

(** What every stored record satisfies by itself *)
Record record_ok (r : ReceiptRecord) : Prop := {
  ro_bodies : bodies_wf r;
  ro_payload : is_object (rr_payload r);
  ro_provenance : is_object (rr_provenance r);
  ro_scope : validate_scope (rr_scope r) = Ok (rr_scope r);
  ro_type : mem (rr_type r) RECEIPT_TYPES = true
}.

(** The table holds the records [rs]: one chain for each scope, from 1 on without a gap, and no
    record that clashes with an earlier one. *)
Record sound (rows : list Row) (rs : list ReceiptRecord) : Prop := {
  so_rows : rows = map to_row rs;
  so_ok : Forall record_ok rs;
  so_links : forall s, linked None 1 (of_scope s rs);
  so_fresh : forall l1 r l2, rs = l1 ++ r :: l2 -> existsb (clashes r) (map to_row l1) = false
}.

(** What the operations make sure of before they insert *)
Record draft_ok (d : draft) : Prop := {
  do_payload_wf : json_wf (dr_payload d) = true;
  do_provenance_wf : json_wf (dr_provenance d) = true;
  do_payload : is_object (dr_payload d);
  do_provenance : is_object (dr_provenance d);
  do_scope : validate_scope (dr_scope d) = Ok (dr_scope d)
}.

Lemma linked_snoc p n rs r :
  linked p n (rs ++ [r]) <->
  linked p n rs /\ linked (head_hash p rs) (n + Z.of_nat (length rs)) [r].
Proof.
  unfold head_hash. revert p n; induction rs as [|x rs IH]; intros p n.
  - cbn [app linked last length]. replace (n + Z.of_nat 0) with n by lia. tauto.
  - cbn [app linked]. rewrite IH, last_cons. cbn [length].
    replace (n + Z.of_nat (S (length rs))) with (n + 1 + Z.of_nat (length rs)) by lia.
    destruct (last rs); cbn [linked]; tauto.
Qed.

Lemma linked_climbs p n rs : linked p n rs -> climbs (n - 1) (map to_row rs).
Proof.
  revert p n; induction rs as [|r rs IH]; intros p n; cbn [linked map climbs]; [done|].
  intros (Hn & _ & _ & _ & H). apply IH in H. change (rr_sequence (to_row r)) with (rr_sequence r).
  split; [lia|]. by replace (n + 1 - 1) with (rr_sequence r) in H by lia.
Qed.

Lemma of_scope_app s l1 l2 : of_scope s (l1 ++ l2) = of_scope s l1 ++ of_scope s l2.
Proof. apply List.filter_app. Qed.

Lemma of_scope_rows s rs : List.filter (in_scope_of s) (map to_row rs) = map to_row (of_scope s rs).
Proof. apply lfilter_map. Qed.

Lemma of_scope_all s rs : Forall (fun r => rr_scope r = s) (of_scope s rs).
Proof. apply Forall_forall. intros r [_ H]%elem_of_lfilter. by apply String.eqb_eq. Qed.

Lemma map_last {A B} (f : A -> B) l : last (map f l) = f <$> last l.
Proof. induction l as [|x l IH]; [done|]. cbn [map]. rewrite !last_cons, IH. by destruct (last l). Qed.

Lemma next_sequence_sound rows rs s :
  sound rows rs ->
  next_sequence rows s = (1 + Z.of_nat (length (of_scope s rs)), head_hash None (of_scope s rs)).
Proof.
  intros [-> _ Hl _]. unfold next_sequence, descending, head_hash. rewrite of_scope_rows.
  specialize (Hl s). rewrite (climbs_sorted 0) by (by apply (linked_climbs None 1)).
  destruct (of_scope s rs) as [|r l _] using rev_ind; [done|].
  rewrite map_app, rev_app_distr, last_snoc, length_app. cbn.
  apply linked_snoc in Hl as [_ (Hn & _)]. rewrite Hn. f_equal. lia.
Qed.

(** ** Appending keeps the chains *)

Lemma insert_grows rows d rows' r :
  insert sha256_hex rows d = Ok (rows', r) -> rows' = rows ++ [to_row r].
Proof.
  unfold insert. intros H. apply bind_ok in H as (u & _ & H).
  destruct (next_sequence rows (dr_scope d)) as [n p].
  destruct (existsb _ rows); [done|]. by injection H as <- <-.
Qed.

Lemma snoc_split {A} (l1 l2 rs : list A) x r :
  rs ++ [x] = l1 ++ r :: l2 -> (l1 = rs /\ r = x) \/ exists l2', rs = l1 ++ r :: l2'.
Proof.
  destruct l2 as [|y l2 _] using rev_ind.
  - intros [<- [= <-]]%app_inj_tail. by left.
  - rewrite app_comm_cons, app_assoc. intros [-> _]%app_inj_tail. right. by exists l2.
Qed.

Lemma insert_sound rows rs d rows' r :
  sound rows rs -> draft_ok d -> insert sha256_hex rows d = Ok (rows', r) -> sound rows' (rs ++ [r]).
Proof.
  intros Hs [Hpw Hvw Hpo Hvo Hsc] H. pose proof (insert_grows _ _ _ _ H) as ->. revert H. unfold insert. intros H.
  apply bind_ok in H as (u & Ht & H). apply raise_if_ok, negb_false_iff in Ht.
  rewrite (next_sequence_sound rows rs) in H by done.
  destruct (existsb _ rows) eqn:Hc; [done|]. injection H as _ <-. destruct Hs as [-> Hok Hl Hf]. split.
  - by rewrite map_app.
  - apply Forall_app. split; [done|]. constructor; [|done]. by split.
  - intros s. rewrite of_scope_app. cbn [of_scope List.filter].
    destruct (String.eqb_spec (rr_scope (sealed sha256_hex d (1 + Z.of_nat (length (of_scope (dr_scope d) rs)))
      (head_hash None (of_scope (dr_scope d) rs)))) s) as [E|E]; [|by rewrite app_nil_r].
    cbn in E. subst s. apply linked_snoc. split; [done|]. by cbn.
  - intros l1 r l2 [[-> ->]|(l2' & E)]%snoc_split; [done|]. by eapply Hf.
Qed.

(** ** A sound table verifies *)

Lemma walk_sound rows rs s :
  sound rows rs -> walk_scope rows true s = map to_row (of_scope s rs).
Proof.
  intros [-> _ Hl _]. unfold walk_scope. rewrite of_scope_rows.
  specialize (Hl s). apply linked_climbs in Hl. rewrite (climbs_sorted 0) by done.
  apply pages_all; [unfold PAGE_SIZE; lia|done|lia].
Qed.

Lemma link_errors prev n r rs :
  1 <= n -> linked prev n (r :: rs) -> record_errors sha256_hex prev r = [].
Proof.
  intros Hn (Hs & Hp & Hc & Hr & _). unfold record_errors.
  rewrite <- Hc, <- Hr, !String.eqb_refl, Hp, bool_decide_true by done.
  replace (rr_sequence r <? 1) with false by (symmetry; apply Z.ltb_ge; lia). done.
Qed.

(** The walk over one scope adds no error and leaves what is known of the others. *)
Lemma chain_errors_scope s (m : gmap string string) rs rest :
  (forall r, r ∈ rs -> rr_scope r = s) ->
  forall n, 1 <= n -> linked (m !! s) n rs ->
  exists m' : gmap string string, (forall t, t <> s -> m' !! t = m !! t) /\
    chain_errors sha256_hex m (rs ++ rest) = chain_errors sha256_hex m' rest.
Proof.
  revert m; induction rs as [|r rs IH]; intros m Hs n Hn Hl; [by exists m|].
  assert (Hr : rr_scope r = s) by (apply Hs; set_solver).
  destruct (IH (<[s := rr_record_hash r]> m)) with (n := n + 1) as (m' & Hm & He);
    [intros; apply Hs; set_solver|lia|by rewrite lookup_insert_eq; apply Hl|].
  exists m'. split.
  - intros t Ht. rewrite Hm, lookup_insert_ne by done. done.
  - cbn [app chain_errors]. rewrite Hr, He. by rewrite (link_errors _ _ _ _ Hn Hl).
Qed.

Lemma chain_errors_scopes ss rs (m : gmap string string) :
  base.NoDup ss -> (forall s, s ∈ ss -> m !! s = None) -> (forall s, linked None 1 (of_scope s rs)) ->
  chain_errors sha256_hex m (concat (map (fun s => of_scope s rs) ss)) = [].
Proof.
  intros Hnd. revert m. induction Hnd as [|s ss Hs Hnd IH]; intros m Hm Hl; [done|].
  cbn [map concat]. destruct (chain_errors_scope s m (of_scope s rs)
    (concat (map (fun s => of_scope s rs) ss))) with (n := 1) as (m' & Hm' & ->).
  - apply Forall_forall, of_scope_all.
  - lia.
  - rewrite Hm by set_solver. apply Hl.
  - apply IH; [|done]. intros t Ht. rewrite Hm' by (intros ->; done). apply Hm. set_solver.
Qed.

(** The records a verification looks at *)
Definition checked_records (scope : option string) (rs : list ReceiptRecord) : list ReceiptRecord :=
  match scope with Some s => of_scope s rs | None => rs end.

Lemma distinct_scopes_nodup rows : base.NoDup (distinct_scopes rows).
Proof. unfold distinct_scopes. rewrite sort_str_perm. apply dedupe_from_nodup. Qed.

Lemma all_scopes_perm rs :
  concat (map (fun s => of_scope s rs) (distinct_scopes (map to_row rs))) ≡ₚ rs.
Proof.
  rewrite <- (lfilter_all (fun _ => true) rs) at 2 by done.
  rewrite <- (group_perm rr_scope (fun _ => true) (distinct_scopes (map to_row rs)) rs).
  - match goal with |- ?x ≡ₚ ?y => enough (x = y) as -> by done end. f_equal. apply map_ext. intros s. apply List.filter_ext.
    intros r. rewrite andb_true_r. apply eq_true_iff_eq.
    by rewrite String.eqb_eq, bool_decide_eq_true.
  - apply distinct_scopes_nodup.
  - intros r Hr. unfold distinct_scopes. rewrite elem_of_sort_str. apply dedupe_from_elem.
    split; [|set_solver]. rewrite map_map. by apply (list_elem_of_fmap_2 rr_scope).
Qed.

Definition scope_ok (scope : option string) : Prop :=
  match scope with Some s => validate_scope s = Ok s | None => True end.

Lemma records_read rs : Forall record_ok rs -> map_result row_to_record (map to_row rs) = Ok rs.
Proof.
  intros H. apply map_result_all. intros r Hr. apply row_round_trip. eapply Forall_forall in H; [|done].
  apply H.
Qed.

Lemma of_scope_sub s rs r : r ∈ of_scope s rs -> r ∈ rs.
Proof. by intros [? _]%elem_of_lfilter. Qed.

Lemma iter_sound rows rs scope :
  sound rows rs -> scope_ok scope ->
  exists walked, iter_chain_records rows scope true = Ok walked /\ walked ≡ₚ checked_records scope rs /\ chain_errors sha256_hex ∅ walked = [].
Proof.
  intros Hs Hv. pose proof Hs as [Hrows Hwf Hl _]. unfold iter_chain_records.
  assert (G : forall ss, map_result row_to_record (concat (map (walk_scope rows true) ss))
                         = Ok (concat (map (fun s => of_scope s rs) ss))).
  { intros ss. replace (concat (map (walk_scope rows true) ss))
      with (map to_row (concat (map (fun s => of_scope s rs) ss))).
    - apply records_read. apply Forall_forall. intros r (s & _ & Hr)%elem_of_concat_map.
      eapply Forall_forall in Hwf; [done|]. by eapply of_scope_sub.
    - rewrite concat_map, map_map. f_equal. apply map_ext. intros s. by rewrite (walk_sound rows rs). }
  unfold mbind, result_mbind, result_bind. destruct scope as [s|]; unfold scope_ok in Hv.
  - rewrite Hv, (G [s]). eexists. split; [done|].
    cbn [map concat checked_records]. rewrite app_nil_r. split; [done|].
    rewrite <- (app_nil_r (of_scope s rs)). apply (chain_errors_scopes [s] rs ∅); [apply NoDup_singleton|done..].
  - rewrite G. eexists. split; [done|]. subst rows. split; [apply all_scopes_perm|].
    apply chain_errors_scopes; [apply distinct_scopes_nodup|done..].
Qed.

(** Verification of a sound table finds nothing, and every record is looked at. *)
Lemma verify_sound rows rs scope :
  sound rows rs -> scope_ok scope ->
  verify_integrity sha256_hex rows scope
  = Ok {| in_valid := true; in_checked := length (checked_records scope rs); in_errors := [];
          in_scope := scope |}.
Proof.
  intros Hs Hv. destruct (iter_sound rows rs scope Hs Hv) as (w & Hw & Hp & He).
  unfold verify_integrity. rewrite Hw. cbn. by rewrite He, Hp.
Qed.

Lemma assert_sound rows rs scope : sound rows rs -> scope_ok scope -> assert_integrity sha256_hex rows scope = Ok tt.
Proof. intros Hs Hv. unfold assert_integrity. by rewrite (verify_sound rows rs). Qed.
End chain.

(** * The operations as steps of the system *)

Section steps.
Context (sha256_hex : string -> string).

#[local] Abbreviation insert := (insert sha256_hex).

(** The dicts the callers pass are in normal form, as every Python dict of JSON values is. *)
Definition args_wf (a : put_args) : Prop :=
  json_wf (pa_payload a) = true /\
  match pa_provenance a with Some ms => json_wf (JObj ms) = true | None => True end.

Definition item_wf (i : Item) : Prop :=
  match rr_payload i with Some p => json_wf p = true | None => True end /\
  json_wf (rr_provenance i) = true.

Inductive store_step (rows rows' : list Row) : Prop :=
| step_put a uuid now r :
    args_wf a -> put_receipt sha256_hex rows a uuid now = Ok (rows', r) -> store_step rows rows'
| step_event parent scope payload event_id event_type outcome allow uuid now r :
    json_wf payload = true ->
    append_event sha256_hex rows parent scope payload event_id event_type outcome allow uuid now
      = Ok (rows', r) -> store_step rows rows'
| step_tombstone receipt_id scope reason uuid now r :
    tombstone sha256_hex rows receipt_id scope reason uuid now = Ok (rows', r) ->
    store_step rows rows'
| step_retention strict scope age now uuid time res :
    apply_retention sha256_hex strict rows scope age now uuid time = (rows', res) ->
    store_step rows rows'
| step_import m n :
    Forall item_wf (mf_receipts m) -> import_manifest sha256_hex rows m = Ok (rows', n) ->
    store_step rows rows'
| step_bundle m scope n :
    Forall item_wf (mf_receipts m) -> import_bundle sha256_hex rows m scope = Ok (rows', n) ->
    store_step rows rows'.

(** What an operation that may write does: nothing, or one insertion. *)
Definition at_most_one (rows rows' : list Row) : Prop :=
  rows' = rows \/ exists d r, insert rows d = Ok (rows', r) /\ draft_ok d.

Inductive writes : list Row -> list Row -> Prop :=
| writes_refl rows : writes rows rows
| writes_step rows1 rows2 rows3 : at_most_one rows1 rows2 -> writes rows2 rows3 -> writes rows1 rows3.

Lemma writes_one rows rows' : at_most_one rows rows' -> writes rows rows'.
Proof. intros H. by eapply writes_step; [|constructor]. Qed.

Lemma redact_payload_wf payload allow clean :
  redact_payload payload allow = Ok clean -> json_wf payload = true ->
  json_wf clean = true /\ is_object clean.
Proof.
  unfold redact_payload. destruct payload as [| | | | | |ms]; try done. cbn [redact_sensitive_dict].
  intros [= <-] Hw. split; [by apply (redact_wf allow (JObj ms))|by eexists].
Qed.

Lemma validate_scope_id s t : validate_scope s = Ok t -> validate_scope t = Ok t.
Proof.
  intros H. pose proof H as H'. unfold validate_scope in H'.
  apply bind_ok in H' as (? & _ & H'). apply bind_ok in H' as (? & _ & [= <-]). done.
Qed.

Lemma default_provenance_ok : json_wf DEFAULT_PROVENANCE = true /\ is_object DEFAULT_PROVENANCE.
Proof. split; [by vm_compute|by eexists]. Qed.

Lemma draft_ok_intro d s :
  json_wf (dr_payload d) = true /\ is_object (dr_payload d) ->
  json_wf (dr_provenance d) = true /\ is_object (dr_provenance d) ->
  validate_scope s = Ok (dr_scope d) -> draft_ok d.
Proof. intros [? ?] [? ?] ?%validate_scope_id. by split. Qed.

Lemma put_writes rows a uuid now rows' r :
  args_wf a -> put_receipt sha256_hex rows a uuid now = Ok (rows', r) -> at_most_one rows rows'.
Proof.
  intros [Hp Hv] H. unfold put_receipt in H.
  apply bind_ok in H as (scope & Hsc & H). apply bind_ok in H as (clean & Hclean & H).
  apply bind_ok in H as (prov & Hprov & H). apply bind_ok in H as (u & _ & H).
  apply redact_payload_wf in Hclean; [|done].
  apply redact_payload_wf in Hprov;
    [|by destruct (pa_provenance a) as [[|]|]; try apply default_provenance_ok].
  destruct (pa_idempotency_key a) as [k|]; [destruct (List.find _ rows)|].
  - apply bind_ok in H as (record & _ & H). case_match; [|done]. injection H as <- _. by left.
  - match type of H with context [ReceiptStore.insert _ _ ?d] =>
      destruct (ReceiptStore.insert sha256_hex rows d) as [[rows1 r1]|e] eqn:E end; [|by destruct e].
    injection H as <- <-. right. do 2 eexists. split; [exact E|by eapply draft_ok_intro].
  - match type of H with context [ReceiptStore.insert _ _ ?d] =>
      destruct (ReceiptStore.insert sha256_hex rows d) as [[rows1 r1]|e] eqn:E end; [|by destruct e].
    injection H as <- <-. right. do 2 eexists. split; [exact E|by eapply draft_ok_intro].
Qed.

Lemma event_writes rows parent scope payload event_id event_type outcome allow uuid now rows' r :
  json_wf payload = true ->
  append_event sha256_hex rows parent scope payload event_id event_type outcome allow uuid now
    = Ok (rows', r) -> at_most_one rows rows'.
Proof.
  intros Hp H. unfold append_event in H.
  apply bind_ok in H as (sc & Hsc & H). apply bind_ok in H as (clean & Hclean & H).
  apply bind_ok in H as (u & _ & H). apply bind_ok in H as (u' & _ & H).
  apply redact_payload_wf in Hclean; [|done].
  destruct (List.find _ rows).
  - apply bind_ok in H as (record & _ & H). case_match; [|done]. injection H as <- _. by left.
  - destruct outcome as [o|], (terminal_events rows parent sc) as [|x l]; try done.
    2: { case_match; [|done]. apply bind_ok in H as (record & _ & H). injection H as <- _. by left. }
    all: right; do 2 eexists; (split; [exact H|]);
      (eapply draft_ok_intro; [done|apply default_provenance_ok|exact Hsc]).
Qed.

Lemma tombstone_row_writes rows receipt_id scope reason uuid now rows' r :
  tombstone_row sha256_hex rows receipt_id scope reason uuid now = Ok (rows', r) ->
  at_most_one rows rows'.
Proof.
  intros H. unfold tombstone_row in H. apply bind_ok in H as (sc & Hsc & H).
  destruct (List.find _ rows).
  - apply bind_ok in H as (record & _ & H). injection H as <- _. by left.
  - right. do 2 eexists. split; [exact H|].
    eapply draft_ok_intro; [split; [done|by eexists]|apply default_provenance_ok|exact Hsc].
Qed.

Lemma retire_writes scope rs uuid time : forall rows removed rows' res,
  retire sha256_hex rows scope rs uuid time removed = (rows', res) -> writes rows rows'.
Proof.
  induction rs as [|r rs IH]; intros rows removed rows' res; cbn [retire].
  - intros [= <- _]. constructor.
  - destruct (is_tombstone r); [apply IH|].
    destruct (tombstone_row _ _ _ _ _ _ _) as [[rows1 t]|e] eqn:E.
    + intros H%IH. eapply writes_step; [|done]. by eapply tombstone_row_writes.
    + intros [= <- _]. constructor.
Qed.

Lemma import_item_writes rows item rows' n :
  item_wf item -> import_item sha256_hex rows item = Ok (rows', n) -> at_most_one rows rows'.
Proof.
  intros [Hp Hv] H. unfold import_item in H. destruct (rr_payload item) as [payload|]; [|done].
  apply bind_ok in H as (scope & Hsc & H). destruct (List.find _ rows).
  - apply bind_ok in H as (record & _ & H). apply bind_ok in H as (u & _ & H).
    injection H as <- _. by left.
  - apply bind_ok in H as (u & Hobj & H). apply bind_ok in H as (prov & Hprov & H).
    apply redact_payload_wf in Hprov; [|done].
    apply bind_ok in H as ([rows1 r] & Hi & H).
    repeat (apply bind_ok in H as (? & _ & H)). injection H as <- _.
    right. do 2 eexists. split; [exact Hi|]. eapply draft_ok_intro; [|done|done].
    split; [done|]. destruct payload; try done. by eexists.
Qed.

Lemma import_items_writes items : forall rows k rows' n,
  Forall item_wf items -> import_items sha256_hex rows items k = Ok (rows', n) -> writes rows rows'.
Proof.
  induction items as [|item items IH]; intros rows k rows' n Hw; cbn [import_items].
  - intros [= <- _]. constructor.
  - inversion Hw; subst. intros H. apply bind_ok in H as ([rows1 m] & Hi & H).
    eapply writes_step; [by eapply import_item_writes|]. by eapply IH.
Qed.

Lemma import_writes rows m rows' n :
  Forall item_wf (mf_receipts m) -> import_manifest sha256_hex rows m = Ok (rows', n) -> writes rows rows'.
Proof.
  intros Hw H. unfold import_manifest in H. apply bind_ok in H as (u & _ & H).
  apply bind_ok in H as (u' & _ & H). eapply import_items_writes; [|done].
  by rewrite sort_by_perm.
Qed.

Lemma step_writes rows rows' : store_step rows rows' -> writes rows rows'.
Proof.
  intros [a uuid now r Ha H|parent scope payload ei et o al uuid now r Hp H|i scope reason uuid now r H
    |strict scope age now uuid time res H|m n Hm H|m scope n Hm H].
  - by eapply writes_one, put_writes.
  - by eapply writes_one, event_writes.
  - unfold tombstone in H. apply bind_ok in H as (found & _ & H). destruct found; [|done].
    by eapply writes_one, tombstone_row_writes.
  - unfold apply_retention in H. destruct (Qltb age 0); [injection H as <- _; constructor|].
    destruct (query_receipts _ _ _ _ _ _ _ _); [by eapply retire_writes|injection H as <- _; constructor].
  - by eapply import_writes.
  - unfold import_bundle in H. apply bind_ok in H as (u & _ & H). apply bind_ok in H as (u' & _ & H).
    by eapply import_writes.
Qed.

Lemma writes_sound rows rows' rs :
  writes rows rows' -> sound sha256_hex rows rs -> exists new, sound sha256_hex rows' (rs ++ new).
Proof.
  intros H. revert rs. induction H as [rows|rows1 rows2 rows3 H1 H IH]; intros rs Hs.
  - exists []. by rewrite app_nil_r.
  - destruct H1 as [->|(d & r & Hi & Hd)]; [by apply IH|].
    destruct (IH (rs ++ [r])) as (new & Hn); [by eapply insert_sound|].
    exists (r :: new). by rewrite <- app_assoc in Hn.
Qed.

Lemma writes_grow rows rows' : writes rows rows' -> exists new, rows' = rows ++ new.
Proof.
  induction 1 as [rows|rows1 rows2 rows3 H1 H (new & ->)]; [exists []; by rewrite app_nil_r|].
  destruct H1 as [->|(d & r & Hi & _)]; [by eexists|].
  apply insert_grows in Hi as ->. eexists. by rewrite <- app_assoc.
Qed.

Lemma sound_nil : sound sha256_hex [] [].
Proof. split; [done|constructor|done|]. by intros []. Qed.

Lemma steps_sound rows rows' rs :
  rtc store_step rows rows' -> sound sha256_hex rows rs -> exists new, sound sha256_hex rows' (rs ++ new).
Proof.
  intros H. revert rs. induction H as [rows|r1 r2 r3 H1 _ IH]; intros rs Hs.
  - exists []. by rewrite app_nil_r.
  - destruct (writes_sound _ _ rs (step_writes _ _ H1) Hs) as (new & Hn).
    destruct (IH _ Hn) as (more & Hm). exists (new ++ more). by rewrite app_assoc.
Qed.

Lemma reachable_sound rows : rtc store_step [] rows -> exists rs, sound sha256_hex rows rs.
Proof. intros H. destruct (steps_sound _ _ [] H sound_nil) as (rs & Hs). by exists rs. Qed.
End steps.

(** * What a verified chain fixes *)

Section binding.
Context (sha256_hex : string -> string).

Definition collision : Prop := exists s t, s <> t /\ sha256_hex s = sha256_hex t.

(** A record as its hash sees it: a falsy provenance is [{}]. *)
Definition hash_view (r : ReceiptRecord) : ReceiptRecord :=
  with_bodies r (rr_payload r) (or_empty (rr_provenance r)).

(** What verification establishes for the records of one scope *)
Fixpoint links (prev : option string) (rs : list ReceiptRecord) : Prop :=
  match rs with
  | [] => True
  | r :: rs =>
      rr_previous_hash r = prev /\ rr_content_hash r = content_hash_of sha256_hex (rr_payload r) /\
      rr_record_hash r = record_hash_of sha256_hex r /\ links (Some (rr_record_hash r)) rs
  end.

Lemma links_snoc prev rs r : links prev (rs ++ [r]) <-> links prev rs /\ links (head_hash prev rs) [r].
Proof.
  unfold head_hash. revert prev; induction rs as [|x rs IH]; intros prev; cbn [app links last]; [tauto|].
  rewrite IH, last_cons. destruct (last rs); cbn [links]; tauto.
Qed.

Lemma errors_links s (m : gmap string string) rs :
  (forall r, r ∈ rs -> rr_scope r = s) -> chain_errors sha256_hex m rs = [] -> links (m !! s) rs.
Proof.
  revert m; induction rs as [|r rs IH]; intros m Hs; cbn [chain_errors links]; [done|].
  rewrite (Hs r) by set_solver. intros [H1 H2]%app_nil. unfold record_errors in H1.
  apply app_nil in H1 as [Hc H1]. apply app_nil in H1 as [Hl Hr].
  apply IH in H2; [|intros; apply Hs; set_solver]. rewrite lookup_insert_eq in H2.
  destruct (String.eqb_spec (content_hash_of sha256_hex (rr_payload r)) (rr_content_hash r)); [|done].
  destruct (String.eqb_spec (record_hash_of sha256_hex r) (rr_record_hash r)); [|done].
  destruct (rr_sequence r <? 1); [done|]. cbn in Hl. destruct (bool_decide _) eqn:Hb; [|done].
  by apply bool_decide_eq_true in Hb.
Qed.

Lemma canonical_inj v w :
  json_wf v = true -> json_wf w = true -> sha256_hex (canonical v) = sha256_hex (canonical w) ->
  v = w \/ collision.
Proof.
  intros Hv Hw H. destruct (decide (canonical v = canonical w)) as [E|E]; [left; by eapply dumps_inj|].
  right. by exists (canonical v), (canonical w).
Qed.

Lemma or_empty_wf v : json_wf v = true -> json_wf (or_empty v) = true.
Proof. unfold or_empty. by destruct (truthy v). Qed.

Lemma opt_wf o : json_wf (jopt JStr o) = true.
Proof. by destruct o. Qed.

Definition record_wf (r : ReceiptRecord) : Prop :=
  bodies_wf r /\ float_ok (rr_timestamp r) = true.

Lemma hashed_fields_wf r : record_wf r -> json_wf (hashed_fields r) = true.
Proof.
  intros [[_ Hv] Ht]. unfold hashed_fields. cbn [json_wf forallb].
  by rewrite Ht, !opt_wf, or_empty_wf.
Qed.

Lemma jopt_inj (a b : option string) : jopt JStr a = jopt JStr b -> a = b.
Proof. destruct a, b; cbn; congruence. Qed.

(** Equal hashes, equal records. *)
Lemma record_binds r1 r2 :
  record_wf r1 -> record_wf r2 -> links (rr_previous_hash r1) [r1] -> links (rr_previous_hash r2) [r2] ->
  rr_record_hash r1 = rr_record_hash r2 -> hash_view r1 = hash_view r2 \/ collision.
Proof.
  intros W1 W2 (_ & C1 & R1 & _) (_ & C2 & R2 & _) H. pose proof H as H'. rewrite R1, R2 in H'.
  apply canonical_inj in H' as [H'|?]; [|by right|by apply hashed_fields_wf..].
  injection H' as E1 E2 E3 E4 E5 E6 E7 E8 E9 E10 E11 E12 E13 E14 E15 E16.
  apply jopt_inj in E7, E10, E11, E12, E13, E14, E15, E16.
  pose proof E4 as E4'. rewrite C1, C2 in E4'. destruct W1 as [[Wp1 _] _], W2 as [[Wp2 _] _].
  apply canonical_inj in E4' as [E4'|?]; [|by right|done..].
  left. unfold hash_view, with_bodies.
  by rewrite E1, E2, E3, E4, E5, E6, E7, E8, E9, E10, E11, E12, E13, E14, E15, E16, E4', H.
Qed.

Lemma chain_binds_links rs1 rs2 :
  Forall record_wf rs1 -> Forall record_wf rs2 -> links None rs1 -> links None rs2 ->
  head_hash None rs1 = head_hash None rs2 -> map hash_view rs1 = map hash_view rs2 \/ collision.
Proof.
  revert rs2. induction rs1 as [|r1 l1 IH] using rev_ind; intros rs2 W1 W2 L1 L2 H.
  - destruct rs2 as [|r2 l2 _] using rev_ind; [by left|]. unfold head_hash in H. by rewrite last_snoc in H.
  - destruct rs2 as [|r2 l2 _] using rev_ind; [unfold head_hash in H; by rewrite last_snoc in H|].
    unfold head_hash in H. rewrite !last_snoc in H. injection H as H.
    apply Forall_app in W1 as [W1 Wr1], W2 as [W2 Wr2]. apply Forall_cons in Wr1 as [Wr1 _], Wr2 as [Wr2 _].
    apply links_snoc in L1 as [L1 Lr1], L2 as [L2 Lr2].
    assert (P1 : rr_previous_hash r1 = head_hash None l1) by apply Lr1.
    assert (P2 : rr_previous_hash r2 = head_hash None l2) by apply Lr2.
    rewrite <- P1 in Lr1. rewrite <- P2 in Lr2.
    destruct (record_binds r1 r2 Wr1 Wr2 Lr1 Lr2 H) as [E|?]; [|by right].
    destruct (IH l2 W1 W2 L1 L2) as [E'|?]; [|left|by right].
    + rewrite <- P1, <- P2. apply (f_equal rr_previous_hash E).
    + rewrite !map_app, E'. cbn [map]. by rewrite E.
Qed.
End binding.
