(* ===== verification/ReceiptTheorems.v ===== *)
(** What the receipt store guarantees: the store is append-only, every table its operations reach
    verifies and serves its reads, a keyed write happens once, a deleted receipt stays deleted, a
    manifest restores what it was taken from; and what verification and the export's cap miss. *)
From Stdlib Require Import Ascii.
From S2P Require Import Prelude PyStr PyNum Json JsonDict Policy Redaction ReceiptStore ReceiptChain.

Section claims.
Context (sha256_hex : string -> string).

#[local] Abbreviation collision := (collision sha256_hex).

(** What a table's timestamps are: the column is a float. *)
Definition typed (rows : list Row) : Prop := Forall (fun row => float_ok (rr_timestamp row) = true) rows.

Lemma pages_sub size fuel rows : forall n x, x ∈ pages fuel size rows n -> x ∈ rows.
Proof.
  induction fuel as [|fuel IH]; intros n x; cbn [pages]; [set_solver|].
  destruct (last _); [|set_solver]. intros [H|H]%elem_of_app; [|by eapply IH].
  apply list_elem_of_lookup in H as (i & H). apply lookup_take_Some in H as [H _].
  apply list_elem_of_lookup_2 in H. by apply elem_of_lfilter in H as [H _].
Qed.

Lemma walk_sub rows keep s x : x ∈ walk_scope rows keep s -> x ∈ rows /\ rr_scope x = s.
Proof.
  unfold walk_scope, ascending. intros H. apply pages_sub in H. rewrite elem_of_sort_by in H.
  destruct keep; [|apply elem_of_lfilter in H as [H _]]; apply elem_of_lfilter in H as [H1 H2];
    (split; [done|by apply String.eqb_eq]).
Qed.

Lemma read_wf row r : row_to_record row = Ok r -> float_ok (rr_timestamp row) = true -> record_wf r.
Proof.
  unfold row_to_record. destruct (loads (rr_payload row)) as [p|] eqn:Ep; [|done].
  destruct (loads (rr_provenance row)) as [v|] eqn:Ev; [|done]. intros [= <-] Ht.
  split; [split; by eapply loads_wf|done].
Qed.

Lemma read_scope row r : row_to_record row = Ok r -> rr_scope r = rr_scope row.
Proof.
  unfold row_to_record. destruct (loads (rr_payload row)); [|done].
  destruct (loads (rr_provenance row)); [|done]. by intros [= <-].
Qed.

(** What a successful verification of one scope says of the records it walked *)
Lemma verified_links rows s found walked :
  typed rows -> verify_integrity sha256_hex rows (Some s) = Ok found -> in_valid found = true ->
  iter_chain_records rows (Some s) true = Ok walked ->
  links sha256_hex None walked /\ Forall record_wf walked.
Proof.
  intros Ht Hv Hok Hw. unfold verify_integrity in Hv. rewrite Hw in Hv. injection Hv as <-. cbn in Hok.
  unfold iter_chain_records in Hw. apply bind_ok in Hw as (ss & Hs & Hw).
  apply bind_ok in Hs as (s' & Hs & [= <-]). pose proof (validate_scope_id _ _ Hs) as Hs'.
  assert (s' = s) as ->.
  { unfold validate_scope in Hs. apply bind_ok in Hs as (? & _ & Hs). by apply bind_ok in Hs as (? & _ & [= <-]). }
  cbn [map concat] in Hw. rewrite app_nil_r in Hw. apply map_result_ok in Hw.
  assert (G : Forall (fun r => record_wf r /\ rr_scope r = s) walked).
  { apply Forall_forall. intros r Hr. apply list_elem_of_lookup in Hr as (i & Hi).
    eapply Forall2_lookup_r in Hw as (row & Hrow & Hread); [|done].
    apply list_elem_of_lookup_2, walk_sub in Hrow as [Hin <-].
    split; [|by apply read_scope]. eapply read_wf; [done|]. by eapply Forall_forall in Ht. }
  split; [|eapply Forall_impl; [done|by intros r []]].
  change None with ((∅ : gmap string string) !! s). apply (errors_links sha256_hex s).
  - intros r Hr. by eapply Forall_forall in G as [_ G].
  - by destruct (chain_errors sha256_hex ∅ walked).
Qed.

(** C30: when two tables, whatever is in them, both verify for a scope and the last records of
    their chains have the same hash, then the chains (the rows of a sequence number above 0, which
    are those the verification walks) are the same record for record in every field the hash covers,
    a falsy provenance read as the empty one, or two different texts have the same SHA-256 digest: nobody
    changes, reorders, inserts or drops a record of the chain before its head. Rows numbered 0 or
    below are outside the chain and unchecked ([low_sequences_are_unchecked]). *)
Theorem chain_binds rows1 rows2 s found1 found2 walked1 walked2 :
  typed rows1 -> typed rows2 ->
  verify_integrity sha256_hex rows1 (Some s) = Ok found1 -> in_valid found1 = true ->
  verify_integrity sha256_hex rows2 (Some s) = Ok found2 -> in_valid found2 = true ->
  iter_chain_records rows1 (Some s) true = Ok walked1 ->
  iter_chain_records rows2 (Some s) true = Ok walked2 ->
  head_hash None walked1 = head_hash None walked2 ->
  map hash_view walked1 = map hash_view walked2 \/ collision.
Proof.
  intros T1 T2 V1 K1 V2 K2 W1 W2 H.
  destruct (verified_links _ _ _ _ T1 V1 K1 W1) as [L1 R1], (verified_links _ _ _ _ T2 V2 K2 W2) as [L2 R2].
  by apply chain_binds_links.
Qed.

(** ** Reads of a sound table *)

Lemma find_mapped {A B} (f : B -> bool) (g : A -> B) l :
  List.find f (map g l) = g <$> List.find (fun x => f (g x)) l.
Proof. induction l as [|x l IH]; cbn; [done|]. by destruct (f (g x)). Qed.

Lemma find_in {A} (f : A -> bool) l x : List.find f l = Some x -> x ∈ l /\ f x = true.
Proof. intros H. apply List.find_some in H as [H ?]. split; [by apply list_elem_of_In|done]. Qed.

Lemma find_app {A} (f : A -> bool) l1 l2 :
  List.find f (l1 ++ l2) = match List.find f l1 with Some x => Some x | None => List.find f l2 end.
Proof. induction l1 as [|x l1 IH]; cbn; [done|]. by destruct (f x). Qed.

(** What [get_receipt] looks for *)
Definition shown (rows : list Row) (receipt_id : string) (scope : option string) (keep : bool)
    (r : ReceiptRecord) : bool :=
  String.eqb (rr_id r) receipt_id
  && match scope with Some s => String.eqb (rr_scope r) s | None => true end
  && (keep || negb (tombstoned rows (to_row r))).

Lemma get_sound rows rs receipt_id scope keep :
  sound sha256_hex rows rs -> scope_ok scope ->
  get_receipt sha256_hex rows receipt_id scope keep
  = Ok (List.find (shown rows receipt_id scope keep) rs).
Proof.
  intros Hs Hv. unfold get_receipt. rewrite (assert_sound sha256_hex rows rs) by done.
  destruct Hs as [-> Hok _ _]. unfold scope_ok in Hv. cbn [mbind result_mbind result_bind].
  assert (Hsc : (match scope with Some s => s ← validate_scope s; Ok (Some s) | None => Ok None end)
                = (Ok scope : result receipt_exn (option string))).
  { destruct scope; [by rewrite Hv|done]. }
  rewrite Hsc. cbn [mbind result_mbind result_bind]. rewrite find_mapped.
  change (fun x => String.eqb (rr_id (to_row x)) receipt_id &&
    match scope with Some s => in_scope_of s (to_row x) | None => true end &&
    (keep || negb (tombstoned (map to_row rs) (to_row x))))
    with (shown (map to_row rs) receipt_id scope keep).
  destruct (List.find _ rs) as [r|] eqn:E; cbn; [|done].
  apply find_in in E as [E _]. eapply Forall_forall in Hok; [|done].
  by rewrite row_round_trip by apply Hok.
Qed.

Lemma take_sub {A} n (l : list A) x : x ∈ take n l -> x ∈ l.
Proof. intros H. rewrite <- (take_drop n l). apply elem_of_app. by left. Qed.

(** ** The store never locks itself *)

Definition count_in (rows : list Row) (scope : option string) : nat :=
  length (match scope with Some s => List.filter (in_scope_of s) rows | None => rows end).

(** C31: every table that the operations reach verifies, for one scope and for all of them: no error,
    each of the scope's records checked, however many pages that takes; and hence no read is refused
    for the store's own doing. *)
Theorem reachable_store_verifies rows scope receipt_id keep :
  rtc (store_step sha256_hex) [] rows -> scope_ok scope ->
  verify_integrity sha256_hex rows scope
  = Ok {| in_valid := true; in_checked := count_in rows scope; in_errors := []; in_scope := scope |} /\
  is_ok (get_receipt sha256_hex rows receipt_id scope keep) = true.
Proof.
  intros Hr Hv. destruct (reachable_sound _ _ Hr) as (rs & Hs).
  rewrite (verify_sound sha256_hex rows rs), (get_sound rows rs) by done. split; [|done].
  do 2 f_equal. destruct Hs as [-> _ _ _]. unfold count_in, checked_records.
  destruct scope; [by rewrite of_scope_rows, length_map|by rewrite length_map].
Qed.

(** No operation rewrites or removes a row, whatever the table holds and whether or not it
    verifies: the table after any run is the one before it with rows appended. *)
Theorem store_append_only rows rows' :
  rtc (store_step sha256_hex) rows rows' -> exists new, rows' = rows ++ new.
Proof.
  induction 1 as [rows|rows1 rows2 rows3 H1 _ (new & ->)]; [exists []; by rewrite app_nil_r|].
  destruct (writes_grow _ _ _ (step_writes _ _ _ H1)) as (new' & ->). exists (new' ++ new).
  by rewrite app_assoc.
Qed.
#[local] Instance receipt_eq_dec {P V} `{EqDecision P, EqDecision V} : EqDecision (receipt P V).
Proof. solve_decision. Defined.

(** ** Idempotence *)

(** No NaN in a value: a NaN is not equal to itself. *)
Fixpoint no_nan (v : json) : bool :=
  match v with
  | JFloat r => negb (String.eqb r "NaN")
  | JList vs => forallb no_nan vs
  | JObj ms => forallb (fun m => no_nan m.2) ms
  | _ => true
  end.

Lemma py_eq_refl v : no_nan v = true -> py_eq v v = true.
Proof.
  induction v as [| | |r|s|vs IH|ms IH] using json_nested_ind; intros H; cbn; try done.
  - unfold number_eq. cbn. by destruct b.
  - unfold number_eq. cbn. unfold Qeq_bool. cbn. by rewrite Z.mul_1_r, Z.eqb_refl.
  - unfold number_eq. cbn. destruct (parse_decimal r) as [[q|]|]; cbn in H.
    1: by apply Qeq_bool_iff.
    all: by rewrite String.eqb_refl, H.
  - by rewrite String.eqb_refl.
  - cbn in H. induction IH as [|x l Hx _ IHl]; [done|]. cbn in H. apply andb_true_iff in H as [H1 H2].
    rewrite Hx by done. by apply IHl.
  - cbn in H. induction IH as [|[k x] l Hx _ IHl]; [done|]. cbn in H. apply andb_true_iff in H as [H1 H2].
    cbn in Hx. rewrite String.eqb_refl, Hx by done. by apply IHl.
Qed.

Lemma row_read_payload rs r : Forall record_ok rs -> r ∈ rs -> row_to_record (to_row r) = Ok r.
Proof. intros H Hr. eapply Forall_forall in H; [|done]. by apply row_round_trip, H. Qed.

Lemma insert_read rows d rows' r :
  insert sha256_hex rows d = Ok (rows', r) ->
  rr_payload r = dr_payload d /\ rr_provenance r = dr_provenance d /\ rr_type r = dr_type d /\ rr_scope r = dr_scope d /\
  rr_idempotency_key r = dr_idempotency_key d /\ rr_tombstone_for r = dr_tombstone_for d.
Proof.
  unfold insert. intros H. apply bind_ok in H as (u & _ & H).
  destruct (next_sequence rows (dr_scope d)) as [n p]. destruct (existsb _ rows); [done|].
  by injection H as _ <-.
Qed.

(** The row that a keyed [put_receipt] answers with, which is there afterwards *)
Lemma put_stored rows rs a k uuid now rows' r :
  sound sha256_hex rows rs -> args_wf a -> pa_idempotency_key a = Some k ->
  put_receipt sha256_hex rows a uuid now = Ok (rows', r) ->
  exists scope clean row,
    validate_scope (pa_scope a) = Ok scope /\ redact_payload (pa_payload a) (pa_allowlist a) = Ok clean /\
    List.find (fun row => in_scope_of scope row && opt_is (rr_idempotency_key row) k) rows' = Some row /\
    row_to_record row = Ok r /\ (rows' = rows -> py_eq (rr_payload r) clean = true) /\
    (rows' <> rows -> rr_payload r = clean) /\ rr_type r = pa_type a.
Proof.
  intros Hs Ha Hk H. pose proof H as Hput. unfold put_receipt in H.
  apply bind_ok in H as (scope & Hsc & H). apply bind_ok in H as (clean & Hclean & H).
  apply bind_ok in H as (prov & Hprov & H). apply bind_ok in H as (u & _ & H). rewrite Hk in H.
  destruct (List.find _ rows) as [row|] eqn:Ef.
  - apply bind_ok in H as (record & Hread & H).
    destruct (py_eq (rr_payload record) clean && String.eqb (rr_type record) (pa_type a)) eqn:E; [|done].
    injection H as <- <-. bool_hyps. exists scope, clean, row. by rewrite Ef.
  - match type of H with context [ReceiptStore.insert _ _ ?d] =>
      destruct (ReceiptStore.insert sha256_hex rows d) as [[rows1 r1]|e] eqn:E end; [|by destruct e].
    injection H as <- <-. pose proof (insert_grows _ _ _ _ _ E) as ->.
    apply insert_read in E as (E1 & E5 & E2 & E3 & E4 & _). cbn in E1, E2, E3, E4, E5.
    exists scope, clean, (to_row r1). repeat split; try done.
    + rewrite find_app, Ef. cbn [List.find]. unfold in_scope_of, opt_is.
      change (rr_scope (to_row r1)) with (rr_scope r1).
      change (rr_idempotency_key (to_row r1)) with (rr_idempotency_key r1).
      by rewrite E3, E4, String.eqb_refl, bool_decide_true.
    + apply row_round_trip. unfold bodies_wf. rewrite E1, E5. destruct Ha as [Hp Hv].
      apply redact_payload_wf in Hclean as [Hc _], Hprov as [Hpw _]; try done.
      by destruct (pa_provenance a) as [[|]|]; try apply default_provenance_ok.
    + intros Hw. apply (f_equal length) in Hw. rewrite length_app in Hw. cbn in Hw. lia.
Qed.

(** A keyed [put_receipt] happens once: repeated with the same arguments after any further
    operations (a retry after a crash, another process), it writes nothing and returns the first record,
    whatever time it is; unless the payload holds a NaN. *)
Theorem put_receipt_once rows a k uuid now rows1 r rows2 uuid' now' clean :
  rtc (store_step sha256_hex) [] rows -> args_wf a -> pa_idempotency_key a = Some k ->
  redact_payload (pa_payload a) (pa_allowlist a) = Ok clean -> no_nan clean = true ->
  put_receipt sha256_hex rows a uuid now = Ok (rows1, r) ->
  rtc (store_step sha256_hex) rows1 rows2 ->
  put_receipt sha256_hex rows2 a uuid' now' = Ok (rows2, r).
Proof.
  intros Hreach Ha Hk Hclean Hn H Hlater. destruct (reachable_sound _ _ Hreach) as (rs & Hs).
  destruct (put_stored rows rs a k uuid now rows1 r Hs Ha Hk H)
    as (sc & cl & row & Hsc & Hcl & Hf & Hread & Hold & Hnew & Ht).
  rewrite Hclean in Hcl. injection Hcl as <-.
  assert (Heq : py_eq (rr_payload r) clean = true).
  { destruct (decide (rows1 = rows)) as [E|E]; [by apply Hold|]. rewrite Hnew by done. by apply py_eq_refl. }
  destruct (store_append_only _ _ Hlater) as (new & ->).
  unfold put_receipt in H |- *. rewrite Hsc, Hclean in H |- *. cbn [mbind result_mbind result_bind] in H |- *.
  apply bind_ok in H as (prov & -> & H). apply bind_ok in H as (u & Hu & _). rewrite Hu.
  cbn [mbind result_mbind result_bind]. rewrite Hk, find_app, Hf, Hread. cbn [mbind result_mbind result_bind].
  by rewrite Heq, Ht, String.eqb_refl.
Qed.

(** ** Lifecycles *)

Lemma terminal_events_app rows new parent scope :
  terminal_events rows parent scope <> [] -> terminal_events (rows ++ new) parent scope <> [].
Proof.
  unfold terminal_events, ascending. rewrite List.filter_app. intros H He. apply H.
  apply (f_equal length) in He. rewrite (Permutation_length (sort_by_perm _ _)), length_app in He.
  destruct (List.filter _ rows); [done|cbn in He; lia].
Qed.

(** C32: once a receipt has a terminal event, [append_event] never writes below it again: it returns a
    stored record (the same event, or a terminal event with the outcome asked for) or raises. *)
Theorem terminal_events_are_final rows rows1 parent scope payload event_id event_type outcome allow uuid now rows' r :
  terminal_events rows parent scope <> [] -> validate_scope scope = Ok scope ->
  rtc (store_step sha256_hex) rows rows1 ->
  append_event sha256_hex rows1 parent scope payload event_id event_type outcome allow uuid now = Ok (rows', r) ->
  rows' = rows1 /\ rr_parent r = Some parent /\
  (rr_event_id r = Some event_id \/ exists o, outcome = Some o /\ rr_terminal_outcome r = Some o).
Proof.
  intros Ht Hv Hlater H. destruct (store_append_only _ _ Hlater) as (new & ->).
  apply (terminal_events_app _ new) in Ht. revert Ht H. generalize (rows ++ new). clear rows new Hlater.
  intros rows Ht H. unfold append_event in H. rewrite Hv in H. cbn [mbind result_mbind result_bind] in H.
  apply bind_ok in H as (clean & _ & H). apply bind_ok in H as (u & _ & H). apply bind_ok in H as (u' & _ & H).
  assert (Hfield : forall row r, row_to_record row = Ok r ->
    rr_parent r = rr_parent row /\ rr_event_id r = rr_event_id row /\
    rr_terminal_outcome r = rr_terminal_outcome row).
  { intros row q. unfold row_to_record. destruct (loads (rr_payload row)); [|done].
    destruct (loads (rr_provenance row)); [|done]. by intros [= <-]. }
  destruct (List.find _ rows) as [row|] eqn:Ef.
  - apply bind_ok in H as (record & Hread & H). apply Hfield in Hread as (E1 & E2 & _).
    destruct (py_eq _ _ && opt_is _ _) eqn:E; [|done]. injection H as <- <-.
    apply find_in in Ef as [_ Ef]. unfold opt_is in *. bool_hyps. split; [done|]. split; [done|]. left. by rewrite E2.
  - destruct (terminal_events rows parent scope) as [|first l] eqn:Et; [done|].
    destruct outcome as [o|]; [|done]. destruct (opt_is _ _) eqn:Eo; [|done].
    apply bind_ok in H as (record & Hread & [= <- <-]). apply Hfield in Hread as (E1 & _ & E3).
    split; [done|]. unfold opt_is in Eo. apply bool_decide_eq_true in Eo.
    assert (Hin : first ∈ terminal_events rows parent scope) by (rewrite Et; set_solver).
    unfold terminal_events, ascending in Hin. rewrite elem_of_sort_by in Hin.
    apply elem_of_lfilter in Hin as [_ Hin]. unfold opt_is in Hin. bool_hyps.
    split; [by rewrite E1|]. right. exists o. by rewrite E3.
Qed.
(** ** Deletion *)

Lemma validate_scope_same s t : validate_scope s = Ok t -> t = s.
Proof.
  unfold validate_scope. intros H. apply bind_ok in H as (? & _ & H). by apply bind_ok in H as (? & _ & [= <-]).
Qed.

Lemma row_fields row r :
  row_to_record row = Ok r -> r = with_bodies row (rr_payload r) (rr_provenance r).
Proof.
  unfold row_to_record. destruct (loads (rr_payload row)); [|done].
  destruct (loads (rr_provenance row)); [|done]. by intros [= <-].
Qed.

(** The marker is there after [_tombstone]. *)
Lemma tombstone_row_marks rows receipt_id s reason uuid now rows' t :
  tombstone_row sha256_hex rows receipt_id s reason uuid now = Ok (rows', t) ->
  validate_scope s = Ok s /\ exists row, row ∈ rows' /\ rr_tombstone_for row = Some receipt_id.
Proof.
  unfold tombstone_row. intros H. apply bind_ok in H as (sc & Hsc & H).
  pose proof (validate_scope_same _ _ Hsc) as ->. split; [done|].
  destruct (List.find _ rows) as [row|] eqn:Ef.
  - apply bind_ok in H as (record & _ & [= <- _]). apply find_in in Ef as [Hin Ef].
    unfold opt_is in Ef. bool_hyps. by exists row.
  - pose proof (insert_grows _ _ _ _ _ H) as ->. apply insert_read in H as (_ & _ & _ & _ & _ & H).
    exists (to_row t). split; [set_solver|exact H].
Qed.

Lemma marked rows row (r : Row) :
  row ∈ rows -> rr_tombstone_for row = Some (rr_id r) -> tombstoned rows r = true.
Proof.
  intros Hin Ht. apply existsb_exists. exists row. split; [by apply list_elem_of_In|].
  unfold opt_is. by rewrite bool_decide_true.
Qed.

(** C33: a deleted receipt stays deleted and stays there: after [tombstone], and whatever the store
    does next, no read finds it, in its own scope or across scopes, no query lists it, and a read
    that asks for tombstoned records returns the record as it was. *)
Theorem deleted_stays_hidden rows receipt_id s reason uuid now rows1 t rows2 :
  rtc (store_step sha256_hex) [] rows ->
  tombstone sha256_hex rows receipt_id s reason uuid now = Ok (rows1, t) ->
  rtc (store_step sha256_hex) rows1 rows2 ->
  (forall scope, scope_ok scope -> get_receipt sha256_hex rows2 receipt_id scope false = Ok None) /\
  (forall strict kind scope limit parent rs, scope_ok scope ->
     query_receipts sha256_hex strict rows2 kind scope limit false parent = Ok rs ->
     forall r, r ∈ rs -> rr_id r <> receipt_id) /\
  exists r, get_receipt sha256_hex rows receipt_id (Some s) true = Ok (Some r) /\
            get_receipt sha256_hex rows2 receipt_id (Some s) true = Ok (Some r).
Proof.
  intros Hreach Ht Hlater. destruct (reachable_sound _ _ Hreach) as (rs & Hs).
  assert (Hstep : store_step sha256_hex rows rows1) by by eapply step_tombstone.
  destruct (steps_sound sha256_hex rows rows2 rs) as (more & Hs2); [by eapply rtc_l|done|].
  unfold tombstone in Ht. apply bind_ok in Ht as (found & Hget & Ht). destruct found as [r|]; [|done].
  apply tombstone_row_marks in Ht as (Hsc & row & Hrow & Hmark).
  assert (Hrow2 : row ∈ rows2) by (destruct (store_append_only _ _ Hlater) as (n & ->); set_solver).
  split; [|split].
  - intros scope Hok. rewrite (get_sound rows2 (rs ++ more)) by done. f_equal.
    destruct (List.find _ (rs ++ more)) as [r2|] eqn:E; [|done]. apply find_in in E as [_ E]. unfold shown in E.
    apply andb_true_iff in E as [[Eid _]%andb_true_iff E]. apply String.eqb_eq in Eid.
    rewrite (marked rows2 row (to_row r2)) in E; [done|done|]. change (rr_id (to_row r2)) with (rr_id r2). congruence.
  - intros strict kind scope limit parent rs' Hok Hq r2 Hr2 Hid. unfold query_receipts in Hq.
    apply bind_ok in Hq as (? & _ & Hq). apply bind_ok in Hq as (? & _ & Hq).
    apply bind_ok in Hq as (sc & _ & Hq). apply map_result_ok in Hq.
    apply list_elem_of_lookup in Hr2 as (i & Hi).
    eapply Forall2_lookup_r in Hq as (row2 & Hi2 & Hread); [|done].
    apply list_elem_of_lookup_2, take_sub in Hi2. unfold descending, ascending in Hi2.
    rewrite elem_of_rev, elem_of_sort_by in Hi2. apply elem_of_lfilter in Hi2 as [_ Hi2].
    apply andb_true_iff in Hi2 as [_ Hi2].
    rewrite (marked rows2 row row2) in Hi2; [done|done|].
    rewrite (row_fields _ _ Hread) in Hid. cbn in Hid. congruence.
  - exists r. split; [done|].
    rewrite (get_sound rows rs) in Hget by done. injection Hget as Hget.
    rewrite (get_sound rows2 (rs ++ more)) by done. f_equal. rewrite find_app.
    change (shown rows2 receipt_id (Some s) true) with (shown rows receipt_id (Some s) true). by rewrite Hget.
Qed.
(** ** What verification cannot see *)

Lemma linked_prefix p n l1 l2 : linked sha256_hex p n (l1 ++ l2) -> linked sha256_hex p n l1.
Proof. revert p n; induction l1 as [|r l1 IH]; intros p n; cbn; [done|]. intuition eauto. Qed.

Lemma sound_prefix rows l1 l2 : sound sha256_hex rows (l1 ++ l2) -> sound sha256_hex (map to_row l1) l1.
Proof.
  intros [_ Hok Hl Hf]. split; [done| | |].
  - by apply Forall_app in Hok as [? _].
  - intros s. specialize (Hl s). rewrite of_scope_app in Hl. by eapply linked_prefix.
  - intros k1 r k2 ->. apply (Hf k1 r (k2 ++ l2)). by rewrite <- app_assoc.
Qed.

(** Cutting off the newest records of a table leaves a table that verifies: the head of the chain is
    kept nowhere else. *)
Theorem truncation_unseen kept dropped scope :
  rtc (store_step sha256_hex) [] (kept ++ dropped) -> scope_ok scope ->
  exists found, verify_integrity sha256_hex kept scope = Ok found /\ in_valid found = true.
Proof.
  intros H Hv. destruct (reachable_sound _ _ H) as (rs & Hs). pose proof Hs as [Hrows _ _ _].
  symmetry in Hrows. apply map_eq_app in Hrows as (l1 & l2 & -> & <- & <-).
  eexists. split; [apply (verify_sound sha256_hex (map to_row l1) l1)|done]; [|done].
  by eapply sound_prefix.
Qed.

Lemma sort_snoc_low (l : list Row) x n :
  climbs n l -> rr_sequence x <= n -> ascending (l ++ [x]) = x :: l.
Proof.
  unfold ascending. revert n; induction l as [|y l IH]; intros n; cbn [app climbs]; [done|].
  intros [H1 H2] Hx. cbn [sort_by foldr]. fold (sort_by (fun a b : Row => rr_sequence a <=? rr_sequence b)).
  change (foldr _ _ (l ++ [x])) with (sort_by (fun a b : Row => rr_sequence a <=? rr_sequence b) (l ++ [x])).
  rewrite (IH (rr_sequence y) H2 ltac:(lia)). cbn [insert_by].
  replace (rr_sequence y <=? rr_sequence x) with false by (symmetry; apply Z.leb_gt; lia).
  f_equal. apply insert_by_least. intros z Hz. apply Z.leb_le.
  pose proof (climbs_above _ _ _ H2 Hz). lia.
Qed.

Lemma walk_forged rs s row :
  linked sha256_hex None 1 (of_scope s rs) -> rr_scope row = s -> rr_sequence row <= 0 ->
  walk_scope (map to_row rs ++ [row]) true s = map to_row (of_scope s rs).
Proof.
  intros Hl Hs Hn. unfold walk_scope. rewrite List.filter_app, of_scope_rows. cbn [List.filter].
  unfold in_scope_of at 1 2. rewrite Hs, String.eqb_refl. apply linked_climbs in Hl.
  rewrite (sort_snoc_low _ row 0) by done. apply (pages_rest PAGE_SIZE _ ltac:(unfold PAGE_SIZE; lia) [row]).
  - done.
  - by intros x ->%list_elem_of_singleton.
  - rewrite length_app. cbn. lia.
Qed.

(** The walk starts above sequence 0, so a row that carries a sequence of 0 or less is in
    no chain and is never checked ([record.sequence < 1] cannot hold in the loop): written into a good
    table with any content and any hashes, it leaves the verification successful, with as many records
    checked as before, and [get_receipt] serves it. *)
Theorem low_sequences_are_unchecked rows row r s :
  rtc (store_step sha256_hex) [] rows -> validate_scope s = Ok s ->
  rr_scope row = s -> rr_sequence row <= 0 -> row_to_record row = Ok r ->
  (forall x, x ∈ rows -> rr_id x <> rr_id row /\ rr_tombstone_for x <> Some (rr_id row)) ->
  rr_tombstone_for row <> Some (rr_id row) ->
  verify_integrity sha256_hex (rows ++ [row]) (Some s) = verify_integrity sha256_hex rows (Some s) /\
  get_receipt sha256_hex (rows ++ [row]) (rr_id row) (Some s) false = Ok (Some r).
Proof.
  intros H Hv Hs Hn Hread Hfresh Hself. destruct (reachable_sound _ _ H) as (rs & Hso).
  pose proof Hso as [-> Hok Hl _].
  assert (Hver : verify_integrity sha256_hex (map to_row rs ++ [row]) (Some s)
                 = verify_integrity sha256_hex (map to_row rs) (Some s)).
  { unfold verify_integrity, iter_chain_records. rewrite Hv. cbn [mbind result_mbind result_bind map concat].
    by rewrite (walk_forged rs s row), (walk_sound sha256_hex (map to_row rs) rs s). }
  split; [done|]. unfold get_receipt, assert_integrity.
  rewrite Hver, (verify_sound sha256_hex (map to_row rs) rs) by done.
  rewrite Hv. cbn [mbind result_mbind result_bind raise_if in_valid negb].
  rewrite find_app. destruct (List.find _ (map to_row rs)) as [x|] eqn:E.
  - apply find_in in E as [Hin E]. apply andb_true_iff in E as [[E _]%andb_true_iff _].
    apply String.eqb_eq in E. by apply Hfresh in Hin as [? _].
  - cbn [List.find]. unfold in_scope_of. rewrite Hs, !String.eqb_refl.
    replace (tombstoned (map to_row rs ++ [row]) row) with false; [cbn; by rewrite Hread|].
    symmetry. apply not_true_is_false. intros (x & Hx & Ht)%existsb_exists.
    unfold opt_is in Ht. apply bool_decide_eq_true in Ht. apply list_elem_of_In, elem_of_app in Hx.
    destruct Hx as [Hx|Hx%list_elem_of_singleton]; [by apply Hfresh in Hx as [_ ?]|by subst x].
Qed.
(** ** Manifests *)

Lemma insert_by_greatest {A} (le : A -> A -> bool) x l :
  (forall y, y ∈ l -> le x y = false) -> insert_by le x l = l ++ [x].
Proof.
  induction l as [|y l IH]; intros H; cbn; [done|]. rewrite H by set_solver.
  f_equal. apply IH. intros; apply H; set_solver.
Qed.

(** Sorting a list that comes in the opposite order *)
Lemma sort_by_rev {A} (le : A -> A -> bool) l :
  (forall l1 x l2, l = l1 ++ x :: l2 -> forall y, y ∈ l1 -> le x y = false) -> sort_by le (rev l) = l.
Proof.
  induction l as [|x l IH] using rev_ind; intros H; [done|].
  rewrite rev_app_distr. cbn [rev app sort_by foldr]. fold (sort_by le (rev l)). rewrite IH.
  - apply insert_by_greatest. by apply (H l x []).
  - intros l1 y l2 ->. apply (H l1 y (l2 ++ [x])). by rewrite <- app_assoc.
Qed.

Lemma linked_before p n l1 x l2 y :
  linked sha256_hex p n (l1 ++ x :: l2) -> y ∈ l1 -> rr_sequence y < rr_sequence x.
Proof.
  intros H Hy. apply linked_climbs in H. rewrite map_app in H. apply climbs_app in H as [H1 H2].
  cbn in H2. destruct H2 as [H2 _]. destruct (last (map to_row l1)) as [z|] eqn:E.
  - pose proof (climbs_last _ _ (to_row y) z H1 E) as H3. change (rr_sequence (to_row y)) with (rr_sequence y) in H3.
    change (rr_sequence (to_row x)) with (rr_sequence x) in H2. specialize (H3 (list_elem_of_fmap_2 to_row _ _ Hy)). lia.
  - apply last_None, map_eq_nil in E as ->. set_solver.
Qed.

Lemma filter_split {A} (f : A -> bool) l l1 x l2 :
  List.filter f l = l1 ++ x :: l2 -> exists k1 k2, l = k1 ++ x :: k2 /\ l1 = List.filter f k1.
Proof.
  revert l1; induction l as [|y l IH]; intros l1; cbn; [by destruct l1|].
  destruct (f y) eqn:Ey.
  - destruct l1 as [|z l1]; intros [= -> H]; [by exists [], l|].
    destruct (IH _ H) as (k1 & k2 & -> & ->). exists (z :: k1), k2. cbn. by rewrite Ey.
  - intros H. destruct (IH _ H) as (k1 & k2 & -> & ->). exists (y :: k1), k2. cbn. by rewrite Ey.
Qed.

(** The chain of one scope by itself *)
Lemma sound_scope rows rs s :
  sound sha256_hex rows rs -> sound sha256_hex (map to_row (of_scope s rs)) (of_scope s rs).
Proof.
  intros [_ Hok Hl Hf]. split; [done| | |].
  - apply Forall_forall. intros r Hr%of_scope_sub. by eapply Forall_forall in Hok.
  - intros t. destruct (decide (t = s)) as [->|Ht].
    + unfold of_scope at 1. rewrite lfilter_all; [done|]. intros x [_ Hx]%elem_of_lfilter. done.
    + unfold of_scope at 1. rewrite lfilter_none; [done|]. intros x [_ Hx]%elem_of_lfilter.
      apply String.eqb_eq in Hx as ->. by apply String.eqb_neq.
  - intros l1 r l2 H. apply filter_split in H as (k1 & k2 & Hrs & ->).
    apply not_true_is_false. intros (x & Hx & Hc)%existsb_exists.
    apply list_elem_of_In, list_elem_of_fmap in Hx as (y & -> & Hy%of_scope_sub).
    specialize (Hf _ _ _ Hrs). apply (existsb_false _ _ (to_row y)) in Hf; [congruence|].
    by apply list_elem_of_fmap_2.
Qed.

(** Redacting a record's provenance again changes nothing; the default one has no word that triggers
    a pattern. *)
Definition provenance_stable (r : ReceiptRecord) : Prop :=
  redact_value [] "" (rr_provenance r) = rr_provenance r.

Definition as_item (r : ReceiptRecord) : Item := with_bodies r (Some (rr_payload r)) (rr_provenance r).

Lemma sealed_again r p n d :
  linked sha256_hex p n [r] ->
  d = {| dr_type := rr_type r; dr_scope := rr_scope r; dr_payload := rr_payload r;
         dr_sensitivity := rr_sensitivity r; dr_provenance := rr_provenance r; dr_id := rr_id r;
         dr_timestamp := rr_timestamp r; dr_parent := rr_parent r; dr_event_id := rr_event_id r;
         dr_event_type := rr_event_type r; dr_terminal_outcome := rr_terminal_outcome r;
         dr_idempotency_key := rr_idempotency_key r; dr_tombstone_for := rr_tombstone_for r;
         dr_key_ref := rr_key_ref r |} ->
  sealed sha256_hex d n p = r.
Proof.
  intros (<- & <- & Hc & Hr & _) ->. unfold sealed. cbn. rewrite <- Hc. 
  destruct r; cbn in *. f_equal. rewrite Hr. unfold record_hash_of. done.
Qed.

(** One item of an export goes back where it was. *)
Lemma import_next pre r rest :
  sound sha256_hex (map to_row (pre ++ r :: rest)) (pre ++ r :: rest) ->
  (forall x, x ∈ pre ++ r :: rest -> rr_scope x = rr_scope r) -> provenance_stable r ->
  import_item sha256_hex (map to_row pre) (as_item r) = Ok (map to_row (pre ++ [r]), 1%nat).
Proof.
  intros Hs Hsc Hst. pose proof Hs as [_ Hok Hl Hf].
  assert (Hr : record_ok r) by (eapply Forall_forall in Hok; [done|set_solver]).
  destruct Hr as [Hb (ms & Hp) (vs & Hv) Hscope Htype].
  assert (Hfr : existsb (clashes r) (map to_row pre) = false) by by eapply Hf.
  unfold import_item, as_item. cbn [rr_payload rr_scope with_bodies]. rewrite Hscope.
  cbn [mbind result_mbind result_bind].
  match goal with |- context [List.find ?f ?l] => assert (List.find f l = None) as -> end.
  { destruct (List.find _ _) as [x|] eqn:E; [|done]. apply find_in in E as [Hin E].
    apply (existsb_false _ _ _ Hfr) in Hin. unfold clashes in Hin. cbn in E.
    apply andb_true_iff in E as [E _]. by rewrite E in Hin. }
  assert (Hprov : redact_payload (rr_provenance r) [] = Ok (rr_provenance r)).
  { unfold redact_payload, redact_sensitive_dict. rewrite Hst. by rewrite Hv. }
  rewrite Hp at 1. cbn [mbind result_mbind result_bind rr_provenance with_bodies]. rewrite Hprov.
  cbn [mbind result_mbind result_bind]. unfold insert. cbn [dr_type dr_scope rr_type with_bodies]. rewrite Htype.
  cbn [mbind result_mbind result_bind raise_if negb].
  assert (Hpre : of_scope (rr_scope r) pre = pre).
  { apply lfilter_all. intros x Hx. apply String.eqb_eq, Hsc. set_solver. }
  rewrite (next_sequence_sound sha256_hex _ pre) by by eapply sound_prefix.
  rewrite Hpre.
  assert (Hlink : linked sha256_hex (head_hash None pre) (1 + Z.of_nat (length pre)) [r]).
  { specialize (Hl (rr_scope r)). unfold of_scope in Hl.
    rewrite lfilter_all in Hl by (intros x Hx; by apply String.eqb_eq, Hsc).
    replace (pre ++ r :: rest) with ((pre ++ [r]) ++ rest) in Hl by by rewrite <- app_assoc.
    apply linked_prefix, linked_snoc in Hl. apply Hl. }
  rewrite (sealed_again r) by done. rewrite Hfr. cbn [mbind result_mbind result_bind].
  cbn. by rewrite !String.eqb_refl, Z.eqb_refl, bool_decide_true, map_app by done.
Qed.

Lemma import_rest s : forall rest pre k,
  sound sha256_hex (map to_row (pre ++ rest)) (pre ++ rest) ->
  (forall x, x ∈ pre ++ rest -> rr_scope x = s /\ provenance_stable x) ->
  import_items sha256_hex (map to_row pre) (map as_item rest) k
  = Ok (map to_row (pre ++ rest), (k + length rest)%nat).
Proof.
  induction rest as [|r rest IH]; intros pre k Hs Hx; cbn [map import_items length].
  - by rewrite app_nil_r, Nat.add_0_r.
  - rewrite (import_next pre r rest); [|done| |by apply Hx; set_solver].
    + cbn [mbind result_mbind result_bind].
      rewrite (IH (pre ++ [r])); rewrite <- !app_assoc; [|done..]. cbn [app]. do 2 f_equal. lia.
    + intros x Hin. destruct (Hx x Hin) as [-> _]. symmetry. apply Hx. set_solver.
Qed.

(** Records in strictly increasing order *)
Definition ordered (rs : list ReceiptRecord) : Prop :=
  forall l1 x l2 y, rs = l1 ++ x :: l2 -> y ∈ l1 -> rr_sequence y < rr_sequence x.

Lemma linked_ordered p n pre rs : linked sha256_hex p n (pre ++ rs) -> ordered rs.
Proof.
  intros H l1 x l2 y -> Hy. rewrite app_assoc in H. eapply linked_before; [done|]. set_solver.
Qed.

Lemma ordered_cons r rs : ordered (r :: rs) -> ordered rs /\ forall x, x ∈ rs -> rr_sequence r < rr_sequence x.
Proof.
  intros H. split.
  - intros l1 x l2 y -> Hy. apply (H (r :: l1) x l2); [done|set_solver].
  - intros x Hx. apply list_elem_of_split in Hx as (l1 & l2 & ->). apply (H (r :: l1) x l2); [done|set_solver].
Qed.

Lemma items_sorted s rs :
  ordered rs -> (forall r, r ∈ rs -> rr_scope r = s) ->
  sort_by import_le (map as_item rs) = map as_item rs.
Proof.
  intros Ho Hs. apply sort_by_id. induction rs as [|r rs IH]; [constructor|].
  apply ordered_cons in Ho as [Ho Hr]. cbn [map]. constructor.
  - apply IH; [done|]. intros; apply Hs; set_solver.
  - apply Forall_forall. intros i Hi. apply list_elem_of_fmap in Hi as (x & -> & Hx).
    unfold import_le. cbn. rewrite (Hs r), (Hs x), String.eqb_refl by set_solver. apply Z.leb_le.
    specialize (Hr x Hx). lia.
Qed.

Lemma records_sorted s rs :
  ordered rs -> (forall r, r ∈ rs -> rr_scope r = s) -> sort_by export_le (rev rs) = rs.
Proof.
  intros Ho Hs. apply sort_by_rev. intros l1 x l2 E y Hy. unfold export_le.
  pose proof (Ho _ _ _ _ E Hy). rewrite (Hs x), (Hs y), String.eqb_refl by (rewrite E; set_solver).
  destruct (Z.eqb_spec (rr_sequence x) (rr_sequence y)); [lia|]. apply Z.ltb_ge. lia.
Qed.

(** A query of a whole scope sees its newest 100000 records, newest first. *)
Lemma query_newest strict rows rs s :
  sound sha256_hex rows rs -> validate_scope s = Ok s ->
  query_receipts sha256_hex strict rows None (Some s) 100000 true None
  = Ok (take (Z.to_nat 100000) (rev (of_scope s rs))).
Proof.
  intros Hs Hv. unfold query_receipts.
  rewrite (assert_sound sha256_hex rows rs) by done. pose proof Hs as [Hrows Hok Hl _].
  cbn [mbind result_mbind result_bind raise_if orb]. rewrite Hv.
  cbn [mbind result_mbind result_bind].
  rewrite (List.filter_ext _ (in_scope_of s)) by (intros x; by rewrite !andb_true_r).
  rewrite Hrows, of_scope_rows. unfold descending. specialize (Hl s).
  rewrite (climbs_sorted 0) by (by apply (linked_climbs sha256_hex None 1)).
  rewrite <- map_rev, firstn_map. apply records_read. apply Forall_forall.
  intros r Hr%take_sub. rewrite elem_of_rev in Hr. apply of_scope_sub in Hr.
  by eapply Forall_forall in Hok.
Qed.

(** C34: exporting a scope of a reachable store and importing the manifest into an empty one gives
    back the scope's table, row for row (hashes, links and times included), when the scope is within the
    export's cap of 100000 records and a second redaction leaves the provenances as they are. *)
Theorem export_import_round_trip strict rows s :
  rtc (store_step sha256_hex) [] rows -> validate_scope s = Ok s ->
  Z.of_nat (count_in rows (Some s)) <= 100000 ->
  (forall row r, row ∈ rows -> row_to_record row = Ok r -> provenance_stable r) ->
  exists m, export_manifest sha256_hex strict rows (Some s) true = Ok m /\
    mf_receipt_count m = count_in rows (Some s) /\
    import_bundle sha256_hex [] m s = Ok (List.filter (in_scope_of s) rows, count_in rows (Some s)).
Proof.
  intros Hreach Hv Hn Hst. destruct (reachable_sound _ _ Hreach) as (rs & Hs).
  pose proof (sound_scope _ _ s Hs) as Hscope. pose proof Hs as [Hrows Hok Hl _].
  assert (Hin : forall x, x ∈ of_scope s rs -> rr_scope x = s /\ provenance_stable x).
  { intros x Hx. pose proof (of_scope_all s rs) as Hall. eapply Forall_forall in Hall; [|done].
    split; [done|]. apply of_scope_sub in Hx. apply (Hst (to_row x)).
    - rewrite Hrows. by apply list_elem_of_fmap_2.
    - by eapply row_read_payload. }
  unfold export_manifest. rewrite (query_newest strict rows rs) by done.
  rewrite take_ge by (rewrite length_rev; unfold count_in in Hn;
                      rewrite Hrows, of_scope_rows, length_map in Hn; lia).
  assert (Ho : ordered (of_scope s rs)) by (apply (linked_ordered None 1 []), Hl).
  cbn [mbind result_mbind result_bind]. rewrite (records_sorted s) by first [done | intros; by apply Hin].
  eexists. split; [reflexivity|]. unfold count_in. rewrite Hrows, of_scope_rows, !length_map. split; [done|].
  unfold import_bundle. rewrite Hv. cbn [mbind result_mbind result_bind mf_receipts].
  match goal with |- context [existsb ?f ?l] => assert (existsb f l = false) as -> end.
  { apply not_true_is_false. intros (i & Hi & Hne)%existsb_exists.
    apply list_elem_of_In, list_elem_of_fmap in Hi as (x & -> & Hx). apply Hin in Hx as [Hx _].
    cbn in Hne. rewrite Hx, String.eqb_refl in Hne. done. }
  unfold import_manifest. cbn [mbind result_mbind result_bind raise_if mf_version mf_receipts mf_manifest_digest].
  rewrite String.eqb_refl. cbn [mbind result_mbind result_bind raise_if negb mem].
  change (map (fun r : ReceiptRecord => with_bodies r (Some (rr_payload r)) (rr_provenance r)) (of_scope s rs))
    with (map as_item (of_scope s rs)).
  rewrite (items_sorted s) by first [done | intros; by apply Hin].
  by apply (import_rest s (of_scope s rs) [] 0).
Qed.

Lemma import_first item res :
  import_item sha256_hex [] item = Ok res -> rr_sequence item = 1.
Proof.
  unfold import_item. intros H. destruct (rr_payload item); [|done].
  apply bind_ok in H as (sc & _ & H). cbn [List.find] in H.
  apply bind_ok in H as (? & _ & H). apply bind_ok in H as (? & _ & H).
  apply bind_ok in H as ([rows r] & Hi & H). apply bind_ok in H as (? & _ & H).
  apply bind_ok in H as (? & _ & H). apply bind_ok in H as (? & Hq & _).
  apply raise_if_ok, negb_false_iff, Z.eqb_eq in Hq. unfold insert in Hi.
  apply bind_ok in Hi as (? & _ & Hi). by injection Hi as _ <-.
Qed.

Lemma import_bundle_first m s res :
  import_bundle sha256_hex [] m s = Ok res ->
  match sort_by import_le (mf_receipts m) with i :: _ => rr_sequence i = 1 | [] => True end.
Proof.
  unfold import_bundle, import_manifest. intros H. repeat apply bind_ok in H as (? & _ & H).
  destruct (sort_by import_le (mf_receipts m)) as [|i l]; [done|]. cbn [import_items] in H.
  apply bind_ok in H as ([rows n] & H & _). by eapply import_first.
Qed.

(** [export_manifest] keeps the newest 100000 records of a scope; from a longer chain it writes,
    without a word, a manifest that no empty store accepts, although it is meant for import and
    replay. *)
Theorem capped_export_is_refused strict rows s m :
  rtc (store_step sha256_hex) [] rows -> validate_scope s = Ok s ->
  100000 < Z.of_nat (count_in rows (Some s)) ->
  export_manifest sha256_hex strict rows (Some s) true = Ok m ->
  is_ok (import_bundle sha256_hex [] m s) = false.
Proof.
  intros Hreach Hv Hn Hm. destruct (reachable_sound _ _ Hreach) as (rs & Hs). pose proof Hs as [Hrows _ Hl _].
  unfold export_manifest in Hm. rewrite (query_newest strict rows rs) in Hm by done.
  unfold count_in in Hn. rewrite Hrows, of_scope_rows, length_map in Hn. specialize (Hl s).
  rewrite firstn_rev in Hm. remember (length (of_scope s rs) - Z.to_nat 100000)%nat as cut eqn:Hcut.
  rewrite <- (take_drop cut (of_scope s rs)) in Hl.
  assert (Hpre : (0 < length (take cut (of_scope s rs)))%nat) by (rewrite length_take; lia).
  assert (Hsuf : (0 < length (drop cut (of_scope s rs)))%nat) by (rewrite length_drop; lia).
  assert (Hsc : forall r, r ∈ drop cut (of_scope s rs) -> rr_scope r = s).
  { intros r Hr. pose proof (of_scope_all s rs) as Hall. eapply Forall_forall in Hall; [done|].
    rewrite <- (take_drop cut (of_scope s rs)). set_solver. }
  destruct (take cut (of_scope s rs)) as [|r0 pre]; [cbn in Hpre; lia|].
  destruct (drop cut (of_scope s rs)) as [|r suf]; [cbn in Hsuf; lia|].
  cbn [mbind result_mbind result_bind] in Hm. pose proof (linked_ordered _ _ _ _ Hl) as Ho. rewrite (records_sorted s (r :: suf)) in Hm by done.
  injection Hm as <-. destruct (import_bundle _ _ _ _) as [res|] eqn:E; [|done].
  apply import_bundle_first in E.
  change (match sort_by import_le (map as_item (r :: suf)) with i :: _ => rr_sequence i = 1 | [] => True end) in E.
  rewrite (items_sorted s (r :: suf)) in E by done. cbn in E.
  pose proof (linked_before _ _ (r0 :: pre) r suf r0 Hl ltac:(set_solver)). destruct Hl as [Hl _]. lia.
Qed.

(** ** Retention *)

Lemma retire_spec s uuid time : forall rs rows removed rows' out,
  retire sha256_hex rows s rs uuid time removed = (rows', Ok out) ->
  out = removed ++ map rr_id (List.filter (fun r => negb (is_tombstone r)) rs) /\
  forall r, r ∈ rs -> is_tombstone r = false ->
    exists row, row ∈ rows' /\ rr_tombstone_for row = Some (rr_id r).
Proof.
  induction rs as [|x rs IH]; intros rows removed rows' out; cbn [retire List.filter map].
  - intros [= _ <-]. rewrite app_nil_r. split; [done|set_solver].
  - destruct (is_tombstone x) eqn:Ex; cbn [negb].
    + intros H. apply IH in H as [-> H]. split; [done|]. intros r [->|Hr]%elem_of_cons Ht; [congruence|auto].
    + destruct (tombstone_row _ _ _ _ _ _ _) as [[rows1 t]|e] eqn:E; [|done]. intros H.
      pose proof (writes_grow _ _ _ (retire_writes _ _ _ _ _ _ _ _ _ H)) as (new & Hnew).
      apply IH in H as [-> H]. split; [cbn [map]; by rewrite <- app_assoc|].
      intros r [->|Hr]%elem_of_cons Ht; [|auto].
      apply tombstone_row_marks in E as (_ & row & Hrow & Hmark). exists row. subst. set_solver.
Qed.

(** What [apply_retention] reports is what it did: the ids it returns are those of the records
    older than the cutoff among the newest 100000 that were not tombstoned, markers apart, and each
    of them is gone from every read afterwards. *)
Theorem retention_exact strict rows s age now uuid time rows' removed :
  rtc (store_step sha256_hex) [] rows -> validate_scope s = Ok s ->
  apply_retention sha256_hex strict rows s age now uuid time = (rows', Ok removed) ->
  exists rs,
    query_receipts sha256_hex strict rows None (Some s) 100000 false None = Ok rs /\
    removed = map rr_id (List.filter (fun r => older (now - age) r && negb (is_tombstone r)) rs) /\
    forall i scope, i ∈ removed -> scope_ok scope -> get_receipt sha256_hex rows' i scope false = Ok None.
Proof.
  intros Hreach Hv H. unfold apply_retention in H.
  assert (Hreach' : rtc (store_step sha256_hex) [] rows').
  { etrans; [done|]. apply rtc_once. by eapply step_retention. }
  destruct (Qltb age 0); [done|].
  destruct (query_receipts _ _ _ _ _ _ _ _) as [rs|e] eqn:Eq; [|done].
  apply retire_spec in H as [-> H]. exists rs. split; [done|]. cbn [app].
  assert (Hf : List.filter (fun r => negb (is_tombstone r)) (List.filter (older (now - age)) rs)
               = List.filter (fun r => older (now - age) r && negb (is_tombstone r)) rs).
  { clear. induction rs as [|r rs IH]; cbn; [done|]. destruct (older _ r); cbn; [|done].
    destruct (is_tombstone r); cbn; by rewrite IH. }
  rewrite Hf in *. split; [done|]. intros i scope Hi Hok.
  apply list_elem_of_fmap in Hi as (r & -> & Hr). rewrite <- Hf in Hr.
  apply elem_of_lfilter in Hr as [Hr Ht]. apply negb_true_iff in Ht.
  destruct (H r Hr Ht) as (row & Hrow & Hmark).
  destruct (reachable_sound _ _ Hreach') as (rs' & Hs'). rewrite (get_sound rows' rs') by done. f_equal.
  destruct (List.find _ rs') as [x|] eqn:E; [|done]. apply find_in in E as [_ E]. unfold shown in E.
  apply andb_true_iff in E as [[Eid _]%andb_true_iff E]. apply String.eqb_eq in Eid.
  rewrite (marked rows' row (to_row x)) in E; [done|done|].
  change (rr_id (to_row x)) with (rr_id x). congruence.
Qed.
End claims.

(** * A small store

    The digest of the examples is the text itself: no two texts collide. *)
Module ReceiptSample.
Definition digest (s : string) : string := s.

Definition put_sample (key : string) (payload : json) : put_args :=
  {| pa_type := "decision"; pa_scope := "team"; pa_payload := payload; pa_sensitivity := "internal";
     pa_provenance := None; pa_id := Some ("r-" +:+ key); pa_parent := None; pa_event_id := None;
     pa_event_type := None; pa_terminal_outcome := None; pa_idempotency_key := Some key;
     pa_allowlist := []; pa_key_ref := None |}.

Definition choice : put_args := put_sample "a" (obj [("model", JStr "m"); ("token", JStr "t")]).
Definition other : put_args := put_sample "b" (obj [("n", JInt 2)]).

Definition rows_of (m : result receipt_exn (list Row * ReceiptRecord)) : list Row :=
  match m with Ok (rows, _) => rows | Err _ => [] end.

Definition rows1 : list Row := rows_of (put_receipt digest [] choice "u1" "1.5").
Definition rows2 : list Row := rows_of (put_receipt digest rows1 other "u2" "2.5").
Definition rows3 : list Row :=
  rows_of (append_event digest rows2 "r-a" "team" (obj []) "e1" "finished" (Some "done") [] "u3" "3.5").
Definition rows4 : list Row := rows_of (tombstone digest rows3 "r-a" "team" "test" "u4" "4.5").

Lemma rows_of_ok m : is_ok m = true -> exists r, m = Ok (rows_of m, r).
Proof. destruct m as [[rows r]|]; [by exists r|done]. Qed.

Lemma steps :
  store_step digest [] rows1 /\ store_step digest rows1 rows2 /\
  store_step digest rows2 rows3 /\ store_step digest rows3 rows4.
Proof.
  repeat split.
  - destruct (rows_of_ok (put_receipt digest [] choice "u1" "1.5")) as (r & H); [by vm_compute|].
    apply (step_put _ _ _ choice "u1" "1.5" r); [split; by vm_compute|exact H].
  - destruct (rows_of_ok (put_receipt digest rows1 other "u2" "2.5")) as (r & H); [by vm_compute|].
    apply (step_put _ _ _ other "u2" "2.5" r); [split; by vm_compute|exact H].
  - destruct (rows_of_ok (append_event digest rows2 "r-a" "team" (obj []) "e1" "finished" (Some "done")
      [] "u3" "3.5")) as (r & H); [by vm_compute|]. eapply step_event; [|exact H]. by vm_compute.
  - destruct (rows_of_ok (tombstone digest rows3 "r-a" "team" "test" "u4" "4.5")) as (r & H); [by vm_compute|].
    eapply step_tombstone; exact H.
Qed.

Lemma reached :
  rtc (store_step digest) [] rows2 /\ rtc (store_step digest) [] rows3 /\
  rtc (store_step digest) [] rows4 /\ rtc (store_step digest) rows1 rows4 /\ rtc (store_step digest) rows3 rows4.
Proof.
  destruct steps as (H1 & H2 & H3 & H4).
  assert (R3 : rtc (store_step digest) rows3 rows4) by exact (rtc_once _ _ H4).
  assert (R2 : rtc (store_step digest) rows2 rows4) by exact (rtc_l _ _ _ _ H3 R3).
  assert (R1 : rtc (store_step digest) rows1 rows4) by exact (rtc_l _ _ _ _ H2 R2).
  repeat split; [|..|exact R1|exact R3].
  - exact (rtc_l _ _ _ _ H1 (rtc_once _ _ H2)).
  - exact (rtc_l _ _ _ _ H1 (rtc_l _ _ _ _ H2 (rtc_once _ _ H3))).
  - exact (rtc_l _ _ _ _ H1 R1).
Qed.
End ReceiptSample.

(** * The claims at the sample *)

Lemma reachable_store_verifies_witness :
  (verify_integrity ReceiptSample.digest ReceiptSample.rows4 (Some "team")
   = Ok {| in_valid := true; in_checked := 4; in_errors := []; in_scope := Some "team" |}) /\
  is_ok (get_receipt ReceiptSample.digest ReceiptSample.rows4 "r-b" (Some "team") false) = true.
Proof.
  apply (reachable_store_verifies ReceiptSample.digest ReceiptSample.rows4 (Some "team") "r-b" false);
    [apply ReceiptSample.reached|by vm_compute].
Defined.

Lemma put_receipt_once_witness :
  exists r, put_receipt ReceiptSample.digest ReceiptSample.rows4 ReceiptSample.choice "again" "9.5"
            = Ok (ReceiptSample.rows4, r).
Proof.
  destruct (put_receipt ReceiptSample.digest [] ReceiptSample.choice "u1" "1.5") as [[rows r]|e] eqn:E;
    [|vm_compute in E; discriminate].
  exists r.
  apply (put_receipt_once ReceiptSample.digest [] ReceiptSample.choice "a" "u1" "1.5" ReceiptSample.rows1 r
           ReceiptSample.rows4 "again" "9.5"
           (redact_value [] "" (pa_payload ReceiptSample.choice))).
  - apply rtc_refl.
  - split; by vm_compute.
  - done.
  - done.
  - by vm_compute.
  - unfold ReceiptSample.rows1. by rewrite E.
  - apply ReceiptSample.reached.
Defined.

Lemma terminal_events_are_final_witness :
  exists r, append_event ReceiptSample.digest ReceiptSample.rows4 "r-a" "team" (obj []) "e9" "finished"
              (Some "done") [] "u9" "9.5" = Ok (ReceiptSample.rows4, r) /\
            rr_terminal_outcome r = Some "done".
Proof.
  assert (Hid : match append_event ReceiptSample.digest ReceiptSample.rows4 "r-a" "team" (obj []) "e9" "finished"
                  (Some "done") [] "u9" "9.5" with
                | Ok (_, r) => rr_event_id r = Some "e1"
                | Err _ => False
                end) by (vm_compute; reflexivity).
  destruct (append_event ReceiptSample.digest ReceiptSample.rows4 "r-a" "team" (obj []) "e9" "finished"
    (Some "done") [] "u9" "9.5") as [[rows r]|e] eqn:E; [|destruct Hid].
  assert (Ht : terminal_events ReceiptSample.rows3 "r-a" "team" <> []) by (vm_compute; discriminate).
  destruct ReceiptSample.reached as (_ & _ & _ & _ & Hlater).
  destruct (terminal_events_are_final ReceiptSample.digest ReceiptSample.rows3 ReceiptSample.rows4 "r-a" "team"
    (obj []) "e9" "finished" (Some "done") [] "u9" "9.5" rows r Ht eq_refl Hlater E) as (-> & _ & H).
  exists r. split; [reflexivity|]. destruct H as [H|(o & Ho & H)]; [congruence|]. congruence.
Defined.

Lemma deleted_stays_hidden_witness :
  get_receipt ReceiptSample.digest ReceiptSample.rows4 "r-a" (Some "team") false = Ok None /\
  exists r, get_receipt ReceiptSample.digest ReceiptSample.rows4 "r-a" (Some "team") true = Ok (Some r).
Proof.
  destruct (tombstone ReceiptSample.digest ReceiptSample.rows3 "r-a" "team" "test" "u4" "4.5")
    as [[rows t]|e] eqn:E; [|vm_compute in E; discriminate].
  destruct (deleted_stays_hidden ReceiptSample.digest ReceiptSample.rows3 "r-a" "team" "test" "u4" "4.5"
    ReceiptSample.rows4 t ReceiptSample.rows4) as (H1 & _ & r & _ & H2).
  - apply ReceiptSample.reached.
  - unfold ReceiptSample.rows4. rewrite E. reflexivity.
  - apply rtc_refl.
  - split; [apply H1; reflexivity|exists r; exact H2].
Defined.

Lemma chain_binds_witness :
  exists walked, iter_chain_records ReceiptSample.rows4 (Some "team") true = Ok walked /\
    (map hash_view walked = map hash_view walked \/ collision ReceiptSample.digest).
Proof.
  destruct (iter_chain_records ReceiptSample.rows4 (Some "team") true) as [walked|e] eqn:E;
    [|vm_compute in E; discriminate].
  assert (V : verify_integrity ReceiptSample.digest ReceiptSample.rows4 (Some "team")
    = Ok {| in_valid := true; in_checked := 4; in_errors := []; in_scope := Some "team" |})
    by (vm_compute; reflexivity).
  assert (T : typed ReceiptSample.rows4).
  { apply List.Forall_forall, List.forallb_forall. vm_compute. reflexivity. }
  exists walked. split; [reflexivity|].
  exact (chain_binds ReceiptSample.digest ReceiptSample.rows4 ReceiptSample.rows4 "team" _ _ walked walked
           T T V eq_refl V eq_refl E E eq_refl).
Defined.

Lemma low_sequences_are_unchecked_witness :
  exists row r, rr_record_hash row = "forged" /\ rr_sequence row = 0 /\
    get_receipt ReceiptSample.digest (ReceiptSample.rows3 ++ [row]) "fake" (Some "team") false = Ok (Some r).
Proof.
  set (row := Receipt "fake" "0.0" "decision" "team" "{}" "none" "internal" "{}" None 0 None "forged"
                None None None None None None : Row).
  exists row, (with_bodies row (JObj []) (JObj [])). split; [reflexivity|]. split; [reflexivity|].
  assert (F : Forall (fun x => rr_id x <> rr_id row /\ rr_tombstone_for x <> Some (rr_id row)) ReceiptSample.rows3)
    by (vm_compute; repeat constructor; discriminate).
  destruct ReceiptSample.reached as (_ & R & _).
  apply (low_sequences_are_unchecked ReceiptSample.digest ReceiptSample.rows3 row
    (with_bodies row (JObj []) (JObj [])) "team" R eq_refl eq_refl).
  - discriminate.
  - reflexivity.
  - apply Forall_forall. exact F.
  - discriminate.
Defined.

Lemma export_import_round_trip_witness :
  exists m, export_manifest ReceiptSample.digest false ReceiptSample.rows4 (Some "team") true = Ok m /\
    mf_receipt_count m = 4%nat /\
    import_bundle ReceiptSample.digest [] m "team"
    = Ok (List.filter (in_scope_of "team") ReceiptSample.rows4, 4%nat).
Proof.
  assert (N : count_in ReceiptSample.rows4 (Some "team") = 4%nat) by (vm_compute; reflexivity).
  assert (H : Forall (fun row => match row_to_record row with
                                 | Ok r => provenance_stable r
                                 | Err _ => True
                                 end) ReceiptSample.rows4).
  { let rows := eval vm_compute in ReceiptSample.rows4 in
      assert (E : ReceiptSample.rows4 = rows) by (vm_compute; reflexivity).
    rewrite E. repeat (apply Forall_cons; split; [vm_compute; reflexivity|]). apply Forall_nil_2. }
  rewrite <- N. destruct ReceiptSample.reached as (_ & _ & R & _).
  apply (export_import_round_trip ReceiptSample.digest false ReceiptSample.rows4 "team" R eq_refl).
  - rewrite N. lia.
  - intros row r Hin Hr. eapply Forall_forall in H; [|exact Hin]. rewrite Hr in H. exact H.
Defined.

Lemma retention_exact_witness :
  exists rows, apply_retention ReceiptSample.digest false ReceiptSample.rows3 "team" 1 3
                 (fun n => "w" +:+ str_of_Z (Z.of_nat n)) "5.5" = (rows, Ok ["r-a"]) /\
    get_receipt ReceiptSample.digest rows "r-a" (Some "team") false = Ok None.
Proof.
  destruct (apply_retention ReceiptSample.digest false ReceiptSample.rows3 "team" 1 3
    (fun n => "w" +:+ str_of_Z (Z.of_nat n)) "5.5") as [rows [removed|e]] eqn:E;
    [|vm_compute in E; discriminate].
  assert (removed = ["r-a"]) as ->.
  { assert (Hr : (apply_retention ReceiptSample.digest false ReceiptSample.rows3 "team" 1 3
      (fun n => "w" +:+ str_of_Z (Z.of_nat n)) "5.5").2 = Ok ["r-a"]) by (vm_compute; reflexivity).
    rewrite E in Hr. by injection Hr. }
  exists rows. split; [reflexivity|]. destruct ReceiptSample.reached as (_ & R & _).
  destruct (retention_exact ReceiptSample.digest false ReceiptSample.rows3 "team" 1 3
    (fun n => "w" +:+ str_of_Z (Z.of_nat n)) "5.5" rows ["r-a"] R eq_refl E) as (rs & _ & _ & H).
  apply H; [apply list_elem_of_here|reflexivity].
Defined.

(** [put_receipt] takes a parent and a terminal outcome too, without the checks of [append_event]: a
    lifecycle that has ended gets a second, contradicting end. *)
Theorem put_bypasses_terminal_checks :
  let second := {| pa_type := "execution"; pa_scope := "team"; pa_payload := obj [];
                   pa_sensitivity := "internal"; pa_provenance := None; pa_id := None;
                   pa_parent := Some "r-a"; pa_event_id := Some "e2"; pa_event_type := Some "finished";
                   pa_terminal_outcome := Some "failed"; pa_idempotency_key := None;
                   pa_allowlist := []; pa_key_ref := None |} in
  exists rows r, put_receipt ReceiptSample.digest ReceiptSample.rows3 second "u9" "9.5" = Ok (rows, r) /\
    map rr_terminal_outcome (terminal_events rows "r-a" "team") = [Some "done"; Some "failed"].
Proof.
  cbv zeta.
  match goal with |- context [put_receipt ?d ?rows ?a ?u ?n] =>
    let v := eval vm_compute in (put_receipt d rows a u n) in
    lazymatch v with Ok (?rows', ?r) => exists rows', r; split; vm_compute; reflexivity end
  end.
Qed.
