(* ===== verification/ClaimsModels.v ===== *)
(** Claims: [verdict/claims_models.py], with the references of [verdict/proof_receipts.py] that they
    hold.

    Instants are microseconds since 0001-01-01 UTC; the stored text of an instant is its ISO form
    with a final "Z". A number is the JSON number the caller gave. Values come as JSON, whose types
    the constructors check; a status that Python cannot hash counts as an invalid one here. *)
From Stdlib Require Import Ascii.
From S2P Require Import Prelude PyStr PyNum Regex Time Json JsonDict Passports Ladder ReceiptStore.

Definition CLAIMS_LEDGER_SCHEMA_VERSION : string := "1".

(** [ClaimsLedgerError], its subclass, and what escapes the contract; [StoreError] carries what the
    receipt store raised. *)
Inductive claims_exn (E : Type) :=
| ClaimsLedgerError (msg : string)
| ClaimTransitionError (msg : string)
| ProofReceiptError (msg : string)
| ClaimsOverflowError
| ClaimsKeyError (key : string)
| ClaimsAttributeError
| StoreError (e : E).
Arguments ClaimsLedgerError {E}. Arguments ClaimTransitionError {E}. Arguments ProofReceiptError {E}.
Arguments ClaimsOverflowError {E}. Arguments ClaimsKeyError {E}. Arguments ClaimsAttributeError {E}. Arguments StoreError {E}.

Inductive ClaimStatus := Observed | Active | Verified | Superseded | Disputed.
#[global] Instance claim_status_eq_dec : EqDecision ClaimStatus.
Proof. solve_decision. Defined.

Definition claim_status_value (s : ClaimStatus) : string :=
  match s with
  | Observed => "observed" | Active => "active" | Verified => "verified"
  | Superseded => "superseded" | Disputed => "disputed"
  end.

(** [_STATUSES] *)
Definition STATUSES : list ClaimStatus := [Observed; Active; Verified; Superseded; Disputed].

Definition claim_status_of (s : string) : option ClaimStatus :=
  List.find (fun st => String.eqb (claim_status_value st) s) STATUSES.

(** [_TRANSITIONS] *)
Definition TRANSITIONS (s : ClaimStatus) : list ClaimStatus :=
  match s with
  | Observed => [Active; Verified; Superseded; Disputed]
  | Active => [Verified; Superseded; Disputed]
  | Verified => [Active; Superseded; Disputed]
  | Disputed => [Active; Verified]
  | Superseded => []
  end.

Inductive FreshnessStatus := FreshClaim | Expired | FutureSkew | PolicyMissing.
#[global] Instance freshness_status_eq_dec : EqDecision FreshnessStatus.
Proof. solve_decision. Defined.

(** [SourceReference], [EvidenceReference]: their status is always "verified". *)
Record SourceReference := { sr_source_id : string; sr_digest : string }.
Record EvidenceReference := { er_evidence_id : string; er_digest : string }.

Record Claim := {
  cl_claim_id : string;
  cl_subject : string;
  cl_text_hash : string;
  cl_status : ClaimStatus;
  cl_observed_at : Z;
  cl_verified_at : option Z;
  cl_confidence : json;
  cl_source_refs : list SourceReference;
  cl_evidence_refs : list EvidenceReference;
  cl_supersedes : option string;
  cl_source_type : string;
  cl_text : option string
}.

(** What a timestamp parameter holds *)
Inductive time_arg := TDatetime (d : datetime) | TValue (v : json).

Record ClaimArgs := {
  ca_claim_id : json;
  ca_subject : json;
  ca_text_hash : json;
  ca_status : json;
  ca_observed_at : time_arg;
  ca_verified_at : option time_arg;
  ca_confidence : json;
  ca_source_refs : list SourceReference;
  ca_evidence_refs : list EvidenceReference;
  ca_supersedes : option json;
  ca_source_type : json;
  ca_text : option json
}.

Record FreshnessPolicy := {
  fp_source_type : string;
  fp_ttl : option json;
  fp_skew : json
}.

Record FreshnessResult := {
  fr_source_type : string;
  fr_status : FreshnessStatus;
  fr_observed_at : Z;
  fr_expires_at : option Z;
  fr_clock_skew : json
}.

(** [FreshnessResult.fresh] *)
Definition fresh (r : FreshnessResult) : bool := bool_decide (fr_status r = FreshClaim).

Record ClaimTransition := {
  ct_transition_id : string;
  ct_claim_id : string;
  ct_from : ClaimStatus;
  ct_to : ClaimStatus;
  ct_occurred_at : Z;
  ct_reason : string;
  ct_superseded_by : option string
}.

(** * Field checks *)

Definition ID_RE : re := rx "[A-Za-z0-9][A-Za-z0-9._:/-]{0,127}".
Definition SENSITIVE_RE : re :=
  rx "(api[_-]?key|authorization|bearer|password|secret|token|private[_-]?key|raw[_-]?prompt|raw[_-]?completion|messages|tool[_-]?arguments|email|phone|address)".

(** [_ID.fullmatch]; the class takes no newline, so the anchors add nothing. *)
Definition is_identifier (s : string) : bool :=
  match rmatch false ID_RE None s [] (fun _ rest _ => if String.eqb rest "" then Some tt else None) with
  | Some _ => true
  | None => false
  end.

Section checks.
Context {E : Type}.
#[local] Abbreviation exn := (claims_exn E).

(** [_identifier] *)
Definition identifier (v : json) (name : string) : result exn string :=
  match v with
  | JStr s =>
      if negb (is_identifier s) then Err (ClaimsLedgerError (name +:+ " must be a bounded identifier"))
      else if matches true SENSITIVE_RE s
      then Err (ClaimsLedgerError (name +:+ " contains sensitive content"))
      else Ok s
  | _ => Err (ClaimsLedgerError (name +:+ " must be a bounded identifier"))
  end.

(** [_id] of a reference *)
Definition reference_id (v : json) (name : string) : result exn string :=
  match v with
  | JStr s =>
      if negb (is_identifier s) then Err (ProofReceiptError (name +:+ " must be a bounded identifier"))
      else if matches true SENSITIVE_RE s
      then Err (ProofReceiptError (name +:+ " contains sensitive content"))
      else Ok s
  | _ => Err (ProofReceiptError (name +:+ " must be a bounded identifier"))
  end.

(** [_digest] *)
Definition digest (v : json) (name : string) : result exn string :=
  match v with
  | JStr s => if is_sha256 s then Ok s
              else Err (ClaimsLedgerError (name +:+ " must be a sha256 digest"))
  | _ => Err (ClaimsLedgerError (name +:+ " must be a sha256 digest"))
  end.

(** [astimezone(timezone.utc)] of an aware value *)
Definition aware_instant (d : datetime) (name : string) : result exn Z :=
  match dt_off d with
  | None => Err (ClaimsLedgerError (name +:+ " must include a timezone"))
  | Some _ => if in_years (instant d) then Ok (instant d) else Err ClaimsOverflowError
  end.

(** [_timestamp], as the instant of its text *)
Definition timestamp (v : time_arg) (name : string) : result exn Z :=
  match v with
  | TDatetime d => aware_instant d name
  | TValue (JStr s) =>
      match fromisoformat (replace_with "Z" "+00:00" s) with
      | Some d => aware_instant d name
      | None => Err (ClaimsLedgerError (name +:+ " must be an ISO-8601 timestamp"))
      end
  | TValue _ => Err (ClaimsLedgerError (name +:+ " must be an ISO-8601 timestamp"))
  end.

(** [float(n)] of an integer raises from here on: the first that does not round to a float. *)
Definition FLOAT_LIMIT : Z := 2 ^ 1024 - 2 ^ 970.

(** A finite number that is not a [bool]; the order is that of the conditions. *)
Definition finite_number (v : json) (msg : string) : result exn Q :=
  match v with
  | JInt z => if FLOAT_LIMIT <=? Z.abs z then Err ClaimsOverflowError else Ok (inject_Z z)
  | JFloat r => match parse_decimal r with
                | Some (Some q) => Ok q
                | _ => Err (ClaimsLedgerError msg)
                end
  | _ => Err (ClaimsLedgerError msg)
  end.

(** The check of [confidence] *)
Definition check_confidence (v : json) : result exn json :=
  _ ← match v with
      | JInt _ | JFloat _ => Ok tt
      | _ => Err (ClaimsLedgerError "confidence must be a number")
      end;
  q ← finite_number v "confidence must be between 0 and 1";
  if Qle_bool 0 q && Qle_bool q 1 then Ok v
  else Err (ClaimsLedgerError "confidence must be between 0 and 1").

(** [FreshnessPolicy.__post_init__] *)
Definition freshness_policy (source_type : json) (ttl : option json) (skew : json)
    : result exn FreshnessPolicy :=
  let bounded v msg := q ← finite_number v msg;
                       if Qltb q 0 then Err (ClaimsLedgerError msg) else Ok tt in
  source ← identifier source_type "source_type";
  _ ← match ttl with
      | Some v => bounded v "ttl_seconds must be non-negative or None"
      | None => Ok tt
      end;
  _ ← bounded skew "clock_skew_seconds must be non-negative";
  Ok {| fp_source_type := source; fp_ttl := ttl; fp_skew := skew |}.

(** [t + timedelta(seconds=float(v))]; a number beyond what a [timedelta] holds overflows as well. *)
Definition shift_seconds (t : Z) (sign : Z) (v : json) : result exn Z :=
  match number_value v with
  | Some q => let u := t + sign * seconds_us q in
              if in_years u then Ok u else Err ClaimsOverflowError
  | None => Err ClaimsOverflowError
  end.

(** [FreshnessPolicy.expiry] *)
Definition expiry (p : FreshnessPolicy) (observed : Z) : result exn (option Z) :=
  match fp_ttl p with
  | None => Ok None
  | Some ttl => t ← shift_seconds observed 1 ttl; Ok (Some t)
  end.

(** [FreshnessPolicy.evaluate] *)
Definition evaluate (p : FreshnessPolicy) (observed now : Z) : result exn FreshnessStatus :=
  early ← shift_seconds observed (-1) (fp_skew p);
  if now <? early then Ok FutureSkew
  else
    expires ← expiry p observed;
    match expires with
    | None => Ok PolicyMissing
    | Some t => Ok (if t <=? now then Expired else FreshClaim)
    end.

(** [SourceReference(...)] and [EvidenceReference(...)] of keyword arguments *)
Definition source_reference (ms : list (string * json)) : result exn SourceReference :=
  let bad := Err (ClaimsLedgerError "malformed claim") in
  if negb (forallb (fun m => mem m.1 ["source_id"; "digest"; "status"]) ms) then bad
  else
    match dict_get "source_id" ms, dict_get "digest" ms with
    | Some i, Some d =>
        i ← reference_id i "source_id";
        d ← match d with
            | JStr s => if is_sha256 s then Ok s
                        else Err (ProofReceiptError "source.digest must be a sha256 digest")
            | _ => Err (ProofReceiptError "source.digest must be a sha256 digest")
            end;
        match dict_get "status" ms with
        | None | Some (JStr "verified") => Ok {| sr_source_id := i; sr_digest := d |}
        | _ => Err (ProofReceiptError "source references must be verified")
        end
    | _, _ => bad
    end.

Definition evidence_reference (ms : list (string * json)) : result exn EvidenceReference :=
  let bad := Err (ClaimsLedgerError "malformed claim") in
  if negb (forallb (fun m => mem m.1 ["evidence_id"; "digest"; "status"]) ms) then bad
  else
    match dict_get "evidence_id" ms, dict_get "digest" ms with
    | Some i, Some d =>
        i ← reference_id i "evidence_id";
        d ← match d with
            | JStr s => if is_sha256 s then Ok s
                        else Err (ProofReceiptError "evidence.digest must be a sha256 digest")
            | _ => Err (ProofReceiptError "evidence.digest must be a sha256 digest")
            end;
        match dict_get "status" ms with
        | None | Some (JStr "verified") => Ok {| er_evidence_id := i; er_digest := d |}
        | _ => Err (ProofReceiptError "evidence must be verified")
        end
    | _, _ => bad
    end.

(** * Claims *)

Section hashing.
(** [hashlib.sha256(text.encode()).hexdigest()] *)
Context (sha256_hex : string -> string).

(** [claim_hash] *)
Definition claim_hash (text : string) : result exn string :=
  if String.eqb (strip text) "" then Err (ProofReceiptError "claim must be non-empty")
  else Ok ("sha256:" +:+ take_str 64 (sha256_hex text)).

Definition optional {A B} (f : A -> result exn B) (o : option A) : result exn (option B) :=
  match o with Some x => y ← f x; Ok (Some y) | None => Ok None end.

(** [Claim.__post_init__] *)
Definition make_claim (a : ClaimArgs) : result exn Claim :=
  claim_id ← identifier (ca_claim_id a) "claim_id";
  subject ← identifier (ca_subject a) "subject";
  text_hash ← digest (ca_text_hash a) "text_hash";
  status ← match ca_status a with
           | JStr s => match claim_status_of s with
                       | Some st => Ok st
                       | None => Err (ClaimsLedgerError "claim status is invalid")
                       end
           | _ => Err (ClaimsLedgerError "claim status is invalid")
           end;
  observed ← timestamp (ca_observed_at a) "observed_at";
  verified ← optional (fun v =>
    t ← timestamp v "verified_at";
    if t <? observed then Err (ClaimsLedgerError "verified_at must not precede observed_at") else Ok t)
    (ca_verified_at a);
  confidence ← check_confidence (ca_confidence a);
  source_type ← identifier (ca_source_type a) "source_type";
  supersedes ← optional (fun v => identifier v "supersedes") (ca_supersedes a);
  _ ← raise_if (match ca_source_refs a, ca_evidence_refs a with [], [] => true | _, _ => false end)
        (ClaimsLedgerError "claim must reference a source or evidence");
  text ← optional (fun v =>
    match v with
    | JStr t =>
        if String.eqb (strip t) "" then Err (ClaimsLedgerError "text must be a non-empty string")
        else h ← claim_hash t;
             if String.eqb h text_hash then Ok t
             else Err (ClaimsLedgerError "text_hash does not match text")
    | _ => Err (ClaimsLedgerError "text must be a non-empty string")
    end) (ca_text a);
  Ok {| cl_claim_id := claim_id; cl_subject := subject; cl_text_hash := text_hash; cl_status := status;
        cl_observed_at := observed; cl_verified_at := verified; cl_confidence := confidence;
        cl_source_refs := ca_source_refs a; cl_evidence_refs := ca_evidence_refs a;
        cl_supersedes := supersedes; cl_source_type := source_type; cl_text := text |}.

(** [Claim.create]: the id is that of the arguments, or one derived from the subject and the text. *)
Definition create_claim (a : ClaimArgs) (text : string) (claim_id : option string)
    : result exn Claim :=
  _ ← raise_if (String.eqb (strip text) "") (ClaimsLedgerError "text must be a non-empty string");
  h ← claim_hash text;
  let stable := match claim_id with
                | Some (String _ _ as i) => i
                | _ => "claim-" +:+ take_str 32 (sha256_hex (dumps true (JList [ca_subject a; JStr h])))
                end in
  make_claim {| ca_claim_id := JStr stable; ca_subject := ca_subject a; ca_text_hash := JStr h;
                ca_status := ca_status a; ca_observed_at := ca_observed_at a;
                ca_verified_at := ca_verified_at a; ca_confidence := ca_confidence a;
                ca_source_refs := ca_source_refs a; ca_evidence_refs := ca_evidence_refs a;
                ca_supersedes := ca_supersedes a; ca_source_type := ca_source_type a;
                ca_text := Some (JStr text) |}.
End hashing.

Definition source_to_dict (r : SourceReference) : json :=
  obj [("source_id", JStr (sr_source_id r)); ("digest", JStr (sr_digest r)); ("status", JStr "verified")].

Definition evidence_to_dict (r : EvidenceReference) : json :=
  obj [("evidence_id", JStr (er_evidence_id r)); ("digest", JStr (er_digest r));
       ("status", JStr "verified")].

(** [Claim.to_dict]; the text is not in it. *)
Definition claim_to_dict (c : Claim) : json :=
  obj ([("schema_version", JStr CLAIMS_LEDGER_SCHEMA_VERSION); ("claim_id", JStr (cl_claim_id c));
        ("subject", JStr (cl_subject c)); ("text_hash", JStr (cl_text_hash c));
        ("status", JStr (claim_status_value (cl_status c)));
        ("observed_at", JStr (format_datetime (cl_observed_at c)));
        ("verified_at", jopt (fun t => JStr (format_datetime t)) (cl_verified_at c));
        ("confidence", cl_confidence c); ("source_type", JStr (cl_source_type c));
        ("source_refs", JList (map source_to_dict (cl_source_refs c)));
        ("evidence_refs", JList (map evidence_to_dict (cl_evidence_refs c)))]
       ++ given "supersedes" JStr (cl_supersedes c)).

Definition CLAIM_FIELDS : list string :=
  ["schema_version"; "claim_id"; "subject"; "text_hash"; "status"; "observed_at"; "verified_at";
   "confidence"; "source_type"; "source_refs"; "evidence_refs"].

Definition not_null (v : json) : option json := match v with JNull => None | _ => Some v end.

(** [f( **item)] for every item; what is no object raises [TypeError]. *)
Definition references {A} (f : list (string * json) -> result exn A) (vs : list json)
    : result exn (list A) :=
  map_result (fun v => match v with JObj ms => f ms | _ => Err (ClaimsLedgerError "malformed claim") end) vs.

(** [except (KeyError, TypeError, ProofReceiptError)] around the construction *)
Definition malformed {A} (m : result exn A) : result exn A :=
  match m with
  | Err (ProofReceiptError msg) => Err (ClaimsLedgerError ("malformed claim: " +:+ msg))
  | _ => m
  end.

(** [Claim.from_dict] *)
Definition claim_from_dict (sha256_hex : string -> string) (v : json) : result exn Claim :=
  match v with
  | JObj ms =>
      let keys := map fst ms in
      _ ← raise_if (negb (forallb (fun k => mem k (CLAIM_FIELDS ++ ["supersedes"])) keys))
            (ClaimsLedgerError "claim contains unknown fields");
      _ ← raise_if (negb (forallb (fun k => mem k keys) CLAIM_FIELDS))
            (ClaimsLedgerError "claim is missing required fields");
      let at_key k := default JNull (dict_get k ms) in
      _ ← raise_if (negb (py_eq (at_key "schema_version") (JStr CLAIMS_LEDGER_SCHEMA_VERSION)))
            (ClaimsLedgerError "unsupported claims ledger schema version");
      match at_key "source_refs", at_key "evidence_refs" with
      | JList sources, JList evidence =>
          malformed (
            sources ← references source_reference sources;
            evidence ← references evidence_reference evidence;
            make_claim sha256_hex
              {| ca_claim_id := at_key "claim_id"; ca_subject := at_key "subject";
                 ca_text_hash := at_key "text_hash"; ca_status := at_key "status";
                 ca_observed_at := TValue (at_key "observed_at");
                 ca_verified_at := TValue <$> not_null (at_key "verified_at");
                 ca_confidence := at_key "confidence"; ca_source_refs := sources;
                 ca_evidence_refs := evidence; ca_supersedes := not_null (at_key "supersedes");
                 ca_source_type := at_key "source_type"; ca_text := None |})
      | _, _ => Err (ClaimsLedgerError "claim references must be arrays")
      end
  | _ => Err (ClaimsLedgerError "claim must be an object")
  end.

(** [ClaimTransition.__post_init__] *)
Definition make_transition (transition_id claim_id : json) (from to : option ClaimStatus)
    (occurred_at : time_arg) (reason : json) (superseded_by : option json)
    : result exn ClaimTransition :=
  i ← identifier transition_id "transition_id";
  c ← identifier claim_id "claim_id";
  match from, to with
  | Some from, Some to =>
      t ← timestamp occurred_at "occurred_at";
      r ← match reason with
          | JStr r => if String.eqb (strip r) ""
                      then Err (ClaimsLedgerError "transition reason must be non-empty") else Ok r
          | _ => Err (ClaimsLedgerError "transition reason must be non-empty")
          end;
      s ← optional (fun v => identifier v "superseded_by") superseded_by;
      Ok {| ct_transition_id := i; ct_claim_id := c; ct_from := from; ct_to := to; ct_occurred_at := t;
            ct_reason := r; ct_superseded_by := s |}
  | _, _ => Err (ClaimsLedgerError "transition status is invalid")
  end.

(** [ClaimTransition.to_dict], with the text given for the reason *)
Definition transition_to_dict (t : ClaimTransition) (reason : string) : json :=
  obj ([("schema_version", JStr CLAIMS_LEDGER_SCHEMA_VERSION);
        ("transition_id", JStr (ct_transition_id t)); ("claim_id", JStr (ct_claim_id t));
        ("from_status", JStr (claim_status_value (ct_from t)));
        ("to_status", JStr (claim_status_value (ct_to t)));
        ("occurred_at", JStr (format_datetime (ct_occurred_at t))); ("reason", JStr reason)]
       ++ given "superseded_by" JStr (ct_superseded_by t)).
End checks.

(** [Claim.with_status]: the checks of the constructor hold of the claim already. *)
Definition with_status (c : Claim) (s : ClaimStatus) : Claim :=
  {| cl_claim_id := cl_claim_id c; cl_subject := cl_subject c; cl_text_hash := cl_text_hash c;
     cl_status := s; cl_observed_at := cl_observed_at c; cl_verified_at := cl_verified_at c;
     cl_confidence := cl_confidence c; cl_source_refs := cl_source_refs c;
     cl_evidence_refs := cl_evidence_refs c; cl_supersedes := cl_supersedes c;
     cl_source_type := cl_source_type c; cl_text := cl_text c |}.
