(* ===== verification/ClaimsLedger.v ===== *)
(** The claims ledger: [ClaimsLedger] of [verdict/claims_ledger.py].

    The state is the receipt store, when there is one, and the ledger's own three
    collections. An operation takes the state to a state and a result: what a failed one leaves behind
    is part of it. The store is any implementation of [ReceiptSink]; a call to it that raises leaves
    it as it was. [now] is the instant the clock returns; a [now] argument is an aware datetime. The sort keys compare
    instants and confidences exactly, where the code compares their floats. *)
From Stdlib Require Import Ascii.
From S2P Require Import Prelude PyStr PyNum Time Json JsonDict Passports Ladder ReceiptStore ClaimsModels.

(** * The store the ledger writes to *)

(** What the ledger calls of a receipt store: [put_receipt] of a context receipt, [append_event], and
    [query_receipts] of one type without the tombstoned ones, in order of sequence. *)
Class ReceiptSink (S E : Type) : Type := {
  sink_put : S -> string -> json -> string -> result E (S * string);
  sink_append : S -> string -> string -> json -> string -> string -> result E S;
  sink_query : S -> string -> string -> result E (list ReceiptRecord)
}.
#[export] Hint Mode ReceiptSink ! - : typeclass_instances.

Definition LEDGER_PROVENANCE : list (string * json) :=
  [("source", JStr "verdict.claims_ledger"); ("version", JStr CLAIMS_LEDGER_SCHEMA_VERSION)].

(** * State *)

Record Ledger := {
  lg_claims : list (string * Claim);
  lg_transitions : list ClaimTransition;
  lg_receipt_ids : list (string * string)
}.

Definition empty_ledger : Ledger := {| lg_claims := []; lg_transitions := []; lg_receipt_ids := [] |}.

Definition set_claim (i : string) (c : Claim) (l : Ledger) : Ledger :=
  {| lg_claims := dict_set i c (lg_claims l); lg_transitions := lg_transitions l;
     lg_receipt_ids := lg_receipt_ids l |}.

Definition set_receipt_id (i r : string) (l : Ledger) : Ledger :=
  {| lg_claims := lg_claims l; lg_transitions := lg_transitions l;
     lg_receipt_ids := dict_set i r (lg_receipt_ids l) |}.

Definition push_transition (t : ClaimTransition) (l : Ledger) : Ledger :=
  {| lg_claims := lg_claims l; lg_transitions := lg_transitions l ++ [t];
     lg_receipt_ids := lg_receipt_ids l |}.

(** [ClaimHydrationOmission] *)
Record HydrationOmission := {
  ho_claim_id : option string;
  ho_reason : string;
  ho_status : string;
  ho_required_fact : option string
}.

(** [ClaimHydrationResult], without the context units made of its claims *)
Record HydrationResult := {
  hy_claims : list Claim;
  hy_omissions : list HydrationOmission;
  hy_required : list string;
  hy_satisfied : list string
}.

(** [ClaimHydrationResult.blocked] *)
Definition hydration_blocked (r : HydrationResult) : bool :=
  existsb (fun f => negb (mem f (hy_satisfied r))) (hy_required r).

Section ledger.
Context {S E : Type} {K : ReceiptSink S E}.
Context (sha256_hex : string -> string).
(** The ledger's [policies] and [scope] *)
Context (policies : list (string * FreshnessPolicy)) (scope : string).

#[local] Abbreviation exn := (claims_exn E).

Record State := { st_store : option S; st_ledger : Ledger }.

Definition Op (A : Type) : Type := State -> State * result exn A.

Definition op_ret {A} (x : A) : Op A := fun s => (s, Ok x).
Definition op_throw {A} (e : exn) : Op A := fun s => (s, Err e).
Definition op_bind {A B} (f : A -> Op B) (m : Op A) : Op B :=
  fun s => match m s with
           | (s', Ok x) => f x s'
           | (s', Err e) => (s', Err e)
           end.
#[local] Instance op_mret : MRet Op := @op_ret.
#[local] Instance op_mbind : MBind Op := @op_bind.

Definition lift {A} (m : result exn A) : Op A := fun s => (s, m).
Definition get_ledger : Op Ledger := fun s => (s, Ok (st_ledger s)).
Definition modify (f : Ledger -> Ledger) : Op unit :=
  fun s => ({| st_store := st_store s; st_ledger := f (st_ledger s) |}, Ok tt).

(** The constructor's check that each policy is under its own source type *)
Definition check_policies : result exn unit :=
  _ ← raise_if (match policies with [] => true | _ => false end)
        (ClaimsLedgerError "explicit per-source freshness policies are required");
  raise_if (negb (forallb (fun p => String.eqb p.1 (fp_source_type p.2)) policies))
    (ClaimsLedgerError "freshness policy key must match source_type").

(** [_freshness], which [freshness] applies to the claim of an id *)
Definition claim_freshness (c : Claim) (now : Z) : result exn FreshnessResult :=
  match dict_get (cl_source_type c) policies with
  | None =>
      Ok {| fr_source_type := cl_source_type c; fr_status := PolicyMissing;
            fr_observed_at := cl_observed_at c; fr_expires_at := None; fr_clock_skew := JFloat "0.0" |}
  | Some p =>
      expires ← expiry p (cl_observed_at c);
      status ← evaluate p (cl_observed_at c) now;
      Ok {| fr_source_type := cl_source_type c; fr_status := status;
            fr_observed_at := cl_observed_at c; fr_expires_at := expires; fr_clock_skew := fp_skew p |}
  end.

Definition is_fresh (c : Claim) (now : Z) : result exn bool :=
  r ← claim_freshness c now; Ok (fresh r).

(** ** Persistence *)

Definition claim_payload (c : Claim) : json :=
  obj [("kind", JStr "claim"); ("claim", claim_to_dict c)].

(** [_persist_claim] *)
Definition persist_claim (c : Claim) : Op unit := fun s =>
  match st_store s with
  | None => (s, Ok tt)
  | Some store =>
      match sink_put store scope (claim_payload c) ("claim-" +:+ cl_claim_id c) with
      | Ok (store', rid) =>
          ({| st_store := Some store'; st_ledger := set_receipt_id (cl_claim_id c) rid (st_ledger s) |}, Ok tt)
      | Err e => (s, Err (StoreError e))
      end
  end.

Definition transition_payload (t : ClaimTransition) (reason_hash : string) : json :=
  obj [("kind", JStr "claim_transition"); ("transition", transition_to_dict t reason_hash)].

(** [_persist_transition] *)
Definition persist_transition (t : ClaimTransition) : Op unit := fun s =>
  match st_store s with
  | None => (s, Ok tt)
  | Some store =>
      match dict_get (ct_claim_id t) (lg_receipt_ids (st_ledger s)), claim_hash sha256_hex (ct_reason t) with
      | None, _ => (s, Err (ClaimsKeyError (ct_claim_id t)))
      | Some _, Err e => (s, Err e)
      | Some parent, Ok h =>
          match sink_append store parent scope (transition_payload t h) (ct_transition_id t)
                  "claim_status_transition" with
          | Ok store' => ({| st_store := Some store'; st_ledger := st_ledger s |}, Ok tt)
          | Err e => (s, Err (StoreError e))
          end
      end
  end.

(** ** Claims and transitions *)

(** [get] *)
Definition get_claim (claim_id : string) : Op Claim :=
  _ ← lift (identifier (JStr claim_id) "claim_id");
  l ← get_ledger;
  match dict_get claim_id (lg_claims l) with
  | Some c => op_ret c
  | None => op_throw (ClaimsLedgerError ("unknown claim: " +:+ claim_id))
  end.

(** [freshness] *)
Definition freshness (claim_id : string) (now : Z) : Op FreshnessResult :=
  c ← get_claim claim_id; lift (claim_freshness c now).

(** [transition]; [uuid] is what [uuid4().hex] returns. *)
Definition transition (claim_id to_status reason : string) (occurred_at : option time_arg)
    (superseded_by : option string) (uuid : string) (now : Z) : Op Claim :=
  current ← get_claim claim_id;
  match claim_status_of to_status with
  | None => op_throw (ClaimTransitionError "claim status is invalid")
  | Some to =>
      if negb (bool_decide (to ∈ TRANSITIONS (cl_status current)))
      then op_throw (ClaimTransitionError ("cannot transition " +:+ claim_status_value (cl_status current)
                                           +:+ " to " +:+ to_status))
      else
        t ← lift (make_transition (JStr ("transition-" +:+ uuid)) (JStr claim_id)
                    (Some (cl_status current)) (Some to)
                    (match occurred_at with
                     | None | Some (TValue (JStr EmptyString)) => TDatetime (utc now)
                     | Some v => v
                     end) (JStr reason) (JStr <$> superseded_by));
        _ ← persist_transition t;
        let updated := with_status current to in
        _ ← modify (fun l => push_transition t (set_claim claim_id updated l));
        op_ret updated
  end.

(** The [try] of [add]: an exception restores the ledger's collections, not the store. *)
Definition restoring {A} (body : Op A) : Op A := fun s =>
  match body s with
  | (s', Err e) => ({| st_store := st_store s'; st_ledger := st_ledger s |}, Err e)
  | done => done
  end.

(** [add] *)
Definition add (c : Claim) (uuid : string) (now : Z) : Op Claim :=
  l ← get_ledger;
  match dict_get (cl_claim_id c) (lg_claims l) with
  | Some existing =>
      if py_eq (claim_to_dict existing) (claim_to_dict c) then op_ret existing
      else op_throw (ClaimsLedgerError "claim_id already exists with different content")
  | None =>
      _ ← lift (match cl_supersedes c with
                | None => Ok tt
                | Some old =>
                    match dict_get old (lg_claims l) with
                    | None => Err (ClaimsLedgerError "supersedes references an unavailable claim")
                    | Some p => raise_if (bool_decide (cl_status p = Superseded))
                                  (ClaimsLedgerError "superseded claims cannot be superseded again")
                    end
                end);
      restoring (
        _ ← modify (set_claim (cl_claim_id c) c);
        _ ← persist_claim c;
        match cl_supersedes c with
        | None => op_ret c
        | Some old =>
            _ ← transition old "superseded" "superseded_by_new_claim"
                  (Some (TValue (JStr (format_datetime (cl_observed_at c))))) (Some (cl_claim_id c)) uuid now;
            op_ret c
        end)
  end.

(** ** Reads *)

(** [transitions] *)
Definition transitions_of (l : Ledger) (claim_id : option string) : list ClaimTransition :=
  match claim_id with
  | None => lg_transitions l
  | Some i => List.filter (fun t => String.eqb (ct_claim_id t) i) (lg_transitions l)
  end.

(** [query] *)
Definition query (l : Ledger) (subject : option string) (statuses : option (list ClaimStatus))
    (include_superseded : bool) : list Claim :=
  sort_by (fun a b => if String.eqb (cl_subject a) (cl_subject b)
                      then str_leb (cl_claim_id a) (cl_claim_id b)
                      else str_leb (cl_subject a) (cl_subject b))
    (List.filter (fun c => match subject with Some s => String.eqb (cl_subject c) s | None => true end
                           && bool_decide (cl_status c ∈ default STATUSES statuses)
                           && (include_superseded || bool_decide (cl_status c <> Superseded)))
       (map snd (lg_claims l))).

Definition confidence_value (c : Claim) : Q := default 0%Q (number_value (cl_confidence c)).

(** One component of a sort key: decided, or left to the next *)
Definition key_then {A} (lt eq : A -> A -> bool) (a b : A) (next : bool) : bool :=
  lt a b || (eq a b && next).

(** [a]'s key is at most [b]'s: verified first, then the newest, the most confident, the id. *)
Definition rank_le (with_observed : bool) (a b : Claim) : bool :=
  let verified c := if bool_decide (cl_status c = Verified) then 1 else 0 in
  let stamp c := default (cl_observed_at c) (cl_verified_at c) in
  key_then (fun a b => verified b <? verified a) (fun a b => verified a =? verified b) a b
    (key_then (fun a b => stamp b <? stamp a) (fun a b => stamp a =? stamp b) a b
       (key_then (fun a b => with_observed && (cl_observed_at b <? cl_observed_at a))
          (fun a b => negb with_observed || (cl_observed_at a =? cl_observed_at b)) a b
          (key_then (fun a b => Qltb (confidence_value b) (confidence_value a))
             (fun a b => Qeq_bool (confidence_value a) (confidence_value b)) a b
             (str_leb (cl_claim_id a) (cl_claim_id b))))).

Definition select_le (a b : Claim) : bool :=
  if String.eqb (cl_subject a) (cl_subject b) then rank_le true a b
  else str_leb (cl_subject a) (cl_subject b).

Definition SELECTABLE (include_observed : bool) : list ClaimStatus :=
  if include_observed then [Active; Verified; Observed] else [Active; Verified].

(** A [for] loop that keeps what passes a test that may raise *)
Fixpoint keep_fresh (now : Z) (cs : list Claim) : result exn (list Claim) :=
  match cs with
  | [] => Ok []
  | c :: cs => ok ← is_fresh c now; rest ← keep_fresh now cs; Ok (if ok : bool then c :: rest else rest)
  end.

(** The first claim of every subject *)
Fixpoint first_per_subject (seen : list string) (cs : list Claim) : list Claim :=
  match cs with
  | [] => []
  | c :: cs => if mem (cl_subject c) seen then first_per_subject seen cs
               else c :: first_per_subject (cl_subject c :: seen) cs
  end.

(** [select_active] *)
Definition select_active (l : Ledger) (subject : option string) (now : Z) (include_observed : bool)
    : result exn (list Claim) :=
  candidates ← keep_fresh now
    (List.filter (fun c => match subject with Some s => String.eqb (cl_subject c) s | None => true end
                           && bool_decide (cl_status c ∈ SELECTABLE include_observed))
       (map snd (lg_claims l)));
  let ranked := sort_by select_le candidates in
  Ok (match subject with
      | None => first_per_subject [] ranked
      | Some _ => take 1 ranked
      end).

(** ** Hydration *)

(** [text_map.get(claim.claim_id, claim.text)] *)
Definition supplied_text (texts : list (string * string)) (c : Claim) : option string :=
  match dict_get (cl_claim_id c) texts with Some t => Some t | None => cl_text c end.

(** [supplied_text is None or claim_hash(supplied_text) != claim.text_hash], negated *)
Definition text_matches (texts : list (string * string)) (c : Claim) : result exn bool :=
  match supplied_text texts c with
  | None => Ok false
  | Some t => h ← claim_hash sha256_hex t; Ok (String.eqb h (cl_text_hash c))
  end.

Definition unavailable (c : Claim) (fact : option string) : HydrationOmission :=
  {| ho_claim_id := Some (cl_claim_id c); ho_reason := "text_unavailable_or_hash_mismatch";
     ho_status := "blocked"; ho_required_fact := fact |}.

(** The loop without required facts *)
Fixpoint hydrate_selected (texts : list (string * string)) (cs : list Claim)
    : result exn (list Claim * list HydrationOmission) :=
  match cs with
  | [] => Ok ([], [])
  | c :: cs =>
      ok ← text_matches texts c;
      '(kept, omitted) ← hydrate_selected texts cs;
      Ok (if ok : bool then (c :: kept, omitted) else (kept, unavailable c None :: omitted))
  end.

(** The claims whose text holds the fact *)
Definition mentions (texts : list (string * string)) (fact : string) (c : Claim) : bool :=
  match cl_text c with Some t => contains t fact | None => false end
  || match dict_get (cl_claim_id c) texts with Some t => contains t fact | None => false end.

(** One required fact *)
Definition hydrate_fact (l : Ledger) (texts : list (string * string)) (now : Z) (fact : string)
    (r : HydrationResult) : result exn HydrationResult :=
  let matching := List.filter (mentions texts fact) (map snd (lg_claims l)) in
  let disputed := List.filter (fun c => bool_decide (cl_status c = Disputed)) matching in
  let omitted := hy_omissions r ++ map (fun c =>
    {| ho_claim_id := Some (cl_claim_id c); ho_reason := "disputed_claim"; ho_status := "disputed";
       ho_required_fact := Some fact |}) disputed in
  let with_omissions os := {| hy_claims := hy_claims r; hy_omissions := os; hy_required := hy_required r;
                              hy_satisfied := hy_satisfied r |} in
  eligible ← keep_fresh now
    (List.filter (fun c => bool_decide (cl_status c ∈ SELECTABLE false)) matching);
  match sort_by (rank_le false) eligible with
  | [] => Ok (with_omissions
                (match disputed with
                 | [] => omitted ++ [{| ho_claim_id := None; ho_reason := "required_fact_not_satisfied";
                                        ho_status := "blocked"; ho_required_fact := Some fact |}]
                 | _ => omitted
                 end))
  | c :: _ =>
      ok ← text_matches texts c;
      if negb ok then Ok (with_omissions (omitted ++ [unavailable c (Some fact)]))
      else Ok {| hy_claims := if mem (cl_claim_id c) (map cl_claim_id (hy_claims r))
                              then hy_claims r else hy_claims r ++ [c];
                 hy_omissions := omitted; hy_required := hy_required r;
                 hy_satisfied := if mem fact (hy_satisfied r) then hy_satisfied r
                                 else hy_satisfied r ++ [fact] |}
  end.

Fixpoint hydrate_facts (l : Ledger) (texts : list (string * string)) (now : Z) (facts : list string)
    (r : HydrationResult) : result exn HydrationResult :=
  match facts with
  | [] => Ok r
  | fact :: facts => r ← hydrate_fact l texts now fact r; hydrate_facts l texts now facts r
  end.

(** [hydrate] *)
Definition hydrate (l : Ledger) (required_facts : list string) (texts : list (string * string))
    (now : Z) : result exn HydrationResult :=
  let facts := List.filter (fun f => negb (String.eqb (strip f) "")) required_facts in
  match facts with
  | [] =>
      cs ← select_active l None now false;
      '(kept, omitted) ← hydrate_selected texts cs;
      Ok {| hy_claims := kept; hy_omissions := omitted; hy_required := []; hy_satisfied := [] |}
  | _ =>
      hydrate_facts l texts now facts
        {| hy_claims := []; hy_omissions := []; hy_required := facts; hy_satisfied := [] |}
  end.

(** ** Rebuilding *)

Definition member (k : string) (ms : list (string * json)) : result exn json :=
  match dict_get k ms with Some v => Ok v | None => Err (ClaimsKeyError k) end.

Definition status_member (k : string) (ms : list (string * json)) : result exn (option ClaimStatus) :=
  v ← member k ms; Ok (match v with JStr s => claim_status_of s | _ => None end).

(** [ClaimTransition(...)] of a persisted payload *)
Definition read_transition (ms : list (string * json)) : result exn ClaimTransition :=
  i ← member "transition_id" ms;
  c ← member "claim_id" ms;
  from ← status_member "from_status" ms;
  to ← status_member "to_status" ms;
  t ← member "occurred_at" ms;
  r ← member "reason" ms;
  make_transition i c from to (TValue t) r
    (match dict_get "superseded_by" ms with Some v => not_null v | None => None end).

(** The claims of the context receipts *)
Fixpoint rebuild_claims (rs : list ReceiptRecord) (l : Ledger) : result exn Ledger :=
  match rs with
  | [] => Ok l
  | r :: rs =>
      match rr_payload r with
      | JObj ms =>
          if match dict_get "kind" ms with Some k => py_eq k (JStr "claim") | None => false end then
            v ← member "claim" ms;
            c ← claim_from_dict sha256_hex v;
            rebuild_claims rs (set_receipt_id (cl_claim_id c) (rr_id r) (set_claim (cl_claim_id c) c l))
          else rebuild_claims rs l
      | _ => Err ClaimsAttributeError
      end
  end.

(** The transitions of the execution receipts *)
Fixpoint rebuild_transitions (rs : list ReceiptRecord) (l : Ledger) : result exn Ledger :=
  match rs with
  | [] => Ok l
  | r :: rs =>
      if negb (bool_decide (rr_event_type r = Some "claim_status_transition")) then rebuild_transitions rs l
      else
        match rr_payload r with
        | JObj ms =>
            match dict_get "transition" ms with
            | Some (JObj ts) =>
                t ← read_transition ts;
                match dict_get (ct_claim_id t) (lg_claims l) with
                | None => Err (ClaimsLedgerError "transition references an unavailable claim")
                | Some c => rebuild_transitions rs
                              (push_transition t (set_claim (ct_claim_id t) (with_status c (ct_to t)) l))
                end
            | _ => rebuild_transitions rs l
            end
        | _ => Err ClaimsAttributeError
        end
  end.

(** [from_receipt_store] *)
Definition from_receipt_store (store : S) : result exn Ledger :=
  let read kind := match sink_query store kind scope with
                   | Ok rs => Ok rs
                   | Err e => Err (StoreError e)
                   end in
  claims ← read "context";
  l ← rebuild_claims claims empty_ledger;
  events ← read "execution";
  rebuild_transitions events l.
End ledger.

(** * The receipt store as the ledger's store

    A call that raises draws nothing. Every query names its scope, so that [strict_scope] makes no
    difference. *)

Section receipt_store.
Context (sha256_hex : string -> string).
(** What the successive calls draw: the random part of an id, and the time *)
Context (uuid time : nat -> string).

Record StoreSink := { ss_rows : list Row; ss_draws : nat }.

#[export] Instance receipt_sink : ReceiptSink StoreSink receipt_exn := {
  sink_put st scope payload rid :=
    '(rows, r) ← put_receipt sha256_hex (ss_rows st)
      {| pa_type := "context"; pa_scope := scope; pa_payload := payload; pa_sensitivity := "internal";
         pa_provenance := Some LEDGER_PROVENANCE; pa_id := Some rid; pa_parent := None;
         pa_event_id := None; pa_event_type := None; pa_terminal_outcome := None;
         pa_idempotency_key := None; pa_allowlist := []; pa_key_ref := None |}
      (uuid (ss_draws st)) (time (ss_draws st));
    Ok ({| ss_rows := rows; ss_draws := S (ss_draws st) |}, rr_id r);
  sink_append st parent scope payload event_id event_type :=
    '(rows, _) ← append_event sha256_hex (ss_rows st) parent scope payload event_id event_type None []
      (uuid (ss_draws st)) (time (ss_draws st));
    Ok {| ss_rows := rows; ss_draws := S (ss_draws st) |};
  sink_query st kind scope :=
    rs ← query_receipts sha256_hex false (ss_rows st) (Some kind) (Some scope) 100000 false None;
    Ok (sort_by (fun a b => rr_sequence a <=? rr_sequence b) rs)
}.
End receipt_store.
