(* ===== verification/ClaimsTheorems.v ===== *)
(** What the claims ledger guarantees: the status of every claim is explained by its transitions, an
    operation that raises changes nothing in memory, and what is selected or hydrated is current,
    fresh and matches its hash. *)
From Stdlib Require Import Ascii Lqa.
From S2P Require Import Prelude PyStr PyNum Regex Time Json JsonDict Passports Ladder ReceiptStore ClaimsModels ClaimsLedger.

Section claims.
Context {S E : Type} {K : ReceiptSink S E}.
Context (sha256_hex : string -> string).
Context (policies : list (string * FreshnessPolicy)) (scope : string).

#[local] Abbreviation State := (State (S := S)).
#[local] Abbreviation add := (add (K := K) sha256_hex scope).
#[local] Abbreviation transition := (transition (K := K) sha256_hex scope).

(** * Calls *)

Definition good_identifier (s : string) : bool := is_identifier s && negb (matches true SENSITIVE_RE s).

Lemma identifier_inv s name x :
  identifier (E := E) (JStr s) name = Ok x -> x = s /\ good_identifier s = true.
Proof.
  unfold identifier, good_identifier. destruct (is_identifier s); cbn [negb]; [|done].
  destruct (matches true SENSITIVE_RE s); [done|]. by intros [= <-].
Qed.

Lemma identifier_good s name : good_identifier s = true -> identifier (E := E) (JStr s) name = Ok s.
Proof.
  unfold identifier, good_identifier. destruct (is_identifier s); cbn [negb andb]; [|done].
  by destruct (matches true SENSITIVE_RE s).
Qed.

Lemma op_bind_cases {A B} (m : Op (S := S) (E := E) A) (f : A -> Op B) s s' res :
  op_bind f m s = (s', res) ->
  (exists e, m s = (s', Err e) /\ res = Err e) \/ exists s1 x, m s = (s1, Ok x) /\ f x s1 = (s', res).
Proof.
  unfold op_bind. destruct (m s) as [s1 [x|e]] eqn:Em; intros H.
  - right. by exists s1, x.
  - left. injection H as <- <-. by exists e.
Qed.

Lemma get_claim_cases i (s s' : State) res :
  get_claim (E := E) i s = (s', res) ->
  s' = s /\ match res with Ok c => dict_get i (lg_claims (st_ledger s)) = Some c | Err _ => True end.
Proof.
  unfold get_claim. intros H. apply op_bind_cases in H as [(e & H & ->)|(s1 & u & H & H1)].
  - by injection H as <- _.
  - injection H as <- _. apply op_bind_cases in H1 as [(e & H & ->)|(s2 & l & H & H1)]; [done|].
    injection H as <- <-. destruct (dict_get i (lg_claims (st_ledger s))) eqn:Ed; by injection H1 as <- <-.
Qed.

(** Persisting writes to the store only, and a failure to nothing. *)
Lemma persist_transition_ledger t (s s' : State) res :
  persist_transition (K := K) sha256_hex scope t s = (s', res) ->
  st_ledger s' = st_ledger s /\ forall e, res = Err e -> s' = s.
Proof.
  unfold persist_transition. intros H. repeat case_hyp H; injection H as <- <-; split; try done; by intros ? [=].
Qed.

(** What a call to [transition] does: nothing but raise, or one recorded step of the claim. *)
Lemma transition_cases i to reason at_ by_ uuid now s s' res :
  transition i to reason at_ by_ uuid now s = (s', res) ->
  match res with
  | Err _ => s' = s
  | Ok c => exists current st t s1,
      dict_get i (lg_claims (st_ledger s)) = Some current /\ claim_status_of to = Some st /\
      st ∈ TRANSITIONS (cl_status current) /\ c = with_status current st /\
      ct_claim_id t = i /\ ct_from t = cl_status current /\ ct_to t = st /\
      ct_transition_id t = "transition-" +:+ uuid /\
      make_transition (E := E) (JStr ("transition-" +:+ uuid)) (JStr i) (Some (cl_status current)) (Some st)
        (match at_ with
         | None | Some (TValue (JStr EmptyString)) => TDatetime (utc now)
         | Some v => v
         end) (JStr reason) (JStr <$> by_) = Ok t /\
      persist_transition sha256_hex scope t s = (s1, Ok tt) /\
      st_store s' = st_store s1 /\ st_ledger s' = push_transition t (set_claim i c (st_ledger s))
  end.
Proof.
  unfold ClaimsLedger.transition. intros H. apply op_bind_cases in H as [(e & H & ->)|(s1 & cur & H & H1)].
  { by apply get_claim_cases in H as [-> _]. }
  apply get_claim_cases in H as [-> Hcur]. destruct (claim_status_of to) as [st|] eqn:Eto; [|by injection H1 as <- <-].
  destruct (bool_decide (st ∈ TRANSITIONS (cl_status cur))) eqn:Eb; cbn [negb] in H1; [|by injection H1 as <- <-].
  apply bool_decide_eq_true in Eb.
  apply op_bind_cases in H1 as [(e & H & ->)|(s2 & t & H & H1)]; [by injection H as <- _|].
  injection H as <- Ht. apply op_bind_cases in H1 as [(e & H & ->)|(s3 & u & H & H1)].
  { apply persist_transition_ledger in H as [_ Hs]. by apply (Hs e). }
  destruct u. pose proof H as Hp.
  assert (Hl : st_ledger s3 = st_ledger s).
  { by apply persist_transition_ledger in H as [? _]. }
  apply op_bind_cases in H1 as [(e & H1 & ->)|(s4 & u & H1 & H2)]; [done|].
  injection H1 as <- <-. injection H2 as <- <-.
  exists cur, st, t, s3. cbn. rewrite Hl.
  assert (Hf : ct_claim_id t = i /\ ct_from t = cl_status cur /\ ct_to t = st /\
    ct_transition_id t = "transition-" +:+ uuid).
  { clear -Ht. unfold make_transition in Ht. apply bind_ok in Ht as (a & Ha & Ht).
    apply bind_ok in Ht as (b & Hb & Ht). apply bind_ok in Ht as (d & _ & Ht).
    apply bind_ok in Ht as (r & _ & Ht). apply bind_ok in Ht as (o & _ & [= <-]). cbn.
    by apply identifier_inv in Ha as [-> _], Hb as [-> _]. }
  destruct Hf as (F1 & F2 & F3 & F4).
  split_and!; first [assumption | reflexivity].
Qed.

Lemma persist_claim_ledger c (s s' : State) res :
  persist_claim (K := K) scope c s = (s', res) ->
  match res with
  | Ok _ => exists ids, st_ledger s' = {| lg_claims := lg_claims (st_ledger s);
                                          lg_transitions := lg_transitions (st_ledger s);
                                          lg_receipt_ids := ids |}
  | Err _ => s' = s
  end.
Proof.
  unfold persist_claim. intros H. repeat case_hyp H; injection H as <- <-; try done; cbn; unfold set_receipt_id;
    destruct (st_ledger s); eexists; reflexivity.
Qed.

(** What a call to [add] does: a failed one leaves the ledger; a known claim is returned as it is; a
    new one is written, and what it supersedes makes one recorded step. *)
Lemma add_cases c uuid now s s' res :
  add c uuid now s = (s', res) ->
  match res with
  | Err _ => st_ledger s' = st_ledger s
  | Ok c' =>
      (s' = s /\ dict_get (cl_claim_id c) (lg_claims (st_ledger s)) = Some c') \/
      (dict_get (cl_claim_id c) (lg_claims (st_ledger s)) = None /\ c' = c /\
       exists s1, persist_claim scope c {| st_store := st_store s;
                    st_ledger := set_claim (cl_claim_id c) c (st_ledger s) |} = (s1, Ok tt) /\
         match cl_supersedes c with
         | None => s' = s1
         | Some old => exists q, transition old "superseded" "superseded_by_new_claim"
             (Some (TValue (JStr (format_datetime (cl_observed_at c))))) (Some (cl_claim_id c)) uuid now s1
             = (s', Ok q)
         end)
  end.
Proof.
  unfold ClaimsLedger.add. intros H.
  apply op_bind_cases in H as [(e & H & ->)|(s1 & l & H & H1)]; [by injection H as <- _|].
  injection H as <- <-. destruct (dict_get (cl_claim_id c) (lg_claims (st_ledger s))) as [x|] eqn:Ed.
  { destruct (py_eq _ _); injection H1 as <- <-; [by left|done]. }
  apply op_bind_cases in H1 as [(e & H & ->)|(s1 & u & H & H1)]; [by injection H as <- _|].
  injection H as <- _. unfold restoring in H1.
  match type of H1 with (match ?body s with _ => _ end = _) => destruct (body s) as [s2 r] eqn:Eb end.
  apply op_bind_cases in Eb as [(e & H & ->)|(s3 & u' & H & Eb)]; [done|]. injection H as <- _.
  apply op_bind_cases in Eb as [(e & H & ->)|(s4 & u'' & Hp & Eb)]; [by injection H1 as <- <-|]. destruct u''.
  destruct (cl_supersedes c) as [old|] eqn:Eo.
  - apply op_bind_cases in Eb. destruct Eb as [(e & H & ->)|(s5 & q & H & Eb)]; [by injection H1 as <- <-|].
    injection Eb as <- <-. injection H1 as <- <-. right. split; [done|]. split; [done|]. exists s4. split; [done|]. by exists q.
  - injection Eb as <- <-. injection H1 as <- <-. right. split; [done|]. split; [done|]. by exists s4.
Qed.

(** * The history of a claim *)

(** [ts] leads from one status to the other along the allowed transitions. *)
Fixpoint path (from : ClaimStatus) (ts : list ClaimTransition) (to : ClaimStatus) : Prop :=
  match ts with
  | [] => from = to
  | t :: ts => ct_from t = from /\ ct_to t ∈ TRANSITIONS from /\ path (ct_to t) ts to
  end.

Definition history (i : string) (l : Ledger) : list ClaimTransition :=
  transitions_of l (Some i).

Record explained (l : Ledger) : Prop := {
  ex_ids : forall i c, dict_get i (lg_claims l) = Some c -> cl_claim_id c = i;
  ex_path : forall i c, dict_get i (lg_claims l) = Some c -> exists from, path from (history i l) (cl_status c);
  ex_known : forall t, t ∈ lg_transitions l -> dict_get (ct_claim_id t) (lg_claims l) <> None
}.

Lemma path_snoc from ts to t :
  path from ts to -> ct_from t = to -> ct_to t ∈ TRANSITIONS to -> path from (ts ++ [t]) (ct_to t).
Proof. revert from; induction ts as [|x ts IH]; intros from; cbn; [intros ->; auto|]. intuition. Qed.

Lemma explained_ids l ids :
  explained l -> explained {| lg_claims := lg_claims l; lg_transitions := lg_transitions l; lg_receipt_ids := ids |}.
Proof. intros []. by split. Qed.

Lemma explained_new l c :
  explained l -> dict_get (cl_claim_id c) (lg_claims l) = None -> explained (set_claim (cl_claim_id c) c l).
Proof.
  intros [Hi Hp Hk] Hn. split; cbn.
  - intros i x. destruct (decide (i = cl_claim_id c)) as [->|Hne]; [rewrite dict_get_set; by intros [= <-]|].
    rewrite dict_get_set_ne by done. apply Hi.
  - intros i x. destruct (decide (i = cl_claim_id c)) as [->|Hne].
    + rewrite dict_get_set. intros [= <-]. exists (cl_status c).
      unfold history. cbn. replace (List.filter _ _) with (@nil ClaimTransition); [done|].
      symmetry. destruct (List.filter _ _) as [|t l'] eqn:Ef; [done|].
      assert (Ht : t ∈ t :: l') by set_solver. rewrite <- Ef in Ht. apply elem_of_lfilter in Ht as [Ht Heq].
      apply String.eqb_eq in Heq. apply Hk in Ht. by rewrite Heq in Ht.
    + rewrite dict_get_set_ne by done. apply Hp.
  - intros t Ht. destruct (decide (ct_claim_id t = cl_claim_id c)) as [->|Hne]; [by rewrite dict_get_set|].
    rewrite dict_get_set_ne by done. by apply Hk.
Qed.

Lemma explained_step l i c t :
  explained l -> dict_get i (lg_claims l) = Some c -> ct_claim_id t = i -> ct_from t = cl_status c ->
  ct_to t ∈ TRANSITIONS (cl_status c) ->
  explained (push_transition t (set_claim i (with_status c (ct_to t)) l)).
Proof.
  intros [Hi Hp Hk] Hc Ht Hf Hto. split; cbn.
  - intros j x. destruct (decide (j = i)) as [->|Hne].
    + rewrite dict_get_set. intros [= <-]. by apply Hi in Hc.
    + rewrite dict_get_set_ne by done. apply Hi.
  - intros j x. unfold history. cbn. rewrite List.filter_app. cbn. rewrite Ht.
    destruct (decide (j = i)) as [->|Hne].
    + rewrite dict_get_set, String.eqb_refl. intros [= <-]. destruct (Hp _ _ Hc) as (from & H).
      exists from. by apply (path_snoc _ _ (cl_status c)).
    + rewrite dict_get_set_ne by done. intros Hx. rewrite (proj2 (String.eqb_neq i j)) by done.
      rewrite app_nil_r. by apply Hp.
  - intros x [Hx|Hx%list_elem_of_singleton]%elem_of_app; [|subst x; by rewrite Ht, dict_get_set].
    destruct (decide (ct_claim_id x = i)) as [->|Hne]; [by rewrite dict_get_set|].
    rewrite dict_get_set_ne by done. by apply Hk.
Qed.

(** The calls that change a ledger, whatever their outcome *)
Inductive ledger_step (s s' : State) : Prop :=
| step_add c uuid now res : add c uuid now s = (s', res) -> ledger_step s s'
| step_transition i to reason at_ by_ uuid now res :
    transition i to reason at_ by_ uuid now s = (s', res) -> ledger_step s s'.

Definition fresh_state (store : option S) : State := {| st_store := store; st_ledger := empty_ledger |}.

Lemma transition_explained i to reason at_ by_ uuid now s s' res :
  transition i to reason at_ by_ uuid now s = (s', res) -> explained (st_ledger s) -> explained (st_ledger s').
Proof.
  intros H He. apply transition_cases in H. destruct res as [c|e]; [|by subst].
  destruct H as (cur & st & t & s1 & Hcur & _ & Hst & -> & Hi & Hf & Hto & _ & _ & _ & _ & ->).
  subst st. by apply explained_step.
Qed.

Lemma step_explained s s' : ledger_step s s' -> explained (st_ledger s) -> explained (st_ledger s').
Proof.
  intros [c uuid now res H|i to reason at_ by_ uuid now res H] He; [|by eapply transition_explained].
  apply add_cases in H. destruct res as [c'|e]; [|by rewrite H].
  destruct H as [[-> _]|(Hn & -> & s1 & Hp & H)]; [done|].
  assert (H1 : explained (st_ledger s1)).
  { apply persist_claim_ledger in Hp as (ids & ->). by apply explained_ids, explained_new. }
  destruct (cl_supersedes c); [|by subst]. destruct H as (q & H). by eapply transition_explained.
Qed.

Lemma reachable_explained store s : rtc ledger_step (fresh_state store) s -> explained (st_ledger s).
Proof.
  intros H. enough (G : forall a, rtc ledger_step a s -> explained (st_ledger a) -> explained (st_ledger s)).
  { apply (G _ H). split; [done|done|]. intros t Ht. by apply not_elem_of_nil in Ht. }
  clear H. intros a H. induction H as [|a b d H1 _ IH]; [done|]. intros Ha. by eapply IH, step_explained.
Qed.

(** In every ledger that [add] and [transition] produce, whatever raised on the way, the status
    of each claim is where its recorded transitions lead from the status it was added with, each of them
    allowed by the table; and each recorded transition is of a known claim. *)
Theorem history_explains_status store s i c :
  rtc ledger_step (fresh_state store) s -> dict_get i (lg_claims (st_ledger s)) = Some c ->
  cl_claim_id c = i /\ (exists from, path from (history i (st_ledger s)) (cl_status c)) /\
  forall t, t ∈ lg_transitions (st_ledger s) -> dict_get (ct_claim_id t) (lg_claims (st_ledger s)) <> None.
Proof.
  intros H Hc. apply reachable_explained in H as [Hi Hp Hk]. split; [by apply Hi|]. split; [by apply Hp|done].
Qed.

(** What one call does to a claim that is there: nothing, or a step of its status. *)
Lemma transition_keeps i to reason at_ by_ uuid now s s' res j c :
  transition i to reason at_ by_ uuid now s = (s', res) ->
  dict_get j (lg_claims (st_ledger s)) = Some c -> cl_status c = Superseded ->
  dict_get j (lg_claims (st_ledger s')) = Some c /\ history j (st_ledger s') = history j (st_ledger s).
Proof.
  intros H Hc Hs. apply transition_cases in H. destruct res as [x|e]; [|by subst].
  destruct H as (cur & st & t & s1 & Hcur & _ & Hst & -> & Hi & _ & _ & _ & _ & _ & _ & ->).
  destruct (decide (j = i)) as [->|Hne].
  - rewrite Hcur in Hc. injection Hc as ->. rewrite Hs in Hst. by apply not_elem_of_nil in Hst.
  - cbn. rewrite dict_get_set_ne by done. split; [done|]. unfold history. cbn.
    rewrite List.filter_app. cbn. rewrite Hi, (proj2 (String.eqb_neq i j)) by done. by rewrite app_nil_r.
Qed.

Lemma step_keeps s s' j c :
  ledger_step s s' -> dict_get j (lg_claims (st_ledger s)) = Some c -> cl_status c = Superseded ->
  dict_get j (lg_claims (st_ledger s')) = Some c /\ history j (st_ledger s') = history j (st_ledger s).
Proof.
  intros [d uuid now res H|i to reason at_ by_ uuid now res H] Hc Hs; [|by eapply transition_keeps].
  apply add_cases in H. destruct res as [c'|e]; [|by rewrite H].
  destruct H as [[-> _]|(Hn & -> & s1 & Hp & H)]; [done|].
  assert (H1 : dict_get j (lg_claims (st_ledger s1)) = Some c /\ history j (st_ledger s1) = history j (st_ledger s)).
  { apply persist_claim_ledger in Hp as (ids & ->). cbn. rewrite dict_get_set_ne by congruence. done. }
  destruct (cl_supersedes d); [|by subst]. destruct H as (q & H), H1 as [Hc1 <-].
  by eapply transition_keeps.
Qed.

(** A superseded claim is final: no later call, failed ones included, changes the claim or adds a
    transition to its history. *)
Theorem supersession_is_final s s' j c :
  rtc ledger_step s s' -> dict_get j (lg_claims (st_ledger s)) = Some c -> cl_status c = Superseded ->
  dict_get j (lg_claims (st_ledger s')) = Some c /\ history j (st_ledger s') = history j (st_ledger s).
Proof.
  intros H Hc Hs. induction H as [s|s1 s2 s3 H1 _ IH]; [done|].
  destruct (step_keeps _ _ _ _ H1 Hc Hs) as [Hc2 <-]. by apply IH.
Qed.

(** A call that raises leaves the ledger's claims, history and receipt ids as they were, at
    whatever point it raised. *)
Theorem failed_call_keeps_ledger c i to reason at_ by_ uuid now s s' e :
  (add c uuid now s = (s', Err e) -> st_ledger s' = st_ledger s) /\
  (transition i to reason at_ by_ uuid now s = (s', Err e) -> s' = s).
Proof. split; intros H; [by apply add_cases in H|by apply transition_cases in H]. Qed.

(** * The ranking *)

Record weak_order {A} (lt eq : A -> A -> bool) : Prop := {
  wo_total : forall a b, lt a b = true \/ eq a b = true \/ lt b a = true;
  wo_sym : forall a b, eq a b = true -> eq b a = true;
  wo_eq : forall a b c, eq a b = true -> eq b c = true -> eq a c = true;
  wo_lt : forall a b c, lt a b = true -> lt b c = true -> lt a c = true;
  wo_lt_eq : forall a b c, lt a b = true -> eq b c = true -> lt a c = true;
  wo_eq_lt : forall a b c, eq a b = true -> lt b c = true -> lt a c = true
}.

Definition total {A} (le : A -> A -> bool) : Prop := forall a b, le a b = true \/ le b a = true.
Definition transitive {A} (le : A -> A -> bool) : Prop :=
  forall a b c, le a b = true -> le b c = true -> le a c = true.

Lemma key_then_order {A} (lt eq le : A -> A -> bool) :
  weak_order lt eq -> total le /\ transitive le ->
  total (fun a b => key_then lt eq a b (le a b)) /\ transitive (fun a b => key_then lt eq a b (le a b)).
Proof.
  intros [Ht Hs He Hl Hle Hel] [Tt Tr]. split.
  - intros a b. unfold key_then. rewrite !orb_true_iff, !andb_true_iff.
    destruct (Ht a b) as [?|[Hq|?]]; [auto| |auto]. destruct (Tt a b); [auto|]. right; right. auto.
  - intros a b c. unfold key_then. rewrite !orb_true_iff, !andb_true_iff.
    intros [H1|[H1 L1]] [H2|[H2 L2]]; [left; eauto..|right; eauto].
Qed.

Lemma by_int {A} (f : A -> Z) : weak_order (fun a b => f b <? f a) (fun a b => f a =? f b).
Proof. split; intros; rewrite ?Z.ltb_lt, ?Z.eqb_eq in *; lia. Qed.

Lemma by_nothing {A} (f : A -> Z) (on : bool) :
  weak_order (fun a b => on && (f b <? f a)) (fun a b => negb on || (f a =? f b)).
Proof. destruct on; cbn; [apply by_int|]. split; intros; auto. Qed.

Lemma by_rational {A} (f : A -> Q) : weak_order (fun a b => Qltb (f b) (f a)) (fun a b => Qeq_bool (f a) (f b)).
Proof.
  split; intros; rewrite ?Qltb_spec, ?Qeq_bool_iff in *; try lra.
Qed.

Lemma rank_order on : total (rank_le on) /\ transitive (rank_le on).
Proof.
  assert (B : total (fun a b => str_leb (cl_claim_id a) (cl_claim_id b)) /\
              transitive (fun a b => str_leb (cl_claim_id a) (cl_claim_id b))).
  { split; [intros a b; apply str_leb_total|intros a b d; apply str_leb_trans]. }
  exact (key_then_order _ _ _ (by_int (fun c => if bool_decide (cl_status c = Verified) then 1 else 0))
    (key_then_order _ _ _ (by_int (fun c => default (cl_observed_at c) (cl_verified_at c)))
      (key_then_order _ _ _ (by_nothing cl_observed_at on)
        (key_then_order _ _ _ (by_rational confidence_value) B)))).
Qed.

Lemma select_order : total select_le /\ transitive select_le.
Proof.
  destruct (rank_order true) as [Rt Rr]. split.
  - intros a b. unfold select_le. rewrite (String.eqb_sym (cl_subject b)).
    destruct (String.eqb (cl_subject a) (cl_subject b)); [apply Rt|apply str_leb_total].
  - intros a b c. unfold select_le.
    destruct (String.eqb_spec (cl_subject a) (cl_subject b)) as [E1|E1],
      (String.eqb_spec (cl_subject b) (cl_subject c)) as [E2|E2],
      (String.eqb_spec (cl_subject a) (cl_subject c)) as [E3|E3]; try congruence; intros H1 H2.
    + by eapply Rr.
    + rewrite E3 in H1. by destruct E2; apply str_leb_antisym.
    + by eapply str_leb_trans.
Qed.

Lemma same_subject_rank c d : cl_subject d = cl_subject c -> select_le c d = true -> rank_le true c d = true.
Proof. intros Hsub. unfold select_le. by rewrite Hsub, String.eqb_refl. Qed.

Lemma first_per_subject_spec cs : forall seen c,
  StronglySorted (fun a b => select_le a b = true) cs -> c ∈ first_per_subject seen cs ->
  c ∈ cs /\ (cl_subject c ∉ seen) /\
  forall d, d ∈ cs -> cl_subject d = cl_subject c -> d = c \/ rank_le true c d = true.
Proof.
  induction cs as [|x cs IH]; intros seen c Hs; cbn [first_per_subject]; [by intros H%not_elem_of_nil|].
  inversion Hs as [|? ? Hs' Hx]; subst. rewrite Forall_forall in Hx.
  destruct (mem (cl_subject x) seen) eqn:Em.
  - apply mem_spec in Em. intros H. destruct (IH _ _ Hs' H) as (H1 & H2 & H3). split; [set_solver|].
    split; [done|]. intros d [->|Hd]%elem_of_cons Hsub; [|by apply H3]. by rewrite Hsub in Em.
  - apply mem_false in Em. intros [->|H]%elem_of_cons.
    + split; [set_solver|]. split; [done|]. intros d [->|Hd]%elem_of_cons Hsub; [by left|].
      right. by apply same_subject_rank, Hx.
    + destruct (IH _ _ Hs' H) as (H1 & H2 & H3). split; [set_solver|]. split; [set_solver|].
      intros d [->|Hd]%elem_of_cons Hsub; [|by apply H3]. rewrite Hsub in H2. set_solver.
Qed.

Lemma first_per_subject_covers cs : forall seen d,
  d ∈ cs -> cl_subject d ∉ seen -> exists c, c ∈ first_per_subject seen cs /\ cl_subject c = cl_subject d.
Proof.
  induction cs as [|x cs IH]; intros seen d Hd Hn; [by apply not_elem_of_nil in Hd|]. cbn [first_per_subject].
  destruct (mem (cl_subject x) seen) eqn:Em.
  - apply mem_spec in Em. apply IH; [|done]. apply elem_of_cons in Hd as [->|?]; [done|done].
  - destruct (decide (cl_subject d = cl_subject x)) as [Hx|Hx]; [exists x; split; [set_solver|done]|].
    destruct (IH (cl_subject x :: seen) d) as (c & Hc & Hsub); [by apply elem_of_cons in Hd as [->|?]|set_solver|].
    exists c. split; [set_solver|done].
Qed.

Lemma first_per_subject_nodup cs : forall seen,
  base.NoDup (map cl_subject (first_per_subject seen cs)) /\
  forall s, s ∈ map cl_subject (first_per_subject seen cs) -> s ∉ seen.
Proof.
  induction cs as [|x cs IH]; intros seen; cbn [first_per_subject].
  - split; [constructor|]. by intros s H%not_elem_of_nil.
  - destruct (mem (cl_subject x) seen) eqn:Em; [apply IH|]. apply mem_false in Em.
    destruct (IH (cl_subject x :: seen)) as [H1 H2]. cbn [map]. split.
    + constructor; [|done]. intros H%H2. set_solver.
    + intros s [->|H%H2]%elem_of_cons; set_solver.
Qed.

Lemma keep_fresh_spec now cs out :
  keep_fresh (E := E) policies now cs = Ok out ->
  forall c, c ∈ out <-> c ∈ cs /\ is_fresh (E := E) policies c now = Ok true.
Proof.
  revert out; induction cs as [|x cs IH]; intros out; cbn [keep_fresh].
  - intros [= <-] c. set_solver.
  - intros H. apply bind_ok in H as (ok & Hx & H). apply bind_ok in H as (rest & Hr & [= <-]).
    intros c. specialize (IH _ Hr c). destruct ok; rewrite ?elem_of_cons, IH; naive_solver congruence.
Qed.

(** A claim that may be selected *)
Definition selectable (l : Ledger) (subject : option string) (now : Z) (with_observed : bool) (c : Claim) : Prop :=
  c ∈ map snd (lg_claims l) /\ (match subject with Some s => cl_subject c = s | None => True end) /\
  cl_status c ∈ SELECTABLE with_observed /\ is_fresh (E := E) policies c now = Ok true.

(** C35: [select_active] returns current claims only, active or verified (or observed, when asked
    for) and fresh at the time; for each subject that has one exactly one, and it ranks first among the
    subject's candidates: verified before not, then the newest, the most confident, the least id. *)
Theorem select_active_exact l subject now with_observed cs :
  select_active (E := E) policies l subject now with_observed = Ok cs ->
  base.NoDup (map cl_subject cs) /\
  (forall c, c ∈ cs -> selectable l subject now with_observed c /\
     forall d, selectable l subject now with_observed d -> cl_subject d = cl_subject c ->
       d = c \/ rank_le true c d = true) /\
  forall d, selectable l subject now with_observed d -> exists c, c ∈ cs /\ cl_subject c = cl_subject d.
Proof.
  unfold select_active. intros H. apply bind_ok in H as (cand & Hk & [= <-]).
  assert (Hc : forall c, c ∈ sort_by select_le cand <-> selectable l subject now with_observed c).
  { intros c. rewrite elem_of_sort_by, (keep_fresh_spec _ _ _ Hk), elem_of_lfilter. unfold selectable.
    rewrite andb_true_iff, bool_decide_eq_true. destruct subject; rewrite ?String.eqb_eq; tauto. }
  destruct select_order as [St Sr]. pose proof (sort_by_sorted select_le St Sr cand) as Hs.
  destruct subject as [s|].
  - destruct (sort_by select_le cand) as [|x rest]; cbn [take map].
    { split; [constructor|]. split; [by intros c H%not_elem_of_nil|]. by intros d H%Hc%not_elem_of_nil. }
    rewrite take_0. inversion Hs as [|? ? _ Hx]; subst. rewrite Forall_forall in Hx.
    assert (Hxs : cl_subject x = s) by (apply (Hc x); set_solver).
    split; [apply NoDup_singleton|]. split.
    + intros c ->%list_elem_of_singleton. split; [apply Hc; set_solver|].
      intros d Hd Hsub. apply Hc in Hd as [->|Hd]%elem_of_cons; [by left|]. right. by apply same_subject_rank, Hx.
    + intros d Hd. exists x. split; [set_solver|]. destruct Hd as (_ & -> & _). done.
  - split; [apply first_per_subject_nodup|]. split.
    + intros c Hin. destruct (first_per_subject_spec _ _ _ Hs Hin) as (H1 & _ & H2).
      split; [by apply Hc|]. intros d Hd. apply H2. by apply Hc.
    + intros d Hd. apply first_per_subject_covers; [by apply Hc|set_solver].
Qed.

(** * Hydration *)

(** A claim that hydration may use *)
Definition hydratable (l : Ledger) (texts : list (string * string)) (now : Z) (c : Claim) : Prop :=
  selectable l None now false c /\ text_matches (E := E) sha256_hex texts c = Ok true.

Definition satisfied_by (l : Ledger) (texts : list (string * string)) (now : Z) (r : HydrationResult) (fact : string) : Prop :=
  exists c, hydratable l texts now c /\ mentions texts fact c = true /\
            cl_claim_id c ∈ map cl_claim_id (hy_claims r).

(** What holds of a result at any time *)
Definition hydration_ok (l : Ledger) (texts : list (string * string)) (now : Z) (r : HydrationResult) : Prop :=
  (forall c, c ∈ hy_claims r -> hydratable l texts now c) /\
  (forall f, f ∈ hy_satisfied r -> satisfied_by l texts now r f).

Definition answered (r : HydrationResult) (fact : string) : Prop :=
  fact ∈ hy_satisfied r \/ exists o, o ∈ hy_omissions r /\ ho_required_fact o = Some fact.

Lemma hydrate_fact_spec l texts now fact r r' :
  hydrate_fact (E := E) sha256_hex policies l texts now fact r = Ok r' ->
  hydration_ok l texts now r ->
  hydration_ok l texts now r' /\ answered r' fact /\ hy_required r' = hy_required r /\
  (forall f, answered r f -> answered r' f).
Proof.
  unfold hydrate_fact. intros H [Hc Hf]. apply bind_ok in H as (eligible & Hk & H).
  assert (He : forall c, c ∈ sort_by (rank_le false) eligible ->
    selectable l None now false c /\ mentions texts fact c = true).
  { intros c. rewrite elem_of_sort_by, (keep_fresh_spec _ _ _ Hk), !elem_of_lfilter, bool_decide_eq_true.
    unfold selectable. tauto. }
  set (disputed := List.filter _ (List.filter (mentions texts fact) _)) in H.
  set (marks := map _ disputed) in H.
  assert (Hmarks : disputed <> [] -> exists o, o ∈ hy_omissions r ++ marks /\ ho_required_fact o = Some fact).
  { unfold marks. destruct disputed as [|d ds]; [done|]. intros _. cbn [map]. eexists.
    split; [apply elem_of_app; right; apply list_elem_of_here|reflexivity]. }
  destruct (sort_by (rank_le false) eligible) as [|c rest].
  { injection H as <-. split; [split; [exact Hc|exact Hf]|]. split; [|split; [done|]].
    - right. cbn. destruct disputed as [|d ds] eqn:Ed; [|rewrite <- Ed in Hmarks; apply Hmarks; by rewrite Ed].
      cbn. eexists. split; [apply elem_of_app; right; apply list_elem_of_here|reflexivity].
    - intros f [Hs|(o & Ho & Hof)]; [by left|]. right. exists o. split; [|done].
      destruct disputed; cbn; rewrite ?app_nil_r; set_solver. }
  destruct (He c) as [Hsel Hm]; [set_solver|].
  apply bind_ok in H as (ok & Htext & H). destruct ok; cbn [negb] in H; injection H as <-.
  - assert (Hh : hydratable l texts now c) by by split.
    assert (Hids : forall i, i ∈ map cl_claim_id (hy_claims r) ->
      i ∈ map cl_claim_id (if mem (cl_claim_id c) (map cl_claim_id (hy_claims r)) then hy_claims r else hy_claims r ++ [c])).
    { intros i Hi. destruct (mem _ _); [done|]. rewrite map_app. set_solver. }
    assert (Hc' : cl_claim_id c ∈ map cl_claim_id
      (if mem (cl_claim_id c) (map cl_claim_id (hy_claims r)) then hy_claims r else hy_claims r ++ [c])).
    { destruct (mem _ _) eqn:Em; [by apply mem_spec|]. rewrite map_app. set_solver. }
    split; [split|split; [|split]]; cbn.
    + intros d Hd. destruct (mem (cl_claim_id c) _); [by apply Hc|].
      apply elem_of_app in Hd as [Hd|Hd%list_elem_of_singleton]; [by apply Hc|by subst].
    + intros f Hin. assert (Hcase : f ∈ hy_satisfied r \/ f = fact) by (destruct (mem fact _); set_solver).
      destruct Hcase as [Hold| ->]; [|by exists c].
      destruct (Hf _ Hold) as (d & H1 & H2 & H3). exists d. split; [done|]. split; [done|]. by apply Hids.
    + left. cbn. destruct (mem fact (hy_satisfied r)) eqn:Em; [by apply mem_spec|set_solver].
    + done.
    + intros f [Hs|(o & Ho & Hof)]; [left|right; exists o; split; [|done]]; cbn; [|set_solver].
      destruct (mem fact _); set_solver.
  - split; [split; [exact Hc|exact Hf]|]. split; [|split; [done|]].
    + right. cbn. eexists. split; [apply elem_of_app; right; apply list_elem_of_here|reflexivity].
    + intros f [Hs|(o & Ho & Hof)]; [by left|]. right. exists o. split; [|done]. cbn. set_solver.
Qed.

Lemma hydrate_facts_spec l texts now facts : forall r r',
  hydrate_facts (E := E) sha256_hex policies l texts now facts r = Ok r' ->
  hydration_ok l texts now r ->
  hydration_ok l texts now r' /\ hy_required r' = hy_required r /\
  (forall f, f ∈ facts \/ answered r f -> answered r' f).
Proof.
  induction facts as [|x facts IH]; intros r r'; cbn [hydrate_facts].
  - intros [= <-] Hr. split; [done|]. split; [done|]. intros f [[]%not_elem_of_nil|?]; done.
  - intros H Hr. apply bind_ok in H as (r1 & H1 & H).
    destruct (hydrate_fact_spec _ _ _ _ _ _ H1 Hr) as (Hr1 & Ha & <- & Hmono).
    destruct (IH _ _ H Hr1) as (H2 & H3 & H4). split; [done|]. split; [done|].
    intros f [[->|Hin]%elem_of_cons|Hf]; apply H4; auto.
Qed.

Lemma hydrate_selected_spec texts cs : forall kept omitted,
  hydrate_selected (E := E) sha256_hex texts cs = Ok (kept, omitted) ->
  forall c, c ∈ kept -> c ∈ cs /\ text_matches (E := E) sha256_hex texts c = Ok true.
Proof.
  induction cs as [|x cs IH]; intros kept omitted; cbn [hydrate_selected].
  - by intros [= <- _] c H%not_elem_of_nil.
  - intros H. apply bind_ok in H as (ok & Hx & H). apply bind_ok in H as ([k o] & Hr & H).
    specialize (IH _ _ Hr). destruct ok; injection H as <- _; intros c.
    + intros [->|Hc]%elem_of_cons; [set_solver|]. destruct (IH _ Hc). set_solver.
    + intros Hc. destruct (IH _ Hc). set_solver.
Qed.

(** C36: what [hydrate] hands out is current, active or verified, fresh, and its text hashes to the
    stored hash; every fact it calls satisfied is in the text of such a claim among those handed out;
    every other required fact has an omission that names it, and then the result is blocked. *)
Theorem hydrate_sound l required texts now r :
  hydrate (E := E) sha256_hex policies l required texts now = Ok r ->
  (forall c, c ∈ hy_claims r -> hydratable l texts now c) /\
  (forall f, f ∈ hy_satisfied r -> satisfied_by l texts now r f) /\
  (forall f, f ∈ required -> strip f <> "" ->
     f ∈ hy_satisfied r \/
     (hydration_blocked r = true /\ exists o, o ∈ hy_omissions r /\ ho_required_fact o = Some f)).
Proof.
  unfold hydrate. set (facts := List.filter _ required). intros H.
  assert (Hfacts : forall f, f ∈ required -> strip f <> "" -> f ∈ facts).
  { intros f Hf Hne. apply elem_of_lfilter. split; [done|]. by apply negb_true_iff, String.eqb_neq. }
  destruct facts as [|x fs] eqn:Ef.
  - apply bind_ok in H as (cs & Hsel & H). apply bind_ok in H as ([kept omitted] & Hk & [= <-]). cbn.
    split; [|split].
    + intros c Hc. apply (hydrate_selected_spec _ _ _ _ Hk) in Hc as [Hc Ht]. split; [|done].
      unfold select_active in Hsel. apply bind_ok in Hsel as (cand & Hkeep & [= <-]).
      destruct select_order as [St Sr]. pose proof (sort_by_sorted select_le St Sr cand) as Hs.
      apply (first_per_subject_spec _ _ _ Hs) in Hc as [Hc _].
      rewrite elem_of_sort_by, (keep_fresh_spec _ _ _ Hkeep), elem_of_lfilter in Hc.
      destruct Hc as [[Hc Hst] Hfr]. cbn in Hst. apply bool_decide_eq_true in Hst. by repeat split.
    + by intros f Hf%not_elem_of_nil.
    + intros f Hf Hne. by apply (Hfacts f Hf), not_elem_of_nil in Hne.
  - apply hydrate_facts_spec in H as ([H1 H2] & Hreq & H3).
    + split; [done|]. split; [done|]. intros f Hf Hne. specialize (Hfacts f Hf Hne).
      destruct (H3 f (or_introl Hfacts)) as [?|Ho]; [by left|].
      destruct (decide (f ∈ hy_satisfied r)) as [|Hn]; [by left|]. right. split; [|done].
      unfold hydration_blocked. apply existsb_exists. exists f. rewrite Hreq. split; [by apply list_elem_of_In|].
      by apply negb_true_iff, mem_false.
    + by split; cbn; intros ? ?%not_elem_of_nil.
Qed.
End claims.

(** * A small ledger

    The digest of the examples is a constant. *)
Module LedgerSample.
Definition zeros : string := "0000000000000000000000000000000000000000000000000000000000000000".
Definition digest (_ : string) : string := zeros.
Definition uuid (n : nat) : string := match n with 0%nat => "a0" | 1%nat => "a1" | 2%nat => "a2" | _ => "a3" end.
Definition time (n : nat) : string := "1.5".
#[export] Instance sink : ReceiptSink StoreSink receipt_exn := receipt_sink digest uuid time.

Definition now : Z := 63000000000000000.
Definition policies : list (string * FreshnessPolicy) :=
  [("repo", {| fp_source_type := "repo"; fp_ttl := Some (JInt 3600); fp_skew := JInt 5 |})].

Definition claim_of (i subject text : string) (st : ClaimStatus) (old : option string) : Claim :=
  {| cl_claim_id := i; cl_subject := subject; cl_text_hash := "sha256:" +:+ zeros; cl_status := st;
     cl_observed_at := now; cl_verified_at := None; cl_confidence := JFloat "0.5";
     cl_source_refs := [{| sr_source_id := "ci"; sr_digest := "sha256:" +:+ zeros |}];
     cl_evidence_refs := []; cl_supersedes := old; cl_source_type := "repo"; cl_text := Some text |}.

Definition c1 : Claim := claim_of "c-1" "build" "the build is green" Active None.
Definition c2 : Claim := claim_of "c-2" "build" "the build is red" Active (Some "c-1").
Definition c3 : Claim := claim_of "c-3" "docs" "the build is documented" Active None.

Abbreviation state := (State (S := StoreSink)).
Definition add1 (c : Claim) (uuid : string) (s : state) := add (K := sink) digest "team" c uuid now s.
Definition dispute (i uuid : string) (s : state) :=
  transition (K := sink) digest "team" i "disputed" "seen red" None None uuid now s.

Definition s0 : state := fresh_state (Some {| ss_rows := []; ss_draws := 0 |}).
Definition s1 : state := Eval vm_compute in (add1 c1 "u1" s0).1.
Definition s2 : state := Eval vm_compute in (add1 c2 "u2" s1).1.
Definition s3 : state := Eval vm_compute in (add1 c3 "u3" s2).1.
(** With the first claim disputed, and a third one that holds the same words *)
Definition d2 : state := Eval vm_compute in (dispute "c-1" "u2" s1).1.
Definition d3 : state := Eval vm_compute in (add1 c3 "u3" d2).1.

Lemma calls :
  ledger_step (K := sink) digest "team" s0 s1 /\ ledger_step (K := sink) digest "team" s1 s2 /\
  ledger_step (K := sink) digest "team" s2 s3.
Proof.
  split; [|split].
  - eapply (step_add _ _ _ _ c1 "u1" now). vm_compute. reflexivity.
  - eapply (step_add _ _ _ _ c2 "u2" now). vm_compute. reflexivity.
  - eapply (step_add _ _ _ _ c3 "u3" now). vm_compute. reflexivity.
Qed.
End LedgerSample.

(** * The claims at the sample *)

Lemma history_explains_status_witness :
  cl_claim_id LedgerSample.c1 = "c-1" /\
  (exists from, path from (history "c-1" (st_ledger LedgerSample.s2)) Superseded) /\
  length (lg_transitions (st_ledger LedgerSample.s2)) = 1%nat.
Proof.
  destruct LedgerSample.calls as (H1 & H2 & _).
  destruct (history_explains_status (K := LedgerSample.sink) LedgerSample.digest "team"
    (Some {| ss_rows := []; ss_draws := 0 |}) LedgerSample.s2 "c-1" (with_status LedgerSample.c1 Superseded)) as (Hi & Hp & _).
  - exact (rtc_l _ _ _ _ H1 (rtc_once _ _ H2)).
  - vm_compute. reflexivity.
  - split; [exact Hi|]. split; [exact Hp|]. vm_compute. reflexivity.
Defined.

Lemma supersession_is_final_witness :
  dict_get "c-1" (lg_claims (st_ledger LedgerSample.s3)) = Some (with_status LedgerSample.c1 Superseded) /\
  length (history "c-1" (st_ledger LedgerSample.s3)) = 1%nat.
Proof.
  destruct LedgerSample.calls as (_ & _ & H3).
  destruct (supersession_is_final (K := LedgerSample.sink) LedgerSample.digest "team"
    LedgerSample.s2 LedgerSample.s3 "c-1" (with_status LedgerSample.c1 Superseded)) as (Hc & Hh).
  - exact (rtc_once _ _ H3).
  - vm_compute. reflexivity.
  - reflexivity.
  - split; [exact Hc|]. rewrite Hh. vm_compute. reflexivity.
Defined.

Lemma select_active_exact_witness :
  select_active (E := receipt_exn) LedgerSample.policies (st_ledger LedgerSample.s3) None LedgerSample.now false
    = Ok [LedgerSample.c2; LedgerSample.c3] /\
  base.NoDup (map cl_subject [LedgerSample.c2; LedgerSample.c3]).
Proof.
  assert (H : select_active (E := receipt_exn) LedgerSample.policies (st_ledger LedgerSample.s3) None LedgerSample.now false
    = Ok [LedgerSample.c2; LedgerSample.c3]) by (vm_compute; reflexivity).
  split; [exact H|]. exact (proj1 (select_active_exact LedgerSample.digest LedgerSample.policies "team" _ _ _ _ _ H)).
Defined.

Lemma hydrate_sound_witness :
  exists r, hydrate (E := receipt_exn) LedgerSample.digest LedgerSample.policies (st_ledger LedgerSample.s3)
    ["build is documented"; "green"] [] LedgerSample.now = Ok r /\
  satisfied_by (E := receipt_exn) LedgerSample.digest LedgerSample.policies (st_ledger LedgerSample.s3) []
    LedgerSample.now r "build is documented" /\
  hydration_blocked r = true.
Proof.
  eexists. split; [vm_compute; reflexivity|].
  match goal with |- satisfied_by _ _ _ _ _ ?r _ /\ _ =>
    destruct (hydrate_sound (E := receipt_exn) LedgerSample.digest LedgerSample.policies "team" (st_ledger LedgerSample.s3)
      ["build is documented"; "green"] [] LedgerSample.now r) as (_ & Hsat & Hall); [vm_compute; reflexivity|] end.
  split.
  - apply Hsat. cbn [hy_satisfied]. apply list_elem_of_here.
  - destruct (Hall "green") as [H|[H _]]; [apply list_elem_of_further, list_elem_of_here|discriminate| |exact H].
    cbn [hy_satisfied] in H. apply list_elem_of_singleton in H. discriminate.
Defined.

(** * What the ledger does beside its contract *)

(** A required fact that a disputed claim holds is satisfied all the same when another claim, current
    and fresh, holds it too: the dispute is an omission of the result, which is not blocked. *)
Theorem dispute_does_not_block :
  exists r, hydrate (E := receipt_exn) LedgerSample.digest LedgerSample.policies (st_ledger LedgerSample.d3)
    ["the build is"] [] LedgerSample.now = Ok r /\
  hy_satisfied r = ["the build is"] /\ hydration_blocked r = false /\
  map ho_reason (hy_omissions r) = ["disputed_claim"].
Proof. eexists. split; [vm_compute; reflexivity|]. repeat split. Qed.

(** A claim that [add] refuses, as its predecessor is disputed and cannot be superseded, is gone from
    the ledger and not from the store: the ledger rebuilt from the store holds it, as an active claim. *)
Theorem refused_claim_is_rebuilt :
  exists s e l, LedgerSample.add1 LedgerSample.c2 "u3" LedgerSample.d2 = (s, Err e) /\
  st_ledger s = st_ledger LedgerSample.d2 /\ dict_get "c-2" (lg_claims (st_ledger s)) = None /\
  (exists store, st_store s = Some store /\
     from_receipt_store (K := LedgerSample.sink) LedgerSample.digest "team" store = Ok l) /\
  cl_status <$> dict_get "c-2" (lg_claims l) = Some Active.
Proof.
  do 3 eexists. split; [vm_compute; reflexivity|]. split; [reflexivity|]. split; [reflexivity|]. split.
  - eexists. split; [reflexivity|]. vm_compute. reflexivity.
  - vm_compute. reflexivity.
Qed.
