(* ===== verification/ClaimsCodec.v ===== *)
(** What the claims ledger persists and how it is read back: the dictionary of a claim without its
    text and of a transition with the hash of its reason, for values that passed the constructors'
    checks. *)
From Stdlib Require Import Ascii.
From S2P Require Import Prelude PyStr PyNum Regex Time Json JsonDict Passports Ladder Redaction ReceiptStore ReceiptChain ReceiptTheorems ClaimsModels ClaimsLedger ClaimsTheorems.

(** * Reading back what was written *)

Section codec.
Context {E : Type} (sha256_hex : string -> string).
#[local] Abbreviation exn := (claims_exn E).

Definition source_ok (r : SourceReference) : Prop :=
  good_identifier (sr_source_id r) = true /\ is_sha256 (sr_digest r) = true.
Definition evidence_ok (r : EvidenceReference) : Prop :=
  good_identifier (er_evidence_id r) = true /\ is_sha256 (er_digest r) = true.

(** What the constructor checks of a claim *)
Record claim_ok (c : Claim) : Prop := {
  co_id : good_identifier (cl_claim_id c) = true;
  co_subject : good_identifier (cl_subject c) = true;
  co_hash : is_sha256 (cl_text_hash c) = true;
  co_observed : in_years (cl_observed_at c) = true;
  co_verified : match cl_verified_at c with
                | Some t => in_years t = true /\ cl_observed_at c <= t
                | None => True
                end;
  co_confidence : check_confidence (E := E) (cl_confidence c) = Ok (cl_confidence c);
  co_source : good_identifier (cl_source_type c) = true;
  co_supersedes : match cl_supersedes c with Some i => good_identifier i = true | None => True end;
  co_sources : Forall source_ok (cl_source_refs c);
  co_evidence : Forall evidence_ok (cl_evidence_refs c);
  co_refs : cl_source_refs c <> [] \/ cl_evidence_refs c <> []
}.

(** A claim as it is persisted: without its text *)
Definition without_text (c : Claim) : Claim :=
  {| cl_claim_id := cl_claim_id c; cl_subject := cl_subject c; cl_text_hash := cl_text_hash c;
     cl_status := cl_status c; cl_observed_at := cl_observed_at c; cl_verified_at := cl_verified_at c;
     cl_confidence := cl_confidence c; cl_source_refs := cl_source_refs c;
     cl_evidence_refs := cl_evidence_refs c; cl_supersedes := cl_supersedes c;
     cl_source_type := cl_source_type c; cl_text := None |}.

Lemma claim_status_roundtrip s : claim_status_of (claim_status_value s) = Some s.
Proof. by destruct s. Qed.

Lemma identifier_ok s name : good_identifier s = true -> identifier (E := E) (JStr s) name = Ok s.
Proof.
  unfold identifier, good_identifier. intros [H1 H2]%andb_true_iff. apply negb_true_iff in H2. by rewrite H1, H2.
Qed.

Lemma reference_id_ok s name : good_identifier s = true -> reference_id (E := E) (JStr s) name = Ok s.
Proof.
  unfold reference_id, good_identifier. intros [H1 H2]%andb_true_iff. apply negb_true_iff in H2. by rewrite H1, H2.
Qed.

Lemma timestamp_ok t name : in_years t = true -> timestamp (E := E) (TValue (JStr (format_datetime t))) name = Ok t.
Proof.
  intros H. unfold timestamp, format_datetime.
  rewrite zulu_iso, fromisoformat_iso by by apply in_years_spec. unfold aware_instant. cbn [dt_off utc].
  assert (instant (utc t) = t) as -> by (unfold instant, utc; cbn; lia). by rewrite H.
Qed.

Lemma references_ok {A} (f : list (string * json) -> result exn A) (g : A -> json) l :
  Forall (fun x => exists ms, g x = JObj ms /\ f ms = Ok x) l -> references f (map g l) = Ok l.
Proof.
  intros H. apply map_result_ok. induction H as [|x l (ms & Hg & Hf) _ IH]; cbn [map]; constructor; [by rewrite Hg|done].
Qed.

Lemma source_ref_roundtrip r : source_ok r -> exists ms, source_to_dict r = JObj ms /\ source_reference (E := E) ms = Ok r.
Proof.
  intros [Hi Hd].
  exists [("digest", JStr (sr_digest r)); ("source_id", JStr (sr_source_id r)); ("status", JStr "verified")].
  split; [reflexivity|]. unfold source_reference. cbn -[reference_id].
  rewrite reference_id_ok by done. cbn. rewrite Hd. by destruct r.
Qed.

Lemma evidence_ref_roundtrip r : evidence_ok r -> exists ms, evidence_to_dict r = JObj ms /\ evidence_reference (E := E) ms = Ok r.
Proof.
  intros [Hi Hd].
  exists [("digest", JStr (er_digest r)); ("evidence_id", JStr (er_evidence_id r)); ("status", JStr "verified")].
  split; [reflexivity|]. unfold evidence_reference. cbn -[reference_id].
  rewrite reference_id_ok by done. cbn. rewrite Hd. by destruct r.
Qed.

Lemma obj_of_keys (ms : list (string * json)) k : k ∈ map fst (obj_of ms) <-> k ∈ map fst ms.
Proof.
  unfold obj_of. enough (G : forall (ms acc : list (string * json)), k ∈ map fst (foldl (fun acc '(k, v) => obj_set k v acc) acc ms) <->
    k ∈ map fst ms \/ k ∈ map fst acc).
  { rewrite (G ms []). cbn. set_solver. }
  clear ms. induction ms as [|[k' v] ms IH]; intros acc; cbn; [set_solver|].
  rewrite IH, obj_set_keys. set_solver.
Qed.

Lemma not_null_jopt {A} (f : A -> json) (o : option A) :
  (forall x, f x <> JNull) -> not_null (jopt f o) = f <$> o.
Proof. intros H. destruct o as [x|]; cbn; [|done]. specialize (H x). by destruct (f x). Qed.

Lemma make_claim_ok c :
  claim_ok c ->
  make_claim (E := E) sha256_hex
    {| ca_claim_id := JStr (cl_claim_id c); ca_subject := JStr (cl_subject c);
       ca_text_hash := JStr (cl_text_hash c); ca_status := JStr (claim_status_value (cl_status c));
       ca_observed_at := TValue (JStr (format_datetime (cl_observed_at c)));
       ca_verified_at := (fun t => TValue (JStr (format_datetime t))) <$> cl_verified_at c;
       ca_confidence := cl_confidence c; ca_source_refs := cl_source_refs c;
       ca_evidence_refs := cl_evidence_refs c; ca_supersedes := JStr <$> cl_supersedes c;
       ca_source_type := JStr (cl_source_type c); ca_text := None |}
  = Ok (without_text c).
Proof.
  intros [Hi Hs Hh Ho Hv Hc Ht Hp _ _ Hr]. unfold make_claim. cbn [ca_claim_id ca_subject ca_text_hash
    ca_status ca_observed_at ca_verified_at ca_confidence ca_source_refs ca_evidence_refs ca_supersedes
    ca_source_type ca_text].
  rewrite !identifier_ok by done. unfold digest. rewrite Hh, claim_status_roundtrip.
  cbn [mbind result_mbind result_bind]. rewrite timestamp_ok by done. cbn [mbind result_mbind result_bind].
  assert (optional (fun v => t ← timestamp (E := E) v "verified_at";
      if t <? cl_observed_at c then Err (ClaimsLedgerError "verified_at must not precede observed_at") else Ok t)
    ((fun t => TValue (JStr (format_datetime t))) <$> cl_verified_at c) = Ok (cl_verified_at c)) as ->.
  { destruct (cl_verified_at c) as [t|]; [|done]. destruct Hv as [Hv1 Hv2]. cbn -[format_datetime timestamp].
    rewrite timestamp_ok by done. cbn. by rewrite (proj2 (Z.ltb_ge t (cl_observed_at c))). }
  cbn [mbind result_mbind result_bind]. rewrite Hc. cbn [mbind result_mbind result_bind].
  assert (optional (fun v => identifier (E := E) v "supersedes") (JStr <$> cl_supersedes c) = Ok (cl_supersedes c)) as ->.
  { destruct (cl_supersedes c); [|done]. cbn -[identifier]. by rewrite identifier_ok. }
  cbn [mbind result_mbind result_bind].
  assert (match cl_source_refs c, cl_evidence_refs c with [], [] => true | _, _ => false end = false) as ->.
  { destruct (cl_source_refs c), (cl_evidence_refs c); try done. naive_solver. }
  done.
Qed.

Lemma claim_roundtrip c : claim_ok c -> claim_from_dict (E := E) sha256_hex (claim_to_dict c) = Ok (without_text c).
Proof.
  intros Hc. unfold claim_to_dict, obj, claim_from_dict. remember (obj_of _) as ms eqn:Hms.
  assert (Hkeys : forall k, k ∈ map fst ms <-> k ∈ CLAIM_FIELDS \/ (k = "supersedes" /\ cl_supersedes c <> None)).
  { intros k. rewrite Hms, obj_of_keys, map_app, elem_of_app. apply or_iff_compat_l.
    destruct (cl_supersedes c); cbn; set_solver. }
  assert (forallb (fun k => mem k (CLAIM_FIELDS ++ ["supersedes"])) (map fst ms) = true) as ->.
  { apply forallb_forall. intros k Hk. apply list_elem_of_In, Hkeys in Hk. apply mem_spec, elem_of_app.
    destruct Hk as [?|[-> _]]; [by left|right; set_solver]. }
  assert (forallb (fun k => mem k (map fst ms)) CLAIM_FIELDS = true) as ->.
  { apply forallb_forall. intros k Hk. apply list_elem_of_In in Hk. apply mem_spec, Hkeys. by left. }
  cbn [negb raise_if mbind result_mbind result_bind].
  assert (G : forall k v, dict_get k ms = Some v -> default JNull (dict_get k ms) = v) by by intros k v ->.
  rewrite (G "schema_version" (JStr CLAIMS_LEDGER_SCHEMA_VERSION)) by solve_member.
  rewrite (G "source_refs" (JList (map source_to_dict (cl_source_refs c)))) by solve_member.
  rewrite (G "evidence_refs" (JList (map evidence_to_dict (cl_evidence_refs c)))) by solve_member.
  rewrite (G "claim_id" (JStr (cl_claim_id c))) by solve_member.
  rewrite (G "subject" (JStr (cl_subject c))) by solve_member.
  rewrite (G "text_hash" (JStr (cl_text_hash c))) by solve_member.
  rewrite (G "status" (JStr (claim_status_value (cl_status c)))) by solve_member.
  rewrite (G "observed_at" (JStr (format_datetime (cl_observed_at c)))) by solve_member.
  rewrite (G "verified_at" (jopt (fun t => JStr (format_datetime t)) (cl_verified_at c))) by solve_member.
  rewrite (G "confidence" (cl_confidence c)) by solve_member.
  rewrite (G "source_type" (JStr (cl_source_type c))) by solve_member.
  assert (Hsup : dict_get "supersedes" ms = JStr <$> cl_supersedes c) by solve_member.
  rewrite Hsup, not_null_jopt by done.
  assert (not_null (default JNull (JStr <$> cl_supersedes c)) = JStr <$> cl_supersedes c) as ->
    by by destruct (cl_supersedes c).
  rewrite (references_ok source_reference source_to_dict); cycle 1.
  { eapply Forall_impl; [apply Hc|]. intros r Hr. by apply source_ref_roundtrip. }
  cbn [mbind result_mbind result_bind].
  rewrite (references_ok evidence_reference evidence_to_dict); cycle 1.
  { eapply Forall_impl; [apply Hc|]. intros r Hr. by apply evidence_ref_roundtrip. }
  cbn [mbind result_mbind result_bind].
  assert (TValue <$> ((fun t => JStr (format_datetime t)) <$> cl_verified_at c)
    = (fun t => TValue (JStr (format_datetime t))) <$> cl_verified_at c) as -> by by destruct (cl_verified_at c).
  change (String.eqb _ _) with true. cbn [negb raise_if mbind result_mbind result_bind].
  by rewrite make_claim_ok.
Qed.
End codec.

Section transitions.
Context {E : Type} (sha256_hex : string -> string).

(** What the constructor checks of a transition *)
Record transition_ok (t : ClaimTransition) : Prop := {
  to_id : good_identifier (ct_transition_id t) = true;
  to_claim : good_identifier (ct_claim_id t) = true;
  to_years : in_years (ct_occurred_at t) = true;
  to_reason : strip (ct_reason t) <> "";
  to_by : match ct_superseded_by t with Some i => good_identifier i = true | None => True end
}.

Definition reason_hash (t : ClaimTransition) : string := "sha256:" +:+ take_str 64 (sha256_hex (ct_reason t)).

Definition with_reason (r : string) (t : ClaimTransition) : ClaimTransition :=
  {| ct_transition_id := ct_transition_id t; ct_claim_id := ct_claim_id t; ct_from := ct_from t;
     ct_to := ct_to t; ct_occurred_at := ct_occurred_at t; ct_reason := r;
     ct_superseded_by := ct_superseded_by t |}.

(** A transition as it is persisted: the hash of its reason in place of the reason *)
Definition with_hashed_reason (t : ClaimTransition) : ClaimTransition := with_reason (reason_hash t) t.

Lemma reason_hash_filled t : strip (reason_hash t) <> "".
Proof.
  unfold reason_hash. generalize (take_str 64 (sha256_hex (ct_reason t))). intros x.
  assert (H : forall s, rstrip_by is_space (String "s" s) <> "").
  { intros s. cbn [rstrip_by]. destruct (rstrip_by is_space s); done. }
  exact (H ("ha256:" +:+ x)).
Qed.

Lemma timestamp_in_years v name x : timestamp (E := E) v name = Ok x -> in_years x = true.
Proof.
  assert (A : forall d, aware_instant (E := E) d name = Ok x -> in_years x = true).
  { intros d. unfold aware_instant. destruct (dt_off d); [|done].
    destruct (in_years (instant d)) eqn:Ey; [|done]. by intros [= <-]. }
  destruct v as [d|[| | | |s| |]]; cbn; try done; [apply A|].
  destruct (fromisoformat _) as [d|]; [apply A|done].
Qed.

Lemma transition_wf i c from to at_ reason by_ t :
  make_transition (E := E) (JStr i) (JStr c) (Some from) (Some to) at_ (JStr reason) (JStr <$> by_) = Ok t ->
  (forall name x, timestamp (E := E) at_ name = Ok x -> in_years x = true) -> transition_ok t.
Proof.
  unfold make_transition. intros H Hy.
  apply bind_ok in H as (i' & Hi & H). apply bind_ok in H as (c' & Hc & H).
  apply bind_ok in H as (x & Hx & H). apply bind_ok in H as (r & Hr & H).
  apply bind_ok in H as (o & Ho & [= <-]).
  apply identifier_inv in Hi as [-> Hi], Hc as [-> Hc].
  split; cbn; try done.
  - by eapply Hy.
  - destruct (String.eqb_spec (strip reason) ""); [done|]. by injection Hr as <-.
  - destruct by_ as [b|]; cbn -[identifier] in Ho; [|by injection Ho as <-].
    apply bind_ok in Ho as (b' & Hb & [= <-]). by apply identifier_inv in Hb as [-> Hb].
Qed.

Lemma reason_roundtrip t r :
  transition_ok t -> strip r <> "" ->
  exists ms, transition_to_dict t r = JObj ms /\ read_transition (E := E) ms = Ok (with_reason r t).
Proof.
  intros [Hi Hc Hy _ Hb] Hr. eexists. split; [reflexivity|]. unfold read_transition.
  remember (obj_of _) as ms eqn:Hms.
  assert (M : forall k v, dict_get k ms = Some v -> member (E := E) k ms = Ok v).
  { intros k v. unfold member. by intros ->. }
  unfold status_member.
  rewrite (M "transition_id" (JStr (ct_transition_id t))) by solve_member.
  rewrite (M "claim_id" (JStr (ct_claim_id t))) by solve_member.
  rewrite (M "from_status" (JStr (claim_status_value (ct_from t)))) by solve_member.
  rewrite (M "to_status" (JStr (claim_status_value (ct_to t)))) by solve_member.
  rewrite (M "occurred_at" (JStr (format_datetime (ct_occurred_at t)))) by solve_member.
  rewrite (M "reason" (JStr r)) by solve_member.
  assert (dict_get "superseded_by" ms = JStr <$> ct_superseded_by t) as -> by solve_member.
  cbn [mbind result_mbind result_bind]. rewrite !claim_status_roundtrip.
  assert (match JStr <$> ct_superseded_by t with Some v => not_null v | None => None end
          = JStr <$> ct_superseded_by t) as -> by by destruct (ct_superseded_by t).
  unfold make_transition. rewrite !identifier_ok by done. cbn [mbind result_mbind result_bind].
  rewrite timestamp_ok by done. cbn [mbind result_mbind result_bind].
  rewrite (proj2 (String.eqb_neq _ _)) by done. cbn [mbind result_mbind result_bind].
  assert (optional (fun v => identifier (E := E) v "superseded_by") (JStr <$> ct_superseded_by t)
          = Ok (ct_superseded_by t)) as ->.
  { destruct (ct_superseded_by t); [|done]. cbn -[identifier]. by rewrite identifier_ok. }
  done.
Qed.

Lemma transition_roundtrip t :
  transition_ok t ->
  exists ms, transition_to_dict t (reason_hash t) = JObj ms /\
    read_transition (E := E) ms = Ok (with_hashed_reason t).
Proof. intros Ht. apply reason_roundtrip; [done|apply reason_hash_filled]. Qed.
End transitions.
