(* ===== verification/ClaimsExport.v ===== *)
(** The exported claims ledger: [to_dict] and [from_dict] of [verdict/claims_ledger.py], and that an
    export read back is the ledger that was exported. *)
From Stdlib Require Import Ascii.
From S2P Require Import Prelude PyStr PyNum Regex Time Json JsonDict Passports Ladder ReceiptStore ReceiptChain ClaimsModels ClaimsLedger ClaimsTheorems ClaimsCodec.

(** * Operations *)

Definition policy_to_dict (p : FreshnessPolicy) : json :=
  obj [("source_type", JStr (fp_source_type p)); ("ttl_seconds", default JNull (fp_ttl p));
       ("clock_skew_seconds", fp_skew p)].

Definition sorted_policies (policies : list (string * FreshnessPolicy)) : list FreshnessPolicy :=
  sort_by (fun a b => str_leb (fp_source_type a) (fp_source_type b)) (map snd policies).

(** [to_dict] *)
Definition ledger_to_dict (policies : list (string * FreshnessPolicy)) (l : Ledger) : json :=
  obj [("schema_version", JStr CLAIMS_LEDGER_SCHEMA_VERSION);
       ("claims", JList (map claim_to_dict (query l None None true)));
       ("transitions", JList (map (fun t => transition_to_dict t (ct_reason t)) (lg_transitions l)));
       ("freshness_policies", JList (map policy_to_dict (sorted_policies policies)))].

(** [replace(claim, text=text)]: what the constructor checks holds already. *)
Definition with_text (o : option string) (c : Claim) : Claim :=
  {| cl_claim_id := cl_claim_id c; cl_subject := cl_subject c; cl_text_hash := cl_text_hash c;
     cl_status := cl_status c; cl_observed_at := cl_observed_at c; cl_verified_at := cl_verified_at c;
     cl_confidence := cl_confidence c; cl_source_refs := cl_source_refs c;
     cl_evidence_refs := cl_evidence_refs c; cl_supersedes := cl_supersedes c;
     cl_source_type := cl_source_type c; cl_text := o |}.

Section reading.
Context {E : Type} (sha256_hex : string -> string).
#[local] Abbreviation exn := (claims_exn E).

Fixpoint read_policies (items : list json) (policies : list (string * FreshnessPolicy))
    : result exn (list (string * FreshnessPolicy)) :=
  match items with
  | [] => Ok policies
  | JObj ms :: items =>
      source ← member "source_type" ms;
      ttl ← member "ttl_seconds" ms;
      skew ← member "clock_skew_seconds" ms;
      p ← freshness_policy source (not_null ttl) skew;
      read_policies items (dict_set (fp_source_type p) p policies)
  | _ => Err (ClaimsLedgerError "freshness policy must be an object")
  end.

Fixpoint read_claims (texts : list (string * string)) (items : list json)
    (claims : list (string * Claim)) : result exn (list (string * Claim)) :=
  match items with
  | [] => Ok claims
  | item :: items =>
      c ← claim_from_dict sha256_hex item;
      c ← match dict_get (cl_claim_id c) texts with
          | None => Ok c
          | Some text =>
              h ← claim_hash sha256_hex text;
              if String.eqb h (cl_text_hash c) then Ok (with_text (Some text) c)
              else Err (ClaimsLedgerError "claim text does not match persisted text_hash")
          end;
      read_claims texts items (dict_set (cl_claim_id c) c claims)
  end.

Fixpoint read_transitions (items : list json) : result exn (list ClaimTransition) :=
  match items with
  | [] => Ok []
  | JObj ms :: items => t ← read_transition ms; ts ← read_transitions items; Ok (t :: ts)
  | _ => Err (ClaimsLedgerError "claim transition must be an object")
  end.

(** [from_dict]: the policies and the ledger, which has no receipt store *)
Definition ledger_from_dict (texts : list (string * string)) (value : json)
    : result exn (list (string * FreshnessPolicy) * Ledger) :=
  match value with
  | JObj ms =>
      if negb (py_eq (default JNull (dict_get "schema_version" ms)) (JStr CLAIMS_LEDGER_SCHEMA_VERSION))
      then Err (ClaimsLedgerError "unsupported claims ledger artifact")
      else
        match dict_get "claims" ms, dict_get "transitions" ms, dict_get "freshness_policies" ms with
        | Some (JList claims), Some (JList transitions), Some (JList policies) =>
            policies ← read_policies policies [];
            _ ← check_policies policies;
            claims ← read_claims texts claims [];
            transitions ← read_transitions transitions;
            Ok (policies, {| lg_claims := claims; lg_transitions := transitions; lg_receipt_ids := [] |})
        | _, _, _ => Err (ClaimsLedgerError "claims ledger artifact has malformed collections")
        end
  | _ => Err (ClaimsLedgerError "unsupported claims ledger artifact")
  end.
End reading.

(** * Dictionaries built item by item *)

Lemma dict_set_fresh {V} k (v : V) d : k ∉ map fst d -> dict_set k v d = d ++ [(k, v)].
Proof.
  induction d as [|[j x] d IH]; cbn [map fst dict_set]; [done|]. intros [Hne Hd]%not_elem_of_cons.
  rewrite (proj2 (String.eqb_neq k j)) by done. cbn. by rewrite IH.
Qed.

Lemma dict_set_fst {V} k (v : V) d :
  map fst (dict_set k v d) = if decide (k ∈ map fst d) then map fst d else map fst d ++ [k].
Proof.
  induction d as [|[j x] d IH]; cbn [map fst dict_set].
  - rewrite decide_False by apply not_elem_of_nil. done.
  - destruct (String.eqb_spec k j) as [->|Hne]; cbn [map fst].
    + by rewrite decide_True by apply list_elem_of_here.
    + rewrite IH. destruct (decide (k ∈ map fst d)) as [Hin|Hn].
      * rewrite decide_True; [done|]. by apply list_elem_of_further.
      * rewrite decide_False; [done|]. by apply not_elem_of_cons.
Qed.

Lemma dict_set_nodup {V} k (v : V) d : base.NoDup (map fst d) -> base.NoDup (map fst (dict_set k v d)).
Proof.
  intros H. rewrite dict_set_fst. destruct (decide _) as [|Hn]; [done|]. apply NoDup_app. split; [done|].
  split; [intros x Hx ->%list_elem_of_singleton; done|apply NoDup_singleton].
Qed.

Section codec.
Context {E : Type} (sha256_hex : string -> string).
#[local] Abbreviation exn := (claims_exn E).

(** A policy that the constructor accepts *)
Definition policy_ok (p : FreshnessPolicy) : Prop :=
  freshness_policy (E := E) (JStr (fp_source_type p)) (fp_ttl p) (fp_skew p) = Ok p /\ fp_ttl p <> Some JNull.

Lemma read_policies_back ps : forall acc,
  Forall policy_ok ps -> base.NoDup (map fst acc ++ map fp_source_type ps) ->
  read_policies (E := E) (map policy_to_dict ps) acc = Ok (acc ++ map (fun p => (fp_source_type p, p)) ps).
Proof.
  induction ps as [|p ps IH]; intros acc Hok Hnd; cbn [map read_policies].
  - by rewrite app_nil_r.
  - apply Forall_cons in Hok as [[Hp Hn] Hok]. unfold policy_to_dict at 1, obj.
    assert (member (E := E) "source_type" (obj_of [("source_type", JStr (fp_source_type p)); ("ttl_seconds", default JNull (fp_ttl p));
       ("clock_skew_seconds", fp_skew p)]) = Ok (JStr (fp_source_type p))) as -> by reflexivity.
    assert (member (E := E) "ttl_seconds" (obj_of [("source_type", JStr (fp_source_type p)); ("ttl_seconds", default JNull (fp_ttl p));
       ("clock_skew_seconds", fp_skew p)]) = Ok (default JNull (fp_ttl p))) as -> by reflexivity.
    assert (member (E := E) "clock_skew_seconds" (obj_of [("source_type", JStr (fp_source_type p)); ("ttl_seconds", default JNull (fp_ttl p));
       ("clock_skew_seconds", fp_skew p)]) = Ok (fp_skew p)) as -> by reflexivity.
    cbn [mbind result_mbind result_bind].
    assert (not_null (default JNull (fp_ttl p)) = fp_ttl p) as ->.
    { destruct (fp_ttl p) as [v|]; [|done]. by destruct v. }
    rewrite Hp. cbn [mbind result_mbind result_bind]. cbn [map] in Hnd.
    rewrite dict_set_fresh.
    + rewrite IH; [by rewrite <- app_assoc|done|]. rewrite map_app. cbn [map fst]. by rewrite <- app_assoc.
    + intros Hin. apply NoDup_app in Hnd as (_ & Hd & _). apply (Hd _ Hin). apply list_elem_of_here.
Qed.

Definition texts_match (texts : list (string * string)) (c : Claim) : Prop :=
  match dict_get (cl_claim_id c) texts with
  | Some t => claim_hash (E := E) sha256_hex t = Ok (cl_text_hash c)
  | None => True
  end.

Definition supplied (texts : list (string * string)) (c : Claim) : Claim :=
  with_text (dict_get (cl_claim_id c) texts) c.

Lemma read_claims_back texts cs : forall acc,
  Forall (claim_ok (E := E)) cs -> Forall (texts_match texts) cs ->
  base.NoDup (map fst acc ++ map cl_claim_id cs) ->
  read_claims (E := E) sha256_hex texts (map claim_to_dict cs) acc
  = Ok (acc ++ map (fun c => (cl_claim_id c, supplied texts c)) cs).
Proof.
  induction cs as [|c cs IH]; intros acc Hok Ht Hnd; cbn [map read_claims].
  - by rewrite app_nil_r.
  - apply Forall_cons in Hok as [Hc Hok], Ht as [Hm Ht]. rewrite claim_roundtrip by done.
    cbn [mbind result_mbind result_bind]. change (cl_claim_id (without_text c)) with (cl_claim_id c).
    change (cl_text_hash (without_text c)) with (cl_text_hash c).
    assert (match dict_get (cl_claim_id c) texts with
            | Some text => h ← claim_hash sha256_hex text;
                if String.eqb h (cl_text_hash c) then Ok (with_text (Some text) (without_text c))
                else Err (ClaimsLedgerError "claim text does not match persisted text_hash")
            | None => Ok (without_text c) end = Ok (E := exn) (supplied texts c)) as ->.
    { unfold texts_match in Hm. unfold supplied. destruct (dict_get (cl_claim_id c) texts) as [t|]; [|done].
      rewrite Hm. cbn [mbind result_mbind result_bind]. by rewrite String.eqb_refl. }
    cbn [mbind result_mbind result_bind]. change (cl_claim_id (supplied texts c)) with (cl_claim_id c).
    cbn [map] in Hnd. rewrite dict_set_fresh.
    + rewrite IH; [by rewrite <- app_assoc|done|done|]. rewrite map_app. cbn [map fst]. by rewrite <- app_assoc.
    + intros Hin. apply NoDup_app in Hnd as (_ & Hd & _). apply (Hd _ Hin). apply list_elem_of_here.
Qed.

Lemma read_transitions_back ts :
  Forall transition_ok ts ->
  read_transitions (E := E) (map (fun t => transition_to_dict t (ct_reason t)) ts) = Ok ts.
Proof.
  induction 1 as [|t ts Ht _ IH]; cbn [map read_transitions]; [done|].
  destruct (reason_roundtrip (E := E) t (ct_reason t) Ht) as (ms & -> & ->); [apply Ht|].
  cbn [mbind result_mbind result_bind]. rewrite IH. cbn. by destruct t.
Qed.
End codec.

(** * Exporting and reading back *)

Section export.
Context {S E : Type} {K : ReceiptSink S E}.
Context (sha256_hex : string -> string) (scope : string).

#[local] Abbreviation State := (State (S := S)).

(** What the calls keep of the claims' dictionary and of the history *)
Record kept (l : Ledger) : Prop := {
  ke_keys : base.NoDup (map fst (lg_claims l));
  ke_history : Forall transition_ok (lg_transitions l)
}.

Lemma transition_kept i to reason at_ by_ uuid now (s s' : State) res :
  transition (K := K) sha256_hex scope i to reason at_ by_ uuid now s = (s', res) ->
  kept (st_ledger s) -> kept (st_ledger s').
Proof.
  intros H [Hk Hh]. apply transition_cases in H. destruct res as [x|e]; [|by subst].
  destruct H as (cur & st & t & s1 & _ & _ & _ & _ & _ & _ & _ & _ & Hmake & _ & _ & ->). split; cbn.
  - by apply dict_set_nodup.
  - apply Forall_app. split; [done|]. apply Forall_singleton.
    eapply (transition_wf (E := E)); [exact Hmake|]. intros name y. apply timestamp_in_years.
Qed.

Lemma step_kept s s' :
  ledger_step (K := K) sha256_hex scope s s' -> kept (st_ledger s) -> kept (st_ledger s').
Proof.
  intros [c uuid now res H|i to reason at_ by_ uuid now res H] Hk; [|by eapply transition_kept].
  apply add_cases in H. destruct res as [c'|e]; [|by rewrite H].
  destruct H as [[-> _]|(Hn & -> & s1 & Hp & H)]; [done|].
  assert (H1 : kept (st_ledger s1)).
  { apply persist_claim_ledger in Hp as (ids & ->). destruct Hk as [Hk Hh]. split; cbn; [by apply dict_set_nodup|done]. }
  destruct (cl_supersedes c); [|by subst]. destruct H as (q & H). by eapply transition_kept.
Qed.

Lemma reachable_kept store s : rtc (ledger_step (K := K) sha256_hex scope) (fresh_state store) s -> kept (st_ledger s).
Proof.
  intros H. enough (G : forall a, rtc (ledger_step (K := K) sha256_hex scope) a s -> kept (st_ledger a) -> kept (st_ledger s)).
  { apply (G _ H). split; constructor. }
  clear H. intros a H. induction H as [|a b d H1 _ IH]; [done|]. intros Ha. by eapply IH, step_kept.
Qed.

Lemma query_all l : query l None None true ≡ₚ map snd (lg_claims l).
Proof.
  unfold query. rewrite sort_by_perm. rewrite lfilter_all; [done|]. intros c _. cbn.
  rewrite bool_decide_true; [done|]. destruct (cl_status c); unfold STATUSES; set_solver.
Qed.

Lemma ids_of_keys l :
  (forall i c, dict_get i (lg_claims l) = Some c -> cl_claim_id c = i) -> base.NoDup (map fst (lg_claims l)) ->
  map cl_claim_id (map snd (lg_claims l)) = map fst (lg_claims l).
Proof.
  destruct l as [d ts rs]. cbn. intros Hid Hnd. rewrite map_map. apply map_ext_in. intros [i c] Hin. cbn.
  apply Hid. apply list_elem_of_In in Hin. clear Hid. induction d as [|[j x] d IH]; [by apply not_elem_of_nil in Hin|].
  cbn in *. apply NoDup_cons in Hnd as [Hj Hnd]. apply elem_of_cons in Hin as [[= -> ->]|Hin].
  - by rewrite String.eqb_refl.
  - destruct (String.eqb_spec i j) as [->|Hne]; [|by apply IH].
    exfalso. apply Hj. exact (list_elem_of_fmap_2 fst _ _ Hin).
Qed.
Lemma sorted_sources policies :
  check_policies (E := E) policies = Ok tt -> map fp_source_type (sorted_policies policies) ≡ₚ map fst policies.
Proof.
  intros H. apply bind_ok in H as (u & _ & H). apply raise_if_ok, negb_false_iff in H.
  unfold sorted_policies. rewrite sort_by_perm, map_map.
  match goal with |- ?x ≡ₚ ?y => enough (x = y) as -> by done end. apply map_ext_in. intros p Hp.
  apply forallb_forall with (x := p) in H; [|done]. by apply String.eqb_eq in H.
Qed.

(** A ledger as an export holds it: the claims in the order of [query], with the texts that were
    supplied, and no receipts *)
Definition exported (texts : list (string * string)) (l : Ledger) : Ledger :=
  {| lg_claims := map (fun c => (cl_claim_id c, supplied texts c)) (query l None None true);
     lg_transitions := lg_transitions l; lg_receipt_ids := [] |}.

(** An exported ledger can be restored: for a ledger that calls reached and whose claims passed
    the constructor, [from_dict] of [to_dict] with matching texts succeeds and yields the policies, the same
    claims with their statuses, in the order of [query] and with the texts supplied for them, and the
    same history with its reasons; every claim of the ledger is among them. *)
Theorem export_exact policies texts store s :
  rtc (ledger_step (K := K) sha256_hex scope) (fresh_state store) s ->
  Forall (claim_ok (E := E)) (map snd (lg_claims (st_ledger s))) ->
  Forall (texts_match (E := E) sha256_hex texts) (map snd (lg_claims (st_ledger s))) ->
  policies <> [] -> check_policies (E := E) policies = Ok tt -> base.NoDup (map fst policies) ->
  Forall (policy_ok (E := E)) (map snd policies) ->
  ledger_from_dict (E := E) sha256_hex texts (ledger_to_dict policies (st_ledger s))
  = Ok (map (fun p => (fp_source_type p, p)) (sorted_policies policies), exported texts (st_ledger s)) /\
  map snd (lg_claims (exported texts (st_ledger s)))
  ≡ₚ map (supplied texts) (map snd (lg_claims (st_ledger s))).
Proof.
  intros Hr Hok Ht Hne Hcheck Hnd Hpol. destruct (reachable_kept _ _ Hr) as [Hk Hh].
  destruct (reachable_explained _ _ _ _ Hr) as [Hid _ _].
  pose proof (query_all (st_ledger s)) as Hq. split.
  2: { cbn. rewrite map_map. cbn. by rewrite Hq. }
  unfold ledger_to_dict, obj, ledger_from_dict.
  assert (Hsort : Forall (policy_ok (E := E)) (sorted_policies policies)) by (unfold sorted_policies; by rewrite sort_by_perm).
  remember (obj_of _) as ms eqn:Hms.
  assert (dict_get "schema_version" ms = Some (JStr CLAIMS_LEDGER_SCHEMA_VERSION)) as -> by solve_member.
  assert (dict_get "claims" ms = Some (JList (map claim_to_dict (query (st_ledger s) None None true)))) as -> by solve_member.
  assert (dict_get "transitions" ms
    = Some (JList (map (fun t => transition_to_dict t (ct_reason t)) (lg_transitions (st_ledger s))))) as -> by solve_member.
  assert (dict_get "freshness_policies" ms = Some (JList (map policy_to_dict (sorted_policies policies)))) as -> by solve_member.
  change (negb _) with false. cbv iota.
  rewrite read_policies_back by (try done; cbn [map app]; by rewrite sorted_sources).
  cbn [mbind result_mbind result_bind app].
  assert (check_policies (E := E) (map (fun p => (fp_source_type p, p)) (sorted_policies policies)) = Ok tt) as ->.
  { unfold check_policies. assert (Hl : sorted_policies policies <> []).
    { intros Hnil. pose proof (sorted_sources _ Hcheck) as Hp. rewrite Hnil in Hp. cbn in Hp.
      apply Permutation_nil, map_eq_nil in Hp. done. }
    destruct (sorted_policies policies) as [|p ps] eqn:Esort; [done|]. cbn [map raise_if mbind result_mbind result_bind].
    rewrite (proj2 (forallb_forall _ _)); [done|]. intros q Hq'. apply list_elem_of_In in Hq'.
    change ((fp_source_type p, p) :: map _ ps) with (map (fun p => (fp_source_type p, p)) (p :: ps)) in Hq'.
    apply list_elem_of_fmap in Hq' as (x & -> & _). by apply String.eqb_eq. }
  cbn [mbind result_mbind result_bind].
  rewrite read_claims_back; [|by rewrite Hq|by rewrite Hq|].
  - cbn [mbind result_mbind result_bind app]. by rewrite read_transitions_back.
  - cbn [map app]. rewrite Hq. by rewrite ids_of_keys.
Qed.
End export.

(** * Exporting the sample *)

Module ExportSample.
Import LedgerSample.

Definition texts : list (string * string) := [("c-2", "the build is red")].

Lemma sample_ok i subject text st old :
  good_identifier i = true -> good_identifier subject = true ->
  match old with Some o => good_identifier o = true | None => True end ->
  claim_ok (E := receipt_exn) (claim_of i subject text st old).
Proof.
  intros Hi Hs Ho. split.
  - exact Hi.
  - exact Hs.
  - vm_compute. reflexivity.
  - vm_compute. reflexivity.
  - exact I.
  - vm_compute. reflexivity.
  - vm_compute. reflexivity.
  - exact Ho.
  - apply Forall_singleton. split; vm_compute; reflexivity.
  - apply Forall_nil. exact I.
  - left. discriminate.
Qed.

Lemma claims_ok : Forall (claim_ok (E := receipt_exn)) (map snd (lg_claims (st_ledger s3))).
Proof.
  apply Forall_cons. split; [|apply Forall_cons; split; [|apply Forall_singleton]].
  - apply (sample_ok "c-1" "build" "the build is green" Superseded None); try exact I; vm_compute; reflexivity.
  - apply (sample_ok "c-2" "build" "the build is red" Active (Some "c-1")); vm_compute; reflexivity.
  - apply (sample_ok "c-3" "docs" "the build is documented" Active None); try exact I; vm_compute; reflexivity.
Qed.
End ExportSample.

Lemma export_exact_witness :
  exists l, ledger_from_dict (E := receipt_exn) LedgerSample.digest ExportSample.texts
    (ledger_to_dict LedgerSample.policies (st_ledger LedgerSample.s3)) = Ok (LedgerSample.policies, l) /\
  lg_transitions l = lg_transitions (st_ledger LedgerSample.s3) /\
  cl_text <$> dict_get "c-2" (lg_claims l) = Some (Some "the build is red").
Proof.
  destruct LedgerSample.calls as (H1 & H2 & H3).
  destruct (export_exact (K := LedgerSample.sink) LedgerSample.digest "team" LedgerSample.policies ExportSample.texts
    (Some {| ss_rows := []; ss_draws := 0 |}) LedgerSample.s3) as (He & _).
  - exact (rtc_l _ _ _ _ H1 (rtc_l _ _ _ _ H2 (rtc_once _ _ H3))).
  - exact ExportSample.claims_ok.
  - apply Forall_cons. split; [exact I|]. apply Forall_cons. split; [reflexivity|]. apply Forall_singleton. exact I.
  - discriminate.
  - reflexivity.
  - apply NoDup_singleton.
  - apply Forall_singleton. split; [reflexivity|discriminate].
  - eexists. split; [exact He|]. split; [reflexivity|]. vm_compute. reflexivity.
Defined.
