(* ===== verification/ClaimsRebuild.v ===== *)
(** The claims ledger and the store it writes to: what a store promises to a ledger, that the receipt
    store keeps the promise, and that the ledger which [from_receipt_store] rebuilds is the one that
    wrote the receipts. *)
From Stdlib Require Import Ascii.
From S2P Require Import Prelude PyStr PyNum Regex Time Json JsonDict Passports Ladder Redaction ReceiptStore ReceiptChain ReceiptTheorems ClaimsModels ClaimsLedger ClaimsTheorems ClaimsCodec ClaimsExport.

(** * What a store promises to a ledger *)

Class SinkLaws (S E : Type) {K : ReceiptSink S E} : Type := {
  (** the states that the laws speak of, and the scope in use *)
  sink_ok : S -> string -> Prop;
  (** the receipts of a kind in a scope, oldest first *)
  sink_log : S -> string -> string -> list ReceiptRecord;
  query_law st kind scope :
    sink_ok st scope -> Z.of_nat (length (sink_log st kind scope)) <= 100000 ->
    sink_query st kind scope = Ok (sink_log st kind scope);
  put_law st scope payload rid st' i :
    sink_ok st scope -> json_wf payload = true -> rid <> "" -> redact_payload payload [] = Ok payload ->
    sink_put st scope payload rid = Ok (st', i) ->
    sink_ok st' scope /\ i = rid /\ sink_log st' "execution" scope = sink_log st "execution" scope /\
    exists r, sink_log st' "context" scope = sink_log st "context" scope ++ [r] /\
      rr_id r = rid /\ rr_payload r = payload /\ rr_event_id r = None;
  append_law st parent scope payload event_id event_type st' :
    sink_ok st scope -> json_wf payload = true -> redact_payload payload [] = Ok payload ->
    (forall r, r ∈ sink_log st "context" scope ++ sink_log st "execution" scope -> rr_event_id r <> Some event_id) ->
    sink_append st parent scope payload event_id event_type = Ok st' ->
    sink_ok st' scope /\ sink_log st' "context" scope = sink_log st "context" scope /\
    exists r, sink_log st' "execution" scope = sink_log st "execution" scope ++ [r] /\
      rr_event_id r = Some event_id /\ rr_event_type r = Some event_type /\ rr_payload r = payload
}.

(** * The rebuilt ledger *)

Section rebuild.
Context {S E : Type} {K : ReceiptSink S E} {L : SinkLaws S E}.
Context (sha256_hex : string -> string) (scope : string).

#[local] Abbreviation State := (State (S := S)).

(** A ledger as the claims that were added and the transitions that followed *)
Definition add_born (l : Ledger) (c : Claim) : Ledger :=
  set_receipt_id (cl_claim_id c) ("claim-" +:+ cl_claim_id c) (set_claim (cl_claim_id c) c l).

Definition apply_transition (l : Ledger) (t : ClaimTransition) : Ledger :=
  match dict_get (ct_claim_id t) (lg_claims l) with
  | Some c => push_transition t (set_claim (ct_claim_id t) (with_status c (ct_to t)) l)
  | None => l
  end.

Definition replayed (born : list Claim) (ts : list ClaimTransition) : Ledger :=
  foldl apply_transition (foldl add_born empty_ledger born) ts.

(** A ledger as it is persisted *)
Definition persisted (l : Ledger) : Ledger :=
  {| lg_claims := map (fun p => (p.1, without_text p.2)) (lg_claims l);
     lg_transitions := map (with_hashed_reason sha256_hex) (lg_transitions l);
     lg_receipt_ids := lg_receipt_ids l |}.

(** ** Dictionaries *)

Lemma dict_set_fresh_comm {V} i j (x y : V) d :
  i ∈ map fst d -> j ∉ map fst d -> dict_set i x (dict_set j y d) = dict_set j y (dict_set i x d).
Proof.
  induction d as [|[k v] d IH]; [by intros Hi%not_elem_of_nil|]. cbn [map fst]. intros Hi Hj.
  apply not_elem_of_cons in Hj as [Hjk Hj]. cbn [dict_set].
  rewrite (proj2 (String.eqb_neq j k)) by done. destruct (String.eqb_spec i k) as [->|Hne]; cbn [dict_set].
  - rewrite String.eqb_refl. by rewrite (proj2 (String.eqb_neq j k)) by done.
  - rewrite (proj2 (String.eqb_neq i k)), (proj2 (String.eqb_neq j k)) by done.
    f_equal. apply IH; [|done]. by apply elem_of_cons in Hi as [?|?].
Qed.

Lemma dict_set_keys {V} i (x : V) d k : k ∈ map fst (dict_set i x d) <-> k = i \/ k ∈ map fst d.
Proof. rewrite dict_set_fst. destruct (decide (i ∈ map fst d)); set_solver. Qed.

Lemma dict_set_length {V} i (x : V) d :
  length (dict_set i x d) = if decide (i ∈ map fst d) then length d else Datatypes.S (length d).
Proof.
  rewrite <- (length_map fst (dict_set i x d)), <- (length_map fst d), dict_set_fst.
  destruct (decide (i ∈ map fst d)); [done|]. rewrite length_app. cbn. lia.
Qed.

Lemma dict_set_map {V W} (f : V -> W) i x d :
  dict_set i (f x) (map (fun p => (p.1, f p.2)) d) = map (fun p => (p.1, f p.2)) (dict_set i x d).
Proof. induction d as [|[j v] d IH]; cbn; [done|]. destruct (String.eqb i j); cbn; [done|by rewrite IH]. Qed.

Lemma dict_get_map {V W} (f : V -> W) i d : dict_get i (map (fun p => (p.1, f p.2)) d) = f <$> dict_get i d.
Proof. induction d as [|[j v] d IH]; cbn; [done|]. by destruct (String.eqb i j). Qed.

Lemma dict_get_key {V} i (d : list (string * V)) : dict_get i d <> None <-> i ∈ map fst d.
Proof. rewrite dict_get_none. destruct (decide (i ∈ map fst d)); tauto. Qed.

(** ** Adding and applying *)

Definition keys (l : Ledger) : list string := map fst (lg_claims l).

Lemma apply_keys l t k : k ∈ keys (apply_transition l t) <-> k ∈ keys l.
Proof.
  unfold apply_transition, keys. destruct (dict_get _ _) as [c|] eqn:Ed; [|done]. cbn.
  rewrite dict_set_keys. split; [|auto]. intros [->|?]; [|done]. apply dict_get_key. congruence.
Qed.

Lemma born_keys born : forall l k, k ∈ keys (foldl add_born l born) <-> k ∈ map cl_claim_id born \/ k ∈ keys l.
Proof.
  induction born as [|c born IH]; intros l k; cbn [foldl map]; [set_solver|].
  rewrite IH. unfold keys at 1. cbn. rewrite dict_set_keys. set_solver.
Qed.

(** A new claim can be added before the transitions of the others. *)
Lemma add_commutes l c t :
  ct_claim_id t ∈ keys l -> cl_claim_id c ∉ keys l ->
  apply_transition (add_born l c) t = add_born (apply_transition l t) c.
Proof.
  intros Ht Hc. unfold apply_transition. cbn. rewrite dict_get_set_ne by (intros Heq; by rewrite Heq in Ht).
  destruct (dict_get (ct_claim_id t) (lg_claims l)) as [x|] eqn:Ed; [|done].
  unfold add_born, push_transition, set_claim, set_receipt_id. cbn. by rewrite dict_set_fresh_comm.
Qed.

Lemma adds_commute ts : forall l c,
  (forall t, t ∈ ts -> ct_claim_id t ∈ keys l) -> cl_claim_id c ∉ keys l ->
  foldl apply_transition (add_born l c) ts = add_born (foldl apply_transition l ts) c.
Proof.
  induction ts as [|t ts IH]; intros l c Ht Hc; [done|]. cbn [foldl].
  rewrite add_commutes by (set_solver || done). apply IH; [|by rewrite apply_keys].
  intros x Hx. rewrite apply_keys. apply Ht. set_solver.
Qed.

Lemma replayed_keys born ts k : k ∈ keys (replayed born ts) <-> k ∈ map cl_claim_id born.
Proof.
  unfold replayed. assert (H : forall l, k ∈ keys (foldl apply_transition l ts) <-> k ∈ keys l).
  { induction ts as [|t ts IH]; intros l; [done|]. cbn [foldl]. by rewrite IH, apply_keys. }
  rewrite H, born_keys. unfold keys. cbn. set_solver.
Qed.

(** ** The persisted form commutes with both *)

Lemma persisted_add l c : persisted (add_born l c) = add_born (persisted l) (without_text c).
Proof. unfold persisted, add_born, set_claim, set_receipt_id. cbn. by rewrite <- dict_set_map. Qed.

Lemma persisted_apply l t : persisted (apply_transition l t) = apply_transition (persisted l) (with_hashed_reason sha256_hex t).
Proof.
  unfold apply_transition. cbn. rewrite dict_get_map.
  destruct (dict_get (ct_claim_id t) (lg_claims l)) as [c|]; cbn; [|done].
  unfold persisted, push_transition, set_claim. cbn. rewrite map_app, <- dict_set_map. done.
Qed.

Lemma persisted_replayed born ts :
  persisted (replayed born ts) = replayed (map without_text born) (map (with_hashed_reason sha256_hex) ts).
Proof.
  unfold replayed. assert (Hb : forall l, persisted (foldl add_born l born) = foldl add_born (persisted l) (map without_text born)).
  { induction born as [|c born IH]; intros l; [done|]. cbn [foldl map]. by rewrite IH, persisted_add. }
  assert (Ht : forall l, persisted (foldl apply_transition l ts)
    = foldl apply_transition (persisted l) (map (with_hashed_reason sha256_hex) ts)).
  { induction ts as [|t ts IH]; intros l; [done|]. cbn [foldl map]. by rewrite IH, persisted_apply. }
  rewrite Ht, Hb. done.
Qed.

(** ** What the receipts hold *)

Definition holds_claim (r : ReceiptRecord) (c : Claim) : Prop :=
  rr_payload r = claim_payload c /\ rr_id r = "claim-" +:+ cl_claim_id c /\ rr_event_id r = None.

Definition holds_transition (r : ReceiptRecord) (t : ClaimTransition) : Prop :=
  rr_payload r = transition_payload t (reason_hash sha256_hex t) /\
  rr_event_id r = Some (ct_transition_id t) /\ rr_event_type r = Some "claim_status_transition".

(** The store holds the history of the ledger. *)
Record recorded (s : State) (store : S) (born : list Claim) (ts : list ClaimTransition) : Prop := {
  rc_store : st_store s = Some store;
  rc_ok : sink_ok store scope;
  rc_ledger : st_ledger s = replayed born ts;
  rc_claims : Forall2 holds_claim (sink_log store "context" scope) born;
  rc_events : Forall2 holds_transition (sink_log store "execution" scope) ts;
  rc_born : Forall (claim_ok (E := E)) born;
  rc_ts : Forall transition_ok ts;
  rc_known : forall t, t ∈ ts -> ct_claim_id t ∈ map cl_claim_id born;
  rc_transitions : lg_transitions (st_ledger s) = ts;
  rc_count : length (lg_claims (st_ledger s)) = length born
}.

Lemma rebuild_claims_spec rs born l :
  Forall2 holds_claim rs born -> Forall (claim_ok (E := E)) born ->
  rebuild_claims (E := E) sha256_hex rs l = Ok (foldl add_born l (map without_text born)).
Proof.
  intros H. revert l. induction H as [|r c rs born (Hp & Hi & _) _ IH]; intros l Hok; [done|].
  apply Forall_cons in Hok as [Hc Hok]. cbn [rebuild_claims]. rewrite Hp. unfold claim_payload, obj.
  assert (obj_of [("kind", JStr "claim"); ("claim", claim_to_dict c)]
          = [("claim", claim_to_dict c); ("kind", JStr "claim")]) as -> by reflexivity.
  cbn [dict_get String.eqb Ascii.eqb Bool.eqb]. cbn [py_eq]. change (String.eqb "claim" "claim") with true. cbv iota.
  unfold member. cbn [dict_get String.eqb Ascii.eqb Bool.eqb mbind result_mbind result_bind].
  rewrite claim_roundtrip by done. cbn [mbind result_mbind result_bind]. rewrite Hi. by apply IH.
Qed.

Lemma rebuild_transitions_spec rs ts l :
  Forall2 holds_transition rs ts -> Forall transition_ok ts -> (forall t, t ∈ ts -> ct_claim_id t ∈ keys l) ->
  rebuild_transitions (E := E) rs l = Ok (foldl apply_transition l (map (with_hashed_reason sha256_hex) ts)).
Proof.
  intros H. revert l. induction H as [|r t rs ts (Hp & _ & Hty) _ IH]; intros l Hok Hk; [done|].
  apply Forall_cons in Hok as [Ht Hok]. cbn [rebuild_transitions map foldl].
  rewrite Hty, bool_decide_true by done. cbn [negb]. rewrite Hp. unfold transition_payload, obj.
  destruct (transition_roundtrip (E := E) sha256_hex t Ht) as (ms & Hms & Hread).
  assert (obj_of [("kind", JStr "claim_transition"); ("transition", transition_to_dict t (reason_hash sha256_hex t))]
          = [("kind", JStr "claim_transition"); ("transition", transition_to_dict t (reason_hash sha256_hex t))]) as ->
    by reflexivity.
  cbn [dict_get String.eqb Ascii.eqb Bool.eqb]. rewrite Hms, Hread. cbn [mbind result_mbind result_bind].
  assert (Hd : dict_get (ct_claim_id t) (lg_claims l) <> None) by (apply dict_get_key, Hk; set_solver).
  unfold apply_transition at 2. cbn [ct_claim_id with_hashed_reason with_reason].
  destruct (dict_get (ct_claim_id t) (lg_claims l)) as [c|] eqn:Ed; [|done].
  apply IH; [done|]. intros x Hx. unfold keys. cbn. rewrite dict_set_keys. right. apply Hk. set_solver.
Qed.

Lemma rebuilt s store born ts :
  recorded s store born ts ->
  Z.of_nat (length born) <= 100000 -> Z.of_nat (length ts) <= 100000 ->
  from_receipt_store (K := K) sha256_hex scope store = Ok (persisted (st_ledger s)).
Proof.
  intros [_ Hok Hl Hc He Hb Ht Hk _ _] Hnb Hnt. unfold from_receipt_store.
  apply Forall2_length in Hc as Lc. apply Forall2_length in He as Le.
  rewrite !query_law by first [done | by rewrite Lc | by rewrite Le].
  cbn [mbind result_mbind result_bind]. rewrite (rebuild_claims_spec _ born) by done.
  cbn [mbind result_mbind result_bind].
  rewrite (rebuild_transitions_spec _ ts); [|done..|].
  - by rewrite Hl, persisted_replayed.
  - intros t Hin. rewrite born_keys. left. rewrite map_map. cbn. by apply Hk.
Qed.

(** ** The calls keep the record *)

(** A payload that the store keeps as it is: redaction finds nothing in it. *)
Definition plain (payload : json) : Prop := json_wf payload = true /\ redact_payload payload [] = Ok payload.

(** The transition that a call recorded, if any, is plain and has an id of its own. *)
Definition plain_transitions (s s' : State) : Prop :=
  forall t, lg_transitions (st_ledger s') = lg_transitions (st_ledger s) ++ [t] ->
    plain (transition_payload t (reason_hash sha256_hex t)) /\
    ct_transition_id t ∉ map ct_transition_id (lg_transitions (st_ledger s)).

(** The calls the rebuilding is about: those that succeed, and those that raise without having
    written to the store. *)
Inductive clean_step (s s' : State) : Prop :=
| clean_add c uuid now x :
    claim_ok (E := E) c -> plain (claim_payload c) -> plain_transitions s s' ->
    add (K := K) sha256_hex scope c uuid now s = (s', Ok x) -> clean_step s s'
| clean_transition i to reason at_ by_ uuid now x :
    plain_transitions s s' ->
    transition (K := K) sha256_hex scope i to reason at_ by_ uuid now s = (s', Ok x) -> clean_step s s'
| clean_failure : ledger_step (K := K) sha256_hex scope s s' ->
    st_ledger s' = st_ledger s -> st_store s' = st_store s -> clean_step s s'.

Lemma transition_recorded i to reason at_ by_ uuid now s s' x store born ts :
  recorded s store born ts ->
  transition (K := K) sha256_hex scope i to reason at_ by_ uuid now s = (s', Ok x) ->
  plain_transitions s s' ->
  exists store' t, recorded s' store' born (ts ++ [t]).
Proof.
  intros [Hst Hok Hl Hc He Hb Ht Hk Htr Hcount] H Hplain. apply transition_cases in H.
  destruct H as (cur & st & t & s1 & Hcur & _ & _ & -> & Hi & Hf & Hto & _ & Hmake & Hpers & Hs' & Hl').
  destruct (Hplain t) as [[Hwf Hred] Hfresh]; [by rewrite Hl'|].
  assert (Htok : transition_ok t).
  { eapply (transition_wf (E := E)); [exact Hmake|]. intros name y. apply timestamp_in_years. }
  unfold persist_transition in Hpers. rewrite Hst in Hpers.
  destruct (dict_get (ct_claim_id t) (lg_receipt_ids (st_ledger s))) as [parent|]; [|done].
  assert (Hh : claim_hash (E := E) sha256_hex (ct_reason t) = Ok (reason_hash sha256_hex t)).
  { unfold claim_hash. rewrite (proj2 (String.eqb_neq _ _)) by apply Htok. done. }
  rewrite Hh in Hpers. destruct (sink_append _ _ _ _ _ _) as [store'|e] eqn:Ea; [|done]. injection Hpers as <-.
  apply append_law in Ea as (Hok' & Hctx & r & Hlog & Hev & Hty & Hpay); [|done..|].
  2: { intros r [Hr|Hr]%elem_of_app.
       - apply list_elem_of_lookup in Hr as (n & Hr). eapply Forall2_lookup_l in Hc as (c & _ & (_ & _ & ->)); [|done]. done.
       - apply list_elem_of_lookup in Hr as (n & Hr). eapply Forall2_lookup_l in He as (u & Hu & (_ & -> & _)); [|done].
         intros [= Heq]. apply Hfresh. rewrite Htr, <- Heq. apply list_elem_of_fmap_2. by eapply list_elem_of_lookup_2. }
  exists store', t. split; try done.
  - rewrite Hl'. unfold replayed. rewrite foldl_app.
    change (foldl apply_transition (foldl add_born empty_ledger born) ts) with (replayed born ts).
    rewrite <- Hl. cbn [foldl]. unfold apply_transition. by rewrite Hi, Hcur, Hto.
  - by rewrite Hctx.
  - rewrite Hlog. apply Forall2_app; [done|]. by constructor.
  - apply Forall_app. by split; [|constructor].
  - intros u [Hu|Hu%list_elem_of_singleton]%elem_of_app; [by apply Hk|]. subst u. rewrite Hi.
    rewrite <- (replayed_keys born ts), <- Hl. apply dict_get_key. by rewrite Hcur.
  - rewrite Hl'. cbn. by rewrite Htr.
  - rewrite Hl'. cbn. rewrite dict_set_length, decide_True; [done|]. apply dict_get_key. by rewrite Hcur.
Qed.

Lemma add_recorded c uuid now s s' x store born ts :
  recorded s store born ts -> claim_ok (E := E) c -> plain (claim_payload c) ->
  add (K := K) sha256_hex scope c uuid now s = (s', Ok x) -> plain_transitions s s' ->
  exists store' born' ts', recorded s' store' born' ts'.
Proof.
  intros Hrec Hcok [Hwf Hred] H Hplain. apply add_cases in H.
  destruct H as [[-> _]|(Hnew & -> & s1 & Hpers & H)]; [by do 3 eexists|].
  pose proof Hrec as [Hst Hok Hl Hc He Hb Ht Hk Htr Hcount].
  unfold persist_claim in Hpers. cbn in Hpers. rewrite Hst in Hpers.
  destruct (sink_put _ _ _ _) as [[store' rid]|e] eqn:Ep; [|done]. injection Hpers as <-.
  apply put_law in Ep as (Hok' & -> & Hexe & r & Hlog & Hid & Hpay & Hev); [|done..].
  assert (Hfresh : cl_claim_id c ∉ keys (replayed born ts)).
  { intros Hin. rewrite <- Hl in Hin. apply dict_get_key in Hin. congruence. }
  assert (R : recorded {| st_store := Some store';
                          st_ledger := set_receipt_id (cl_claim_id c) ("claim-" +:+ cl_claim_id c)
                                         (set_claim (cl_claim_id c) c (st_ledger s)) |} store' (born ++ [c]) ts).
  { split; try done; cbn.
    - rewrite Hl. unfold replayed. rewrite foldl_app. cbn [foldl]. rewrite adds_commute; [done| |].
      + intros t Hin. rewrite born_keys. left. by apply Hk.
      + by rewrite replayed_keys, <- (replayed_keys born []) in Hfresh.
    - rewrite Hlog. apply Forall2_app; [done|]. by constructor.
    - by rewrite Hexe.
    - apply Forall_app. by split; [|constructor].
    - intros t Hin. rewrite map_app. apply elem_of_app. left. by apply Hk.
    - rewrite dict_set_length, decide_False, length_app, Hcount; [cbn; lia|]. by rewrite Hl. }
  destruct (cl_supersedes c) as [old|].
  - destruct H as (q & H). eapply transition_recorded in H as (st2 & t & R2); [|exact R|].
    + by do 3 eexists.
    + intros t. apply Hplain.
  - subst s'. by do 3 eexists.
Qed.

Lemma step_recorded s s' store born ts :
  clean_step s s' -> recorded s store born ts -> exists store' born' ts', recorded s' store' born' ts'.
Proof.
  intros [c uuid now x Hc Hp Hpt H|i to reason at_ by_ uuid now x Hpt H|_ Hl Hs] R.
  - by eapply add_recorded.
  - destruct (transition_recorded _ _ _ _ _ _ _ _ _ _ _ _ _ R H Hpt) as (st & t & R'). by do 3 eexists.
  - destruct R. do 3 eexists. split; rewrite ?Hl, ?Hs; done.
Qed.

(** C37: a ledger that persists can be rebuilt, up to 100000 claims and transitions: after calls that
    succeeded, with fresh ids and payloads that redaction leaves alone, or that raised before they
    wrote ([clean_step]), on a store that keeps what it is given, [from_receipt_store] yields the
    same claims in the same order with the same statuses, the same transitions and the same receipt
    ids, but for the texts of claims, which are not persisted, and reasons, which are persisted as
    hashes. A claim whose [add] raised after it wrote is rebuilt too, though the ledger that
    refused it does not hold it ([refused_claim_is_rebuilt]). *)
Theorem rebuild_exact store s :
  sink_ok store scope -> sink_log store "context" scope = [] -> sink_log store "execution" scope = [] ->
  rtc clean_step (fresh_state (Some store)) s ->
  Z.of_nat (length (lg_claims (st_ledger s))) <= 100000 ->
  Z.of_nat (length (lg_transitions (st_ledger s))) <= 100000 ->
  exists store', st_store s = Some store' /\
    from_receipt_store (K := K) sha256_hex scope store' = Ok (persisted (st_ledger s)).
Proof.
  intros Hok Hc He H Hn Ht.
  assert (R0 : recorded (fresh_state (Some store)) store [] []).
  { split; try done; cbn; rewrite ?Hc, ?He; try done; try constructor. by intros t Hin%not_elem_of_nil. }
  assert (G : exists store' born ts, recorded s store' born ts).
  { clear Hn Ht Hok Hc He. remember (fresh_state (Some store)) as a eqn:Ea. clear Ea. revert store R0. generalize (@nil Claim) (@nil ClaimTransition).
    induction H as [a|a b d H1 _ IH]; intros born ts store R0; [by do 3 eexists|].
    destruct (step_recorded _ _ _ _ _ H1 R0) as (st & bn & tn & R1). by eapply IH. }
  destruct G as (store' & born & ts & R). exists store'. split; [apply R|].
  apply (rebuilt s store' born ts R).
  - by rewrite <- (rc_count _ _ _ _ R).
  - by rewrite <- (rc_transitions _ _ _ _ R).
Qed.
End rebuild.

(** * The receipt store keeps what the ledger gives it *)

Section receipt_store.
Context (sha256_hex : string -> string) (uuid time : nat -> string).

#[local] Abbreviation sink := (receipt_sink sha256_hex uuid time).
#[local] Abbreviation sink_put := (sink_put (ReceiptSink := sink)).
#[local] Abbreviation sink_append := (sink_append (ReceiptSink := sink)).
#[local] Abbreviation sink_query := (sink_query (ReceiptSink := sink)).

(** The records of a kind in a scope *)
Definition of_kind (kind scope : string) (rs : list ReceiptRecord) : list ReceiptRecord :=
  List.filter (fun r => String.eqb (rr_type r) kind && String.eqb (rr_scope r) scope) rs.

Definition readable (rows : list Row) : list ReceiptRecord :=
  omap (fun row => match row_to_record row with Ok r => Some r | Err _ => None end) rows.

(** The table is the ledger's own: nothing in it is tombstoned, and every record is a context or an
    execution receipt. *)
Definition own_table (st : StoreSink) (scope : string) : Prop :=
  validate_scope scope = Ok scope /\
  exists rs, sound sha256_hex (ss_rows st) rs /\
    Forall (fun r => rr_tombstone_for r = None /\ (rr_type r = "context" \/ rr_type r = "execution")) rs.

Lemma readable_sound rs : Forall record_ok rs -> readable (map to_row rs) = rs.
Proof.
  intros H. unfold readable. induction H as [|r rs Hr _ IH]; [done|]. cbn [map omap list_omap].
  rewrite row_round_trip by apply Hr. cbn. by f_equal.
Qed.

Lemma sub_climbs n rows (f : Row -> bool) : climbs n rows -> climbs n (List.filter f rows).
Proof.
  revert n; induction rows as [|row rows IH]; intros n; cbn; [done|]. intros [H1 H2].
  destruct (f row); cbn; [by split; [|apply IH]|]. apply (climbs_weaken (rr_sequence row)); [lia|by apply IH].
Qed.

Lemma climbs_ordered n rs : climbs n (map to_row rs) -> ordered rs.
Proof.
  intros H l1 x l2 y -> Hy. rewrite map_app in H. apply climbs_app in H as [H1 H2]. cbn in H2. destruct H2 as [H2 _].
  destruct (last (map to_row l1)) as [z|] eqn:Ez.
  - pose proof (climbs_last _ _ (to_row y) z H1 Ez (list_elem_of_fmap_2 to_row _ _ Hy)) as H3.
    change (rr_sequence (to_row y)) with (rr_sequence y) in H3.
    change (rr_sequence (to_row x)) with (rr_sequence x) in H2. lia.
  - apply last_None, map_eq_nil in Ez as ->. by apply not_elem_of_nil in Hy.
Qed.

Lemma kind_ordered rows rs kind scope : sound sha256_hex rows rs -> ordered (of_kind kind scope rs).
Proof.
  intros [_ _ Hl _]. apply (climbs_ordered 0).
  assert (of_kind kind scope rs = List.filter (fun r => String.eqb (rr_type r) kind) (of_scope scope rs)) as ->.
  { unfold of_kind, of_scope. clear. induction rs as [|r rs IH]; cbn; [done|].
    destruct (String.eqb (rr_scope r) scope), (String.eqb (rr_type r) kind) eqn:Et; cbn; rewrite ?Et, ?IH; done. }
  replace (map to_row (List.filter _ (of_scope scope rs)))
    with (List.filter (fun row : Row => String.eqb (rr_type row) kind) (map to_row (of_scope scope rs)))
    by apply lfilter_map.
  apply sub_climbs, (linked_climbs sha256_hex None 1), Hl.
Qed.

Lemma ascending_ordered rs : ordered rs -> ascending (map to_row rs) = map to_row rs.
Proof.
  intros Ho. apply sort_by_id. induction rs as [|r rs IH]; [constructor|].
  apply ordered_cons in Ho as [Ho Hr]. cbn [map]. constructor; [by apply IH|].
  apply Forall_forall. intros row Hrow. apply list_elem_of_fmap in Hrow as (x & -> & Hx).
  apply Z.leb_le. change (rr_sequence r <= rr_sequence x). specialize (Hr x Hx). lia.
Qed.

Lemma query_kind st kind scope rs :
  validate_scope scope = Ok scope -> sound sha256_hex (ss_rows st) rs ->
  Forall (fun r => rr_tombstone_for r = None) rs -> Z.of_nat (length (of_kind kind scope rs)) <= 100000 ->
  sink_query st kind scope = Ok (of_kind kind scope rs).
Proof.
  intros Hv Hs Ht Hn. pose proof Hs as [Hrows Hok _ _]. cbn [sink_query receipt_sink].
  unfold query_receipts. change ((100000 <? 1) || (100000 <? 100000)) with false. cbn [raise_if].
  rewrite (assert_sound sha256_hex (ss_rows st) rs) by done.
  cbn [mbind result_mbind result_bind]. rewrite Hv. cbn [mbind result_mbind result_bind].
  assert (Hnot : forall row, tombstoned (ss_rows st) row = false).
  { intros row. apply not_true_is_false. intros (x & Hx & Hm)%existsb_exists.
    apply list_elem_of_In in Hx. rewrite Hrows in Hx. apply list_elem_of_fmap in Hx as (y & -> & Hy).
    eapply Forall_forall in Ht; [|exact Hy]. unfold opt_is in Hm. apply bool_decide_eq_true in Hm.
    change (rr_tombstone_for (to_row y)) with (rr_tombstone_for y) in Hm. congruence. }
  rewrite (List.filter_ext _ (fun row => String.eqb (rr_type row) kind && String.eqb (rr_scope row) scope))
    by (intros row; unfold in_scope_of; by rewrite Hnot, !andb_true_r).
  rewrite Hrows. replace (List.filter _ (map to_row rs)) with (map to_row (of_kind kind scope rs))
    by (symmetry; apply lfilter_map).
  pose proof (kind_ordered _ _ kind scope Hs) as Ho.
  unfold descending. rewrite (ascending_ordered _ Ho).
  rewrite take_ge by (rewrite length_rev, length_map; lia). rewrite <- map_rev, records_read.
  - cbn [mbind result_mbind result_bind]. f_equal. apply sort_by_rev.
    intros l1 x l2 Heq y Hy. pose proof (Ho _ _ _ _ Heq Hy). apply Z.leb_gt. lia.
  - apply Forall_forall. intros r Hr. rewrite elem_of_rev in Hr. apply elem_of_lfilter in Hr as [Hr _].
    by eapply Forall_forall in Hok.
Qed.
(** ** Writing *)

Lemma readable_rows rows rs : sound sha256_hex rows rs -> readable rows = rs.
Proof. intros [-> Hok _ _]. by apply readable_sound. Qed.

Lemma of_kind_snoc kind scope rs r :
  of_kind kind scope (rs ++ [r])
  = of_kind kind scope rs ++ if String.eqb (rr_type r) kind && String.eqb (rr_scope r) scope then [r] else [].
Proof. unfold of_kind. rewrite List.filter_app. cbn. by destruct (_ && _). Qed.

Lemma insert_record rows d rows' r :
  insert sha256_hex rows d = Ok (rows', r) -> exists n p, r = sealed sha256_hex d n p.
Proof.
  unfold insert. intros H. apply bind_ok in H as (u & _ & H). destruct (next_sequence rows (dr_scope d)) as [n p].
  destruct (existsb _ rows); [done|]. injection H as _ <-. by do 2 eexists.
Qed.

(** A record of a kind, not a marker, is appended to the log of its kind. *)
Lemma insert_logged st d rows' r scope :
  own_table st scope -> draft_ok d -> dr_scope d = scope -> dr_tombstone_for d = None ->
  (dr_type d = "context" \/ dr_type d = "execution") ->
  insert sha256_hex (ss_rows st) d = Ok (rows', r) ->
  forall n, own_table {| ss_rows := rows'; ss_draws := n |} scope /\
    forall kind, of_kind kind scope (readable rows')
      = of_kind kind scope (readable (ss_rows st)) ++ if String.eqb (dr_type d) kind then [r] else [].
Proof.
  intros (Hv & rs & Hs & Hown) Hd Hsc Ht Hty H n.
  pose proof (insert_sound sha256_hex _ _ _ _ _ Hs Hd H) as Hs'.
  apply insert_record in H as (m & p & ->). split.
  - split; [done|]. eexists. split; [exact Hs'|]. apply Forall_app. split; [done|]. by constructor.
  - intros kind. rewrite (readable_rows _ _ Hs), (readable_rows _ _ Hs'), of_kind_snoc. cbn.
    by rewrite Hsc, String.eqb_refl, andb_true_r.
Qed.
Lemma put_logged st scope payload rid st' i :
  own_table st scope -> json_wf payload = true -> rid <> "" -> redact_payload payload [] = Ok payload ->
  sink_put st scope payload rid = Ok (st', i) ->
  exists d r, insert sha256_hex (ss_rows st) d = Ok (ss_rows st', r) /\ draft_ok d /\ dr_scope d = scope /\
    dr_type d = "context" /\ dr_tombstone_for d = None /\ i = rid /\
    rr_id r = rid /\ rr_payload r = payload /\ rr_event_id r = None.
Proof.
  intros (Hv & _) Hwf Hrid Hred H. cbn [sink_put receipt_sink] in H.
  apply bind_ok in H as ([rows r] & H & [= <- <-]). unfold put_receipt in H.
  cbn [pa_type pa_scope pa_payload pa_sensitivity pa_provenance pa_id pa_parent pa_event_id
    pa_event_type pa_terminal_outcome pa_idempotency_key pa_allowlist pa_key_ref] in H.
  rewrite Hv in H. cbn [mbind result_mbind result_bind] in H. rewrite Hred in H. cbn [mbind result_mbind result_bind] in H.
  apply bind_ok in H as (prov & Hprov & H). apply bind_ok in H as (u & _ & H).
  apply redact_payload_wf in Hprov; [|by vm_compute].
  pose proof (redact_payload_wf _ _ _ Hred Hwf) as Hpay. destruct rid as [|a rid]; [done|].
  match type of H with context [ReceiptStore.insert _ _ ?d] => set (dr := d) in H end.
  destruct (ReceiptStore.insert sha256_hex (ss_rows st) dr) as [[rows1 r1]|e] eqn:Ei; [|by destruct e].
  injection H as <- <-. destruct (insert_record _ _ _ _ Ei) as (n & p & ->).
  exists dr. eexists. split; [exact Ei|]. split; [by eapply draft_ok_intro|done].
Qed.

Lemma append_logged st parent scope payload event_id event_type st' :
  own_table st scope -> json_wf payload = true -> redact_payload payload [] = Ok payload ->
  (forall r, r ∈ of_kind "context" scope (readable (ss_rows st)) ++ of_kind "execution" scope (readable (ss_rows st)) ->
    rr_event_id r <> Some event_id) ->
  sink_append st parent scope payload event_id event_type = Ok st' ->
  exists d r, insert sha256_hex (ss_rows st) d = Ok (ss_rows st', r) /\ draft_ok d /\ dr_scope d = scope /\
    dr_type d = "execution" /\ dr_tombstone_for d = None /\
    rr_event_id r = Some event_id /\ rr_event_type r = Some event_type /\ rr_payload r = payload.
Proof.
  intros (Hv & rs & Hs & Hown) Hwf Hred Hnew H. cbn [sink_append receipt_sink] in H.
  apply bind_ok in H as ([rows r] & H & [= <-]). unfold append_event in H.
  rewrite Hv in H. cbn [mbind result_mbind result_bind] in H. rewrite Hred in H. cbn [mbind result_mbind result_bind] in H.
  apply bind_ok in H as (u & _ & H). apply bind_ok in H as (u' & _ & H).
  rewrite (readable_rows _ _ Hs) in Hnew. pose proof (redact_payload_wf _ _ _ Hred Hwf) as Hpay.
  destruct (List.find _ _) as [row|] eqn:Ef.
  - apply find_in in Ef as [Hin Hf]. exfalso. destruct Hs as [Hrows _ _ _]. rewrite Hrows in Hin.
    apply list_elem_of_fmap in Hin as (x & -> & Hx). unfold in_scope_of, opt_is in Hf. bool_hyps.
    change (rr_scope (to_row x)) with (rr_scope x) in *. change (rr_event_id (to_row x)) with (rr_event_id x) in *.
    eapply (Hnew x); [|done]. eapply Forall_forall in Hown; [|exact Hx]. destruct Hown as [_ [Hk|Hk]];
      apply elem_of_app; [left|right]; apply elem_of_lfilter; rewrite Hk, String.eqb_refl; cbn;
      (split; [done|by apply String.eqb_eq]).
  - destruct (terminal_events _ _ _); [|done].
    match type of H with context [ReceiptStore.insert _ _ ?d] => set (dr := d) in H end.
    destruct (insert_record _ _ _ _ H) as (n & p & ->).
    exists dr. eexists. split; [exact H|]. split; [eapply draft_ok_intro; [done|apply default_provenance_ok|exact Hv]|done].
Qed.

#[local] Obligation Tactic := idtac.

(** The receipt store keeps what the ledger gives it. *)
#[export] Program Instance receipt_sink_laws : SinkLaws StoreSink receipt_exn (K := sink) := {
  sink_ok := own_table;
  sink_log st kind scope := of_kind kind scope (readable (ss_rows st))
}.
Next Obligation.
  intros st kind scope (Hv & rs & Hs & Hown) Hn. rewrite (readable_rows _ _ Hs) in *.
  apply query_kind; [done|done| |done]. eapply Forall_impl; [exact Hown|]. by intros r [? _].
Qed.
Next Obligation.
  intros st scope payload rid st' i Hok Hwf Hrid Hred H.
  destruct (put_logged _ _ _ _ _ _ Hok Hwf Hrid Hred H) as (d & r & Hi & Hd & Hsc & Hty & Ht & -> & Hid & Hp & He).
  destruct (insert_logged st d (ss_rows st') r scope Hok Hd Hsc Ht (or_introl Hty) Hi (ss_draws st')) as [Hok' Hlog].
  rewrite Hty in Hlog. destruct st' as [rows' n]. cbn [ss_rows ss_draws] in *. split; [done|]. split; [done|].
  rewrite !Hlog. cbn. rewrite app_nil_r. split; [done|]. by exists r.
Qed.
Next Obligation.
  intros st parent scope payload event_id event_type st' Hok Hwf Hred Hnew H.
  destruct (append_logged _ _ _ _ _ _ _ Hok Hwf Hred Hnew H) as (d & r & Hi & Hd & Hsc & Hty & Ht & He & Het & Hp).
  destruct (insert_logged st d (ss_rows st') r scope Hok Hd Hsc Ht (or_intror Hty) Hi (ss_draws st')) as [Hok' Hlog].
  rewrite Hty in Hlog. destruct st' as [rows' n]. cbn [ss_rows ss_draws] in *. split; [done|].
  rewrite !Hlog. cbn. rewrite app_nil_r. split; [done|]. by exists r.
Qed.
End receipt_store.

(** * Rebuilding at the sample: a ledger on the receipt store *)

Module RebuildSample.
Import LedgerSample ExportSample.

Definition empty_store : StoreSink := {| ss_rows := []; ss_draws := 0 |}.

Lemma added_ok : claim_ok (E := receipt_exn) c1 /\ claim_ok (E := receipt_exn) c2.
Proof.
  split; apply sample_ok; try exact I; vm_compute; reflexivity.
Qed.

Lemma claims_plain : plain (claim_payload c1) /\ plain (claim_payload c2).
Proof. split; split; vm_compute; reflexivity. Qed.

Lemma store_ok : own_table digest empty_store "team".
Proof. split; [vm_compute; reflexivity|]. exists []. split; [apply sound_nil|constructor]. Qed.

Lemma steps_clean :
  rtc (clean_step (K := sink) digest "team") s0 s2.
Proof.
  destruct added_ok as [C1 C2], claims_plain as [P1 P2].
  eapply rtc_l; [|apply rtc_once].
  - eapply (clean_add _ _ _ _ c1 "u1" now); [exact C1|exact P1| |vm_compute; reflexivity].
    intros t Ht. discriminate Ht.
  - eapply (clean_add _ _ _ _ c2 "u2" now); [exact C2|exact P2| |vm_compute; reflexivity].
    intros t Ht. injection Ht as <-. split; [split; vm_compute; reflexivity|apply not_elem_of_nil].
Qed.
End RebuildSample.

Lemma rebuild_exact_witness :
  exists store, st_store LedgerSample.s2 = Some store /\
    from_receipt_store (K := LedgerSample.sink) LedgerSample.digest "team" store
    = Ok (persisted LedgerSample.digest (st_ledger LedgerSample.s2)) /\
    cl_status <$> dict_get "c-1" (lg_claims (persisted LedgerSample.digest (st_ledger LedgerSample.s2))) = Some Superseded.
Proof.
  destruct (rebuild_exact (K := LedgerSample.sink)
    (L := receipt_sink_laws LedgerSample.digest LedgerSample.uuid LedgerSample.time)
    LedgerSample.digest "team" RebuildSample.empty_store LedgerSample.s2) as (store & Hs & Hr).
  - exact RebuildSample.store_ok.
  - reflexivity.
  - reflexivity.
  - exact RebuildSample.steps_clean.
  - vm_compute. discriminate.
  - vm_compute. discriminate.
  - exists store. split; [exact Hs|]. split; [exact Hr|]. vm_compute. reflexivity.
Defined.
