(* ===== verification/EventLog.v ===== *)
(** The event log of a run, [EventLog] of [verdict/orchestration/receipt.py]: an append-only file of
    JSON lines.

    A file is its text. A write appends its text at once unless the process dies in it: then any
    part of it may have reached the file. The time of an event is an argument. The files hold
    ASCII, which is all that [json.dumps] writes. *)
From Stdlib Require Import Ascii.
From S2P Require Import Prelude PyStr Time PyNum Regex Json JsonDict Policy Contracts.

(** * Python on JSON values *)

(** [str(v)] at the top, [repr(v)] below it *)
Fixpoint py_text (inner : bool) (v : json) : string :=
  match v with
  | JNull => "None"
  | JBool b => if b then "True" else "False"
  | JInt z => str_of_Z z
  | JFloat "NaN" => "nan"
  | JFloat "Infinity" => "inf"
  | JFloat "-Infinity" => "-inf"
  | JFloat r => r
  | JStr s => if inner then repr s else s
  | JList vs => "[" +:+ join ", " (map (py_text true) vs) +:+ "]"
  | JObj ms => "{" +:+ join ", " (map (fun '(k, v) => repr k +:+ ": " +:+ py_text true v) ms) +:+ "}"
  end.

Definition py_str : json -> string := py_text false.

(** The digits of [int(text)]; an underscore stands between two of them. *)
Fixpoint int_digits (acc : Z) (s : string) : option Z :=
  match s with
  | EmptyString => Some acc
  | String "_" (String d s') => v ← digit_value d; int_digits (10 * acc + v) s'
  | String c s' => v ← digit_value c; int_digits (10 * acc + v) s'
  end.

Definition int_of_text (s : string) : option Z :=
  let '(sign, s) := read_sign (strip s) in
  match s with
  | String c s' => v ← digit_value c; n ← int_digits v s'; Some (sign * n)
  | EmptyString => None
  end.

(** What reading an event raises: a [ValueError], [KeyError] or [TypeError], or else. *)
Inductive event_exn := Malformed | EventOverflow.

(** [int(v)] *)
Definition py_int (v : json) : result event_exn Z :=
  match v with
  | JInt z => Ok z
  | JBool b => Ok (if b then 1 else 0)
  | JStr s => match int_of_text s with Some z => Ok z | None => Err Malformed end
  | JFloat r => match parse_decimal r with
                | Some (Some q) => Ok (Z.quot (Qnum q) (Z.pos (Qden q)))
                | _ => if String.eqb r "NaN" then Err Malformed else Err EventOverflow
                end
  | _ => Err Malformed
  end.

(** * Events *)

(** [RunEvent]; the data is a dict. *)
Record RunEvent := {
  re_seq : Z;
  re_at : string;
  re_type : string;
  re_node : string;
  re_data : list (string * json)
}.

(** [RunEvent.to_dict] *)
Definition event_to_dict (e : RunEvent) : json :=
  obj [("seq", JInt (re_seq e)); ("at", JStr (re_at e)); ("type", JStr (re_type e));
       ("node_id", JStr (re_node e)); ("data", JObj (re_data e))].

Definition need (k : string) (ms : list (string * json)) : result event_exn json :=
  match dict_get k ms with Some v => Ok v | None => Err Malformed end.

(** [RunEvent.from_dict] with the constructor's check. Data that is neither falsy nor an object is
    refused; [dict(...)] would take a list of pairs as well. *)
Definition event_from_dict (v : json) : result event_exn RunEvent :=
  match v with
  | JObj ms =>
      seq ← need "seq" ms;
      seq ← py_int seq;
      at_ ← need "at" ms;
      type ← need "type" ms;
      data ← match dict_get "data" ms with
             | Some (JObj d) => Ok d
             | Some d => if truthy d then Err Malformed else Ok []
             | None => Ok []
             end;
      _ ← raise_if (negb (mem (py_str type) EVENT_TYPES)) Malformed;
      Ok {| re_seq := seq; re_at := py_str at_; re_type := py_str type;
            re_node := match dict_get "node_id" ms with Some n => py_str n | None => "" end;
            re_data := data |}
  | _ => Err Malformed
  end.

(** * Scrubbing *)

Definition QUOTE : string := String quote_char "".

Definition SK_KEY : re := rx "\bsk-[A-Za-z0-9_\-]{8,}".
Definition BEARER : re := rx "\bBearer\s+[A-Za-z0-9._~+/=\-]{8,}".
Definition LABELLED_KEY : re :=
  rx ("\b(api[_-]?key|x-api-key|access[_-]?token)(\s*[=:]\s*)[" +:+ QUOTE +:+ "']?[^\s"
      +:+ QUOTE +:+ "'&,;]+").

(** [p.sub(r"\1\2" + text, s)] *)
Fixpoint sub_groups_from (ci : bool) (r : re) (text : string) (n : nat)
    (prev : option ascii) (s : string) : string :=
  match n, s with
  | S n, String c s' =>
      match match_at ci r prev s with
      | Some (rest, caps) =>
          group 1 caps +:+ group 2 caps +:+ text +:+ sub_groups_from ci r text n (prev_of s rest) rest
      | None => String c (sub_groups_from ci r text n (Some c) s')
      end
  | _, _ => EmptyString
  end.

(** [scrub_secrets] *)
Definition scrub_secrets (text : string) : string :=
  let t1 := sub false SK_KEY "[REDACTED]" text in
  let t2 := sub true BEARER "Bearer [REDACTED]" t1 in
  sub_groups_from true LABELLED_KEY "[REDACTED]" (String.length t2) None t2.

Example scrub_samples :
  scrub_secrets "key sk-abcdefgh1 and risk-abcdefgh1" = "key [REDACTED] and risk-abcdefgh1" /\
  scrub_secrets "BEARER abc.def-123" = "Bearer [REDACTED]" /\
  scrub_secrets "api_key = 'v1', x" = "api_key = [REDACTED]', x" /\
  scrub_secrets "nothing here" = "nothing here".
Proof. vm_compute. repeat split. Qed.

(** The exceptions of the log: [OrchestrationError] with its text or with what it tells of a line,
    and the [OverflowError] of an infinite sequence number *)
Inductive log_exn :=
| LogError (msg : string)
| CorruptEvent (line : Z)
| SeqNotGreater (line seq last : Z)
| LogOverflow.

(** [_clean] *)
Fixpoint clean (v : json) (where_ : string) {struct v} : result log_exn json :=
  match v with
  | JFloat r =>
      if mem r ["NaN"; "Infinity"; "-Infinity"]
      then Err (LogError (where_ +:+ ": non-finite float is not JSON-serializable"))
      else Ok v
  | JStr s => Ok (JStr (scrub_secrets s))
  | JList vs =>
      vs ← (fix items (i : Z) (l : list json) : result log_exn (list json) :=
              match l with
              | [] => Ok []
              | x :: l => x ← clean x (where_ +:+ "[" +:+ str_of_Z i +:+ "]");
                          rest ← items (i + 1) l; Ok (x :: rest)
              end) 0 vs;
      Ok (JList vs)
  | JObj ms =>
      ms ← (fix members (l : list (string * json)) : result log_exn (list (string * json)) :=
              match l with
              | [] => Ok []
              | (k, x) :: l => x ← clean x (where_ +:+ "." +:+ k);
                               rest ← members l; Ok ((k, x) :: rest)
              end) ms;
      Ok (JObj ms)
  | _ => Ok v
  end.

(** * Lines of text *)

Definition LF : ascii := "010"%char.
Definition CR : ascii := "013"%char.

(** What a text file reads as: every line end becomes a line feed. *)
Fixpoint universal_newlines (s : string) : string :=
  match s with
  | EmptyString => EmptyString
  | String c s' =>
      if Ascii.eqb c CR then
        String LF match s' with
                  | String d s'' => if Ascii.eqb d LF then universal_newlines s''
                                    else universal_newlines s'
                  | EmptyString => EmptyString
                  end
      else String c (universal_newlines s')
  end.

(** The lines that end at the characters [p] *)
Fixpoint lines_at (p : ascii -> bool) (s : string) : list string :=
  match s with
  | EmptyString => []
  | String c s' =>
      if p c then "" :: lines_at p s'
      else match lines_at p s' with
           | [] => [String c ""]
           | l :: ls => String c l :: ls
           end
  end.

(** [str.splitlines] *)
Definition is_line_end (c : ascii) : bool :=
  let n := N_of_ascii c in
  ((10 <=? n)%N && (n <=? 13)%N) || ((28 <=? n)%N && (n <=? 30)%N).

Definition splitlines (s : string) : list string := lines_at is_line_end s.

(** * The event log *)

Fixpoint has_newline (s : string) : bool :=
  match s with EmptyString => false | String c s' => Ascii.eqb c LF || has_newline s' end.

(** [raw[:raw.rfind(LF) + 1]] *)
Fixpoint complete_lines (s : string) : string :=
  match s with
  | EmptyString => EmptyString
  | String c s' => if Ascii.eqb c LF || has_newline s' then String c (complete_lines s') else EmptyString
  end.

(** [_repair_torn_tail] *)
Definition repair_torn_tail (file : string) : string :=
  if String.eqb file "" || endswith file (String LF "") then file else complete_lines file.

(** The loop of [read]; [number] counts the lines. *)
Fixpoint read_lines (number last : Z) (lines : list string) : result log_exn (list RunEvent) :=
  match lines with
  | [] => Ok []
  | line :: lines =>
      if String.eqb (strip line) "" then read_lines (number + 1) last lines
      else
        match loads line with
        | None => Err (CorruptEvent number)
        | Some v =>
            match event_from_dict v with
            | Err Malformed => Err (CorruptEvent number)
            | Err EventOverflow => Err LogOverflow
            | Ok e =>
                if re_seq e <=? last then Err (SeqNotGreater number (re_seq e) last)
                else rest ← read_lines (number + 1) (re_seq e) lines; Ok (e :: rest)
            end
        end
  end.

(** [read]; a file that does not exist is the empty one. *)
Definition read_events (file : string) : result log_exn (list RunEvent) :=
  read_lines 1 0 (splitlines (universal_newlines file)).

(** [EventLog(path)]: the repaired file and the last sequence number *)
Definition open_log (file : string) : result log_exn (string * Z) :=
  let file := repair_torn_tail file in
  events ← read_events file;
  Ok (file, match last events with Some e => re_seq e | None => 0 end).

Definition event_line (e : RunEvent) : string := dumps true (event_to_dict e).

(** [emit] on a log whose last sequence number is [seq] *)
Definition emit (file : string) (seq : Z) (type node : string) (data : list (string * json)) (at_ : string)
    : result log_exn (string * RunEvent) :=
  c ← clean (JObj data) (type +:+ ".data");
  let data := match c with JObj d => d | _ => [] end in
  _ ← raise_if (negb (mem type EVENT_TYPES)) (LogError ("unknown event type " +:+ repr type));
  let e := {| re_seq := seq + 1; re_at := at_; re_type := type; re_node := node; re_data := data |} in
  Ok (file +:+ event_line e +:+ String LF "", e).

(** * What is written is read back *)

(** The characters of a line of JSON *)
Definition plain (c : ascii) : bool :=
  let n := N_of_ascii c in (32 <=? n)%N && (n <? 127)%N.

Lemma str_app_cons c a b : String c a +:+ b = String c (a +:+ b).
Proof. done. Qed.

Lemma str_app_assoc a b c : (a +:+ b) +:+ c = a +:+ (b +:+ c).
Proof. induction a as [|x a IH]; [done|]. by rewrite !str_app_cons, IH. Qed.

Lemma all_chars_app p a b : all_chars p (a +:+ b) = all_chars p a && all_chars p b.
Proof. induction a as [|c a IH]; [done|]. rewrite str_app_cons. cbn [all_chars]. by rewrite IH, andb_assoc. Qed.

Lemma all_chars_mono p q s :
  (forall c, p c = true -> q c = true) -> all_chars p s = true -> all_chars q s = true.
Proof.
  intros H. induction s as [|c s IH]; cbn; [done|]. intros [Hc Hs]%andb_true_iff.
  by rewrite (H c), IH.
Qed.

Lemma escape_plain c tail : all_chars plain (escape true c tail) = all_chars plain tail.
Proof. destruct c as [[] [] [] [] [] [] [] []]; reflexivity. Qed.

Lemma escapes_plain s tail : all_chars plain (escapes true s tail) = all_chars plain tail.
Proof. induction s as [|c s IH]; cbn [escapes]; [done|]. by rewrite escape_plain. Qed.

Lemma print_str_plain s tail : all_chars plain (print_str true s tail) = all_chars plain tail.
Proof. unfold print_str. cbn [all_chars]. rewrite escapes_plain. done. Qed.

Lemma numeral_plain s : all_chars is_numeral s = true -> all_chars plain s = true.
Proof. apply all_chars_mono. intros c. destruct c as [[] [] [] [] [] [] [] []]; vm_compute; done. Qed.

Lemma float_plain r : float_ok r = true -> all_chars plain r = true.
Proof. intros [[H _]|[->|[->| ->]]]%float_ok_cases; [by apply numeral_plain|done..]. Qed.

Lemma print_plain v tail : json_wf v = true -> all_chars plain (print true v tail) = all_chars plain tail.
Proof.
  revert tail. induction v as [|[]|z|r|s|vs IH|ms IH] using json_nested_ind; intros tail Hw; cbn [print].
  - done.
  - done.
  - done.
  - rewrite all_chars_app, (numeral_plain _ (str_of_Z_chars z)). done.
  - cbn in Hw. by rewrite all_chars_app, float_plain.
  - apply print_str_plain.
  - destruct vs as [|v vs]; [done|]. cbn [all_chars]. cbn in Hw. apply andb_true_iff in Hw as [Hv Hvs].
    apply Forall_cons in IH as [Hi IH]. rewrite Hi by done. cbn [andb]. clear Hi Hv.
    revert Hvs. induction IH as [|x vs Hx _ IH']; intros Hvs; cbn [foldr all_chars]; [done|].
    cbn in Hvs. apply andb_true_iff in Hvs as [H1 H2]. rewrite Hx by done. by apply IH'.
  - destruct ms as [|[k v] ms]; [done|]. cbn [all_chars]. rewrite print_str_plain.
    cbn [json_wf] in Hw. apply andb_true_iff in Hw as [_ Hw]. cbn in Hw. apply andb_true_iff in Hw as [Hv Hms].
    apply Forall_cons in IH as [Hi IH]. cbn [snd] in Hi. cbn [all_chars]. rewrite Hi by done. cbn [andb]. clear Hi Hv.
    revert Hms. induction IH as [|[k' x] ms Hx _ IH']; intros Hms; cbn [foldr all_chars]; [done|].
    cbn in Hms. apply andb_true_iff in Hms as [H1 H2]. rewrite print_str_plain. cbn [all_chars].
    cbn [snd] in Hx. rewrite Hx by done. by apply IH'.
Qed.

(** The text of complete lines *)
Fixpoint text_of (ls : list string) : string :=
  match ls with [] => "" | l :: ls => l +:+ String LF (text_of ls) end.

Lemma text_of_app ls ls' : text_of (ls ++ ls') = text_of ls +:+ text_of ls'.
Proof. induction ls as [|l ls IH]; cbn [app text_of]; [done|]. by rewrite IH, str_app_assoc. Qed.

Lemma newlines_id s :
  all_chars (fun c => plain c || Ascii.eqb c LF) s = true -> universal_newlines s = s.
Proof.
  induction s as [|c s IH]; [done|]. cbn [all_chars universal_newlines]. intros [Hc Hs]%andb_true_iff.
  destruct (Ascii.eqb_spec c CR) as [->|Hne]; [by vm_compute in Hc|]. by rewrite IH.
Qed.

Lemma text_chars ls : Forall (fun l => all_chars plain l = true) ls ->
  all_chars (fun c => plain c || Ascii.eqb c LF) (text_of ls) = true.
Proof.
  induction 1 as [|l ls Hl _ IH]; [done|]. cbn [text_of]. rewrite all_chars_app. cbn [all_chars].
  rewrite IH. change (Ascii.eqb LF LF) with true. rewrite orb_true_r, !andb_true_r.
  eapply all_chars_mono; [|exact Hl]. intros c ->. done.
Qed.

Lemma line_ends_plain c : plain c = true -> is_line_end c = false /\ Ascii.eqb c LF = false.
Proof. destruct c as [[] [] [] [] [] [] [] []]; vm_compute; done. Qed.

Lemma lines_at_line l rest :
  all_chars plain l = true -> splitlines (l +:+ String LF rest) = l :: splitlines rest.
Proof.
  unfold splitlines. induction l as [|c l IH]; [done|]. cbn [all_chars]. intros [Hc Hl]%andb_true_iff.
  rewrite str_app_cons. cbn [lines_at].
  destruct (line_ends_plain c Hc) as [-> _]. by rewrite IH.
Qed.

Lemma splitlines_text ls :
  Forall (fun l => all_chars plain l = true) ls -> splitlines (text_of ls) = ls.
Proof. induction 1 as [|l ls Hl _ IH]; [done|]. cbn [text_of]. by rewrite lines_at_line, IH. Qed.

(** ** Torn tails *)

Lemma plain_no_newline s : all_chars plain s = true -> has_newline s = false.
Proof.
  induction s as [|c s IH]; [done|]. cbn. intros [Hc Hs]%andb_true_iff.
  destruct (line_ends_plain c Hc) as [_ ->]. by apply IH.
Qed.

Lemma has_newline_app a b : has_newline (a +:+ b) = has_newline a || has_newline b.
Proof. induction a as [|c a IH]; [done|]. rewrite str_app_cons. cbn [has_newline]. by rewrite IH, orb_assoc. Qed.

Lemma complete_ended g : complete_lines (g +:+ String LF "") = g +:+ String LF "".
Proof.
  induction g as [|c g IH]; [done|]. rewrite !str_app_cons.
  cbn [complete_lines]. rewrite has_newline_app, IH. cbn [has_newline]. by rewrite !orb_true_r.
Qed.

Lemma endswith_newline s : endswith s (String LF "") = true -> exists g, s = g +:+ String LF "".
Proof.
  unfold endswith. cbn [String.length]. intros [Hl H]%andb_true_iff. apply String.eqb_eq in H.
  exists (take_str (String.length s - 1) s). rewrite <- H. clear. generalize (String.length s - 1)%nat.
  induction s as [|c s IH]; intros [|n]; [done..|]. cbn [take_str drop_str]. by rewrite str_app_cons, <- IH.
Qed.

Lemma repair_complete s : repair_torn_tail s = complete_lines s.
Proof.
  unfold repair_torn_tail. destruct (String.eqb_spec s "") as [->|_]; [done|]. cbn [orb].
  destruct (endswith s (String LF "")) eqn:He; [|done]. apply endswith_newline in He as (g & ->).
  by rewrite complete_ended.
Qed.

Lemma complete_none t : has_newline t = false -> complete_lines t = "".
Proof. destruct t as [|d t]; [done|]. cbn [has_newline complete_lines]. by intros ->. Qed.

Lemma complete_app g t : has_newline t = false -> complete_lines (g +:+ String LF t) = g +:+ String LF "".
Proof.
  intros Ht. induction g as [|c g IH].
  - change ("" +:+ String LF t) with (String LF t). cbn [complete_lines]. by rewrite complete_none.
  - rewrite !str_app_cons. cbn [complete_lines].
    rewrite has_newline_app, IH. cbn [has_newline]. by rewrite !orb_true_r.
Qed.

Lemma text_of_ended ls : ls <> [] -> exists g, text_of ls = g +:+ String LF "".
Proof.
  destruct ls as [|l ls _] using rev_ind; [done|]. intros _. rewrite text_of_app. cbn [text_of].
  exists (text_of ls +:+ l). by rewrite str_app_assoc.
Qed.

Lemma repair_text ls t : all_chars plain t = true -> repair_torn_tail (text_of ls +:+ t) = text_of ls.
Proof.
  intros Ht%plain_no_newline. rewrite repair_complete. destruct (decide (ls = [])) as [->|Hne].
  - by apply complete_none.
  - destruct (text_of_ended ls Hne) as (g & ->). rewrite str_app_assoc. by apply complete_app.
Qed.

(** ** Events *)

Record event_ok (e : RunEvent) : Prop := {
  eo_type : mem (re_type e) EVENT_TYPES = true;
  eo_data : json_wf (JObj (re_data e)) = true
}.

Lemma event_dict_wf e : event_ok e -> json_wf (event_to_dict e) = true.
Proof. intros [_ Hd]. apply obj_wf. repeat (apply Forall_cons; split; [try exact Hd; done|]). by apply Forall_nil. Qed.

Lemma event_roundtrip e : event_ok e -> event_from_dict (event_to_dict e) = Ok e.
Proof.
  intros [Ht _]. unfold event_to_dict, obj.
  assert (obj_of [("seq", JInt (re_seq e)); ("at", JStr (re_at e)); ("type", JStr (re_type e));
       ("node_id", JStr (re_node e)); ("data", JObj (re_data e))]
    = [("at", JStr (re_at e)); ("data", JObj (re_data e)); ("node_id", JStr (re_node e));
       ("seq", JInt (re_seq e)); ("type", JStr (re_type e))]) as -> by reflexivity.
  unfold event_from_dict, need. cbn [dict_get String.eqb Ascii.eqb Bool.eqb mbind result_mbind result_bind py_int].
  change (py_str (JStr (re_type e))) with (re_type e). rewrite Ht. by destruct e.
Qed.

Lemma event_line_plain e : event_ok e -> all_chars plain (event_line e) = true.
Proof. intros He%event_dict_wf. unfold event_line, dumps. by rewrite print_plain. Qed.

Lemma event_line_filled e : strip (event_line e) <> "".
Proof.
  assert (exists s, event_line e = String "{" s) as (s & ->) by (unfold event_line, dumps, event_to_dict, obj; cbn; eauto).
  unfold strip. change (lstrip_by is_space (String "{" s)) with (String "{" s). cbn [rstrip_by].
  by destruct (rstrip_by is_space s).
Qed.

(** The events are numbered from the one after [n]. *)
Fixpoint numbered (n : Z) (es : list RunEvent) : Prop :=
  match es with [] => True | e :: es => re_seq e = n + 1 /\ numbered (n + 1) es end.

Lemma read_back k n es :
  Forall event_ok es -> numbered n es -> read_lines k n (map event_line es) = Ok es.
Proof.
  intros H. revert k n. induction H as [|e es He _ IH]; intros k n Hn; [done|]. destruct Hn as [Hs Hn].
  cbn [map read_lines]. rewrite (proj2 (String.eqb_neq _ _)) by apply event_line_filled.
  unfold event_line at 1. rewrite loads_dumps by by apply event_dict_wf. rewrite event_roundtrip by done.
  rewrite Hs. replace (n + 1 <=? n) with false by (symmetry; apply Z.leb_gt; lia). by rewrite IH.
Qed.

Lemma numbered_snoc n es e :
  numbered n (es ++ [e]) <-> numbered n es /\ re_seq e = n + Z.of_nat (length es) + 1.
Proof.
  revert n; induction es as [|x es IH]; intros n; cbn [app numbered length].
  - replace (n + Z.of_nat 0) with n by lia. tauto.
  - rewrite IH. replace (n + 1 + Z.of_nat (length es)) with (n + Z.of_nat (Datatypes.S (length es))) by lia. tauto.
Qed.

Lemma numbered_last es e : numbered 0 es -> last es = Some e -> re_seq e = Z.of_nat (length es).
Proof.
  destruct es as [|x es _] using rev_ind; [done|]. rewrite numbered_snoc, last_snoc, length_app.
  intros [_ H] [= <-]. rewrite H. cbn. lia.
Qed.

Lemma events_plain es : Forall event_ok es -> Forall (fun l => all_chars plain l = true) (map event_line es).
Proof. intros H. apply Forall_map. eapply Forall_impl; [exact H|]. apply event_line_plain. Qed.

Lemma read_events_text es :
  Forall event_ok es -> numbered 0 es -> read_events (text_of (map event_line es)) = Ok es.
Proof.
  intros Hok Hn. unfold read_events. pose proof (events_plain es Hok) as Hp.
  rewrite newlines_id by by apply text_chars. rewrite splitlines_text by done. by apply read_back.
Qed.

Lemma open_log_text es t :
  Forall event_ok es -> numbered 0 es -> all_chars plain t = true ->
  open_log (text_of (map event_line es) +:+ t) = Ok (text_of (map event_line es), Z.of_nat (length es)).
Proof.
  intros Hok Hn Ht. unfold open_log. rewrite repair_text, read_events_text by done.
  cbn [mbind result_mbind result_bind]. destruct (last es) as [e|] eqn:Hl.
  - by rewrite (numbered_last es e).
  - by apply last_None in Hl as ->.
Qed.

(** ** Cleaning keeps the form of a value *)

#[local] Abbreviation clean_items w :=
  (fix items (i : Z) (l : list json) : result log_exn (list json) :=
     match l with
     | [] => Ok []
     | x :: l => x ← clean x (w +:+ "[" +:+ str_of_Z i +:+ "]");
                 rest ← items (i + 1) l; Ok (x :: rest)
     end).

#[local] Abbreviation clean_members w :=
  (fix members (l : list (string * json)) : result log_exn (list (string * json)) :=
     match l with
     | [] => Ok []
     | (k, x) :: l => x ← clean x (w +:+ "." +:+ k);
                      rest ← members l; Ok ((k, x) :: rest)
     end).

Definition cleans_well (v : json) : Prop :=
  forall w v', clean v w = Ok v' -> json_wf v = true -> json_wf v' = true.

Lemma clean_items_wf w vs : Forall cleans_well vs -> forall i vs',
  clean_items w i vs = Ok vs' -> forallb json_wf vs = true -> forallb json_wf vs' = true.
Proof.
  induction 1 as [|x vs Hx _ IH]; intros i vs'; [by intros [= <-]|].
  intros H. apply bind_ok in H as (y & Hy & H). apply bind_ok in H as (rest & Hr & [= <-]).
  cbn [forallb]. intros [H1 H2]%andb_true_iff. rewrite (Hx _ _ Hy H1). by apply (IH _ _ Hr).
Qed.

Lemma clean_members_wf w ms : Forall (fun m => cleans_well m.2) ms -> forall ms',
  clean_members w ms = Ok ms' -> forallb (fun m => json_wf m.2) ms = true ->
  map fst ms' = map fst ms /\ forallb (fun m => json_wf m.2) ms' = true.
Proof.
  induction 1 as [|[k x] ms Hx _ IH]; intros ms'; [by intros [= <-]|].
  intros H. apply bind_ok in H as (y & Hy & H). apply bind_ok in H as (rest & Hr & [= <-]).
  cbn [forallb]. intros [H1 H2]%andb_true_iff. destruct (IH _ Hr H2) as [Hk Hw].
  cbn [map fst forallb snd]. rewrite (Hx _ _ Hy H1), Hk. done.
Qed.

Lemma clean_object ms w v' :
  clean (JObj ms) w = Ok v' -> exists ms', v' = JObj ms' /\ clean_members w ms = Ok ms'.
Proof. intros H. cbn [clean] in H. apply bind_ok in H as (ms' & Hm & [= <-]). by exists ms'. Qed.

Lemma clean_wf v : cleans_well v.
Proof.
  induction v as [|b|z|r|s|vs IH|ms IH] using json_nested_ind; intros w v' H Hw.
  - by injection H as <-.
  - by injection H as <-.
  - by injection H as <-.
  - cbn [clean] in H. destruct (mem r _); [done|]. by injection H as <-.
  - by injection H as <-.
  - cbn [clean] in H. apply bind_ok in H as (vs' & Hv & [= <-]). by apply (clean_items_wf w vs IH 0).
  - apply clean_object in H as (ms' & -> & Hm). cbn [json_wf] in Hw |- *. apply andb_true_iff in Hw as [Hi Hw].
    destruct (clean_members_wf w ms IH ms' Hm Hw) as [-> ->]. by rewrite Hi.
Qed.

Lemma emit_ok file seq type node data at_ file' e :
  json_wf (JObj data) = true -> emit file seq type node data at_ = Ok (file', e) ->
  event_ok e /\ re_seq e = seq + 1 /\ re_type e = type /\ re_node e = node /\
  file' = file +:+ (event_line e +:+ String LF "").
Proof.
  intros Hw H. unfold emit in H. apply bind_ok in H as (c & Hc & H). apply bind_ok in H as (u & Ht & [= <- <-]).
  apply raise_if_ok, negb_false_iff in Ht. pose proof (clean_wf _ _ _ Hc Hw) as Hcw.
  apply clean_object in Hc as (ms' & -> & _). done.
Qed.

(** * Every history of one writer *)

(** [writes file open events]: the log may hold this text, an open one with this last number, after
    the calls of [emit] that returned these events; a process may die at any point, [emit] included, where
    any part of the line may have been written. *)
Inductive writes : string -> option Z -> list RunEvent -> Prop :=
| writes_new : writes "" None []
| writes_open file file' n events :
    writes file None events -> open_log file = Ok (file', n) -> writes file' (Some n) events
| writes_emit file file' n events type node data at_ e :
    writes file (Some n) events -> json_wf (JObj data) = true ->
    emit file n type node data at_ = Ok (file', e) -> writes file' (Some (re_seq e)) (events ++ [e])
| writes_refused file n events type node data at_ x :
    writes file (Some n) events -> emit file n type node data at_ = Err x -> writes file (Some n) events
| writes_crash file n events : writes file (Some n) events -> writes file None events
| writes_torn file file' n events type node data at_ e part rest :
    writes file (Some n) events -> json_wf (JObj data) = true ->
    emit file n type node data at_ = Ok (file', e) -> file' = file +:+ (part +:+ rest) ->
    writes (file +:+ part) None events.

(** What such a file holds: the lines of numbered events, the returned ones among them, and the
    part of a line that a crash left *)
Record holds (file : string) (open : option Z) (events all : list RunEvent) (tail : string) : Prop := {
  ho_file : file = text_of (map event_line all) +:+ tail;
  ho_tail : all_chars plain tail = true;
  ho_ok : Forall event_ok all;
  ho_seq : numbered 0 all;
  ho_events : events `sublist_of` all;
  ho_open : match open with Some n => tail = "" /\ n = Z.of_nat (length all) | None => True end
}.

Lemma append_inj a b c : a +:+ b = a +:+ c -> b = c.
Proof. induction a as [|x a IH]; [done|]. rewrite !str_app_cons. by intros [= ?%IH]. Qed.

(** A part of a line is a text without line ends, or the whole line. *)
Lemma part_of_line part rest l :
  all_chars plain l = true -> part +:+ rest = l +:+ String LF "" ->
  all_chars plain part = true \/ part = l +:+ String LF "".
Proof.
  revert part; induction l as [|c l IH]; intros part Hl H.
  - destruct part as [|d part]; [by left|]. rewrite str_app_cons in H. injection H as -> H.
    right. destruct part; [done|]. by rewrite str_app_cons in H.
  - cbn [all_chars] in Hl. apply andb_true_iff in Hl as [Hc Hl].
    destruct part as [|d part]; [by left|]. rewrite !str_app_cons in H. injection H as -> H.
    destruct (IH part Hl H) as [Hp|Hp]; [left|right].
    + cbn [all_chars]. by rewrite Hc.
    + by rewrite Hp, str_app_cons.
Qed.

Lemma text_snoc all e : text_of (map event_line all) +:+ (event_line e +:+ String LF "") = text_of (map event_line (all ++ [e])).
Proof. by rewrite map_app, text_of_app. Qed.

Lemma append_event file n events all tail type node data at_ file' e :
  holds file (Some n) events all tail -> json_wf (JObj data) = true ->
  emit file n type node data at_ = Ok (file', e) ->
  tail = "" /\ file = text_of (map event_line all) /\ file' = file +:+ (event_line e +:+ String LF "") /\
  Forall event_ok (all ++ [e]) /\ numbered 0 (all ++ [e]) /\ re_seq e = Z.of_nat (length (all ++ [e])).
Proof.
  intros [Hf _ Hok Hseq _ [-> ->]] Hw He. apply emit_ok in He as (Hev & Hs & _ & _ & ->); [|done].
  rewrite str_app_nil_r in Hf. split; [done|]. split; [done|]. split; [done|]. rewrite Forall_app, numbered_snoc, length_app.
  cbn [length]. rewrite Forall_singleton. split; [done|]. split; [split; [done|]|]; lia.
Qed.

Lemma writes_hold file open events : writes file open events -> exists all tail, holds file open events all tail.
Proof.
  induction 1 as [|file file' n events _ (all & tail & [-> Ht Hok Hseq Hsub _]) H
    |file file' n events type node data at_ e _ (all & tail & Hh) Hw He
    |file n events type node data at_ x _ IH _
    |file n events _ (all & tail & [-> Ht Hok Hseq Hsub _])
    |file file' n events type node data at_ e part rest _ (all & tail & Hh) Hw He Hpart].
  - exists [], "". split; try done; constructor.
  - rewrite open_log_text in H by done. injection H as <- <-. exists all, "". split; try done.
    by rewrite str_app_nil_r.
  - destruct (append_event _ _ _ _ _ _ _ _ _ _ _ Hh Hw He) as (-> & Hf & -> & Hok & Hseq & Hlen).
    exists (all ++ [e]), "". split; try done.
    + by rewrite Hf, text_snoc, str_app_nil_r.
    + apply sublist_app; [apply Hh|done].
  - exact IH.
  - exists all, tail. by split.
  - destruct (append_event _ _ _ _ _ _ _ _ _ _ _ Hh Hw He) as (-> & Hf & Hf' & Hok & Hseq & Hlen).
    rewrite Hpart in Hf'. apply append_inj in Hf'. pose proof Hok as [Hok1 Hok2]%Forall_app. rewrite Forall_singleton in Hok2.
    destruct (part_of_line part rest (event_line e)) as [Hp| ->]; [by apply event_line_plain|done|..].
    + exists all, part. split; try done; [by rewrite Hf|by apply numbered_snoc in Hseq as [? _]|apply Hh].
    + exists (all ++ [e]), "". split; try done.
      * by rewrite Hf, text_snoc, str_app_nil_r.
      * rewrite <- (app_nil_r events). apply sublist_app; [apply Hh|apply sublist_nil_l].
Qed.

(** C29: the event log survives crashes: whatever processes wrote to it one after the other, and wherever
    they died, opening it succeeds, drops at most the part of one line, and what is read is a list of
    events numbered 1, 2, 3, ... that holds every event whose [emit] returned, in order; the number
    of the last one is where the log goes on. *)
Theorem log_survives_crashes file open events :
  writes file open events ->
  exists file' all, open_log file = Ok (file', Z.of_nat (length all)) /\
    read_events file' = Ok all /\ numbered 0 all /\ events `sublist_of` all /\
    (exists lost, file = file' +:+ lost /\ has_newline lost = false) /\
    match open with Some n => file' = file /\ n = Z.of_nat (length all) | None => True end.
Proof.
  intros H. destruct (writes_hold _ _ _ H) as (all & tail & [-> Ht Hok Hseq Hsub Ho]).
  exists (text_of (map event_line all)), all. rewrite open_log_text, read_events_text by done.
  split; [done|]. split; [done|]. split; [done|]. split; [done|]. split.
  - exists tail. split; [done|by apply plain_no_newline].
  - destruct open as [n|]; [|done]. destruct Ho as [-> ->]. by rewrite str_app_nil_r.
Qed.

(** * A small log *)

Module LogSample.
Definition sample_stamp : string := "2026-01-01T00:00:00Z".
Definition event (n : Z) (type node : string) (data : list (string * json)) : RunEvent :=
  {| re_seq := n; re_at := sample_stamp; re_type := type; re_node := node; re_data := data |}.
Definition started : RunEvent := event 1 "run_started" "" [("run_id", JStr "r1")].
Definition verified : RunEvent := event 2 "verify" "n1" [("ok", JBool true)].

(** The log after its first event, and the parts in which its second line is written *)
Definition file1 : string := Eval vm_compute in event_line started +:+ String LF "".
Definition part : string := Eval vm_compute in take_str 20 (event_line verified).
Definition rest : string := Eval vm_compute in drop_str 20 (event_line verified) +:+ String LF "".

Lemma first_written : writes file1 (Some 1) [started].
Proof.
  apply (writes_emit "" file1 0 [] "run_started" "" [("run_id", JStr "r1")] sample_stamp started).
  - apply (writes_open "" "" 0 []); [constructor|reflexivity].
  - reflexivity.
  - vm_compute. reflexivity.
Qed.

Lemma second_torn : writes (file1 +:+ part) None [started].
Proof.
  apply (writes_torn file1 (file1 +:+ (part +:+ rest)) 1 [started] "verify" "n1" [("ok", JBool true)] sample_stamp
    verified part rest first_written).
  - reflexivity.
  - vm_compute. reflexivity.
  - reflexivity.
Qed.
End LogSample.

Lemma log_survives_crashes_witness :
  exists all, open_log (LogSample.file1 +:+ LogSample.part) = Ok (LogSample.file1, 1) /\
    read_events LogSample.file1 = Ok all /\ [LogSample.started] `sublist_of` all.
Proof.
  destruct (log_survives_crashes _ _ _ LogSample.second_torn) as (file & all & Ho & Hr & _ & Hs & _).
  assert (E : open_log (LogSample.file1 +:+ LogSample.part) = Ok (LogSample.file1, 1)) by (vm_compute; reflexivity).
  exists all. split; [exact E|]. rewrite E in Ho. injection Ho as <- _. split; [exact Hr|exact Hs].
Defined.

(** Opening a log repairs it, also when a reader opens the log of a live run: when it does so while the
    writer's line is partly in the file, it cuts the part off, the writer's append puts the rest of the line
    behind the lines before it, and the log can no longer be read. *)
Theorem reader_breaks_live_log :
  open_log (LogSample.file1 +:+ LogSample.part) = Ok (LogSample.file1, 1) /\
  read_events (LogSample.file1 +:+ (LogSample.part +:+ LogSample.rest)) = Ok [LogSample.started; LogSample.verified] /\
  read_events (LogSample.file1 +:+ LogSample.rest) = Err (CorruptEvent 2).
Proof. split; [|split]; vm_compute; reflexivity. Qed.
