(* ===== verification/GraphJson.v ===== *)
(** Work graphs as JSON: [WorkNode.from_dict], [WorkNode.to_dict], [WorkGraph.from_dict],
    [WorkGraph.to_dict] and [digest] of [verdict/orchestration/contracts.py].

    What the constructors take as it comes without a check (the story, the flags, the context size, the
    items of the rationale) has its declared type here, and is refused otherwise. *)
From Stdlib Require Import Ascii.
From S2P Require Import Prelude PyStr Json JsonDict Contracts EventLog.

(** What reading a graph raises: the exceptions of the constructors, or a [TypeError],
    [AttributeError] or [ValueError] of Python's own. *)
Inductive graph_exn := GraphError (e : orch_exn) | GraphTypeError.

Definition SCHEMA_VERSION : string := "verdict.orchestration/v1".

(** The fields of [WorkNode], sorted *)
Definition NODE_FIELDS : list string :=
  ["acceptance"; "barrier"; "coding"; "depends_on"; "kind"; "min_context_tokens"; "node_id";
   "objective"; "owned_files"; "reasoning"; "required_capabilities"; "required_context"; "risk";
   "story"; "verification_command"].

(** A list field, with its items as text *)
Definition text_list (ms : list (string * json)) (key : string) (default_ : list string)
    : result graph_exn (list string) :=
  match dict_get key ms with
  | None => Ok default_
  | Some (JList vs) => Ok (map py_str vs)
  | Some _ => Err (GraphError (OrchestrationError (key +:+ " must be a list")))
  end.

(** A field that is taken as it is *)
Definition typed_field {A} (f : json -> option A) (ms : list (string * json)) (key : string) (default_ : A)
    : result graph_exn A :=
  match dict_get key ms with
  | None => Ok default_
  | Some v => match f v with Some x => Ok x | None => Err GraphTypeError end
  end.

Definition str_value (v : json) : option string := match v with JStr s => Some s | _ => None end.
Definition bool_value (v : json) : option bool := match v with JBool b => Some b | _ => None end.
Definition int_value (v : json) : option Z := match v with JInt z => Some z | _ => None end.

Definition arg_of (v : json) : py_arg :=
  match v with JBool b => ABool b | JStr s => AStr s | _ => AOther (py_str v) end.

Definition of_graph {A} (m : result orch_exn A) : result graph_exn A :=
  match m with Ok x => Ok x | Err e => Err (GraphError e) end.

(** A string argument without a default: its absence is a [TypeError], another type has no
    [strip]. *)
Definition required_str (ms : list (string * json)) (key : string) : result graph_exn string :=
  match dict_get key ms with Some (JStr s) => Ok s | _ => Err GraphTypeError end.

(** What [set(value)] takes the fields from, where they are text *)
Definition field_keys (v : json) : option (list string) :=
  match v with
  | JObj ms => Some (map fst ms)
  | JStr s => Some (map (fun c => String c "") (String.list_ascii_of_string s))
  | JList vs => match map_result (fun x => match x with JStr s => Ok s | _ => Err tt end) vs with
                | Ok ks => Some ks
                | Err _ => None
                end
  | _ => None
  end.

(** [WorkNode.from_dict]. A list of items that are no text is refused as one that has no order. *)
Definition node_from_dict (v : json) : result graph_exn WorkNode :=
  keys ← match field_keys v with Some ks => Ok ks | None => Err GraphTypeError end;
  let unknown := sort_str (dedupe (List.filter (fun k => negb (mem k NODE_FIELDS)) keys)) in
  _ ← raise_if (match unknown with [] => false | _ => true end)
        (GraphError (OrchestrationError ("work node has unknown field(s): " +:+ repr_list unknown)));
  match v with
  | JObj ms =>
      depends ← text_list ms "depends_on" [];
      owned ← text_list ms "owned_files" [];
      context ← text_list ms "required_context" [];
      acceptance ← text_list ms "acceptance" [];
      command ← text_list ms "verification_command" [];
      capabilities ← text_list ms "required_capabilities" ["tools"];
      id ← required_str ms "node_id";
      objective ← required_str ms "objective";
      story ← typed_field str_value ms "story" "";
      coding ← typed_field bool_value ms "coding" true;
      reasoning ← typed_field bool_value ms "reasoning" false;
      tokens ← typed_field int_value ms "min_context_tokens" 32000;
      of_graph (work_node
        {| a_node_id := id; a_objective := objective;
           a_kind := match dict_get "kind" ms with Some k => py_str k | None => "implement" end;
           a_story := story; a_depends_on := depends; a_owned_files := owned;
           a_required_context := context; a_acceptance := acceptance;
           a_verification_command := command;
           a_barrier := match dict_get "barrier" ms with Some b => arg_of b | None => AStr "" end;
           a_risk := match dict_get "risk" ms with Some r => arg_of r | None => AStr "low" end;
           a_required_capabilities := capabilities; a_coding := coding; a_reasoning := reasoning;
           a_min_context_tokens := tokens |})
  | _ => Err GraphTypeError
  end.

Definition topology_value (t : Topology.t) : string :=
  match t with
  | Topology.SOLO => "SOLO" | Topology.WORKER_CRITIC => "WORKER_CRITIC"
  | Topology.PARALLEL_WORK_UNITS => "PARALLEL_WORK_UNITS"
  end.

(** [Topology(value)] *)
Definition topology_of (s : string) : result graph_exn Topology.t :=
  match List.find (fun t => String.eqb (topology_value t) s)
          [Topology.SOLO; Topology.WORKER_CRITIC; Topology.PARALLEL_WORK_UNITS] with
  | Some t => Ok t
  | None => Err (GraphError (EnumError s))
  end.

(** [int(v)] of a member *)
Definition int_member (v : json) : result graph_exn Z :=
  match py_int v with Ok z => Ok z | Err _ => Err GraphTypeError end.

(** [WorkGraph.from_dict] *)
Definition graph_from_dict (ms : list (string * json)) : result graph_exn WorkGraph :=
  match dict_get "nodes" ms with
  | Some (JList vs) =>
      ns ← map_result node_from_dict vs;
      topology ← topology_of (match dict_get "topology" ms with Some v => py_str v | None => "PARALLEL_WORK_UNITS" end);
      rationale ← match dict_get "rationale" ms with
                  | None => Ok []
                  | Some (JList rs) => map_result (fun r => match str_value r with
                                                          | Some s => Ok s
                                                          | None => Err GraphTypeError
                                                          end) rs
                  | Some _ => Err GraphTypeError
                  end;
      parallel ← match dict_get "max_parallel" ms with Some v => int_member v | None => Ok 3 end;
      of_graph (work_graph (match dict_get "goal" ms with Some v => py_str v | None => "" end)
                  ns topology rationale parallel)
  | _ => Err (GraphError (OrchestrationError "graph.nodes must be a list"))
  end.

Definition strings (l : list string) : json := JList (map JStr l).

(** [WorkNode.to_dict] *)
Definition node_to_dict (n : WorkNode) : json :=
  obj [("node_id", JStr (node_id n)); ("objective", JStr (objective n));
       ("kind", JStr (NodeKind.value (kind n))); ("story", JStr (story n));
       ("depends_on", strings (depends_on n)); ("owned_files", strings (owned_files n));
       ("required_context", strings (required_context n)); ("acceptance", strings (acceptance n));
       ("verification_command", strings (verification_command n)); ("barrier", JStr (barrier n));
       ("risk", JStr (risk n)); ("required_capabilities", strings (required_capabilities n));
       ("coding", JBool (coding n)); ("reasoning", JBool (reasoning n));
       ("min_context_tokens", JInt (min_context_tokens n))].

(** [WorkGraph.to_dict] *)
Definition graph_to_dict (g : WorkGraph) : json :=
  obj [("schema_version", JStr SCHEMA_VERSION); ("goal", JStr (goal g));
       ("topology", JStr (topology_value (topology g))); ("rationale", strings (rationale g));
       ("max_parallel", JInt (max_parallel g)); ("nodes", JList (map node_to_dict (nodes g)))].

(** [canonical_digest] of its dict *)
Definition graph_digest (sha256_hex : string -> string) (g : WorkGraph) : string :=
  "sha256:" +:+ sha256_hex (dumps true (graph_to_dict g)).
