(* ===== verification/RunReceipt.v ===== *)
(** The receipt of a run: the projection of the event log in
    [verdict/orchestration/receipt.py], [build_run_receipt], its check [verify_run_receipt] and the
    decision [completion_verdict].

    A receipt is the JSON object that is written; reading the files is done: the event log is its
    text, [graph.json], [review.json] and [receipt.json] are objects, or absent. SHA-256 and
    [security.redact_text], whose patterns look behind, are arguments. *)
From Stdlib Require Import Ascii.
From S2P Require Import Prelude PyStr Json JsonDict Policy Contracts ReceiptStore EventLog GraphJson.

Definition RECEIPT_SCHEMA : string := "verdict.run-receipt/v1".

(** [OrchestrationError] with what it tells, or an exception of Python's own *)
Inductive receipt_error :=
| Orchestration (msg : string)
| EventLogError (e : log_exn)
| GraphJsonError (e : graph_exn)
| PyTypeError.

Abbreviation members := (list (string * json)).
Abbreviation res := (result receipt_error).

(** * Members of a dict *)

Definition fetch (k : string) (ms : members) : json := default JNull (dict_get k ms).

(** [x or y] *)
Definition or_else (x y : json) : json := if truthy x then x else y.

Definition is_true (v : json) : bool := match v with JBool true => true | _ => false end.

Definition is_object (v : json) : option members := match v with JObj ms => Some ms | _ => None end.

(** [d\[k\] = str(v)] when [v] is truthy *)
Definition set_if (k : string) (v : json) (ms : members) : members :=
  if truthy v then obj_set k (JStr (py_str v)) ms else ms.

Definition remove (k : string) (ms : members) : members :=
  List.filter (fun m => negb (String.eqb m.1 k)) ms.

(** [list(v)] *)
Definition list_of (v : json) : res (list json) :=
  match v with
  | JList vs => Ok vs
  | JObj ms => Ok (map (fun m => JStr m.1) ms)
  | JStr s => Ok (map (fun c => JStr (String c "")) (String.list_ascii_of_string s))
  | _ => Err PyTypeError
  end.

(** [float(v)] of an [int], exact up to 2^53 *)
Definition float_of (v : json) : option json :=
  match v with
  | JInt z => Some (JFloat (str_of_Z z +:+ ".0"))
  | JBool b => Some (JFloat (if b then "1.0" else "0.0"))
  | JFloat r => Some v
  | _ => None
  end.

(** * One node *)

Definition PROBE_FIELDS : list string :=
  ["probe_class"; "cache_checked_at"; "cache_freshness"; "evidence_level"].
Definition SERVED_FIELDS : list string := ["provider"; "model"; "connection_id"; "decision_strategy"].

(** [_attempt_of] *)
Definition attempt_of (e : RunEvent) (fallback : Z) : Z :=
  match fetch "attempt" (re_data e) with
  | JInt z => if 0 <? z then z else fallback
  | _ => fallback
  end.

(** [_classify_route_identity]; no reported model is "". *)
Definition classify_route_identity (route_id reported : string) (ok : bool) (error category : string)
    : string :=
  if String.eqb reported "(mechanical merge)" then "mechanical"
  else if negb ok then
    if String.eqb error "model_mismatch" || String.eqb category "model_mismatch" then "mismatch"
    else "unattested"
  else if String.eqb reported "" then "unattested"
  else if String.eqb reported route_id then "match"
  else "mismatch".

(** The attempts by their number, in increasing order *)
Fixpoint row_set (n : Z) (row : members) (rows : list (Z * members)) : list (Z * members) :=
  match rows with
  | [] => [(n, row)]
  | (m, r) :: rows =>
      if n =? m then (n, row) :: rows
      else if n <? m then (n, row) :: (m, r) :: rows
      else (m, r) :: row_set n row rows
  end.

Definition row_get (n : Z) (rows : list (Z * members)) : option members :=
  snd <$> List.find (fun p => p.1 =? n) rows.

(** The variables of the loop of [_node_record] *)
Record node_scan := {
  sc_rows : list (Z * members);
  sc_current : Z;
  sc_last_success : Z;
  sc_claimed_state : string;
  sc_claimed_seq : Z;
  sc_commit : option string;
  sc_pending : members;
  sc_pending_route : string
}.

Definition scan0 : node_scan :=
  {| sc_rows := []; sc_current := 0; sc_last_success := -1; sc_claimed_state := ""; sc_claimed_seq := -1;
     sc_commit := None; sc_pending := []; sc_pending_route := "" |}.

Definition new_row (n : Z) : members :=
  obj_of [("attempt", JInt n); ("route_id", JStr ""); ("provider", JStr "");
          ("capacity_class", JStr "unknown"); ("outcome", JStr "running"); ("fault_injected", JBool false)].

Definition is_attempt_event (type : string) : bool := mem type ["dispatch"; "terminal"; "failure"].

(** The fields of the row that a terminal sets *)
Definition terminal_row (data : members) (route : string) (row : members) : res members :=
  let ok := is_true (fetch "ok" data) in
  let row := obj_set "outcome" (JStr (if ok then "success" else "failure")) row in
  let row := match float_of (fetch "duration_seconds" data) with
             | Some d => obj_set "duration_seconds" d row
             | None => row
             end in
  let row := match is_object (fetch "usage" data) with
             | Some u => obj_set "usage" (JObj u) row
             | None => row
             end in
  let row := set_if "executor_kind" (fetch "executor_kind" data) row in
  let row := set_if "harness" (fetch "harness" data) row in
  let reported := py_str (or_else (fetch "reported_model" data) (JStr "")) in
  let error := py_str (or_else (fetch "error" data) (JStr "")) in
  let row := obj_set "intended_route" (JStr route) row in
  let row := obj_set "executed_model" (if String.eqb reported "" then JNull else JStr reported) row in
  let row := obj_set "_terminal_ok" (JBool ok) row in
  let row := obj_set "_terminal_error" (JStr error) row in
  let row := obj_set "_terminal_reported" (JStr reported) row in
  match is_object (fetch "served_check" data) with
  | None => Ok row
  | Some check =>
      let served := default [] (is_object (fetch "served" check)) in
      reasons ← list_of (or_else (fetch "reasons" check) (JList []));
      let row := obj_set "served_identity"
        (obj ([("status", fetch "status" check); ("served_route", fetch "served_route" check)]
              ++ map (fun f => (f, fetch f served)) SERVED_FIELDS ++ [("reasons", JList reasons)])) row in
      let row := set_if "executed_model" (fetch "served_route" check) row in
      Ok (obj_set "_terminal_served_status" (JStr (py_str (or_else (fetch "status" check) (JStr "")))) row)
  end.

(** What a dispatch, terminal or failure does to the row of its attempt and to the fields that wait for one *)
Definition attempt_row (type : string) (data : members) (pending : members) (pending_route : string)
    (row : members) : res (members * members * string) :=
  let keep := String.eqb type "failure" && bool_decide (dict_get "_terminal_ok" row <> None) in
  let route := if keep then py_str (fetch "route_id" row)
               else py_str (or_else (fetch "route_id" data) (fetch "route_id" row)) in
  let row := if keep then row else obj_set "route_id" (JStr route) row in
  let row := obj_set "provider"
    (JStr (py_str (or_else (fetch "provider" data) (or_else (fetch "provider" row) (JStr (route_provider route)))))) row in
  let row := set_if "capacity_class" (fetch "capacity_class" data) row in
  let row := foldl (fun row f => set_if f (fetch f data) row) row PROBE_FIELDS in
  let applies := negb (String.eqb pending_route "") && String.eqb pending_route route in
  let '(row, pending, pending_route) :=
    match pending with
    | [] => (row, pending, pending_route)
    | _ => if applies then (foldl (fun row m => obj_set m.1 m.2 row) row pending, [], "")
           else if String.eqb type "dispatch" then (row, [], "")
           else (row, pending, pending_route)
    end in
  let row := obj_set "fault_injected"
    (JBool (truthy (or_else (fetch "fault_injected" row) (fetch "fault_injected" data)))) row in
  row ← (if String.eqb type "terminal" then terminal_row data route row
         else if String.eqb type "failure" then
           Ok (obj_set "failure_category" (JStr (py_str (or_else (fetch "category" data) (JStr "unknown"))))
                 (obj_set "outcome" (JStr "failure") row))
         else Ok row);
  Ok (row, pending, pending_route).

(** The fields that a selection holds for the next attempt *)
Definition selection_fields (data : members) : members :=
  let found := foldl (fun ms f => set_if f (fetch f data) ms) [] PROBE_FIELDS in
  if truthy (fetch "unknown_capacity_opt_in" data)
  then obj_set "unknown_capacity_opt_in" (JStr "true") found else found.

(** One event of the loop *)
Definition scan_event (s : node_scan) (e : RunEvent) : res node_scan :=
  let type := re_type e in
  let data := re_data e in
  if is_attempt_event type then
    let current := if String.eqb type "dispatch" then attempt_of e (sc_current s + 1)
                   else attempt_of e (if sc_current s =? 0 then 1 else sc_current s) in
    '(row, pending, pending_route) ←
      attempt_row type data (sc_pending s) (sc_pending_route s) (default (new_row current) (row_get current (sc_rows s)));
    Ok {| sc_rows := row_set current row (sc_rows s); sc_current := current;
          sc_last_success := if String.eqb type "terminal" && is_true (fetch "ok" data)
                             then re_seq e else sc_last_success s;
          sc_claimed_state := sc_claimed_state s; sc_claimed_seq := sc_claimed_seq s;
          sc_commit := sc_commit s; sc_pending := pending; sc_pending_route := pending_route |}
  else if String.eqb type "selection" then
    Ok {| sc_rows := sc_rows s; sc_current := sc_current s; sc_last_success := sc_last_success s;
          sc_claimed_state := sc_claimed_state s; sc_claimed_seq := sc_claimed_seq s;
          sc_commit := sc_commit s; sc_pending := selection_fields data;
          sc_pending_route := py_str (or_else (fetch "route_id" data) (JStr "")) |}
  else if String.eqb type "node_state" then
    let state := match dict_get "state" data with Some v => py_str v | None => "" end in
    Ok {| sc_rows := sc_rows s; sc_current := sc_current s;
          sc_last_success := if String.eqb state "TERMINAL_SUCCESS" then re_seq e else sc_last_success s;
          sc_claimed_state := state; sc_claimed_seq := re_seq e; sc_commit := sc_commit s;
          sc_pending := sc_pending s; sc_pending_route := sc_pending_route s |}
  else if String.eqb type "integrate" && truthy (fetch "commit" data) then
    Ok {| sc_rows := sc_rows s; sc_current := sc_current s; sc_last_success := sc_last_success s;
          sc_claimed_state := sc_claimed_state s; sc_claimed_seq := sc_claimed_seq s;
          sc_commit := Some (py_str (fetch "commit" data)); sc_pending := sc_pending s;
          sc_pending_route := sc_pending_route s |}
  else Ok s.

Fixpoint scan_events (s : node_scan) (es : list RunEvent) : res node_scan :=
  match es with [] => Ok s | e :: es => s ← scan_event s e; scan_events s es end.

(** [_SERVED_ROUTE_IDENTITY.get(status, "unattested")] *)
Definition served_route_identity (status : string) : string :=
  if String.eqb status "verified" then "match"
  else if String.eqb status "mismatch" then "mismatch" else "unattested".

(** The identity of an attempt's route, in place of what the terminal left for it *)
Definition identify (row : members) : members :=
  match dict_get "_terminal_ok" row with
  | None => obj_set "route_identity" (JStr "unattested") row
  | Some ok =>
      let error := py_str (fetch "_terminal_error" row) in
      let reported := py_str (fetch "_terminal_reported" row) in
      let category := match dict_get "failure_category" row with Some v => py_str v | None => "" end in
      let identity :=
        match dict_get "_terminal_served_status" row with
        | None => classify_route_identity (py_str (fetch "route_id" row)) reported (is_true ok) error category
        | Some status => if String.eqb error "model_mismatch" || String.eqb category "model_mismatch"
                         then "mismatch" else served_route_identity (py_str status)
        end in
      obj_set "route_identity" (JStr identity)
        (remove "_terminal_served_status" (remove "_terminal_reported"
           (remove "_terminal_error" (remove "_terminal_ok" row))))
  end.

(** A verification that passed after the last success *)
Definition validates (last_success : Z) (e : RunEvent) : bool :=
  String.eqb (re_type e) "verify" && is_true (fetch "ok" (re_data e))
  && (last_success <? re_seq e) && (0 <=? last_success).

Definition validation_item (e : RunEvent) : json :=
  obj [("command", match dict_get "command" (re_data e) with Some v => v | None => JStr "" end);
       ("exit_code", fetch "exit_code" (re_data e)); ("seq", JInt (re_seq e))].

Definition outcome_of (row : members) : string := py_str (fetch "outcome" row).

(** The state a node is given *)
Definition final_state (s : node_scan) (es : list RunEvent) : string :=
  let validated := List.filter (validates (sc_last_success s)) es in
  let revoked := mem (sc_claimed_state s) ["REJECTED"; "BLOCKED"] in
  let stands := match last validated with
                | Some e => negb (revoked && (re_seq e <? sc_claimed_seq s))
                | None => false
                end in
  if stands then "VALIDATED"
  else if negb (String.eqb (sc_claimed_state s) "") && negb (String.eqb (sc_claimed_state s) "VALIDATED")
  then sc_claimed_state s
  else if 0 <=? sc_last_success s then "TERMINAL_SUCCESS"
  else match last (sc_rows s) with
       | Some (_, row) => if String.eqb (outcome_of row) "success" then "TERMINAL_SUCCESS"
                          else if String.eqb (outcome_of row) "failure" then "TERMINAL_FAILURE"
                          else "RUNNING"
       | None => "PLANNED"
       end.

(** [_node_record] *)
Definition node_record (node_id kind : string) (es : list RunEvent) : res json :=
  s ← scan_events scan0 es;
  let state := final_state s es in
  let newest := match last (sc_rows s) with Some (n, _) => n | None => 0 end in
  let settle '(n, row) :=
    if String.eqb (outcome_of row) "running" && (negb (n =? newest) || negb (String.eqb state "RUNNING"))
    then obj_set "outcome" (JStr "abandoned") row else row in
  Ok (obj ([("node_id", JStr node_id); ("kind", JStr kind); ("final_state", JStr state);
            ("attempts", JList (map (fun p => JObj (settle (p.1, identify p.2))) (sc_rows s)));
            ("validated_by", JList (map validation_item (List.filter (validates (sc_last_success s)) es)))]
           ++ given "commit" JStr (sc_commit s))).
