(* ===== verification/ReceiptBuild.v ===== *)
(** The receipt of a whole run: [build_run_receipt], [completion_verdict] and [verify_run_receipt] of
    [verdict/orchestration/receipt.py].

    The directory of a run is the text of its files; a file that is not there is [None]. Reading
    the event log repairs it, so that what builds or verifies a receipt returns the directory as well.
    SHA-256 and [redact_text] are arguments. Text is cut at 500 characters, of ASCII. *)
From Stdlib Require Import Ascii.
From S2P Require Import Prelude PyStr Regex Json JsonDict Policy Contracts ReceiptStore EventLog GraphJson RunReceipt.

(** The files of a run *)
Record run_files := {
  rf_name : string;
  rf_events : option string;
  rf_graph : option string;
  rf_review : option string;
  rf_receipt : option string
}.

Definition with_events (fs : run_files) (text : string) : run_files :=
  {| rf_name := rf_name fs; rf_events := Some text; rf_graph := rf_graph fs; rf_review := rf_review fs;
     rf_receipt := rf_receipt fs |}.

(** [_load_json] *)
Definition load_json (name text : string) : res members :=
  match loads text with
  | Some (JObj ms) => Ok ms
  | Some _ => Err (Orchestration (name +:+ " must contain a JSON object"))
  | None => Err (Orchestration ("cannot read " +:+ name))
  end.

Definition of_log {A} (m : result log_exn A) : res A :=
  match m with Ok x => Ok x | Err e => Err (EventLogError e) end.

Definition of_graph_json {A} (m : result graph_exn A) : res A :=
  match m with Ok x => Ok x | Err e => Err (GraphJsonError e) end.

(** [v.get(k)] of a dict, which another value does not have *)
Definition at_member (k : string) (v : json) : json :=
  match v with JObj ms => fetch k ms | _ => JNull end.

Definition is_str (v : json) (s : string) : bool := match v with JStr t => String.eqb t s | _ => false end.

(** [v in {...}], which hashes [v] *)
Definition in_set (v : json) (items : list string) : res bool :=
  match v with
  | JStr s => Ok (mem s items)
  | JList _ | JObj _ => Err PyTypeError
  | _ => Ok false
  end.

Definition typed (t : string) (es : list RunEvent) : list RunEvent :=
  List.filter (fun e => String.eqb (re_type e) t) es.

Definition IMPLEMENT_OR_INTEGRATE : list string := ["implement"; "integrate"].

(** * Nodes that change nothing *)

(** [_no_change_implement_nodes] *)
Definition last_barrier (p : RunEvent -> bool) (node : string) (es : list RunEvent) : option Z :=
  re_seq <$> last (List.filter (fun e => String.eqb (re_node e) node && p e) (typed "barrier" es)).

Definition no_change_implement_nodes (g : WorkGraph) (es : list RunEvent) (records : list json) : list string :=
  let validated := List.filter (fun r => is_str (at_member "kind" r) "implement"
                                         && is_str (at_member "final_state" r) "VALIDATED") records in
  let ids := map (fun r => py_str (at_member "node_id" r)) validated in
  let seen id :=
    mem id ids &&
    match last_barrier (fun e => is_str (fetch "name" (re_data e)) "no_change" && is_true (fetch "ok" (re_data e))) id es with
    | Some n => default (-1) (last_barrier (fun e => is_str (fetch "name" (re_data e)) "ownership") id es) <? n
    | None => false
    end in
  List.filter seen (map node_id (nodes g)).

(** * The review *)

Definition REVIEW_FIELDS : list string :=
  ["attempt"; "route_id"; "status"; "category"; "scope"; "cooldown_seconds"; "duration_seconds"; "detail"].

Definition review_attempt_row (e : RunEvent) : json :=
  obj (List.filter (fun m => match m.2 with JNull => false | _ => true end)
         (map (fun k => (k, fetch k (re_data e))) REVIEW_FIELDS)).

Fixpoint upper (s : string) : string :=
  match s with EmptyString => EmptyString | String c s' => String (ascii_upper c) (upper s') end.

Definition text_or (k d : string) (ms : members) : string :=
  match dict_get k ms with Some v => py_str v | None => d end.

Definition blocks (finding : json) : res bool :=
  match finding with JObj f => in_set (fetch "severity" f) ["critical"; "high"] | _ => Ok false end.

(** The number of findings that block *)
Fixpoint count_blocking (vs : list json) : res Z :=
  match vs with
  | [] => Ok 0
  | v :: vs => b ← blocks v; n ← count_blocking vs; Ok ((if b : bool then 1 else 0) + n)
  end.

Definition blocking_of (source : members) : res Z :=
  match fetch "findings" source with
  | JList vs => count_blocking vs
  | _ => Ok (match fetch "blocking" source with JBool b => if b then 1 else 0 | JInt z => z | _ => 0 end)
  end.

(** [_review_block]; [file] is the text of [review.json]. *)
Definition review_block (file : option string) (es : list RunEvent) : res json :=
  source ← (match file with
            | Some text => ms ← load_json "review.json" text; Ok (Some ms)
            | None => Ok (re_data <$> last (typed "review" es))
            end : res (option members));
  let extra := match typed "review_attempt" es with
               | [] => []
               | rows => [("attempts", JList (map review_attempt_row rows))]
               end in
  match source with
  | None => Ok (obj ([("status", JStr "MISSING"); ("reviewer", JStr ""); ("route_id", JStr "");
                      ("blocking", JInt 0)] ++ extra))
  | Some s =>
      blocking ← blocking_of s;
      Ok (obj ([("status", JStr (upper (py_str (or_else (fetch "status" s) (JStr "ERROR")))));
                ("reviewer", JStr (text_or "reviewer" "" s)); ("route_id", JStr (text_or "route_id" "" s));
                ("blocking", JInt blocking)] ++ extra))
  end.

(** * Integration *)

Definition barrier_name (e : RunEvent) : string :=
  py_str (or_else (fetch "name" (re_data e)) (or_else (JStr (re_node e)) (JStr "integration"))).

(** The last result of each barrier, by name *)
Definition barrier_results (es : list RunEvent) : list (string * RunEvent) :=
  obj_of (map (fun e => (barrier_name e, e)) (typed "barrier" es)).

Definition barrier_ok (e : RunEvent) : bool := is_true (fetch "ok" (re_data e)).

Definition barrier_row (m : string * RunEvent) : json :=
  obj [("name", JStr m.1); ("ok", JBool (barrier_ok m.2)); ("seq", JInt (re_seq m.2))].

(** [declared] *)
Definition declared_barriers (ns : list WorkNode) : list string :=
  sort_str (dedupe (List.filter (fun b => negb (String.eqb b "")) (map barrier ns))).

Definition missing_barriers (ns : list WorkNode) (results : list (string * RunEvent)) : list string :=
  List.filter (fun b => negb (mem b (map fst results))) (declared_barriers ns).

Definition integration_ok (ns : list WorkNode) (results : list (string * RunEvent)) : bool :=
  negb (bool_decide (results = [])) && bool_decide (missing_barriers ns results = [])
  && forallb (fun m => barrier_ok m.2) results.

Definition integration_block (ns : list WorkNode) (es : list RunEvent) : json :=
  let results := barrier_results es in
  obj [("ok", JBool (integration_ok ns results)); ("barriers", JList (map barrier_row results));
       ("missing", strings (missing_barriers ns results))].

(** * The verdict *)

Definition REVIEW_REQUIRED : string := " (PASS required)".

(** A list whose items are objects, or nothing *)
Definition objects (v : json) : res (list members) :=
  if truthy v then
    match v with
    | JList vs => map_result (fun x => match x with JObj ms => Ok ms | _ => Err PyTypeError end) vs
    | _ => Err PyTypeError
    end
  else Ok [].

(** [x or {}] *)
Definition mapping_or_empty (v : json) : res members :=
  if truthy v then match v with JObj ms => Ok ms | _ => Err PyTypeError end else Ok [].

(** The items of [", ".join(...)] *)
Definition texts (vs : list json) : res (list string) :=
  map_result (fun v => match v with JStr s => Ok s | _ => Err PyTypeError end) vs.

Definition blocked (reason : string) : string * string := ("BLOCKED", reason).

(** The conformance evidence that a receipt with an OpenSpec block has to hold *)
Definition openspec_verdict (receipt : members) : option (string * string) :=
  match dict_get "openspec" receipt with
  | None => None
  | Some (JObj block) =>
      match fetch "conformance_result" block with
      | JObj check =>
          if negb (is_str (fetch "status" check) "PASS") then
            Some (blocked ("OpenSpec conformance required: "
                           +:+ text_or "reason" "missing conformance result" check))
          else if negb (truthy (fetch "spec_revision_digest" block))
                  || negb (py_eq (fetch "spec_revision_digest" check) (fetch "spec_revision_digest" block))
          then Some (blocked "OpenSpec spec_changed: conformance revision differs")
          else if negb (truthy (fetch "output_sha256" check)) || negb (is_true (fetch "valid" check))
                  || truthy (fetch "issues" check) || negb (py_eq (fetch "exit_code" check) (JInt 0))
          then Some (blocked "OpenSpec conformance evidence invalid")
          else None
      | _ => Some (blocked "OpenSpec conformance required: missing conformance result")
      end
  | Some _ => Some (blocked "OpenSpec block malformed")
  end.

(** The nodes that have to be validated *)
Fixpoint work_of (ns : list members) : res (list members) :=
  match ns with
  | [] => Ok []
  | n :: ns => gated ← in_set (fetch "kind" n) IMPLEMENT_OR_INTEGRATE; rest ← work_of ns;
               Ok (if gated : bool then n :: rest else rest)
  end.

Definition work_verdict (receipt : members) (work : list members) : option (string * string) :=
  match work with
  | [] =>
      if (match fetch "graph_digest" receipt with JNull => true | _ => false end)
         && truthy (fetch "claimed_reason" receipt)
      then Some (blocked (py_str (fetch "claimed_reason" receipt)))
      else Some (blocked "no implement/integrate nodes to validate")
  | _ =>
      match List.find (fun n => negb (is_str (fetch "final_state" n) "VALIDATED")) work with
      | Some n => Some (blocked ("node " +:+ py_str (fetch "node_id" n) +:+ " not VALIDATED (final_state="
                                 +:+ py_str (fetch "final_state" n) +:+ ")"))
      | None => None
      end
  end.

Definition integration_verdict (block : members) : res (option (string * string)) :=
  if truthy (fetch "ok" block) then Ok None
  else
    barriers ← objects (match dict_get "barriers" block with Some v => v | None => JList [] end);
    let failed := List.filter (fun b => negb (truthy (fetch "ok" b))) barriers in
    names ← map_result (fun b => match dict_get "name" b with Some v => Ok v | None => Err PyTypeError end) failed;
    missing ← list_of (match dict_get "missing" block with Some v => v | None => JList [] end);
    match (names : list json), (missing : list json) with
    | [], [] => Ok (Some (blocked "integration barrier not recorded"))
    | [], _ => ms ← texts missing; Ok (Some (blocked ("integration barrier missing: " +:+ join ", " ms)))
    | _, _ => ns ← texts names; Ok (Some (blocked ("integration barrier failed: " +:+ join ", " ns)))
    end.

Definition review_verdict (review : members) : option (string * string) :=
  if negb (is_str (fetch "status" review) "PASS") then
    Some (blocked ("review status " +:+ text_or "status" "MISSING" review +:+ REVIEW_REQUIRED))
  else if truthy (fetch "blocking" review) then
    Some (blocked ("review has " +:+ py_str (fetch "blocking" review) +:+ " blocking finding(s)"))
  else None.

(** [completion_verdict] *)
Definition completion_verdict (receipt : members) : res (string * string) :=
  if is_str (fetch "claimed_outcome" receipt) "CANCELLED" then Ok ("CANCELLED", "run cancelled by operator")
  else if negb (is_str (fetch "schema" receipt) RECEIPT_SCHEMA) then
    Ok (blocked ("unknown receipt schema " +:+ py_text true (fetch "schema" receipt)))
  else
    match openspec_verdict receipt with
    | Some v => Ok v
    | None =>
        ns ← objects (fetch "nodes" receipt);
        work ← work_of ns;
        match work_verdict receipt work with
        | Some v => Ok v
        | None =>
            integration ← mapping_or_empty (fetch "integration" receipt);
            found ← integration_verdict integration;
            match found with
            | Some v => Ok v
            | None =>
                review ← mapping_or_empty (fetch "review" receipt);
                Ok (default ("COMPLETE", "all implement/integrate nodes validated, barrier ok, review PASS")
                      (review_verdict review))
            end
        end
    end.

(** * Building *)

(** [producer_from_started] *)
Definition producer_from_started (started : option RunEvent) : option json :=
  match started with
  | Some e => match fetch "producer" (re_data e) with
              | JObj raw => Some (obj (map (fun k => (k, fetch k raw)) ["verdict_version"; "git_sha"; "dirty"]))
              | _ => None
              end
  | None => None
  end.

(** [_free] *)
Definition free_event (e : RunEvent) : json :=
  obj ([("seq", JInt (re_seq e)); ("at", JStr (re_at e)); ("node_id", JStr (re_node e))] ++ re_data e).
Definition free_events (kind : string) (es : list RunEvent) : list json := map free_event (typed kind es).

Definition planner_event (e : RunEvent) : json :=
  obj ([("seq", JInt (re_seq e)); ("at", JStr (re_at e))] ++ re_data e).
Definition PLANNER_EVENTS : list string := ["plan_started"; "plan_repair_started"; "plan_repair_terminal"].

(** The attempts of all nodes *)
Definition attempt_rows (records : list json) : list json :=
  List.concat (map (fun r => match at_member "attempts" r with JList vs => vs | _ => [] end) records).

Definition count_identity (identity : string) (rows : list json) : json :=
  JInt (Z.of_nat (length (List.filter (fun r => is_str (at_member "route_identity" r) identity) rows))).

Definition route_identity_summary (records : list json) : json :=
  let rows := attempt_rows records in
  obj (("attempts", JInt (Z.of_nat (length rows)))
       :: map (fun i => (i, count_identity i rows)) ["match"; "mismatch"; "unattested"; "mechanical"]).

Definition has_successful_mismatch (records : list json) : bool :=
  existsb (fun r => is_str (at_member "outcome" r) "success" && is_str (at_member "route_identity" r) "mismatch")
    (attempt_rows records).

Definition ROUTE_WARNING : string :=
  "One or more successful attempts reported a model different from the intended route".

(** A run that never executed a node and settled as blocked *)
Definition pre_plan (es : list RunEvent) : bool :=
  match last (typed "run_finished" es) with
  | Some e => is_str (fetch "outcome" (re_data e)) "BLOCKED"
  | None => false
  end
  && negb (existsb (fun e => negb (String.eqb (re_node e) "")) es)
  && negb (existsb (fun e => String.eqb (re_type e) "plan_ready") es).

(** The graph of the run, if it got one *)
Definition read_graph (raw : members) (es : list RunEvent) : res (option WorkGraph) :=
  if truthy (fetch "nodes" raw) then
    g ← of_graph_json (graph_from_dict (remove "run_id" raw)); Ok (Some g)
  else if pre_plan es then Ok None
  else Err (Orchestration "missing or empty graph.json for a run that was planned").

Definition plan_nodes (g : option WorkGraph) : list WorkNode :=
  match g with Some g => nodes g | None => [] end.

(** The records of the nodes, each from its own events *)
Definition node_records (ns : list WorkNode) (es : list RunEvent) : res (list json) :=
  map_result (fun n => node_record (node_id n) (NodeKind.value (kind n))
                         (List.filter (fun e => String.eqb (re_node e) (node_id n)) es)) ns.

Definition conformance (es : list RunEvent) : json :=
  match last (typed "openspec_conformance" es) with Some e => fetch "result" (re_data e) | None => JNull end.

Definition openspec_keys (raw : members) (es : list RunEvent) : members :=
  match dict_get "openspec" raw with
  | None => []
  | Some (JObj block) => [("openspec", JObj (obj_set "conformance_result" (conformance es) block))]
  | Some v => [("openspec", v)]
  end.

(** * What the check tells *)

(** What [verify_run_receipt] tells *)
Inductive problem :=
| MissingFile (name : string)
| Unreadable (e : receipt_error)
| UnexpectedSchema (schema : json)
| DigestMismatch
| CannotRebuild (e : receipt_error)
| Differs (key : string).

(** What [except OrchestrationError] takes *)
Definition is_orchestration (e : receipt_error) : bool :=
  match e with
  | Orchestration _ => true
  | EventLogError LogOverflow => false
  | EventLogError _ => true
  | GraphJsonError (GraphError (OrchestrationError _)) => true
  | GraphJsonError _ | PyTypeError => false
  end.

(** The keys whose values differ *)
Definition differing (fresh stored : members) : list string :=
  List.filter (fun k => negb (String.eqb k "events_digest") && negb (py_eq (fetch k fresh) (fetch k stored)))
    (sort_str (dedupe (map fst fresh ++ map fst stored))).

Section build.
Context (sha256_hex redact_text : string -> string).

(** The keys that are there for some runs only *)
Definition optional_keys (g : option WorkGraph) (es : list RunEvent) (records : list json)
    : members :=
  let started := head (typed "run_started" es) in
  (match g, last (typed "run_finished" es) with
   | None, Some e => [("claimed_reason", JStr (take_str 500 (redact_text (text_or "reason" "" (re_data e)))))]
   | _, _ => []
   end)
  ++ (match started with
      | Some e => match fetch "retry_budget" (re_data e) with
                  | JObj b => [("retry_budget", JObj b)]
                  | _ => []
                  end
      | None => []
      end)
  ++ given "producer" id (producer_from_started started)
  ++ (match free_events "repo_gates" es, free_events "repo_gate" es with
      | [], [] => []
      | gates, results => [("repo_gates", JList gates); ("repo_gate_results", JList results)]
      end)
  ++ (match g with
      | Some g => given_list "no_change_nodes" (no_change_implement_nodes g es records)
      | None => []
      end)
  ++ (if has_successful_mismatch records then [("route_identity_warning", JStr ROUTE_WARNING)] else []).

(** The receipt without its verdict; [text] is the event log, [es] its events. *)
Definition receipt_body (name text : string) (raw : members) (g : option WorkGraph) (es : list RunEvent)
    (records : list json) (review : json) : members :=
  let started := head (typed "run_started" es) in
  let finished := last (typed "run_finished" es) in
  let started_id := match started with Some e => fetch "run_id" (re_data e) | None => JStr "" end in
  obj_of ([("schema", JStr RECEIPT_SCHEMA);
    ("run_id", JStr (py_str (or_else (fetch "run_id" raw) (or_else started_id (JStr name)))));
    ("goal", JStr (match g with Some g => goal g | None => py_str (or_else (fetch "goal" raw) (JStr "")) end));
    ("graph_digest", jopt (fun g => JStr (graph_digest sha256_hex g)) g);
    ("topology", jopt (fun g => JStr (topology_value (topology g))) g);
    ("nodes", JList records);
    ("route_identity_summary", route_identity_summary records);
    ("integration", integration_block (plan_nodes g) es);
    ("reassignments", JList (free_events "reassign" es));
    ("cooldowns", JList (free_events "cooldown" es));
    ("review", review);
    ("controller_events", JList (free_events "controller" es));
    ("planner_attempts", JList (map planner_event (List.filter (fun e => mem (re_type e) PLANNER_EVENTS) es)));
    ("decision_signals", match free_events "decision_signals" es with [] => JNull | vs => JList vs end);
    ("claimed_outcome", JStr (match finished with Some e => text_or "outcome" "" (re_data e) | None => "" end));
    ("event_count", JInt (Z.of_nat (length es)));
    ("events_digest", JStr ("sha256:" +:+ sha256_hex text));
    ("started_at", match started, es with
                   | Some e, _ | None, e :: _ => JStr (re_at e)
                   | None, [] => JNull
                   end);
    ("finished_at", jopt (fun e => JStr (re_at e)) finished)]
    ++ optional_keys g es records ++ openspec_keys raw es).

(** The rest of [build_run_receipt], on a log that is repaired *)
Definition receipt_of (fs : run_files) (text : string) : res members :=
  es ← of_log (read_events text);
  raw ← match rf_graph fs with Some t => load_json "graph.json" t | None => Ok [] end;
  g ← read_graph raw es;
  records ← node_records (plan_nodes g) es;
  review ← review_block (rf_review fs) es;
  let body := receipt_body (rf_name fs) text raw g es records review in
  verdict ← completion_verdict body;
  Ok (obj_set "reason" (JStr verdict.2) (obj_set "outcome" (JStr verdict.1) body)).

(** [build_run_receipt], and the directory that it leaves *)
Definition build_run_receipt (fs : run_files) : run_files * res members :=
  match rf_events fs with
  | None => (fs, Err (Orchestration "missing events.jsonl"))
  | Some text => (with_events fs (repair_torn_tail text), receipt_of fs (repair_torn_tail text))
  end.

(** [verify_run_receipt]: the directory that it leaves and the problems *)
Definition verify_run_receipt (fs : run_files) : run_files * res (list problem) :=
  match rf_receipt fs with
  | None => (fs, Ok [MissingFile "receipt.json"])
  | Some text =>
      match load_json "receipt.json" text with
      | Err e => (fs, Ok [Unreadable e])
      | Ok stored =>
          let schema := fetch "schema" stored in
          let unexpected := if is_str schema RECEIPT_SCHEMA then [] else [UnexpectedSchema schema] in
          match rf_events fs with
          | None => (fs, Ok (unexpected ++ [MissingFile "events.jsonl"]))
          | Some log =>
              let changed := if is_str (fetch "events_digest" stored) ("sha256:" +:+ sha256_hex log)
                             then [] else [DigestMismatch] in
              let '(fs', built) := build_run_receipt fs in
              (fs', match built with
                    | Ok fresh => Ok (unexpected ++ changed ++ map Differs (differing fresh stored))
                    | Err e => if is_orchestration e then Ok (unexpected ++ changed ++ [CannotRebuild e]) else Err e
                    end)
          end
      end
  end.
End build.
