(* ===== verification/ReceiptVerify.v ===== *)
(** What a run receipt proves: a node is VALIDATED and a run COMPLETE exactly when the event log holds
    the evidence; a written receipt verifies, and a receipt that verifies as COMPLETE has that evidence. *)
From Stdlib Require Import Ascii.
From S2P Require Import Prelude PyStr Json JsonDict Policy Contracts ReceiptStore ReceiptTheorems EventLog GraphJson RunReceipt ReceiptBuild.

(** * Evidence *)

(** A success that an event claims *)
Definition is_success (e : RunEvent) : bool :=
  (String.eqb (re_type e) "terminal" && is_true (fetch "ok" (re_data e)))
  || (String.eqb (re_type e) "node_state" && String.eqb (text_or "state" "" (re_data e)) "TERMINAL_SUCCESS").

(** A check that passed after the event [s] *)
Definition passed_after (s e : RunEvent) : bool :=
  String.eqb (re_type e) "verify" && is_true (fetch "ok" (re_data e)) && (re_seq s <? re_seq e).

Definition revokes (c : RunEvent) : Prop := text_or "state" "" (re_data c) ∈ ["REJECTED"; "BLOCKED"].

(** The evidence that a node is validated: a check passed after its last success, and its last state
    event does not revoke that later. *)
Definition validated_evidence (es : list RunEvent) : Prop :=
  exists s v, last (List.filter is_success es) = Some s /\ last (List.filter (passed_after s) es) = Some v /\
    forall c, last (typed "node_state" es) = Some c -> revokes c -> re_seq c <= re_seq v.

(** ** The loop keeps the last of each *)

Definition seq_or (n : Z) (o : option RunEvent) : Z := match o with Some e => re_seq e | None => n end.
Definition state_or (s : string) (o : option RunEvent) : string :=
  match o with Some e => text_or "state" "" (re_data e) | None => s end.

Lemma last_filter_cons (p : RunEvent -> bool) e es :
  last (List.filter p (e :: es)) = match last (List.filter p es) with
                                   | Some x => Some x
                                   | None => if p e then Some e else None
                                   end.
Proof.
  cbn [List.filter]. destruct (p e); [|by destruct (last _)]. by rewrite last_cons; destruct (last _).
Qed.

Lemma attempt_types e : is_attempt_event (re_type e) = true -> String.eqb (re_type e) "node_state" = false.
Proof.
  unfold is_attempt_event, mem. intros H. destruct (String.eqb_spec (re_type e) "node_state") as [E|]; [|done].
  by rewrite E in H.
Qed.

Lemma scan_event_keeps s e s' : scan_event s e = Ok s' ->
  sc_last_success s' = (if is_success e then re_seq e else sc_last_success s) /\
  sc_claimed_state s' = (if String.eqb (re_type e) "node_state" then text_or "state" "" (re_data e) else sc_claimed_state s) /\
  sc_claimed_seq s' = (if String.eqb (re_type e) "node_state" then re_seq e else sc_claimed_seq s).
Proof.
  unfold scan_event, is_success. intros H. destruct (is_attempt_event (re_type e)) eqn:Ha.
  - apply bind_ok in H as ([[row pending] route] & _ & [= <-]). cbn. rewrite (attempt_types _ Ha). cbn [andb].
    by rewrite orb_false_r.
  - assert (String.eqb (re_type e) "terminal" = false) as ->.
    { destruct (String.eqb_spec (re_type e) "terminal") as [E|]; [|done]. by rewrite E in Ha. }
    destruct (String.eqb_spec (re_type e) "selection") as [E|_].
    { injection H as <-. cbn. by rewrite E. }
    destruct (String.eqb (re_type e) "node_state"); [injection H as <-; by cbn|].
    destruct (_ && _); injection H as <-; by cbn.
Qed.

Lemma scan_keeps es : forall s s', scan_events s es = Ok s' ->
  sc_last_success s' = seq_or (sc_last_success s) (last (List.filter is_success es)) /\
  sc_claimed_state s' = state_or (sc_claimed_state s) (last (typed "node_state" es)) /\
  sc_claimed_seq s' = seq_or (sc_claimed_seq s) (last (typed "node_state" es)).
Proof.
  unfold typed. induction es as [|e es IH]; intros s s'; [by intros [= <-]|]. cbn [scan_events].
  intros H. apply bind_ok in H as (s1 & H1 & H). destruct (scan_event_keeps _ _ _ H1) as (E1 & E2 & E3).
  destruct (IH _ _ H) as (-> & -> & ->). rewrite !last_filter_cons.
  destruct (last (List.filter is_success es)); destruct (last (List.filter _ es)); cbn [seq_or state_or];
    rewrite ?E1, ?E2, ?E3; destruct (is_success e); destruct (String.eqb (re_type e) "node_state"); done.
Qed.

(** ** One node *)

Lemma passes_validate s es : 0 <= re_seq s ->
  List.filter (validates (re_seq s)) es = List.filter (passed_after s) es.
Proof.
  intros Hs. apply List.filter_ext. intros e. unfold validates, passed_after.
  replace (0 <=? re_seq s) with true by (symmetry; by apply Z.leb_le). by rewrite andb_true_r.
Qed.

Lemma outcome_word row : (if String.eqb (outcome_of row) "success" then "TERMINAL_SUCCESS"
  else if String.eqb (outcome_of row) "failure" then "TERMINAL_FAILURE" else "RUNNING") <> "VALIDATED".
Proof. by repeat destruct (String.eqb _ _). Qed.

Lemma final_state_stands s es :
  final_state s es = "VALIDATED" <->
  exists v, last (List.filter (validates (sc_last_success s)) es) = Some v /\
    mem (sc_claimed_state s) ["REJECTED"; "BLOCKED"] && (re_seq v <? sc_claimed_seq s) = false.
Proof.
  unfold final_state. destruct (last (List.filter _ es)) as [v|].
  - destruct (mem _ _ && _) eqn:Hr; cbn [negb]; [|split; [by exists v|done]]. split.
    + apply andb_true_iff in Hr as [Hm _]. apply mem_spec in Hm.
      assert (sc_claimed_state s <> "" /\ sc_claimed_state s <> "VALIDATED") as [H1 H2].
      { split; intros E; rewrite E in Hm; set_solver. }
      rewrite (proj2 (String.eqb_neq _ _) H1), (proj2 (String.eqb_neq _ _) H2). done.
    + intros (v' & [= <-] & H). congruence.
  - split; [|by intros (v & ? & _)]. destruct (String.eqb_spec (sc_claimed_state s) "") as [|_]; cbn [negb andb].
    + destruct (0 <=? _); [done|]. destruct (last (sc_rows s)) as [[n row]|]; [|done]. by intros ?%outcome_word.
    + destruct (String.eqb_spec (sc_claimed_state s) "VALIDATED") as [|Hne]; cbn [negb]; [|done].
      destruct (0 <=? _); [done|]. destruct (last (sc_rows s)) as [[n row]|]; [|done]. by intros ?%outcome_word.
Qed.

Lemma final_state_validated s es :
  Forall (fun e => 0 < re_seq e) es -> scan_events scan0 es = Ok s ->
  final_state s es = "VALIDATED" <-> validated_evidence es.
Proof.
  intros Hpos Hs. destruct (scan_keeps _ _ _ Hs) as (E1 & E2 & E3). cbn [scan0 sc_last_success sc_claimed_state sc_claimed_seq] in E1, E2, E3.
  rewrite final_state_stands, E1, E2, E3. unfold validated_evidence.
  destruct (last (List.filter is_success es)) as [x|] eqn:Hx; cbn [seq_or].
  - rewrite passes_validate.
    2:{ apply last_Some_elem_of, list_elem_of_In, List.filter_In in Hx as [Hx _].
        apply list_elem_of_In in Hx. rewrite Forall_forall in Hpos. specialize (Hpos _ Hx). lia. }
    split.
    + intros (v & Hv & Hr). exists x, v. split; [done|]. split; [done|]. intros c Hc Hrev.
      rewrite Hc in Hr. cbn [state_or seq_or] in Hr. apply mem_spec in Hrev. rewrite Hrev in Hr. cbn [andb] in Hr.
      by apply Z.ltb_ge in Hr.
    + intros (x' & v & [= <-] & Hv & Hr). exists v. split; [done|].
      destruct (last (typed "node_state" es)) as [c|]; cbn [state_or seq_or]; [|done].
      apply andb_false_iff. destruct (mem _ _) eqn:Hm; [right|by left]. apply mem_spec in Hm.
      apply Z.ltb_ge. by apply Hr.
  - split; [|by intros (? & ? & ? & _)]. intros (v & Hv & _).
    apply last_Some_elem_of, list_elem_of_In, List.filter_In in Hv as [_ Hv]. unfold validates in Hv.
    by rewrite andb_false_r in Hv.
Qed.

Lemma node_record_shape id kind es r : node_record id kind es = Ok r ->
  exists s ms, scan_events scan0 es = Ok s /\ r = JObj ms /\ fetch "node_id" ms = JStr id /\
    fetch "kind" ms = JStr kind /\ fetch "final_state" ms = JStr (final_state s es).
Proof.
  unfold node_record. intros H. apply bind_ok in H as (s & Hs & [= <-]). exists s. eexists.
  split; [done|]. split; [done|]. unfold fetch. rewrite !get_obj_of.
  destruct (sc_commit s); by repeat split.
Qed.

(** * The verdict *)

Lemma openspec_blocks r v : openspec_verdict r = Some v -> v.1 = "BLOCKED".
Proof.
  unfold openspec_verdict. intros H. repeat case_match; try done; by injection H as <-.
Qed.

Lemma work_blocks r ns v : work_verdict r ns = Some v -> v.1 = "BLOCKED".
Proof. unfold work_verdict. intros H. repeat case_match; try done; by injection H as <-. Qed.

Lemma work_passes r ns : work_verdict r ns = None <->
  ns <> [] /\ Forall (fun n => is_str (fetch "final_state" n) "VALIDATED" = true) ns.
Proof.
  unfold work_verdict. destruct ns as [|n ns]; [destruct (_ && _); (split; [done|by intros [? _]])|].
  destruct (List.find _ (n :: ns)) as [m|] eqn:Hf.
  - split; [done|]. intros [_ H]. apply List.find_some in Hf as [Hin Hm]. apply list_elem_of_In in Hin.
    rewrite Forall_forall in H. rewrite (H m Hin) in Hm. done.
  - split; [|done]. intros _. split; [done|]. apply Forall_forall. intros x Hx%list_elem_of_In.
    apply (List.find_none _ _ Hf), negb_false_iff in Hx. done.
Qed.

Lemma integration_cases b v : integration_verdict b = Ok v ->
  if truthy (fetch "ok" b) then v = None else exists w, v = Some w /\ w.1 = "BLOCKED".
Proof.
  unfold integration_verdict. destruct (truthy _); [by intros [= <-]|]. intros H.
  apply bind_ok in H as (bs & _ & H). apply bind_ok in H as (ns & _ & H). apply bind_ok in H as (ms & _ & H).
  destruct ns, ms; repeat (apply bind_ok in H as (? & _ & H)); injection H as <-; by eexists.
Qed.

Lemma review_blocks r v : review_verdict r = Some v -> v.1 = "BLOCKED".
Proof. unfold review_verdict. intros H. repeat case_match; try done; by injection H as <-. Qed.

Lemma review_passes r : review_verdict r = None <->
  is_str (fetch "status" r) "PASS" = true /\ truthy (fetch "blocking" r) = false.
Proof. unfold review_verdict. destruct (is_str _ _), (truthy _); naive_solver. Qed.

(** What a receipt that is COMPLETE has to hold *)
Record passes (r : members) (work : list members) (block review : members) : Prop := {
  ps_live : is_str (fetch "claimed_outcome" r) "CANCELLED" = false;
  ps_openspec : openspec_verdict r = None;
  ps_some : work <> [];
  ps_nodes : Forall (fun n => is_str (fetch "final_state" n) "VALIDATED" = true) work;
  ps_integration : truthy (fetch "ok" block) = true;
  ps_status : is_str (fetch "status" review) "PASS" = true;
  ps_blocking : truthy (fetch "blocking" review) = false
}.

Lemma verdict_complete r v ns work block review :
  completion_verdict r = Ok v -> fetch "schema" r = JStr RECEIPT_SCHEMA ->
  objects (fetch "nodes" r) = Ok ns -> work_of ns = Ok work ->
  fetch "integration" r = JObj block -> fetch "review" r = JObj review ->
  v.1 = "COMPLETE" <-> passes r work block review.
Proof.
  intros H Hs Hn Hw Hb Hr. unfold completion_verdict in H. rewrite Hs in H.
  destruct (is_str (fetch "claimed_outcome" r) "CANCELLED") eqn:Hc.
  { injection H as <-. split; [done|]. intros []; congruence. }
  cbn [is_str] in H. rewrite String.eqb_refl in H. cbn [negb] in H.
  destruct (openspec_verdict r) as [w|] eqn:Ho.
  { injection H as <-. apply openspec_blocks in Ho as Hv. rewrite Hv. split; [done|]. intros []; congruence. }
  rewrite Hn, Hb, Hr in H. cbn [mbind result_mbind result_bind] in H. rewrite Hw in H. cbn [mbind result_mbind result_bind] in H.
  destruct (work_verdict r work) as [w|] eqn:Hwv.
  { injection H as <-. apply work_blocks in Hwv as Hv. rewrite Hv. split; [done|]. intros [].
    assert (work_verdict r work = None) by by apply work_passes. congruence. }
  apply work_passes in Hwv as [Hne Hall].
  assert (Hm : forall ms, mapping_or_empty (JObj ms) = Ok ms) by by intros [|].
  rewrite (Hm block) in H. cbn [mbind result_mbind result_bind] in H. apply bind_ok in H as (found & Hi & H).
  apply integration_cases in Hi. destruct (truthy (fetch "ok" block)) eqn:Hok.
  2:{ destruct Hi as (w & -> & Hv). injection H as <-. rewrite Hv. split; [done|]. intros []; congruence. }
  subst found. rewrite (Hm review) in H. cbn [mbind result_mbind result_bind] in H. injection H as <-.
  destruct (review_verdict review) as [w|] eqn:Hrv; cbn [default].
  - apply review_blocks in Hrv as Hv. cbn. rewrite Hv. split; [done|]. intros [].
    assert (review_verdict review = None) by by apply review_passes. congruence.
  - apply review_passes in Hrv as [? ?]. split; [|done]. intros _. by split.
Qed.

(** ** The parts of a receipt *)

Definition OPTIONAL : list string :=
  ["claimed_reason"; "retry_budget"; "producer"; "repo_gates"; "repo_gate_results"; "no_change_nodes";
   "route_identity_warning"].

Lemma optional_named redact g es records :
  Forall (fun m => m.1 ∈ OPTIONAL) (optional_keys redact g es records).
Proof.
  unfold optional_keys, given, given_list. rewrite !Forall_app.
  repeat split; repeat case_match; repeat constructor; set_solver.
Qed.

Lemma get_absent (P : string -> Prop) k (ms : members) :
  Forall (fun m => P m.1) ms -> ~ P k -> dict_get k (rev ms) = None.
Proof.
  intros H Hk. apply dict_get_none. intros Hin. apply list_elem_of_In in Hin.
  rewrite map_rev in Hin. apply List.in_rev, List.in_map_iff in Hin as ([k' v] & <- & Hin).
  apply list_elem_of_In in Hin. rewrite Forall_forall in H. exact (Hk (H _ Hin)).
Qed.

Lemma openspec_named raw es : Forall (fun m => m.1 = "openspec") (openspec_keys raw es).
Proof. unfold openspec_keys. repeat case_match; repeat constructor. Qed.

Lemma get_body fixed optional openspec k :
  Forall (fun m => m.1 ∈ OPTIONAL) optional -> Forall (fun m => m.1 = "openspec") openspec ->
  ~ k ∈ OPTIONAL -> k <> "openspec" ->
  fetch k (obj_of (fixed ++ optional ++ openspec)) = default JNull (dict_get k (rev fixed)).
Proof.
  intros Ho Hs Hk Hk'. unfold fetch. rewrite get_obj_of, !rev_app_distr, !dict_get_app.
  rewrite (get_absent (fun k => k = "openspec") k openspec), (get_absent (fun k => k ∈ OPTIONAL) k optional) by done.
  done.
Qed.

Section body.
Context (sha redact : string -> string) (name text : string) (raw : members) (g : option WorkGraph)
  (es : list RunEvent) (records : list json) (review : json).
Let body := receipt_body sha redact name text raw g es records review.

Ltac read_body := unfold body, receipt_body; rewrite get_body;
  [reflexivity|apply optional_named|apply openspec_named|set_solver|done].

Lemma body_schema : fetch "schema" body = JStr RECEIPT_SCHEMA.
Proof. read_body. Qed.
Lemma body_nodes : fetch "nodes" body = JList records.
Proof. read_body. Qed.
Lemma body_integration : fetch "integration" body = integration_block (plan_nodes g) es.
Proof. read_body. Qed.
Lemma body_review : fetch "review" body = review.
Proof. read_body. Qed.
Lemma body_claimed : fetch "claimed_outcome" body =
  JStr (match last (typed "run_finished" es) with Some e => text_or "outcome" "" (re_data e) | None => "" end).
Proof. read_body. Qed.

Lemma body_digest : fetch "events_digest" body = JStr ("sha256:" +:+ sha text).
Proof. read_body. Qed.

Lemma body_openspec : dict_get "openspec" body =
  match dict_get "openspec" raw with
  | Some (JObj block) => Some (JObj (obj_set "conformance_result" (conformance es) block))
  | o => o
  end.
Proof.
  unfold body, receipt_body. rewrite get_obj_of, !rev_app_distr, !dict_get_app.
  rewrite (get_absent (fun k => k ∈ OPTIONAL) "openspec" (optional_keys _ _ _ _)) by (apply optional_named || set_solver).
  unfold openspec_keys. destruct (dict_get "openspec" raw) as [[]|]; reflexivity.
Qed.
End body.

(** ** The nodes of a receipt *)

Definition events_of (n : WorkNode) (es : list RunEvent) : list RunEvent :=
  List.filter (fun e => String.eqb (re_node e) (node_id n)) es.

Definition gated (n : WorkNode) : bool := mem (NodeKind.value (kind n)) IMPLEMENT_OR_INTEGRATE.

(** The object [ms] is the record of the node [n]. *)
Definition records_node (es : list RunEvent) (n : WorkNode) (ms : members) : Prop :=
  fetch "kind" ms = JStr (NodeKind.value (kind n)) /\
  (is_str (fetch "final_state" ms) "VALIDATED" = true <-> validated_evidence (events_of n es)).

Lemma events_positive n es : Forall (fun e => 0 < re_seq e) es -> Forall (fun e => 0 < re_seq e) (events_of n es).
Proof.
  intros H. apply Forall_forall. intros e He%list_elem_of_In. apply List.filter_In in He as [He _].
  apply list_elem_of_In in He. by rewrite Forall_forall in H; apply H.
Qed.

Lemma node_records_objects ns es records :
  Forall (fun e => 0 < re_seq e) es -> node_records ns es = Ok records ->
  exists mss, objects (JList records) = Ok mss /\ Forall2 (records_node es) ns mss.
Proof.
  intros Hpos H. unfold node_records in H. apply map_result_ok in H.
  assert (Hm : exists mss, records = map JObj mss /\ Forall2 (records_node es) ns mss).
  { induction H as [|n r ns records Hr _ (mss & -> & IH)]; [exists []; by repeat constructor|].
    apply node_record_shape in Hr as (s & ms & Hs & -> & _ & Hk & Hf). exists (ms :: mss). split; [done|].
    constructor; [|done]. split; [done|]. rewrite Hf. cbn [is_str]. rewrite String.eqb_eq.
    apply final_state_validated; [by apply events_positive|done]. }
  destruct Hm as (mss & -> & Hf). exists mss. split; [|done]. clear.
  assert (map_result (fun x => match x with JObj ms => Ok ms | _ => Err PyTypeError end) (map JObj mss) = Ok mss) as E.
  { apply map_result_ok. induction mss; by constructor. }
  unfold objects. destruct mss; [done|]. exact E.
Qed.

Lemma work_records es ns mss :
  Forall2 (records_node es) ns mss ->
  exists work, work_of mss = Ok work /\ (work <> [] <-> exists n, n ∈ ns /\ gated n = true) /\
    (Forall (fun m => is_str (fetch "final_state" m) "VALIDATED" = true) work <->
     forall n, n ∈ ns -> gated n = true -> validated_evidence (events_of n es)).
Proof.
  induction 1 as [|n ms ns mss [Hk Hv] _ (work & Hw & Hne & Hall)].
  - exists []. split; [done|]. split; [split; [done|set_solver]|]. split; [set_solver|by constructor].
  - cbn [work_of]. rewrite Hk. cbn [in_set mbind result_mbind result_bind]. rewrite Hw. cbn [mbind result_mbind result_bind].
    fold (gated n). destruct (gated n) eqn:Hg; eexists; (split; [reflexivity|]).
    + split; [split; [intros _; exists n; set_solver|done]|]. rewrite Forall_cons, Hall, Hv. set_solver.
    + rewrite Hne, Hall. split.
      * split; intros (x & Hx & Hgx); exists x; [set_solver|]. apply elem_of_cons in Hx as [->|Hx]; [congruence|done].
      * split; intros Hx x Hin Hgx; [|apply Hx; [set_solver|done]].
        apply elem_of_cons in Hin as [->|Hin]; [congruence|by apply Hx].
Qed.

(** ** The barriers of a receipt *)

Lemma obj_entry {V} (ms : list (string * V)) k v : (k, v) ∈ obj_of ms -> dict_get k (obj_of ms) = Some v.
Proof.
  pose proof (obj_of_increasing_keys ms) as H%increasing_spec. revert H. generalize (obj_of ms). clear ms.
  intros ms. induction ms as [|[k' v'] ms IH]; cbn [map fst dict_get]; intros H Hin; [by apply elem_of_nil in Hin|].
  apply StronglySorted_inv in H as [H Hk]. apply elem_of_cons in Hin as [[= <- <-]|Hin]; [by rewrite String.eqb_refl|].
  destruct (String.eqb_spec k k') as [<-|_]; [|by apply IH]. exfalso.
  rewrite Forall_forall in Hk. assert (Hlt : str_ltb k k = true).
  { apply Hk, list_elem_of_In, List.in_map_iff. exists (k, v). split; [done|by apply list_elem_of_In]. }
  apply str_ltb_spec in Hlt as [_ Hne]. done.
Qed.

Lemma last_of_name (name : RunEvent -> string) k es :
  dict_get k (rev (map (fun e => (name e, e)) es)) = last (List.filter (fun e => String.eqb (name e) k) es).
Proof.
  induction es as [|e es IH]; [done|]. cbn [map rev]. rewrite dict_get_app, IH, last_filter_cons. cbn [dict_get].
  rewrite String.eqb_sym. destruct (last _); [done|]. by destruct (String.eqb (name e) k).
Qed.

Definition named_barrier (k : string) (es : list RunEvent) : option RunEvent :=
  last (List.filter (fun e => String.eqb (barrier_name e) k) (typed "barrier" es)).

Lemma barrier_result k es : dict_get k (barrier_results es) = named_barrier k es.
Proof. unfold barrier_results. by rewrite get_obj_of, last_of_name. Qed.

Lemma missing_none ns results : missing_barriers ns results = [] <->
  forall n, n ∈ ns -> barrier n <> "" -> dict_get (barrier n) results <> None.
Proof.
  unfold missing_barriers. set (p := fun b => negb (mem b (map fst results))).
  assert (H : List.filter p (declared_barriers ns) = [] <-> forall b, b ∈ declared_barriers ns -> p b = false).
  { generalize (declared_barriers ns). intros l. induction l as [|b l IH]; cbn [List.filter]; [split; [set_solver|done]|].
    destruct (p b) eqn:E; [split; [done|intros Hb; rewrite Hb in E; [done|set_solver]]|]. rewrite IH. set_solver. }
  rewrite H. unfold p, declared_barriers. setoid_rewrite negb_false_iff. setoid_rewrite mem_spec.
  setoid_rewrite elem_of_sort_str. unfold dedupe. setoid_rewrite dedupe_from_elem. split.
  - intros Hall n Hn Hb Hd. apply dict_get_none in Hd. apply Hd, Hall. split; [|set_solver].
    apply list_elem_of_In, List.filter_In. split; [|by apply negb_true_iff, String.eqb_neq].
    by apply List.in_map, list_elem_of_In.
  - intros Hall b [Hb _]. apply list_elem_of_In, List.filter_In in Hb as [Hb Hne].
    apply negb_true_iff, String.eqb_neq in Hne. apply List.in_map_iff in Hb as (n & <- & Hn%list_elem_of_In).
    destruct (decide (barrier n ∈ map fst results)) as [|Hno]; [done|]. apply dict_get_none in Hno.
    by apply Hall in Hno.
Qed.

Lemma barrier_result_in l e : e ∈ l -> barrier_name e ∈ map fst (obj_of (map (fun e => (barrier_name e, e)) l)).
Proof.
  intros He. destruct (decide (barrier_name e ∈ map fst (obj_of (map (fun e => (barrier_name e, e)) l)))) as [|Hno]; [done|].
  apply dict_get_none in Hno. rewrite get_obj_of, last_of_name in Hno. apply last_None in Hno.
  assert (Hin : e ∈ List.filter (fun x => String.eqb (barrier_name x) (barrier_name e)) l).
  { apply list_elem_of_In, List.filter_In. split; [by apply list_elem_of_In|apply String.eqb_refl]. }
  rewrite Hno in Hin. by apply elem_of_nil in Hin.
Qed.

Lemma integration_holds ns es : integration_ok ns (barrier_results es) = true <->
  (exists e, e ∈ typed "barrier" es) /\
  (forall n, n ∈ ns -> barrier n <> "" -> named_barrier (barrier n) es <> None) /\
  (forall k e, named_barrier k es = Some e -> barrier_ok e = true).
Proof.
  assert (Hn : barrier_results es <> [] <-> exists e, e ∈ typed "barrier" es).
  { unfold barrier_results. destruct (typed "barrier" es) as [|e l]; [split; [done|intros (e & He); by apply elem_of_nil in He]|].
    split; [intros _; exists e; by left|]. intros _ H.
    pose proof (barrier_result_in (e :: l) e ltac:(by left)) as Hb. rewrite H in Hb. by apply elem_of_nil in Hb. }
  assert (Ha : forallb (fun m => barrier_ok m.2) (barrier_results es) = true <->
               forall k e, named_barrier k es = Some e -> barrier_ok e = true).
  { rewrite forallb_forall. split.
    - intros H k e He. rewrite <- barrier_result in He. apply dict_get_elem, list_elem_of_In in He. exact (H _ He).
    - intros H [k e] He%list_elem_of_In. apply obj_entry in He. fold (barrier_results es) in He.
      rewrite barrier_result in He. exact (H k e He). }
  unfold integration_ok. rewrite !andb_true_iff, negb_true_iff, bool_decide_eq_false, bool_decide_eq_true, missing_none, Ha, Hn.
  setoid_rewrite barrier_result. tauto.
Qed.

(** * When a run is COMPLETE *)

Lemma is_str_spec v s : is_str v s = true <-> v = JStr s.
Proof. destruct v; cbn [is_str]; [..|rewrite String.eqb_eq| |]; naive_solver. Qed.

(** The OpenSpec block of a graph is conformed to by the result of the last check. *)
Definition conforms (block : members) (result : json) : Prop :=
  exists check, result = JObj check /\ fetch "status" check = JStr "PASS" /\
    truthy (fetch "spec_revision_digest" block) = true /\
    py_eq (fetch "spec_revision_digest" check) (fetch "spec_revision_digest" block) = true /\
    truthy (fetch "output_sha256" check) = true /\ is_true (fetch "valid" check) = true /\
    truthy (fetch "issues" check) = false /\ py_eq (fetch "exit_code" check) (JInt 0) = true.

(** The evidence of a complete run, in its events, its graph and its review *)
Record complete_run (raw : members) (g : option WorkGraph) (es : list RunEvent) (review : members) : Prop := {
  cr_live : forall e, last (typed "run_finished" es) = Some e -> text_or "outcome" "" (re_data e) <> "CANCELLED";
  cr_openspec : forall v, dict_get "openspec" raw = Some v ->
                exists block, v = JObj block /\ conforms block (conformance es);
  cr_work : exists n, n ∈ plan_nodes g /\ gated n = true;
  cr_nodes : forall n, n ∈ plan_nodes g -> gated n = true -> validated_evidence (events_of n es);
  cr_barrier : exists e, e ∈ typed "barrier" es;
  cr_declared : forall n, n ∈ plan_nodes g -> barrier n <> "" -> named_barrier (barrier n) es <> None;
  cr_barriers : forall k e, named_barrier k es = Some e -> barrier_ok e = true;
  cr_status : fetch "status" review = JStr "PASS";
  cr_blocking : fetch "blocking" review = JInt 0
}.

Lemma openspec_passes r raw es :
  dict_get "openspec" r = match dict_get "openspec" raw with
    | Some (JObj block) => Some (JObj (obj_set "conformance_result" (conformance es) block))
    | o => o
    end ->
  openspec_verdict r = None <->
  forall v, dict_get "openspec" raw = Some v -> exists block, v = JObj block /\ conforms block (conformance es).
Proof.
  unfold openspec_verdict. intros ->. destruct (dict_get "openspec" raw) as [v|]; [|naive_solver].
  destruct v as [| | | | | |block]; try (split; [done|by intros H; destruct (H _ eq_refl) as (? & ? & _)]).
  assert (E1 : fetch "conformance_result" (obj_set "conformance_result" (conformance es) block) = conformance es)
    by (unfold fetch; by rewrite get_obj_set).
  assert (E2 : fetch "spec_revision_digest" (obj_set "conformance_result" (conformance es) block) = fetch "spec_revision_digest" block)
    by (unfold fetch; by rewrite get_obj_set).
  rewrite E1, E2. clear E1 E2.
  transitivity (conforms block (conformance es)); [|naive_solver]. unfold conforms.
  destruct (conformance es) as [| | | | | |check]; try (split; [done|by intros (? & ? & _)]).
  pose proof (is_str_spec (fetch "status" check) "PASS") as Hst.
  destruct (is_str (fetch "status" check) "PASS"); cbn [negb];
    [|split; [discriminate|intros (c & [= <-] & H & _); by apply Hst in H]].
  destruct (truthy (fetch "spec_revision_digest" block)) eqn:?,
    (py_eq (fetch "spec_revision_digest" check) (fetch "spec_revision_digest" block)) eqn:?; cbn [negb orb];
    try (split; [discriminate|intros (c & [= <-] & ?); destruct_and?; congruence]).
  destruct (truthy (fetch "output_sha256" check)) eqn:?, (is_true (fetch "valid" check)) eqn:?,
    (truthy (fetch "issues" check)) eqn:?, (py_eq (fetch "exit_code" check) (JInt 0)) eqn:?; cbn [negb orb];
    try (split; [discriminate|intros (c & [= <-] & ?); destruct_and?; congruence]).
  split; [|done]. intros _. exists check. naive_solver.
Qed.

Lemma review_shape file es v : review_block file es = Ok v ->
  exists ms s n, v = JObj ms /\ fetch "status" ms = JStr s /\ fetch "blocking" ms = JInt n.
Proof.
  unfold review_block. intros H. apply bind_ok in H as (source & _ & H).
  destruct source as [src|]; [apply bind_ok in H as (n & _ & H)|]; injection H as <-;
    do 3 eexists; (split; [reflexivity|]); unfold fetch; rewrite !get_obj_of;
    destruct (typed "review_attempt" es); split; reflexivity.
Qed.

Lemma read_positive ls : forall k n es, read_lines k n ls = Ok es -> Forall (fun e => n < re_seq e) es.
Proof.
  induction ls as [|l ls IH]; intros k n es H; cbn [read_lines] in H; [by injection H as <-|].
  destruct (String.eqb _ _); [by eapply IH|]. destruct (loads l); [|done].
  destruct (event_from_dict j) as [e|[]]; [|done..]. destruct (Z.leb_spec (re_seq e) n); [done|].
  apply bind_ok in H as (rest & Hr & [= <-]). constructor; [done|].
  eapply Forall_impl; [exact (IH _ _ _ Hr)|]. cbn. lia.
Qed.

Lemma get_set_ne k k' v (ms : members) : k <> k' -> fetch k (obj_set k' v ms) = fetch k ms.
Proof. intros H. unfold fetch. rewrite get_obj_set. by rewrite (proj2 (String.eqb_neq _ _) H). Qed.

Lemma get_set k v (ms : members) : fetch k (obj_set k v ms) = v.
Proof. unfold fetch. by rewrite get_obj_set, String.eqb_refl. Qed.

Lemma integration_member ns es : exists block,
  integration_block ns es = JObj block /\ truthy (fetch "ok" block) = integration_ok ns (barrier_results es).
Proof.
  eexists. split; [reflexivity|]. unfold fetch. rewrite get_obj_of.
  change (truthy (JBool (integration_ok ns (barrier_results es))) = integration_ok ns (barrier_results es)).
  by destruct (integration_ok _ _).
Qed.

Section built.
Context (sha256_hex redact_text : string -> string).

(** What the files of a run hold: its events, its graph and its review *)
Definition run_evidence (fs : run_files) (text : string) (raw : members) (g : option WorkGraph)
    (es : list RunEvent) (review : members) : Prop :=
  read_events text = Ok es /\
  (match rf_graph fs with Some t => load_json "graph.json" t | None => Ok [] end) = Ok raw /\
  read_graph raw es = Ok g /\ review_block (rf_review fs) es = Ok (JObj review).

Lemma receipt_exact fs text r : receipt_of sha256_hex redact_text fs text = Ok r ->
  exists raw g es review, run_evidence fs text raw g es review /\
    (fetch "outcome" r = JStr "COMPLETE" <-> complete_run raw g es review) /\
    fetch "schema" r = JStr RECEIPT_SCHEMA /\ fetch "events_digest" r = JStr ("sha256:" +:+ sha256_hex text).
Proof.
  unfold receipt_of. intros H. apply bind_ok in H as (es & Hes & H). apply bind_ok in H as (raw & Hraw & H).
  apply bind_ok in H as (g & Hg & H). apply bind_ok in H as (records & Hrec & H).
  apply bind_ok in H as (review & Hrev & H). apply bind_ok in H as (verdict & Hv & [= <-]).
  destruct (read_events text) as [es'|] eqn:He; [|done]. injection Hes as ->.
  destruct (review_shape _ _ _ Hrev) as (rv & st & n & -> & Hst & Hn).
  exists raw, g, es, rv. split; [done|].
  rewrite get_set_ne, get_set, !get_set_ne by done. rewrite body_schema.
  split; [|split; [done|by apply body_digest]].
  assert (Hpos : Forall (fun e => 0 < re_seq e) es) by by eapply read_positive.
  destruct (node_records_objects _ _ _ Hpos Hrec) as (mss & Hobj & Hmss).
  destruct (work_records _ _ _ Hmss) as (work & Hw & Hne & Hall).
  destruct (integration_member (plan_nodes g) es) as (block & Hblock & Hbok).
  transitivity (verdict.1 = "COMPLETE"); [split; [by intros [=]|by intros ->]|].
  erewrite verdict_complete; [|exact Hv|apply body_schema|rewrite body_nodes; exact Hobj|exact Hw
    |rewrite body_integration; exact Hblock|rewrite body_review; reflexivity].
  pose proof (openspec_passes _ raw es (body_openspec sha256_hex redact_text (rf_name fs) text raw g es records (JObj rv))) as Hos.
  pose proof (integration_holds (plan_nodes g) es) as Hint. rewrite <- Hbok in Hint.
  assert (Hlive : is_str (JStr match last (typed "run_finished" es) with Some e => text_or "outcome" "" (re_data e) | None => "" end) "CANCELLED" = false
    <-> forall e, last (typed "run_finished" es) = Some e -> text_or "outcome" "" (re_data e) <> "CANCELLED").
  { cbn [is_str]. rewrite String.eqb_neq. destruct (last _); naive_solver. }
  split.
  - intros [H1 H2 H3 H4 H5 H6 H7]. rewrite body_claimed in H1.
    apply Hint in H5 as (Hb1 & Hb2 & Hb3). apply is_str_spec in H6. rewrite Hn in H7.
    split; [by apply Hlive|by apply Hos|by apply Hne|by apply Hall|done..|].
    rewrite Hn. by destruct n.
  - intros [H1 H2 H3 H4 H5 H6 H7 H8 H9]. split; [|by apply Hos|by apply Hne|by apply Hall| | |by rewrite H9].
    + rewrite body_claimed. by apply Hlive.
    + by apply Hint.
    + by apply is_str_spec.
Qed.
End built.

(** * Verification *)

Lemma py_eq_text v s : py_eq v (JStr s) = true <-> v = JStr s.
Proof. destruct v; cbn; try (by split; [|intros [=]]). rewrite String.eqb_eq. naive_solver. Qed.

Lemma py_eq_text_l v s : py_eq (JStr s) v = true <-> v = JStr s.
Proof. destruct v; cbn; try (by split; [|intros [=]]). rewrite String.eqb_eq. naive_solver. Qed.

Lemma differing_none fresh stored : differing fresh stored = [] <->
  forall k, k <> "events_digest" -> py_eq (fetch k fresh) (fetch k stored) = true.
Proof.
  unfold differing. set (p := fun k : string => _). split.
  - intros H k Hk. destruct (decide (k ∈ map fst fresh ++ map fst stored)) as [Hin|Hno].
    + destruct (py_eq (fetch k fresh) (fetch k stored)) eqn:E; [done|]. exfalso.
      assert (Hin' : k ∈ List.filter p (sort_str (dedupe (map fst fresh ++ map fst stored)))).
      { apply list_elem_of_In, List.filter_In. split.
        - apply list_elem_of_In, elem_of_sort_str. unfold dedupe. apply dedupe_from_elem. set_solver.
        - unfold p. rewrite E. by rewrite (proj2 (String.eqb_neq _ _) Hk). }
      rewrite H in Hin'. by apply elem_of_nil in Hin'.
    + unfold fetch. rewrite !(proj2 (dict_get_none _ _)); [done|set_solver..].
  - intros H. assert (Hp : forall k, p k = false).
    { intros k. unfold p. destruct (String.eqb_spec k "events_digest") as [|Hk]; [done|]. by rewrite H. }
    generalize (sort_str (dedupe (map fst fresh ++ map fst stored))). intros l.
    induction l as [|k l IH]; [done|]. cbn [List.filter]. by rewrite Hp.
Qed.

Lemma complete_empty s : complete_lines s = "" -> has_newline s = false.
Proof. destruct s as [|c s]; [done|]. cbn. by destruct (_ || _). Qed.

(** The whole lines of a text are none or end with a line feed. *)
Lemma complete_shape s : complete_lines s = "" \/ exists a, complete_lines s = a +:+ String LF "".
Proof.
  induction s as [|c s IH]; [by left|]. cbn [complete_lines]. destruct (_ || _) eqn:E; [|by left]. right.
  destruct IH as [H|(a & ->)]; [|by exists (String c a)].
  rewrite H. apply complete_empty in H. rewrite H, orb_false_r in E. apply Ascii.eqb_eq in E as ->. by exists "".
Qed.

Lemma torn_repaired s t : has_newline t = false ->
  repair_torn_tail (repair_torn_tail s +:+ t) = repair_torn_tail s.
Proof.
  intros Ht. rewrite !repair_complete. destruct (complete_shape s) as [->|(a & ->)].
  - by apply complete_none.
  - rewrite str_app_assoc. by apply complete_app.
Qed.

Lemma get_no_nan k (ms : members) : no_nan (JObj ms) = true -> no_nan (fetch k ms) = true.
Proof.
  intros H. unfold fetch. destruct (dict_get k ms) as [v|] eqn:E; [|done]. cbn in H.
  apply dict_get_elem, list_elem_of_In in E. rewrite forallb_forall in H. exact (H _ E).
Qed.

Definition with_receipt (fs : run_files) (text : string) : run_files :=
  {| rf_name := rf_name fs; rf_events := rf_events fs; rf_graph := rf_graph fs; rf_review := rf_review fs;
     rf_receipt := Some text |}.

Lemma with_own_events fs log : rf_events fs = Some log -> with_events fs log = fs.
Proof. intros H. unfold with_events. rewrite <- H. by destruct fs. Qed.

Section verify.
Context (sha256_hex redact_text : string -> string).

(** A receipt that was written for a directory, after what follows came behind its log *)
Lemma verify_behind fs fs1 r text t :
  build_run_receipt sha256_hex redact_text fs = (fs1, Ok r) -> loads text = Some (JObj r) ->
  no_nan (JObj r) = true -> has_newline t = false ->
  exists log, rf_events fs1 = Some log /\
    verify_run_receipt sha256_hex redact_text (with_receipt (with_events fs1 (log +:+ t)) text)
    = (with_receipt fs1 text,
       Ok (if String.eqb (sha256_hex (log +:+ t)) (sha256_hex log) then [] else [DigestMismatch])).
Proof.
  unfold build_run_receipt. intros H Hl Hn Ht. destruct (rf_events fs) as [s|] eqn:Hs; [|done].
  injection H as <- H. exists (repair_torn_tail s). split; [done|].
  destruct (receipt_exact _ _ _ _ _ H) as (raw & g & es & review & _ & _ & Hsch & Hdig).
  unfold verify_run_receipt. cbn [rf_receipt with_receipt]. unfold load_json at 1. rewrite Hl.
  cbn [rf_events with_receipt with_events]. rewrite Hsch, Hdig. cbn [is_str].
  unfold build_run_receipt. cbn [rf_events with_receipt with_events]. rewrite torn_repaired by done.
  change (receipt_of sha256_hex redact_text (with_receipt (with_events (with_events fs (repair_torn_tail s)) (repair_torn_tail s +:+ t)) text) (repair_torn_tail s))
    with (receipt_of sha256_hex redact_text fs (repair_torn_tail s)). rewrite H, String.eqb_refl.
  rewrite (proj2 (differing_none r r)) by (intros k _; by apply py_eq_refl, get_no_nan).
  f_equal. cbn [app map]. rewrite app_nil_r. rewrite String.eqb_sym.
  destruct (String.eqb_spec (sha256_hex (repair_torn_tail s +:+ t)) (sha256_hex (repair_torn_tail s))) as [->|Hne];
    [by rewrite String.eqb_refl|].
  rewrite (proj2 (String.eqb_neq _ _)); [done|]. intros E%append_inj. done.
Qed.

(** A receipt that is written verifies: whatever [build_run_receipt] builds for a run, once it is
    the receipt of the directory that building leaves, [verify_run_receipt] finds no problem and changes
    nothing. *)
Theorem written_receipt_verifies fs fs1 r text :
  build_run_receipt sha256_hex redact_text fs = (fs1, Ok r) -> loads text = Some (JObj r) ->
  no_nan (JObj r) = true ->
  verify_run_receipt sha256_hex redact_text (with_receipt fs1 text) = (with_receipt fs1 text, Ok []).
Proof.
  intros H Hl Hn. destruct (verify_behind _ _ _ _ "" H Hl Hn eq_refl) as (log & Hlog & Hv).
  by rewrite str_app_nil_r, String.eqb_refl, (with_own_events _ _ Hlog) in Hv.
Qed.

(** Text without a line end that is added to the log is told once: verifying it cuts it off, and the next
    verification finds no problem. *)
Theorem verification_repairs fs fs1 r text log t :
  build_run_receipt sha256_hex redact_text fs = (fs1, Ok r) -> loads text = Some (JObj r) ->
  no_nan (JObj r) = true -> rf_events fs1 = Some log -> has_newline t = false ->
  sha256_hex (log +:+ t) <> sha256_hex log ->
  let tampered := with_receipt (with_events fs1 (log +:+ t)) text in
  verify_run_receipt sha256_hex redact_text tampered = (with_receipt fs1 text, Ok [DigestMismatch]) /\
  verify_run_receipt sha256_hex redact_text (with_receipt fs1 text) = (with_receipt fs1 text, Ok []).
Proof.
  intros H Hl Hn Hlog Ht Hne tampered. destruct (verify_behind _ _ _ _ t H Hl Hn Ht) as (log' & Hlog' & Hv).
  rewrite Hlog in Hlog'. injection Hlog' as <-. rewrite (proj2 (String.eqb_neq _ _) Hne) in Hv. split; [exact Hv|].
  destruct (verify_behind _ _ _ _ "" H Hl Hn eq_refl) as (log' & Hlog' & Hv').
  rewrite Hlog in Hlog'. injection Hlog' as <-.
  by rewrite str_app_nil_r, String.eqb_refl, (with_own_events _ _ Hlog) in Hv'.
Qed.

(** C28: a receipt that verifies tells the truth: its outcome is COMPLETE exactly when the event log, the
    graph and the review of the directory hold the evidence: the run was not cancelled, an OpenSpec block
    is conformed to, there are implement or integrate nodes and each has a check that passed after its
    last success and was not revoked since, there is a barrier, each declared one is recorded and
    the last result of each is ok, and the review passed without blocking findings; and the digest of
    the receipt is that of the log. *)
Theorem verified_receipt_exact fs fs' text :
  rf_receipt fs = Some text -> verify_run_receipt sha256_hex redact_text fs = (fs', Ok []) ->
  exists stored log raw g es review,
    loads text = Some (JObj stored) /\ rf_events fs = Some log /\
    fetch "schema" stored = JStr RECEIPT_SCHEMA /\
    fetch "events_digest" stored = JStr ("sha256:" +:+ sha256_hex log) /\
    run_evidence fs (repair_torn_tail log) raw g es review /\
    (fetch "outcome" stored = JStr "COMPLETE" <-> complete_run raw g es review).
Proof.
  unfold verify_run_receipt, build_run_receipt. intros -> H.
  destruct (load_json "receipt.json" text) as [stored|] eqn:Hl; [|done].
  destruct (rf_events fs) as [log|] eqn:Hlog; [|by destruct (is_str (fetch "schema" stored) RECEIPT_SCHEMA)].
  destruct (receipt_of _ _ fs (repair_torn_tail log)) as [fresh|e] eqn:Hb.
  2:{ destruct (is_orchestration e); [|done]. by destruct (is_str (fetch "schema" stored) RECEIPT_SCHEMA),
        (is_str (fetch "events_digest" stored) ("sha256:" +:+ sha256_hex log)). }
  destruct (receipt_exact _ _ _ _ _ Hb) as (raw & g & es & review & Hev & Hout & _ & _).
  destruct (is_str (fetch "schema" stored) RECEIPT_SCHEMA) eqn:Hs; [|done].
  destruct (is_str (fetch "events_digest" stored) ("sha256:" +:+ sha256_hex log)) eqn:Hd; [|done].
  destruct (differing fresh stored) as [|] eqn:Hdiff; [|done].
  apply is_str_spec in Hs, Hd. exists stored, log, raw, g, es, review.
  split. { unfold load_json in Hl. destruct (loads text) as [[]|]; congruence. }
  split; [done|]. split; [done|]. split; [done|]. split; [done|]. rewrite <- Hout.
  pose proof (proj1 (differing_none _ _) Hdiff "outcome" ltac:(done)) as Ho.
  split; intros E; rewrite E in Ho; [by apply py_eq_text|by apply py_eq_text_l].
Qed.
End verify.

(** * A small run *)

Module RunSample.
Definition sha (s : string) : string := str_of_Z (Z.of_nat (String.length s)).
Definition same (s : string) : string := s.
Definition event (n : Z) (type node : string) (data : members) : RunEvent :=
  {| re_seq := n; re_at := "2026-01-01T00:00:00Z"; re_type := type; re_node := node; re_data := obj_of data |}.

Definition events (passed : bool) : list RunEvent :=
  [event 1 "run_started" "" [("run_id", JStr "r1")];
   event 2 "dispatch" "n1" [("attempt", JInt 1); ("route_id", JStr "p/m"); ("provider", JStr "p")];
   event 3 "terminal" "n1" [("attempt", JInt 1); ("ok", JBool true); ("reported_model", JStr "p/m");
                            ("duration_seconds", JInt 4)];
   event 4 "verify" "n1" [("ok", JBool passed); ("command", JStr "pytest"); ("exit_code", JInt 0)];
   event 5 "barrier" "" [("name", JStr "merge"); ("ok", JBool true)];
   event 6 "review" "" [("status", JStr "pass"); ("reviewer", JStr "r"); ("blocking", JInt 0)];
   event 7 "run_finished" "" [("outcome", JStr "COMPLETE")]].

Definition graph : json :=
  obj [("goal", JStr "g"); ("run_id", JStr "r1");
       ("nodes", JList [obj [("node_id", JStr "n1"); ("objective", JStr "o"); ("owned_files", strings ["a.py"]);
                             ("acceptance", strings ["works"]); ("verification_command", strings ["pytest"]);
                             ("barrier", JStr "merge")]])].

Definition run (passed : bool) : run_files :=
  {| rf_name := "run-1"; rf_events := Some (text_of (map event_line (events passed)));
     rf_graph := Some (dumps false graph); rf_review := None; rf_receipt := None |}.

(** Building it, and the receipt *)
Definition built (passed : bool) : run_files * res members := build_run_receipt sha same (run passed).
Definition sample : members := Eval vm_compute in match (built true).2 with Ok r => r | Err _ => [] end.
Definition written : string := Eval vm_compute in dumps false (JObj sample).
End RunSample.

Lemma sample_built : RunSample.built true = (RunSample.run true, Ok RunSample.sample).
Proof. vm_compute. reflexivity. Qed.

Lemma sample_read : loads RunSample.written = Some (JObj RunSample.sample).
Proof. vm_compute. reflexivity. Qed.

(** The sample is COMPLETE, and without the check that passed it is not. *)
Example sample_outcomes :
  fetch "outcome" RunSample.sample = JStr "COMPLETE" /\
  (exists r, (RunSample.built false).2 = Ok r /\ fetch "outcome" r = JStr "BLOCKED" /\
     fetch "reason" r = JStr "node n1 not VALIDATED (final_state=TERMINAL_SUCCESS)").
Proof. split; [reflexivity|]. eexists. split; [vm_compute; reflexivity|]. split; reflexivity. Qed.

Lemma written_receipt_verifies_witness :
  verify_run_receipt RunSample.sha RunSample.same (with_receipt (RunSample.run true) RunSample.written)
  = (with_receipt (RunSample.run true) RunSample.written, Ok []).
Proof.
  apply (written_receipt_verifies RunSample.sha RunSample.same (RunSample.run true) (RunSample.run true) RunSample.sample).
  - exact sample_built.
  - exact sample_read.
  - reflexivity.
Defined.

Lemma verified_receipt_exact_witness :
  exists raw g es review, complete_run raw g es review /\ last es = last (RunSample.events true).
Proof.
  assert (Hv : verify_run_receipt RunSample.sha RunSample.same (with_receipt (RunSample.run true) RunSample.written)
    = (with_receipt (RunSample.run true) RunSample.written, Ok [])) by (vm_compute; reflexivity).
  destruct (verified_receipt_exact RunSample.sha RunSample.same (with_receipt (RunSample.run true) RunSample.written)
    (with_receipt (RunSample.run true) RunSample.written) RunSample.written eq_refl Hv)
    as (stored & log & raw & g & es & review & Hl & Hlog & _ & _ & Hev & Hout).
  rewrite sample_read in Hl. injection Hl as <-. injection Hlog as <-.
  exists raw, g, es, review. split; [apply Hout; reflexivity|].
  destruct Hev as [Hes _].
  assert (E : Ok es = Ok (E := log_exn) (RunSample.events true)) by (rewrite <- Hes; vm_compute; reflexivity).
  injection E as ->. reflexivity.
Defined.

(** Text that came behind the log of the sample is told once. *)
Lemma verification_repairs_witness :
  let fs := with_receipt (RunSample.run true) RunSample.written in
  let tampered := with_receipt (with_events (RunSample.run true)
                    (text_of (map event_line (RunSample.events true)) +:+ "x")) RunSample.written in
  verify_run_receipt RunSample.sha RunSample.same tampered = (fs, Ok [DigestMismatch]) /\
  verify_run_receipt RunSample.sha RunSample.same fs = (fs, Ok []).
Proof.
  apply (verification_repairs RunSample.sha RunSample.same (RunSample.run true) (RunSample.run true) RunSample.sample).
  - exact sample_built.
  - exact sample_read.
  - reflexivity.
  - reflexivity.
  - reflexivity.
  - vm_compute. discriminate.
Defined.
